(* ===== verification/_CoqProject ===== *)
-Q . S2P
Prelude.v
Bytes.v
Text.v
Steps.v
Diagnostics.v
Schema.v
Canonical.v
Sample.v
Codec.v
Caps.v
Enforce.v
Chain.v
Revocations.v
Pipeline.v
UdpRegistry.v
UnixFs.v
Streams.v
GatewayHttp.v
Terminal.v
QueryStripper.v
ResponseFilter.v
ModeTracker.v
Labels.v
Files.v
Peers.v
Tickets.v
Invites.v
InviteCode.v
HexDemo.v
Pairing.v
Trust.v
PairDemo.v
Resolve.v
ResolveDemo.v
Watchdog.v
HerdrWire.v
Framing.v
ShortCode.v
Pty.v
Tmux.v
Providers.v
Proxy.v
SessionHandler.v
HerdrLanes.v
HerdrResize.v
HerdrRender.v
Socks.v
Forwarding.v
Redial.v
ShellSpawn.v
ShellPumps.v
AttachDisplay.v
AttachV2.v
AttachInput.v
AttachReconnect.v
GhosttyReplay.v
GhosttyReload.v
GhosttyView.v
GhosttyHelper.v
GhosttyAttach.v
