(* ===== verification/Prelude.v ===== *)
(** * Portl: a verification development

    Portl gives remote access to a machine through an agent that accepts QUIC
    connections.  A client presents a ticket, a signed set of capabilities that may have
    been delegated along a chain; the agent checks it, opens a session, and serves
    streams (shell, TCP, UDP, Unix sockets, metadata, persistent sessions) within the
    capabilities.  The development models that path from the ticket to the effects of a
    stream, the stores and the pairing that decide who is trusted, and what carries the
    bytes of a terminal between a process and the user.  Paths below are relative to
    src/crates.

    ** Files

    Shared:
    - Prelude.v: results and their monad, machine integers as [Z] with explicit
      saturation and wrap-around, the Rust string functions used, sorted lists.
    - Bytes.v, Text.v: bytes, UTF-8, splitting, decimals, IP addresses.
    - Steps.v: a monad for the parts of a stateful loop, with weakest preconditions.
    - Sample.v, HexDemo.v: concrete serialisers, used only to instantiate parameters.

    Tickets and authority:
    - Schema.v, Canonical.v, Codec.v: portl-core/src/ticket/{schema,canonical,codec,
      hash,sign}.rs, the data of tickets, their normal form, their bytes.
    - Caps.v: portl-core/src/caps.rs, the narrowing test of delegation.
    - Enforce.v: portl-agent/src/caps_enforce.rs and target_context.rs.
    - Chain.v: ticket/{verify,mint,master,offer}.rs.
    - Revocations.v: portl-agent/src/revocations.rs; the set, its file and the
      cancellation tokens of live sessions, with a step relation over all operations.
    - Pipeline.v: portl-agent/src/pipeline.rs and the handshake of ticket_handler.rs.

    Streams of the agent:
    - Streams.v: the dispatch of ticket_handler.rs and the handlers of tcp_handler.rs,
      unix_handler.rs, udp_handler.rs, gateway.rs, meta_handler.rs and shell_handler/,
      as the list of their effects.
    - UdpRegistry.v, UnixFs.v, GatewayHttp.v: udp_registry.rs, the file system work of
      unix_handler.rs, the header rewriting of gateway.rs.
    - ShellSpawn.v, ShellPumps.v, Pty.v: portl-agent/src/shell_handler/, the processes,
      the streams of a process, the task of a pseudo-terminal.
    - Watchdog.v: portl-agent/src/network_watchdog.rs and, of the accept loop of lib.rs, the
      refreshes of the endpoint.

    Persistent sessions:
    - Providers.v, SessionHandler.v: session_handler/{provider,mod}.rs, the programs that
      keep sessions and the requests of the session protocol.
    - Tmux.v: terminal/tmux_cc.rs and session_handler/tmux_control.rs.
    - HerdrWire.v, HerdrLanes.v, HerdrResize.v, HerdrRender.v: portl-core/src/
      herdr_wire.rs and session_handler/herdr.rs, by queue.
    - Framing.v: portl-core/src/io.rs, terminal/zmx_control.rs, wire/session.rs.
    - GhosttyReplay.v, GhosttyReload.v, GhosttyView.v, GhosttyHelper.v, GhosttyAttach.v:
      session_handler/ghostty.rs: the history and what is replayed of it, reloads,
      snapshots, the loop of the helper process ([run_helper]), and what is between it and
      the client ([handle_client], [attach_v2_dispatch_loop]).

    The user's terminal:
    - Terminal.v, QueryStripper.v, ResponseFilter.v, ModeTracker.v: the filters and the
      mode tracker of portl-core/src.
    - AttachDisplay.v, AttachV2.v: the display and the loop of an attached client,
      portl-cli/src/commands/session.rs and portl-core/src/attach_control.rs.
    - AttachInput.v, AttachReconnect.v: of the same file the task that reads the keyboard
      ([attach_input_coordinator_loop], [stdin_loop]) and the attempts to reattach
      ([reconnect_remote_session]) with the loop around them.

    Who is trusted, and names:
    - Files.v, Peers.v, Tickets.v, Invites.v: the stores of portl-core/src and how their
      files are replaced.
    - InviteCode.v, Pairing.v, Trust.v: pair_code.rs, pair_handler.rs, pair_accept.rs, the
      trust roots of config.rs and lib.rs; PairDemo.v holds witnesses.
    - Labels.v, Resolve.v, ShortCode.v: labels.rs, target_resolve.rs, ticket_save.rs,
      session_share.rs, rendezvous/short_code.rs; ResolveDemo.v holds witnesses.

    The command line and its connections:
    - Forwarding.v, Socks.v, Redial.v: portl-cli/src/commands/{tcp,udp,socket,forwarding,
      socks,network_lifecycle,persistent_forward}.rs.
    - Proxy.v, Diagnostics.v: portl-core/src/{proxy,diagnostics}.rs.

    ** What is shown

    - Tickets: the canonical check decides canonical form, which is a normal form;
      encoding and decoding are inverse; minted tickets verify; depth is bounded.
    - Authority: an accepted chain is signed by one trusted key and in force; narrowing
      is sound for shell, TCP connect, UDP and Unix requests, so a session, and every
      such effect of its streams, is permitted by each ticket of the chain in its offer
      ([end_to_end_authority]).  TCP listeners are the exception: narrowing contains them
      only without wildcard host rules or on loopback, and a theorem shows how it fails
      otherwise.
    - Acceptance: the offer pipeline accepts exactly the acceptable offers, and agrees
      with [verify_chain] up to the bearer.
    - Revocations: batches are atomic, survive a restart, and signal the sessions
      registered under a revoked ticket, provided the session was registered before.
    - Sessions: what the session handler runs is what the capabilities permit, a request
      is answered once, the provider is the one the rules name; a process starts with the
      user, groups and limits that were decided.
    - Bytes in order: the queues and loops between a process and the client (shell pumps,
      PTY task, tmux control mode, herdr lanes) lose, double and reorder nothing while no
      read or write fails, and say when they refuse input; terminal queries are removed
      where the code removes them; coalesced resizes settle on the last one.
    - The terminal: what the user sees of a session is a continuous piece of its output up
      to the present, without queries, but for the start of a full-screen program in the
      second after a reload ([lacks_little]); when raw mode ends, the modes are reset.
      What is typed, without command keys, while connections come and go reaches the
      sessions in order; the attempts to reattach end, and leave no connection behind.
    - Ghostty sessions: the chain from the process over helper, handler and dispatcher to
      the client keeps that promise whatever its parts do ([attach_shows_output]), as long
      as frames arrive whole and in the order they were queued; of well-formed output what is
      replayed has only text and colours, however it is cut; a reload whose window is not
      overrun sends it and ends.
    - Trust: pairing grants what the invite says, once; a target resolves to a ticket of
      the label; the stores survive crashes; labels and codes are canonical.
    - Connections: the plan of a forward asks for the capabilities it uses, for ports other
      than 0; a refresh of the agent's endpoint that is waited for is carried out; a lost
      connection is redialled within bounds; a proxy tunnel hands on exactly the bytes
      after the answer.
    - Where the code departs from its intent a theorem exhibits it; among these
      [listen_wildcard_widens], [gateway_lf_smuggles_header], [udp_quota_escape],
      [mint_delegated_drops_bearer], [late_registration_not_signalled],
      [overtaken_viewport_rewinds], [fullscreen_start_elided], [stale_size_freezes],
      [buffered_input_lost], [paste_cancel_drops_nothing], [early_disconnect_is_visible],
      [hidden_escape_replayed], [cut_changes_replay], [reload_taken_over].

    ** Parameters, bounds and fuel

    Libraries are type classes with the laws that are used: postcard, Ed25519, SHA-256,
    the iroh types, hex, base32, zstd, URLs and JSON.  No theorem assumes that SHA-256
    has no collisions or that signatures cannot be forged: [signed_by] says that
    verification accepts.  The clock, random draws, name lookup and the operating system
    are arguments.  Loops are structural where they can be; a list of draws stands for
    the retries of a random choice ([None] when it runs out), symbolic links are followed
    at most 40 times, as Linux does, and a reader's loop takes the length of what is
    still to come as its fuel, with a lemma that it suffices; the wait for a command key
    has 21 rounds of 100 ms for its two seconds, and the attempts to reattach 1203 for
    their two minutes ([coordinator_fuelled], [reconnect_ends]); a reload needs 18 turns of
    the helper for its megabyte ([reload_exact]).  The terminal library of ghostty is a
    record of functions.  Tasks that run beside
    each other are step relations, one step per access to shared data.

    ** Not modelled

    The accept loop but for the refreshes, metrics and audit events, the set-up of the ghostty helper (its files,
    sockets and process; in SessionHandler.v the built-in sessions are a record of
    operations), the QUIC connections of the clients,
    service installation and the other parts of the command line that only print or call
    the system, the foreign function interface and the adapters.  An operation that holds
    a lock is one step, and what is done without it is a step of its own; in UnixFs.v other processes are assumed not to act in between. *)

From stdpp Require Export base gmap strings list fin_maps sorting.
From Stdlib Require Export ZArith Lia.
From Stdlib Require Ascii.
From Stdlib Require Import Sorting.Sorted.

#[global] Open Scope Z_scope.
#[global] Set Default Goal Selector "!".

(** Byte strings: [Vec<u8>], [&[u8]] and fixed arrays [[u8; n]] alike. *)
Abbreviation bytes := (list Z).

(** ** Results

    Rust's [Result<A, E>] with the [?] operator as monadic bind. *)

Inductive result (E A : Type) : Type :=
  | Ok (a : A)
  | Err (e : E).
Arguments Ok {E A} a.
Arguments Err {E A} e.

#[export] Instance result_ret {E} : MRet (result E) := λ A a, Ok a.
#[export] Instance result_bind {E} : MBind (result E) :=
  λ A B f m, match m with Ok a => f a | Err e => Err e end.

#[export] Instance result_eq_dec {E A} `{EqDecision E} `{EqDecision A} :
  EqDecision (result E A).
Proof. solve_decision. Defined.

(** [if !b { return Err(e) }] *)
Definition ensure {E} (b : bool) (e : E) : result E unit :=
  if b then Ok tt else Err e.

(** [opt.ok_or(e)?] *)
Definition ok_or {E A} (o : option A) (e : E) : result E A :=
  match o with Some a => Ok a | None => Err e end.

(** [r.map_err(f)] *)
Definition map_err {E F A} (f : E → F) (r : result E A) : result F A :=
  match r with Ok a => Ok a | Err e => Err (f e) end.

Definition is_ok {E A} (r : result E A) : bool :=
  match r with Ok _ => true | Err _ => false end.

(** [for x in xs { f(x)?; }] *)
Fixpoint for_each {E A} (f : A → result E unit) (l : list A) : result E unit :=
  match l with
  | [] => Ok tt
  | x :: l' => f x;; for_each f l'
  end.

(** [for w in xs.windows(2) { f(&w[0], &w[1])?; }] *)
Fixpoint for_windows2 {E A} (f : A → A → result E unit) (l : list A) : result E unit :=
  match l with
  | x :: ((y :: _) as l') => f x y;; for_windows2 f l'
  | _ => Ok tt
  end.

(** [xs.iter().map(f).collect::<Result<Vec<_>, _>>()] *)
Fixpoint try_map {E A B} (f : A → result E B) (l : list A) : result E (list B) :=
  match l with
  | [] => Ok []
  | x :: l' => y ← f x; ys ← try_map f l'; Ok (y :: ys)
  end.

(** ** Machine integers

    Unsigned integers are [Z] kept in range; the operations below write out what
    the source's operators do at the ends of the range. *)

Definition U8_MAX : Z := 255.
Definition U16_MAX : Z := 65535.
Definition U32_MAX : Z := 4294967295.
Definition U64_MAX : Z := 18446744073709551615.

Definition u8_range (n : Z) : Prop := 0 ≤ n ≤ U8_MAX.
Definition u64_range (n : Z) : Prop := 0 ≤ n ≤ U64_MAX.

Definition saturating_add (max a b : Z) : Z := Z.min max (a + b).
Definition saturating_mul (max a b : Z) : Z := Z.min max (a * b).
Definition saturating_sub (a b : Z) : Z := Z.max 0 (a - b).
Definition checked_add (max a b : Z) : option Z :=
  if a + b <=? max then Some (a + b) else None.
Definition checked_sub (a b : Z) : option Z :=
  if b <=? a then Some (a - b) else None.
Definition wrapping (bits n : Z) : Z := n `mod` 2 ^ bits.

(** ** Strings

    A Rust [str] is the list of its UTF-8 bytes, which is what [string] holds;
    [str::cmp] is the bytewise lexicographic order [String.compare]. *)

Definition starts_with (p s : string) : bool := String.prefix p s.

Fixpoint strip_prefix (p s : string) : option string :=
  match p, s with
  | EmptyString, _ => Some s
  | String a p', String b s' => if decide (a = b) then strip_prefix p' s' else None
  | _, _ => None
  end.

Fixpoint strip_suffix (suf s : string) : option string :=
  if decide (s = suf) then Some EmptyString
  else match s with
       | EmptyString => None
       | String c s' => String c <$> strip_suffix suf s'
       end.

Definition ends_with (suf s : string) : bool := bool_decide (is_Some (strip_suffix suf s)).

Definition char_code (c : Ascii.ascii) : Z := Z.of_N (Ascii.N_of_ascii c).

Fixpoint str_bytes (s : string) : bytes :=
  match s with
  | EmptyString => []
  | String c s' => char_code c :: str_bytes s'
  end.

Fixpoint str_contains_byte (b : Z) (s : string) : bool :=
  match s with
  | EmptyString => false
  | String c s' => (char_code c =? b) || str_contains_byte b s'
  end.

(** [s.split(c)] for an ASCII separator *)
Fixpoint str_split (sep : Z) (s : string) : list string :=
  match s with
  | EmptyString => [EmptyString]
  | String c s' =>
      if char_code c =? sep then EmptyString :: str_split sep s'
      else match str_split sep s' with
           | [] => [String c EmptyString]
           | seg :: segs => String c seg :: segs
           end
  end.

(** [s.trim()]: the Unicode [White_Space] characters, as UTF-8 byte sequences. *)
Definition ascii_ws (b : Z) : bool := (9 <=? b) && (b <=? 13) || (b =? 32).
Definition ws2 (a b : Z) : bool := (a =? 194) && ((b =? 133) || (b =? 160)).
Definition ws3 (a b c : Z) : bool :=
  (a =? 225) && (b =? 154) && (c =? 128) || (a =? 226) && (b =? 129) && (c =? 159) ||
  (a =? 227) && (b =? 128) && (c =? 128) ||
  (a =? 226) && (b =? 128)
    && ((128 <=? c) && (c <=? 138) || (c =? 168) || (c =? 169) || (c =? 175)).

Definition leading_ws (l : bytes) : nat :=
  match l with
  | [] => 0%nat
  | a :: r =>
      if ascii_ws a then 1%nat
      else match r with
           | b :: r2 =>
               if ws2 a b then 2%nat
               else match r2 with c :: _ => if ws3 a b c then 3%nat else 0%nat | [] => 0%nat end
           | [] => 0%nat
           end
  end.

(** The same on a reversed byte string. *)
Definition trailing_ws (l : bytes) : nat :=
  match l with
  | [] => 0%nat
  | c :: r =>
      if ascii_ws c then 1%nat
      else match r with
           | b :: r2 =>
               if ws2 b c then 2%nat
               else match r2 with a :: _ => if ws3 a b c then 3%nat else 0%nat | [] => 0%nat end
           | [] => 0%nat
           end
  end.

Fixpoint drop_ws (ws : bytes → nat) (fuel : nat) (l : bytes) : bytes :=
  match fuel, ws l with
  | O, _ | _, O => l
  | S fuel', n => drop_ws ws fuel' (drop n l)
  end.

Definition trim_bytes (l : bytes) : bytes :=
  let l' := drop_ws leading_ws (length l) l in
  reverse (drop_ws trailing_ws (length l') (reverse l')).

Definition str_of_bytes (l : bytes) : string :=
  foldr (λ b, String (Ascii.ascii_of_N (Z.to_N b))) EmptyString l.

Definition trim (s : string) : string := str_of_bytes (trim_bytes (str_bytes s)).

(** ASCII classes and case folding on bytes. *)
Definition is_ascii_digit (b : Z) : bool := (48 <=? b) && (b <=? 57).
Definition to_ascii_lowercase (b : Z) : Z := if (65 <=? b) && (b <=? 90) then b + 32 else b.

Definition str_to_ascii_lowercase (s : string) : string :=
  str_of_bytes (to_ascii_lowercase <$> str_bytes s).

Definition eq_ignore_ascii_case (s t : string) : bool :=
  bool_decide (to_ascii_lowercase <$> str_bytes s = to_ascii_lowercase <$> str_bytes t).

(** ** Lemmas: results *)

Lemma bind_Ok {E A B} (m : result E A) (f : A → result E B) b :
  (m ≫= f) = Ok b ↔ ∃ a, m = Ok a ∧ f a = Ok b.
Proof.
  destruct m as [a|e]; simpl; split.
  - by exists a.
  - by intros (? & [= ->] & ?).
  - done.
  - by intros (? & ? & ?).
Qed.

Lemma bind_Err {E A B} (m : result E A) (f : A → result E B) e :
  (m ≫= f) = Err e ↔ m = Err e ∨ ∃ a, m = Ok a ∧ f a = Err e.
Proof. destruct m; simpl; naive_solver. Qed.

Lemma bind_tt {E A} (m : result E unit) (k : result E A) a :
  (m;; k) = Ok a ↔ m = Ok tt ∧ k = Ok a.
Proof. rewrite bind_Ok. split; [by intros ([] & ? & ?) | intros [? ?]; by exists tt]. Qed.

Section results.
Context {E A B : Type}.
Implicit Types (m : result E A).

Lemma ensure_Ok b (e : E) u : ensure b e = Ok u ↔ b = true.
Proof. destruct b, u; naive_solver. Qed.

Lemma ok_or_Ok (o : option A) (e : E) a : ok_or o e = Ok a ↔ o = Some a.
Proof. destruct o; naive_solver. Qed.

Lemma map_err_Ok {F} (f : E → F) m a : map_err f m = Ok a ↔ m = Ok a.
Proof. destruct m; naive_solver. Qed.

Lemma for_each_Ok (f : A → result E unit) l :
  for_each f l = Ok tt ↔ Forall (λ x, f x = Ok tt) l.
Proof.
  induction l as [|x l IH]; simpl.
  - split; [constructor | done].
  - rewrite Forall_cons, bind_Ok, <- IH. split.
    + intros ([] & ? & ?). done.
    + intros [? ?]. by exists tt.
Qed.

Lemma for_windows2_Ok (f : A → A → result E unit) l :
  for_windows2 f l = Ok tt ↔ Sorted (λ x y, f x y = Ok tt) l.
Proof.
  induction l as [|x l IH]; [simpl; split; [constructor | done] |].
  destruct l as [|y l].
  - simpl. split; [intros _; repeat constructor | done].
  - change (for_windows2 f (x :: y :: l)) with (f x y;; for_windows2 f (y :: l)).
    rewrite bind_Ok. split.
    + intros ([] & ? & ?%IH). constructor; [done | by constructor].
    + intros [Hs Hhd]%Sorted_inv. inversion Hhd; subst. exists tt.
      split; [done | by apply IH].
Qed.

Lemma try_map_Ok (f : A → result E B) l k :
  try_map f l = Ok k ↔ Forall2 (λ x y, f x = Ok y) l k.
Proof.
  revert k. induction l as [|x l IH]; intros k; simpl.
  - split; [intros [= <-]; constructor | by intros ->%Forall2_nil_inv_l].
  - rewrite bind_Ok. split.
    + intros (y & Hy & (ys & Hys%IH & [= <-])%bind_Ok). by constructor.
    + intros (y & ys & Hy & Hys & ->)%Forall2_cons_inv_l. exists y. split; [done |].
      apply bind_Ok. exists ys. by rewrite IH.
Qed.
End results.

(** ** Lemmas: strings *)

Lemma str_app_cons a s t : String a s +:+ t = String a (s +:+ t).
Proof. done. Qed.

Lemma str_app_nil_r (s : string) : s +:+ "" = s.
Proof. induction s as [|c s IH]; [done | by rewrite str_app_cons, IH]. Qed.

Lemma str_app_assoc (s t u : string) : s +:+ (t +:+ u) = (s +:+ t) +:+ u.
Proof. induction s as [|c s IH]; [done | by rewrite !str_app_cons, IH]. Qed.

Lemma starts_with_spec p s : starts_with p s = true ↔ ∃ t, s = p +:+ t.
Proof.
  unfold starts_with. revert s. induction p as [|a p IH]; intros s.
  - split; [by exists s | by destruct s].
  - destruct s as [|b s]; simpl; [split; [done | by intros [? ?]] |].
    destruct (Ascii.ascii_dec a b) as [->|Hne].
    + rewrite IH. split; intros [t Ht]; exists t; [by rewrite Ht | by injection Ht].
    + split; [done |]. intros [t Ht]. by injection Ht.
Qed.

Lemma strip_prefix_spec p s t : strip_prefix p s = Some t ↔ s = p +:+ t.
Proof.
  revert s. induction p as [|a p IH]; intros s; simpl.
  - split; [by intros [= ->] | by intros ->].
  - destruct s as [|b s]; [done |]. case_decide as Hab; subst.
    + rewrite IH, str_app_cons. split; [by intros -> | by intros [= ->]].
    + split; [done |]. rewrite str_app_cons. by intros [= ?].
Qed.

Lemma str_length_app (s t : string) :
  String.length (s +:+ t) = (String.length s + String.length t)%nat.
Proof. induction s as [|c s IH]; [done | by rewrite str_app_cons; simpl; rewrite IH]. Qed.

Lemma str_app_inj_r (s s' t : string) : s +:+ t = s' +:+ t → s = s'.
Proof.
  revert s'. induction s as [|c s IH]; intros [|c' s'] H; [done | | |].
  - apply (f_equal String.length) in H. rewrite !str_length_app in H. simpl in H. lia.
  - apply (f_equal String.length) in H. rewrite !str_length_app in H. simpl in H. lia.
  - rewrite !str_app_cons in H. injection H as -> H. by rewrite (IH _ H).
Qed.

Lemma strip_suffix_spec suf s t : strip_suffix suf s = Some t ↔ s = t +:+ suf.
Proof.
  revert t. induction s as [|c s IH]; intros t; simpl; case_decide as Hs.
  - subst. split; [by intros [= <-] |]. by destruct t.
  - split; [done |]. destruct t; intros Ht; [by destruct Hs | done].
  - split; [intros [= <-]; by rewrite <- Hs |]. intros Ht. f_equal.
    rewrite <- Hs in Ht. symmetry. by apply (str_app_inj_r t "" (String c s)).
  - rewrite fmap_Some. split.
    + intros (t' & Ht' & ->). apply IH in Ht'. by rewrite str_app_cons, <- Ht'.
    + destruct t as [|c' t]; [intros Ht; by destruct Hs |]. rewrite str_app_cons. intros [= -> ?].
      exists t. by rewrite IH.
Qed.

Lemma ends_with_spec suf s : ends_with suf s = true ↔ ∃ t, s = t +:+ suf.
Proof.
  unfold ends_with. rewrite bool_decide_eq_true. split.
  - intros [t Ht]. exists t. by apply strip_suffix_spec.
  - intros [t Ht]. exists t. by apply strip_suffix_spec.
Qed.

Lemma starts_with_app p s t : starts_with p s = true → starts_with p (s +:+ t) = true.
Proof. rewrite !starts_with_spec. intros [u ->]. exists (u +:+ t). by rewrite str_app_assoc. Qed.

Lemma starts_with_trans p q s :
  starts_with p q = true → starts_with q s = true → starts_with p s = true.
Proof. rewrite (starts_with_spec q). intros Hp [t ->]. by apply starts_with_app. Qed.

(** Strings and their bytes. *)
Lemma str_bytes_of_bytes bs : Forall u8_range bs → str_bytes (str_of_bytes bs) = bs.
Proof.
  induction 1 as [|b bs Hb _ IH]; simpl; [done |]. rewrite IH. f_equal. unfold char_code, u8_range, U8_MAX in *.
  rewrite Ascii.N_ascii_embedding by lia. lia.
Qed.

Lemma str_of_bytes_str s : str_of_bytes (str_bytes s) = s.
Proof.
  induction s as [|c s IH]; simpl; [done |]. f_equal; [| done]. unfold char_code.
  by rewrite N2Z.id, Ascii.ascii_N_embedding.
Qed.

Lemma str_contains_app b x y :
  str_contains_byte b (x +:+ y) = str_contains_byte b x || str_contains_byte b y.
Proof. induction x as [|c x IH]; simpl; [done |]. by rewrite IH, orb_assoc. Qed.

Lemma str_split_nonempty b x : str_split b x ≠ [].
Proof. destruct x as [|c x]; simpl; [done |]. destruct (_ =? _), (str_split b x); done. Qed.

Lemma str_split_app c s t : str_contains_byte (char_code c) s = false →
  str_split (char_code c) (s +:+ String c t) = s :: str_split (char_code c) t.
Proof.
  induction s as [|d s IH]; simpl; [by rewrite Z.eqb_refl |]. intros [Hd Hs]%orb_false_iff.
  by rewrite Hd, (IH Hs).
Qed.

Lemma str_split_single b s : str_contains_byte b s = false → str_split b s = [s].
Proof. induction s as [|c s IH]; simpl; [done |]. intros [Hc Hs]%orb_false_iff. by rewrite Hc, (IH Hs). Qed.

Lemma str_concat_cons sep x y l : String.concat sep (x :: y :: l) = x +:+ sep +:+ String.concat sep (y :: l).
Proof. done. Qed.

Lemma str_split_concat c x l : Forall (λ s, str_contains_byte (char_code c) s = false) (x :: l) →
  str_split (char_code c) (String.concat (String c "") (x :: l)) = x :: l.
Proof.
  revert x. induction l as [|y l IH]; intros x [Hx Hl]%Forall_cons; [by apply str_split_single |].
  rewrite str_concat_cons. rewrite <- (IH y Hl) at 2. by apply str_split_app.
Qed.

Lemma str_concat_split c s : String.concat (String c "") (str_split (char_code c) s) = s.
Proof.
  induction s as [|d s IH]; [done |]. cbn [str_split]. pose proof (str_split_nonempty (char_code c) s) as Hne.
  destruct (Z.eqb_spec (char_code d) (char_code c)) as [Hd|_].
  - apply N2Z.inj in Hd. rewrite <- (Ascii.ascii_N_embedding d), Hd, Ascii.ascii_N_embedding.
    destruct (str_split (char_code c) s) as [|x l]; [done |]. by rewrite str_concat_cons, IH.
  - destruct (str_split (char_code c) s) as [|x l]; [done |]. rewrite <- IH. by destruct l.
Qed.

Lemma str_split_clean b s : Forall (λ seg, str_contains_byte b seg = false) (str_split b s).
Proof.
  induction s as [|c s IH]; simpl; [by apply Forall_singleton |].
  destruct (char_code c =? b) eqn:E; [by constructor |].
  destruct (str_split b s) as [|seg segs]; [apply Forall_singleton; simpl; by rewrite E |].
  apply Forall_cons in IH as [Hs Hr]. constructor; [simpl; by rewrite E, Hs | done].
Qed.

Lemma str_concat_app sep l k : l ≠ [] → k ≠ [] →
  String.concat sep (l ++ k) = String.concat sep l +:+ sep +:+ String.concat sep k.
Proof.
  intros Hl Hk. induction l as [|x l IH]; [done |]. destruct l as [|y l].
  - by destruct k.
  - rewrite <- !app_comm_cons, !str_concat_cons, app_comm_cons, IH by done. by rewrite <- !str_app_assoc.
Qed.

Lemma forallb_no_byte (P : Z → bool) b s :
  P b = false → forallb P (str_bytes s) = true → str_contains_byte b s = false.
Proof.
  intros Hb. induction s as [|c s IH]; simpl; [done |]. intros [Hc Hs]%andb_true_iff.
  rewrite (IH Hs), orb_false_r. apply Z.eqb_neq. congruence.
Qed.

Lemma str_bytes_app s t : str_bytes (s +:+ t) = str_bytes s ++ str_bytes t.
Proof. induction s as [|c s IH]; [done |]. rewrite str_app_cons. simpl. by rewrite IH. Qed.

Lemma str_of_bytes_app l k : str_of_bytes (l ++ k) = str_of_bytes l +:+ str_of_bytes k.
Proof. induction l as [|b l IH]; [done |]. simpl. by rewrite IH, str_app_cons. Qed.

Lemma str_bytes_range s : Forall u8_range (str_bytes s).
Proof.
  induction s as [|c s IH]; simpl; constructor; [| done]. unfold char_code, u8_range, U8_MAX.
  pose proof (Ascii.N_ascii_bounded c). lia.
Qed.

Lemma str_bytes_inj s t : str_bytes s = str_bytes t → s = t.
Proof. intros H. by rewrite <- (str_of_bytes_str s), <- (str_of_bytes_str t), H. Qed.

Lemma str_bytes_length s : length (str_bytes s) = String.length s.
Proof. induction s as [|c s IH]; simpl; [done | by rewrite IH]. Qed.

(** Visible ASCII characters are not trimmed. *)
Definition is_visible (b : Z) : bool := (33 <=? b) && (b <=? 126).

Lemma visible_no_ws b l : is_visible b = true → leading_ws (b :: l) = 0%nat ∧ trailing_ws (b :: l) = 0%nat.
Proof.
  unfold is_visible. intros Hb. assert (ascii_ws b = false) as Hws by (unfold ascii_ws; lia).
  split; simpl; rewrite Hws; destruct l as [|c [|d l]]; simpl; try done.
  - replace (ws2 b c) with false by (unfold ws2; lia). done.
  - replace (ws2 b c) with false by (unfold ws2; lia). by replace (ws3 b c d) with false by (unfold ws3; lia).
  - replace (ws2 c b) with false by (unfold ws2; lia). done.
  - replace (ws2 c b) with false by (unfold ws2; lia). by replace (ws3 d c b) with false by (unfold ws3; lia).
Qed.

Lemma drop_ws_stop ws fuel l : ws l = 0%nat → drop_ws ws fuel l = l.
Proof. intros Hws. destruct fuel; simpl; [done | by rewrite Hws]. Qed.

Lemma trim_visible l : Forall (λ b, is_visible b = true) l → trim_bytes l = l.
Proof.
  intros Hl. unfold trim_bytes. rewrite (drop_ws_stop leading_ws).
  - rewrite drop_ws_stop; [apply reverse_involutive |]. apply Forall_reverse in Hl.
    destruct Hl as [|b r Hb _]; [done | by apply visible_no_ws].
  - destruct Hl as [|b r Hb _]; [done | by apply visible_no_ws].
Qed.

(** ** Lemmas: orders

    What a derived or hand-written [cmp] must satisfy for "sorted and unique" to
    mean a canonical representation of a set. *)

Class LawfulCmp {A} (cmp : A → A → comparison) : Prop := {
  cmp_eq x y : cmp x y = Eq → x = y;
  cmp_refl x : cmp x x = Eq;
  cmp_lt_trans x y z : cmp x y = Lt → cmp y z = Lt → cmp x z = Lt;
}.

Definition cmp_lt {A} (cmp : A → A → comparison) (x y : A) : Prop := cmp x y = Lt.

#[export] Instance cmp_lt_transitive {A} (cmp : A → A → comparison) `{!LawfulCmp cmp} :
  Transitive (cmp_lt cmp).
Proof. intros x y z. apply cmp_lt_trans. Qed.

Lemma cmp_lt_irrefl {A} (cmp : A → A → comparison) `{!LawfulCmp cmp} x :
  ¬ cmp_lt cmp x x.
Proof. unfold cmp_lt. by rewrite cmp_refl. Qed.

#[export] Instance N_compare_lawful : LawfulCmp N.compare.
Proof.
  split.
  - apply N.compare_eq.
  - apply N.compare_refl.
  - intros x y z. rewrite !N.compare_lt_iff. lia.
Qed.

#[export] Instance Z_compare_lawful : LawfulCmp Z.compare.
Proof.
  split.
  - apply Z.compare_eq.
  - apply Z.compare_refl.
  - intros x y z. rewrite !Z.compare_lt_iff. lia.
Qed.

Lemma ascii_compare_N a b :
  Ascii.compare a b = N.compare (Ascii.N_of_ascii a) (Ascii.N_of_ascii b).
Proof. done. Qed.

Lemma str_compare_cons a s b t :
  String.compare (String a s) (String b t)
  = match Ascii.compare a b with Eq => String.compare s t | c => c end.
Proof. done. Qed.

Lemma ascii_compare_refl a : Ascii.compare a a = Eq.
Proof. rewrite ascii_compare_N. apply N.compare_refl. Qed.

Lemma ascii_compare_Eq a b : Ascii.compare a b = Eq → a = b.
Proof.
  rewrite ascii_compare_N. intros H%N.compare_eq.
  by rewrite <- (Ascii.ascii_N_embedding a), H, Ascii.ascii_N_embedding.
Qed.

#[export] Instance string_compare_lawful : LawfulCmp String.compare.
Proof.
  split.
  - apply String.compare_eq_iff.
  - induction x as [|a s IH]; [done |]. by rewrite str_compare_cons, ascii_compare_refl.
  - induction x as [|a s IH]; intros [|b t] [|c u]; try done.
    rewrite !str_compare_cons.
    destruct (Ascii.compare a b) eqn:Hab; intros H1; try done;
      destruct (Ascii.compare b c) eqn:Hbc; intros H2; try done.
    + apply ascii_compare_Eq in Hab as ->. rewrite Hbc. eauto.
    + apply ascii_compare_Eq in Hab as ->. by rewrite Hbc.
    + apply ascii_compare_Eq in Hbc as ->. by rewrite Hab.
    + rewrite ascii_compare_N in *. by rewrite (cmp_lt_trans _ _ _ Hab Hbc).
Qed.

(** [a.cmp(b).then(c)] *)
Definition cmp_then (c d : comparison) : comparison :=
  match c with Eq => d | _ => c end.

#[export] Instance cmp_lt_strict {A} (cmp : A → A → comparison) `{!LawfulCmp cmp} :
  StrictOrder (cmp_lt cmp).
Proof. split; [intros x; apply cmp_lt_irrefl, _ | apply cmp_lt_transitive, _]. Qed.

(** The order a sort key induces. *)
Definition on_key {A B} (f : A → B) (R : relation B) : relation A := λ x y, R (f x) (f y).

#[export] Instance on_key_strict {A B} (f : A → B) (R : relation B) `{!StrictOrder R} :
  StrictOrder (on_key f R).
Proof.
  split; unfold on_key.
  - intros x. apply (irreflexivity R).
  - intros x y z. apply (transitivity (R := R)).
Qed.

Definition same_set {A} (l k : list A) : Prop := ∀ x, x ∈ l ↔ x ∈ k.

#[export] Instance same_set_equivalence {A} : Equivalence (@same_set A).
Proof.
  split.
  - by intros l x.
  - by intros l k H x; rewrite (H x).
  - by intros l k m H1 H2 x; rewrite (H1 x), (H2 x).
Qed.

(** A strictly sorted list has no duplicates and is determined by the set of its
    elements. *)
Lemma sorted_strict_NoDup {A} (R : relation A) `{!StrictOrder R} (l : list A) :
  Sorted R l → NoDup l.
Proof.
  intros Hs%Sorted_StronglySorted; [|intros x y z; apply (transitivity (R := R))].
  induction Hs as [|x l Hs IH Hx]; constructor; [|done].
  intros Hin. rewrite Forall_forall in Hx. apply (irreflexivity R x). by apply Hx.
Qed.

Lemma sorted_set_unique {A} (R : relation A) `{!StrictOrder R} (l k : list A) :
  Sorted R l → Sorted R k → same_set l k → l = k.
Proof.
  intros Hl Hk Hset. apply (Sorted_unique_strong R); [| done | done |].
  - intros x y _ _ H1 H2. destruct (irreflexivity R x). by trans y.
  - by apply NoDup_Permutation; [eapply sorted_strict_NoDup | eapply sorted_strict_NoDup |].
Qed.

Lemma checked_add_Some max a b c : checked_add max a b = Some c ↔ c = a + b ∧ a + b ≤ max.
Proof. unfold checked_add. destruct (Z.leb_spec (a + b) max); naive_solver lia. Qed.

Lemma checked_sub_Some a b c : checked_sub a b = Some c ↔ c = a - b ∧ b ≤ a.
Proof. unfold checked_sub. destruct (Z.leb_spec b a); naive_solver lia. Qed.

(** Consecutive elements of an adjacency-sorted list are related. *)
Lemma sorted_lookup {A} (R : relation A) (l : list A) i x y :
  Sorted R l → l !! i = Some x → l !! S i = Some y → R x y.
Proof.
  revert i. induction l as [|a l IH]; intros i Hs Hx Hy; [done |].
  apply Sorted_inv in Hs as [Hs Hh]. destruct i as [|i]; simpl in *.
  - injection Hx as ->. destruct l as [|b l]; [done |]. simpl in Hy. injection Hy as ->.
    by inversion Hh.
  - by eapply IH.
Qed.

Lemma sorted_weaken {A} (R S : relation A) (l : list A) :
  (∀ x y, R x y → S x y) → Sorted R l → Sorted S l.
Proof.
  intros HRS. induction 1 as [|x l Hs IH Hh]; constructor; [done |].
  destruct Hh; constructor; auto.
Qed.

(** In a chain whose links all satisfy a transitive relation, every element is
    related to every later one. *)
Lemma sorted_transitive_last {A} (R : relation A) `{!Transitive R} (l : list A) z x :
  Sorted R (l ++ [z]) → x ∈ l → R x z.
Proof.
  intros Hs%Sorted_StronglySorted Hx; [|intros a b c; apply (transitivity (R := R))].
  eapply StronglySorted_app_1_elem_of; [done | done | by apply list_elem_of_singleton].
Qed.

Lemma sorted_transitive_head {A} (R : relation A) `{!Transitive R} (l : list A) z x :
  Sorted R (z :: l) → x ∈ l → R z x.
Proof.
  intros Hs%Sorted_StronglySorted Hx; [|intros a b c; apply (transitivity (R := R))].
  apply StronglySorted_inv in Hs as [_ Hf]. rewrite Forall_forall in Hf. by apply Hf.
Qed.

Lemma sorted_snoc {A} (R : relation A) (l : list A) x y :
  Sorted R (l ++ [x]) → R x y → Sorted R ((l ++ [x]) ++ [y]).
Proof.
  induction l as [|a l IH]; simpl; intros Hs HR.
  - repeat constructor; done.
  - apply Sorted_inv in Hs as [Hs Hh]. constructor; [by apply IH |].
    destruct l as [|b l]; simpl in *; inversion Hh; by constructor.
Qed.

(** Adjacent elements agree on [f] exactly when all agree with the last one. *)
Lemma sorted_constant {A B} (f : A → B) (l : list A) z :
  Sorted (λ a b, f b = f a) (l ++ [z]) ↔ Forall (λ x, f x = f z) l.
Proof.
  induction l as [|x l IH]; simpl; [split; [constructor | by repeat constructor] |].
  rewrite Forall_cons, <- IH. split.
  - intros [Hs Hh]%Sorted_inv. split; [|done]. destruct l as [|y l]; simpl in *.
    + by inversion Hh.
    + apply IH, Forall_cons in Hs as [Hy _]. inversion Hh. congruence.
  - intros [Hx Hs]. constructor; [done |]. destruct l as [|y l]; simpl in *; constructor; [done |].
    apply IH, Forall_cons in Hs as [Hy _]. congruence.
Qed.

(** ** Automation

    [inv_result] takes apart a successful chain of [?] calls; [reflect_bool] turns
    boolean tests of the code into propositions; [solve_portl] is the development's
    closing tactic. *)

Create HintDb portl.
Create Rewrite HintDb portl.

Ltac reflect_bool :=
  repeat match goal with
  | H : _ && _ = true |- _ => apply andb_true_iff in H as [? ?]
  | H : _ || _ = false |- _ => apply orb_false_iff in H as [? ?]
  | H : negb _ = true |- _ => apply negb_true_iff in H
  | H : negb _ = false |- _ => apply negb_false_iff in H
  | H : bool_decide _ = true |- _ => apply bool_decide_eq_true_1 in H
  | H : bool_decide _ = false |- _ => apply bool_decide_eq_false_1 in H
  | H : (_ =? _) = true |- _ => apply Z.eqb_eq in H
  | H : (_ =? _) = false |- _ => apply Z.eqb_neq in H
  | H : (_ <=? _) = true |- _ => apply Z.leb_le in H
  | H : (_ <=? _) = false |- _ => apply Z.leb_gt in H
  | H : (_ <? _) = true |- _ => apply Z.ltb_lt in H
  | H : (_ <? _) = false |- _ => apply Z.ltb_ge in H
  end.

Ltac inv_result :=
  repeat match goal with
  | H : (_ ≫= _) = Ok _ |- _ => apply bind_Ok in H as (? & ? & ?)
  | H : ensure _ _ = Ok _ |- _ => apply ensure_Ok in H
  | H : ok_or _ _ = Ok _ |- _ => apply ok_or_Ok in H
  | H : map_err _ _ = Ok _ |- _ => apply map_err_Ok in H
  | H : for_each _ _ = Ok _ |- _ => apply for_each_Ok in H
  | H : Ok _ = Ok _ |- _ => injection H as H
  | H : Err _ = Ok _ |- _ => discriminate H
  | H : Ok _ = Err _ |- _ => discriminate H
  | u : unit |- _ => destruct u
  end.

Ltac solve_portl := by (eauto with portl || naive_solver eauto with portl lia).

(** Closes an equation of closed terms by evaluating them. *)
Ltac by_vm := match goal with |- _ = ?b => vm_cast_no_check (eq_refl b) end.
