(* ===== verification/Bytes.v ===== *)
(** * Bytes: integers, hex digits, UTF-8

    [to_le_bytes], [from_le_bytes] and their big-endian forms, the check made by
    [std::str::from_utf8] and the replacement made by [String::from_utf8_lossy]. *)

From S2P Require Import Prelude.

(** ** Integers *)

Fixpoint le_encode (n : nat) (v : Z) : bytes :=
  match n with
  | O => []
  | S n' => v `mod` 256 :: le_encode n' (v `div` 256)
  end.

Fixpoint le_decode (l : bytes) : Z :=
  match l with
  | [] => 0
  | b :: l' => b + 256 * le_decode l'
  end.

Definition be_encode (n : nat) (v : Z) : bytes := reverse (le_encode n v).
Definition be_decode (l : bytes) : Z := le_decode (reverse l).

Lemma le_encode_length n v : length (le_encode n v) = n.
Proof. revert v. induction n; intros v; simpl; [done | by rewrite IHn]. Qed.

Lemma le_encode_range n v : Forall u8_range (le_encode n v).
Proof.
  revert v. induction n as [|n IH]; intros v; simpl; constructor; [| done].
  unfold u8_range, U8_MAX. pose proof (Z.mod_pos_bound v 256). lia.
Qed.

Lemma le_decode_encode n v : 0 ≤ v < 256 ^ Z.of_nat n → le_decode (le_encode n v) = v.
Proof.
  revert v. induction n as [|n IH]; intros v Hv; simpl.
  - simpl in Hv. lia.
  - rewrite IH; [pose proof (Z.div_mod v 256); lia |]. rewrite Nat2Z.inj_succ, Z.pow_succ_r in Hv by lia. split.
    + apply Z.div_pos; lia.
    + apply Z.div_lt_upper_bound; lia.
Qed.

Lemma le_encode_decode l : Forall u8_range l → le_encode (length l) (le_decode l) = l.
Proof.
  induction 1 as [|b l Hb _ IH]; simpl; [done |]. unfold u8_range, U8_MAX in Hb.
  replace ((b + 256 * le_decode l) `mod` 256) with b.
  2:{ rewrite Z.mul_comm, Z.mod_add, Z.mod_small; lia. }
  replace ((b + 256 * le_decode l) `div` 256) with (le_decode l); [by rewrite IH |].
  rewrite Z.mul_comm, Z.div_add, Z.div_small; lia.
Qed.

Lemma le_decode_bound l : Forall u8_range l → 0 ≤ le_decode l < 256 ^ Z.of_nat (length l).
Proof.
  induction 1 as [|b l Hb _ IH]; simpl; [lia |]. unfold u8_range, U8_MAX in Hb.
  rewrite Nat2Z.inj_succ, Z.pow_succ_r by lia. lia.
Qed.

Lemma be_encode_length n v : length (be_encode n v) = n.
Proof. unfold be_encode. by rewrite length_reverse, le_encode_length. Qed.

Lemma be_decode_encode n v : 0 ≤ v < 256 ^ Z.of_nat n → be_decode (be_encode n v) = v.
Proof. unfold be_decode, be_encode. rewrite reverse_involutive. apply le_decode_encode. Qed.

Lemma be_decode_bound l : Forall u8_range l → 0 ≤ be_decode l < 256 ^ Z.of_nat (length l).
Proof. intros Hl. rewrite <- (length_reverse l). apply le_decode_bound. by apply Forall_reverse. Qed.
Lemma be_encode_decode l : Forall u8_range l → be_encode (length l) (be_decode l) = l.
Proof.
  intros Hl. unfold be_encode, be_decode. rewrite <- (length_reverse l), le_encode_decode by by apply Forall_reverse.
  apply reverse_involutive.
Qed.
Lemma be_encode_range n v : Forall u8_range (be_encode n v).
Proof. apply Forall_reverse, le_encode_range. Qed.

(** ** UTF-8 *)

Definition in_range (lo hi b : Z) : bool := (lo <=? b) && (b <=? hi).

Definition hex_digit (n : Z) : Z := if n <? 10 then 48 + n else 87 + n.

Definition hex_value (b : Z) : option Z :=
  if in_range 48 57 b then Some (b - 48)
  else if in_range 97 102 b then Some (b - 87)
  else if in_range 65 70 b then Some (b - 55)
  else None.

(** The well-formed sequences of the Unicode standard, table 3-7. *)
Fixpoint is_utf8 (l : bytes) : bool :=
  match l with
  | [] => true
  | a :: r =>
      if in_range 0 127 a then is_utf8 r
      else match r with
      | b :: r2 =>
          if in_range 194 223 a && in_range 128 191 b then is_utf8 r2
          else match r2 with
          | c :: r3 =>
              if in_range 128 191 c
                 && ((a =? 224) && in_range 160 191 b
                     || in_range 225 236 a && in_range 128 191 b
                     || (a =? 237) && in_range 128 159 b
                     || in_range 238 239 a && in_range 128 191 b)
              then is_utf8 r3
              else match r3 with
              | d :: r4 =>
                  if in_range 128 191 c && in_range 128 191 d
                     && ((a =? 240) && in_range 144 191 b
                         || in_range 241 243 a && in_range 128 191 b
                         || (a =? 244) && in_range 128 143 b)
                  then is_utf8 r4 else false
              | [] => false
              end
          | [] => false
          end
      | [] => false
      end
  end.

(** ** Replacing what is not UTF-8 *)

Definition is_cont (o : option Z) : bool := match o with Some b => in_range 128 191 b | None => false end.

(** A first byte of three or four with the second bytes allowed after it. *)
Definition lead3 (a : Z) (o : option Z) : bool :=
  match o with
  | Some b => (a =? 224) && in_range 160 191 b || in_range 225 236 a && in_range 128 191 b
              || (a =? 237) && in_range 128 159 b || in_range 238 239 a && in_range 128 191 b
  | None => false
  end.
Definition lead4 (a : Z) (o : option Z) : bool :=
  match o with
  | Some b => (a =? 240) && in_range 144 191 b || in_range 241 243 a && in_range 128 191 b
              || (a =? 244) && in_range 128 143 b
  | None => false
  end.

(** The length of the sequence at the front, and whether it is well formed: a part of a
    well-formed sequence that breaks off counts as one. *)
Definition utf8_head (l : bytes) : nat * bool :=
  match l with
  | [] => (0%nat, true)
  | a :: r =>
      if in_range 0 127 a then (1%nat, true)
      else if in_range 194 223 a then if is_cont (r !! 0%nat) then (2%nat, true) else (1%nat, false)
      else if lead3 a (r !! 0%nat) then if is_cont (r !! 1%nat) then (3%nat, true) else (2%nat, false)
      else if lead4 a (r !! 0%nat) then
        if is_cont (r !! 1%nat) then if is_cont (r !! 2%nat) then (4%nat, true) else (3%nat, false)
        else (2%nat, false)
      else (1%nat, false)
  end.

Definition REPLACEMENT : bytes := [239; 191; 189].

Fixpoint lossy (fuel : nat) (l : bytes) : bytes :=
  match fuel, l with
  | O, _ | _, [] => []
  | S fuel', _ =>
      let '(n, valid) := utf8_head l in
      (if valid then take n l else REPLACEMENT) ++ lossy fuel' (drop n l)
  end.

Definition from_utf8_lossy (l : bytes) : bytes := lossy (length l) l.

(** A well-formed string is a sequence of characters. *)
Definition is_utf8_char (c : bytes) : Prop := c ≠ [] ∧ ∀ r, utf8_head (c ++ r) = (length c, true) ∧ is_utf8 (c ++ r) = is_utf8 r.

Lemma lead3_range a o : lead3 a o = true → in_range 194 223 a = false.
Proof. unfold lead3, in_range. destruct o; [lia | done]. Qed.

Lemma lead4_range a o : lead4 a o = true → in_range 194 223 a = false ∧ lead3 a o = false.
Proof. unfold lead4, lead3, in_range. destruct o; [lia | done]. Qed.

Lemma is_utf8_split l : is_utf8 l = true → l = [] ∨ ∃ c r, l = c ++ r ∧ is_utf8_char c ∧ is_utf8 r = true.
Proof.
  destruct l as [|a r]; [by left |]. intros H. right. cbn [is_utf8] in H.
  destruct (in_range 0 127 a) eqn:Ha.
  { exists [a], r. split_and!; [done | split; [done |] | done]. intros k. simpl. by rewrite Ha. }
  destruct r as [|b r]; [done |]. destruct (in_range 194 223 a && in_range 128 191 b) eqn:Hab.
  { exists [a; b], r. split_and!; [done | split; [done |] | done]. intros k. simpl. rewrite Ha, Hab.
    apply andb_true_iff in Hab as [-> ->]. done. }
  destruct r as [|c r]; [done |]. fold (lead3 a (Some b)) (lead4 a (Some b)) in H.
  destruct (in_range 128 191 c && lead3 a (Some b)) eqn:Hc.
  { exists [a; b; c], r. split_and!; [done | split; [done |] | done]. intros k. simpl.
    fold (lead3 a (Some b)). rewrite Ha, Hab, Hc. apply andb_true_iff in Hc as [-> Hl].
    by rewrite (lead3_range _ _ Hl), Hl. }
  destruct r as [|d r]; [done |]. destruct (_ && lead4 a (Some b)) eqn:Hd; [| done].
  exists [a; b; c; d], r. split_and!; [done | split; [done |] | done]. intros k. simpl.
  fold (lead3 a (Some b)) (lead4 a (Some b)). rewrite Ha, Hab, Hc, Hd.
  apply andb_true_iff in Hd as [[-> ->]%andb_true_iff Hl]. destruct (lead4_range _ _ Hl) as [-> ->]. by rewrite Hl.
Qed.

Lemma is_utf8_ind (P : bytes → Prop) :
  P [] → (∀ c r, is_utf8_char c → is_utf8 r = true → P r → P (c ++ r)) → ∀ l, is_utf8 l = true → P l.
Proof.
  intros Hn Hc l. induction l as [l IH] using (well_founded_induction (well_founded_ltof _ length)). unfold ltof in IH.
  intros [-> | (c & r & -> & Hch & Hr)]%is_utf8_split; [done |]. apply Hc; [done | done |]. apply IH; [| done].
  rewrite length_app. destruct c; [by destruct Hch | simpl; lia].
Qed.

Lemma is_utf8_app l l' : is_utf8 l = true → is_utf8 l' = true → is_utf8 (l ++ l') = true.
Proof.
  intros Hl Hl'. revert l Hl. apply is_utf8_ind; [done |]. intros c r [_ Hc] _ IH. by rewrite <- app_assoc, (proj2 (Hc _)).
Qed.

Lemma is_utf8_ascii l : Forall (λ b, 0 ≤ b ≤ 127) l → is_utf8 l = true.
Proof. induction 1 as [|b l Hb _ IH]; [done |]. simpl. unfold in_range. replace (_ && _) with true by lia. done. Qed.

Lemma from_utf8_lossy_valid l : is_utf8 l = true → from_utf8_lossy l = l.
Proof.
  intros Hl. unfold from_utf8_lossy. enough (∀ n, (length l ≤ n)%nat → lossy n l = l) by auto.
  revert l Hl. apply (is_utf8_ind (λ l, ∀ n, (length l ≤ n)%nat → lossy n l = l)); [by intros [] |]. intros c r [Hne Hc] _ IH n Hn.
  destruct n as [|n]; [destruct c; [done | simpl in Hn; lia] |]. cbn [lossy].
  destruct (c ++ r) as [|x y] eqn:Hx; [by apply app_nil in Hx as [-> _] |]. rewrite <- Hx in *.
  rewrite (proj1 (Hc r)), take_app_length, drop_app_length, IH; [done |].
  rewrite length_app in Hn. destruct c; [done | simpl in Hn; lia].
Qed.

Lemma hex_value_digit n : 0 ≤ n < 16 → hex_value (hex_digit n) = Some n.
Proof. intros Hn. unfold hex_digit, hex_value, in_range. repeat case_match; reflect_bool; try lia; f_equal; lia. Qed.
