(* ===== verification/Text.v ===== *)
(** * Text of the standard library

    Parts of Rust's standard library that several components use: splitting strings at a
    character, decimal numbers, sorting with removal of duplicates, padding, and the text of
    IP addresses. *)

From stdpp Require Import pretty.
From S2P Require Import Prelude Bytes.

(** ** Splitting *)

(** [str::split_once] and [str::rsplit_once] at an ASCII character *)
Fixpoint cut (sep : Z) (s : string) : option (string * string) :=
  match s with
  | EmptyString => None
  | String c s' =>
      if char_code c =? sep then Some (EmptyString, s')
      else '(a, b) ← cut sep s'; Some (String c a, b)
  end.

Fixpoint rcut (sep : Z) (s : string) : option (string * string) :=
  match s with
  | EmptyString => None
  | String c s' =>
      match rcut sep s' with
      | Some (a, b) => Some (String c a, b)
      | None => if char_code c =? sep then Some (EmptyString, s') else None
      end
  end.

(** ** Numbers *)

Definition dec (n : Z) : string := pretty (Z.to_N n).

Fixpoint digits_value (acc : Z) (l : bytes) : option Z :=
  match l with
  | [] => Some acc
  | b :: l' => if is_ascii_digit b then digits_value (10 * acc + (b - 48)) l' else None
  end.

(** [str::parse] at an unsigned type *)
Definition parse_unsigned (max : Z) (s : string) : option Z :=
  let l := match str_bytes s with b :: l' => if b =? 43 then l' else b :: l' | [] => [] end in
  if bool_decide (l = []) then None
  else v ← digits_value 0 l; if v <=? max then Some v else None.

(** [{:x}] *)
Fixpoint hex_digits (fuel : nat) (n : Z) (acc : bytes) : bytes :=
  match fuel with
  | O => acc
  | S fuel' =>
      let acc := hex_digit (n `mod` 16) :: acc in
      if n <? 16 then acc else hex_digits fuel' (n / 16) acc
  end.

Definition hex_u16 (n : Z) : string := str_of_bytes (hex_digits 4 n []).

(** ** Sorting *)

Fixpoint insert_by {A} (cmp : A → A → comparison) (x : A) (l : list A) : list A :=
  match l with
  | [] => [x]
  | y :: l' => match cmp x y with Gt => y :: insert_by cmp x l' | _ => x :: l end
  end.

(** [slice::sort_by], which is stable *)
Definition sort_by {A} (cmp : A → A → comparison) (l : list A) : list A := foldr (insert_by cmp) [] l.

(** [Vec::dedup_by] *)
Fixpoint dedup_by {A} (same : A → A → bool) (l : list A) : list A :=
  match l with
  | x :: l' =>
      match dedup_by same l' with
      | y :: k => if same x y then x :: k else x :: y :: k
      | [] => [x]
      end
  | [] => []
  end.

(** ** Padding: [{:<width$}] counts characters *)

Definition char_count (s : string) : nat := length (List.filter (λ b, negb (in_range 128 191 b)) (str_bytes s)).

Definition pad_right (width : nat) (s : string) : string :=
  s +:+ str_of_bytes (replicate (width - char_count s) 32).

(** ** IP addresses *)

Definition ipv4_text (octets : bytes) : string := String.concat "." (dec <$> octets).

Fixpoint u16s (l : bytes) : list Z :=
  match l with a :: b :: l' => 256 * a + b :: u16s l' | _ => [] end.

(** The longest run of zeros: its start and length; [cur] is the run that ends before [i]. *)
Fixpoint zero_run (i : nat) (cur best : nat * nat) (segs : list Z) : nat * nat :=
  match segs with
  | [] => best
  | s :: segs' =>
      if s =? 0 then
        let cur := (if (cur.2 =? 0)%nat then i else cur.1, S cur.2) in
        zero_run (S i) cur (if (best.2 <? cur.2)%nat then cur else best) segs'
      else zero_run (S i) (0, 0)%nat best segs'
  end.

Definition hex_groups (segs : list Z) : string := String.concat ":" (hex_u16 <$> segs).

Definition ipv6_text (octets : bytes) : string :=
  if bool_decide (take 12 octets = replicate 10 0 ++ [255; 255]) then "::ffff:" +:+ ipv4_text (drop 12 octets)
  else
    let segs := u16s octets in
    let '(start, len) := zero_run 0 (0, 0)%nat (0, 0)%nat segs in
    if (1 <? len)%nat then hex_groups (take start segs) +:+ "::" +:+ hex_groups (drop (start + len) segs)
    else hex_groups segs.

(** [Parser::read_number]: the digits that follow, at most [max_digits] of them *)
Definition digit_in (radix b : Z) : option Z := v ← hex_value b; if v <? radix then Some v else None.

Fixpoint read_digits (radix : Z) (l : bytes) (acc : Z) (n : nat) : Z * nat * bytes :=
  match l with
  | b :: l' =>
      match digit_in radix b with Some v => read_digits radix l' (acc * radix + v) (S n) | None => (acc, n, l) end
  | [] => (acc, n, [])
  end.

Definition read_number (radix max : Z) (max_digits : nat) (allow_zero_prefix : bool) (l : bytes) : option (Z * bytes) :=
  let '(v, n, rest) := read_digits radix l 0 0 in
  if (n =? 0)%nat || (max_digits <? n)%nat || (max <? v) then None
  else if negb allow_zero_prefix && bool_decide (head l = Some 48) && (1 <? n)%nat then None
  else Some (v, rest).

Definition read_given_char (c : Z) (l : bytes) : option bytes :=
  match l with b :: l' => if b =? c then Some l' else None | [] => None end.

Definition read_separator {A} (sep : Z) (index : nat) (inner : bytes → option (A * bytes)) (l : bytes) : option (A * bytes) :=
  l ← (if (0 <? index)%nat then read_given_char sep l else Some l); inner l.

Fixpoint read_octets (i : nat) (n : nat) (l : bytes) : option (bytes * bytes) :=
  match n with
  | O => Some ([], l)
  | S n' =>
      '(v, l) ← read_separator 46 i (read_number 10 U8_MAX 3 false) l;
      '(vs, l) ← read_octets (S i) n' l;
      Some (v :: vs, l)
  end.

Definition read_ipv4_addr (l : bytes) : option (bytes * bytes) := read_octets 0 4 l.

(** [read_groups]: the groups, whether the last two are an IPv4 address, and the rest *)
Fixpoint read_groups (i limit : nat) (l : bytes) : list Z * bool * bytes :=
  match limit with
  | O => ([], false, l)
  | S limit' =>
      match (if (0 <? limit')%nat then read_separator 58 i read_ipv4_addr l else None) with
      | Some (octets, rest) => (u16s octets, true, rest)
      | None =>
          match read_separator 58 i (read_number 16 U16_MAX 4 true) l with
          | Some (g, rest) => let '(gs, v4, rest) := read_groups (S i) limit' rest in (g :: gs, v4, rest)
          | None => ([], false, l)
          end
      end
  end.

Definition read_ipv6_addr (l : bytes) : option (list Z * bytes) :=
  let '(hd, head_ipv4, rest) := read_groups 0 8 l in
  if (length hd =? 8)%nat then Some (hd, rest)
  else if head_ipv4 then None
  else
    rest ← read_given_char 58 rest; rest ← read_given_char 58 rest;
    let '(tail, _, rest) := read_groups 0 (8 - (length hd + 1)) rest in
    Some (hd ++ replicate (8 - length hd - length tail) 0 ++ tail, rest).

Definition parse_ipv6 (s : string) : option (list Z) :=
  match read_ipv6_addr (str_bytes s) with Some (g, []) => Some g | _ => None end.

Definition parse_ipv4 (s : string) : option bytes :=
  match read_ipv4_addr (str_bytes s) with Some (o, []) => Some o | _ => None end.

(** ** Lemmas: splitting *)

Lemma char_code_inj c d : char_code c = char_code d → c = d.
Proof.
  intros H%N2Z.inj. by rewrite <- (Ascii.ascii_N_embedding c), H, Ascii.ascii_N_embedding.
Qed.

Lemma cut_spec c s a b :
  cut (char_code c) s = Some (a, b) ↔ s = a +:+ String c b ∧ str_contains_byte (char_code c) a = false.
Proof.
  revert a. induction s as [|d s IH]; intros a; simpl.
  { split; [done |]. intros [H _]. by destruct a. }
  destruct (Z.eqb_spec (char_code d) (char_code c)) as [E|E].
  - apply char_code_inj in E as ->. split.
    + by intros [= <- <-].
    + intros [H Hc]. destruct a as [|d' a]; [by injection H as -> |]. injection H as -> ->. simpl in Hc.
      by rewrite Z.eqb_refl in Hc.
  - rewrite bind_Some. split.
    + intros ([a' b'] & Hc & [= <- <-]). apply IH in Hc as [-> Hc]. simpl. by rewrite (proj2 (Z.eqb_neq _ _) E).
    + intros [H Hc]. destruct a as [|d' a]; [injection H as -> ->; done |]. injection H as -> ->. simpl in Hc.
      apply orb_false_iff in Hc as [_ Hc]. exists (a, b). split; [by apply IH | done].
Qed.

Lemma cut_None c s : cut (char_code c) s = None ↔ str_contains_byte (char_code c) s = false.
Proof.
  induction s as [|d s IH]; simpl; [done |]. destruct (char_code d =? char_code c); [done |]. simpl. rewrite <- IH.
  by destruct (cut (char_code c) s) as [[??]|].
Qed.

Lemma rcut_None c s : rcut (char_code c) s = None ↔ str_contains_byte (char_code c) s = false.
Proof.
  induction s as [|d s IH]; simpl; [done |]. destruct (rcut (char_code c) s) as [[??]|].
  - destruct (char_code d =? char_code c); simpl; [done |]. rewrite <- IH. done.
  - destruct (char_code d =? char_code c); simpl; [done |]. rewrite <- IH. done.
Qed.

Lemma rcut_spec c s a b :
  rcut (char_code c) s = Some (a, b) ↔ s = a +:+ String c b ∧ str_contains_byte (char_code c) b = false.
Proof.
  revert a b. induction s as [|d s IH]; intros a b; simpl.
  { split; [done |]. intros [H _]. by destruct a. }
  destruct (rcut (char_code c) s) as [[a' b']|] eqn:Hr.
  - split.
    + intros [= <- <-]. destruct (proj1 (IH a' b') eq_refl) as [-> Hb]. done.
    + intros [H Hb]. destruct a as [|d' a]; injection H as -> H.
      * subst s. apply rcut_None in Hb. congruence.
      * pose proof (proj2 (IH a b) (conj H Hb)) as Hx. by injection Hx as -> ->.
  - destruct (Z.eqb_spec (char_code d) (char_code c)) as [E|E].
    + apply char_code_inj in E as ->. apply rcut_None in Hr. split.
      * by intros [= <- <-].
      * intros [H Hb]. destruct a as [|d' a]; [by injection H as -> | injection H as _ H].
        subst s. rewrite str_contains_app in Hr. simpl in Hr. by rewrite Z.eqb_refl, orb_true_r in Hr.
    + split; [done |]. intros [H Hb]. destruct a as [|d' a]; injection H as -> H; [done |].
      pose proof (proj2 (IH a b) (conj H Hb)). done.
Qed.

(** ** Lemmas: numbers *)

Lemma digit_char n : (n < 10)%N → char_code (pretty_N_char n) = 48 + Z.of_N n.
Proof. intros Hn. do 10 (destruct n as [|n] using N.peano_ind; [done | clear IHn]). lia. Qed.

Lemma digit_char_digit n : (n < 10)%N → is_ascii_digit (char_code (pretty_N_char n)) = true.
Proof. intros Hn. rewrite digit_char by done. unfold is_ascii_digit. apply andb_true_iff. rewrite !Z.leb_le. lia. Qed.

Lemma digits_value_go x s :
  digits_value 0 (str_bytes (pretty_N_go x s)) = digits_value (Z.of_N x) (str_bytes s).
Proof.
  revert s. induction (N.lt_wf_0 x) as [x _ IH]. intros s. destruct (decide (0 < x)%N) as [Hx|Hx].
  - rewrite pretty_N_go_step by done. rewrite IH by (apply N.div_lt; lia). simpl.
    rewrite digit_char_digit, digit_char by (by apply N.mod_lt). f_equal.
    pose proof (N.div_mod' x 10). lia.
  - replace x with 0%N by lia. by rewrite pretty_N_go_0.
Qed.

Lemma digits_go x s : Forall (λ b, is_ascii_digit b = true) (str_bytes s) →
  Forall (λ b, is_ascii_digit b = true) (str_bytes (pretty_N_go x s)).
Proof.
  revert s. induction (N.lt_wf_0 x) as [x _ IH]. intros s Hs. destruct (decide (0 < x)%N) as [Hx|Hx].
  - rewrite pretty_N_go_step by done. apply IH; [apply N.div_lt; lia |]. simpl. constructor; [| done].
    by apply digit_char_digit, N.mod_lt.
  - replace x with 0%N by lia. by rewrite pretty_N_go_0.
Qed.

Lemma dec_digits n : Forall (λ b, is_ascii_digit b = true) (str_bytes (dec n)).
Proof.
  unfold dec, pretty, pretty_N. destruct (decide (Z.to_N n = 0%N)); [by repeat constructor | by apply digits_go].
Qed.

Lemma dec_value n : 0 ≤ n → digits_value 0 (str_bytes (dec n)) = Some n.
Proof.
  intros Hn. unfold dec, pretty, pretty_N. destruct (decide (Z.to_N n = 0%N)) as [Hz|Hz].
  { replace n with 0 by lia. done. }
  rewrite digits_value_go. cbn. f_equal. lia.
Qed.

Lemma dec_nonempty n : dec n ≠ "".
Proof.
  unfold dec, pretty, pretty_N. destruct (decide (Z.to_N n = 0%N)) as [|Hn]; [done |]. intros He.
  pose proof (digits_value_go (Z.to_N n) "") as Hv. rewrite He in Hv. simpl in Hv. injection Hv. lia.
Qed.

Lemma parse_unsigned_dec max n : 0 ≤ n ≤ max → parse_unsigned max (dec n) = Some n.
Proof.
  intros Hn. unfold parse_unsigned. pose proof (dec_digits n) as Hd. pose proof (dec_value n ltac:(lia)) as Hv.
  pose proof (dec_nonempty n) as Hne. destruct (str_bytes (dec n)) as [|b l] eqn:Hl.
  { destruct Hne. by apply str_bytes_inj. }
  apply Forall_cons in Hd as [Hb _]. unfold is_ascii_digit in Hb. rewrite (proj2 (Z.eqb_neq b 43)) by lia.
  rewrite bool_decide_false by done. rewrite Hv. simpl. by rewrite (proj2 (Z.leb_le n max)) by lia.
Qed.

Lemma digits_value_ge acc l v : 0 ≤ acc → digits_value acc l = Some v → 0 ≤ v.
Proof.
  revert acc. induction l as [|b l IH]; intros acc Ha; simpl; [by intros [= <-] |].
  destruct (is_ascii_digit b) eqn:Hb; [| done]. unfold is_ascii_digit in Hb. apply IH. lia.
Qed.

Lemma parse_unsigned_range max s n : parse_unsigned max s = Some n → 0 ≤ n ≤ max.
Proof.
  unfold parse_unsigned. destruct (bool_decide _); [done |]. intros (v & Hv%digits_value_ge & H)%bind_Some; [| done].
  destruct (Z.leb_spec v max); [| done]. injection H as <-. done.
Qed.

(** A decimal number has none of the separators. *)
Lemma dec_clean n b : is_ascii_digit b = false → str_contains_byte b (dec n) = false.
Proof.
  intros Hb. pose proof (dec_digits n) as Hd. induction (dec n) as [|c s IH]; [done |]. simpl in *.
  apply Forall_cons in Hd as [Hc Hd]. rewrite IH by done. rewrite orb_false_r. apply Z.eqb_neq. intros He. rewrite He in Hc. congruence.
Qed.

(** ** Lemmas: sorting *)

Class AntiCmp {A} (cmp : A → A → comparison) : Prop := cmp_opp x y : cmp y x = CompOpp (cmp x y).

#[export] Instance string_compare_anti : AntiCmp String.compare.
Proof. intros x y. apply String.compare_antisym. Qed.
#[export] Instance Z_compare_anti : AntiCmp Z.compare.
Proof. intros x y. apply Z.compare_antisym. Qed.

Lemma cmp_then_opp a b : CompOpp (cmp_then a b) = cmp_then (CompOpp a) (CompOpp b).
Proof. by destruct a. Qed.

Section sorting.
Context {A : Type} (cmp : A → A → comparison) `{!LawfulCmp cmp, !AntiCmp cmp}.
Implicit Types (x y : A) (l : list A).

Definition cmp_le x y : Prop := cmp x y ≠ Gt.

Lemma insert_by_elem x y l : y ∈ insert_by cmp x l ↔ y = x ∨ y ∈ l.
Proof. induction l as [|z l IH]; simpl; [set_solver |]. destruct (cmp x z); set_solver. Qed.

Lemma sort_by_elem x l : x ∈ sort_by cmp l ↔ x ∈ l.
Proof. induction l as [|y l IH]; [done |]. simpl. rewrite insert_by_elem, IH. set_solver. Qed.

Lemma insert_by_sorted x l : Sorted cmp_le l → Sorted cmp_le (insert_by cmp x l).
Proof.
  induction 1 as [|y l Hl IH Hy]; [by repeat constructor |]. simpl. destruct (cmp x y) eqn:Hxy.
  1,2: constructor; [by constructor | constructor; unfold cmp_le; congruence].
  constructor; [done |]. assert (cmp_le y x) as Hyx by (unfold cmp_le; rewrite cmp_opp, Hxy; done).
  destruct Hy as [|z l Hyz]; simpl; [by constructor |]. destruct (cmp x z); by constructor.
Qed.

Lemma sort_by_sorted l : Sorted cmp_le (sort_by cmp l).
Proof. induction l as [|x l IH]; [constructor | by apply insert_by_sorted]. Qed.

Definition same_cmp x y : bool := match cmp x y with Eq => true | _ => false end.

Lemma dedup_by_elem x l : x ∈ dedup_by same_cmp l ↔ x ∈ l.
Proof.
  induction l as [|y l IH]; simpl; [done |]. rewrite elem_of_cons, <- IH. destruct (dedup_by same_cmp l) as [|z k]; [set_solver |].
  unfold same_cmp. destruct (cmp y z) eqn:Hyz; [| set_solver..]. apply cmp_eq in Hyz as ->. set_solver.
Qed.

Lemma dedup_head l y k : dedup_by same_cmp l = y :: k → head l = Some y.
Proof.
  destruct l as [|x l]; [done |]. simpl. destruct (dedup_by same_cmp l) as [|z k']; [by intros [= ->] |].
  destruct (same_cmp x z); by intros [= ->].
Qed.

Lemma dedup_by_sorted l : Sorted cmp_le l → Sorted (cmp_lt cmp) (dedup_by same_cmp l).
Proof.
  induction 1 as [|x l Hl IH Hx]; simpl; [constructor |]. destruct (dedup_by same_cmp l) as [|y k] eqn:Hd; [by repeat constructor |].
  apply dedup_head in Hd as Hh. unfold same_cmp. destruct (cmp x y) eqn:Hxy.
  - apply cmp_eq in Hxy as ->. by apply IH.
  - constructor; [done |]. by constructor.
  - destruct Hx as [|z l Hxz]; [done |]. injection Hh as ->. done.
Qed.

Lemma sort_dedup_sorted l : Sorted (cmp_lt cmp) (dedup_by same_cmp (sort_by cmp l)).
Proof. apply dedup_by_sorted, sort_by_sorted. Qed.

Lemma sort_dedup_elem x l : x ∈ dedup_by same_cmp (sort_by cmp l) ↔ x ∈ l.
Proof. by rewrite dedup_by_elem, sort_by_elem. Qed.

End sorting.
