(* ===== verification/Steps.v ===== *)
(** * Parts of a stateful loop

    A part of a task that changes its state and either goes on with a result or leaves the task
    with an error, a [break] or a [return]: the monad, and a weakest precondition for it.  What
    the environment answers is an argument of the definitions that use it. *)

From S2P Require Import Prelude.

Definition Step (S E A : Type) : Type := S → S * result E A.

#[export] Instance step_ret {S E} : MRet (Step S E) := λ A a s, (s, Ok a).
#[export] Instance step_bind {S E} : MBind (Step S E) := λ A B f m s,
  match m s with (s', Ok a) => f a s' | (s', Err e) => (s', Err e) end.

Definition get {S E A} (f : S → A) : Step S E A := λ s, (s, Ok (f s)).
Definition assign {S E} (f : S → S) : Step S E unit := λ s, (f s, Ok tt).
Definition break {S E A} (e : E) : Step S E A := λ s, (s, Err e).
Definition skip {S E} : Step S E unit := mret tt.

(** [wp I m Q s]: from [s] the part ends with a result and [Q], or leaves and [I] holds. *)
Definition wp {S E A} (I : S → Prop) (m : Step S E A) (Q : A → S → Prop) (s : S) : Prop :=
  match m s with (s', Ok a) => Q a s' | (s', Err _) => I s' end.

Section logic.
Context {S E : Type}.
Variable I : S → Prop.
Implicit Types s : S.

Lemma wp_bind {A B} (m : Step S E A) (k : A → Step S E B) Q s : wp I m (λ a, wp I (k a) Q) s → wp I (m ≫= k) Q s.
Proof. unfold wp, mbind, step_bind. by destruct (m s) as [s' [a|e]]. Qed.

Lemma wp_mono {A} (m : Step S E A) (Q Q' : A → S → Prop) s : wp I m Q' s → (∀ a s', Q' a s' → Q a s') → wp I m Q s.
Proof. unfold wp. destruct (m s) as [s' [a|e]]; auto. Qed.

Lemma wp_ret {A} (a : A) (Q : A → S → Prop) s : Q a s → wp (E := E) I (mret a) Q s.
Proof. done. Qed.

Lemma wp_get {A} (f : S → A) (Q : A → S → Prop) s : Q (f s) s → wp (E := E) I (get f) Q s.
Proof. done. Qed.

Lemma wp_assign f (Q : unit → S → Prop) s : Q tt (f s) → wp (E := E) I (assign f) Q s.
Proof. done. Qed.

Lemma wp_break {A} (e : E) (Q : A → S → Prop) s : I s → wp I (break e) Q s.
Proof. done. Qed.

End logic.

Lemma wp_weaken {S E A} (I I' : S → Prop) (m : Step S E A) (Q : A → S → Prop) s : (∀ s', I' s' → I s') → wp I' m Q s → wp I m Q s.
Proof. intros HI. unfold wp. destruct (m s) as [s' [a|e]]; auto. Qed.

(** The same with what holds for each way to leave *)
Definition wpx {S E A} (X : E → S → Prop) (m : Step S E A) (Q : A → S → Prop) (s : S) : Prop :=
  match m s with (s', Ok a) => Q a s' | (s', Err e) => X e s' end.

Section ends.
Context {S E : Type}.
Variable X : E → S → Prop.
Implicit Types s : S.

Lemma wpx_bind {A B} (m : Step S E A) (k : A → Step S E B) Q s : wpx X m (λ a, wpx X (k a) Q) s → wpx X (m ≫= k) Q s.
Proof. unfold wpx, mbind, step_bind. by destruct (m s) as [s' [a|e]]. Qed.

Lemma wpx_mono {A} (m : Step S E A) (Q Q' : A → S → Prop) s : wpx X m Q' s → (∀ a s', Q' a s' → Q a s') → wpx X m Q s.
Proof. unfold wpx. destruct (m s) as [s' [a|e]]; auto. Qed.

Lemma wpx_ret {A} (a : A) (Q : A → S → Prop) s : Q a s → wpx X (mret a) Q s.
Proof. done. Qed.

Lemma wpx_get {A} (f : S → A) (Q : A → S → Prop) s : Q (f s) s → wpx X (get f) Q s.
Proof. done. Qed.

Lemma wpx_assign f (Q : unit → S → Prop) s : Q tt (f s) → wpx X (assign f) Q s.
Proof. done. Qed.

Lemma wpx_break {A} (e : E) (Q : A → S → Prop) s : X e s → wpx X (break e) Q s.
Proof. done. Qed.

End ends.

(** A fact that is also used for the second half *)
Lemma and_use (A B : Prop) : A → (A → B) → A ∧ B.
Proof. auto. Qed.
