(* ===== verification/Diagnostics.v ===== *)
(** * Diagnostics

    crates/portl-core/src/diagnostics.rs: what is hidden of texts, arguments and environment
    values before they are logged or bundled, the rotation of the log files, the tail of a log and
    the name of a bundle.  A text is the list of its characters. *)

From S2P Require Import Prelude Text.

Definition text : Type := list Z.
Definition lit (s : string) : text := str_bytes s.

(** ** Characters *)

(** [char::is_whitespace] *)
Definition is_whitespace (c : Z) : bool :=
  ascii_ws c || (c =? 133) || (c =? 160) || (c =? 5760) || ((8192 <=? c) && (c <=? 8202)) || (c =? 8232) || (c =? 8233)
  || (c =? 8239) || (c =? 8287) || (c =? 12288).

Definition utf8_len (c : Z) : nat :=
  if c <? 128 then 1 else if c <? 2048 then 2 else if c <? 65536 then 3 else 4.
Definition byte_len (t : text) : nat := sum_list (utf8_len <$> t).

Definition to_ascii_uppercase (c : Z) : Z := if (97 <=? c) && (c <=? 122) then c - 32 else c.
Definition is_ascii_alphanumeric_char (c : Z) : bool :=
  is_ascii_digit c || ((65 <=? c) && (c <=? 90)) || ((97 <=? c) && (c <=? 122)).

Fixpoint drop_while (f : Z → bool) (t : text) : text :=
  match t with
  | [] => []
  | c :: t' => if f c then drop_while f t' else t
  end.

Fixpoint take_while (f : Z → bool) (t : text) : text :=
  match t with
  | [] => []
  | c :: t' => if f c then c :: take_while f t' else []
  end.

Definition trim_end_matches (f : Z → bool) (t : text) : text := reverse (drop_while f (reverse t)).
Definition trim_matches (f : Z → bool) (t : text) : text := trim_end_matches f (drop_while f t).

Fixpoint is_prefix (p t : text) : bool :=
  match p, t with
  | [], _ => true
  | a :: p', b :: t' => (a =? b) && is_prefix p' t'
  | _ :: _, [] => false
  end.

Fixpoint contains (p t : text) : bool :=
  is_prefix p t || match t with [] => false | _ :: t' => contains p t' end.

(** [split_once] at a character. *)
Fixpoint split_once (sep : Z) (t : text) : option (text * text) :=
  match t with
  | [] => None
  | c :: t' => if c =? sep then Some ([], t') else '(k, v) ← split_once sep t'; Some (c :: k, v)
  end.

(** ** What is sensitive *)

Definition looks_like_portl_ticket (value : text) : bool :=
  let normalized := to_ascii_uppercase <$> trim_matches is_whitespace value in
  if bool_decide (normalized = lit "PORTL_DISCOVERY=NONE") then false
  else is_prefix (lit "PORTLINV-") normalized || is_prefix (lit "PORTL-SHARE1-") normalized
       || is_prefix (lit "PORTL-S-") normalized || is_prefix (lit "PORTLTKT-") normalized
       || (is_prefix (lit "PORTL") normalized && (16 <=? byte_len normalized)%nat).

Definition is_sensitive_key (key : text) : bool :=
  let normalized := to_ascii_uppercase <$> ((λ c, if c =? 45 then 95 else c) <$> drop_while (λ c, c =? 45) key) in
  contains (lit "SECRET") normalized || contains (lit "TOKEN") normalized || contains (lit "BEARER") normalized
  || contains (lit "PASSWORD") normalized || bool_decide (normalized = lit "PORTL_IDENTITY_SECRET_HEX")
  || bool_decide (normalized = lit "IROH_SERVICES_API_SECRET").

Definition is_sensitive_bare_flag (key : text) : bool :=
  is_prefix (lit "-") key && negb (contains (lit "=") key) && is_sensitive_key key.

(** ** Redaction *)

(** [rest.find(SCHEME)] with the text up to the end of the match and the text after it. *)
Definition SCHEME : text := [58; 47; 47].

Fixpoint find_scheme (t : text) : option (text * text) :=
  match t with
  | [] => None
  | c :: t' => if is_prefix SCHEME t then Some (SCHEME, drop 2 t') else '(head, tail) ← find_scheme t'; Some (c :: head, tail)
  end.

Definition ends_authority (c : Z) : bool := (c =? 47) || (c =? 63) || (c =? 35) || is_whitespace c.
Definition authority (tail : text) : text := take_while (λ c, negb (ends_authority c)) tail.

(** The text before the last [@], and the rest from it. *)
Fixpoint last_at (t : text) : option (text * text) :=
  match t with
  | [] => None
  | c :: t' =>
      match last_at t' with
      | Some (u, r) => Some (c :: u, r)
      | None => if c =? 64 then Some ([], t) else None
      end
  end.

Fixpoint redact_loop (fuel : nat) (rest : text) : text :=
  match fuel with
  | O => rest
  | S f =>
      match find_scheme rest with
      | None => rest
      | Some (head, tail) =>
          head ++ match last_at (authority tail) with
                  | Some (u, _) => lit "***" ++ redact_loop f (drop (length u) tail)
                  | None => redact_loop f tail
                  end
      end
  end.

Definition redact_url_userinfo (t : text) : text := redact_loop (length t) t.

Definition REDACTED : text := lit "<redacted>".
Definition REDACTED_TICKET : text := lit "<redacted:ticket>".

(** A [key=value] with a sensitive key and a value. *)
Definition sensitive_pair (t : text) : option text :=
  match split_once 61 t with
  | Some (key, value) => if is_sensitive_key key && negb (bool_decide (value = [])) then Some key else None
  | None => None
  end.

Definition redact_arg (arg : text) : text :=
  if looks_like_portl_ticket arg then REDACTED_TICKET
  else match sensitive_pair arg with
       | Some key => key ++ lit "=" ++ REDACTED
       | None => redact_url_userinfo arg
       end.

(** [redact_argv] from an argument on; [redact_next] says that the one before was a flag. *)
Fixpoint redact_args (redact_next : bool) (args : list text) : list text :=
  match args with
  | [] => []
  | arg :: args' =>
      if redact_next && negb (is_prefix (lit "-") arg) then REDACTED :: redact_args false args'
      else let redacted := redact_arg arg in
           redacted :: redact_args (bool_decide (redacted = arg) && is_sensitive_bare_flag arg) args'
  end.

Definition redact_argv (args : list text) : list text := redact_args false args.

(** [token.find(t)], which is there. *)
Fixpoint find_from (t : text) (token : text) : nat :=
  if is_prefix t token then 0 else match token with [] => 0 | _ :: token' => S (find_from t token') end.

Definition not_ticket_char (c : Z) : bool := negb (is_ascii_alphanumeric_char c) && negb (c =? 45).

Definition redact_text_token (token : text) : text :=
  match sensitive_pair token with
  | Some key => key ++ lit "=" ++ REDACTED
  | None =>
      let trimmed := trim_matches not_ticket_char token in
      if bool_decide (trimmed = []) || negb (looks_like_portl_ticket trimmed) then redact_url_userinfo token
      else let start := find_from trimmed token in
           take start token ++ REDACTED_TICKET ++ drop (start + length trimmed) token
  end.

(** [redact_text]: [acc] is the token that has begun, reversed. *)
Definition flush (acc : text) : text := match acc with [] => [] | _ => redact_text_token (reverse acc) end.

Fixpoint redact_chars (acc : text) (t : text) : text :=
  match t with
  | [] => flush acc
  | c :: t' => if is_whitespace c then flush acc ++ c :: redact_chars [] t' else redact_chars (c :: acc) t'
  end.

Definition redact_text (t : text) : text := redact_chars [] t.

Definition redact_env_value (name value : text) : text :=
  if is_sensitive_key name || looks_like_portl_ticket value then REDACTED else redact_url_userinfo value.

(** ** Log files *)

Definition LOG_ROTATE_BYTES : Z := 10 * 1024 * 1024.
Definition LOG_ROTATE_KEEP : nat := 10.
Definition BUNDLE_LOG_TAIL_BYTES : Z := 2 * 1024 * 1024.

(** The log ([0]) and its rotated copies, by index, with their contents. *)
Abbreviation Logs := (gmap nat bytes).

(** One round of the loop; [ok] says which operations on the files succeed, by index. *)
Definition shift (keep : nat) (ok : nat → bool) (fs : Logs) (idx : nat) : Logs :=
  match fs !! idx with
  | None => fs
  | Some b =>
      if ok idx then if (idx =? keep)%nat then delete idx fs else <[S idx := b]> (delete idx fs) else fs
  end.

Fixpoint shift_all (keep : nat) (ok : nat → bool) (fs : Logs) (idx : nat) : Logs :=
  match idx with
  | O => fs
  | S idx' => shift_all keep ok (shift keep ok fs idx) idx'
  end.

Definition rotate_if_needed (max_bytes : Z) (keep : nat) (ok : nat → bool) (fs : Logs) : result string unit * Logs :=
  match fs !! 0%nat with
  | None => (Ok tt, fs)
  | Some b =>
      if Z.of_nat (length b) <=? max_bytes then (Ok tt, fs)
      else let fs := shift_all keep ok fs keep in
           if ok 0%nat then (Ok tt, <[1%nat := b]> (delete 0%nat fs)) else (Err "rotate", fs)
  end.

Definition read_tail (file : option bytes) (max_bytes : Z) : option bytes :=
  b ← file; Some (drop (Z.to_nat (saturating_sub (Z.of_nat (length b)) max_bytes)) b).

(** ** The name of a bundle *)

Record Stamp := { year : Z; month : Z; day : Z; hours : Z; minutes : Z; seconds : Z }.

Definition unix_to_ymdhms (secs : Z) : Stamp :=
  let days := secs / 86400 in
  let rem := secs `mod` 86400 in
  let z := days + 719468 in
  let era := z / 146097 in
  let doe := z - era * 146097 in
  let yoe := (doe - doe / 1460 + doe / 36524 - doe / 146096) / 365 in
  let y := yoe + era * 400 in
  let doy := doe - (365 * yoe + yoe / 4 - yoe / 100) in
  let mp := (5 * doy + 2) / 153 in
  let d := doy - (153 * mp + 2) / 5 + 1 in
  let m := if mp <? 10 then mp + 3 else mp - 9 in
  let y := if m <=? 2 then y + 1 else y in
  {| year := wrapping 32 y; month := m; day := d; hours := rem / 3600; minutes := (rem `mod` 3600) / 60; seconds := rem `mod` 60 |}.

Definition zeros (width : nat) (n : Z) : string :=
  let s := dec n in String.concat "" (replicate (width - String.length s) "0") +:+ s.

Definition doctor_bundle_filename_for_unix (secs : Z) : string :=
  let t := unix_to_ymdhms secs in
  "portl-doctor-bundle-" +:+ zeros 4 (year t) +:+ zeros 2 (month t) +:+ zeros 2 (day t) +:+ "-" +:+ zeros 2 (hours t)
    +:+ zeros 2 (minutes t) +:+ zeros 2 (seconds t) +:+ "Z.zip".

(** ** The calendar *)

(** The Gregorian calendar: leap years, the lengths of the months, the days before a date. *)
Definition leap (y : Z) : bool := (y `mod` 4 =? 0) && (negb (y `mod` 100 =? 0) || (y `mod` 400 =? 0)).
Definition month_days (y m : Z) : Z :=
  if m =? 2 then if leap y then 29 else 28 else if (m =? 4) || (m =? 6) || (m =? 9) || (m =? 11) then 30 else 31.
Definition leaps_until (y : Z) : Z := y / 4 - y / 100 + y / 400.
Definition days_before_year (y : Z) : Z := 365 * (y - 1970) + leaps_until (y - 1) - leaps_until 1969.
Fixpoint days_before_months (y : Z) (n : nat) : Z :=
  match n with O => 0 | S n' => days_before_months y n' + month_days y (Z.of_nat n) end.
Definition seconds_of (t : Stamp) : Z :=
  86400 * (days_before_year (year t) + days_before_months (year t) (Z.to_nat (month t - 1)) + day t - 1)
  + 3600 * hours t + 60 * minutes t + seconds t.

Definition yoe_of (doe : Z) : Z := (doe - doe / 1460 + doe / 36524 - doe / 146096) / 365.

Lemma yoe_spec doe : 0 ≤ doe < 146097 →
  let y := yoe_of doe in let doy := doe - (365 * y + y / 4 - y / 100) in
  0 ≤ y ≤ 399 ∧ 0 ≤ doy ≤ 365 ∧ (doy = 365 → leap (y + 1) = true).
Proof.
  intros H. unfold yoe_of, leap.
  assert (doe = 146096 ∨ doe < 146096) as [-> | Hlt] by lia; [by vm_compute |].
  rewrite (Z.div_small doe 146096), Z.sub_0_r by lia.
  set (c := doe / 36524). set (q := doe / 1460).
  assert (Hc : 0 ≤ c ≤ 3 ∧ 36524 * c ≤ doe < 36524 * c + 36524) by (unfold c; Z.to_euclidean_division_equations; lia).
  assert (Hq : 1460 * q ≤ doe < 1460 * q + 1460) by (unfold q; Z.to_euclidean_division_equations; lia). clearbody c q.
  assert (c = 0 ∨ c = 1 ∨ c = 2 ∨ c = 3) as [-> |[-> |[-> | ->]]] by lia;
    (split; [Z.to_euclidean_division_equations; lia |]; split; [Z.to_euclidean_division_equations; lia |]; intros Hd;
     rewrite andb_true_iff, orb_true_iff, negb_true_iff, !Z.eqb_eq, Z.eqb_neq; Z.to_euclidean_division_equations; lia).
Qed.

(** The first of March of a year. *)
Definition march (y : Z) : Z := 365 * (y - 1970) + leaps_until y - leaps_until 1969 + 59.

Lemma leap_count y : leaps_until y = leaps_until (y - 1) + (if leap y then 1 else 0).
Proof.
  unfold leaps_until, leap. destruct (y `mod` 4 =? 0) eqn:H4, (y `mod` 100 =? 0) eqn:H100, (y `mod` 400 =? 0) eqn:H400;
    cbn [negb andb orb]; Z.to_euclidean_division_equations; lia.
Qed.

Lemma march_era yoe era : 0 ≤ yoe ≤ 399 → march (yoe + era * 400) = 146097 * era + (365 * yoe + yoe / 4 - yoe / 100) - 719468.
Proof. intros H. unfold march, leaps_until. Z.to_euclidean_division_equations; lia. Qed.

Lemma leap_era y era : leap (y + era * 400) = leap y.
Proof. unfold leap. f_equal; [| f_equal; [f_equal |]]; f_equal; Z.to_euclidean_division_equations; lia. Qed.

(** Evaluates comparisons and conversions of numbers. *)
Ltac eval_closed :=
  cbn [nth days_before_months];
  repeat match goal with
  | |- context [?a <? ?b] => let v := eval vm_compute in (a <? b) in change (a <? b) with v; cbv iota
  | |- context [?a <=? ?b] => let v := eval vm_compute in (a <=? b) in change (a <=? b) with v; cbv iota
  | |- context [?a =? ?b] => let v := eval vm_compute in (a =? b) in change (a =? b) with v; cbn [orb]; cbv iota
  | |- context [Z.to_nat ?a] => let v := eval vm_compute in (Z.to_nat a) in change (Z.to_nat a) with v;
                                cbn [days_before_months]; unfold month_days
  end.

(** The month and the day of a day counted from the first of March. *)
Lemma date_spec y doy : 0 ≤ doy ≤ 365 → (doy = 365 → leap (y + 1) = true) →
  let mp := (5 * doy + 2) / 153 in
  let d := doy - (153 * mp + 2) / 5 + 1 in
  let m := if mp <? 10 then mp + 3 else mp - 9 in
  let y' := if m <=? 2 then y + 1 else y in
  1 ≤ m ≤ 12 ∧ 1 ≤ d ≤ month_days y' m ∧ days_before_year y' + days_before_months y' (Z.to_nat (m - 1)) + d - 1 = march y + doy.
Proof.
  intros Hd Hl. cbv zeta. set (mp := (5 * doy + 2) / 153).
  assert (Hmp : 153 * mp ≤ 5 * doy + 2 < 153 * mp + 153) by (unfold mp; Z.to_euclidean_division_equations; lia). clearbody mp.
  pose proof (leap_count y) as Hy. unfold march, days_before_year. change (leaps_until 1969) with 477.
  assert (Hy1 : leaps_until (y + 1 - 1) = leaps_until y) by (f_equal; lia).
  assert (Hl' : doy ≤ 364 ∨ leap (y + 1) = true) by (destruct (Z.eq_dec doy 365); [right; auto | left; lia]). clear Hl.
  assert (∃ n, mp = Z.of_nat n ∧ (n < 12)%nat) as (n & -> & Hn) by (exists (Z.to_nat mp); lia).
  assert (Hdiv : ∀ k : nat, (k < 12)%nat → (153 * Z.of_nat k + 2) / 5 = nth k [0; 31; 61; 92; 122; 153; 184; 214; 245; 275; 306; 337] 0).
  { intros k Hk. do 12 (destruct k as [|k]; [done |]). lia. }
  rewrite Hdiv by done. clear Hdiv.
  destruct (leap y) eqn:Hly, (leap (y + 1)) eqn:Hly1; (destruct Hl' as [Hl' | Hl']; [| try discriminate Hl']);
    do 12 (destruct n as [|n]; [eval_closed; unfold month_days; eval_closed; rewrite ?Hly, ?Hly1; lia |]); lia.
Qed.

Lemma stamp_year secs : 0 ≤ secs < 2 ^ 56 → ∃ y,
  0 ≤ y < 2 ^ 32 ∧ let t := unix_to_ymdhms secs in
  year t = y ∧ 1 ≤ month t ≤ 12 ∧ 1 ≤ day t ≤ month_days y (month t) ∧
  days_before_year y + days_before_months y (Z.to_nat (month t - 1)) + day t - 1 = secs / 86400.
Proof.
  intros Hs. unfold unix_to_ymdhms. cbn [year month day]. set (z := secs / 86400 + 719468). set (era := z / 146097).
  set (doe := z - era * 146097).
  assert (Hz : 719468 ≤ z < 2 ^ 40) by (unfold z; Z.to_euclidean_division_equations; lia).
  assert (Hdoe : 0 ≤ doe < 146097 ∧ 0 ≤ era < 2 ^ 23) by (unfold doe, era; clearbody z; Z.to_euclidean_division_equations; lia).
  destruct (yoe_spec doe) as (Hy & Hdoy & Hleap); [lia |]. fold (yoe_of doe).
  set (yoe := yoe_of doe) in *. set (doy := doe - (365 * yoe + yoe / 4 - yoe / 100)) in *.
  destruct (date_spec (yoe + era * 400) doy Hdoy) as (Hm & Hd & Hdays).
  { intros Hx. replace (yoe + era * 400 + 1) with (yoe + 1 + era * 400) by lia. rewrite leap_era. auto. }
  rewrite march_era in Hdays by done. set (mp := (5 * doy + 2) / 153) in *. set (m := if mp <? 10 then mp + 3 else mp - 9) in *.
  set (y := if m <=? 2 then yoe + era * 400 + 1 else yoe + era * 400) in *.
  assert (Hyy : 0 ≤ y < 2 ^ 32) by (unfold y; destruct (m <=? 2); lia).
  exists y. split; [done |]. split; [unfold wrapping; by rewrite Z.mod_small |]. split; [done |]. split; [done |].
  rewrite Hdays. unfold doy, doe, z. lia.
Qed.

(** The date in the name of a bundle is the date of the calendar: a valid day of its month and
    time of day, and it denotes the second the clock showed. *)
Theorem bundle_date_correct secs : 0 ≤ secs < 2 ^ 56 →
  let t := unix_to_ymdhms secs in
  1 ≤ month t ≤ 12 ∧ 1 ≤ day t ≤ month_days (year t) (month t) ∧ 0 ≤ hours t < 24 ∧ 0 ≤ minutes t < 60 ∧ 0 ≤ seconds t < 60 ∧
  seconds_of t = secs.
Proof.
  intros Hs. destruct (stamp_year secs Hs) as (y & _ & Hy & Hm & Hd & Hdays). cbv zeta. unfold seconds_of.
  rewrite Hy, Hdays. split; [done |]. split; [done |]. unfold unix_to_ymdhms. cbn [hours minutes seconds].
  clear. Z.to_euclidean_division_equations; lia.
Qed.

(** ** Hidden user information *)

Lemma is_prefix_spec p t : is_prefix p t = true ↔ ∃ r, t = p ++ r.
Proof.
  revert t. induction p as [|a p IH]; intros t; [naive_solver |]. destruct t as [|b t]; cbn; [naive_solver |].
  rewrite andb_true_iff, Z.eqb_eq, IH. naive_solver.
Qed.

Lemma find_scheme_Some t head tail : find_scheme t = Some (head, tail) →
  ∃ h, head = h ++ SCHEME ∧ t = h ++ SCHEME ++ tail ∧ ∀ a b, t = a ++ SCHEME ++ b → (length h ≤ length a)%nat.
Proof.
  revert head. induction t as [|c t IH]; intros head; [done |]. cbn [find_scheme]. destruct (is_prefix SCHEME (c :: t)) eqn:Hp.
  - apply is_prefix_spec in Hp as [r Hr]. injection Hr as -> ->. intros [= <- <-]. exists []. split_and!; [done | done |]. cbn. lia.
  - intros Hf. apply bind_Some in Hf as ([hd tl] & Hf & [= <- <-]). destruct (IH hd Hf) as (h & -> & -> & Hfirst).
    exists (c :: h). split_and!; [done | done |]. intros [|x a] b Heq.
    + rewrite (proj2 (is_prefix_spec SCHEME _)) in Hp; [done |]. by exists b.
    + injection Heq as <- Heq. cbn. specialize (Hfirst a b Heq). lia.
Qed.

Lemma find_scheme_None t : find_scheme t = None → ∀ a b, t ≠ a ++ SCHEME ++ b.
Proof.
  induction t as [|c t IH]; cbn [find_scheme]; intros Hf a b Heq; [by destruct a |].
  destruct (is_prefix SCHEME (c :: t)) eqn:Hp; [done |]. destruct a as [|x a].
  - rewrite (proj2 (is_prefix_spec SCHEME _)) in Hp; [done |]. by exists b.
  - injection Heq as <- Heq. destruct (find_scheme t) as [[hd tl]|] eqn:Ht; [done |]. by apply (IH eq_refl a b).
Qed.

(** Occurrences after a first one. *)
Lemma scheme_cases h x a b :
  (∀ a' b', h ++ [58; 47] = a' ++ SCHEME ++ b' → False) → h ++ SCHEME ++ x = a ++ SCHEME ++ b →
  (a = h ∧ b = x) ∨ ∃ a', x = a' ++ SCHEME ++ b.
Proof.
  unfold SCHEME. intros Hno Heq. apply app_eq_inv in Heq as [(k & -> & Hk)|(k & -> & Hk)].
  - destruct k as [|k0 [|k1 [|k2 k]]]; simplify_eq/=; [left; by rewrite app_nil_r |].
    destruct (Hno a (k ++ [58; 47])). by rewrite <- app_assoc.
  - destruct k as [|k0 [|k1 [|k2 k]]]; simplify_eq/=; [left; by rewrite app_nil_r |]. right. by exists k.
Qed.

Lemma last_at_Some t u r : last_at t = Some (u, r) → t = u ++ r ∧ ∃ r', r = 64 :: r' ∧ 64 ∉ r'.
Proof.
  revert u. induction t as [|c t IH]; intros u; cbn [last_at]; [done |]. destruct (last_at t) as [[u' r']|] eqn:Ht.
  - intros [= <- <-]. destruct (IH u' eq_refl) as (-> & Hr). done.
  - destruct (Z.eqb_spec c 64) as [->|]; [| done]. intros [= <- <-]. split; [done |]. exists t. split; [done |].
    clear IH. induction t as [|d t IHt]; [by intros ?%elem_of_nil |]. cbn in Ht. destruct (last_at t) as [[]|]; [done |].
    destruct (Z.eqb_spec d 64); [done |]. intros [Hd|Hin]%elem_of_cons; [congruence |]. by apply IHt.
Qed.

Lemma last_at_app u r : 64 ∉ r → last_at (u ++ 64 :: r) = Some (u, 64 :: r).
Proof.
  intros Hr. induction u as [|c u IH]; cbn; [| by rewrite IH].
  assert (last_at r = None) as ->; [| done]. destruct (last_at r) as [[u' r']|] eqn:Hl; [| done].
  apply last_at_Some in Hl as (-> & r2 & -> & _). destruct Hr. set_solver.
Qed.

Lemma take_while_stop f l c x y : f c = false → take_while f (l ++ c :: x) = take_while f (l ++ c :: y).
Proof. intros Hc. induction l as [|d l IH]; cbn; [by rewrite Hc | by rewrite IH]. Qed.

Lemma take_while_app f l x : Forall (λ c, f c = true) l → take_while f (l ++ x) = l ++ take_while f x.
Proof. induction 1 as [|c l Hc _ IH]; cbn; [done |]. by rewrite Hc, IH. Qed.

Lemma take_while_Forall f t : Forall (λ c, f c = true) (take_while f t).
Proof. induction t as [|c t IH]; cbn; [done |]. destruct (f c) eqn:Hc; auto. Qed.

Lemma take_while_split f t : ∃ r, t = take_while f t ++ r.
Proof. induction t as [|c t [r IH]]; cbn; [by exists [] |]. destruct (f c); [exists r; cbn; congruence | by exists (c :: t)]. Qed.

(** What is hidden comes after a slash. *)
Lemma authority_redact fuel t : authority (redact_loop fuel t) = authority t.
Proof.
  destruct fuel as [|fuel]; cbn [redact_loop]; [done |]. destruct (find_scheme t) as [[head tail]|] eqn:Hf; [| done].
  apply find_scheme_Some in Hf as (h & -> & -> & _). unfold authority, SCHEME. rewrite <- app_assoc. cbn [app].
  rewrite !(cons_middle 58 h), !(app_assoc h [58]). by apply take_while_stop.
Qed.

(** A text exposes user information if an address in it has some other than [***]. *)
Definition exposes (t : text) : Prop := ∃ a b u r, t = a ++ SCHEME ++ b ∧ last_at (authority b) = Some (u, r) ∧ u ≠ lit "***".

Lemma stars_scheme y a b : lit "***" ++ y = a ++ SCHEME ++ b → ∃ a', y = a' ++ SCHEME ++ b.
Proof. unfold SCHEME. destruct a as [|a0 [|a1 [|a2 a]]]; cbn; intros Heq; simplify_eq. by exists a. Qed.

Lemma authority_stars u r y tail fuel :
  last_at (authority tail) = Some (u, r) → tail = u ++ y →
  authority (lit "***" ++ redact_loop fuel y) = lit "***" ++ r.
Proof.
  intros (Hauth & _)%last_at_Some Htail. unfold authority at 1. rewrite take_while_app by (by repeat constructor). f_equal.
  fold (authority (redact_loop fuel y)). rewrite authority_redact. unfold authority in *. subst tail.
  pose proof (take_while_Forall (λ c, negb (ends_authority c)) (u ++ y)) as Hall. rewrite Hauth in Hall.
  apply Forall_app in Hall as [Hu _]. rewrite take_while_app in Hauth by done. by apply app_inv_head in Hauth.
Qed.

Lemma redact_hides fuel t : (length t ≤ fuel)%nat → ~ exposes (redact_loop fuel t).
Proof.
  revert t. induction fuel as [|fuel IH]; intros t Hlen (a & b & u & r & Heq & Hlast & Hu).
  { destruct t; [| cbn in Hlen; lia]. cbn in Heq. by destruct a. }
  cbn [redact_loop] in Heq. destruct (find_scheme t) as [[head tail]|] eqn:Hf;
    [| by apply (find_scheme_None t Hf a b)].
  apply find_scheme_Some in Hf as (h & -> & -> & Hfirst). rewrite <- app_assoc in Heq.
  rewrite !length_app in Hlen. cbn in Hlen.
  apply scheme_cases in Heq.
  2:{ intros a' b' Hx. specialize (Hfirst a' (b' ++ 47 :: tail)). rewrite !app_assoc, <- (app_assoc a'), <- Hx in Hfirst.
      apply (f_equal length) in Hx. rewrite !length_app in Hx. cbn in Hx. rewrite <- !app_assoc in Hfirst. specialize (Hfirst eq_refl). lia. }
  destruct (last_at (authority tail)) as [[u' r']|] eqn:Htail.
  - pose proof (last_at_Some _ _ _ Htail) as (Hauth & r2 & -> & Hr2).
    destruct (take_while_split (λ c, negb (ends_authority c)) tail) as [y Hy]. fold (authority tail) in Hy.
    rewrite Hauth, <- app_assoc in Hy. rewrite Hy, drop_app_length in Heq.
    rewrite Hy, length_app in Hlen. destruct Heq as [[-> ->]|[a' Heq]].
    + rewrite (authority_stars u' (64 :: r2) ((64 :: r2) ++ y) tail fuel Htail Hy) in Hlast. rewrite last_at_app in Hlast by done. by injection Hlast as <- _.
    + apply stars_scheme in Heq as [a'' Heq]. apply (IH ((64 :: r2) ++ y)); [lia |]. by exists a'', b, u, r.
  - destruct Heq as [[-> ->]|[a' Heq]].
    + by rewrite authority_redact, Htail in Hlast.
    + apply (IH tail); [lia |]. by exists a', b, u, r.
Qed.

(** A text whose addresses were redacted exposes no user information: in every address in it,
    what stands before the last [@] of the authority is [***]. *)
Theorem userinfo_hidden t : ~ exposes (redact_url_userinfo t).
Proof. by apply redact_hides. Qed.

(** ** Hidden values *)

Lemma redact_chars_token acc l t : Forall (λ c, is_whitespace c = false) l → redact_chars acc (l ++ t) = redact_chars (reverse l ++ acc) t.
Proof.
  intros Hl. revert acc. induction Hl as [|c l Hc _ IH]; intros acc; [done |]. cbn [app redact_chars]. rewrite Hc, IH.
  by rewrite reverse_cons, <- app_assoc.
Qed.

Lemma redact_chars_split acc p w t : is_whitespace w = true → redact_chars acc (p ++ w :: t) = redact_chars acc (p ++ [w]) ++ redact_chars [] t.
Proof.
  intros Hw. revert acc. induction p as [|c p IH]; intros acc; cbn [app redact_chars].
  - rewrite Hw. cbn. by rewrite <- app_assoc.
  - destruct (is_whitespace c); rewrite IH; [by rewrite <- app_assoc | done].
Qed.

Lemma split_once_app sep key v : sep ∉ key → split_once sep (key ++ sep :: v) = Some (key, v).
Proof.
  induction key as [|c key IH]; cbn; [by rewrite Z.eqb_refl |]. intros [Hc Hk]%not_elem_of_cons.
  rewrite (proj2 (Z.eqb_neq c sep)) by congruence. by rewrite IH.
Qed.

Lemma token_hidden key v : is_sensitive_key key = true → 61 ∉ key → v ≠ [] →
  redact_text_token (key ++ 61 :: v) = key ++ lit "=" ++ REDACTED.
Proof.
  intros Hk Hno Hv. unfold redact_text_token, sensitive_pair. rewrite split_once_app, Hk by done.
  by rewrite bool_decide_eq_false_2.
Qed.

(** What begins a token: nothing, or white space. *)
Definition at_boundary (t : text) : Prop := t = [] ∨ ∃ p w, t = p ++ [w] ∧ is_whitespace w = true.

Lemma redact_token_between pre tok post :
  at_boundary pre → (post = [] ∨ ∃ w p, post = w :: p ∧ is_whitespace w = true) → tok ≠ [] →
  Forall (λ c, is_whitespace c = false) tok →
  redact_text (pre ++ tok ++ post) = redact_text pre ++ redact_text_token tok ++ redact_text post.
Proof.
  intros Hpre Hpost Hne Htok. unfold redact_text.
  assert (Hin : redact_chars [] (tok ++ post) = redact_text_token tok ++ redact_chars [] post).
  { rewrite redact_chars_token, app_nil_r by done.
    assert (Hfl : flush (reverse tok) = redact_text_token tok).
    { unfold flush. destruct (reverse tok) eqn:Hr; [| by rewrite <- Hr, reverse_involutive].
      apply (f_equal reverse) in Hr. rewrite reverse_involutive in Hr. done. }
    destruct Hpost as [-> |(w & p & -> & Hw)]; cbn [redact_chars]; [by rewrite Hfl, app_nil_r |]. by rewrite Hw, Hfl. }
  destruct Hpre as [-> |(p & w & -> & Hw)]; [done |]. rewrite <- app_assoc. cbn [app].
  by rewrite redact_chars_split, Hin by done.
Qed.

(** The value of a sensitive key cannot be told from a redacted text: two texts that differ
    only in such a value are redacted to the same text. *)
Theorem sensitive_value_hidden pre key v v' post :
  at_boundary pre → (post = [] ∨ ∃ w p, post = w :: p ∧ is_whitespace w = true) →
  is_sensitive_key key = true → 61 ∉ key → v ≠ [] → v' ≠ [] →
  Forall (λ c, is_whitespace c = false) key → Forall (λ c, is_whitespace c = false) v → Forall (λ c, is_whitespace c = false) v' →
  redact_text (pre ++ (key ++ 61 :: v) ++ post) = redact_text (pre ++ (key ++ 61 :: v') ++ post).
Proof.
  intros Hpre Hpost Hk Hno Hv Hv' Hwk Hwv Hwv'.
  assert (Hone : ∀ x, x ≠ [] → Forall (λ c, is_whitespace c = false) x →
    redact_text (pre ++ (key ++ 61 :: x) ++ post) = redact_text pre ++ (key ++ lit "=" ++ REDACTED) ++ redact_text post).
  { intros x Hx Hwx. rewrite redact_token_between; [by rewrite token_hidden | done | done | by destruct key |].
    apply Forall_app. split; [done |]. by constructor. }
  by rewrite !Hone.
Qed.

(** The value that follows a sensitive flag of a command line cannot be told either, as long as
    it does not begin like a flag itself. *)
Theorem flag_value_hidden before flag v v' after :
  is_sensitive_bare_flag flag = true → redact_arg flag = flag →
  is_prefix (lit "-") v = false → is_prefix (lit "-") v' = false →
  redact_argv (before ++ flag :: v :: after) = redact_argv (before ++ flag :: v' :: after).
Proof.
  intros Hf Hr Hv Hv'. unfold redact_argv. generalize false. induction before as [|b before IH]; intros next.
  - cbn [app]. cbn [redact_args]. unfold is_sensitive_bare_flag in Hf. apply andb_true_iff in Hf as Hf'.
    destruct Hf' as [[Hd _]%andb_true_iff _]. rewrite Hd, andb_false_r, Hr, bool_decide_eq_true_2 by done.
    unfold is_sensitive_bare_flag. rewrite Hf, Hv, Hv'. done.
  - cbn [app redact_args]. destruct (next && negb (is_prefix (lit "-") b)); f_equal; apply IH.
Qed.

(** ** Rotation *)

(** The loop from [n] down, where every operation succeeds and the place after [n] is free. *)
Lemma shift_all_spec keep fs n i :
  (n ≤ keep)%nat → n = keep ∨ fs !! S n = None →
  shift_all keep (λ _, true) fs n !! i =
    (if decide (i = 0) then fs !! 0 else if decide (i = 1) then if decide (n = 0) then fs !! 1 else None
     else if decide (i ≤ n ∨ i = S n ∧ n ≠ keep ∧ n ≠ 0) then fs !! (i - 1) else fs !! i)%nat.
Proof.
  revert fs. induction n as [|n IH]; intros fs Hn Hfree; cbn [shift_all].
  { repeat case_decide; simplify_eq; try done; lia. }
  assert (Hsh : ∀ j, shift keep (λ _, true) fs (S n) !! j =
    if decide (j = S n) then None else if decide (j = S (S n) ∧ S n ≠ keep) then fs !! S n else fs !! j).
  { intros j. unfold shift. destruct (fs !! S n) as [b|] eqn:Hb.
    - cbv beta iota. destruct (Nat.eqb_spec (S n) keep) as [He|He].
      + destruct (decide (j = S n)) as [-> |]; [by rewrite lookup_delete_eq |].
        rewrite lookup_delete_ne, decide_False by (try lia; naive_solver). done.
      + destruct (decide (j = S n)) as [-> |]; [rewrite lookup_insert_ne by lia; by rewrite lookup_delete_eq |].
        destruct (decide (j = S (S n) ∧ S n ≠ keep)) as [[-> _]|Hj]; [by rewrite lookup_insert_eq |].
        rewrite lookup_insert_ne, lookup_delete_ne by naive_solver. done.
    - destruct (decide (j = S n)) as [-> |]; [done |].
      destruct (decide (j = S (S n) ∧ S n ≠ keep)) as [[-> Hk]|]; [| done]. destruct Hfree as [? | ->]; [lia | done]. }
  rewrite IH; [| lia | right; by rewrite Hsh, decide_True]. clear IH.
  repeat case_decide; rewrite ?Hsh; repeat case_decide; simplify_eq; try done; try lia; try (f_equal; lia).
Qed.

(** A log that is too large is rotated: it becomes the first copy, every copy moves up by one,
    the oldest is dropped, and no copy beyond the number that is kept is written. *)
Theorem rotation_shifts max_bytes keep fs b :
  (0 < keep)%nat → fs !! 0%nat = Some b → max_bytes < Z.of_nat (length b) →
  ∃ fs', rotate_if_needed max_bytes keep (λ _, true) fs = (Ok tt, fs') ∧
    fs' !! 0%nat = None ∧ (∀ i, (i < keep)%nat → fs' !! S i = fs !! i) ∧ ∀ i, (keep < i)%nat → fs' !! i = fs !! i.
Proof.
  intros Hk Hb Hlen. unfold rotate_if_needed. rewrite Hb, (proj2 (Z.leb_gt _ _)) by lia. eexists. split; [done |].
  split; [by rewrite lookup_insert_ne, lookup_delete_eq by lia |]. split.
  - intros [|i] Hi; [by rewrite lookup_insert_eq |]. rewrite lookup_insert_ne, lookup_delete_ne, shift_all_spec by lia.
    by repeat case_decide; try lia.
  - intros i Hi. rewrite lookup_insert_ne, lookup_delete_ne, shift_all_spec by lia. repeat case_decide; try lia; done.
Qed.

Lemma read_tail_suffix b max_bytes : 0 ≤ max_bytes → ∃ t p, read_tail (Some b) max_bytes = Some t ∧ b = p ++ t ∧
  Z.of_nat (length t) = Z.min (Z.of_nat (length b)) max_bytes.
Proof.
  intros Hm. unfold read_tail, saturating_sub. eexists _, (take (Z.to_nat (Z.max 0 (Z.of_nat (length b) - max_bytes))) b).
  split; [done |]. split; [by rewrite take_drop |]. rewrite length_drop. lia.
Qed.

(** ** Examples *)

Module Demo.

Lemma bundle_date_correct_witness : seconds_of (unix_to_ymdhms 951868799) = 951868799.
Proof.
  assert (H : 0 ≤ 951868799 < 2 ^ 56) by lia.
  exact (proj2 (proj2 (proj2 (proj2 (proj2 (bundle_date_correct 951868799 H)))))).
Defined.

Lemma sensitive_value_hidden_witness :
  redact_text (lit "run " ++ (lit "api_token" ++ 61 :: lit "abc") ++ []) = redact_text (lit "run " ++ (lit "api_token" ++ 61 :: lit "xyz9") ++ []).
Proof.
  apply sensitive_value_hidden.
  - right. by exists (lit "run"), 32.
  - by left.
  - reflexivity.
  - apply (bool_decide_unpack _). reflexivity.
  - discriminate.
  - discriminate.
  - repeat constructor.
  - repeat constructor.
  - repeat constructor.
Defined.

Lemma flag_value_hidden_witness :
  redact_argv ([lit "login"] ++ lit "--token" :: lit "abc" :: [lit "x"]) = redact_argv ([lit "login"] ++ lit "--token" :: lit "xyz" :: [lit "x"]).
Proof. apply flag_value_hidden; reflexivity. Defined.

Lemma rotation_shifts_witness :
  ∃ fs', rotate_if_needed 1 10 (λ _, true) {[0%nat := [1; 2]]} = (Ok tt, fs') ∧ fs' !! 1%nat = Some [1; 2].
Proof.
  destruct (rotation_shifts 1 10 {[0%nat := [1; 2]]} [1; 2]) as (fs' & Hr & _ & Hs & _); [lia | reflexivity | cbn; lia |].
  exists fs'. split; [exact Hr |]. rewrite Hs by lia. reflexivity.
Defined.

End Demo.
