(* ===== verification/Schema.v ===== *)
(** * Ticket schema

    The data of crates/portl-core/src/ticket/schema.rs, the shared error type of
    error.rs, and the Unix-socket path rules (validation, matching and covering).
    Integers are [Z]; [Capabilities.presence] is the [u8] bitmap.  The endpoint
    address type comes from the iroh library and is the parameter [Iroh]. *)

From S2P Require Import Prelude.

(** ** Parameter: the iroh endpoint address *)

(** [iroh_base::EndpointAddr] with [addr.id.as_bytes()]. *)
Class Iroh := {
  EndpointAddr : Type;
  addr_id : EndpointAddr → bytes;
  #[global] EndpointAddr_eq_dec :: EqDecision EndpointAddr;
}.

(** ** Errors *)

(** The payload of the postcard, age and i/o errors is the library's own and is
    not represented. *)
Inductive PortlError :=
  | PostcardError
  | Base32 (msg : string)
  | Canonical (msg : string)
  | Signature (msg : string)
  | Ticket (msg : string)
  | Chain (msg : string)
  | Clock (msg : string)
  | Age
  | Io.

#[export] Instance PortlError_eq_dec : EqDecision PortlError.
Proof. solve_decision. Defined.

(** ** Capabilities *)

Record PortRule := { host_glob : string; port_min : Z; port_max : Z }.

Inductive EnvPolicy :=
  | Deny
  | Merge (allow : option (list string))
  | Replace (base : list (string * string)).

Record ShellCaps := {
  user_allowlist : option (list string);
  pty_allowed : bool;
  exec_allowed : bool;
  command_allowlist : option (list string);
  env_policy : EnvPolicy;
}.

Record FsCaps := { roots : list string; readonly : bool; max_size : option Z }.

Record VpnCaps := { my_ula : bytes; peer_ula : bytes; mtu : Z }.

Record MetaCaps := { ping : bool; info : bool }.

Record UnixPathRule := { path : string }.

Record UnixCaps := { connect : list UnixPathRule; listen : list UnixPathRule }.

Record Capabilities := {
  presence : Z;
  shell : option ShellCaps;
  tcp : option (list PortRule);
  udp : option (list PortRule);
  fs : option FsCaps;
  vpn : option VpnCaps;
  meta : option MetaCaps;
  unix : option UnixCaps;
}.

(** Bit 7 of [presence]. *)
Definition TCP_LISTEN_CAP_BIT : Z := 128.

(** ** Tickets *)

Record Delegation := { parent_ticket_id_field : bytes; depth_remaining : Z }.

Record PortlBody := {
  caps : Capabilities;
  target : bytes;
  alpns_extra : list string;
  not_before : Z;
  not_after : Z;
  issuer : option bytes;
  parent : option Delegation;
  nonce : bytes;
  bearer : option bytes;
  to : option bytes;
}.

Record PortlTicket `{Iroh} := { v : Z; addr : EndpointAddr; body : PortlBody; sig : bytes }.

#[export] Instance PortRule_eq_dec : EqDecision PortRule.
Proof. solve_decision. Defined.
#[export] Instance EnvPolicy_eq_dec : EqDecision EnvPolicy.
Proof. solve_decision. Defined.
#[export] Instance ShellCaps_eq_dec : EqDecision ShellCaps.
Proof. solve_decision. Defined.
#[export] Instance FsCaps_eq_dec : EqDecision FsCaps.
Proof. solve_decision. Defined.
#[export] Instance VpnCaps_eq_dec : EqDecision VpnCaps.
Proof. solve_decision. Defined.
#[export] Instance MetaCaps_eq_dec : EqDecision MetaCaps.
Proof. solve_decision. Defined.
#[export] Instance UnixPathRule_eq_dec : EqDecision UnixPathRule.
Proof. solve_decision. Defined.
#[export] Instance UnixCaps_eq_dec : EqDecision UnixCaps.
Proof. solve_decision. Defined.
#[export] Instance Capabilities_eq_dec : EqDecision Capabilities.
Proof. solve_decision. Defined.
#[export] Instance Delegation_eq_dec : EqDecision Delegation.
Proof. solve_decision. Defined.
#[export] Instance PortlBody_eq_dec : EqDecision PortlBody.
Proof. solve_decision. Defined.
#[export] Instance PortlTicket_eq_dec `{Iroh} : EqDecision PortlTicket.
Proof. solve_decision. Defined.

(** ** Unix path rules *)

Module UnixPath.

(** [std::path::Component] of a Unix path: empty and [.] segments disappear,
    except a leading [.] of a relative path. *)
Inductive component := RootDir | CurDir | ParentDir | Normal (seg : string).

Definition segment_component (seg : string) : option component :=
  if decide (seg = "") then None
  else if decide (seg = ".") then None
  else if decide (seg = "..") then Some ParentDir
  else Some (Normal seg).

Definition components (p : string) : list component :=
  let segs := str_split 47 p in
  let named := omap segment_component segs in
  if starts_with "/" p then RootDir :: named
  else if decide (head segs = Some ".") then CurDir :: named
  else named.

Definition is_root_or_normal (c : component) : bool :=
  match c with RootDir | Normal _ => true | _ => false end.

Definition unix_socket_path_is_safe (p : string) : bool :=
  if decide (p = "") then false
  else if str_contains_byte 0 p then false
  else if negb (starts_with "/" p) then false
  else forallb is_root_or_normal (components p).

Definition is_narrow_unix_glob (prefix : string) : bool :=
  starts_with "/" prefix
  && (6 <=? Z.of_nat (String.length prefix))
  && negb (bool_decide (prefix = "/tmp/"))
  && negb (bool_decide (prefix = "/var/")).

Definition validate_unix_path_rule (spec : string) (allow_broad_wildcard : bool) :
    result string unit :=
  if decide (spec = "") then Err "unix path rule must not be empty"
  else if decide (spec = "*") then
    if allow_broad_wildcard then Ok tt
    else Err "broad unix wildcard is only available through the dev/all shortcut"
  else match strip_suffix "*" spec with
       | Some prefix =>
           if unix_socket_path_is_safe prefix && is_narrow_unix_glob prefix then Ok tt
           else Err "unix path glob must have a narrow absolute prefix"
       | None =>
           if unix_socket_path_is_safe spec then Ok tt
           else Err "unix path rule must be absolute and must not contain . or .. components"
       end.

Definition is_valid_rule (self : UnixPathRule) (allow_broad_wildcard : bool) : bool :=
  is_ok (validate_unix_path_rule (path self) allow_broad_wildcard).

Definition matches_path (self : UnixPathRule) (p : string) : bool :=
  if negb (unix_socket_path_is_safe p) then false
  else if decide (path self = "*") then true
  else match strip_suffix "*" (path self) with
       | Some prefix => is_narrow_unix_glob prefix && starts_with prefix p
       | None => bool_decide (path self = p)
       end.

Definition covers (self child : UnixPathRule) : bool :=
  if negb (is_valid_rule self true) || negb (is_valid_rule child true) then false
  else if decide (path self = "*" ∨ path self = path child) then true
  else match strip_suffix "*" (path self) with
       | None => false
       | Some parent_prefix =>
           match strip_suffix "*" (path child) with
           | Some child_prefix =>
               is_narrow_unix_glob parent_prefix && starts_with parent_prefix child_prefix
           | None => matches_path self (path child)
           end
       end.

(** ** Lemmas *)

Lemma covers_valid self child :
  covers self child = true → is_valid_rule self true = true ∧ is_valid_rule child true = true.
Proof.
  unfold covers. by destruct (is_valid_rule self true), (is_valid_rule child true).
Qed.

(** A glob rule that is valid (and not the broad ["*"]) has a narrow prefix. *)
Lemma valid_glob_narrow r prefix :
  is_valid_rule r true = true → path r ≠ "*" → strip_suffix "*" (path r) = Some prefix →
  is_narrow_unix_glob prefix = true.
Proof.
  unfold is_valid_rule, validate_unix_path_rule. intros Hv Hne Hs.
  case_decide; [done |]. case_decide; [done |]. rewrite Hs in Hv.
  destruct (unix_socket_path_is_safe prefix); [|done].
  by destruct (is_narrow_unix_glob prefix).
Qed.

Lemma matches_path_safe r p : matches_path r p = true → unix_socket_path_is_safe p = true.
Proof. unfold matches_path. by destruct (unix_socket_path_is_safe p). Qed.

Lemma matches_path_glob r prefix p :
  path r ≠ "*" → strip_suffix "*" (path r) = Some prefix →
  matches_path r p = unix_socket_path_is_safe p && (is_narrow_unix_glob prefix && starts_with prefix p).
Proof.
  intros Hne Hs. unfold matches_path. destruct (unix_socket_path_is_safe p); [|done].
  simpl. rewrite decide_False by done. by rewrite Hs.
Qed.

Lemma narrow_covers_nothing_empty p : is_narrow_unix_glob p && starts_with p "" = false.
Proof. destruct p; [done | apply andb_false_r]. Qed.

(** Covering is sound for matching: a covered rule matches no more paths. *)
Lemma covers_matches self child p :
  covers self child = true → matches_path child p = true → matches_path self p = true.
Proof.
  intros Hc Hm. pose proof (matches_path_safe _ _ Hm) as Hsafe.
  destruct (covers_valid _ _ Hc) as [Hv1 Hv2]. unfold covers in Hc.
  rewrite Hv1, Hv2 in Hc. simpl in Hc. destruct self as [ps], child as [pc]. simpl in *.
  destruct (decide (ps = "*")) as [->|Hne].
  { unfold matches_path. by rewrite Hsafe. }
  case_decide as Hor; [destruct Hor as [?|Heq]; [done | by subst pc] |].
  destruct (strip_suffix "*" ps) as [pp|] eqn:Hps; [|done].
  rewrite (matches_path_glob {| path := ps |} pp) by done. rewrite Hsafe. simpl.
  destruct (strip_suffix "*" pc) as [pcx|] eqn:Hpc.
  - destruct (decide (pc = "*")) as [->|Hnc].
    { vm_compute in Hpc. injection Hpc as <-. by rewrite narrow_covers_nothing_empty in Hc. }
    rewrite (matches_path_glob {| path := pc |} pcx) in Hm by done. reflect_bool.
    apply andb_true_iff. split; [done | by eapply starts_with_trans].
  - rewrite (matches_path_glob {| path := ps |} pp) in Hc by done.
    unfold matches_path in Hm. rewrite Hsafe in Hm. simpl in Hm.
    rewrite decide_False, Hpc in Hm by (intros ->; by vm_compute in Hpc).
    reflect_bool. subst pc. apply andb_true_iff. by split.
Qed.

(** Covering is reflexive on valid rules, and transitive. *)
Lemma covers_refl r : is_valid_rule r true = true → covers r r = true.
Proof. intros Hv. unfold covers. rewrite Hv. simpl. by rewrite decide_True by auto. Qed.

Lemma covers_trans a b c : covers a b = true → covers b c = true → covers a c = true.
Proof.
  intros Hab Hbc.
  destruct (covers_valid _ _ Hab) as [Ha Hb], (covers_valid _ _ Hbc) as [_ Hc].
  destruct a as [a], b as [b], c as [c]. unfold covers in *. rewrite Ha, Hb in Hab.
  rewrite Hb, Hc in Hbc. rewrite Ha, Hc. simpl in *.
  destruct (decide (a = "*")) as [->|Hna]; [by rewrite decide_True by auto |].
  destruct (decide (a = b)) as [<-|Hab']; [done |].
  rewrite decide_False in Hab by naive_solver.
  destruct (decide (b = "*")) as [->|Hnb].
  { destruct (strip_suffix "*" a) as [pa|]; [|done].
    change (strip_suffix "*" "*") with (Some "") in Hab. cbv beta iota in Hab.
    by rewrite narrow_covers_nothing_empty in Hab. }
  destruct (decide (b = c)) as [->|Hbc']; [by rewrite decide_False by naive_solver |].
  rewrite decide_False in Hbc by naive_solver.
  case_decide; [done |].
  destruct (strip_suffix "*" a) as [pa|] eqn:Hpa; [|done].
  destruct (strip_suffix "*" b) as [pb|] eqn:Hpb; [|done].
  destruct (strip_suffix "*" c) as [pc|] eqn:Hpc.
  - reflect_bool. apply andb_true_iff. split; [done | by eapply starts_with_trans].
  - rewrite (matches_path_glob {| path := b |} pb) in Hbc by done.
    rewrite (matches_path_glob {| path := a |} pa) by done. reflect_bool.
    rewrite !andb_true_iff. split_and!; [done | done | by eapply starts_with_trans].
Qed.

End UnixPath.

#[export] Hint Resolve UnixPath.covers_matches UnixPath.covers_refl : portl.
