(* ===== verification/Canonical.v ===== *)
(** * Canonical form of tickets

    crates/portl-core/src/ticket/canonical.rs: the checks run before any signature
    work, their declarative meaning, and the fact that canonical bodies are unique
    representatives of the permissions they express. *)

From S2P Require Import Prelude Schema.
From Stdlib Require Import Sorting.Sorted.

(** One year in seconds. *)
Definition MAX_TTL_SECONDS : Z := 365 * 86400.

Definition is_some {A} (o : option A) : bool :=
  match o with Some _ => true | None => false end.

Definition check_presence_bitmap (c : Capabilities) : result PortlError unit :=
  let expected :=
    Z.lor (Z.b2z (is_some (shell c)))
    (Z.lor (Z.shiftl (Z.b2z (is_some (tcp c))) 1)
    (Z.lor (Z.shiftl (Z.b2z (is_some (udp c))) 2)
    (Z.lor (Z.shiftl (Z.b2z (is_some (fs c))) 3)
    (Z.lor (Z.shiftl (Z.b2z (is_some (vpn c))) 4)
    (Z.lor (Z.shiftl (Z.b2z (is_some (meta c))) 5)
    (Z.lor (Z.shiftl (Z.b2z (is_some (unix c))) 6)
    (Z.land (presence c) TCP_LISTEN_CAP_BIT))))))) in
  ensure (presence c =? expected) (Canonical "presence bitmap does not match Some-set");;
  ensure (negb (negb (Z.land (presence c) TCP_LISTEN_CAP_BIT =? 0) && negb (is_some (tcp c))))
    (Canonical "tcp listen flag requires tcp caps").

Definition portrule_ord (a b : PortRule) : comparison :=
  cmp_then (String.compare (host_glob a) (host_glob b))
    (cmp_then (Z.compare (port_min a) (port_min b)) (Z.compare (port_max a) (port_max b))).

Definition check_sorted_unique_port_rules (rules : list PortRule) : result PortlError unit :=
  for_windows2 (λ a b,
    match portrule_ord a b with
    | Lt => Ok tt
    | Eq => Err (Canonical "duplicate port rule")
    | Gt => Err (Canonical "port rules not sorted")
    end) rules.

Definition check_sorted_unique_unix_path_rules (rules : list UnixPathRule) (tag : string) :
    result PortlError unit :=
  for_each (λ rule,
    ensure (is_ok (UnixPath.validate_unix_path_rule (path rule) true))
      (Canonical (if decide (tag = "unix.connect") then "invalid unix.connect path rule"
                  else if decide (tag = "unix.listen") then "invalid unix.listen path rule"
                  else "invalid unix path rule"))) rules;;
  for_windows2 (λ a b,
    match String.compare (path a) (path b) with
    | Lt => Ok tt
    | Eq => Err (Canonical
        (if decide (tag = "unix.connect") then "duplicate unix.connect path rule"
         else if decide (tag = "unix.listen") then "duplicate unix.listen path rule"
         else "duplicate unix path rule"))
    | Gt => Err (Canonical
        (if decide (tag = "unix.connect") then "unix.connect path rules not sorted"
         else if decide (tag = "unix.listen") then "unix.listen path rules not sorted"
         else "unix path rules not sorted"))
    end) rules.

Definition duplicate_string_message (tag : string) : string :=
  if decide (tag = "fs.roots") then "duplicate fs.roots entry"
  else if decide (tag = "shell.user_allowlist") then "duplicate shell.user_allowlist entry"
  else if decide (tag = "shell.command_allowlist") then "duplicate shell.command_allowlist entry"
  else if decide (tag = "env.allow") then "duplicate env.allow entry"
  else "duplicate string entry".

Definition unsorted_string_message (tag : string) : string :=
  if decide (tag = "fs.roots") then "fs.roots not sorted"
  else if decide (tag = "shell.user_allowlist") then "shell.user_allowlist not sorted"
  else if decide (tag = "shell.command_allowlist") then "shell.command_allowlist not sorted"
  else if decide (tag = "env.allow") then "env.allow not sorted"
  else "string vec not sorted".

Definition check_sorted_unique_strings (l : list string) (tag : string) :
    result PortlError unit :=
  for_windows2 (λ a b,
    match String.compare a b with
    | Lt => Ok tt
    | Eq => Err (Canonical (duplicate_string_message tag))
    | Gt => Err (Canonical (unsorted_string_message tag))
    end) l.

(** [if let Some(x) = o { f(x)?; }] *)
Definition if_some {E A} (o : option A) (f : A → result E unit) : result E unit :=
  match o with Some a => f a | None => Ok tt end.

Definition check_shell_caps_sorted (s : ShellCaps) : result PortlError unit :=
  if_some (user_allowlist s) (λ l, check_sorted_unique_strings l "shell.user_allowlist");;
  if_some (command_allowlist s) (λ l, check_sorted_unique_strings l "shell.command_allowlist");;
  match env_policy s with
  | Deny | Merge None => Ok tt
  | Merge (Some l) => check_sorted_unique_strings l "env.allow"
  | Replace base =>
      for_windows2 (λ a b,
        match String.compare a.1 b.1 with
        | Lt => Ok tt
        | Eq => Err (Canonical "duplicate env.replace key")
        | Gt => Err (Canonical "env.replace not sorted by key")
        end) base
  end.

Definition canonical_check (b : PortlBody) : result PortlError unit :=
  check_presence_bitmap (caps b);;
  if_some (tcp (caps b)) check_sorted_unique_port_rules;;
  if_some (udp (caps b)) check_sorted_unique_port_rules;;
  if_some (fs (caps b)) (λ f, check_sorted_unique_strings (roots f) "fs.roots");;
  if_some (shell (caps b)) check_shell_caps_sorted;;
  if_some (unix (caps b)) (λ u,
    check_sorted_unique_unix_path_rules (connect u) "unix.connect";;
    check_sorted_unique_unix_path_rules (listen u) "unix.listen");;
  ensure (bool_decide (alpns_extra b = [])) (Canonical "alpns_extra must be empty in v0.1");;
  ensure (not_before b <? not_after b) (Canonical "not_after must be > not_before");;
  ensure (saturating_sub (not_after b) (not_before b) <=? MAX_TTL_SECONDS)
    (Canonical "ttl exceeds 365 days");;
  ensure (negb (bool_decide (nonce b = replicate 8 0))) (Canonical "nonce must be non-zero");;
  ensure (negb (bool_decide (bearer b = Some []))) (Canonical "bearer must be Some(non-empty) or None").

Definition canonical_check_ticket `{Iroh} (t : PortlTicket) : result PortlError unit :=
  canonical_check (body t);;
  ensure (bool_decide (target (body t) = addr_id (addr t)))
    (Canonical "body.target does not match addr.endpoint_id");;
  ensure (negb (bool_decide (issuer (body t) = Some (addr_id (addr t)))))
    (Canonical "issuer equals addr.endpoint_id; MUST use None (rule 1)").

Definition resolved_issuer `{Iroh} (t : PortlTicket) : bytes :=
  match issuer (body t) with Some k => k | None => addr_id (addr t) end.

(** ** What canonical form means *)

Abbreviation str_lt := (cmp_lt String.compare).
Abbreviation port_rule_lt := (cmp_lt portrule_ord).
Abbreviation unix_rule_lt := (on_key path str_lt).
Abbreviation env_pair_lt := (on_key (fst : string * string → string) str_lt).

Definition valid_unix_rules (l : list UnixPathRule) : Prop :=
  Forall (λ r, UnixPath.is_valid_rule r true = true) l ∧ Sorted unix_rule_lt l.

Definition canonical_env (p : EnvPolicy) : Prop :=
  match p with
  | Deny | Merge None => True
  | Merge (Some l) => Sorted str_lt l
  | Replace base => Sorted env_pair_lt base
  end.

Record canonical_shell (s : ShellCaps) : Prop := {
  cs_users : ∀ l, user_allowlist s = Some l → Sorted str_lt l;
  cs_commands : ∀ l, command_allowlist s = Some l → Sorted str_lt l;
  cs_env : canonical_env (env_policy s);
}.

(** Bit [i] of the bitmap says whether field [i] is present; bit 7 is the listen
    flag and needs [tcp]. *)
Record presence_matches (c : Capabilities) : Prop := {
  pm_range : 0 ≤ presence c < 256;
  pm_shell : Z.testbit (presence c) 0 = is_some (shell c);
  pm_tcp : Z.testbit (presence c) 1 = is_some (tcp c);
  pm_udp : Z.testbit (presence c) 2 = is_some (udp c);
  pm_fs : Z.testbit (presence c) 3 = is_some (fs c);
  pm_vpn : Z.testbit (presence c) 4 = is_some (vpn c);
  pm_meta : Z.testbit (presence c) 5 = is_some (meta c);
  pm_unix : Z.testbit (presence c) 6 = is_some (unix c);
  pm_listen : Z.testbit (presence c) 7 = true → is_some (tcp c) = true;
}.

Record canonical_caps (c : Capabilities) : Prop := {
  cc_presence : presence_matches c;
  cc_tcp : ∀ l, tcp c = Some l → Sorted port_rule_lt l;
  cc_udp : ∀ l, udp c = Some l → Sorted port_rule_lt l;
  cc_fs : ∀ f, fs c = Some f → Sorted str_lt (roots f);
  cc_shell : ∀ s, shell c = Some s → canonical_shell s;
  cc_unix : ∀ u, unix c = Some u → valid_unix_rules (connect u) ∧ valid_unix_rules (listen u);
}.

Record canonical_body (b : PortlBody) : Prop := {
  cb_caps : canonical_caps (caps b);
  cb_alpns : alpns_extra b = [];
  cb_window : not_before b < not_after b ≤ not_before b + MAX_TTL_SECONDS;
  cb_nonce : nonce b ≠ replicate 8 0;
  cb_bearer : bearer b ≠ Some [];
}.

Record canonical_ticket `{Iroh} (t : PortlTicket) : Prop := {
  ct_body : canonical_body (body t);
  ct_target : target (body t) = addr_id (addr t);
  ct_issuer : issuer (body t) ≠ Some (addr_id (addr t));
}.

(** ** The checks decide canonical form *)

#[export] Instance portrule_ord_lawful : LawfulCmp portrule_ord.
Proof.
  split; unfold portrule_ord, cmp_then.
  - intros [h1 a1 b1] [h2 a2 b2]; simpl.
    destruct (String.compare h1 h2) eqn:Hh; [|done|done].
    destruct (Z.compare a1 a2) eqn:Ha; [|done|done]. intros Hb.
    apply cmp_eq in Hh, Ha, Hb. by subst.
  - intros [h a b]; simpl. by rewrite !cmp_refl.
  - intros [h1 a1 b1] [h2 a2 b2] [h3 a3 b3]; simpl.
    destruct (String.compare h1 h2) eqn:H12; intros H1; [ | |done];
      destruct (String.compare h2 h3) eqn:H23; intros H2; try done.
    + apply cmp_eq in H12, H23. subst. rewrite cmp_refl.
      destruct (Z.compare_spec a1 a2), (Z.compare_spec a2 a3), (Z.compare_spec a1 a3);
        try done; try lia. subst. rewrite Z.compare_lt_iff in *. lia.
    + apply cmp_eq in H12. subst. by rewrite H23.
    + apply cmp_eq in H23. subst. by rewrite H12.
    + by rewrite (cmp_lt_trans _ _ _ H12 H23).
Qed.

Lemma if_some_Ok {E A} (o : option A) (f : A → result E unit) :
  if_some o f = Ok tt ↔ ∀ a, o = Some a → f a = Ok tt.
Proof. destruct o; simpl; naive_solver. Qed.

Lemma if_some_iff {E A} (o : option A) (f : A → result E unit) (P : A → Prop) :
  (∀ a, f a = Ok tt ↔ P a) → if_some o f = Ok tt ↔ ∀ a, o = Some a → P a.
Proof. intros HP. rewrite if_some_Ok. by setoid_rewrite HP. Qed.

Lemma sorted_iff {A} (R S : relation A) l : (∀ x y, R x y ↔ S x y) → Sorted R l ↔ Sorted S l.
Proof.
  intros HRS. induction l as [|x l IH]; [split; constructor |].
  split; intros [Hs Hh]%Sorted_inv; constructor; try (by apply IH);
    inversion Hh; constructor; by apply HRS.
Qed.

(** The shape shared by all the "sorted and unique" loops. *)
Lemma cmp_loop_Ok {E A} (cmp : A → A → comparison) (dup uns : E) (l : list A) :
  for_windows2 (λ a b, match cmp a b with Lt => Ok tt | Eq => Err dup | Gt => Err uns end) l = Ok tt
  ↔ Sorted (cmp_lt cmp) l.
Proof.
  rewrite for_windows2_Ok. apply sorted_iff. intros x y. unfold cmp_lt. by destruct (cmp x y).
Qed.

Lemma check_strings_Ok l tag : check_sorted_unique_strings l tag = Ok tt ↔ Sorted str_lt l.
Proof. apply cmp_loop_Ok. Qed.

Lemma check_port_rules_Ok l : check_sorted_unique_port_rules l = Ok tt ↔ Sorted port_rule_lt l.
Proof. apply cmp_loop_Ok. Qed.

Lemma seq_Ok {E} (m n : result E unit) : (m;; n) = Ok tt ↔ m = Ok tt ∧ n = Ok tt.
Proof. rewrite bind_Ok. split; [by intros ([] & ? & ?) | intros [? ?]; by exists tt]. Qed.

Lemma ensure_tt {E} b (e : E) : ensure b e = Ok tt ↔ b = true.
Proof. apply ensure_Ok. Qed.

Lemma check_unix_rules_Ok l tag :
  check_sorted_unique_unix_path_rules l tag = Ok tt ↔ valid_unix_rules l.
Proof.
  unfold check_sorted_unique_unix_path_rules, valid_unix_rules. rewrite seq_Ok, for_each_Ok.
  rewrite (cmp_loop_Ok (λ a b, String.compare (path a) (path b))). f_equiv; [|done].
  apply Forall_iff. intros r. apply ensure_Ok.
Qed.

Lemma check_shell_Ok s : check_shell_caps_sorted s = Ok tt ↔ canonical_shell s.
Proof.
  unfold check_shell_caps_sorted. rewrite !seq_Ok, !if_some_Ok.
  setoid_rewrite check_strings_Ok.
  assert (match env_policy s with
    | Deny | Merge None => Ok tt
    | Merge (Some l) => check_sorted_unique_strings l "env.allow"
    | Replace base =>
        for_windows2 (λ a b : string * string,
          match String.compare a.1 b.1 with
          | Lt => Ok tt
          | Eq => Err (Canonical "duplicate env.replace key")
          | Gt => Err (Canonical "env.replace not sorted by key")
          end) base
    end = Ok tt ↔ canonical_env (env_policy s)) as ->.
  { destruct (env_policy s) as [|[l|]|base]; simpl; [done | apply check_strings_Ok | done |].
    apply (cmp_loop_Ok (λ a b : string * string, String.compare a.1 b.1)). }
  split; [by intros (? & ? & ?) | by intros []].
Qed.

(** *** The presence bitmap *)

Lemma testbit_flag b i j : 0 ≤ i → 0 ≤ j →
  Z.testbit (Z.shiftl (Z.b2z b) i) j = b && (i =? j).
Proof.
  intros Hi Hj. rewrite Z.shiftl_spec by done. destruct (Z.eqb_spec i j) as [->|Hne].
  - rewrite Z.sub_diag. by destruct b.
  - destruct (Z.ltb_spec j i).
    + rewrite Z.testbit_neg_r by lia. by rewrite andb_false_r.
    + destruct b; [|by rewrite Z.testbit_0_l]. change (Z.b2z true) with 1.
      change 1 with (2 ^ 0). rewrite Z.pow2_bits_eqb by lia.
      apply Z.eqb_neq. lia.
Qed.

Lemma testbit_flag0 b j : 0 ≤ j → Z.testbit (Z.b2z b) j = b && (0 =? j).
Proof. intros Hj. rewrite <- testbit_flag by lia. by rewrite Z.shiftl_0_r. Qed.

Lemma testbit_listen n j : 0 ≤ j →
  Z.testbit (Z.land n TCP_LISTEN_CAP_BIT) j = Z.testbit n j && (7 =? j).
Proof.
  intros Hj. rewrite Z.land_spec. change TCP_LISTEN_CAP_BIT with (2 ^ 7).
  by rewrite Z.pow2_bits_eqb by lia.
Qed.

Lemma land_listen n : Z.land n TCP_LISTEN_CAP_BIT = if Z.testbit n 7 then 128 else 0.
Proof.
  apply Z.bits_inj'. intros j Hj. rewrite testbit_listen by done.
  destruct (Z.eqb_spec 7 j) as [<-|Hne]; [by destruct (Z.testbit n 7) |]. rewrite andb_false_r.
  destruct (Z.testbit n 7); [|by rewrite Z.testbit_0_l].
  change 128 with (2 ^ 7). rewrite Z.pow2_bits_eqb by lia. symmetry. apply Z.eqb_neq. lia.
Qed.

Lemma listen_flag_testbit n : negb (Z.land n TCP_LISTEN_CAP_BIT =? 0) = Z.testbit n 7.
Proof. rewrite land_listen. by destruct (Z.testbit n 7). Qed.

Lemma byte_testbit_high n j : 0 ≤ n < 256 → 8 ≤ j → Z.testbit n j = false.
Proof.
  intros Hn Hj. destruct (decide (n = 0)) as [->|]; [apply Z.testbit_0_l |].
  apply Z.bits_above_log2; [lia |]. assert (Z.log2 n < 8); [|lia].
  apply Z.log2_lt_pow2; lia.
Qed.

(** The bitmap built from seven flags and the listen bit. *)
Lemma flags_testbit s t u f w m x n j : 0 ≤ j →
  Z.testbit
    (Z.lor (Z.b2z s) (Z.lor (Z.shiftl (Z.b2z t) 1) (Z.lor (Z.shiftl (Z.b2z u) 2)
    (Z.lor (Z.shiftl (Z.b2z f) 3) (Z.lor (Z.shiftl (Z.b2z w) 4) (Z.lor (Z.shiftl (Z.b2z m) 5)
    (Z.lor (Z.shiftl (Z.b2z x) 6) (Z.land n TCP_LISTEN_CAP_BIT)))))))) j
  = s && (0 =? j) || (t && (1 =? j) || (u && (2 =? j) || (f && (3 =? j) || (w && (4 =? j)
    || (m && (5 =? j) || (x && (6 =? j) || Z.testbit n j && (7 =? j))))))).
Proof. intros Hj. by rewrite !Z.lor_spec, testbit_flag0, !testbit_flag, testbit_listen by lia. Qed.

Lemma check_presence_Ok c : check_presence_bitmap c = Ok tt ↔ presence_matches c.
Proof.
  unfold check_presence_bitmap. cbv zeta. rewrite seq_Ok, !ensure_tt, Z.eqb_eq, listen_flag_testbit.
  split.
  - intros [Heq Hl]. rewrite land_listen in Heq.
    destruct c as [p [] [] [] [] [] [] []];
      cbn [presence shell tcp udp fs vpn meta unix is_some] in *;
      destruct (Z.testbit p 7) eqn:H7; try done; vm_compute in Heq; subst p; by split.
  - intros [Hr H0 H1 H2 H3 H4 H5 H6 H7]. split.
    + apply Z.bits_inj'. intros j Hj. rewrite flags_testbit by done.
      destruct (Z.leb_spec 8 j).
      { rewrite byte_testbit_high by done.
        rewrite !(proj2 (Z.eqb_neq _ j)) by lia. by rewrite !andb_false_r. }
      assert (j = 0 ∨ j = 1 ∨ j = 2 ∨ j = 3 ∨ j = 4 ∨ j = 5 ∨ j = 6 ∨ j = 7) as Hc by lia.
      destruct_or! Hc; subst; simpl;
        by rewrite ?andb_false_r, ?andb_true_r, ?orb_false_r.
    + destruct (Z.testbit (presence c) 7); simpl; [|done]. by rewrite H7.
Qed.

Lemma check_caps_Ok c :
  (check_presence_bitmap c;;
   if_some (tcp c) check_sorted_unique_port_rules;;
   if_some (udp c) check_sorted_unique_port_rules;;
   if_some (fs c) (λ f, check_sorted_unique_strings (roots f) "fs.roots");;
   if_some (shell c) check_shell_caps_sorted;;
   if_some (unix c) (λ u,
     check_sorted_unique_unix_path_rules (connect u) "unix.connect";;
     check_sorted_unique_unix_path_rules (listen u) "unix.listen")) = Ok tt
  ↔ canonical_caps c.
Proof.
  rewrite !seq_Ok, check_presence_Ok.
  rewrite !(if_some_iff _ check_sorted_unique_port_rules _ check_port_rules_Ok).
  rewrite (if_some_iff _ _ _ (λ f, check_strings_Ok (roots f) "fs.roots")).
  rewrite (if_some_iff _ _ _ check_shell_Ok).
  rewrite (if_some_iff (unix c) _ (λ u, valid_unix_rules (connect u) ∧ valid_unix_rules (listen u)))
    by (intros u; by rewrite seq_Ok, !check_unix_rules_Ok).
  split; [by intros (? & ? & ? & ? & ? & ?) | by intros []].
Qed.

Lemma canonical_check_iff b : canonical_check b = Ok tt ↔ canonical_body b.
Proof.
  unfold canonical_check. pose proof (check_caps_Ok (caps b)) as Hcaps.
  rewrite !seq_Ok in Hcaps. rewrite !seq_Ok. rewrite !ensure_tt, !negb_true_iff, bool_decide_eq_true,
    !bool_decide_eq_false, Z.ltb_lt, Z.leb_le. unfold saturating_sub. split.
  - intros (? & ? & ? & ? & ? & ? & ? & ? & ? & ? & ?). split; [tauto | done | lia | done | done].
  - intros [Hc%Hcaps ? ? ? ?]. split_and!; try tauto; lia.
Qed.

Lemma canonical_check_ticket_iff `{Iroh} t : canonical_check_ticket t = Ok tt ↔ canonical_ticket t.
Proof.
  unfold canonical_check_ticket. rewrite !seq_Ok, !ensure_tt, canonical_check_iff, negb_true_iff,
    bool_decide_eq_true, bool_decide_eq_false.
  split; [by intros (? & ? & ?) | by intros []].
Qed.

#[export] Hint Rewrite @canonical_check_iff @canonical_check_ticket_iff : portl.

(** ** Uniqueness of canonical forms

    Two capability sets are equivalent when they grant the same things: the same
    families, the same listen flag, and in each family the same rules, whatever
    order or multiplicity the vectors list them in. *)

Definition env_equiv (p q : EnvPolicy) : Prop :=
  match p, q with
  | Deny, Deny => True
  | Merge a, Merge b => option_Forall2 same_set a b
  | Replace a, Replace b => same_set a b
  | _, _ => False
  end.

Record shell_equiv (s t : ShellCaps) : Prop := {
  se_users : option_Forall2 same_set (user_allowlist s) (user_allowlist t);
  se_pty : pty_allowed s = pty_allowed t;
  se_exec : exec_allowed s = exec_allowed t;
  se_commands : option_Forall2 same_set (command_allowlist s) (command_allowlist t);
  se_env : env_equiv (env_policy s) (env_policy t);
}.

Record fs_equiv (f g : FsCaps) : Prop := {
  fe_roots : same_set (roots f) (roots g);
  fe_readonly : readonly f = readonly g;
  fe_max : max_size f = max_size g;
}.

Record unix_equiv (u w : UnixCaps) : Prop := {
  ue_connect : same_set (connect u) (connect w);
  ue_listen : same_set (listen u) (listen w);
}.

Record caps_equiv (c d : Capabilities) : Prop := {
  ce_listen : Z.testbit (presence c) 7 = Z.testbit (presence d) 7;
  ce_shell : option_Forall2 shell_equiv (shell c) (shell d);
  ce_tcp : option_Forall2 same_set (tcp c) (tcp d);
  ce_udp : option_Forall2 same_set (udp c) (udp d);
  ce_fs : option_Forall2 fs_equiv (fs c) (fs d);
  ce_vpn : vpn c = vpn d;
  ce_meta : meta c = meta d;
  ce_unix : option_Forall2 unix_equiv (unix c) (unix d);
}.

#[export] Instance caps_equiv_refl : Reflexive caps_equiv.
Proof.
  assert (Reflexive env_equiv) by (intros [|[]|]; simpl; repeat constructor; done).
  assert (Reflexive shell_equiv) by (by intros []; split).
  assert (Reflexive fs_equiv) by (by intros []; split).
  assert (Reflexive unix_equiv) by (by intros []; split).
  intros c. by split.
Qed.

Lemma option_same_set_unique {A} (R : relation A) `{!StrictOrder R} (o p : option (list A)) :
  (∀ l, o = Some l → Sorted R l) → (∀ l, p = Some l → Sorted R l) →
  option_Forall2 same_set o p → o = p.
Proof.
  intros Ho Hp Hop. destruct Hop as [l k Hs|]; [|done].
  by rewrite (sorted_set_unique R l k (Ho l eq_refl) (Hp k eq_refl) Hs).
Qed.

Lemma option_unique {A} (P : A → Prop) (R : relation A) (o p : option A) :
  (∀ x y, P x → P y → R x y → x = y) →
  (∀ a, o = Some a → P a) → (∀ a, p = Some a → P a) → option_Forall2 R o p → o = p.
Proof. intros HR Ho Hp Hop. destruct Hop; [|done]. f_equal. eauto. Qed.

Lemma env_unique p q : canonical_env p → canonical_env q → env_equiv p q → p = q.
Proof.
  destruct p as [|[l|]|base], q as [|[k|]|base']; simpl; intros Hp Hq He; try done;
    try (by inversion He).
  - inversion He; subst. by rewrite (sorted_set_unique str_lt l k).
  - by rewrite (sorted_set_unique env_pair_lt base base').
Qed.

Lemma shell_unique s t : canonical_shell s → canonical_shell t → shell_equiv s t → s = t.
Proof.
  destruct s, t. intros [Hu Hc He] [Hu' Hc' He'] [Hsu Hp Hx Hsc Hse]. simpl in *. subst.
  rewrite (option_same_set_unique str_lt _ _ Hu Hu' Hsu).
  rewrite (option_same_set_unique str_lt _ _ Hc Hc' Hsc).
  by rewrite (env_unique _ _ He He' Hse).
Qed.

Lemma fs_unique f g :
  Sorted str_lt (roots f) → Sorted str_lt (roots g) → fs_equiv f g → f = g.
Proof.
  destruct f, g. simpl. intros Hf Hg [Hr Hro Hm]. simpl in *. subst.
  by rewrite (sorted_set_unique str_lt _ _ Hf Hg Hr).
Qed.

Lemma unix_unique u w :
  valid_unix_rules (connect u) ∧ valid_unix_rules (listen u) →
  valid_unix_rules (connect w) ∧ valid_unix_rules (listen w) → unix_equiv u w → u = w.
Proof.
  destruct u, w. intros [[_ Hc] [_ Hl]] [[_ Hc'] [_ Hl']] [He1 He2]. simpl in *.
  by rewrite (sorted_set_unique unix_rule_lt _ _ Hc Hc' He1),
    (sorted_set_unique unix_rule_lt _ _ Hl Hl' He2).
Qed.

Lemma presence_unique c d :
  presence_matches c → presence_matches d →
  Z.testbit (presence c) 7 = Z.testbit (presence d) 7 →
  shell c = shell d → tcp c = tcp d → udp c = udp d → fs c = fs d → vpn c = vpn d →
  meta c = meta d → unix c = unix d → c = d.
Proof.
  intros [Hr H0 H1 H2 H3 H4 H5 H6 _] [Hr' H0' H1' H2' H3' H4' H5' H6' _] H7 ? ? ? ? ? ? ?.
  assert (presence c = presence d).
  { apply Z.bits_inj'. intros j Hj. destruct (Z.leb_spec 8 j).
    { by rewrite !byte_testbit_high. }
    assert (j = 0 ∨ j = 1 ∨ j = 2 ∨ j = 3 ∨ j = 4 ∨ j = 5 ∨ j = 6 ∨ j = 7) as Hc by lia.
    destruct_or! Hc; subst; congruence. }
  destruct c, d; simpl in *; by subst.
Qed.

Lemma caps_unique c d : canonical_caps c → canonical_caps d → caps_equiv c d → c = d.
Proof.
  intros [Hp Ht Hu Hf Hs Hx] [Hp' Ht' Hu' Hf' Hs' Hx'] [H7 Es Et Eu Ef Ev Em Ex].
  apply presence_unique; try done.
  - by apply (option_unique canonical_shell shell_equiv _ _ shell_unique).
  - by apply (option_same_set_unique port_rule_lt).
  - by apply (option_same_set_unique port_rule_lt).
  - by apply (option_unique _ fs_equiv _ _ fs_unique).
  - by apply (option_unique _ unix_equiv _ _ unix_unique).
Qed.

(** ** Properties *)

(** The canonical-form check of a ticket accepts exactly the canonical tickets:
    presence bits matching the present fields (bit 7 only with TCP), strictly sorted
    rule and string lists, valid Unix path rules, no extra ALPNs, a window of positive
    length of at most a year, a non-zero nonce, no empty bearer, the body's target
    equal to the address, and the issuer omitted when it is the address itself. *)
Theorem canonical_check_decides `{Iroh} t : canonical_check_ticket t = Ok tt ↔ canonical_ticket t.
Proof. apply canonical_check_ticket_iff. Qed.

(** C37: canonical form is a normal form: two accepted tickets for the same endpoint
    that grant the same capabilities up to order and repetition of list entries, and
    resolve to the same issuer, have identical capability, issuer, target and
    extension fields. *)
Theorem canonical_form_unique `{Iroh} t1 t2 :
  canonical_check_ticket t1 = Ok tt → canonical_check_ticket t2 = Ok tt →
  addr t1 = addr t2 → caps_equiv (caps (body t1)) (caps (body t2)) →
  resolved_issuer t1 = resolved_issuer t2 →
  caps (body t1) = caps (body t2) ∧ issuer (body t1) = issuer (body t2)
  ∧ target (body t1) = target (body t2) ∧ alpns_extra (body t1) = alpns_extra (body t2).
Proof.
  rewrite !canonical_check_ticket_iff.
  intros [[Hc1 Ha1 _ _ _] Ht1 Hi1] [[Hc2 Ha2 _ _ _] Ht2 Hi2] Haddr Heq Hr.
  split_and!; [by apply caps_unique | | congruence | congruence].
  unfold resolved_issuer in Hr. rewrite Haddr in *.
  destruct (issuer (body t1)), (issuer (body t2)); congruence.
Qed.
