(* ===== verification/Sample.v ===== *)
(** * A concrete instance of the serialisation parameter

    The ticket code is proved against any serialiser that satisfies [PostcardLaws]
    (Codec.v).  This file builds one, a prefix-free token stream, so that the
    witnesses of those theorems evaluate on concrete tickets.  It models no code. *)

From S2P Require Import Prelude Schema.

Class Tok (A : Type) := {
  put : A → list Z;
  get : list Z → option (A * list Z);
  get_put a rest : get (put a ++ rest) = Some (a, rest);
}.

#[export] Instance tok_Z : Tok Z := {|
  put z := [z]; get l := match l with z :: r => Some (z, r) | [] => None end; get_put a rest := eq_refl
|}.

(** Transport along an injection with a left inverse. *)
Definition tok_iso {A B} `{Tok B} (f : A → B) (g : B → A) (Hgf : ∀ a, g (f a) = a) : Tok A.
Proof.
  refine {| put a := put (f a); get l := '(b, r) ← get l; Some (g b, r) |}.
  intros a rest. rewrite get_put. simpl. by rewrite Hgf.
Defined.

#[export] Instance tok_prod `{Tok A, Tok B} : Tok (A * B).
Proof.
  refine {| put p := put p.1 ++ put p.2; get l := '(a, r) ← get l; '(b, r') ← get r; Some ((a, b), r') |}.
  intros [a b] rest. rewrite <- app_assoc, get_put. simpl. rewrite get_put. done.
Defined.

#[export] Instance tok_sum `{Tok A, Tok B} : Tok (A + B).
Proof.
  refine {| put s := match s with inl a => 0 :: put a | inr b => 1 :: put b end;
            get l := match l with
                     | 0 :: r => '(a, r') ← get r; Some (inl a, r')
                     | 1 :: r => '(b, r') ← get r; Some (inr b, r')
                     | _ => None
                     end |}.
  intros [a|b] rest; simpl; by rewrite get_put.
Defined.

#[export] Instance tok_unit : Tok unit := {| put u := []; get l := Some (tt, l);
  get_put a rest := match a with tt => eq_refl end |}.

#[export] Instance tok_bool : Tok bool :=
  tok_iso (λ b : bool, if b then inl tt else inr tt) (λ s, match s with inl _ => true | inr _ => false end)
    ltac:(by intros []).

#[export] Instance tok_option `{Tok A} : Tok (option A) :=
  tok_iso (λ o : option A, match o with None => inl tt | Some a => inr a end)
    (λ s, match s with inl _ => None | inr a => Some a end) ltac:(by intros []).

Fixpoint get_n `{Tok A} (n : nat) (l : list Z) : option (list A * list Z) :=
  match n with
  | O => Some ([], l)
  | S n => '(a, r) ← get l; '(k, r') ← get_n n r; Some (a :: k, r')
  end.

Lemma get_n_put `{Tok A} (k : list A) rest :
  get_n (length k) (concat (put <$> k) ++ rest) = Some (k, rest).
Proof.
  induction k as [|a k IH]; [done |]. rewrite fmap_cons. cbn [length get_n concat].
  rewrite <- app_assoc, get_put. cbn [mbind option_bind]. by rewrite IH.
Qed.

#[export] Instance tok_list `{Tok A} : Tok (list A).
Proof.
  refine {| put k := Z.of_nat (length k) :: concat (put <$> k);
            get l := match l with n :: r => get_n (Z.to_nat n) r | [] => None end |}.
  intros k rest. simpl. rewrite Nat2Z.id. apply get_n_put.
Defined.

Definition ascii_tok (c : Ascii.ascii) : Z := Z.of_N (Ascii.N_of_ascii c).
Definition ascii_untok (z : Z) : Ascii.ascii := Ascii.ascii_of_N (Z.to_N z).

Lemma string_tok s :
  String.string_of_list_ascii (map ascii_untok (map ascii_tok (String.list_ascii_of_string s))) = s.
Proof.
  induction s as [|c s IH]; simpl; [done |]. rewrite IH. unfold ascii_untok, ascii_tok.
  by rewrite N2Z.id, Ascii.ascii_N_embedding.
Qed.

#[export] Instance tok_string : Tok string :=
  tok_iso (λ s, map ascii_tok (String.list_ascii_of_string s))
    (λ l, String.string_of_list_ascii (map ascii_untok l)) string_tok.

(** ** The ticket types *)

#[export] Instance tok_PortRule : Tok PortRule :=
  tok_iso (λ r, (host_glob r, port_min r, port_max r))
    (λ '(h, a, b), {| host_glob := h; port_min := a; port_max := b |}) ltac:(by intros []).

#[export] Instance tok_EnvPolicy : Tok EnvPolicy :=
  tok_iso (λ p, match p with Deny => inl tt | Merge a => inr (inl a) | Replace b => inr (inr b) end)
    (λ p, match p with inl _ => Deny | inr (inl a) => Merge a | inr (inr b) => Replace b end)
    ltac:(by intros []).

#[export] Instance tok_ShellCaps : Tok ShellCaps :=
  tok_iso (λ s, (user_allowlist s, pty_allowed s, exec_allowed s, command_allowlist s, env_policy s))
    (λ '(a, b, c, d, e), {| user_allowlist := a; pty_allowed := b; exec_allowed := c;
      command_allowlist := d; env_policy := e |}) ltac:(by intros []).

#[export] Instance tok_FsCaps : Tok FsCaps :=
  tok_iso (λ f, (roots f, readonly f, max_size f))
    (λ '(a, b, c), {| roots := a; readonly := b; max_size := c |}) ltac:(by intros []).

#[export] Instance tok_VpnCaps : Tok VpnCaps :=
  tok_iso (λ f, (my_ula f, peer_ula f, mtu f))
    (λ '(a, b, c), {| my_ula := a; peer_ula := b; mtu := c |}) ltac:(by intros []).

#[export] Instance tok_MetaCaps : Tok MetaCaps :=
  tok_iso (λ m, (ping m, info m)) (λ '(a, b), {| ping := a; info := b |}) ltac:(by intros []).

#[export] Instance tok_UnixPathRule : Tok UnixPathRule :=
  tok_iso path (λ p, {| path := p |}) ltac:(by intros []).

#[export] Instance tok_UnixCaps : Tok UnixCaps :=
  tok_iso (λ u, (connect u, listen u)) (λ '(a, b), {| connect := a; listen := b |}) ltac:(by intros []).

#[export] Instance tok_Capabilities : Tok Capabilities :=
  tok_iso (λ c, (presence c, shell c, tcp c, udp c, fs c, vpn c, meta c, unix c))
    (λ '(p, a, b, c, d, e, f, g), {| presence := p; shell := a; tcp := b; udp := c; fs := d;
      vpn := e; meta := f; unix := g |}) ltac:(by intros []).

#[export] Instance tok_Delegation : Tok Delegation :=
  tok_iso (λ d, (parent_ticket_id_field d, depth_remaining d))
    (λ '(a, b), {| parent_ticket_id_field := a; depth_remaining := b |}) ltac:(by intros []).

#[export] Instance tok_PortlBody : Tok PortlBody :=
  tok_iso (λ b, (caps b, target b, alpns_extra b, not_before b, not_after b, issuer b,
      parent b, nonce b, bearer b, to b))
    (λ '(a, b, c, d, e, f, g, h, i, j), {| caps := a; target := b; alpns_extra := c; not_before := d;
      not_after := e; issuer := f; parent := g; nonce := h; bearer := i; to := j |})
    ltac:(by intros []).
