(* ===== verification/Codec.v ===== *)
(** * Ticket codec, hashes and signatures

    crates/portl-core/src/ticket/{codec,hash,sign}.rs.  The third-party code they
    call is a parameter: ed25519-dalek ([Ed25519]), sha2 ([Sha256]) and postcard
    ([Postcard], per encoded type), each with the documented facts the ticket code
    relies on as a separate class of laws. *)

From S2P Require Import Prelude Schema Canonical Sample.

(** ** Parameters *)

(** ed25519-dalek: [SigningKey::verifying_key().to_bytes()], [sign],
    [VerifyingKey::from_bytes(pk).is_ok()] and [verify_strict(msg, sig).is_ok()]. *)
Class Ed25519 := {
  SigningKey : Type;
  verifying_key : SigningKey → bytes;
  sign : SigningKey → bytes → bytes;
  vk_from_bytes : bytes → bool;
  verify_strict : bytes → bytes → bytes → bool;
}.

Class Ed25519Laws `{Ed25519} : Prop := {
  own_key_valid sk : vk_from_bytes (verifying_key sk) = true;
  own_signature_valid sk msg : verify_strict (verifying_key sk) msg (sign sk msg) = true;
}.

Class Sha256 := { sha256 : bytes → bytes }.

(** [postcard::to_stdvec] and [postcard::from_bytes] at type [A]. *)
Class Postcard (A : Type) := {
  to_stdvec : A → option bytes;
  from_bytes : bytes → option A;
}.

Class PostcardLaws (A : Type) `{Postcard A} : Prop := {
  from_to_stdvec a bs : to_stdvec a = Some bs → from_bytes bs = Some a;
}.

(** A concrete instance of every parameter, with its laws: signatures that carry
    key and message, and an injective encoding.  The witnesses evaluate in it. *)
Module Params.
#[export] Instance iroh : Iroh := {| EndpointAddr := bytes; addr_id := λ a, a; EndpointAddr_eq_dec := _ |}.
#[export] Instance tok_addr : Tok EndpointAddr := tok_list (A := Z).
#[export] Instance ed25519 : Ed25519 := {|
  SigningKey := bytes; verifying_key := λ k, k; sign := λ k m, k ++ m; vk_from_bytes := λ _, true;
  verify_strict := λ k m s, bool_decide (s = k ++ m) |}.
#[export] Instance sha : Sha256 := {| sha256 := @rev Z |}.
#[export] Instance postcard `{Tok A} : Postcard A := {|
  to_stdvec := λ a, Some (put a);
  from_bytes := λ bs, match get bs with Some (a, []) => Some a | _ => None end |}.

#[export] Instance ed25519_laws : Ed25519Laws.
Proof. split; [done | intros; by apply bool_decide_eq_true]. Qed.
#[export] Instance postcard_laws `{Tok A} : PostcardLaws A.
Proof.
  split. intros a bs [= <-]. simpl. by rewrite <- (app_nil_r (put a)), get_put.
Qed.
#[export] Instance tok_ticket : Tok PortlTicket :=
  tok_iso (λ t : PortlTicket, (v t, addr t, body t, sig t))
    (λ '(a, b, c, d), {| v := a; addr := b; body := c; sig := d |}) ltac:(by intros []).

(** An exec-and-forwarding grant, and a narrower one. *)
Definition wide_caps : Capabilities := {|
  presence := 3;
  shell := Some {| user_allowlist := None; pty_allowed := true; exec_allowed := true;
                   command_allowlist := None; env_policy := Merge None |};
  tcp := Some [{| host_glob := "*"; port_min := 1; port_max := 65535 |}];
  udp := None; fs := None; vpn := None; meta := None; unix := None |}.
Definition narrow_caps : Capabilities := {|
  presence := 2; shell := None;
  tcp := Some [{| host_glob := "localhost"; port_min := 22; port_max := 22 |}];
  udp := None; fs := None; vpn := None; meta := None; unix := None |}.

Definition root_key : SigningKey := [7].
Definition holder_key : SigningKey := [3].
Definition machine : EndpointAddr := [9].
Definition nonce1 : bytes := [1; 0; 0; 0; 0; 0; 0; 0].
End Params.

(** ** hash.rs *)

Section hashes.
Context `{Sha256}.

Definition TICKET_ID_DOMAIN : bytes := str_bytes "portl/ticket-id/v1".
Definition PARENT_TICKET_ID_DOMAIN : bytes := str_bytes "portl/parent/v1".
Definition CLIENT_NONCE_LOG_DOMAIN : bytes := str_bytes "portl/client-nonce-log/v1".

Definition hash16 (domain sg : bytes) : bytes := take 16 (sha256 (domain ++ sg)).

Definition ticket_id (sg : bytes) : bytes := hash16 TICKET_ID_DOMAIN sg.

Definition parent_ticket_id (sg : bytes) : bytes := hash16 PARENT_TICKET_ID_DOMAIN sg.

Definition client_nonce_log_hash (client_nonce : bytes) : bytes :=
  take 16 (sha256 (CLIENT_NONCE_LOG_DOMAIN ++ client_nonce)).

(** The two kinds of id never hash the same preimage, whatever the signatures. *)
Lemma id_preimages_disjoint (s1 s2 : bytes) :
  TICKET_ID_DOMAIN ++ s1 ≠ PARENT_TICKET_ID_DOMAIN ++ s2.
Proof. by vm_compute. Qed.
End hashes.

(** ** sign.rs *)

Section signing.
Context `{Ed25519, !Postcard PortlBody}.

Definition body_signing_bytes (b : PortlBody) : result PortlError bytes :=
  canonical_check b;;
  ok_or (to_stdvec b) PostcardError.

Definition sign_body (sk : SigningKey) (b : PortlBody) : result PortlError bytes :=
  bs ← body_signing_bytes b;
  Ok (sign sk bs).

Definition verify_body (pk : bytes) (b : PortlBody) (sg : bytes) : result PortlError unit :=
  bs ← body_signing_bytes b;
  ensure (vk_from_bytes pk) (Signature "invalid public key");;
  ensure (verify_strict pk bs sg) (Signature "verify_strict failed").

(** What a verified body signature establishes. *)
Record signed_by (pk : bytes) (b : PortlBody) (sg : bytes) : Prop := {
  sb_canonical : canonical_body b;
  sb_key : vk_from_bytes pk = true;
  sb_sig : ∃ bs, to_stdvec b = Some bs ∧ verify_strict pk bs sg = true;
}.

Lemma verify_body_iff pk b sg : verify_body pk b sg = Ok tt ↔ signed_by pk b sg.
Proof.
  unfold verify_body, body_signing_bytes. split.
  - intros H1. inv_result. split; [by apply canonical_check_iff | done | by exists x].
  - intros [Hc%canonical_check_iff Hk (bs & Hbs & Hv)]. by rewrite Hc, Hbs; simpl; rewrite Hk, Hv.
Qed.

Lemma sign_body_verifies `{!Ed25519Laws} sk b sg :
  sign_body sk b = Ok sg → signed_by (verifying_key sk) b sg.
Proof.
  unfold sign_body, body_signing_bytes. intros Hs. inv_result. subst. split.
  - by apply canonical_check_iff.
  - apply own_key_valid.
  - exists x. split; [done | apply own_signature_valid].
Qed.

Lemma sign_body_canonical sk b sg : sign_body sk b = Ok sg → canonical_body b.
Proof. unfold sign_body, body_signing_bytes. intros. inv_result. by apply canonical_check_iff. Qed.

Lemma sign_body_total sk b : canonical_body b → is_Some (to_stdvec b) →
  ∃ sg, sign_body sk b = Ok sg.
Proof.
  intros Hc%canonical_check_iff [bs Hbs]. unfold sign_body, body_signing_bytes.
  rewrite Hc, Hbs. simpl. eauto.
Qed.
End signing.

(** ** codec.rs *)

Section codec.
Context `{Iroh, !Postcard PortlTicket}.

Definition encode (t : PortlTicket) : result PortlError bytes :=
  canonical_check_ticket t;;
  ok_or (to_stdvec t) PostcardError.

Definition decode (bs : bytes) : result PortlError PortlTicket :=
  t ← ok_or (from_bytes bs) PostcardError;
  canonical_check_ticket t;;
  reencoded ← ok_or (to_stdvec t) PostcardError;
  ensure (bool_decide (reencoded = bs)) (Canonical "re-encode mismatch");;
  Ok t.

(** The [iroh_tickets::Ticket] implementation behind the [portl...] strings. *)
Inductive ParseError := ParsePostcard | Verify (message : string).

Definition encode_bytes (t : PortlTicket) : bytes := default [] (to_stdvec t).

Definition decode_bytes (bs : bytes) : result ParseError PortlTicket :=
  t ← ok_or (from_bytes bs) ParsePostcard;
  map_err (λ _, Verify "canonical form violated") (canonical_check_ticket t);;
  reencoded ← ok_or (to_stdvec t) ParsePostcard;
  ensure (bool_decide (reencoded = bs)) (Verify "re-encode mismatch");;
  Ok t.

Lemma encode_iff t bs : encode t = Ok bs ↔ canonical_ticket t ∧ to_stdvec t = Some bs.
Proof.
  unfold encode. rewrite <- canonical_check_ticket_iff. split.
  - intros He. by inv_result.
  - intros [Hc Hbs]. by rewrite Hc, Hbs.
Qed.

Lemma decode_iff bs t : decode bs = Ok t ↔
  from_bytes bs = Some t ∧ canonical_ticket t ∧ to_stdvec t = Some bs.
Proof.
  unfold decode. rewrite <- canonical_check_ticket_iff. split.
  - intros Hd. inv_result. reflect_bool. by subst.
  - intros (Hf & Hc & Hto). rewrite Hf. simpl. rewrite Hc. simpl. rewrite Hto. simpl.
    by rewrite bool_decide_eq_true_2.
Qed.

Lemma decode_bytes_iff bs t : decode_bytes bs = Ok t ↔ decode bs = Ok t.
Proof.
  rewrite decode_iff, <- canonical_check_ticket_iff. unfold decode_bytes. split.
  - intros Hd. inv_result. reflect_bool. by subst.
  - intros (Hf & Hc & Hto). rewrite Hf. simpl. rewrite Hc. simpl. rewrite Hto. simpl.
    by rewrite bool_decide_eq_true_2.
Qed.
End codec.

(** ** Properties *)

(** C36: [encode] and [decode] are exact inverses: bytes decode to a ticket precisely
    when the ticket encodes to those bytes, so a ticket has one wire form and no
    second byte string is accepted for it; the string form agrees with it. *)
Theorem ticket_codec_roundtrip `{Iroh, !Postcard PortlTicket, !PostcardLaws PortlTicket} t bs :
  (decode bs = Ok t ↔ encode t = Ok bs)
  ∧ (decode_bytes bs = Ok t ↔ encode t = Ok bs)
  ∧ (encode t = Ok bs → encode_bytes t = bs).
Proof.
  rewrite decode_bytes_iff, decode_iff, encode_iff. split_and!.
  - split; [tauto |]. intros [? ?]. split_and!; [by apply from_to_stdvec | done | done].
  - split; [tauto |]. intros [? ?]. split_and!; [by apply from_to_stdvec | done | done].
  - intros [_ Hb]. unfold encode_bytes. by rewrite Hb.
Qed.

(** The signer's own signature over a body is accepted under its public key, and
    signing succeeds exactly on the canonical bodies that serialise. *)
Theorem body_signature_roundtrip `{Ed25519, !Ed25519Laws, !Postcard PortlBody} sk b :
  (∀ sg, sign_body sk b = Ok sg → verify_body (verifying_key sk) b sg = Ok tt)
  ∧ (is_ok (sign_body sk b) = true ↔ canonical_body b ∧ is_Some (to_stdvec b)).
Proof.
  split.
  - intros sg Hs. by apply verify_body_iff, sign_body_verifies.
  - split.
    + destruct (sign_body sk b) as [sg|] eqn:Hs; [|done]. intros _.
      split; [by eapply sign_body_canonical |].
      apply sign_body_verifies in Hs as [_ _ (bs & -> & _)]. done.
    + intros [Hc Hs]. by destruct (sign_body_total sk b Hc Hs) as [sg ->].
Qed.

(** ** Witnesses *)

Section witnesses.
Import Params.

Definition sample_body : PortlBody := {|
  caps := wide_caps; target := addr_id machine; alpns_extra := []; not_before := 100;
  not_after := 200; issuer := None; parent := None; nonce := nonce1; bearer := None; to := None |}.
Definition sample_ticket : PortlTicket :=
  {| v := 1; addr := machine; body := sample_body; sig := [1; 2; 3] |}.

(** Tickets that list two rules *)
Definition web : PortRule := {| host_glob := "a.example"; port_min := 80; port_max := 80 |}.
Definition ssh : PortRule := {| host_glob := "b.example"; port_min := 22; port_max := 22 |}.
Definition listing (rules : list PortRule) (from until : Z) (n : bytes) : PortlTicket :=
  {| v := 1; addr := machine;
     body := {| caps := {| presence := 2; shell := None; tcp := Some rules; udp := None; fs := None; vpn := None; meta := None; unix := None |};
                target := addr_id machine; alpns_extra := []; not_before := from; not_after := until; issuer := None; parent := None;
                nonce := n; bearer := None; to := None |};
     sig := n |}.
Definition first_ticket : PortlTicket := listing [web; ssh] 100 200 nonce1.
Definition later_ticket : PortlTicket := listing [web; ssh] 150 300 [2; 0; 0; 0; 0; 0; 0; 0].
Definition repeating_ticket : PortlTicket := listing [ssh; web; ssh] 100 200 nonce1.

Lemma repeats_rules : caps_equiv (caps (body first_ticket)) (caps (body repeating_ticket)).
Proof. split; try done; constructor. intros r. set_solver. Qed.

(** A later ticket for the same grant has the same fields; a ticket with the rules in another order, one of them twice, grants the same and
    is refused. *)
Lemma canonical_form_unique_witness :
  caps (body first_ticket) = caps (body later_ticket) ∧ first_ticket ≠ later_ticket ∧
  caps_equiv (caps (body first_ticket)) (caps (body repeating_ticket)) ∧ canonical_check_ticket repeating_ticket ≠ Ok tt.
Proof.
  assert (canonical_check_ticket first_ticket = Ok tt) as Hc by reflexivity. split; [| split; [discriminate | split; [exact repeats_rules |]]].
  - exact (proj1 (canonical_form_unique first_ticket later_ticket Hc eq_refl eq_refl (caps_equiv_refl _) eq_refl)).
  - intros Hr. destruct (canonical_form_unique first_ticket repeating_ticket Hc Hr eq_refl repeats_rules eq_refl) as [Heq _]. discriminate Heq.
Defined.

Lemma ticket_codec_roundtrip_witness :
  ∃ bs, encode sample_ticket = Ok bs ∧ decode bs = Ok sample_ticket ∧ encode_bytes sample_ticket = bs.
Proof.
  eexists. split; [vm_compute; reflexivity |]. split.
  - apply (proj1 (ticket_codec_roundtrip sample_ticket _)). vm_compute. reflexivity.
  - apply (proj2 (proj2 (ticket_codec_roundtrip sample_ticket _))). vm_compute. reflexivity.
Defined.

Lemma body_signature_roundtrip_witness :
  ∃ sg, sign_body root_key sample_body = Ok sg ∧ verify_body (verifying_key root_key) sample_body sg = Ok tt.
Proof.
  eexists. split; [vm_compute; reflexivity |].
  apply (proj1 (body_signature_roundtrip root_key sample_body)). vm_compute. reflexivity.
Defined.
End witnesses.
