(* ===== verification/Caps.v ===== *)
(** * Capability narrowing

    crates/portl-core/src/caps.rs: the test [is_narrowing] that every delegation hop
    must pass, and its algebra (reflexive on canonical capability sets, transitive). *)

From S2P Require Import Prelude Schema Canonical.

Definition option_narrows {A} (p c : option A) (cmp : A → A → bool) : bool :=
  match p, c with
  | _, None => true
  | Some p, Some c => cmp p c
  | None, Some _ => false
  end.

Definition str_list_contains (l : list string) (entry : string) : bool := bool_decide (entry ∈ l).

Definition allowlist_narrows (p c : option (list string)) : bool :=
  match p, c with
  | _, None => negb (is_some p)
  | None, Some _ => true
  | Some p, Some c => forallb (str_list_contains p) c
  end.

Definition bool_narrows (p c : bool) : bool := negb c || p.

Definition env_policy_narrows (p c : EnvPolicy) : bool :=
  match p, c with
  | _, Deny => true
  | Merge None, Merge _ => true
  | Deny, _ => bool_decide (c = Deny)
  | Merge (Some p), Merge (Some c) => forallb (str_list_contains p) c
  | Replace p, Replace c => bool_decide (p = c)
  | _, _ => false
  end.

Definition shell_narrows (p c : ShellCaps) : bool :=
  allowlist_narrows (user_allowlist p) (user_allowlist c)
  && allowlist_narrows (command_allowlist p) (command_allowlist c)
  && bool_narrows (pty_allowed p) (pty_allowed c)
  && bool_narrows (exec_allowed p) (exec_allowed c)
  && env_policy_narrows (env_policy p) (env_policy c).

Definition host_glob_covers (p c : string) : bool :=
  bool_decide (p = "*") || bool_decide (p = c).

Definition port_rule_covers (p c : PortRule) : bool :=
  host_glob_covers (host_glob p) (host_glob c)
  && (port_min p <=? port_min c)
  && (port_max c <=? port_max p).

Definition port_rules_narrow (p c : list PortRule) : bool :=
  forallb (λ child_rule, existsb (λ parent_rule, port_rule_covers parent_rule child_rule) p) c.

Definition path_root_covers (p c : string) : bool :=
  bool_decide (c = p) || bool_decide (p = "/")
  || match strip_prefix p c with Some suffix => starts_with "/" suffix | None => false end.

Definition fs_narrows (p c : FsCaps) : bool :=
  forallb (λ child_root, existsb (λ parent_root, path_root_covers parent_root child_root) (roots p))
    (roots c)
  && (negb (readonly p) || readonly c)
  && match max_size p, max_size c with
     | _, None => negb (is_some (max_size p))
     | None, Some _ => true
     | Some p, Some c => c <=? p
     end.

Definition vpn_narrows (p c : VpnCaps) : bool :=
  bool_decide (my_ula p = my_ula c) && bool_decide (peer_ula p = peer_ula c) && (mtu c <=? mtu p).

Definition meta_narrows (p c : MetaCaps) : bool :=
  bool_narrows (ping p) (ping c) && bool_narrows (info p) (info c).

Definition unix_rules_narrow (p c : list UnixPathRule) : bool :=
  forallb (λ child_rule, existsb (λ parent_rule, UnixPath.covers parent_rule child_rule) p) c.

Definition unix_narrows (p c : UnixCaps) : bool :=
  unix_rules_narrow (connect p) (connect c) && unix_rules_narrow (listen p) (listen c).

(** [!parent.presence] on a [u8] flips the eight bits. *)
Definition is_narrowing (p c : Capabilities) : bool :=
  if negb (Z.land (presence c) (Z.lxor (presence p) U8_MAX) =? 0) then false
  else option_narrows (shell p) (shell c) shell_narrows
    && option_narrows (tcp p) (tcp c) port_rules_narrow
    && option_narrows (udp p) (udp c) port_rules_narrow
    && option_narrows (fs p) (fs c) fs_narrows
    && option_narrows (vpn p) (vpn c) vpn_narrows
    && option_narrows (meta p) (meta c) meta_narrows
    && option_narrows (unix p) (unix c) unix_narrows.

(** ** Taking a successful narrowing apart *)

Record narrowing (p c : Capabilities) : Prop := {
  nw_presence : Z.land (presence c) (Z.lxor (presence p) U8_MAX) = 0;
  nw_shell : option_narrows (shell p) (shell c) shell_narrows = true;
  nw_tcp : option_narrows (tcp p) (tcp c) port_rules_narrow = true;
  nw_udp : option_narrows (udp p) (udp c) port_rules_narrow = true;
  nw_fs : option_narrows (fs p) (fs c) fs_narrows = true;
  nw_vpn : option_narrows (vpn p) (vpn c) vpn_narrows = true;
  nw_meta : option_narrows (meta p) (meta c) meta_narrows = true;
  nw_unix : option_narrows (unix p) (unix c) unix_narrows = true;
}.

Lemma is_narrowing_iff p c : is_narrowing p c = true ↔ narrowing p c.
Proof.
  unfold is_narrowing. destruct (Z.eqb_spec (Z.land (presence c) (Z.lxor (presence p) U8_MAX)) 0);
    simpl; [|split; [done | by intros []]].
  rewrite !andb_true_iff. split; [by intros ((((((? & ?) & ?) & ?) & ?) & ?) & ?) |].
  by intros [].
Qed.

Lemma option_narrows_true {A} (p c : option A) cmp :
  option_narrows p c cmp = true ↔ ∀ y, c = Some y → ∃ x, p = Some x ∧ cmp x y = true.
Proof. destruct p, c; simpl; naive_solver. Qed.

Lemma str_contains_all l k : forallb (str_list_contains l) k = true ↔ k ⊆ l.
Proof.
  rewrite forallb_forall. unfold str_list_contains. split.
  - intros Hall x Hx. specialize (Hall x (proj1 (list_elem_of_In _ _) Hx)). by reflect_bool.
  - intros Hsub x Hx%list_elem_of_In. by apply bool_decide_eq_true, Hsub.
Qed.

Lemma cover_all_true {A} (cov : A → A → bool) p c :
  forallb (λ y, existsb (λ x, cov x y) p) c = true ↔
  ∀ y, y ∈ c → ∃ x, x ∈ p ∧ cov x y = true.
Proof.
  rewrite forallb_forall. setoid_rewrite existsb_exists.
  by setoid_rewrite list_elem_of_In.
Qed.

(** The presence test says that the child's flags are among the parent's. *)
Lemma presence_subset_testbit p c j :
  Z.land c (Z.lxor p U8_MAX) = 0 → 0 ≤ j < 8 → Z.testbit c j = true → Z.testbit p j = true.
Proof.
  intros H0 Hj Hc. assert (Z.testbit (Z.land c (Z.lxor p U8_MAX)) j = false) as Hf
    by (rewrite H0; apply Z.testbit_0_l).
  rewrite Z.land_spec, Hc, Z.lxor_spec in Hf. change U8_MAX with (Z.ones 8) in Hf.
  rewrite Z.ones_spec_low in Hf by done. by destruct (Z.testbit p j).
Qed.

Lemma presence_subset_intro p c :
  0 ≤ p < 256 → 0 ≤ c < 256 →
  (∀ j, 0 ≤ j < 8 → Z.testbit c j = true → Z.testbit p j = true) →
  Z.land c (Z.lxor p U8_MAX) = 0.
Proof.
  intros Hp Hc Hbits. apply Z.bits_inj'. intros j Hj.
  rewrite Z.land_spec, Z.lxor_spec, Z.testbit_0_l. destruct (Z.leb_spec 8 j).
  { by rewrite (byte_testbit_high c). }
  change U8_MAX with (Z.ones 8). rewrite Z.ones_spec_low by lia.
  destruct (Z.testbit c j) eqn:Hcj; [|done]. rewrite (Hbits j) by (done || lia). done.
Qed.

(** ** Narrowing is a preorder *)

Lemma option_narrows_refl {A} (o : option A) cmp :
  (∀ x, o = Some x → cmp x x = true) → option_narrows o o cmp = true.
Proof. destruct o; simpl; auto. Qed.

Lemma option_narrows_trans {A} (a b c : option A) cmp :
  (∀ x y z, a = Some x → cmp x y = true → cmp y z = true → cmp x z = true) →
  option_narrows a b cmp = true → option_narrows b c cmp = true → option_narrows a c cmp = true.
Proof. destruct a, b, c; simpl; try done. intros H. by apply H. Qed.

Lemma cover_all_trans {A} (cov : A → A → bool) (a b c : list A) :
  (∀ x y z, x ∈ a → cov x y = true → cov y z = true → cov x z = true) →
  forallb (λ y, existsb (λ x, cov x y) a) b = true →
  forallb (λ y, existsb (λ x, cov x y) b) c = true →
  forallb (λ y, existsb (λ x, cov x y) a) c = true.
Proof.
  rewrite !cover_all_true. intros Ht Hab Hbc z Hz. destruct (Hbc z Hz) as (y & Hy & Hyz).
  destruct (Hab y Hy) as (x & Hx & Hxy). eauto.
Qed.

Lemma cover_all_refl {A} (cov : A → A → bool) (l : list A) :
  (∀ x, x ∈ l → cov x x = true) → forallb (λ y, existsb (λ x, cov x y) l) l = true.
Proof. rewrite cover_all_true. eauto. Qed.

Lemma allowlist_narrows_refl o : allowlist_narrows o o = true.
Proof. destruct o; [|done]. by apply str_contains_all. Qed.

Lemma allowlist_narrows_trans a b c :
  allowlist_narrows a b = true → allowlist_narrows b c = true → allowlist_narrows a c = true.
Proof.
  destruct a, b, c; simpl; try done. rewrite !str_contains_all. intros. by etrans.
Qed.

Lemma bool_narrows_trans a b c :
  bool_narrows a b = true → bool_narrows b c = true → bool_narrows a c = true.
Proof. by destruct a, b, c. Qed.

Lemma env_policy_narrows_refl p : env_policy_narrows p p = true.
Proof.
  destruct p as [|[l|]|base]; simpl; [done | by apply str_contains_all | done |].
  by apply bool_decide_eq_true.
Qed.

Lemma env_policy_narrows_trans a b c :
  env_policy_narrows a b = true → env_policy_narrows b c = true → env_policy_narrows a c = true.
Proof.
  destruct a as [|[a|]|a], b as [|[b|]|b], c as [|[c|]|c]; simpl; try done;
    rewrite ?str_contains_all, ?bool_decide_eq_true; try done; intros; by etrans.
Qed.

Lemma shell_narrows_refl s : shell_narrows s s = true.
Proof.
  unfold shell_narrows. rewrite !allowlist_narrows_refl, env_policy_narrows_refl.
  by destruct (pty_allowed s), (exec_allowed s).
Qed.

Lemma shell_narrows_trans a b c :
  shell_narrows a b = true → shell_narrows b c = true → shell_narrows a c = true.
Proof.
  unfold shell_narrows. rewrite !andb_true_iff.
  intros ((((Ha1 & Ha2) & Ha3) & Ha4) & Ha5) ((((Hb1 & Hb2) & Hb3) & Hb4) & Hb5).
  split_and!; eauto using allowlist_narrows_trans, bool_narrows_trans, env_policy_narrows_trans.
Qed.

Lemma port_rule_covers_true p c :
  port_rule_covers p c = true ↔
  (host_glob p = "*" ∨ host_glob p = host_glob c) ∧ port_min p ≤ port_min c ∧ port_max c ≤ port_max p.
Proof.
  unfold port_rule_covers, host_glob_covers.
  rewrite !andb_true_iff, orb_true_iff, !bool_decide_eq_true, !Z.leb_le. tauto.
Qed.

Lemma port_rule_covers_trans a b c :
  port_rule_covers a b = true → port_rule_covers b c = true → port_rule_covers a c = true.
Proof.
  rewrite !port_rule_covers_true. intros (Hh & ? & ?) (Hh' & ? & ?). split; [|lia].
  destruct Hh, Hh'; (left; congruence) || (right; congruence).
Qed.

Lemma path_root_covers_true p c :
  path_root_covers p c = true ↔ c = p ∨ p = "/" ∨ ∃ rest, c = p +:+ ("/" +:+ rest).
Proof.
  unfold path_root_covers. rewrite !orb_true_iff, !bool_decide_eq_true.
  assert (match strip_prefix p c with Some suffix => starts_with "/" suffix | None => false end = true
    ↔ ∃ rest, c = p +:+ ("/" +:+ rest)) as ->; [|tauto].
  split.
  - destruct (strip_prefix p c) as [suffix|] eqn:Hs; [|done]. apply strip_prefix_spec in Hs as ->.
    intros [rest ->]%starts_with_spec. by exists rest.
  - intros [rest ->]. rewrite (proj2 (strip_prefix_spec p _ ("/" +:+ rest)) eq_refl).
    by apply starts_with_spec; exists rest.
Qed.

(** Path coverage composes unless the covering root is the empty string. *)
Lemma path_root_covers_trans a b c :
  a ≠ "" → path_root_covers a b = true → path_root_covers b c = true → path_root_covers a c = true.
Proof.
  rewrite !path_root_covers_true. intros Ha [->|[->|[r ->]]]; [done | by auto |].
  intros [->|[Hb|[r' ->]]]; right; right.
  - by exists r.
  - destruct a as [|x a]; [done |]. rewrite str_app_cons in Hb.
    injection Hb as _ Hb. by destruct a.
  - exists (r +:+ ("/" +:+ r')). by rewrite <- str_app_assoc.
Qed.

Lemma fs_narrows_trans a b c :
  "" ∉ roots a → fs_narrows a b = true → fs_narrows b c = true → fs_narrows a c = true.
Proof.
  unfold fs_narrows. rewrite !andb_true_iff. intros Hne [[H1 H2] H3] [[H4 H5] H6]. split_and!.
  - apply (cover_all_trans path_root_covers) with (roots b); [|done|done].
    intros x y z Hx. apply path_root_covers_trans. by intros ->.
  - by destruct (readonly a), (readonly b).
  - destruct (max_size a), (max_size b), (max_size c); simpl in *; try done. reflect_bool.
    apply Z.leb_le. lia.
Qed.

Lemma vpn_narrows_trans a b c :
  vpn_narrows a b = true → vpn_narrows b c = true → vpn_narrows a c = true.
Proof.
  unfold vpn_narrows. intros. reflect_bool. rewrite !andb_true_iff, !bool_decide_eq_true, Z.leb_le.
  split_and!; [congruence | congruence | lia].
Qed.

Lemma meta_narrows_trans a b c :
  meta_narrows a b = true → meta_narrows b c = true → meta_narrows a c = true.
Proof.
  unfold meta_narrows. rewrite !andb_true_iff. intros [? ?] [? ?].
  split; eauto using bool_narrows_trans.
Qed.

Lemma unix_narrows_trans a b c :
  unix_narrows a b = true → unix_narrows b c = true → unix_narrows a c = true.
Proof.
  unfold unix_narrows. rewrite !andb_true_iff. intros [? ?] [? ?].
  split; (eapply (cover_all_trans UnixPath.covers); [|done|done];
    intros; eauto using UnixPath.covers_trans).
Qed.

Lemma narrowing_trans a b c :
  u8_range (presence a) → u8_range (presence b) → u8_range (presence c) →
  (∀ f, fs a = Some f → "" ∉ roots f) →
  narrowing a b → narrowing b c → narrowing a c.
Proof.
  unfold u8_range, U8_MAX. intros Ra Rb Rc Hfs [] []. split.
  - apply presence_subset_intro; [lia | lia |]. eauto using presence_subset_testbit.
  - eapply option_narrows_trans; [|done|done]. eauto using shell_narrows_trans.
  - eapply option_narrows_trans; [|done|done]. intros x y z _.
    apply (cover_all_trans port_rule_covers). eauto using port_rule_covers_trans.
  - eapply option_narrows_trans; [|done|done]. intros x y z _.
    apply (cover_all_trans port_rule_covers). eauto using port_rule_covers_trans.
  - eapply option_narrows_trans; [|done|done]. eauto using fs_narrows_trans.
  - eapply option_narrows_trans; [|done|done]. eauto using vpn_narrows_trans.
  - eapply option_narrows_trans; [|done|done]. eauto using meta_narrows_trans.
  - eapply option_narrows_trans; [|done|done]. eauto using unix_narrows_trans.
Qed.

Lemma narrowing_refl c : canonical_caps c → narrowing c c.
Proof.
  intros [[Hr _ _ _ _ _ _ _ _] _ _ _ _ Hux]. split.
  - by apply presence_subset_intro.
  - apply option_narrows_refl. intros x _. apply shell_narrows_refl.
  - apply option_narrows_refl. intros x _. apply (cover_all_refl port_rule_covers).
    intros r _. apply port_rule_covers_true. split; [by right | lia].
  - apply option_narrows_refl. intros x _. apply (cover_all_refl port_rule_covers).
    intros r _. apply port_rule_covers_true. split; [by right | lia].
  - apply option_narrows_refl. intros f _. unfold fs_narrows. rewrite !andb_true_iff. split_and!.
    + apply (cover_all_refl path_root_covers). intros x _. apply path_root_covers_true. by left.
    + by destruct (readonly f).
    + destruct (max_size f); simpl; [|done]. by apply Z.leb_le.
  - apply option_narrows_refl. intros x _. unfold vpn_narrows.
    rewrite !andb_true_iff, !bool_decide_eq_true, Z.leb_le. split_and!; done || lia.
  - apply option_narrows_refl. intros [[] []] _; done.
  - apply option_narrows_refl. intros u Hu. destruct (Hux u Hu) as [[Hc _] [Hl _]].
    rewrite Forall_forall in Hc, Hl. apply andb_true_iff.
    split; apply (cover_all_refl UnixPath.covers); eauto with portl.
Qed.

(** ** Properties *)

(** [is_narrowing] orders capabilities: it is reflexive on canonical
    capabilities, and transitive on byte-sized presence bitmaps provided the ancestor
    names no empty filesystem root. *)
Theorem is_narrowing_preorder :
  (∀ c, canonical_caps c → is_narrowing c c = true)
  ∧ ∀ a b c, u8_range (presence a) → u8_range (presence b) → u8_range (presence c) →
      (∀ f, fs a = Some f → "" ∉ roots f) →
      is_narrowing a b = true → is_narrowing b c = true → is_narrowing a c = true.
Proof.
  split.
  - intros c Hc. by apply is_narrowing_iff, narrowing_refl.
  - intros a b c. rewrite !is_narrowing_iff. apply narrowing_trans.
Qed.

Definition fs_only (r : list string) : Capabilities := {|
  presence := 8; shell := None; tcp := None; udp := None;
  fs := Some {| roots := r; readonly := true; max_size := None |};
  vpn := None; meta := None; unix := None |}.

(** the side condition is needed: through an empty filesystem root two narrowing
    steps compose to a widening, the empty root covering the root directory and the
    root directory covering a relative path the empty root does not cover. *)
Theorem is_narrowing_empty_root_not_transitive :
  canonical_caps (fs_only [""]) ∧ canonical_caps (fs_only ["/"]) ∧ canonical_caps (fs_only ["abc"])
  ∧ is_narrowing (fs_only [""]) (fs_only ["/"]) = true
  ∧ is_narrowing (fs_only ["/"]) (fs_only ["abc"]) = true
  ∧ is_narrowing (fs_only [""]) (fs_only ["abc"]) = false.
Proof.
  assert (∀ s, canonical_caps (fs_only [s])) as Hc.
  { intros s. split; simpl; try done.
    intros f [= <-]. by repeat constructor. }
  by split_and!.
Qed.

(** ** Witnesses *)

Lemma is_narrowing_preorder_witness :
  is_narrowing (fs_only ["/"]) (fs_only ["/srv/data"]) = true.
Proof.
  apply (proj2 is_narrowing_preorder) with (fs_only ["/srv"]).
  - unfold u8_range, U8_MAX; simpl; lia.
  - unfold u8_range, U8_MAX; simpl; lia.
  - unfold u8_range, U8_MAX; simpl; lia.
  - intros f [= <-]. simpl. by rewrite list_elem_of_singleton.
  - reflexivity.
  - reflexivity.
Defined.
