(* ===== verification/Enforce.v ===== *)
(** * Capability enforcement

    crates/portl-agent/src/caps_enforce.rs (what a session may open), the request
    types of crates/portl-core/src/wire/{shell,tcp,udp,unix}.rs it inspects, and
    crates/portl-agent/src/target_context.rs (the environment of a spawned process).
    The theorems tie the enforcement to the narrowing test of [Caps]. *)

From S2P Require Import Prelude Schema Canonical Caps.

(** ** Requests *)

Record StreamPreamble := { peer_token : bytes; alpn : string }.

Inductive ShellMode := Shell | Exec.

Record PtyCfg := { term : string; cols : Z; rows : Z }.

Inductive EnvValue := EnvSet (value : string) | EnvUnset.

Record ShellReq := {
  sr_preamble : StreamPreamble;
  sr_mode : ShellMode;
  sr_argv : option (list string);
  sr_env_patch : list (string * EnvValue);
  sr_cwd : option string;
  sr_pty : option PtyCfg;
  sr_user : option string;
}.

Inductive ShellReason :=
  | CapDenied
  | BadUser (user : string)
  | SpawnFailed (msg : string)
  | InvalidPty
  | NotFound
  | ShellInternalError (msg : string).

Record TcpReq := { tr_preamble : StreamPreamble; tr_host : string; tr_port : Z }.

Record UdpBind := {
  local_port_range : Z * Z;
  target_host : string;
  target_port_range : Z * Z;
}.

Inductive UnixOp :=
  | UnixConnect (path : string)
  | UnixListen (path : string) (cleanup ssh_agent : bool).

Record UnixReq := { ur_preamble : StreamPreamble; ur_op : UnixOp }.

#[export] Instance ShellMode_eq_dec : EqDecision ShellMode.
Proof. solve_decision. Defined.
#[export] Instance StreamPreamble_eq_dec : EqDecision StreamPreamble.
Proof. solve_decision. Defined.
#[export] Instance ShellReason_eq_dec : EqDecision ShellReason.
Proof. solve_decision. Defined.

(** ** caps_enforce.rs *)

(** [.any(..).then_some(()).ok_or(e)] *)
Definition any_or {A E} (f : A → bool) (l : list A) (e : E) : result E unit :=
  ensure (existsb f l) e.

Definition shell_permits (c : Capabilities) (req : ShellReq) : result ShellReason unit :=
  match shell c with
  | None => Err CapDenied
  | Some shell_caps =>
      (match sr_mode req with
       | Shell => ensure (pty_allowed shell_caps) CapDenied
       | Exec => ensure (exec_allowed shell_caps) CapDenied
       end);;
      ensure (negb (is_some (sr_pty req) && negb (pty_allowed shell_caps))) CapDenied;;
      if_some (user_allowlist shell_caps) (λ allowlist,
        any_or (λ candidate, bool_decide (candidate = default "" (sr_user req))) allowlist CapDenied);;
      match sr_mode req, command_allowlist shell_caps with
      | Exec, Some allowlist =>
          argv0 ← ok_or (sr_argv req ≫= head) (SpawnFailed "exec mode requires argv");
          any_or (λ candidate, bool_decide (candidate = argv0)) allowlist CapDenied
      | _, _ => Ok tt
      end
  end.

Definition host_matches (pattern host : string) : bool :=
  if decide (pattern = "*") then true
  else match strip_prefix "*." pattern with
       | Some suffix => ends_with ("." +:+ suffix) host || bool_decide (host = suffix)
       | None =>
           match strip_suffix ".*" pattern with
           | Some prefix => starts_with (prefix +:+ ".") host
           | None => bool_decide (pattern = host)
           end
       end.

Definition is_loopback_name (host : string) : bool :=
  bool_decide (host = "localhost") || bool_decide (host = "127.0.0.1") || bool_decide (host = "::1").

Definition listen_host_matches (pattern host : string) : bool :=
  if decide (pattern = "*") then is_loopback_name host
  else host_matches pattern host.

Definition tcp_permits (c : Capabilities) (req : TcpReq) : result string unit :=
  match tcp c with
  | None => Err "tcp forwarding not allowed"
  | Some rules =>
      any_or (λ rule, host_matches (host_glob rule) (tr_host req)
                      && (port_min rule <=? tr_port req) && (tr_port req <=? port_max rule))
        rules "destination not permitted by ticket"
  end.

Definition tcp_listen_permits (c : Capabilities) (bind_host : string) (bind_port : Z) :
    result string unit :=
  if Z.land (presence c) TCP_LISTEN_CAP_BIT =? 0 then Err "tcp listen forwarding not allowed"
  else match tcp c with
       | None => Err "tcp listen forwarding not allowed"
       | Some rules =>
           any_or (λ rule, listen_host_matches (host_glob rule) bind_host
                           && (port_min rule <=? bind_port) && (bind_port <=? port_max rule))
             rules "listen address not permitted by ticket"
       end.

Definition unix_permits (c : Capabilities) (req : UnixReq) : result string unit :=
  match unix c with
  | None => Err "unix forwarding not allowed"
  | Some unix_caps =>
      let '(rules, p) := match ur_op req with
                         | UnixConnect p => (connect unix_caps, p)
                         | UnixListen p _ _ => (listen unix_caps, p)
                         end in
      any_or (λ rule, UnixPath.matches_path rule p) rules "unix path not permitted by ticket"
  end.

Definition udp_permits (c : Capabilities) (bind : UdpBind) : result string unit :=
  match udp c with
  | None => Err "udp forwarding not allowed"
  | Some rules =>
      any_or (λ rule, host_matches (host_glob rule) (target_host bind)
                      && (port_min rule <=? (target_port_range bind).1)
                      && ((target_port_range bind).2 <=? port_max rule))
        rules "destination not permitted by ticket"
  end.

(** ** target_context.rs *)

(** shell_handler/user.rs *)
Record RequestedUser := {
  ru_uid : Z;
  ru_gid : Z;
  ru_name : string;
  ru_home_dir : string;
  ru_shell : string;
  ru_switch_required : bool;
}.

(** The directories joined by colons. *)
Definition default_target_path : string :=
  String.concat ":" ["/opt/homebrew/bin"; "/opt/homebrew/sbin"; "/usr/local/bin";
                     "/usr/local/sbin"; "/usr/bin"; "/bin"].

Definition normalize_term (t : string) : string :=
  let trimmed := trim t in
  if decide (trimmed = "" ∨ trimmed = "unknown") then "xterm-256color" else trimmed.

Definition sanitized_env_base (user : option RequestedUser) (req : ShellReq) : gmap string string :=
  let env := match user with
             | Some u => <["SHELL" := ru_shell u]> (<["LOGNAME" := ru_name u]>
                           (<["USER" := ru_name u]> (<["HOME" := ru_home_dir u]> ∅)))
             | None => ∅
             end in
  let env := <["PATH" := default_target_path]> env in
  match sr_pty req with
  | Some pty => <["TERM" := normalize_term (term pty)]> env
  | None => env
  end.

Definition patch_allowed (allow : option (list string)) (key : string) : bool :=
  match allow with
  | Some l => existsb (λ candidate, bool_decide (candidate = key)) l
  | None => true
  end.

Definition merge_env_entry (allow : option (list string)) (env : gmap string string)
    (kv : string * EnvValue) : gmap string string :=
  if patch_allowed allow kv.1 then
    match kv.2 with
    | EnvSet value => <[kv.1 := value]> env
    | EnvUnset => delete kv.1 env
    end
  else env.

Definition merge_env_patch (env : gmap string string) (env_patch : list (string * EnvValue))
    (allow : option (list string)) : gmap string string :=
  foldl (merge_env_entry allow) env env_patch.

(** The list the function returns is this map in key order. *)
Definition effective_env (shell_caps : option ShellCaps) (req : ShellReq)
    (user : option RequestedUser) : gmap string string :=
  let deny_base := sanitized_env_base user req in
  match env_policy <$> shell_caps with
  | Some Deny | None => deny_base
  | Some (Merge allow) => merge_env_patch deny_base (sr_env_patch req) allow
  | Some (Replace base) => foldl (λ m kv, <[kv.1 := kv.2]> m) ∅ base
  end.

Definition requested_cwd (req : ShellReq) (user : option RequestedUser) : option string :=
  match sr_cwd req with Some c => Some c | None => ru_home_dir <$> user end.

(** ** Narrowed capabilities permit no more *)

Lemma any_or_Ok {A E} (f : A → bool) (l : list A) (e : E) u :
  any_or f l e = Ok u ↔ ∃ x, x ∈ l ∧ f x = true.
Proof.
  unfold any_or. rewrite ensure_Ok, existsb_exists. by setoid_rewrite list_elem_of_In.
Qed.

(** The pattern shared by every rule-list permission: parent rules cover child
    rules, and a covered rule matches no more. *)
Lemma any_or_mono {A E} (cov : A → A → bool) (f : A → bool) (p c : list A) (e : E) :
  forallb (λ y, existsb (λ x, cov x y) p) c = true →
  (∀ x y, cov x y = true → f y = true → f x = true) →
  any_or f c e = Ok tt → any_or f p e = Ok tt.
Proof.
  rewrite cover_all_true, !any_or_Ok. intros Hcov Hf (y & Hy & Hfy).
  destruct (Hcov y Hy) as (x & Hx & Hxy). eauto.
Qed.

Lemma host_covers_matches p c h :
  p = "*" ∨ p = c → host_matches c h = true → host_matches p h = true.
Proof. intros [->| ->]; [done | auto]. Qed.

Lemma tcp_permits_mono p c req :
  narrowing p c → tcp_permits c req = Ok tt → tcp_permits p req = Ok tt.
Proof.
  intros [_ _ Htcp _ _ _ _ _]. unfold tcp_permits. destruct (tcp c) as [cr|]; [|done].
  destruct (proj1 (option_narrows_true _ _ _) Htcp cr eq_refl) as (pr & -> & Hn).
  apply (any_or_mono port_rule_covers); [done |]. intros x y (Hh & ? & ?)%port_rule_covers_true Hy.
  reflect_bool. rewrite !andb_true_iff, !Z.leb_le. split_and!; [by eapply host_covers_matches | lia | lia].
Qed.

Lemma udp_permits_mono p c bind :
  narrowing p c → udp_permits c bind = Ok tt → udp_permits p bind = Ok tt.
Proof.
  intros [_ _ _ Hudp _ _ _ _]. unfold udp_permits. destruct (udp c) as [cr|]; [|done].
  destruct (proj1 (option_narrows_true _ _ _) Hudp cr eq_refl) as (pr & -> & Hn).
  apply (any_or_mono port_rule_covers); [done |]. intros x y (Hh & ? & ?)%port_rule_covers_true Hy.
  reflect_bool. rewrite !andb_true_iff, !Z.leb_le. split_and!; [by eapply host_covers_matches | lia | lia].
Qed.

Lemma unix_permits_mono p c req :
  narrowing p c → unix_permits c req = Ok tt → unix_permits p req = Ok tt.
Proof.
  intros [_ _ _ _ _ _ _ Hux]. unfold unix_permits. destruct (unix c) as [cu|]; [|done].
  destruct (proj1 (option_narrows_true _ _ _) Hux cu eq_refl) as (pu & -> & Hn).
  apply andb_true_iff in Hn as [Hc Hl].
  destruct (ur_op req); eapply (any_or_mono UnixPath.covers); eauto using UnixPath.covers_matches.
Qed.

Lemma allowlist_any_mono (p c : option (list string)) (x : string) :
  allowlist_narrows p c = true →
  if_some c (λ l, any_or (λ a, bool_decide (a = x)) l CapDenied) = Ok tt →
  if_some p (λ l, any_or (λ a, bool_decide (a = x)) l CapDenied) = Ok tt.
Proof.
  destruct p as [p|], c as [c|]; simpl; try done. rewrite str_contains_all, !any_or_Ok.
  intros Hsub (y & Hy & ?). eauto.
Qed.

Lemma shell_permits_mono p c req :
  narrowing p c → shell_permits c req = Ok tt → shell_permits p req = Ok tt.
Proof.
  intros [_ Hsh _ _ _ _ _ _]. unfold shell_permits. destruct (shell c) as [cs|]; [|done].
  destruct (proj1 (option_narrows_true _ _ _) Hsh cs eq_refl) as (ps & -> & Hn).
  unfold shell_narrows in Hn. rewrite !andb_true_iff in Hn. destruct Hn as ((((Hu & Hc) & Hp) & Hx) & _).
  unfold bool_narrows in Hp, Hx. rewrite !seq_Ok. intros (Hm & Hpty & Huser & Hcmd). split_and!.
  - destruct (sr_mode req); apply ensure_tt; apply ensure_tt in Hm; by rewrite Hm in *.
  - apply ensure_tt. apply ensure_tt in Hpty.
    destruct (is_some (sr_pty req)), (pty_allowed cs), (pty_allowed ps); done.
  - by eapply allowlist_any_mono.
  - destruct (sr_mode req); [done |]. destruct (command_allowlist ps) as [pl|] eqn:Hpl; [|done].
    destruct (command_allowlist cs) as [cl|] eqn:Hcl; [|done].
    apply bind_Ok in Hcmd as (argv0 & -> & Hany). simpl.
    by apply (allowlist_any_mono (Some pl) (Some cl)).
Qed.

(** No TCP rule is for any host. *)
Definition wildcard_free (c : Capabilities) : Prop := ∀ rules r, tcp c = Some rules → r ∈ rules → host_glob r ≠ "*".

Lemma wildcard_free_mono p c : narrowing p c → wildcard_free p → wildcard_free c.
Proof.
  intros [_ _ Htcp _ _ _ _ _] Hp cr y Hc Hy Hstar. destruct (proj1 (option_narrows_true _ _ _) Htcp cr Hc) as (pr & Hpr & Hn).
  unfold port_rules_narrow in Hn. rewrite cover_all_true in Hn. destruct (Hn y Hy) as (x & Hx & (Hh & _)%port_rule_covers_true).
  apply (Hp pr x Hpr Hx). destruct Hh as [?|Heq]; [done | by rewrite Heq].
Qed.

(** Listening: the parent's ["*"] means loopback only, so a child naming another
    host escapes it; every other rule is monotone. *)
Lemma tcp_listen_permits_mono p c host port :
  narrowing p c → wildcard_free p ∨ is_loopback_name host = true →
  tcp_listen_permits c host port = Ok tt → tcp_listen_permits p host port = Ok tt.
Proof.
  intros [Hpres _ Htcp _ _ _ _ _] Hside. unfold tcp_listen_permits.
  pose proof (presence_subset_testbit _ _ 7 Hpres ltac:(lia)) as H7.
  rewrite <- !listen_flag_testbit in H7.
  destruct (Z.land (presence c) TCP_LISTEN_CAP_BIT =? 0); [done |].
  destruct (Z.land (presence p) TCP_LISTEN_CAP_BIT =? 0); [by specialize (H7 eq_refl) |].
  destruct (tcp c) as [cr|]; [|done].
  destruct (proj1 (option_narrows_true _ _ _) Htcp cr eq_refl) as (pr & Hpr & Hn). rewrite Hpr.
  unfold port_rules_narrow in Hn. rewrite cover_all_true in Hn. rewrite !any_or_Ok.
  intros (y & Hy & Hm). destruct (Hn y Hy) as (x & Hx & (Hh & ? & ?)%port_rule_covers_true).
  exists x. split; [done |]. reflect_bool. rewrite !andb_true_iff, !Z.leb_le.
  split_and!; [|lia|lia]. unfold listen_host_matches in *.
  destruct (decide (host_glob x = "*")) as [Hstar|Hstar].
  - destruct Hside as [Hside|]; [|done]. by destruct (Hside pr x Hpr Hx).
  - destruct Hh as [?|Heq]; [done |]. by rewrite Heq, decide_False in * by congruence.
Qed.

(** ** The environment of a spawned process *)

(** Every request the child capabilities permit, the parent's permit; for TCP listeners only on
    the loopback names or when the parent has no rule for any host ([listen_wildcard_widens]). *)
Record attenuates (p c : Capabilities) : Prop := {
  at_shell req : shell_permits c req = Ok tt → shell_permits p req = Ok tt;
  at_tcp req : tcp_permits c req = Ok tt → tcp_permits p req = Ok tt;
  at_udp bind : udp_permits c bind = Ok tt → udp_permits p bind = Ok tt;
  at_unix req : unix_permits c req = Ok tt → unix_permits p req = Ok tt;
  at_wildcard : wildcard_free p → wildcard_free c;
  at_listen host port : wildcard_free p ∨ is_loopback_name host = true →
    tcp_listen_permits c host port = Ok tt → tcp_listen_permits p host port = Ok tt;
}.

#[export] Instance attenuates_preorder : PreOrder attenuates.
Proof.
  split; [by intros c; split |]. intros a b c [] []. split; eauto. intros host port [Hw|Hl] Hx; eauto 8.
Qed.

Lemma narrowing_attenuates p c : narrowing p c → attenuates p c.
Proof.
  split; eauto using shell_permits_mono, tcp_permits_mono, udp_permits_mono, unix_permits_mono, wildcard_free_mono, tcp_listen_permits_mono.
Qed.

(** The keys the client's patch can influence under a policy. *)
Definition env_controllable (p : EnvPolicy) (key : string) : bool :=
  match p with
  | Merge allow => patch_allowed allow key
  | Deny | Replace _ => false
  end.

Lemma patch_allowed_true allow key :
  patch_allowed allow key = true ↔ ∀ l, allow = Some l → key ∈ l.
Proof.
  destruct allow as [l|]; simpl; [|by split].
  rewrite existsb_exists. setoid_rewrite <- list_elem_of_In. setoid_rewrite bool_decide_eq_true.
  split; [intros (x & ? & ->) ? [= <-]; done | eauto].
Qed.

Lemma merge_env_patch_other env patch allow key :
  patch_allowed allow key = false → merge_env_patch env patch allow !! key = env !! key.
Proof.
  intros Hk. unfold merge_env_patch. revert env.
  induction patch as [|[k ev] patch IH]; intros env; simpl; [done |].
  rewrite IH. unfold merge_env_entry. simpl. destruct (patch_allowed allow k) eqn:Hk'; [|done].
  assert (k ≠ key) by congruence. destruct ev; [by rewrite lookup_insert_ne | by rewrite lookup_delete_ne].
Qed.

Lemma env_narrows_controllable p c key :
  env_policy_narrows p c = true → env_controllable c key = true → env_controllable p key = true.
Proof.
  destruct p as [|[p|]|p], c as [|[c|]|c]; simpl; try done.
  rewrite str_contains_all. intros Hsub Hc. apply (patch_allowed_true (Some p)).
  intros l [= <-]. apply Hsub. by apply (proj1 (patch_allowed_true (Some c) key) Hc).
Qed.

(** ** Properties *)

(** C8: the narrowing test is sound for enforcement: when [is_narrowing parent child]
    holds, every shell, TCP connect, UDP and Unix-socket request the child's capabilities
    permit is permitted by the parent's, and so is every TCP listener on a loopback name, and on
    any host when the parent has no rule for any host.  Of other listeners it is false:
    [listen_wildcard_widens]. *)
Theorem narrowing_sound p c : is_narrowing p c = true → attenuates p c.
Proof. rewrite is_narrowing_iff. apply narrowing_attenuates. Qed.

(** A TCP grant with the listen bit. *)
Definition listen_caps (glob : string) : Capabilities := {|
  presence := 130; shell := None; tcp := Some [{| host_glob := glob; port_min := 1; port_max := 65535 |}];
  udp := None; fs := None; vpn := None; meta := None; unix := None |}.

(** With a wildcard host rule the narrowing test does widen listeners: a parent
    that may listen on loopback only can delegate, as a narrowing, the right to listen
    on every interface. *)
Theorem listen_wildcard_widens :
  canonical_caps (listen_caps "*") ∧ canonical_caps (listen_caps "0.0.0.0")
  ∧ is_narrowing (listen_caps "*") (listen_caps "0.0.0.0") = true
  ∧ tcp_listen_permits (listen_caps "0.0.0.0") "0.0.0.0" 8080 = Ok tt
  ∧ is_ok (tcp_listen_permits (listen_caps "*") "0.0.0.0" 8080) = false.
Proof.
  assert (∀ g, canonical_caps (listen_caps g)) as Hc.
  { intros g. split; simpl; try done.
    intros l [= <-]. by repeat constructor. }
  by split_and!.
Qed.

Definition with_env_patch (req : ShellReq) (patch : list (string * EnvValue)) : ShellReq := {|
  sr_preamble := sr_preamble req; sr_mode := sr_mode req; sr_argv := sr_argv req;
  sr_env_patch := patch; sr_cwd := sr_cwd req; sr_pty := sr_pty req; sr_user := sr_user req |}.

(** The client's environment patch cannot influence a variable its policy does not
    let it control (none under deny and replace, those outside the allow list under
    merge), and a narrowed ticket controls no variable its parent did not. *)
Theorem env_patch_noninterference s req user patch key :
  env_controllable (env_policy s) key = false →
  effective_env (Some s) (with_env_patch req patch) user !! key = effective_env (Some s) req user !! key
  ∧ ∀ child, shell_narrows s child = true → env_controllable (env_policy child) key = false.
Proof.
  intros Hk. split.
  - unfold effective_env. simpl. destruct (env_policy s); simpl in *; [done | | done].
    by rewrite !merge_env_patch_other.
  - intros child Hn. unfold shell_narrows in Hn. rewrite !andb_true_iff in Hn.
    destruct Hn as [_ Hn]. destruct (env_controllable (env_policy child) key) eqn:Hc; [|done].
    by rewrite (env_narrows_controllable _ _ key Hn Hc) in Hk.
Qed.

(** ** Witnesses *)

Lemma narrowing_sound_witness :
  tcp_permits (listen_caps "*")
    {| tr_preamble := {| peer_token := []; alpn := "portl/tcp/v1" |}; tr_host := "db"; tr_port := 5432 |} = Ok tt
  ∧ tcp_listen_permits (listen_caps "*") "localhost" 8080 = Ok tt.
Proof.
  split.
  - apply (at_tcp _ _ (narrowing_sound (listen_caps "*") (listen_caps "db") eq_refl)). reflexivity.
  - apply (at_listen _ _ (narrowing_sound (listen_caps "*") (listen_caps "localhost") eq_refl)); [right |]; reflexivity.
Defined.

Lemma env_patch_noninterference_witness :
  let s := {| user_allowlist := None; pty_allowed := true; exec_allowed := true;
              command_allowlist := None; env_policy := Merge (Some ["LANG"]) |} in
  let req := {| sr_preamble := {| peer_token := []; alpn := "portl/shell/v1" |}; sr_mode := Shell;
                sr_argv := None; sr_env_patch := []; sr_cwd := None; sr_pty := None; sr_user := None |} in
  effective_env (Some s) (with_env_patch req [("PATH", EnvSet "/tmp")]) None !! "PATH"
  = effective_env (Some s) req None !! "PATH".
Proof.
  intros s req. apply (proj1 (env_patch_noninterference s req None [("PATH", EnvSet "/tmp")] "PATH" eq_refl)).
Defined.
