(* ===== verification/Chain.v ===== *)
(** * Delegation chains

    crates/portl-core/src/ticket/{verify,mint,master,offer}.rs: verification of a
    ticket with its ancestors, minting of root, delegated and master tickets, and
    proof of possession.  A chain is listed root first; [verify_chain] takes the
    terminal ticket and the chain of its ancestors. *)

From S2P Require Import Prelude Schema Canonical Sample Codec Caps Enforce.

(** Maximum number of delegation hops below a root ticket. *)
Definition MAX_DELEGATION_DEPTH : Z := 8.

(** [HashSet<[u8; 32]>] *)
Definition TrustRoots : Type := gset bytes.
#[global] Typeclasses Transparent TrustRoots.

Section chain.
Context `{Iroh, Sha256, Ed25519, !Postcard PortlBody}.

(** ** verify.rs *)

Definition check_time_window (t : PortlTicket) (now : Z) : result PortlError unit :=
  ensure (negb (saturating_add U64_MAX now 60 <? not_before (body t)))
    (Clock "ticket not yet valid");;
  ensure (negb (not_after (body t) <=? now)) (Clock "ticket expired").

(** The body of the first loop of [verify_chain]. *)
Definition check_chain_ticket (chain_target : bytes) (now : Z) (t : PortlTicket) :
    result PortlError unit :=
  canonical_check_ticket t;;
  ensure (v t =? 1) (Ticket "unsupported ticket version");;
  ensure (bool_decide (addr_id (addr t) = chain_target)) (Chain "mismatched endpoint_id in chain");;
  check_time_window t now.

Definition expected_depth (par : PortlTicket) : result PortlError Z :=
  match parent (body par) with
  | Some delegation =>
      ok_or (checked_sub (depth_remaining delegation) 1) (Chain "parent depth exhausted")
  | None => Ok (MAX_DELEGATION_DEPTH - 1)
  end.

(** The body of the second loop: one delegation hop. *)
Definition verify_hop (par child : PortlTicket) : result PortlError unit :=
  parent_ref ← ok_or (parent (body child)) (Chain "delegated ticket missing parent");
  let parent_key := resolved_issuer par in
  verify_body parent_key (body child) (sig child);;
  ensure (bool_decide (resolved_issuer child = parent_key))
    (Chain "child issuer does not match parent authority");;
  ensure (bool_decide (parent_ticket_id_field parent_ref = parent_ticket_id (sig par)))
    (Chain "parent ticket id mismatch");;
  ensure (is_narrowing (caps (body par)) (caps (body child))) (Chain "child caps widen parent");;
  ensure (negb ((not_before (body child) <? not_before (body par))
                || (not_after (body par) <? not_after (body child))))
    (Chain "child validity window escapes parent");;
  ensure (negb (is_some (bearer (body par))
                && negb (bool_decide (bearer (body child) = bearer (body par)))))
    (Chain "child bearer differs from parent");;
  ensure (negb (negb (is_some (bearer (body par))) && is_some (bearer (body child))))
    (Chain "child introduces bearer not present in parent");;
  depth ← expected_depth par;
  ensure (depth_remaining parent_ref =? depth) (Chain "depth_remaining mismatch").

Fixpoint verify_hops {E} (hop : PortlTicket → PortlTicket → result E unit)
    (par : PortlTicket) (children : list PortlTicket) : result E unit :=
  match children with
  | [] => Ok tt
  | child :: rest => hop par child;; verify_hops hop child rest
  end.

Definition verify_chain (terminal : PortlTicket) (chain : list PortlTicket) (roots : TrustRoots)
    (now : Z) : result PortlError Capabilities :=
  let all_tickets := chain ++ [terminal] in
  match all_tickets with
  | [] => Err (Chain "empty chain")
  | root :: rest =>
      ensure (Z.of_nat (length all_tickets) <=? MAX_DELEGATION_DEPTH + 1)
        (Chain "delegation depth exceeded");;
      for_each (check_chain_ticket (addr_id (addr root)) now) all_tickets;;
      ensure (negb (is_some (parent (body root)))) (Chain "root ticket must not have parent");;
      let root_key := resolved_issuer root in
      ensure (bool_decide (root_key ∈ roots)) (Chain "unknown root");;
      verify_body root_key (body root) (sig root);;
      verify_hops verify_hop root rest;;
      Ok (caps (body terminal))
  end.

(** ** mint.rs and master.rs

    [draws] are the results of the successive [random::<[u8; 8]>()] calls of
    [fresh_nonce], whose loop ends at the first non-zero one; [None] means the loop
    is still running after all of them. *)

Definition fresh_nonce (draws : list bytes) : option bytes :=
  head (filter (λ d, d ≠ replicate 8 0) draws).

Definition issuer_for (sk : SigningKey) (a : EndpointAddr) : option bytes :=
  if decide (verifying_key sk = addr_id a) then None else Some (verifying_key sk).

(** [sign_body(sk, &body)?], assembling the ticket, [canonical_check_ticket(&ticket)?]. *)
Definition sign_ticket (sk : SigningKey) (a : EndpointAddr) (b : PortlBody) :
    result PortlError PortlTicket :=
  sg ← sign_body sk b;
  let t := {| v := 1; addr := a; body := b; sig := sg |} in
  canonical_check_ticket t;;
  Ok t.

Definition mint_root (sk : SigningKey) (a : EndpointAddr) (c : Capabilities) (nb na : Z)
    (holder : option bytes) (draws : list bytes) : option (result PortlError PortlTicket) :=
  n ← fresh_nonce draws;
  Some (sign_ticket sk a {|
    caps := c; target := addr_id a; alpns_extra := []; not_before := nb; not_after := na;
    issuer := issuer_for sk a; parent := None; nonce := n; bearer := None; to := holder |}).

Definition mint_delegated (parent_sk : SigningKey) (parent_ticket : PortlTicket)
    (child_caps : Capabilities) (nb na : Z) (holder : option bytes) (draws : list bytes) :
    option (result PortlError PortlTicket) :=
  match (canonical_check_ticket parent_ticket;;
         ensure (is_narrowing (caps (body parent_ticket)) child_caps)
           (Ticket "child capabilities widen parent");;
         ensure (negb ((nb <? not_before (body parent_ticket))
                       || (not_after (body parent_ticket) <? na)))
           (Ticket "child validity window escapes parent");;
         match parent (body parent_ticket) with
         | Some d => ok_or (checked_sub (depth_remaining d) 1) (Ticket "parent depth exhausted")
         | None => Ok (MAX_DELEGATION_DEPTH - 1)
         end) with
  | Err e => Some (Err e)
  | Ok depth =>
      n ← fresh_nonce draws;
      Some (sign_ticket parent_sk (addr parent_ticket) {|
        caps := child_caps; target := target (body parent_ticket); alpns_extra := [];
        not_before := nb; not_after := na; issuer := issuer_for parent_sk (addr parent_ticket);
        parent := Some {| parent_ticket_id_field := parent_ticket_id (sig parent_ticket);
                          depth_remaining := depth |};
        nonce := n; bearer := None; to := holder |})
  end.

Definition MAX_MASTER_TTL_SECS : Z := 30 * 24 * 60 * 60.

(** [clock] is [SystemTime::now()] in seconds since the epoch, [None] before it. *)
Definition mint_master (sk : SigningKey) (a : EndpointAddr) (c : Capabilities) (br : bytes)
    (ttl_secs : Z) (holder : bytes) (clock : option Z) (draws : list bytes) :
    option (result PortlError PortlTicket) :=
  match (ensure (negb (bool_decide (br = []))) (Ticket "master ticket bearer must be non-empty");;
         ensure (negb (ttl_secs =? 0)) (Ticket "master ticket ttl must be > 0");;
         ensure (ttl_secs <=? MAX_MASTER_TTL_SECS) (Ticket "master ticket ttl exceeds 30 days");;
         now ← ok_or clock (Clock "system clock is before unix epoch");
         na ← ok_or (checked_add U64_MAX now ttl_secs) (Ticket "master ticket ttl overflows u64");
         Ok (now, na)) with
  | Err e => Some (Err e)
  | Ok (now, na) =>
      n ← fresh_nonce draws;
      Some (sign_ticket sk a {|
        caps := c; target := addr_id a; alpns_extra := []; not_before := now; not_after := na;
        issuer := issuer_for sk a; parent := None; nonce := n; bearer := Some br;
        to := Some holder |})
  end.

Definition extract_bearer (t : PortlTicket) : option bytes := bearer (body t).

(** ** offer.rs: proof of possession *)

Definition POP_DOMAIN : bytes := str_bytes "portl/ticket-pop/v1".

Definition pop_digest (tid client_nonce : bytes) : bytes :=
  sha256 (POP_DOMAIN ++ tid ++ client_nonce).

Definition compute_pop_sig (op_sk : SigningKey) (tid client_nonce : bytes) : bytes :=
  sign op_sk (pop_digest tid client_nonce).

Definition verify_pop (op_pk tid client_nonce proof : bytes) : result PortlError unit :=
  ensure (vk_from_bytes op_pk) (Signature "invalid proof public key");;
  ensure (verify_strict op_pk (pop_digest tid client_nonce) proof) (Signature "bad proof").

Definition validate_ticket_proof (t : PortlTicket) (client_nonce : bytes) (proof : option bytes) :
    result PortlError unit :=
  match to (body t), proof with
  | Some holder, Some sg => verify_pop holder (ticket_id (sig t)) client_nonce sg
  | None, None => Ok tt
  | None, Some _ => Err (Ticket "proof not expected for bearer ticket")
  | Some _, None => Err (Ticket "proof required for to-bound ticket")
  end.

(** ** What a verified chain establishes *)

Record ticket_in_force (chain_target : bytes) (now : Z) (t : PortlTicket) : Prop := {
  tf_canonical : canonical_ticket t;
  tf_version : v t = 1;
  tf_target : addr_id (addr t) = chain_target;
  tf_started : not_before (body t) ≤ saturating_add U64_MAX now 60;
  tf_unexpired : now < not_after (body t);
}.

(** One link: [child] is signed by the authority of [par], pins it by hash, and
    does not exceed it. *)
Record hop (par child : PortlTicket) : Prop := {
  hop_ref : ∃ d, parent (body child) = Some d
    ∧ parent_ticket_id_field d = parent_ticket_id (sig par)
    ∧ expected_depth par = Ok (depth_remaining d);
  hop_signed : signed_by (resolved_issuer par) (body child) (sig child);
  hop_issuer : resolved_issuer child = resolved_issuer par;
  hop_caps : narrowing (caps (body par)) (caps (body child));
  hop_before : not_before (body par) ≤ not_before (body child);
  hop_after : not_after (body child) ≤ not_after (body par);
}.

Record valid_chain (all : list PortlTicket) (root : PortlTicket) (roots : TrustRoots) : Prop := {
  vc_root : parent (body root) = None;
  vc_trusted : resolved_issuer root ∈ roots;
  vc_signed : signed_by (resolved_issuer root) (body root) (sig root);
  vc_hops : Sorted hop all;
  vc_length : (length all ≤ 9)%nat;
}.

Lemma check_chain_ticket_Ok tgt now t :
  check_chain_ticket tgt now t = Ok tt ↔ ticket_in_force tgt now t.
Proof.
  unfold check_chain_ticket, check_time_window.
  rewrite !seq_Ok, !ensure_tt, canonical_check_ticket_iff, !negb_true_iff, bool_decide_eq_true,
    Z.eqb_eq, Z.ltb_ge, Z.leb_gt.
  split; [by intros (? & ? & ? & ? & ?) | by intros []].
Qed.

Lemma verify_hop_Ok par child :
  verify_hop par child = Ok tt ↔ hop par child ∧ bearer (body child) = bearer (body par).
Proof.
  unfold verify_hop. split.
  - intros Hv. inv_result.
    match goal with Hb : verify_body _ _ _ = Ok _ |- _ => apply verify_body_iff in Hb end.
    rewrite is_narrowing_iff in *. reflect_bool. split.
    + split; try done. exists x. subst. done.
    + destruct (bearer (body par)); simpl in *; [by reflect_bool |].
      by destruct (bearer (body child)).
  - intros [[(d & -> & Hid & Hd) Hs Hi Hn Hb Ha] Hbr]. simpl.
    apply verify_body_iff in Hs as ->. apply is_narrowing_iff in Hn as ->. simpl.
    rewrite Hi, Hid, !bool_decide_eq_true_2 by done. simpl.
    rewrite (proj2 (Z.ltb_ge _ _) Hb), (proj2 (Z.ltb_ge _ _) Ha). simpl.
    rewrite andb_false_r. simpl. rewrite Hbr, Hd. simpl.
    by destruct (bearer (body par)); simpl; rewrite Z.eqb_refl.
Qed.

Lemma verify_hops_Ok {E} (h : PortlTicket → PortlTicket → result E unit) par rest :
  verify_hops h par rest = Ok tt ↔ Sorted (λ a b, h a b = Ok tt) (par :: rest).
Proof.
  revert par. induction rest as [|c rest IH]; intros par; simpl.
  - split; [intros _; repeat constructor | done].
  - rewrite seq_Ok, IH. split.
    + intros [? ?]. constructor; [done | by constructor].
    + intros [Hs Hh]%Sorted_inv. by inversion Hh.
Qed.

Definition verified (terminal : PortlTicket) (chain : list PortlTicket) (roots : TrustRoots)
    (now : Z) : Prop :=
  let all := chain ++ [terminal] in
  ∃ root rest, all = root :: rest
    ∧ valid_chain all root roots
    ∧ Forall (ticket_in_force (addr_id (addr root)) now) all
    ∧ Sorted (λ a b, bearer (body b) = bearer (body a)) all.

Lemma snoc_cons {A} (l : list A) x : ∃ y k, l ++ [x] = y :: k.
Proof. destruct l; simpl; eauto. Qed.

Lemma sorted_and {A} (R S : relation A) l :
  Sorted (λ a b, R a b ∧ S a b) l ↔ Sorted R l ∧ Sorted S l.
Proof.
  split.
  - intros Hs. split; (eapply sorted_weaken; [|done]); by intros ?? [].
  - intros [HR HS]. induction HR as [|x l HR IH Hh]; constructor.
    + apply IH. by apply Sorted_inv in HS as [].
    + apply Sorted_inv in HS as [_ HS]. destruct Hh; inversion HS; by constructor.
Qed.

Lemma verify_chain_iff terminal chain roots now c :
  verify_chain terminal chain roots now = Ok c ↔
  verified terminal chain roots now ∧ c = caps (body terminal).
Proof.
  unfold verify_chain, verified. destruct (snoc_cons chain terminal) as (root & rest & Heq).
  rewrite Heq. cbv zeta. split.
  - destruct (for_each _ (root :: rest)) as [[]|] eqn:Hall; intros Hv; inv_result.
    subst. split; [|done]. exists root, rest. split; [done |].
    match goal with Hb : verify_body _ _ _ = Ok _ |- _ => apply verify_body_iff in Hb end.
    match goal with Hb : verify_hops _ _ _ = Ok _ |- _ =>
      apply verify_hops_Ok, (sorted_iff _ _ _ verify_hop_Ok), sorted_and in Hb as [Hh Hbr] end.
    split; [|split; [|done]].
    + split; try done; [by destruct (parent (body root)) | by reflect_bool |].
      reflect_bool. unfold MAX_DELEGATION_DEPTH in *. lia.
    + eapply Forall_impl; [exact Hall |]. intros t. apply check_chain_ticket_Ok.
  - intros [(? & ? & [= <- <-] & [Hp Ht Hs Hh Hl] & Hf & Hbr) ->].
    assert (for_each (check_chain_ticket (addr_id (addr root)) now) (root :: rest) = Ok tt) as ->.
    { apply for_each_Ok. eapply Forall_impl; [exact Hf |]. intros t. apply check_chain_ticket_Ok. }
    rewrite (proj2 (Z.leb_le _ _)) by (unfold MAX_DELEGATION_DEPTH; simpl in *; lia).
    simpl. rewrite Hp, bool_decide_eq_true_2 by done. simpl.
    apply verify_body_iff in Hs as ->. simpl.
    rewrite (proj2 (verify_hops_Ok verify_hop root rest)); [done |].
    by apply (sorted_iff _ _ _ verify_hop_Ok), sorted_and.
Qed.

(** *** Facts about a list of linked tickets *)

Lemma sorted_fold {A} (R : relation A) (P : A → Prop) x l :
  (∀ a b, R a b → P a → P b) → Sorted R (x :: l) → P x → Forall P (x :: l).
Proof.
  intros Hstep. revert x. induction l as [|y l IH]; intros x Hs Hx; [by repeat constructor |].
  apply Sorted_inv in Hs as [Hs Hh]. inversion Hh. constructor; [done |]. apply IH; eauto.
Qed.

(** All tickets carry the root's authority. *)
Lemma valid_chain_authority root rest tr :
  valid_chain (root :: rest) root tr →
  Forall (λ t, resolved_issuer t = resolved_issuer root
    ∧ signed_by (resolved_issuer root) (body t) (sig t)) (root :: rest).
Proof.
  intros [_ _ Hs Hh _]. eapply sorted_fold; [|done|done]. intros a b [] [<- _]. done.
Qed.

Lemma valid_chain_depth root rest tr i t :
  valid_chain (root :: rest) root tr → rest !! i = Some t →
  ∃ d, parent (body t) = Some d ∧ depth_remaining d = 7 - Z.of_nat i.
Proof.
  intros [Hr _ _ Hh _]. revert t. induction i as [|i IH]; intros t Ht.
  - destruct (sorted_lookup _ _ 0 root t Hh eq_refl Ht) as [(d & -> & _ & Hd) _ _ _ _ _].
    exists d. split; [done |]. unfold expected_depth in Hd. rewrite Hr in Hd. by injection Hd as <-.
  - destruct (lookup_lt_is_Some_2 rest i) as [u Hu].
    { apply lookup_lt_Some in Ht. lia. }
    destruct (IH u Hu) as (e & He & Hde).
    destruct (sorted_lookup _ (root :: rest) (S i) u t Hh Hu Ht) as [(d & -> & _ & Hd) _ _ _ _ _].
    exists d. split; [done |]. unfold expected_depth in Hd. rewrite He in Hd.
    apply ok_or_Ok, checked_sub_Some in Hd. lia.
Qed.

#[export] Instance window_preorder : PreOrder (λ a b : PortlTicket,
  not_before (body a) ≤ not_before (body b) ∧ not_after (body b) ≤ not_after (body a)).
Proof. split; [by intros x | intros x y z [] []; lia]. Qed.

#[export] Instance attenuates_on_preorder :
  PreOrder (λ a b : PortlTicket, attenuates (caps (body a)) (caps (body b))).
Proof. split; [by intros x | intros x y z ? ?; by etrans]. Qed.

(** Later tickets of a linked chain grant no more, and for no longer. *)
Lemma linked_attenuates chain terminal t :
  Sorted hop (chain ++ [terminal]) → t ∈ chain → attenuates (caps (body t)) (caps (body terminal)).
Proof.
  intros Hs Ht. pattern t, terminal. eapply (sorted_transitive_last _ chain); [|done].
  eapply sorted_weaken; [|done]. intros a b []. by apply narrowing_attenuates.
Qed.

Lemma linked_window chain terminal t :
  Sorted hop (chain ++ [terminal]) → t ∈ chain →
  not_before (body t) ≤ not_before (body terminal) ∧ not_after (body terminal) ≤ not_after (body t).
Proof.
  intros Hs Ht. pattern t, terminal. eapply (sorted_transitive_last _ chain); [|done].
  eapply sorted_weaken; [|done]. by intros a b [].
Qed.

(** *** Minting *)

Lemma issuer_for_resolved sk (t : PortlTicket) :
  issuer (body t) = issuer_for sk (addr t) → resolved_issuer t = verifying_key sk.
Proof. unfold resolved_issuer, issuer_for. intros ->. by case_decide. Qed.

Lemma issuer_for_canonical sk a : issuer_for sk a ≠ Some (addr_id a).
Proof. unfold issuer_for. case_decide; congruence. Qed.

Lemma fresh_nonce_nonzero draws n : fresh_nonce draws = Some n → n ≠ replicate 8 0.
Proof.
  unfold fresh_nonce. intros Hh%head_Some_elem_of. by apply list_elem_of_filter in Hh as [].
Qed.

Lemma fresh_nonce_total draws d : d ∈ draws → d ≠ replicate 8 0 → is_Some (fresh_nonce draws).
Proof.
  intros Hin Hd. unfold fresh_nonce.
  assert (d ∈ filter (λ d, d ≠ replicate 8 0) draws) as Hf by by apply list_elem_of_filter.
  destruct (filter _ _); [by apply not_elem_of_nil in Hf | done].
Qed.

Section laws.
Context `{!Ed25519Laws}.

Lemma sign_ticket_Ok sk a b t : sign_ticket sk a b = Ok t →
  v t = 1 ∧ addr t = a ∧ body t = b ∧ canonical_ticket t
  ∧ signed_by (verifying_key sk) (body t) (sig t).
Proof.
  unfold sign_ticket. intros Hs. inv_result. subst. simpl. split_and!; try done.
  - by apply canonical_check_ticket_iff.
  - by apply sign_body_verifies.
Qed.

Lemma sign_ticket_total sk a b :
  canonical_body b → target b = addr_id a → issuer b ≠ Some (addr_id a) → is_Some (to_stdvec b) →
  ∃ t, sign_ticket sk a b = Ok t.
Proof.
  intros Hb Ht Hi Hs. destruct (sign_body_total sk b Hb Hs) as [sg Hsg].
  unfold sign_ticket. rewrite Hsg. cbn [mbind result_bind]. eexists.
  rewrite (proj2 (canonical_check_ticket_iff _)); [done | by split].
Qed.

(** A signed parentless ticket is a chain of its own. *)
Lemma signed_root_verified (sk : SigningKey) (a : EndpointAddr) (b : PortlBody) (t : PortlTicket) (tr : TrustRoots) (now : Z) :
  sign_ticket sk a b = Ok t → parent b = None → issuer b = issuer_for sk a →
  verifying_key sk ∈ tr → not_before b ≤ saturating_add U64_MAX now 60 → now < not_after b →
  verify_chain t [] tr now = Ok (caps b).
Proof.
  intros (Hv & <- & <- & Hc & Hs)%sign_ticket_Ok Hp Hi Htr Hnb Hna.
  apply verify_chain_iff. split; [|done]. exists t, []. apply issuer_for_resolved in Hi.
  split_and!; [done | | by apply Forall_singleton | by repeat constructor].
  split; rewrite ?Hi; try done; [by repeat constructor | simpl; lia].
Qed.

Lemma verified_terminal terminal chain tr now :
  verified terminal chain tr now →
  ∃ root rest, chain ++ [terminal] = root :: rest
    ∧ ticket_in_force (addr_id (addr root)) now terminal.
Proof.
  intros (root & rest & Heq & _ & Hf & _). exists root, rest. split; [done |].
  rewrite Forall_forall in Hf. apply Hf. apply list_elem_of_In, in_or_app. right. by left.
Qed.

(** The depth counter leaves room for one more ticket below a linkable one. *)
Lemma hop_room root rest tr u t :
  valid_chain (root :: rest) root tr → last (root :: rest) = Some u → hop u t →
  (length rest ≤ 7)%nat.
Proof.
  intros Hvc Hl [(d & _ & _ & Hd) _ _ _ _ _]. destruct rest as [|x rest]; [simpl; lia |].
  rewrite last_cons_cons, last_lookup in Hl.
  destruct (valid_chain_depth _ _ _ _ _ Hvc Hl) as (e & He & Hde).
  unfold expected_depth in Hd. rewrite He in Hd. apply ok_or_Ok, checked_sub_Some in Hd.
  simpl in *. lia.
Qed.

(** A chain can be extended by any linked ticket that is in force. *)
Lemma verified_extend terminal chain tr now t :
  verified terminal chain tr now → hop terminal t → bearer (body t) = bearer (body terminal) →
  ticket_in_force (addr_id (addr terminal)) now t →
  verified t (chain ++ [terminal]) tr now.
Proof.
  intros Hver Hhop Hbr Ht. pose proof (verified_terminal _ _ _ _ Hver) as (root & rest & Heq & Htf).
  destruct Hver as (? & ? & Heq' & Hvc & Hf & Hbrs). rewrite Heq in Heq'. injection Heq' as <- <-.
  unfold verified. cbv zeta. exists root, (rest ++ [t]). rewrite (tf_target _ _ _ Htf) in Ht.
  split_and!; [by rewrite Heq | | by apply Forall_app; split; [|constructor] | by apply sorted_snoc].
  pose proof Hvc as [? ? ? Hh Hl]. split; try done; [by apply sorted_snoc |].
  rewrite Heq in Hvc. assert (length rest ≤ 7)%nat.
  { eapply hop_room; [done | | done]. by rewrite <- Heq, last_snoc. }
  rewrite length_app, Heq. simpl. lia.
Qed.

(** What a successful [mint_delegated] has checked and built. *)
Lemma mint_delegated_Ok sk p c nb na holder draws t :
  mint_delegated sk p c nb na holder draws = Some (Ok t) →
  v t = 1 ∧ addr t = addr p ∧ caps (body t) = c ∧ not_before (body t) = nb ∧ not_after (body t) = na
  ∧ bearer (body t) = None ∧ resolved_issuer t = verifying_key sk ∧ canonical_ticket t
  ∧ (verifying_key sk = resolved_issuer p → hop p t).
Proof.
  unfold mint_delegated. intros Hm.
  destruct (_;; _) as [depth|] eqn:Hpre; [|done].
  destruct (fresh_nonce draws) as [n|]; [|done]. injection Hm as Hm.
  apply sign_ticket_Ok in Hm as (Hv & Ha & Hb & Hc & Hs). inv_result. reflect_bool.
  assert (resolved_issuer t = verifying_key sk) as Hi
    by (apply issuer_for_resolved; by rewrite Ha, Hb).
  rewrite !Hb in *. simpl in *. split_and!; try done. intros Hk. split; rewrite ?Hb, <- ?Hk; try done.
  - eexists. split_and!; [done | done |]. unfold expected_depth. simpl.
    destruct (parent (body p)); [by inv_result; subst; match goal with E : checked_sub _ _ = _ |- _ => rewrite E end | done].
  - by apply is_narrowing_iff.
Qed.

Lemma mint_delegated_verified sk p c nb na holder draws t chain tr now :
  mint_delegated sk p c nb na holder draws = Some (Ok t) → verified p chain tr now →
  verifying_key sk = resolved_issuer p → bearer (body p) = None →
  nb ≤ saturating_add U64_MAX now 60 → now < na →
  verified t (chain ++ [p]) tr now.
Proof.
  intros (Hv & Ha & _ & Hnb & Hna & Hbr & _ & Hc & Hhop)%mint_delegated_Ok Hp Hk Hpb Hb Hn.
  apply verified_extend; [done | by apply Hhop | congruence |].
  split; [done | done | by rewrite Ha | lia | lia].
Qed.


End laws.
End chain.

(** A root ticket, a ticket delegated from it, and a master ticket, in the sample
    instance. *)
Module Demo.
Import Params.

Definition trusted : TrustRoots := {[verifying_key root_key]}.

Definition ticket_of (m : option (result PortlError PortlTicket)) : option PortlTicket :=
  match m with Some (Ok t) => Some t | _ => None end.

Definition dummy : PortlTicket := {|
  v := 0; addr := machine; sig := [];
  body := {| caps := narrow_caps; target := []; alpns_extra := []; not_before := 0; not_after := 0;
             issuer := None; parent := None; nonce := []; bearer := None; to := None |} |}.

Definition root : PortlTicket :=
  default dummy (ticket_of (mint_root root_key machine wide_caps 100 200 None [nonce1])).
Definition child : PortlTicket :=
  default dummy (ticket_of (mint_delegated root_key root narrow_caps 110 190 None [nonce1])).
Definition master : PortlTicket :=
  default dummy (ticket_of (mint_master root_key machine wide_caps [5] 50 [3]
    (Some 100) [nonce1])).
Definition master_child : PortlTicket :=
  default dummy (ticket_of (mint_delegated root_key master narrow_caps 110 140 None [nonce1])).
End Demo.

(** ** Properties *)

Section properties.
Context `{Iroh, Sha256, Ed25519, !Postcard PortlBody}.

(** C3: if [verify_chain] accepts, it returns the terminal ticket's capabilities, and
    one trusted root key has signed every ticket of the chain; every ticket is
    canonical, version 1, bound to the same endpoint, inside its validity window
    (with the 60 s skew on the start), and carries the same bearer. *)
Theorem verify_chain_authority terminal chain tr now c :
  verify_chain terminal chain tr now = Ok c →
  c = caps (body terminal) ∧ ∃ k, k ∈ tr ∧ ∀ t, t ∈ chain ++ [terminal] →
    resolved_issuer t = k ∧ signed_by k (body t) (sig t)
    ∧ ticket_in_force (addr_id (addr terminal)) now t ∧ bearer (body t) = bearer (body terminal).
Proof.
  intros [Hver ->]%verify_chain_iff. split; [done |].
  pose proof (verified_terminal _ _ _ _ Hver) as (root & rest & Heq & Htf).
  destruct Hver as (? & ? & Heq' & Hvc & Hf & Hbr). rewrite Heq in Heq'. injection Heq' as <- <-.
  exists (resolved_issuer root). split; [by apply Hvc |].
  rewrite Heq in Hvc, Hf, Hbr. apply valid_chain_authority in Hvc. rewrite Forall_forall in Hvc, Hf.
  rewrite (tf_target _ _ _ Htf). rewrite Heq. intros t Ht.
  pose proof (sorted_fold _ (λ t, bearer (body t) = bearer (body root)) _ _
    (λ a b Hab Ha, eq_trans Hab Ha) Hbr eq_refl) as Hbs. rewrite Forall_forall in Hbs.
  rewrite (Hbs t Ht), (Hbs terminal); [by split_and!; try apply Hvc; try apply Hf |].
  rewrite <- Heq. apply elem_of_app. right. by left.
Qed.

(** C4: a verified chain only attenuates: whatever shell, TCP connect, UDP or Unix-socket
    request the returned capabilities permit, the capabilities of every ancestor
    permit too, as they do a TCP listener on a loopback name and, for an ancestor without a rule for
    any host, on every host (for other listeners it is false: [listen_wildcard_widens]); and the
    terminal window lies inside every ancestor's window. *)
Theorem verify_chain_attenuates terminal chain tr now c t :
  verify_chain terminal chain tr now = Ok c → t ∈ chain →
  attenuates (caps (body t)) c
  ∧ not_before (body t) ≤ not_before (body terminal)
  ∧ not_after (body terminal) ≤ not_after (body t).
Proof.
  intros [(? & ? & _ & [] & _) ->]%verify_chain_iff Ht.
  split; [by eapply linked_attenuates | by eapply linked_window].
Qed.

(** In a verified chain the depth counter is determined by the position: the
    root has no parent, the ticket at position [i] has exactly [8 - i] delegations
    left and names its predecessor by the hash of that ticket's signature; so at most
    eight delegations are possible. *)
Theorem verify_chain_depth terminal chain tr now c :
  verify_chain terminal chain tr now = Ok c →
  (length chain ≤ 8)%nat
  ∧ (∀ t, (chain ++ [terminal]) !! 0%nat = Some t → parent (body t) = None)
  ∧ ∀ i par t, (chain ++ [terminal]) !! i = Some par → (chain ++ [terminal]) !! S i = Some t →
      parent (body t) = Some {| parent_ticket_id_field := parent_ticket_id (sig par);
                                depth_remaining := MAX_DELEGATION_DEPTH - Z.of_nat (S i) |}.
Proof.
  intros [(root & rest & Heq & Hvc & _) _]%verify_chain_iff. rewrite Heq in *. split_and!.
  - destruct Hvc as [_ _ _ _ Hl]. rewrite <- Heq, length_app in Hl. simpl in Hl. lia.
  - intros t [= <-]. by destruct Hvc.
  - intros i par t Hp Ht. destruct (valid_chain_depth _ _ _ i t Hvc Ht) as (d & Hd & Hdr).
    destruct (sorted_lookup _ _ _ _ _ (vc_hops _ _ _ Hvc) Hp Ht) as [(d' & Hd' & Hid & _) _ _ _ _ _].
    rewrite Hd in Hd'. injection Hd' as <-. rewrite Hd. destruct d as [pid dr]; simpl in *. subst.
    f_equal. f_equal. unfold MAX_DELEGATION_DEPTH. lia.
Qed.

Section mint_properties.
Context `{!Ed25519Laws}.

(** Minting a root ticket succeeds for canonical capabilities, a window of at most
    one year and a serialisable body as soon as one nonce draw is non-zero, and the
    ticket verifies, alone, against any trust set that holds the minting key, at every
    instant of its window, returning the capabilities it was minted with. *)
Theorem mint_root_verifies sk a c nb na holder draws d :
  canonical_caps c → nb < na ≤ nb + MAX_TTL_SECONDS → d ∈ draws → d ≠ replicate 8 0 →
  (∀ b, caps b = c → is_Some (to_stdvec b)) →
  ∃ t, mint_root sk a c nb na holder draws = Some (Ok t) ∧ to (body t) = holder
    ∧ ∀ (tr : TrustRoots) now, verifying_key sk ∈ tr → nb ≤ saturating_add U64_MAX now 60 →
        now < na → verify_chain t [] tr now = Ok c.
Proof.
  intros Hc Hw Hd Hnz Hser. destruct (fresh_nonce_total draws d Hd Hnz) as [n Hn].
  unfold mint_root. rewrite Hn. simpl.
  set (b := {| caps := c; issuer := issuer_for sk a |}).
  destruct (sign_ticket_total sk a b) as [t Ht].
  - split; try done. by eapply fresh_nonce_nonzero.
  - done.
  - apply issuer_for_canonical.
  - by apply Hser.
  - exists t. rewrite Ht. split_and!; [done | |].
    + by apply sign_ticket_Ok in Ht as (_ & _ & -> & _).
    + intros. by apply (signed_root_verified sk a b).
Qed.

(** A ticket delegated from a bearer-less ticket with the key that authorised it
    extends the chain: wherever the parent verifies, the child verifies below it and
    yields the delegated capabilities; in particular minting refuses the ninth
    delegation by itself. *)
Theorem mint_delegated_verifies sk p c nb na holder draws t chain tr now pc :
  verify_chain p chain tr now = Ok pc →
  mint_delegated sk p c nb na holder draws = Some (Ok t) →
  verifying_key sk = resolved_issuer p → bearer (body p) = None →
  nb ≤ saturating_add U64_MAX now 60 → now < na →
  verify_chain t (chain ++ [p]) tr now = Ok c.
Proof.
  intros [Hp _]%verify_chain_iff Hm Hk Hb Hnb Hna. apply verify_chain_iff. split.
  - by eapply mint_delegated_verified.
  - by apply mint_delegated_Ok in Hm as (_ & _ & -> & _).
Qed.

(** Delegating from a ticket that carries a bearer (a master ticket) mints a
    ticket that no chain through that parent ever verifies, since [mint_delegated]
    always clears the bearer and [verify_chain] requires it to be inherited. *)
Theorem mint_delegated_drops_bearer sk p c nb na holder draws t chain tr now :
  mint_delegated sk p c nb na holder draws = Some (Ok t) → is_Some (bearer (body p)) →
  is_ok (verify_chain t (chain ++ [p]) tr now) = false.
Proof.
  intros (_ & _ & _ & _ & _ & Hb & _)%mint_delegated_Ok [br Hbr].
  destruct (verify_chain _ _ _ _) as [c'|] eqn:Hv; [|done]. exfalso.
  apply verify_chain_iff in Hv as [(? & ? & _ & _ & _ & Hs) _].
  rewrite <- app_assoc in Hs. simpl in Hs.
  assert (bearer (body t) = bearer (body p)); [|congruence].
  apply (sorted_lookup _ _ (length chain) p t Hs); (rewrite lookup_app_r by lia).
  - by rewrite Nat.sub_diag.
  - by rewrite Nat.sub_succ_l, Nat.sub_diag by lia.
Qed.

(** A master ticket is a parentless ticket bound to a holder and carrying the
    non-empty bearer it was minted with; it lives at most 30 days from the minting
    clock, and verifies alone during that time under a trusted minting key. *)
Theorem mint_master_bounded sk a c br ttl holder now draws t :
  mint_master sk a c br ttl holder (Some now) draws = Some (Ok t) → 0 ≤ ttl →
  extract_bearer t = Some br ∧ br ≠ [] ∧ to (body t) = Some holder ∧ parent (body t) = None
  ∧ not_before (body t) = now ∧ now < not_after (body t) ≤ now + 30 * 86400
  ∧ not_after (body t) ≤ U64_MAX
  ∧ ∀ (tr : TrustRoots) now', verifying_key sk ∈ tr → now ≤ now' < not_after (body t) →
      0 ≤ now → verify_chain t [] tr now' = Ok c.
Proof.
  unfold mint_master. intros Hm Httl. destruct (_;; _) as [[now' na]|] eqn:Hpre; [|done].
  destruct (fresh_nonce draws) as [n|]; [|done]. injection Hm as Hm. inv_result. subst. reflect_bool.
  pose proof (sign_ticket_Ok _ _ _ _ Hm) as (_ & _ & Hb & _ & _). simpl in *.
  unfold extract_bearer, MAX_MASTER_TTL_SECS, saturating_add in *. rewrite Hb. simpl.
  match goal with E : checked_add _ _ _ = _ |- _ => apply checked_add_Some in E as [-> ?] end.
  simplify_eq. split_and!; try done; try lia. intros tr u Htr Hu Hn.
  apply (signed_root_verified _ _ _ _ tr u Hm); try done; simpl; [|lia].
  unfold saturating_add, U64_MAX in *. lia.
Qed.

(** The holder a ticket is bound to, and no one without a proof, passes the
    proof-of-possession check: the holder's own signature over ticket id and client
    nonce is accepted, a missing proof is refused, and an unbound ticket accepts
    exactly the absence of a proof. *)
Theorem ticket_proof_roundtrip sk t client_nonce :
  (to (body t) = Some (verifying_key sk) →
   validate_ticket_proof t client_nonce
     (Some (compute_pop_sig sk (ticket_id (sig t)) client_nonce)) = Ok tt)
  ∧ (is_Some (to (body t)) → is_ok (validate_ticket_proof t client_nonce None) = false)
  ∧ (to (body t) = None → ∀ proof,
      validate_ticket_proof t client_nonce proof = Ok tt ↔ proof = None).
Proof.
  unfold validate_ticket_proof. split_and!.
  - intros ->. unfold verify_pop, compute_pop_sig. rewrite own_key_valid. simpl.
    by rewrite own_signature_valid.
  - by intros [h ->].
  - intros -> [p|]; simpl; naive_solver.
Qed.
End mint_properties.

End properties.

(** ** Witnesses *)

Section witnesses.
Import Params Demo.

Lemma verify_chain_authority_witness :
  verify_chain child [root] trusted 150 = Ok narrow_caps
  ∧ ∃ k, k ∈ trusted ∧ ∀ t, t ∈ [root] ++ [child] →
      resolved_issuer t = k ∧ signed_by k (body t) (sig t)
      ∧ ticket_in_force (addr_id (addr child)) 150 t ∧ bearer (body t) = bearer (body child).
Proof.
  assert (verify_chain child [root] trusted 150 = Ok narrow_caps) as Hv by (vm_compute; reflexivity).
  exact (conj Hv (proj2 (verify_chain_authority child [root] trusted 150 narrow_caps Hv))).
Defined.

Lemma verify_chain_attenuates_witness : attenuates (caps (body root)) narrow_caps.
Proof.
  refine (proj1 (verify_chain_attenuates child [root] trusted 150 narrow_caps root _ _)).
  - vm_compute. reflexivity.
  - by left.
Defined.

Lemma verify_chain_depth_witness :
  parent (body child) = Some {| parent_ticket_id_field := parent_ticket_id (sig root);
                                depth_remaining := 7 |}.
Proof.
  refine (proj2 (proj2 (verify_chain_depth child [root] trusted 150 narrow_caps _)) 0%nat root child _ _).
  - vm_compute. reflexivity.
  - reflexivity.
  - reflexivity.
Defined.

Lemma mint_root_verifies_witness :
  ∃ t, mint_root root_key machine wide_caps 100 200 None [nonce1] = Some (Ok t)
    ∧ verify_chain t [] trusted 150 = Ok wide_caps.
Proof.
  destruct (mint_root_verifies root_key machine wide_caps 100 200 None [nonce1] nonce1)
    as (t & Ht & _ & Hv).
  - split; simpl; try discriminate.
    + by apply check_presence_Ok.
    + intros l [= <-]. by repeat constructor.
    + intros s [= <-]. by split.
  - unfold MAX_TTL_SECONDS. lia.
  - by left.
  - discriminate.
  - intros b _. by eexists.
  - exists t. split; [exact Ht |]. apply Hv; [by apply (bool_decide_unpack _) | vm_compute; discriminate | lia].
Defined.

Lemma mint_delegated_verifies_witness :
  verify_chain child [root] trusted 150 = Ok narrow_caps.
Proof.
  apply (mint_delegated_verifies root_key root narrow_caps 110 190 None [nonce1] child [] trusted 150
    wide_caps); try (vm_compute; reflexivity).
  vm_compute. discriminate.
Defined.

Lemma mint_delegated_drops_bearer_witness :
  mint_delegated root_key master narrow_caps 110 140 None [nonce1] = Some (Ok master_child)
  ∧ is_ok (verify_chain master [] trusted 120) = true
  ∧ is_ok (verify_chain master_child [master] trusted 120) = false.
Proof.
  split_and!; [vm_compute; reflexivity | vm_compute; reflexivity |].
  apply (mint_delegated_drops_bearer root_key master narrow_caps 110 140 None [nonce1] master_child []).
  - vm_compute. reflexivity.
  - by eexists.
Defined.

Lemma mint_master_bounded_witness :
  extract_bearer master = Some [5] ∧ verify_chain master [] trusted 120 = Ok wide_caps.
Proof.
  destruct (mint_master_bounded root_key machine wide_caps [5] 50 [3] 100 [nonce1] master)
    as (Hb & _ & _ & _ & _ & _ & _ & Hv).
  - vm_compute. reflexivity.
  - lia.
  - split; [exact Hb |]. apply Hv; [by apply (bool_decide_unpack _) | vm_compute; split; [discriminate | reflexivity] | lia].
Defined.

Lemma ticket_proof_roundtrip_witness :
  validate_ticket_proof master [1] (Some (compute_pop_sig holder_key (ticket_id (sig master)) [1])) = Ok tt.
Proof. apply (proj1 (ticket_proof_roundtrip holder_key master [1])). vm_compute. reflexivity. Defined.
End witnesses.
