(* ===== verification/Revocations.v ===== *)
(** * The revocation set

    crates/portl-agent/src/revocations.rs: the in-memory set with its JSONL file, the
    live sessions it cancels, and garbage collection.  [World] is what the operations
    touch outside the struct: the file and the cancellation tokens that have fired
    (tokens are shared with the sessions).  File-system calls succeed or fail as the
    argument [io] says; a failed [write_jsonl] leaves the file alone, since the data
    goes to a sibling file that is renamed.  The hex and serde_json crates are
    parameters. *)

From S2P Require Import Prelude.

(** ** Parameters *)

Class Hex := { hex_encode : bytes → string; hex_decode : string → option bytes }.

Class HexLaws `{Hex} : Prop := {
  hex_roundtrip bs : Forall u8_range bs → hex_decode (hex_encode bs) = Some bs;
}.

(** [serde_json::to_string] and [serde_json::from_str] at type [A]. *)
Class Json (A : Type) := { to_json : A → option string; from_json : string → option A }.

(** Compact JSON is one non-blank line without surrounding white space. *)
Class JsonLaws (A : Type) `{Json A} : Prop := {
  json_roundtrip a s : to_json a = Some s → from_json s = Some a;
  json_one_line a s :
    to_json a = Some s → str_contains_byte 10 s = false ∧ str_contains_byte 13 s = false;
  json_trimmed a s : to_json a = Some s → trim s = s ∧ s ≠ "";
}.

Module Rev.

(** ** Data *)

Definition REVOCATION_LINGER_SECS : Z := 7 * 86400.
Definition DEFAULT_REVOCATIONS_MAX_BYTES : Z := 10 * 1024 * 1024.

Record RevocationRecord := {
  rr_ticket_id : string;
  rr_reason : string;
  rr_revoked_at : option Z;
  rr_not_after_of_ticket : option Z;
}.

#[export] Instance RevocationRecord_eq_dec : EqDecision RevocationRecord.
Proof. solve_decision. Defined.

(** Session id to cancellation token, per ticket id. *)
Record RevocationSet := {
  ids : gset bytes;
  records : list RevocationRecord;
  live_sessions : gmap bytes (gmap bytes Z);
  max_bytes : Z;
}.

Record World := { file : option string; cancelled : gset Z }.

Inductive AppendError :=
  | SizeCeilingExceeded (current_bytes append_bytes ceiling : Z)
  | InvalidRecord (message : string)
  | AppendIo.

Definition with_records (s : RevocationSet) (i : gset bytes) (r : list RevocationRecord) : RevocationSet :=
  {| ids := i; records := r; live_sessions := live_sessions s; max_bytes := max_bytes s |}.
Definition with_live (s : RevocationSet) (l : gmap bytes (gmap bytes Z)) : RevocationSet :=
  {| ids := ids s; records := records s; live_sessions := l; max_bytes := max_bytes s |}.

(** ** [str::lines] *)

Definition newline : string := String (Ascii.ascii_of_nat 10) "".
Definition carriage_return : string := String (Ascii.ascii_of_nat 13) "".

Definition strip_cr (l : string) : string := default l (strip_suffix carriage_return l).

(** The segments between newlines; a final empty one is not a line. *)
Fixpoint lines_of (segs : list string) : list string :=
  match segs with
  | [] => []
  | [l] => if decide (l = "") then [] else [l]
  | l :: rest => strip_cr l :: lines_of rest
  end.

Definition str_lines (raw : string) : list string := lines_of (str_split 10 raw).

Section revocations.
Context `{Hex, !Json RevocationRecord}.

(** ** Records *)

Definition decode_ticket_id (hex_id : string) : result string bytes :=
  bs ← ok_or (hex_decode hex_id) ("decode ticket id " +:+ hex_id);
  ensure (Z.of_nat (length bs) =? 16) ("ticket id must be exactly 16 bytes: " +:+ hex_id);;
  Ok bs.

Definition ticket_id_bytes (r : RevocationRecord) : result string bytes :=
  decode_ticket_id (rr_ticket_id r).

Definition record_new (tid : bytes) (reason : string) (revoked_at : Z) (not_after : option Z) :
    RevocationRecord :=
  {| rr_ticket_id := hex_encode tid; rr_reason := reason; rr_revoked_at := Some revoked_at;
     rr_not_after_of_ticket := not_after |}.

(** [ticket_id_bytes().ok()] *)
Definition id_of (r : RevocationRecord) : option bytes :=
  match ticket_id_bytes r with Ok i => Some i | Err _ => None end.

Definition encoded_record_len (r : RevocationRecord) : result AppendError Z :=
  encoded ← ok_or (to_json r) AppendIo;
  Ok (Z.min U64_MAX (Z.of_nat (String.length encoded + 1))).

(** ** The file *)

Fixpoint encode_jsonl (l : list RevocationRecord) : option string :=
  match l with
  | [] => Some ""
  | r :: rest =>
      encoded ← to_json r;
      tail ← encode_jsonl rest;
      Some (encoded +:+ newline +:+ tail)
  end.

Definition write_jsonl (io : bool) (l : list RevocationRecord) (w : World) : option World :=
  encoded ← encode_jsonl l;
  if io then Some {| file := Some encoded; cancelled := cancelled w |} else None.

Definition persist (io : bool) (s : RevocationSet) (w : World) : option World :=
  write_jsonl io (records s) w.

Fixpoint parse_lines (ls : list string) : option (list RevocationRecord) :=
  match ls with
  | [] => Some []
  | line :: rest =>
      let trimmed := trim line in
      if decide (trimmed = "") then parse_lines rest
      else r ← from_json trimmed; rs ← parse_lines rest; Some (r :: rs)
  end.

Definition parse_revocation_records (raw : string) : option (list RevocationRecord) :=
  parse_lines (str_lines raw).

(** [fs::metadata(path).map_or(0, |m| m.len())] *)
Definition file_len (w : World) : Z :=
  match file w with Some c => Z.of_nat (String.length c) | None => 0 end.

Definition append_record_limited (io : bool) (r : RevocationRecord) (ceiling : Z) (w : World) :
    result AppendError World :=
  json ← ok_or (to_json r) AppendIo;
  let encoded := json +:+ newline in
  let current_bytes := file_len w in
  let append_bytes := Z.min U64_MAX (Z.of_nat (String.length encoded)) in
  ensure (negb (ceiling <? saturating_add U64_MAX current_bytes append_bytes))
    (SizeCeilingExceeded current_bytes append_bytes ceiling);;
  ensure io AppendIo;;
  Ok {| file := Some (default "" (file w) +:+ encoded); cancelled := cancelled w |}.

(** ** Live sessions *)

Definition cancel_live_sessions (s : RevocationSet) (tid : bytes) (w : World) : World :=
  match live_sessions s !! tid with
  | Some sessions =>
      {| file := file w; cancelled := list_to_set (map_to_list sessions).*2 ∪ cancelled w |}
  | None => w
  end.

Definition cancel_all (s : RevocationSet) (tids : list bytes) (w : World) : World :=
  foldl (λ w tid, cancel_live_sessions s tid w) w tids.

Definition register_one (session_id : bytes) (token : Z)
    (live : gmap bytes (gmap bytes Z)) (tid : bytes) : gmap bytes (gmap bytes Z) :=
  <[tid := <[session_id := token]> (default ∅ (live !! tid))]> live.

Definition register_live_session (s : RevocationSet) (session_id : bytes) (chain_ids : list bytes)
    (token : Z) : RevocationSet :=
  with_live s (foldl (register_one session_id token) (live_sessions s)
    (elements (list_to_set chain_ids : gset bytes))).

Definition deregister_one (session_id : bytes) (live : gmap bytes (gmap bytes Z)) (tid : bytes) :
    gmap bytes (gmap bytes Z) :=
  match live !! tid with
  | Some sessions =>
      let sessions := delete session_id sessions in
      if decide (sessions = ∅) then delete tid live else <[tid := sessions]> live
  | None => live
  end.

Definition deregister_live_session (s : RevocationSet) (session_id : bytes) (chain_ids : list bytes) :
    RevocationSet :=
  with_live s (foldl (deregister_one session_id) (live_sessions s)
    (elements (list_to_set chain_ids : gset bytes))).

(** ** The set *)

Definition contains (s : RevocationSet) (tid : bytes) : bool := bool_decide (tid ∈ ids s).

Definition insert_record (s : RevocationSet) (r : RevocationRecord) (w : World) :
    bool * RevocationSet * World :=
  match ticket_id_bytes r with
  | Err _ => (false, s, w)
  | Ok tid =>
      if decide (tid ∈ ids s) then (false, s, w)
      else (true, with_records s ({[tid]} ∪ ids s) (records s ++ [r]), cancel_live_sessions s tid w)
  end.

Definition insert (s : RevocationSet) (tid : bytes) (w : World) : bool * RevocationSet * World :=
  if decide (tid ∈ ids s) then (false, s, w)
  else
    let r := {| rr_ticket_id := hex_encode tid; rr_reason := "manual"; rr_revoked_at := None;
                rr_not_after_of_ticket := None |} in
    (true, with_records s ({[tid]} ∪ ids s) (records s ++ [r]), cancel_live_sessions s tid w).

(** The loop of [append_batch_atomic]: the ids after the batch, the bytes it adds, the
    records and the ids that are new. *)
Fixpoint collect_batch (rs : list RevocationRecord) (new_ids : gset bytes) (append_bytes : Z) :
    result AppendError (gset bytes * Z * list RevocationRecord * list bytes) :=
  match rs with
  | [] => Ok (new_ids, append_bytes, [], [])
  | r :: rest =>
      tid ← map_err InvalidRecord (ticket_id_bytes r);
      if decide (tid ∈ new_ids) then collect_batch rest new_ids append_bytes
      else
        len ← encoded_record_len r;
        '(i, b, pending, pending_ids) ←
          collect_batch rest ({[tid]} ∪ new_ids) (saturating_add U64_MAX append_bytes len);
        Ok (i, b, r :: pending, tid :: pending_ids)
  end.

Definition append_batch_atomic (io : bool) (s : RevocationSet) (rs : list RevocationRecord)
    (w : World) : result AppendError Z * RevocationSet * World :=
  if decide (rs = []) then (Ok 0, s, w)
  else
    let current_bytes := file_len w in
    match collect_batch rs (ids s) 0 with
    | Err e => (Err e, s, w)
    | Ok (new_ids, append_bytes, pending, pending_ids) =>
        if decide (pending = []) then (Ok 0, s, w)
        else if max_bytes s <? saturating_add U64_MAX current_bytes append_bytes
        then (Err (SizeCeilingExceeded current_bytes append_bytes (max_bytes s)), s, w)
        else
          let updated := records s ++ pending in
          match write_jsonl io updated w with
          | None => (Err AppendIo, s, w)
          | Some w' =>
              let s' := with_records s new_ids updated in
              (Ok (Z.of_nat (length pending)), s', cancel_all s' pending_ids w')
          end
    end.

Definition append (io : bool) (s : RevocationSet) (r : RevocationRecord) (w : World) :
    result AppendError bool * RevocationSet * World :=
  match map_err InvalidRecord (ticket_id_bytes r) with
  | Err e => (Err e, s, w)
  | Ok tid =>
      if decide (tid ∈ ids s) then (Ok false, s, w)
      else match append_batch_atomic io s [r] w with
           | (Ok _, s', w') => (Ok true, s', w')
           | (Err e, s', w') => (Err e, s', w')
           end
  end.

(** ** Garbage collection

    The addition is the release build's, which wraps at 64 bits. *)
Definition gc_keeps (now : Z) (r : RevocationRecord) : bool :=
  let linger_ok := match rr_revoked_at r with
                   | None => true
                   | Some revoked_at => now <? wrapping 64 (revoked_at + REVOCATION_LINGER_SECS)
                   end in
  let ticket_still_valid := match rr_not_after_of_ticket r with
                            | Some not_after => now <? not_after
                            | None => false
                            end in
  linger_ok || ticket_still_valid.

Definition ids_of (l : list RevocationRecord) : gset bytes := list_to_set (omap id_of l).

Definition gc (s : RevocationSet) (now : Z) : Z * RevocationSet :=
  let kept := List.filter (gc_keeps now) (records s) in
  (Z.of_nat (length (records s) - length kept), with_records s (ids_of kept) kept).

(** [records.iter().map(ticket_id_bytes).collect::<Result<HashSet<_>>>()] *)
Definition collect_ids (l : list RevocationRecord) : option (gset bytes) :=
  match try_map ticket_id_bytes l with Ok l' => Some (list_to_set l') | Err _ => None end.

(** Both [None] of the clock and any failing step abort with an error. *)
Definition load_with_max_bytes (io : bool) (clock : option Z) (ceiling : Z) (w : World) :
    option (RevocationSet * World) :=
  now ← clock;
  rs ← match file w with
       | Some raw => if io then parse_revocation_records raw else None
       | None => Some []
       end;
  i ← collect_ids rs;
  let '(removed, s) := gc {| ids := i; records := rs; live_sessions := ∅; max_bytes := ceiling |} now in
  if 0 <? removed then w' ← persist io s w; Some (s, w') else Some (s, w).

Definition sync_from_disk (io : bool) (clock : option Z) (s : RevocationSet) (w : World) :
    option (Z * RevocationSet * World) :=
  _ ← clock;
  match file w with
  | None => Some (0, s, w)
  | Some raw =>
      rs ← (if io then parse_revocation_records raw else None);
      i ← collect_ids rs;
      let added := elements (i ∖ ids s) in
      let s' := with_records s i rs in
      Some (Z.of_nat (length added), s', cancel_all s' added w)
  end.

(** ** Invariants *)

(** The id set is the set of ids of the records, all of which decode. *)
Record coherent (s : RevocationSet) : Prop := {
  coh_ids : ids s = ids_of (records s);
  coh_decode : Forall (λ r, is_Some (id_of r)) (records s);
}.

(** Every session registered under a revoked id has been signalled. *)
Definition signalled (s : RevocationSet) (w : World) : Prop :=
  ∀ tid sessions sid tok,
    tid ∈ ids s → live_sessions s !! tid = Some sessions → sessions !! sid = Some tok →
    tok ∈ cancelled w.

Definition valid_id (tid : bytes) : Prop := length tid = 16%nat ∧ Forall u8_range tid.

Lemma id_of_Some r tid : id_of r = Some tid ↔ ticket_id_bytes r = Ok tid.
Proof. unfold id_of. destruct (ticket_id_bytes r); naive_solver. Qed.

Lemma ids_of_app l k : ids_of (l ++ k) = ids_of l ∪ ids_of k.
Proof. unfold ids_of. by rewrite omap_app, list_to_set_app_L. Qed.

Lemma ids_of_one r tid : id_of r = Some tid → ids_of [r] = {[tid]}.
Proof. intros Hr. unfold ids_of. simpl. rewrite Hr. set_solver. Qed.

Lemma elem_of_ids_of tid l : tid ∈ ids_of l ↔ ∃ r, r ∈ l ∧ id_of r = Some tid.
Proof. unfold ids_of. rewrite elem_of_list_to_set, list_elem_of_omap. naive_solver. Qed.

Lemma coherent_snoc s r tid : coherent s → id_of r = Some tid →
  coherent (with_records s ({[tid]} ∪ ids s) (records s ++ [r])).
Proof.
  intros [Hi Hd] Hr. split; simpl.
  - rewrite ids_of_app, (ids_of_one r tid Hr), Hi. set_solver.
  - apply Forall_app. split; [done |]. by apply Forall_singleton.
Qed.

Lemma decode_encoded_id `{!HexLaws} tid : valid_id tid → decode_ticket_id (hex_encode tid) = Ok tid.
Proof.
  intros [Hl Hr]. unfold decode_ticket_id. rewrite hex_roundtrip by done. simpl. by rewrite Hl.
Qed.

(** *** Cancellation *)

Lemma cancel_one_mono s tid w : cancelled w ⊆ cancelled (cancel_live_sessions s tid w).
Proof. unfold cancel_live_sessions. destruct (live_sessions s !! tid); simpl; set_solver. Qed.

Lemma cancel_one_hits s tid w sessions sid tok :
  live_sessions s !! tid = Some sessions → sessions !! sid = Some tok →
  tok ∈ cancelled (cancel_live_sessions s tid w).
Proof.
  intros Hs Ht. unfold cancel_live_sessions. rewrite Hs. simpl. apply elem_of_union_l.
  apply elem_of_list_to_set, list_elem_of_fmap. exists (sid, tok). split; [done |].
  by apply elem_of_map_to_list.
Qed.

Lemma cancel_all_mono s tids w : cancelled w ⊆ cancelled (cancel_all s tids w).
Proof.
  revert w. induction tids as [|t tids IH]; intros w; simpl; [done |].
  etrans; [apply (cancel_one_mono s t) | apply IH].
Qed.

Lemma cancel_all_hits s tids w tid sessions sid tok :
  tid ∈ tids → live_sessions s !! tid = Some sessions → sessions !! sid = Some tok →
  tok ∈ cancelled (cancel_all s tids w).
Proof.
  intros Hin Hs Ht. revert w. induction tids as [|t tids IH]; intros w; simpl; [set_solver |].
  apply elem_of_cons in Hin as [<-|Hin]; [|by apply IH].
  apply cancel_all_mono. by eapply cancel_one_hits.
Qed.

Lemma cancel_all_file s tids w : file (cancel_all s tids w) = file w.
Proof.
  revert w. induction tids as [|t tids IH]; intros w; simpl; [done |]. rewrite IH.
  unfold cancel_live_sessions. by destruct (live_sessions s !! t).
Qed.

(** Extending the ids and cancelling exactly the new ones keeps every revoked session
    signalled. *)
Lemma signalled_extend s s' w w' tids :
  signalled s w → live_sessions s' = live_sessions s → cancelled w ⊆ cancelled w' →
  (∀ tid, tid ∈ ids s' → tid ∈ ids s ∨ tid ∈ tids) →
  signalled s' (cancel_all s' tids w').
Proof.
  intros Hs Hl Hw Hnew tid sessions sid tok Hin Hse Ht. destruct (Hnew tid Hin) as [Hold|Ht'].
  - apply cancel_all_mono, Hw. rewrite Hl in Hse. by eapply Hs.
  - by eapply cancel_all_hits.
Qed.

(** *** The batch *)

Lemma union_absorb (x : bytes) (a b : gset bytes) : x ∈ a → a ∪ ({[x]} ∪ b) = a ∪ b.
Proof. set_solver. Qed.

Lemma union_shift (x : bytes) (a b : gset bytes) : {[x]} ∪ a ∪ b = a ∪ ({[x]} ∪ b).
Proof. set_solver. Qed.

(** What the collection loop computes. *)
Lemma collect_batch_Ok rs i0 b0 i b pending tids :
  collect_batch rs i0 b0 = Ok (i, b, pending, tids) →
  i = i0 ∪ ids_of rs ∧ i = i0 ∪ list_to_set tids ∧ pending `sublist_of` rs
  ∧ Forall (λ r, is_Some (id_of r)) rs ∧ omap id_of pending = tids
  ∧ Forall (λ r, is_Some (to_json r)) pending ∧ Forall (λ t, t ∉ i0) tids ∧ NoDup tids.
Proof.
  revert i0 b0 i b pending tids. induction rs as [|r rs IH]; intros i0 b0 i b pending tids; simpl.
  { intros [= <- <- <- <-]. unfold ids_of; simpl. split_and!; try set_solver; constructor. }
  intros Hc. apply bind_Ok in Hc as (tid & Ht & Hc).
  apply map_err_Ok, id_of_Some in Ht.
  assert (ids_of (r :: rs) = {[tid]} ∪ ids_of rs) as Hids
    by (change (r :: rs) with ([r] ++ rs); by rewrite ids_of_app, (ids_of_one r tid)).
  destruct (decide (tid ∈ i0)) as [Hin|Hin].
  - apply IH in Hc as (-> & H2 & H3 & H4 & H5 & H6 & H7 & H8). rewrite Hids.
    split_and!; [symmetry; by apply union_absorb | exact H2 | by constructor | by constructor | exact H5 | exact H6
      | exact H7 | exact H8].
  - apply bind_Ok in Hc as (len & Hlen & Hc).
    apply bind_Ok in Hc as ([[[i' b'] p'] t'] & Hc & [= <- <- <- <-]).
    apply IH in Hc as (-> & H2 & H3 & H4 & H5 & H6 & H7 & H8). rewrite Hids. simpl. rewrite Ht.
    apply bind_Ok in Hlen as (enc & Henc%ok_or_Ok & _). split_and!.
    + apply union_shift.
    + rewrite H2. simpl. apply union_shift.
    + by constructor.
    + by constructor.
    + f_equal. exact H5.
    + by constructor.
    + constructor; [exact Hin |]. eapply Forall_impl; [exact H7 |]. intros t Hn Ht0. apply Hn. by apply elem_of_union_r.
    + constructor; [|exact H8]. rewrite Forall_forall in H7. intros Ht'. apply (H7 _ Ht'), elem_of_union_l.
      by apply elem_of_singleton.
Qed.

Lemma append_batch_cases io s rs w res s' w' :
  append_batch_atomic io s rs w = (res, s', w') →
  (∃ e, res = Err e ∧ s' = s ∧ w' = w)
  ∨ (res = Ok 0 ∧ s' = s ∧ w' = w ∧ Forall (λ r, is_Some (id_of r)) rs ∧ ids_of rs ⊆ ids s)
  ∨ (∃ i b pending tids w1, pending ≠ [] ∧ collect_batch rs (ids s) 0 = Ok (i, b, pending, tids)
      ∧ saturating_add U64_MAX (file_len w) b ≤ max_bytes s
      ∧ s' = with_records s i (records s ++ pending)
      ∧ write_jsonl io (records s ++ pending) w = Some w1
      ∧ w' = cancel_all s' tids w1 ∧ res = Ok (Z.of_nat (length pending))).
Proof.
  unfold append_batch_atomic. case_decide as Hnil.
  { intros [= <- <- <-]. right; left. subst. split_and!; try done. }
  destruct (collect_batch rs (ids s) 0) as [[[[i b] pending] tids]|e] eqn:Hc.
  2: { intros [= <- <- <-]. left. by exists e. }
  case_decide as Hp.
  { intros [= <- <- <-]. right; left. subst.
    apply collect_batch_Ok in Hc as (Hi & Hi' & _ & Hd & Ht & _).
    split_and!; try done. simpl in Ht. subst tids. set_solver. }
  destruct (Z.ltb_spec (max_bytes s) (saturating_add U64_MAX (file_len w) b)).
  { intros [= <- <- <-]. left. by eexists. }
  destruct (write_jsonl io (records s ++ pending) w) as [w1|] eqn:Hw; intros [= <- <- <-].
  - right; right. exists i, b, pending, tids, w1. by split_and!.
  - left. by eexists.
Qed.

Lemma append_batch_ids io s rs w n s' w' :
  append_batch_atomic io s rs w = (Ok n, s', w') → ids s' = ids s ∪ ids_of rs.
Proof.
  intros [(e & [=] & _)|[(_ & -> & _ & _ & Hsub)|
    (i & b & pending & tids & w1 & _ & Hc & _ & -> & _)]]%append_batch_cases; [set_solver |].
  by apply collect_batch_Ok in Hc as (-> & _).
Qed.

Lemma append_batch_failed io s rs w e s' w' :
  append_batch_atomic io s rs w = (Err e, s', w') → s' = s ∧ w' = w.
Proof.
  intros [(? & _ & -> & ->)|[([=] & _)|(? & ? & ? & ? & ? & _ & _ & _ & _ & _ & _ & [=])]]%append_batch_cases.
  done.
Qed.

Lemma ids_of_new `{!HexLaws} reason now l :
  Forall valid_id l → ids_of ((λ i, record_new i reason now None) <$> l) = list_to_set l.
Proof.
  induction 1 as [|i l Hi _ IH]; [done |]. rewrite fmap_cons.
  change (record_new i reason now None :: ?k) with ([record_new i reason now None] ++ k).
  rewrite ids_of_app, IH, (ids_of_one _ i); [done |]. apply id_of_Some. by apply decode_encoded_id.
Qed.

Lemma write_jsonl_Some io l w w' :
  write_jsonl io l w = Some w' →
  ∃ c, encode_jsonl l = Some c ∧ file w' = Some c ∧ cancelled w' = cancelled w ∧ io = true.
Proof.
  unfold write_jsonl. intros Hw. destruct (encode_jsonl l) as [c|]; [|done]. simpl in Hw.
  destruct io; [|done]. injection Hw as <-. by exists c.
Qed.

Lemma coherent_batch s rs i b pending tids :
  coherent s → collect_batch rs (ids s) 0 = Ok (i, b, pending, tids) →
  coherent (with_records s i (records s ++ pending)).
Proof.
  intros [Hi Hd] (_ & Hi' & Hsub & Hdec & Htids & _)%collect_batch_Ok. split; simpl.
  - rewrite ids_of_app, Hi', Hi. unfold ids_of at 3. by rewrite Htids.
  - apply Forall_app. split; [done |]. rewrite Forall_forall in *. eauto using elem_of_sublist.
Qed.

Lemma append_batch_invariant io s rs w res s' w' :
  append_batch_atomic io s rs w = (res, s', w') → coherent s → signalled s w →
  coherent s' ∧ signalled s' w'.
Proof.
  intros [(e & _ & -> & ->)|[(_ & -> & -> & _)|
    (i & b & pending & tids & w1 & _ & Hc & _ & -> & Hw & -> & _)]]%append_batch_cases Hco Hs;
    [done | done |].
  split; [by eapply coherent_batch |].
  apply write_jsonl_Some in Hw as (c & _ & _ & Hcan & _).
  apply collect_batch_Ok in Hc as (_ & Hi & _). apply (signalled_extend s _ w); try done.
  - by rewrite Hcan.
  - simpl. rewrite Hi. intros tid. rewrite elem_of_union, elem_of_list_to_set. done.
Qed.

(** *** Live-session registration *)

Lemma foldl_lookup_invariant {A} (f : gmap bytes A → bytes → gmap bytes A) (P : bytes → A → Prop) l m :
  (∀ m t, (∀ k v, m !! k = Some v → P k v) → t ∈ l → ∀ k v, f m t !! k = Some v → P k v) →
  (∀ k v, m !! k = Some v → P k v) → ∀ k v, foldl f m l !! k = Some v → P k v.
Proof.
  revert m. induction l as [|t l IH]; intros m Hstep Hm; simpl; [done |].
  apply IH; [intros; eapply Hstep; set_solver|]. intros k v. apply Hstep; set_solver.
Qed.

Lemma signalled_register s w sid chain tok :
  signalled s w → (∀ t, t ∈ chain → t ∉ ids s) →
  signalled (register_live_session s sid chain tok) w.
Proof.
  intros Hs Hchain tid sessions sid' tok' Hin Hl Ht. simpl in *. revert sid' tok' Ht Hin.
  pattern tid, sessions. revert tid sessions Hl. apply foldl_lookup_invariant.
  - intros m t Hm Ht k v. unfold register_one. rewrite lookup_insert_Some.
    intros [[<- _]|[_ Hk]]; [|by apply Hm].
    intros ?? _ Hin. exfalso. eapply Hchain; [|done]. set_solver.
  - intros k v Hk sid' tok' Ht Hin. by eapply Hs.
Qed.

Lemma signalled_deregister s w sid chain :
  signalled s w → signalled (deregister_live_session s sid chain) w.
Proof.
  intros Hs tid sessions sid' tok' Hin Hl Ht. simpl in *. revert sid' tok' Ht Hin.
  pattern tid, sessions. revert tid sessions Hl. apply foldl_lookup_invariant.
  - intros m t Hm _ k v. unfold deregister_one. destruct (m !! t) as [se|] eqn:Hse; [|by apply Hm].
    case_decide.
    + rewrite lookup_delete_Some. intros [_ Hk]. by apply Hm.
    + rewrite lookup_insert_Some. intros [[<- <-]|[_ Hk]]; [|by apply Hm].
      intros sid' tok'. rewrite lookup_delete_Some. intros [_ ?]. by eapply Hm.
  - intros k v Hk sid' tok' Ht Hin. by eapply Hs.
Qed.

(** *** The file *)

Lemma str_split_line e t : str_contains_byte 10 e = false →
  str_split 10 (e +:+ newline +:+ t) = e :: str_split 10 t.
Proof. exact (str_split_app (Ascii.ascii_of_N 10) e t). Qed.

Lemma strip_cr_id e : str_contains_byte 13 e = false → strip_cr e = e.
Proof.
  intros He. unfold strip_cr. destruct (strip_suffix carriage_return e) as [p|] eqn:Hp; [|done].
  apply strip_suffix_spec in Hp. subst e. rewrite str_contains_app in He.
  by rewrite orb_true_r in He.
Qed.

Lemma parse_encode `{!JsonLaws RevocationRecord} l c :
  encode_jsonl l = Some c → parse_revocation_records c = Some l.
Proof.
  unfold parse_revocation_records, str_lines. revert c.
  induction l as [|r l IH]; intros c; simpl; [by intros [= <-] |].
  destruct (to_json r) as [e|] eqn:He; [|done]. simpl.
  destruct (encode_jsonl l) as [t|] eqn:Ht; [|done]. simpl. intros [= <-].
  destruct (json_one_line r e He) as [Hnl Hcr]. destruct (json_trimmed r e He) as [Htr Hne].
  rewrite str_split_line by done. destruct (str_split 10 t) as [|x xs] eqn:Hx.
  { by apply str_split_nonempty in Hx. }
  change (lines_of (e :: x :: xs)) with (strip_cr e :: lines_of (x :: xs)).
  rewrite strip_cr_id by done. cbn [parse_lines]. rewrite Htr, decide_False by done.
  rewrite (json_roundtrip r e He). cbn [mbind option_bind]. specialize (IH t eq_refl).
  rewrite Hx in IH. by rewrite IH.
Qed.

Lemma encode_jsonl_total l : Forall (λ r, is_Some (to_json r)) l ↔ is_Some (encode_jsonl l).
Proof.
  induction l as [|r l IH]; simpl; [split; [by eexists | constructor] |]. rewrite Forall_cons, IH. split.
  - intros [[e ->] [t ->]]. by eexists.
  - destruct (to_json r); [|by intros []]. destruct (encode_jsonl l); [done | by intros []].
Qed.

Lemma collect_ids_total l :
  Forall (λ r, is_Some (id_of r)) l → collect_ids l = Some (ids_of l).
Proof.
  unfold collect_ids, ids_of. induction 1 as [|r l [tid Htid] _ IH]; simpl; [done |].
  rewrite Htid. apply id_of_Some in Htid. rewrite Htid. simpl.
  destruct (try_map ticket_id_bytes l) as [k|]; [|done]. injection IH as IH. simpl.
  f_equal. by rewrite IH.
Qed.

Lemma collect_ids_Some l i :
  collect_ids l = Some i → i = ids_of l ∧ Forall (λ r, is_Some (id_of r)) l.
Proof.
  intros Hc. assert (Forall (λ r, is_Some (id_of r)) l) as Hf.
  { unfold collect_ids in Hc. destruct (try_map ticket_id_bytes l) as [k|] eqn:Hk; [|done].
    apply try_map_Ok in Hk. clear Hc. induction Hk as [|r tid l k Hr _ IH]; constructor; [|done].
    apply id_of_Some in Hr. by eexists. }
  split; [|done]. rewrite collect_ids_total in Hc by done. by injection Hc as <-.
Qed.

(** *** Garbage collection *)

Lemma filter_elem {A} (f : A → bool) l x : x ∈ List.filter f l ↔ x ∈ l ∧ f x = true.
Proof. rewrite !list_elem_of_In. apply List.filter_In. Qed.

Lemma gc_keeps_iff now r :
  (∀ ra, rr_revoked_at r = Some ra → 0 ≤ ra ≤ U64_MAX - REVOCATION_LINGER_SECS) →
  gc_keeps now r = true ↔
  rr_revoked_at r = None
  ∨ (∃ ra, rr_revoked_at r = Some ra ∧ now < ra + REVOCATION_LINGER_SECS)
  ∨ ∃ na, rr_not_after_of_ticket r = Some na ∧ now < na.
Proof.
  intros Hra. unfold gc_keeps. rewrite orb_true_iff.
  destruct (rr_revoked_at r) as [ra|]; [|by split; left]. specialize (Hra ra eq_refl).
  assert (wrapping 64 (ra + REVOCATION_LINGER_SECS) = ra + REVOCATION_LINGER_SECS) as ->.
  { unfold wrapping. apply Z.mod_small. unfold REVOCATION_LINGER_SECS, U64_MAX in *. lia. }
  destruct (rr_not_after_of_ticket r); rewrite ?Z.ltb_lt; naive_solver.
Qed.

Lemma gc_coherent s now : coherent s → coherent (gc s now).2.
Proof.
  intros [_ Hd]. split; simpl; [done |]. rewrite Forall_forall in *. intros r Hr%filter_elem.
  naive_solver.
Qed.

Lemma gc_ids_subset s now : coherent s → ids (gc s now).2 ⊆ ids s.
Proof.
  intros [-> _] tid. simpl. rewrite !elem_of_ids_of. intros (r & Hr%filter_elem & Ht). naive_solver.
Qed.

Lemma signalled_subset s s' w :
  signalled s w → live_sessions s' = live_sessions s → ids s' ⊆ ids s → signalled s' w.
Proof. intros Hs Hl Hi tid se sid tok Hin Hse Ht. rewrite Hl in Hse. eapply Hs; eauto. Qed.

(** ** The set as a transition system

    Every operation of the agent on the shared set, plus other processes writing the
    file.  Registration happens for chains that were acceptable, that is, hold no
    revoked id at that moment. *)
Inductive step : RevocationSet * World → RevocationSet * World → Prop :=
  | step_insert s w tid b s' w' :
      valid_id tid → insert s tid w = (b, s', w') → step (s, w) (s', w')
  | step_insert_record s w r b s' w' :
      insert_record s r w = (b, s', w') → step (s, w) (s', w')
  | step_append io s w r res s' w' :
      append io s r w = (res, s', w') → step (s, w) (s', w')
  | step_append_batch io s w rs res s' w' :
      append_batch_atomic io s rs w = (res, s', w') → step (s, w) (s', w')
  | step_register s w sid chain tok :
      (∀ t, t ∈ chain → t ∉ ids s) → step (s, w) (register_live_session s sid chain tok, w)
  | step_deregister s w sid chain : step (s, w) (deregister_live_session s sid chain, w)
  | step_gc s w now n s' : gc s now = (n, s') → step (s, w) (s', w)
  | step_persist io s w w' : persist io s w = Some w' → step (s, w) (s, w')
  | step_sync io clock s w n s' w' :
      sync_from_disk io clock s w = Some (n, s', w') → step (s, w) (s', w')
  | step_other_writer s w c : step (s, w) (s, {| file := c; cancelled := cancelled w |}).

Definition ok (p : RevocationSet * World) : Prop := coherent p.1 ∧ signalled p.1 p.2.

Lemma insert_one_ok s w r tid : coherent s → signalled s w → id_of r = Some tid →
  ok (with_records s ({[tid]} ∪ ids s) (records s ++ [r]), cancel_live_sessions s tid w).
Proof.
  intros Hc Hs Hr. split; simpl; [by apply coherent_snoc |].
  change (cancel_live_sessions s tid w) with
    (cancel_all (with_records s ({[tid]} ∪ ids s) (records s ++ [r])) [tid] w).
  apply (signalled_extend s _ w w); try done. simpl. set_solver.
Qed.

Lemma sync_ok io clock s w n s' w' :
  sync_from_disk io clock s w = Some (n, s', w') → coherent s → signalled s w → ok (s', w').
Proof.
  unfold sync_from_disk. intros Hsy Hc Hs. destruct clock; [|done]. simpl in Hsy.
  destruct (file w) as [raw|]; [|by injection Hsy as <- <- <-].
  destruct io; [|done]. destruct (parse_revocation_records raw) as [rs|]; [|done]. simpl in Hsy.
  destruct (collect_ids rs) as [i|] eqn:Hi; [|done]. simpl in Hsy. injection Hsy as <- <- <-.
  apply collect_ids_Some in Hi as [-> Hd]. split; simpl; [done |].
  apply (signalled_extend s _ w w); try done. simpl. intros tid Ht.
  destruct (decide (tid ∈ ids s)); [by left | right]. by apply elem_of_elements, elem_of_difference.
Qed.

Lemma step_ok `{!HexLaws} p q : step p q → ok p → ok q.
Proof.
  intros Hstep [Hc Hs]. destruct Hstep as [? ? tid ? ? ? Hv Hi| ? ? r ? ? ? Hi | io ? ? r ? ? ? Ha | | | | ? ? ? ? ? Hg
    | ? ? ? ? Hp | |]; simpl in *.
  - unfold insert in Hi. case_decide; injection Hi as <- <- <-; [done |].
    apply insert_one_ok; try done. apply id_of_Some. by apply decode_encoded_id.
  - unfold insert_record in Hi. destruct (ticket_id_bytes r) as [tid|] eqn:Ht; [|by injection Hi as <- <- <-].
    apply id_of_Some in Ht. case_decide; injection Hi as <- <- <-; [done | by apply insert_one_ok].
  - unfold append in Ha. destruct (map_err _ _); [|by injection Ha as <- <- <-].
    case_decide; [by injection Ha as <- <- <- |].
    destruct (append_batch_atomic io s [r] w) as [[[] s1] w1] eqn:Hb; injection Ha as <- <- <-;
      by eapply append_batch_invariant.
  - by eapply append_batch_invariant.
  - split; simpl; [by destruct Hc; split | by apply signalled_register].
  - split; simpl; [by destruct Hc; split | by apply signalled_deregister].
  - assert (s' = (gc s now).2) as -> by by rewrite Hg. split; simpl; [by apply gc_coherent |].
    eapply signalled_subset; [done | done | by apply gc_ids_subset].
  - apply write_jsonl_Some in Hp as (? & _ & _ & Hcan & _). split; simpl; [done |].
    intros ?????. rewrite Hcan. by apply Hs.
  - by eapply sync_ok.
  - by split.
Qed.

Lemma load_ok io clock ceiling w s w' :
  load_with_max_bytes io clock ceiling w = Some (s, w') → ok (s, w').
Proof.
  unfold load_with_max_bytes. intros Hl. destruct clock as [now|]; [|done]. simpl in Hl.
  destruct (match file w with Some _ => _ | None => _ end) as [rs|]; [|done]. simpl in Hl.
  destruct (collect_ids rs) as [i|] eqn:Hi; [|done]. simpl in Hl.
  apply collect_ids_Some in Hi as [-> Hd].
  set (s0 := {| ids := ids_of rs; records := rs; live_sessions := ∅; max_bytes := ceiling |}) in *.
  assert (coherent (gc s0 now).2) by (apply gc_coherent; by split).
  assert (s = (gc s0 now).2) as ->.
  { simpl in Hl. destruct (0 <? _); [|by injection Hl as <- <-].
    destruct (persist _ _ _); [|done]. simpl in Hl. by injection Hl as <- <-. }
  split; [done |]. intros tid se sid tok _ Hse. simpl in Hse. by rewrite lookup_empty in Hse.
Qed.

(** Reloading a freshly written file. *)
Lemma reload_written `{!JsonLaws RevocationRecord} l c w now ceiling :
  encode_jsonl l = Some c → Forall (λ r, is_Some (id_of r)) l → file w = Some c →
  ∃ s w', load_with_max_bytes true (Some now) ceiling w = Some (s, w')
    ∧ records s = List.filter (gc_keeps now) l.
Proof.
  intros Hc Hd Hf. unfold load_with_max_bytes. simpl. rewrite Hf. simpl.
  rewrite (parse_encode l c Hc). simpl. rewrite collect_ids_total by done. simpl.
  destruct (0 <? _); [|by eexists _, _]. unfold persist, write_jsonl. simpl.
  destruct (proj1 (encode_jsonl_total (List.filter (gc_keeps now) l))) as [c' ->]; [|by eexists _, _].
  assert (Forall (λ r, is_Some (to_json r)) l) as Hall by (apply encode_jsonl_total; by eexists).
  rewrite Forall_forall in *. intros r Hr%filter_elem. naive_solver.
Qed.

(** ** Properties *)

(** C7: from start-up on, through any interleaving of revocations, publications, file
    syncs, garbage collections and session (de)registrations, the id set is exactly the
    ids of the records, and every shell session registered under a ticket id that is
    revoked has had its cancellation token fired, provided sessions are registered
    while none of their chain ids is revoked. *)
Theorem revocation_signals_sessions `{!HexLaws} io clock ceiling w0 p0 s w :
  load_with_max_bytes io clock ceiling w0 = Some p0 → rtc step p0 (s, w) →
  ids s = ids_of (records s) ∧ signalled s w.
Proof.
  intros Hl Hst. assert (ok (s, w)) as [[] ?]; [|done].
  destruct p0 as [s0 w1]. apply load_ok in Hl. revert Hl.
  generalize (s0, w1), (s, w), Hst. induction 1 as [|p q r Hpq _ IH]; [done |].
  intros Hp. by apply IH, (step_ok p).
Qed.

(** C16: [append_batch_atomic] is all or nothing.  If it fails, set, file and tokens are
    unchanged.  If it succeeds, the ids are the old ones plus those of the whole batch,
    the new records follow the old ones in batch order, the file (rewritten if anything
    is new) holds exactly the resulting records, and every session registered under a
    newly revoked id is signalled. *)
Theorem append_batch_atomicity io s rs w res s' w' :
  append_batch_atomic io s rs w = (res, s', w') →
  match res with
  | Err _ => s' = s ∧ w' = w
  | Ok n => ids s' = ids s ∪ ids_of rs ∧ Forall (λ r, is_Some (id_of r)) rs
      ∧ ∃ pending, records s' = records s ++ pending ∧ pending `sublist_of` rs
        ∧ n = Z.of_nat (length pending)
        ∧ (pending ≠ [] → ∃ c, encode_jsonl (records s') = Some c ∧ file w' = Some c)
        ∧ ∀ tid sessions sid tok, tid ∈ ids s' → tid ∉ ids s →
            live_sessions s !! tid = Some sessions → sessions !! sid = Some tok → tok ∈ cancelled w'
  end.
Proof.
  intros [(e & -> & -> & ->)|[(-> & -> & -> & Hd & Hsub)|
    (i & b & pending & tids & w1 & _ & Hc & _ & -> & Hw & -> & ->)]]%append_batch_cases; [done | |].
  - split; [set_solver | split; [done |]]. exists []. rewrite app_nil_r.
    split_and!; try done. apply sublist_nil_l.
  - apply collect_batch_Ok in Hc as (Hi & Hi' & Hsub & Hd & _).
    apply write_jsonl_Some in Hw as (c & Hc & Hf & _). split; [done | split; [done |]].
    exists pending. split_and!; try done.
    + intros _. exists c. by rewrite cancel_all_file.
    + intros tid sessions sid tok Hin Hout Hse Ht. eapply cancel_all_hits; [|done|done].
      simpl in Hin. rewrite Hi' in Hin. set_solver.
Qed.

(** C39: a revocation the agent has acknowledged survives a restart: once [append]
    reports success, loading the file again, at any time at which the record is not
    yet collectable, succeeds and gives a set that contains the ticket id. *)
Theorem revocation_survives_restart `{!JsonLaws RevocationRecord} io s r w s' w' tid now ceiling :
  coherent s → append io s r w = (Ok true, s', w') → id_of r = Some tid → gc_keeps now r = true →
  ∃ s'' w'', load_with_max_bytes true (Some now) ceiling w' = Some (s'', w'')
    ∧ contains s'' tid = true.
Proof.
  intros Hco Ha Htid Hk. unfold append in Ha.
  rewrite (proj1 (id_of_Some r tid) Htid) in Ha. simpl in Ha.
  destruct (decide (tid ∈ ids s)) as [|Hnew]; [done |].
  destruct (append_batch_atomic io s [r] w) as [[[n|e] s1] w1] eqn:Hb; [|done]. injection Ha as <- <-.
  apply append_batch_cases in Hb as [(e & [=] & _)|[(_ & _ & _ & _ & Hsub)|
    (i & b & pending & tids & w2 & Hne & Hc & _ & -> & Hw & -> & _)]].
  { exfalso. apply Hnew, Hsub. rewrite (ids_of_one r tid Htid). set_solver. }
  pose proof (coherent_batch _ _ _ _ _ _ Hco Hc) as [Hid Hdec].
  apply collect_batch_Ok in Hc as (_ & _ & Hsub & _). simpl in Hdec.
  apply write_jsonl_Some in Hw as (c & Henc & Hf & _).
  destruct (reload_written _ c (cancel_all (with_records s i (records s ++ pending)) tids w2) now ceiling
    Henc Hdec) as (s'' & w'' & Hl & Hrec); [by rewrite cancel_all_file |].
  exists s'', w''. split; [done |]. apply load_ok in Hl as [[Hi'' _] _]. simpl in Hi''.
  apply bool_decide_eq_true. rewrite Hi'', Hrec. apply elem_of_ids_of. exists r. split; [|done].
  apply filter_elem. split; [|done]. apply elem_of_app. right.
  destruct pending as [|x [|y p]]; [done | |].
  - apply list_elem_of_singleton. apply sublist_length in Hsub as Hlen.
    apply elem_of_sublist with (x := x) in Hsub; [set_solver | by left].
  - apply sublist_length in Hsub. simpl in Hsub. lia.
Qed.

(** Garbage collection forgets an id exactly when every record of it is older than
    the seven-day linger and no record carries an unexpired ticket: a revoked ticket
    that is still valid stays revoked, and a record without a revocation time is kept
    for good. *)
Theorem gc_retention s now tid :
  Forall (λ r, ∀ ra, rr_revoked_at r = Some ra → 0 ≤ ra ≤ U64_MAX - REVOCATION_LINGER_SECS) (records s) →
  contains (gc s now).2 tid = true ↔
  ∃ r, r ∈ records s ∧ id_of r = Some tid
    ∧ (rr_revoked_at r = None
       ∨ (∃ ra, rr_revoked_at r = Some ra ∧ now < ra + REVOCATION_LINGER_SECS)
       ∨ ∃ na, rr_not_after_of_ticket r = Some na ∧ now < na).
Proof.
  intros Hr. rewrite Forall_forall in Hr. unfold contains. rewrite bool_decide_eq_true. simpl.
  rewrite elem_of_ids_of. setoid_rewrite filter_elem.
  split.
  - intros (r & (Hin & Hk) & Ht). exists r. by rewrite <- (gc_keeps_iff now r (Hr r Hin)).
  - intros (r & Hin & Ht & Hk). exists r. by rewrite <- (gc_keeps_iff now r (Hr r Hin)) in Hk.
Qed.

(** The proviso of registration matters: when a session starts under a chain with an
    already revoked id (its connection was accepted before the revocation), neither the
    registration nor revoking the same ticket again signals it. *)
Theorem late_registration_not_signalled io s w r tid sid tok :
  tid ∈ ids s → id_of r = Some tid → tok ∉ cancelled w →
  let s1 := register_live_session s sid [tid] tok in
  append io s1 r w = (Ok false, s1, w) ∧ ~ signalled s1 w.
Proof.
  intros Hin Hr Hout s1. split.
  - unfold append. rewrite (proj1 (id_of_Some r tid) Hr). simpl. by rewrite decide_True.
  - intros Hs. apply Hout. eapply (Hs tid); [done | |].
    + simpl. rewrite union_empty_r_L, elements_singleton. apply lookup_insert_eq.
    + apply lookup_insert_eq.
Qed.

End revocations.

(** ** Witnesses *)

Module Demo.

(** Raw bytes for hex, and a serialiser that knows two records. *)
#[export] Instance raw_hex : Hex := {| hex_encode := str_of_bytes; hex_decode := λ s, Some (str_bytes s) |}.
#[export] Instance raw_hex_laws : HexLaws.
Proof. split. intros bs Hbs. simpl. by rewrite str_bytes_of_bytes. Qed.

Definition id1 : bytes := replicate 16 1.
Definition id2 : bytes := replicate 16 2.
Definition rec1 : RevocationRecord := record_new id1 "lost laptop" 1000 (Some 9000).
Definition rec2 : RevocationRecord := record_new id2 "rotation" 2000 None.

#[export] Instance two_json : Json RevocationRecord := {|
  to_json := λ r, if decide (r = rec1) then Some "{1}" else if decide (r = rec2) then Some "{2}" else None;
  from_json := λ s, if decide (s = "{1}") then Some rec1 else if decide (s = "{2}") then Some rec2 else None |}.
#[export] Instance two_json_laws : JsonLaws RevocationRecord.
Proof.
  split; simpl; intros a s; repeat case_decide; intros [= <-]; subst; by vm_compute.
Qed.

Definition empty_set : RevocationSet :=
  {| ids := ∅; records := []; live_sessions := ∅; max_bytes := 1000 |}.
Definition fresh : World := {| file := None; cancelled := ∅ |}.
Definition with_session : RevocationSet := register_live_session empty_set [9] [id1] 77.

Lemma revocation_signals_sessions_witness :
  ∃ s w, append true with_session rec1 fresh = (Ok true, s, w) ∧ signalled s w
    ∧ bool_decide (77 ∈ cancelled w) = true.
Proof.
  destruct (append true with_session rec1 fresh) as [[res s] w] eqn:Ha.
  exists s, w. assert (res = Ok true) as -> by (vm_compute in Ha; congruence). split_and!.
  - reflexivity.
  - apply (revocation_signals_sessions true (Some 5) 1000 fresh (empty_set, fresh) s w).
    + reflexivity.
    + eapply rtc_l; [|eapply rtc_l; [|apply rtc_refl]].
      * apply step_register. intros t _. apply not_elem_of_empty.
      * eapply step_append. exact Ha.
  - vm_compute in Ha. injection Ha as <- <-. reflexivity.
Defined.

Lemma append_batch_atomicity_witness :
  ∃ s w, append_batch_atomic true with_session [rec1; rec2] fresh = (Ok 2, s, w)
    ∧ ids s = ids with_session ∪ ids_of [rec1; rec2].
Proof.
  destruct (append_batch_atomic true with_session [rec1; rec2] fresh) as [[res s] w] eqn:Ha.
  assert (res = Ok 2) as -> by (vm_compute in Ha; congruence). exists s, w. split; [reflexivity |].
  apply (proj1 (append_batch_atomicity true with_session [rec1; rec2] fresh (Ok 2) s w Ha)).
Defined.

Lemma revocation_survives_restart_witness :
  ∃ s w s' w', append true empty_set rec1 fresh = (Ok true, s, w)
    ∧ load_with_max_bytes true (Some 8000) 1000 w = Some (s', w') ∧ contains s' id1 = true.
Proof.
  destruct (append true empty_set rec1 fresh) as [[res s] w] eqn:Ha.
  assert (res = Ok true) as -> by (vm_compute in Ha; congruence). exists s, w.
  destruct (revocation_survives_restart true empty_set rec1 fresh s w id1 8000 1000) as (s' & w' & Hl & Hc).
  - split; [reflexivity | constructor].
  - exact Ha.
  - reflexivity.
  - reflexivity.
  - exists s', w'. split_and!; [reflexivity | exact Hl | exact Hc].
Defined.

Lemma gc_retention_witness :
  contains (gc {| ids := ∅; records := [rec1; rec2]; live_sessions := ∅; max_bytes := 1000 |} 700000).2 id2
  = false
  ∧ contains (gc {| ids := ∅; records := [rec1; rec2]; live_sessions := ∅; max_bytes := 1000 |} 8000).2 id1
  = true.
Proof.
  split; [vm_compute; reflexivity |]. apply gc_retention.
  - cbn [records]. rewrite !Forall_cons. split; [|split; [|constructor]]; intros ra [= <-]; vm_compute; split; discriminate.
  - exists rec1. split_and!; [by left | reflexivity |]. right; right. exists 9000. split; [reflexivity | lia].
Defined.

Lemma late_registration_not_signalled_witness :
  let s := {| ids := {[id1]}; records := [rec1]; live_sessions := ∅; max_bytes := 1000 |} in
  append true (register_live_session s [9] [id1] 77) rec1 fresh
  = (Ok false, register_live_session s [9] [id1] 77, fresh).
Proof.
  intros s. apply (late_registration_not_signalled true s fresh rec1 id1 [9] 77).
  - apply (elem_of_singleton_2 id1 id1). reflexivity.
  - reflexivity.
  - apply not_elem_of_empty.
Defined.
End Demo.

End Rev.
