(* ===== verification/Pipeline.v ===== *)
(** * Ticket acceptance

    crates/portl-agent/src/pipeline.rs (evaluating a ticket offer), the handshake of
    ticket_handler.rs that turns the outcome into an acknowledgement and a session, and
    the offer types of crates/portl-core/src/wire.rs.  The rate limiter behind
    [RateLimitGate] (the governor crate) is a parameter of the input. *)

From S2P Require Import Prelude Schema Canonical Sample Codec Caps Enforce Chain Revocations.

(** ** Data *)

Record TicketOffer := {
  of_ticket : bytes;
  of_chain : list bytes;
  of_proof : option bytes;
  of_client_nonce : bytes;
}.

Inductive AckReason :=
  | BadSignature
  | BadChain
  | CapsExceedParent
  | NotYetValid
  | Expired
  | Revoked
  | ProofMissing
  | ProofInvalid
  | RateLimited
  | InternalError (detail : option string).

Record TicketAck := {
  ack_ok : bool;
  ack_reason : option AckReason;
  ack_peer_token : option bytes;
  ack_effective_caps : option Capabilities;
  ack_server_time : Z;
}.

(** crates/portl-agent/src/config.rs *)
Inductive AgentMode :=
  | Listener
  | Gateway (upstream_url upstream_host : string) (upstream_port : Z).

Record AcceptanceInput := {
  in_offer : TicketOffer;
  in_source_id : bytes;
  in_trust_roots : TrustRoots;
  in_revocations : Rev.RevocationSet;
  in_now : Z;
  in_rate_limit : bytes → bool;
  in_mode : AgentMode;
}.

Inductive AcceptanceOutcome :=
  | Accepted (acc_peer_token : bytes) (acc_caps : Capabilities) (acc_ticket_id : bytes)
      (acc_chain_ids : list bytes) (acc_issuer_id : bytes) (acc_holder_id : option bytes)
      (acc_bearer : option bytes)
  | Rejected (reason : AckReason).

(** session.rs *)
Record Session := {
  se_peer_token : bytes;
  se_caps : Capabilities;
  se_ticket_id : bytes;
  se_ticket_chain_ids : list bytes;
  se_caller_endpoint_id : bytes;
  se_ticket_issuer_id : bytes;
  se_ticket_holder_id : option bytes;
  se_bearer : option bytes;
}.

#[export] Instance AckReason_eq_dec : EqDecision AckReason.
Proof. solve_decision. Defined.

Section pipeline.
Context `{Iroh, Sha256, Ed25519, !Postcard PortlBody, !Postcard PortlTicket}.

Definition CLOCK_SKEW_SECS : Z := 60.
Definition PEER_TOKEN_DOMAIN : bytes := str_bytes "portl/peer-token/v1".

Definition malformed_offer : AckReason := InternalError (Some "malformed offer").
Definition non_canonical_ticket : AckReason := InternalError (Some "non-canonical ticket").

Definition decode_offer_ticket (bs : bytes) : result AckReason PortlTicket :=
  t ← ok_or (from_bytes bs) malformed_offer;
  map_err (λ _, non_canonical_ticket) (canonical_check_ticket t);;
  reencoded ← ok_or (to_stdvec t) malformed_offer;
  ensure (bool_decide (reencoded = bs)) non_canonical_ticket;;
  Ok t.

Record VerifiedChain := { vf_caps : Capabilities; vf_root_issuer : bytes }.

(** The body of the first loop of [verify_chain_without_time]. *)
Definition check_offer_ticket (chain_target : bytes) (t : PortlTicket) : result AckReason unit :=
  map_err (λ _, BadSignature) (canonical_check_ticket t);;
  ensure (v t =? 1) BadChain;;
  ensure (bool_decide (addr_id (addr t) = chain_target)) BadChain.

(** The body of its second loop. *)
Definition verify_offer_hop (par child : PortlTicket) : result AckReason unit :=
  parent_ref ← ok_or (parent (body child)) BadChain;
  let parent_key := resolved_issuer par in
  map_err (λ _, BadSignature) (verify_body parent_key (body child) (sig child));;
  ensure (bool_decide (resolved_issuer child = parent_key)) BadChain;;
  ensure (bool_decide (parent_ticket_id_field parent_ref = parent_ticket_id (sig par))) BadChain;;
  ensure (is_narrowing (caps (body par)) (caps (body child))) CapsExceedParent;;
  ensure (negb ((not_before (body child) <? not_before (body par))
                || (not_after (body par) <? not_after (body child)))) BadChain;;
  depth ← match parent (body par) with
          | Some delegation => ok_or (checked_sub (depth_remaining delegation) 1) BadChain
          | None => Ok (MAX_DELEGATION_DEPTH - 1)
          end;
  ensure (depth_remaining parent_ref =? depth) BadChain.

Definition verify_chain_without_time (terminal : PortlTicket) (chain : list PortlTicket)
    (tr : TrustRoots) : result AckReason VerifiedChain :=
  let all_tickets := chain ++ [terminal] in
  match all_tickets with
  | [] => Err BadChain
  | root :: rest =>
      ensure (Z.of_nat (length all_tickets) <=? MAX_DELEGATION_DEPTH + 1) BadChain;;
      for_each (check_offer_ticket (addr_id (addr root))) all_tickets;;
      ensure (negb (is_some (parent (body root)))) BadChain;;
      let root_key := resolved_issuer root in
      ensure (bool_decide (root_key ∈ tr)) BadChain;;
      map_err (λ _, BadSignature) (verify_body root_key (body root) (sig root));;
      verify_hops verify_offer_hop root rest;;
      Ok {| vf_caps := caps (body terminal); vf_root_issuer := root_key |}
  end.

(** [Option<AckReason>] in the source, with [None] for [Ok tt]; likewise [check_proof]. *)
Definition check_validity_windows (terminal : PortlTicket) (chain : list PortlTicket) (now : Z) :
    result AckReason unit :=
  for_each (λ t,
    ensure (negb (saturating_add U64_MAX now CLOCK_SKEW_SECS <? not_before (body t))) NotYetValid;;
    ensure (negb (not_after (body t) <=? now)) Expired) (chain ++ [terminal]).

Definition check_proof (terminal : PortlTicket) (offer : TicketOffer) : result AckReason unit :=
  match to (body terminal) with
  | None => Ok tt
  | Some holder =>
      proof ← ok_or (of_proof offer) ProofMissing;
      map_err (λ _, ProofInvalid)
        (verify_pop holder (ticket_id (sig terminal)) (of_client_nonce offer) proof)
  end.

Definition derive_peer_token (source_id tid : bytes) : bytes :=
  take 16 (sha256 (source_id ++ tid ++ PEER_TOKEN_DOMAIN)).

(** The checks of [evaluate_offer], with the values they leave. *)
Definition check_offer (input : AcceptanceInput) :
    result AckReason (PortlTicket * list PortlTicket * VerifiedChain) :=
  ensure (in_rate_limit input (in_source_id input)) RateLimited;;
  terminal ← decode_offer_ticket (of_ticket (in_offer input));
  chain ← try_map decode_offer_ticket (of_chain (in_offer input));
  verified ← verify_chain_without_time terminal chain (in_trust_roots input);
  ensure (negb (existsb (λ t, Rev.contains (in_revocations input) (ticket_id (sig t)))
                  (chain ++ [terminal]))) Revoked;;
  check_validity_windows terminal chain (in_now input);;
  check_proof terminal (in_offer input);;
  match in_mode input, bearer (body terminal) with
  | Listener, Some _ => Err (InternalError (Some "listener mode refuses master tickets"))
  | Gateway _ _ _, None => Err (InternalError (Some "gateway mode requires a master ticket"))
  | _, _ => Ok tt
  end;;
  Ok (terminal, chain, verified).

Definition evaluate_offer (input : AcceptanceInput) : AcceptanceOutcome :=
  match check_offer input with
  | Err reason => Rejected reason
  | Ok (terminal, chain, verified) =>
      let terminal_ticket_id := ticket_id (sig terminal) in
      Accepted (derive_peer_token (in_source_id input) terminal_ticket_id) (vf_caps verified)
        terminal_ticket_id (((λ t, ticket_id (sig t)) <$> chain) ++ [terminal_ticket_id])
        (vf_root_issuer verified) (to (body terminal)) (bearer (body terminal))
  end.

(** ** What acceptance means *)

Record acceptable (input : AcceptanceInput) (terminal : PortlTicket) (chain : list PortlTicket) :
    Prop := {
  ac_rate : in_rate_limit input (in_source_id input) = true;
  ac_ticket : decode (of_ticket (in_offer input)) = Ok terminal;
  ac_chain : Forall2 (λ bs t, decode bs = Ok t) (of_chain (in_offer input)) chain;
  ac_valid : ∃ root rest, chain ++ [terminal] = root :: rest
    ∧ valid_chain (chain ++ [terminal]) root (in_trust_roots input)
    ∧ Forall (ticket_in_force (addr_id (addr root)) (in_now input)) (chain ++ [terminal]);
  ac_unrevoked : Forall (λ t, Rev.contains (in_revocations input) (ticket_id (sig t)) = false)
    (chain ++ [terminal]);
  ac_proof : ∀ holder, to (body terminal) = Some holder → ∃ proof, of_proof (in_offer input) = Some proof
    ∧ verify_pop holder (ticket_id (sig terminal)) (of_client_nonce (in_offer input)) proof = Ok tt;
  ac_mode : match in_mode input with
            | Listener => bearer (body terminal) = None
            | Gateway _ _ _ => is_Some (bearer (body terminal))
            end;
}.

Lemma decode_offer_ticket_Ok bs t : decode_offer_ticket bs = Ok t ↔ decode bs = Ok t.
Proof.
  rewrite decode_iff, <- canonical_check_ticket_iff. unfold decode_offer_ticket. split.
  - intros Hd. inv_result. reflect_bool. by subst.
  - intros (Hf & Hc & Hto). rewrite Hf. simpl. rewrite Hc. simpl. rewrite Hto. simpl.
    by rewrite bool_decide_eq_true_2.
Qed.

Lemma verify_offer_hop_Ok par child : verify_offer_hop par child = Ok tt ↔ hop par child.
Proof.
  unfold verify_offer_hop. split.
  - intros Hv. inv_result.
    match goal with Hb : verify_body _ _ _ = Ok _ |- _ => apply verify_body_iff in Hb end.
    rewrite is_narrowing_iff in *. reflect_bool. split; try done. exists x. subst.
    split_and!; [done | done |]. unfold expected_depth.
    destruct (parent (body par)); [|congruence]. inv_result. subst. apply ok_or_Ok. congruence.
  - intros [(d & -> & Hid & Hd) Hs Hi Hn Hb Ha]. simpl.
    apply verify_body_iff in Hs as ->. apply is_narrowing_iff in Hn as ->. simpl.
    rewrite Hi, Hid, !bool_decide_eq_true_2 by done. simpl.
    rewrite (proj2 (Z.ltb_ge _ _) Hb), (proj2 (Z.ltb_ge _ _) Ha). simpl.
    unfold expected_depth in Hd. destruct (parent (body par)).
    + apply ok_or_Ok in Hd. rewrite Hd. simpl. by rewrite Z.eqb_refl.
    + injection Hd as ->. simpl. by rewrite Z.eqb_refl.
Qed.

Lemma check_offer_ticket_Ok tgt t :
  check_offer_ticket tgt t = Ok tt ↔ canonical_ticket t ∧ v t = 1 ∧ addr_id (addr t) = tgt.
Proof.
  unfold check_offer_ticket. rewrite !seq_Ok, !ensure_tt, map_err_Ok, canonical_check_ticket_iff,
    bool_decide_eq_true, Z.eqb_eq. done.
Qed.

Lemma verify_chain_without_time_Ok terminal chain tr vf :
  verify_chain_without_time terminal chain tr = Ok vf ↔
  ∃ root rest, chain ++ [terminal] = root :: rest ∧ valid_chain (chain ++ [terminal]) root tr
    ∧ Forall (λ t, canonical_ticket t ∧ v t = 1 ∧ addr_id (addr t) = addr_id (addr root))
        (chain ++ [terminal])
    ∧ vf = {| vf_caps := caps (body terminal); vf_root_issuer := resolved_issuer root |}.
Proof.
  unfold verify_chain_without_time. destruct (snoc_cons chain terminal) as (root & rest & Heq).
  rewrite Heq. cbv zeta. split.
  - destruct (for_each _ (root :: rest)) as [[]|] eqn:Hall; intros Hv; inv_result.
    subst. exists root, rest. split; [done |].
    match goal with Hb : verify_body _ _ _ = Ok _ |- _ => apply verify_body_iff in Hb end.
    match goal with Hb : verify_hops _ _ _ = Ok _ |- _ =>
      apply verify_hops_Ok, (sorted_iff _ _ _ verify_offer_hop_Ok) in Hb as Hh end.
    split_and!; [|eapply Forall_impl; [exact Hall |]; intros t; apply check_offer_ticket_Ok | done].
    split; try done; [by destruct (parent (body root)) | by reflect_bool |].
    reflect_bool. unfold MAX_DELEGATION_DEPTH in *. lia.
  - intros (? & ? & [= <- <-] & [Hp Ht Hs Hh Hl] & Hf & ->).
    assert (for_each (check_offer_ticket (addr_id (addr root))) (root :: rest) = Ok tt) as ->.
    { apply for_each_Ok. eapply Forall_impl; [exact Hf |]. intros t. apply check_offer_ticket_Ok. }
    rewrite (proj2 (Z.leb_le _ _)) by (unfold MAX_DELEGATION_DEPTH; simpl in *; lia).
    simpl. rewrite Hp, bool_decide_eq_true_2 by done. simpl.
    apply verify_body_iff in Hs as ->. simpl.
    rewrite (proj2 (verify_hops_Ok verify_offer_hop root rest)); [done |].
    by apply (sorted_iff _ _ _ verify_offer_hop_Ok).
Qed.

Lemma check_validity_windows_Ok terminal chain now :
  check_validity_windows terminal chain now = Ok tt ↔
  Forall (λ t, not_before (body t) ≤ saturating_add U64_MAX now 60 ∧ now < not_after (body t))
    (chain ++ [terminal]).
Proof.
  unfold check_validity_windows. rewrite for_each_Ok. apply Forall_iff. intros t.
  rewrite seq_Ok, !ensure_tt, !negb_true_iff, Z.ltb_ge, Z.leb_gt. done.
Qed.

Lemma check_proof_Ok terminal offer :
  check_proof terminal offer = Ok tt ↔
  ∀ holder, to (body terminal) = Some holder → ∃ proof, of_proof offer = Some proof
    ∧ verify_pop holder (ticket_id (sig terminal)) (of_client_nonce offer) proof = Ok tt.
Proof.
  unfold check_proof. destruct (to (body terminal)) as [holder|]; [|naive_solver].
  rewrite bind_Ok. setoid_rewrite ok_or_Ok. setoid_rewrite map_err_Ok. naive_solver.
Qed.

Lemma decode_chain_Ok bss chain :
  try_map decode_offer_ticket bss = Ok chain ↔ Forall2 (λ bs t, decode bs = Ok t) bss chain.
Proof.
  rewrite try_map_Ok. split; intros Hf; (eapply Forall2_impl; [exact Hf |]);
    intros bs t; apply decode_offer_ticket_Ok.
Qed.

Lemma unrevoked_iff rv (l : list PortlTicket) :
  negb (existsb (λ t, Rev.contains rv (ticket_id (sig t))) l) = true ↔
  Forall (λ t, Rev.contains rv (ticket_id (sig t)) = false) l.
Proof.
  induction l as [|t l IH]; simpl; [by split |]. rewrite Forall_cons, <- IH.
  rewrite negb_orb, andb_true_iff, negb_true_iff. done.
Qed.

Lemma mode_check_Ok mode (br : option bytes) :
  match mode, br with
  | Listener, Some _ => Err (InternalError (Some "listener mode refuses master tickets"))
  | Gateway _ _ _, None => Err (InternalError (Some "gateway mode requires a master ticket"))
  | _, _ => Ok tt
  end = Ok tt ↔
  match mode with Listener => br = None | Gateway _ _ _ => is_Some br end.
Proof. destruct mode, br; naive_solver. Qed.

Lemma in_force_split tgt now (l : list PortlTicket) :
  Forall (ticket_in_force tgt now) l ↔
  Forall (λ t, canonical_ticket t ∧ v t = 1 ∧ addr_id (addr t) = tgt) l
  ∧ Forall (λ t, not_before (body t) ≤ saturating_add U64_MAX now 60 ∧ now < not_after (body t)) l.
Proof.
  rewrite <- Forall_and. apply Forall_iff. intros t.
  split; [by intros [] | by intros [(? & ? & ?) [? ?]]].
Qed.

Lemma check_offer_Ok input terminal chain vf :
  check_offer input = Ok (terminal, chain, vf) ↔
  acceptable input terminal chain ∧ vf_caps vf = caps (body terminal)
  ∧ head (resolved_issuer <$> chain ++ [terminal]) = Some (vf_root_issuer vf).
Proof.
  unfold check_offer. rewrite bind_tt, ensure_tt, bind_Ok. split.
  - intros (Hr & ? & Ht%decode_offer_ticket_Ok & Hc).
    apply bind_Ok in Hc as (? & Hch%decode_chain_Ok & Hc).
    apply bind_Ok in Hc as (? & (root & rest & Heq & Hvc & Hf & ->)%verify_chain_without_time_Ok & Hc).
    rewrite !bind_tt, ensure_tt, unrevoked_iff, check_validity_windows_Ok, check_proof_Ok,
      mode_check_Ok in Hc.
    destruct Hc as (Hrev & Hw & Hp & Hm & [= -> -> <-]). split_and!; [|done | by rewrite Heq].
    split; try done. exists root, rest. split_and!; [done | done |]. by apply in_force_split.
  - intros ([Hr Ht Hch (root & rest & Heq & Hvc & Hf) Hrev Hp Hm] & Hcaps & Hroot). split; [done |].
    exists terminal. split; [by apply decode_offer_ticket_Ok |]. apply bind_Ok.
    exists chain. split; [by apply decode_chain_Ok |]. apply bind_Ok. apply in_force_split in Hf as [Hf Hw].
    exists vf. rewrite !bind_tt, ensure_tt, unrevoked_iff, check_validity_windows_Ok, check_proof_Ok,
      mode_check_Ok. split_and!; try done. apply verify_chain_without_time_Ok.
    exists root, rest. split_and!; try done. rewrite Heq in Hroot. injection Hroot as Hroot.
    destruct vf; simpl in *. by subst.
Qed.

(** ** The handshake of [serve_connection]

    [now] and [ack_now] are the clock readings before evaluation and at the ack.  The
    ack is written to the stream; without a session the handler only waits for the
    connection to close. *)
Context `{!Postcard TicketOffer}.

Definition handshake (offer_bytes source_id : bytes) (tr : TrustRoots) (rv : Rev.RevocationSet)
    (rate_limit : bytes → bool) (mode : AgentMode) (now ack_now : Z) : TicketAck * option Session :=
  let outcome := match from_bytes offer_bytes with
                 | Some offer => evaluate_offer {|
                     in_offer := offer; in_source_id := source_id; in_trust_roots := tr;
                     in_revocations := rv; in_now := now; in_rate_limit := rate_limit; in_mode := mode |}
                 | None => Rejected BadSignature
                 end in
  match outcome with
  | Accepted token c tid chain_ids issuer_id holder_id br =>
      ({| ack_ok := true; ack_reason := None; ack_peer_token := Some token;
          ack_effective_caps := Some c; ack_server_time := ack_now |},
       Some {| se_peer_token := token; se_caps := c; se_ticket_id := tid;
               se_ticket_chain_ids := chain_ids; se_caller_endpoint_id := source_id;
               se_ticket_issuer_id := issuer_id; se_ticket_holder_id := holder_id; se_bearer := br |})
  | Rejected reason =>
      ({| ack_ok := false; ack_reason := Some reason; ack_peer_token := None;
          ack_effective_caps := None; ack_server_time := ack_now |}, None)
  end.

(** ** Properties *)

Lemma acceptable_authority input terminal chain :
  acceptable input terminal chain → ∃ k, k ∈ in_trust_roots input
    ∧ head (resolved_issuer <$> chain ++ [terminal]) = Some k ∧ resolved_issuer terminal = k
    ∧ Forall (λ t, signed_by k (body t) (sig t)) (chain ++ [terminal]).
Proof.
  intros [_ _ _ (root & rest & Heq & Hvc & _) _ _ _]. exists (resolved_issuer root).
  rewrite Heq in *. pose proof (valid_chain_authority _ _ _ Hvc) as Ha. rewrite Forall_forall in Ha.
  split_and!; [by apply Hvc | done | | by apply Forall_forall; intros t Ht; apply Ha].
  apply Ha. rewrite <- Heq. apply elem_of_app. right. by left.
Qed.

(** C2: the agent accepts an offer exactly when the source is within its rate, ticket
    and chain decode canonically, the chain links up to a trusted root with every
    ticket in force, no ticket of it is revoked, a holder-bound ticket comes with a
    valid proof of possession, and the bearer fits the agent mode; the outcome carries
    the terminal ticket's capabilities, ids, holder and bearer, and the root issuer. *)
Theorem evaluate_offer_exact input tok c tid chain_ids iss holder br :
  evaluate_offer input = Accepted tok c tid chain_ids iss holder br ↔
  ∃ terminal chain, acceptable input terminal chain
    ∧ tid = ticket_id (sig terminal) ∧ tok = derive_peer_token (in_source_id input) tid
    ∧ c = caps (body terminal) ∧ chain_ids = (λ t, ticket_id (sig t)) <$> chain ++ [terminal]
    ∧ iss = resolved_issuer terminal ∧ holder = to (body terminal) ∧ br = bearer (body terminal).
Proof.
  unfold evaluate_offer. split.
  - destruct (check_offer input) as [[[terminal chain] vf]|] eqn:Hc; [|done].
    intros [= <- <- <- <- <- <- <-]. apply check_offer_Ok in Hc as (Hac & Hcaps & Hroot).
    exists terminal, chain. destruct (acceptable_authority _ _ _ Hac) as (k & _ & Hk & Hres & _).
    rewrite fmap_app. split_and!; try done. congruence.
  - intros (terminal & chain & Hac & -> & -> & -> & -> & -> & -> & ->).
    destruct (acceptable_authority _ _ _ Hac) as (k & _ & Hk & Hres & _).
    rewrite (proj2 (check_offer_Ok input terminal chain
      {| vf_caps := caps (body terminal); vf_root_issuer := k |})) by done.
    simpl. by rewrite fmap_app, Hres.
Qed.

(** What a session says of the offer it was accepted on *)
Lemma handshake_acceptable offer_bytes source_id tr rv rate mode now ack_now ack se :
  handshake offer_bytes source_id tr rv rate mode now ack_now = (ack, Some se) →
  ∃ offer terminal chain, from_bytes offer_bytes = Some offer
    ∧ acceptable {| in_offer := offer; in_source_id := source_id; in_trust_roots := tr; in_revocations := rv; in_now := now;
                    in_rate_limit := rate; in_mode := mode |} terminal chain
    ∧ se_caps se = caps (body terminal) ∧ se_ticket_id se = ticket_id (sig terminal)
    ∧ head (resolved_issuer <$> chain ++ [terminal]) = Some (se_ticket_issuer_id se).
Proof.
  unfold handshake. destruct (from_bytes offer_bytes) as [offer|]; [|done].
  destruct (evaluate_offer _) as [tok c tid chain_ids iss holder br|] eqn:He; [|done].
  intros [= _ <-]. simpl. unfold evaluate_offer in He.
  destruct (check_offer _) as [[[terminal chain] vf]|] eqn:Hc; [|done].
  apply check_offer_Ok in Hc as (Hac & Hcaps & Hroot). injection He as <- <- <- <- <- <- <-. by exists offer, terminal, chain.
Qed.

(** Of an accepted chain every ticket is signed by the issuer of the session, in force, not revoked, and permits what the
    session may do. *)
Lemma acceptable_chain input terminal chain t k : acceptable input terminal chain → t ∈ chain ++ [terminal] →
  head (resolved_issuer <$> chain ++ [terminal]) = Some k →
  k ∈ in_trust_roots input ∧ signed_by k (body t) (sig t)
  ∧ not_before (body t) ≤ saturating_add U64_MAX (in_now input) 60 ∧ in_now input < not_after (body t)
  ∧ Rev.contains (in_revocations input) (ticket_id (sig t)) = false ∧ attenuates (caps (body t)) (caps (body terminal)).
Proof.
  intros Hac Ht Hk. destruct (acceptable_authority _ _ _ Hac) as (k' & Hin & Hk' & _ & Hsigned).
  rewrite Hk in Hk'. injection Hk' as <-. destruct Hac as [_ _ _ (root & rest & Heq & Hvc & Hf) Hrev _ _].
  rewrite Forall_forall in *. destruct (Hf t Ht). split_and!; [done | by apply Hsigned | done | done | by apply Hrev |].
  apply elem_of_app in Ht as [Ht|Ht%list_elem_of_singleton]; [|by subst]. eapply linked_attenuates; [apply Hvc | done].
Qed.

Lemma handshake_authority offer_bytes source_id tr rv rate mode now ack_now ack se :
  handshake offer_bytes source_id tr rv rate mode now ack_now = (ack, Some se) →
  ack_ok ack = true ∧ ack_peer_token ack = Some (se_peer_token se)
  ∧ ack_effective_caps ack = Some (se_caps se)
  ∧ Forall (λ i, Rev.contains rv i = false) (se_ticket_chain_ids se)
  ∧ (match mode with Listener => se_bearer se = None | Gateway _ _ _ => is_Some (se_bearer se) end)
  ∧ ∃ chain : list PortlTicket,
      last (ticket_id ∘ sig <$> chain) = Some (se_ticket_id se)
      ∧ se_ticket_issuer_id se ∈ tr
      ∧ Forall (λ t, signed_by (se_ticket_issuer_id se) (body t) (sig t)
                 ∧ attenuates (caps (body t)) (se_caps se) ∧ now < not_after (body t)) chain.
Proof.
  unfold handshake. destruct (from_bytes offer_bytes) as [offer|]; [|done].
  destruct (evaluate_offer _) as [tok c tid chain_ids iss holder br|] eqn:He; [|done].
  intros [= <- <-]. simpl. unfold evaluate_offer in He.
  destruct (check_offer _) as [[[terminal chain] vf]|] eqn:Hc; [|done].
  apply check_offer_Ok in Hc as (Hac & Hcaps & Hroot). injection He as <- <- <- <- <- <- <-.
  destruct (acceptable_authority _ _ _ Hac) as (k & Hk & Hk' & _ & Hsigned).
  rewrite Hroot in Hk'. injection Hk' as ->.
  destruct Hac as [_ _ _ (root & rest & Heq & Hvc & Hf) Hrev _ Hm]. simpl in *.
  split_and!; try done.
  - change [ticket_id (sig terminal)] with ((λ t, ticket_id (sig t)) <$> [terminal]).
    rewrite <- fmap_app. by apply Forall_fmap.
  - exists (chain ++ [terminal]). split_and!; [rewrite fmap_app; simpl; by rewrite last_snoc | done |].
    rewrite Forall_forall in *. intros t Ht. split_and!; [by apply Hsigned | | by apply (Hf t Ht)].
    rewrite Hcaps. apply elem_of_app in Ht as [Ht|Ht%list_elem_of_singleton]; [|by subst].
    eapply linked_attenuates; [apply Hvc | done].
Qed.

(** End to end, a session exists only after a positive acknowledgement with the same
    token and capabilities; its chain ids hold no revoked id; there is a trusted key
    under which a chain ending in its ticket is signed, and every request its
    capabilities permit is permitted by each ticket of that chain.  A listener session
    carries no bearer, a gateway session does. *)
Theorem session_authority offer_bytes source_id tr rv rate mode now ack_now ack se :
  handshake offer_bytes source_id tr rv rate mode now ack_now = (ack, Some se) →
  ack_ok ack = true ∧ ack_peer_token ack = Some (se_peer_token se)
  ∧ ack_effective_caps ack = Some (se_caps se)
  ∧ Forall (λ i, Rev.contains rv i = false) (se_ticket_chain_ids se)
  ∧ (match mode with Listener => se_bearer se = None | Gateway _ _ _ => is_Some (se_bearer se) end)
  ∧ ∃ chain : list PortlTicket,
      last (ticket_id ∘ sig <$> chain) = Some (se_ticket_id se)
      ∧ se_ticket_issuer_id se ∈ tr
      ∧ Forall (λ t, signed_by (se_ticket_issuer_id se) (body t) (sig t)
                 ∧ attenuates (caps (body t)) (se_caps se) ∧ now < not_after (body t)) chain.
Proof. apply handshake_authority. Qed.

(** C38: on offers it accepts, the agent's own chain walk agrees with [verify_chain]
    except for the bearer: [verify_chain] accepts the same chain, with the same
    capabilities, exactly when the bearer is the same on every ticket. *)
Theorem offer_agrees_with_verify_chain input terminal chain c :
  acceptable input terminal chain →
  verify_chain terminal chain (in_trust_roots input) (in_now input) = Ok c ↔
  c = caps (body terminal) ∧ Forall (λ t, bearer (body t) = bearer (body terminal)) chain.
Proof.
  intros [_ _ _ (root & rest & Heq & Hvc & Hf) _ _ _]. rewrite verify_chain_iff. split.
  - intros [(? & ? & _ & _ & _ & Hs) ->]. split; [done |].
    by apply (sorted_constant (λ t : PortlTicket, bearer (body t))).
  - intros [-> Hb]. split; [|done]. exists root, rest. split_and!; try done.
    by apply (sorted_constant (λ t : PortlTicket, bearer (body t))).
Qed.

End pipeline.

(** ** A concrete agent *)

Module Agent1.
Import Params Demo.

#[export] Instance tok_offer : Tok TicketOffer :=
  tok_iso (λ o, (of_ticket o, of_chain o, of_proof o, of_client_nonce o))
    (λ '(a, b, c, d), {| of_ticket := a; of_chain := b; of_proof := c; of_client_nonce := d |})
    ltac:(by intros []).

Definition no_revocations : Rev.RevocationSet :=
  {| Rev.ids := ∅; Rev.records := []; Rev.live_sessions := ∅; Rev.max_bytes := 1000 |}.

(** The holder's proof is attached where the ticket asks for one. *)
Definition offer_of (terminal : PortlTicket) (chain : list PortlTicket) : TicketOffer := {|
  of_ticket := encode_bytes terminal; of_chain := encode_bytes <$> chain;
  of_proof := (λ _, compute_pop_sig holder_key (ticket_id (sig terminal)) [1]) <$> to (body terminal);
  of_client_nonce := [1] |}.

Definition input_of (terminal : PortlTicket) (chain : list PortlTicket) : AcceptanceInput := {|
  in_offer := offer_of terminal chain; in_source_id := [4]; in_trust_roots := trusted;
  in_revocations := no_revocations; in_now := 120; in_rate_limit := λ _, true; in_mode := Listener |}.
End Agent1.

Section concrete.
Import Params Demo Agent1.

(** The bearer difference is real: a bearer-less ticket delegated from a master
    ticket is accepted by an agent in listener mode, which refuses the master ticket
    itself, although [verify_chain] rejects that chain. *)
Theorem master_delegation_accepted :
  (∃ tok c tid ids iss holder, evaluate_offer (input_of master_child [master])
     = Accepted tok c tid ids iss holder None)
  ∧ evaluate_offer (input_of master [])
     = Rejected (InternalError (Some "listener mode refuses master tickets"))
  ∧ is_ok (verify_chain master_child [master] trusted 120) = false.
Proof.
  split_and!.
  - eexists _, _, _, _, _, _. vm_compute. reflexivity.
  - vm_compute. reflexivity.
  - vm_compute. reflexivity.
Qed.

(** ** Witnesses *)

Definition offer_bytes : bytes := put (offer_of child [root]).

Lemma session_authority_witness :
  ∃ ack se, handshake offer_bytes [4] trusted no_revocations (λ _, true) Listener 150 151
    = (ack, Some se) ∧ se_ticket_issuer_id se ∈ trusted ∧ se_bearer se = None.
Proof.
  destruct (handshake offer_bytes [4] trusted no_revocations (λ _, true) Listener 150 151)
    as [ack [se|]] eqn:Hh; [|vm_compute in Hh; discriminate].
  exists ack, se. split; [reflexivity |].
  destruct (session_authority offer_bytes [4] trusted no_revocations (λ _, true) Listener 150 151 ack se Hh)
    as (_ & _ & _ & _ & Hb & chain & _ & Hi & _).
  split; [exact Hi | exact Hb].
Defined.

Lemma offer_agrees_with_verify_chain_witness :
  verify_chain child [root] trusted 120 = Ok narrow_caps.
Proof.
  apply (offer_agrees_with_verify_chain (input_of child [root]) child [root]).
  - destruct (check_offer (input_of child [root])) as [[[t c] vf]|] eqn:Hc; [|vm_compute in Hc; discriminate].
    apply check_offer_Ok in Hc as Hac. destruct Hac as [Hac _].
    assert (t = child ∧ c = [root]) as [-> ->]; [|exact Hac].
    vm_compute in Hc. injection Hc as <- <- _. split; vm_compute; reflexivity.
  - split; [vm_compute; reflexivity |]. repeat constructor; vm_compute; reflexivity.
Defined.
End concrete.
