(* ===== verification/UdpRegistry.v ===== *)
(** * UDP forwarding sessions

    crates/portl-agent/src/udp_registry.rs: the sessions of the agent, their owners,
    the per-connection quota, lingering after disconnect, and the routing of datagrams
    to targets; with the datagram handling of udp_handler.rs.  A [Connection] is its
    [stable_id]; the fields [connection] and [connection_id] of the source are always
    set together and are one field here.  Clock readings, random draws, DNS answers and
    socket creation are arguments.  Operations that the registry serialises by its lock
    are single steps; a control stream that ends holds no lock, and detaches the session in one step and
    takes it off the counter in another. *)

From stdpp Require Import pretty.
From S2P Require Import Prelude Schema Canonical Codec Enforce.

Module Udp.

(** ** Data *)

Definition DEFAULT_UDP_SESSION_LINGER_SECS : Z := 60.
Definition MAX_SESSIONS_PER_CONNECTION : Z := 16.
Definition MAX_SRC_TAGS_PER_SESSION : Z := 1024.
Definition MAX_UDP_DATAGRAM_BYTES : Z := 1200.
Definition OWNER_FINGERPRINT_DOMAIN : bytes := str_bytes "portl/udp-session/v1".

(** [std::net::IpAddr], as text *)
Abbreviation IpAddr := string.

Record ResolvedUdpBind := { rb_bind : UdpBind; rb_target_ip : IpAddr }.

(** The reply task runs as long as its entry exists. *)
Record SrcTagEntry := { st_target : IpAddr * Z; st_socket : Z; st_last_used : Z }.

Record UdpSession := {
  us_session_id : bytes;
  us_owner_fingerprint : bytes;
  us_cancelled : bool;
  us_binds : list ResolvedUdpBind;
  us_connection_id : option Z;
  us_active_controls : Z;
  us_linger_until : option Z;
  us_src_tags : gmap Z SrcTagEntry;
}.

Record Registry := {
  rg_linger_secs : Z;
  rg_sessions : gmap bytes UdpSession;
  rg_connection_sessions : gmap Z Z;
}.

Record UdpDatagram := {
  dg_session_id : bytes;
  dg_target_port : Z;
  dg_src_tag : Z;
  dg_payload : bytes;
}.

Inductive AttachResult := Attached (counts_as_session : bool) | CreateFresh.

Definition with_sessions (r : Registry) (m : gmap bytes UdpSession) : Registry := {|
  rg_linger_secs := rg_linger_secs r; rg_sessions := m;
  rg_connection_sessions := rg_connection_sessions r |}.
Definition with_counts (r : Registry) (m : gmap Z Z) : Registry := {|
  rg_linger_secs := rg_linger_secs r; rg_sessions := rg_sessions r; rg_connection_sessions := m |}.

Definition new (linger_secs : Z) : Registry :=
  {| rg_linger_secs := linger_secs; rg_sessions := ∅; rg_connection_sessions := ∅ |}.

(** ** Per-connection counters *)

Definition connection_session_count (r : Registry) (c : Z) : Z :=
  default 0 (rg_connection_sessions r !! c).

Definition ensure_connection_quota (r : Registry) (c : Z) : result string unit :=
  ensure (negb (MAX_SESSIONS_PER_CONNECTION <=? connection_session_count r c)) "session quota exceeded".

Definition increment_connection_sessions (r : Registry) (c : Z) : Registry :=
  with_counts r (<[c := match rg_connection_sessions r !! c with Some n => n + 1 | None => 1 end]>
    (rg_connection_sessions r)).

Definition decrement_connection_sessions (r : Registry) (c : Z) : Registry :=
  match rg_connection_sessions r !! c with
  | Some n => if n <=? 1 then with_counts r (delete c (rg_connection_sessions r))
              else with_counts r (<[c := n - 1]> (rg_connection_sessions r))
  | None => r
  end.

(** ** One session *)

Definition session_new (session_id owner : bytes) (binds : list ResolvedUdpBind) (c : Z) : UdpSession := {|
  us_session_id := session_id; us_owner_fingerprint := owner; us_cancelled := false;
  us_binds := binds; us_connection_id := Some c; us_active_controls := 1; us_linger_until := None;
  us_src_tags := ∅ |}.

Definition is_expired (s : UdpSession) (now : Z) : bool :=
  match us_linger_until s with Some deadline => deadline <=? now | None => false end.

Definition attach (s : UdpSession) (binds : list ResolvedUdpBind) (c : Z) (owner : bytes) :
    result string (AttachResult * UdpSession) :=
  ensure (bool_decide (us_owner_fingerprint s = owner)) "udp session owner mismatch";;
  let attached counts := Ok (Attached counts, {|
    us_session_id := us_session_id s; us_owner_fingerprint := us_owner_fingerprint s;
    us_cancelled := us_cancelled s; us_binds := binds; us_connection_id := Some c;
    us_active_controls := if counts : bool then 1 else us_active_controls s + 1;
    us_linger_until := None; us_src_tags := us_src_tags s |}) in
  match us_connection_id s with
  | Some current =>
      if current =? c then attached false
      else if is_some (us_linger_until s) then attached true
      else Ok (CreateFresh, s)
  | None => attached true
  end.

Definition session_mark_linger_if_current (s : UdpSession) (c linger_until : Z) : bool * UdpSession :=
  if bool_decide (us_connection_id s ≠ Some c) then (false, s)
  else if 1 <? us_active_controls s then
    (false, {| us_session_id := us_session_id s; us_owner_fingerprint := us_owner_fingerprint s;
       us_cancelled := us_cancelled s; us_binds := us_binds s; us_connection_id := us_connection_id s;
       us_active_controls := us_active_controls s - 1; us_linger_until := us_linger_until s;
       us_src_tags := us_src_tags s |})
  else
    (true, {| us_session_id := us_session_id s; us_owner_fingerprint := us_owner_fingerprint s;
       us_cancelled := us_cancelled s; us_binds := us_binds s; us_connection_id := None;
       us_active_controls := 0; us_linger_until := Some linger_until; us_src_tags := us_src_tags s |}).

(** What holders of the removed session see. *)
Definition session_shutdown (s : UdpSession) : UdpSession := {|
  us_session_id := us_session_id s; us_owner_fingerprint := us_owner_fingerprint s;
  us_cancelled := true; us_binds := us_binds s; us_connection_id := None; us_active_controls := 0;
  us_linger_until := Some 0; us_src_tags := ∅ |}.

(** [min_by_key] over the entries *)
Definition older (best : option (Z * Z)) (kv : Z * SrcTagEntry) : option (Z * Z) :=
  match best with
  | Some (_, used) => if st_last_used kv.2 <? used then Some (kv.1, st_last_used kv.2) else best
  | None => Some (kv.1, st_last_used kv.2)
  end.

Definition oldest_src_tag (tags : gmap Z SrcTagEntry) : option Z :=
  fst <$> foldl older None (map_to_list tags).

Definition with_src_tags (s : UdpSession) (t : gmap Z SrcTagEntry) : UdpSession := {|
  us_session_id := us_session_id s; us_owner_fingerprint := us_owner_fingerprint s;
  us_cancelled := us_cancelled s; us_binds := us_binds s; us_connection_id := us_connection_id s;
  us_active_controls := us_active_controls s; us_linger_until := us_linger_until s; us_src_tags := t |}.

Definition bind_covers (port : Z) (b : ResolvedUdpBind) : bool :=
  ((target_port_range (rb_bind b)).1 <=? port) && (port <=? (target_port_range (rb_bind b)).2).

(** The target and socket the payload is sent with.  [socket] is the new socket, [None]
    if binding it fails. *)
Definition route_to_target (s : UdpSession) (d : UdpDatagram) (instant : Z) (socket : option Z) :
    result string (IpAddr * Z * Z) * UdpSession :=
  match List.find (bind_covers (dg_target_port d)) (us_binds s) with
  | None => (Err ("target port " +:+ pretty (Z.to_N (dg_target_port d)) +:+ " is not bound"), s)
  | Some b =>
      let target := (rb_target_ip b, dg_target_port d) in
      match us_src_tags s !! dg_src_tag d with
      | Some entry =>
          (Ok (target, st_socket entry), with_src_tags s (<[dg_src_tag d := {|
             st_target := target; st_socket := st_socket entry; st_last_used := instant |}]> (us_src_tags s)))
      | None =>
          let tags := if MAX_SRC_TAGS_PER_SESSION <=? Z.of_nat (size (us_src_tags s))
                      then match oldest_src_tag (us_src_tags s) with
                           | Some evicted => delete evicted (us_src_tags s)
                           | None => us_src_tags s
                           end
                      else us_src_tags s in
          match socket with
          | None => (Err "bind udp src-tag socket", with_src_tags s tags)
          | Some sock =>
              (Ok (target, sock), with_src_tags s (<[dg_src_tag d := {|
                 st_target := target; st_socket := sock; st_last_used := instant |}]> tags))
          end
      end
  end.

(** ** The registry *)

(** The first usable draw; [None] while the loop still runs. *)
Definition allocate_session_id_locked (r : Registry) (draws : list bytes) : option bytes :=
  head (filter (λ d, d ≠ replicate 8 0 ∧ rg_sessions r !! d = None) draws).

Definition remove_session_locked (r : Registry) (session_id : bytes) : Registry :=
  match rg_sessions r !! session_id with
  | Some s =>
      let r' := with_sessions r (delete session_id (rg_sessions r)) in
      match us_connection_id s with
      | Some c => decrement_connection_sessions r' c
      | None => r'
      end
  | None => r
  end.

(** Number of sessions attached to connection [c]. *)
Definition attached_in (m : gmap bytes UdpSession) (c : Z) : Z :=
  Z.of_nat (size (filter (λ kv, us_connection_id kv.2 = Some c) m)).
Abbreviation attached r := (attached_in (rg_sessions r)).

Section registry.
Context `{Sha256}.

Definition owner_fingerprint (peer_token : bytes) (ticket_id_hex : string) : bytes :=
  sha256 (peer_token ++ str_bytes ticket_id_hex ++ OWNER_FINGERPRINT_DOMAIN).

(** [lookup host port] is the first address DNS gives, if it answers at all. *)
Definition resolve_binds (lookup : string → Z → option (option IpAddr)) (binds : list UdpBind) :
    result string (list ResolvedUdpBind) :=
  try_map (λ b,
    addrs ← ok_or (lookup (target_host b) (target_port_range b).1)
      ("resolve udp target " +:+ target_host b);
    ip ← ok_or addrs ("no socket addresses resolved for " +:+ target_host b);
    Ok {| rb_bind := b; rb_target_ip := ip |}) binds.

(** The end of [attach_or_create]: a new session under a fresh id. *)
Definition create_session (r : Registry) (owner : bytes) (binds : list ResolvedUdpBind) (c : Z)
    (draws : list bytes) : option (result string bytes * Registry) :=
  match ensure_connection_quota r c with
  | Err e => Some (Err e, r)
  | Ok _ =>
      session_id ← allocate_session_id_locked r draws;
      let r' := with_sessions r (<[session_id := session_new session_id owner binds c]> (rg_sessions r)) in
      Some (Ok session_id, increment_connection_sessions r' c)
  end.

Definition attach_or_create (r : Registry) (lookup : string → Z → option (option IpAddr))
    (requested_session_id : bytes) (binds : list UdpBind) (c : Z) (peer_token : bytes)
    (ticket_id_hex : string) (now : Z) (draws : list bytes) : option (result string bytes * Registry) :=
  match resolve_binds lookup binds with
  | Err e => Some (Err e, r)
  | Ok resolved =>
      let owner := owner_fingerprint peer_token ticket_id_hex in
      match (if decide (requested_session_id = replicate 8 0) then None
             else rg_sessions r !! requested_session_id) with
      | None => create_session r owner resolved c draws
      | Some existing =>
          if is_expired existing now then
            create_session (remove_session_locked r requested_session_id) owner resolved c draws
          else
            match attach existing resolved c owner with
            | Err e => Some (Err e, r)
            | Ok (CreateFresh, _) => create_session r owner resolved c draws
            | Ok (Attached counts, existing') =>
                let r' := with_sessions r (<[requested_session_id := existing']> (rg_sessions r)) in
                if counts then
                  match ensure_connection_quota r' c with
                  | Err e => Some (Err e, r')
                  | Ok _ => Some (Ok requested_session_id, increment_connection_sessions r' c)
                  end
                else Some (Ok requested_session_id, r')
            end
      end
  end.

Definition get_live (r : Registry) (session_id : bytes) (now : Z) : option UdpSession * Registry :=
  match rg_sessions r !! session_id with
  | None => (None, r)
  | Some s => if is_expired s now then (None, remove_session_locked r session_id) else (Some s, r)
  end.

(** [mark_linger_if_current] up to its decrement, and whether it is made *)
Definition detach_if_current (r : Registry) (session_id : bytes) (c now : Z) : Registry * bool :=
  match get_live r session_id now with
  | (None, r') => (r', false)
  | (Some s, r') =>
      let '(detached, s') :=
        session_mark_linger_if_current s c (wrapping 64 (now + rg_linger_secs r')) in
      (with_sessions r' (<[session_id := s']> (rg_sessions r')), detached)
  end.

Definition mark_linger_if_current (r : Registry) (session_id : bytes) (c now : Z) : Registry :=
  let '(r', detached) := detach_if_current r session_id c now in
  if detached then decrement_connection_sessions r' c else r'.

Definition gc_expired (r : Registry) (now : Z) : Registry :=
  foldl (λ r kv, if is_expired kv.2 now then remove_session_locked r kv.1 else r) r
    (map_to_list (rg_sessions r)).

Definition shutdown (r : Registry) : Registry :=
  with_counts (foldl remove_session_locked r (map_to_list (rg_sessions r)).*1) ∅.

(** ** udp_handler.rs: one datagram of [datagram_pump] *)

Inductive DatagramEvent :=
  | SendTo (socket : Z) (ip : IpAddr) (port : Z) (payload : bytes)
  | SendError (c : Z) (port src_tag : Z) (message : string)
  | Dropped (reason : string).

(** [send_error] says nothing on a session without a connection. *)
Definition send_error (s : UdpSession) (port src_tag : Z) (message : string) : list DatagramEvent :=
  match us_connection_id s with Some c => [SendError c port src_tag message] | None => [] end.

(** [sent] is the error text of a failing [send_to], if it fails. *)
Definition handle_datagram (r : Registry) (len : Z) (decoded : option UdpDatagram) (now instant : Z)
    (socket : option Z) (sent : option string) : list DatagramEvent * Registry :=
  match decoded with
  | None => ([Dropped "decode_failed"], r)
  | Some d =>
      match get_live r (dg_session_id d) now with
      | (None, r') => ([Dropped "unknown_session"], r')
      | (Some s, r') =>
          if MAX_UDP_DATAGRAM_BYTES <? len then
            (Dropped "payload_too_large"
              :: send_error s (dg_target_port d) (dg_src_tag d) "payload too large", r')
          else
            let '(res, s') := route_to_target s d instant socket in
            let r'' := with_sessions r' (<[dg_session_id d := s']> (rg_sessions r')) in
            match res with
            | Ok ((ip, port), sock) =>
                (SendTo sock ip port (dg_payload d)
                  :: match sent with
                     | None => []
                     | Some e => Dropped "route_failed" :: send_error s' (dg_target_port d) (dg_src_tag d) e
                     end, r'')
            | Err e => (Dropped "route_failed" :: send_error s' (dg_target_port d) (dg_src_tag d) e, r'')
            end
      end
  end.

(** ** Invariants *)

(** A session is attached to a connection, with at least one control stream, or
    lingers (or is shut down) without one. *)
Record session_wf (session_id : bytes) (s : UdpSession) : Prop := {
  sw_id : us_session_id s = session_id;
  sw_state : match us_connection_id s with
             | Some _ => us_linger_until s = None ∧ 1 ≤ us_active_controls s
             | None => is_Some (us_linger_until s) ∧ us_active_controls s = 0
             end;
  sw_tags : Z.of_nat (size (us_src_tags s)) ≤ MAX_SRC_TAGS_PER_SESSION;
}.

Definition here (s : UdpSession) (c : Z) : Z :=
  if decide (us_connection_id s = Some c) then 1 else 0.

(** [p] are the connections of sessions that were detached and are still counted. *)
Definition counted_still (p : list Z) (c : Z) : Z := Z.of_nat (length (filter (λ c', c' = c) p)).

Section pending.
Variable p : list Z.

Record registry_wf (r : Registry) : Prop := {
  rw_sessions : map_Forall session_wf (rg_sessions r);
  rw_positive : ∀ c n, rg_connection_sessions r !! c = Some n → 1 ≤ n;
  rw_counted : ∀ c, connection_session_count r c ≤ attached r c + counted_still p c;
  rw_quota : ∀ c, connection_session_count r c ≤ MAX_SESSIONS_PER_CONNECTION;
}.

(** The counters say exactly how many sessions each connection has, with those. *)
Definition exact (r : Registry) : Prop := ∀ c, connection_session_count r c = attached r c + counted_still p c.

Lemma counted_still_nonneg c : 0 ≤ counted_still p c.
Proof. unfold counted_still. lia. Qed.

Lemma attached_insert_new m k s c :
  m !! k = None → attached_in (<[k := s]> m) c = attached_in m c + here s c.
Proof.
  intros Hk. unfold attached_in, here. rewrite map_filter_insert. simpl. case_decide.
  - rewrite map_size_insert_None; [lia |]. apply map_lookup_filter_None. left. done.
  - rewrite delete_id; [lia | done].
Qed.

Lemma attached_delete m k s c :
  m !! k = Some s → attached_in (delete k m) c = attached_in m c - here s c.
Proof.
  intros Hk. rewrite <- (insert_delete_id m k s Hk) at 2.
  rewrite attached_insert_new by apply lookup_delete_eq. lia.
Qed.

Lemma attached_update m k s s' c :
  m !! k = Some s → attached_in (<[k := s']> m) c = attached_in m c - here s c + here s' c.
Proof.
  intros Hk. rewrite <- insert_delete_eq, attached_insert_new by apply lookup_delete_eq.
  by rewrite (attached_delete m k s c Hk).
Qed.

Lemma count_increment r c c' :
  connection_session_count (increment_connection_sessions r c) c'
  = connection_session_count r c' + (if decide (c = c') then 1 else 0).
Proof.
  unfold connection_session_count, increment_connection_sessions. simpl. case_decide; subst.
  - rewrite lookup_insert_eq. destruct (rg_connection_sessions r !! c'); simpl; lia.
  - rewrite lookup_insert_ne by done. lia.
Qed.

Lemma count_decrement r c c' :
  (∀ c n, rg_connection_sessions r !! c = Some n → 1 ≤ n) →
  connection_session_count (decrement_connection_sessions r c) c'
  = if decide (c = c') then Z.max 0 (connection_session_count r c' - 1)
    else connection_session_count r c'.
Proof.
  intros Hpos. unfold connection_session_count, decrement_connection_sessions.
  destruct (rg_connection_sessions r !! c) as [n|] eqn:Hn.
  - specialize (Hpos c n Hn). destruct (Z.leb_spec n 1); simpl; case_decide; subst.
    + rewrite lookup_delete_eq, Hn. simpl. lia.
    + by rewrite lookup_delete_ne.
    + rewrite lookup_insert_eq, Hn. simpl. lia.
    + by rewrite lookup_insert_ne.
  - case_decide; [|done]. subst. by rewrite Hn.
Qed.

Lemma increment_positive r c :
  (∀ c n, rg_connection_sessions r !! c = Some n → 1 ≤ n) →
  ∀ c' n, rg_connection_sessions (increment_connection_sessions r c) !! c' = Some n → 1 ≤ n.
Proof.
  intros Hpos c' n. simpl. rewrite lookup_insert_Some. intros [[-> <-]|[_ Hn]]; [|by eapply Hpos].
  destruct (rg_connection_sessions r !! c') as [m|] eqn:Hm; [|lia]. specialize (Hpos _ _ Hm). lia.
Qed.

Lemma decrement_positive r c :
  (∀ c n, rg_connection_sessions r !! c = Some n → 1 ≤ n) →
  ∀ c' n, rg_connection_sessions (decrement_connection_sessions r c) !! c' = Some n → 1 ≤ n.
Proof.
  intros Hpos c' n. unfold decrement_connection_sessions.
  destruct (rg_connection_sessions r !! c) as [m|] eqn:Hm; [|by apply Hpos].
  destruct (Z.leb_spec m 1); simpl.
  - rewrite lookup_delete_Some. intros [_ Hn]. by eapply Hpos.
  - rewrite lookup_insert_Some. intros [[_ <-]|[_ Hn]]; [lia | by eapply Hpos].
Qed.

Lemma count_nonneg r c :
  (∀ c n, rg_connection_sessions r !! c = Some n → 1 ≤ n) → 0 ≤ connection_session_count r c.
Proof.
  intros Hpos. unfold connection_session_count.
  destruct (rg_connection_sessions r !! c) as [n|] eqn:Hn; simpl; [|lia]. specialize (Hpos _ _ Hn). lia.
Qed.

(** *** The shapes of registry changes

    Each keeps the registry well formed, and the counters exact if they were. *)

Definition keeps (r r' : Registry) : Prop := registry_wf r' ∧ (exact r → exact r').

#[local] Instance keeps_trans : Transitive keeps.
Proof. intros a b c [] []. split; auto. Qed.

Lemma keeps_refl r : registry_wf r → keeps r r.
Proof. by split. Qed.
#[local] Hint Resolve keeps_refl : portl.

Lemma keeps_replace r k s s' :
  registry_wf r → rg_sessions r !! k = Some s → session_wf k s' →
  us_connection_id s' = us_connection_id s →
  keeps r (with_sessions r (<[k := s']> (rg_sessions r))).
Proof.
  intros [Hs Hp Hc Hq] Hk Hwf Hconn.
  assert (∀ c, attached_in (<[k := s']> (rg_sessions r)) c = attached r c) as Ha.
  { intros c. rewrite (attached_update _ _ s) by done. unfold here. rewrite Hconn. lia. }
  split; [split; simpl; try done | intros He c].
  - by apply map_Forall_insert_2.
  - intros c. rewrite Ha. apply Hc.
  - simpl. rewrite Ha. apply He.
Qed.

(** Detaching or deleting one attached session with the matching decrement. *)
Lemma keeps_release r m' c :
  registry_wf r → map_Forall session_wf m' → 1 ≤ attached r c →
  (∀ c', attached_in m' c' = attached r c' - (if decide (c = c') then 1 else 0)) →
  keeps r (decrement_connection_sessions (with_sessions r m') c).
Proof.
  intros [Hs Hp Hc Hq] Hm' Hat Ha. pose proof counted_still_nonneg as Hn.
  assert (rg_sessions (decrement_connection_sessions (with_sessions r m') c) = m') as Hse.
  { unfold decrement_connection_sessions. destruct (rg_connection_sessions (with_sessions r m') !! c); [|done].
    by destruct (_ <=? _). }
  assert (∀ c', connection_session_count (decrement_connection_sessions (with_sessions r m') c) c'
    = if decide (c = c') then Z.max 0 (connection_session_count r c' - 1) else connection_session_count r c')
    as Hcnt by (intros c'; by rewrite count_decrement).
  split; [split|intros He c']; rewrite ?Hse; try done.
  - by apply decrement_positive.
  - intros c'. rewrite Hcnt, Ha. specialize (Hc c'). specialize (Hn c'). case_decide; subst; lia.
  - intros c'. rewrite Hcnt. pose proof (Hq c'). unfold MAX_SESSIONS_PER_CONNECTION in *. case_decide; lia.
  - rewrite Hcnt, Ha. specialize (He c'). specialize (Hn c'). case_decide; subst; lia.
Qed.

(** Attaching one session with the matching increment, below the quota. *)
Lemma keeps_acquire r m' c :
  registry_wf r → map_Forall session_wf m' →
  connection_session_count r c < MAX_SESSIONS_PER_CONNECTION →
  (∀ c', attached_in m' c' = attached r c' + (if decide (c = c') then 1 else 0)) →
  keeps r (increment_connection_sessions (with_sessions r m') c).
Proof.
  intros [Hs Hp Hc Hq] Hm' Hlt Ha.
  split; [split; simpl|intros He c']; try done.
  - by apply increment_positive.
  - intros c'. rewrite count_increment, Ha. specialize (Hc c'). simpl in *.
    unfold connection_session_count in *. simpl. case_decide; lia.
  - intros c'. rewrite count_increment. specialize (Hq c'). unfold connection_session_count in *. simpl.
    case_decide; subst; lia.
  - rewrite count_increment. simpl. rewrite Ha. specialize (He c'). unfold connection_session_count in *.
    simpl. lia.
Qed.

Lemma attached_at_least_one m k s c : m !! k = Some s → us_connection_id s = Some c → 1 ≤ attached_in m c.
Proof.
  intros Hk Hc. pose proof (attached_delete m k s c Hk) as Hd. unfold here in Hd.
  rewrite decide_True in Hd by done. unfold attached_in in *. lia.
Qed.

Lemma here_one s c c' : us_connection_id s = Some c → here s c' = if decide (c = c') then 1 else 0.
Proof. intros Hs. unfold here. rewrite Hs. repeat case_decide; congruence. Qed.

Lemma here_none s c : us_connection_id s = None → here s c = 0.
Proof. intros Hs. unfold here. by rewrite Hs. Qed.

Lemma keeps_remove r k : registry_wf r → keeps r (remove_session_locked r k).
Proof.
  intros Hwf. unfold remove_session_locked. destruct (rg_sessions r !! k) as [s|] eqn:Hk; [|by split].
  pose proof Hwf as [Hs Hp Hc Hq].
  assert (map_Forall session_wf (delete k (rg_sessions r))) as Hm by by apply map_Forall_delete.
  destruct (us_connection_id s) as [c|] eqn:Hconn.
  - apply keeps_release; try done; [by eapply attached_at_least_one |].
    intros c'. by rewrite (attached_delete _ k s), (here_one s c).
  - assert (∀ c', attached_in (delete k (rg_sessions r)) c' = attached r c') as Ha.
    { intros c'. rewrite (attached_delete _ k s), here_none by done. lia. }
    split; [split; simpl; try done|intros He c'; simpl].
    + intros c'. rewrite Ha. apply Hc.
    + rewrite Ha. apply He.
Qed.

Lemma quota_Ok r c :
  ensure_connection_quota r c = Ok tt ↔ connection_session_count r c < MAX_SESSIONS_PER_CONNECTION.
Proof. unfold ensure_connection_quota. rewrite ensure_tt, negb_true_iff, Z.leb_gt. done. Qed.

Lemma allocate_fresh r draws k :
  allocate_session_id_locked r draws = Some k → k ≠ replicate 8 0 ∧ rg_sessions r !! k = None.
Proof.
  unfold allocate_session_id_locked. intros Hh%head_Some_elem_of.
  by apply list_elem_of_filter in Hh as [? _].
Qed.

Lemma session_new_wf k owner binds c : session_wf k (session_new k owner binds c).
Proof. split; simpl; [done | split; [done | lia] | rewrite map_size_empty; done]. Qed.

Lemma keeps_create r owner binds c draws res r' :
  registry_wf r → create_session r owner binds c draws = Some (res, r') → keeps r r'.
Proof.
  intros Hwf. unfold create_session. destruct (ensure_connection_quota r c) as [[]|] eqn:Hq.
  2: { intros [= <- <-]. by split. }
  destruct (allocate_session_id_locked r draws) as [k|] eqn:Hk; [|done]. simpl. intros [= <- <-].
  apply allocate_fresh in Hk as [_ Hk]. apply keeps_acquire; [done | | by apply quota_Ok |].
  - apply map_Forall_insert_2; [apply session_new_wf | apply Hwf].
  - intros c'. rewrite attached_insert_new by done. f_equal. by apply here_one.
Qed.

(** Attaching to a well-formed session: to the same connection, or to a lingering one. *)
Lemma attach_Ok k s binds c owner res s' :
  session_wf k s → attach s binds c owner = Ok (res, s') →
  us_owner_fingerprint s = owner ∧ us_owner_fingerprint s' = owner ∧ session_wf k s'
  ∧ match res with
    | CreateFresh => s' = s
    | Attached true => us_connection_id s = None ∧ us_connection_id s' = Some c ∧ us_binds s' = binds
    | Attached false => us_connection_id s = Some c ∧ us_connection_id s' = Some c ∧ us_binds s' = binds
    end.
Proof.
  intros [Hid Hst Ht] Ha. unfold attach in Ha. apply bind_tt in Ha as [Ho Ha].
  apply ensure_tt, bool_decide_eq_true in Ho.
  destruct (us_connection_id s) as [c0|] eqn:Hc.
  - destruct (Z.eqb_spec c0 c) as [->|Hne].
    + injection Ha as <- <-. split_and!; try done. split; simpl; [done | split; [done | lia] | done].
    + destruct Hst as [Hl Hact]. rewrite Hl in Ha. injection Ha as <- <-. split_and!; try done.
      split; [done | by rewrite Hc | done].
  - injection Ha as <- <-. by split_and!.
Qed.

(** A session attached again is replaced in place; only a quota failure of a lingering
    session leaves it attached without being counted. *)
Lemma attach_or_create_keeps r lookup sid binds c tok hex now draws res r' :
  registry_wf r → attach_or_create r lookup sid binds c tok hex now draws = Some (res, r') →
  registry_wf r' ∧ (res ≠ Err "session quota exceeded" → exact r → exact r').
Proof.
  intros Hwf. assert (∀ r1, keeps r r1 → registry_wf r1 ∧ (res ≠ Err "session quota exceeded" → exact r → exact r1))
    as Hk by by intros r1 [].
  unfold attach_or_create. destruct (resolve_binds lookup binds) as [resolved|e].
  2: { intros [= <- <-]. by apply Hk. }
  cbv zeta. destruct (if decide (sid = replicate 8 0) then None else rg_sessions r !! sid) as [s|] eqn:Hs.
  2: { intros Hcr. by eapply Hk, keeps_create. }
  case_decide; [done |]. destruct (is_expired s now).
  { intros Hcr. apply Hk. etrans; [by apply keeps_remove | eapply keeps_create; [|done]].
    by apply keeps_remove. }
  destruct (attach s resolved c (owner_fingerprint tok hex)) as [[ar s']|e] eqn:Ha.
  2: { intros [= <- <-]. by apply Hk. }
  pose proof (rw_sessions _ Hwf sid s Hs) as Hws.
  apply (attach_Ok sid) in Ha as (_ & _ & Hws' & Har); [|done].
  destruct ar as [[|]|]; [| |intros Hcr; by eapply Hk, keeps_create].
  2: { intros [= <- <-]. apply Hk. apply keeps_replace with s; try done. naive_solver congruence. }
  destruct Har as (Hnone & Hsome & _).
  assert (∀ c', attached_in (<[sid := s']> (rg_sessions r)) c' = attached r c' + (if decide (c = c') then 1 else 0)) as Hat.
  { intros c'. rewrite (attached_update _ _ s), here_none, (here_one s' c) by done. lia. }
  assert (map_Forall session_wf (<[sid := s']> (rg_sessions r))) as Hm by (apply map_Forall_insert_2; [done | apply Hwf]).
  destruct (ensure_connection_quota _ c) as [[]|e] eqn:Hq; intros [= <- <-].
  - apply Hk, keeps_acquire; try done. by apply quota_Ok in Hq.
  - split.
    + destruct Hwf as [? ? Hc Hqu]. split; try done. intros c'. simpl. rewrite Hat. specialize (Hc c').
      unfold connection_session_count in *. simpl. case_decide; lia.
    + intros Hne. exfalso. apply Hne. unfold ensure_connection_quota, ensure in Hq.
      by destruct (negb _); simplify_eq.
Qed.

Lemma get_live_keeps r k now o r' :
  registry_wf r → get_live r k now = (o, r') →
  keeps r r' ∧ match o with
               | Some s => r' = r ∧ rg_sessions r !! k = Some s ∧ is_expired s now = false
               | None => True
               end.
Proof.
  intros Hwf. unfold get_live. destruct (rg_sessions r !! k) as [s|] eqn:Hk.
  2: { intros [= <- <-]. auto with portl. }
  destruct (is_expired s now) eqn:He; intros [= <- <-]; [split; [by apply keeps_remove | done] |].
  auto with portl.
Qed.

Lemma gc_expired_keeps r now : registry_wf r → keeps r (gc_expired r now).
Proof.
  unfold gc_expired. generalize (map_to_list (rg_sessions r)) as l. intros l. revert r.
  induction l as [|[k s] l IH]; intros r Hwf; simpl; [by split |].
  destruct (is_expired s now); [|by apply IH]. etrans; [by apply keeps_remove |].
  apply IH. by apply keeps_remove.
Qed.

(** *** Datagrams *)

Lemma older_fold_elem l acc k u :
  foldl older acc l = Some (k, u) → k ∈ l.*1 ∨ acc = Some (k, u).
Proof.
  revert acc. induction l as [|kv l IH]; intros acc Hf; simpl in *; [by right |].
  apply IH in Hf as [Hf|Hf]; [left; by right |]. unfold older in Hf.
  destruct acc as [[ka ua]|]; [destruct (_ <? _)|]; simplify_eq; [left; by left | by right | left; by left].
Qed.

Lemma oldest_src_tag_elem tags k : oldest_src_tag tags = Some k → is_Some (tags !! k).
Proof.
  unfold oldest_src_tag. intros Hk. apply fmap_Some in Hk as ([k' used] & Hf & ->).
  apply older_fold_elem in Hf as [Hin|[=]].
  apply list_elem_of_fmap in Hin as ([k2 e] & -> & He%elem_of_map_to_list). by eexists.
Qed.

Lemma oldest_src_tag_total tags : tags ≠ ∅ → is_Some (oldest_src_tag tags).
Proof.
  intros Hne. unfold oldest_src_tag. rewrite fmap_is_Some.
  destruct (map_to_list tags) as [|kv l] eqn:Hl; [by apply map_to_list_empty_iff in Hl |]. simpl.
  generalize (kv.1), (st_last_used kv.2). clear. induction l as [|x l IH]; intros k u; simpl; [by eexists |].
  by destruct (_ <? _).
Qed.

Lemma size_insert_le {A} (m : gmap Z A) k x : (size (<[k := x]> m) ≤ S (size m))%nat.
Proof. rewrite map_size_insert. case_match; simpl; lia. Qed.

Lemma route_wf k s d instant socket res s' :
  session_wf k s → route_to_target s d instant socket = (res, s') →
  session_wf k s' ∧ us_connection_id s' = us_connection_id s ∧ us_binds s' = us_binds s
  ∧ us_owner_fingerprint s' = us_owner_fingerprint s.
Proof.
  intros [Hid Hst Ht] Hr. unfold route_to_target in Hr. destruct (List.find _ _) as [b|]; [|by simplify_eq].
  destruct (us_src_tags s !! dg_src_tag d) as [e|] eqn:He.
  { injection Hr as <- <-. split_and!; try done. split; try done. simpl.
    rewrite map_size_insert_Some by by eexists. done. }
  set (tags := if _ <=? _ then _ else _) in Hr.
  assert (Z.of_nat (size tags) ≤ MAX_SRC_TAGS_PER_SESSION - 1) as Htags.
  { subst tags. unfold MAX_SRC_TAGS_PER_SESSION in *. destruct (Z.leb_spec 1024 (Z.of_nat (size (us_src_tags s)))); [|lia].
    destruct (oldest_src_tag_total (us_src_tags s)) as [k' Hk'].
    { intros He0. assert (size (us_src_tags s) = 0%nat) by (rewrite He0; apply map_size_empty). lia. }
    rewrite Hk'. apply oldest_src_tag_elem in Hk' as [e' He']. rewrite map_size_delete, He'. lia. }
  destruct socket as [sock|]; injection Hr as <- <-; split_and!; try done; split; try done; simpl.
  - etrans; [apply inj_le, size_insert_le |]. lia.
  - lia.
Qed.

Lemma handle_datagram_keeps r len decoded now instant socket sent evs r' :
  registry_wf r → handle_datagram r len decoded now instant socket sent = (evs, r') → keeps r r'.
Proof.
  intros Hwf. unfold handle_datagram. destruct decoded as [d|]; [|intros [= <- <-]; auto with portl].
  destruct (get_live r (dg_session_id d) now) as [[s|] r1] eqn:Hg.
  2: { intros [= <- <-]. by apply get_live_keeps in Hg as [? _]. }
  apply get_live_keeps in Hg as (_ & -> & Hk & _); [|done].
  destruct (_ <? _); [intros [= <- <-]; auto with portl |].
  destruct (route_to_target s d instant socket) as [res s'] eqn:Hr.
  apply (route_wf (dg_session_id d)) in Hr as (Hws & Hc & _); [|by apply Hwf].
  assert (keeps r (with_sessions r (<[dg_session_id d := s']> (rg_sessions r)))) by by apply keeps_replace with s.
  destruct res as [[[ip port] sock]|e]; by intros [= <- <-].
Qed.

(** *** Removal *)

Lemma decrement_sessions r c : rg_sessions (decrement_connection_sessions r c) = rg_sessions r.
Proof.
  unfold decrement_connection_sessions. destruct (rg_connection_sessions r !! c); [|done].
  by destruct (_ <=? _).
Qed.

Lemma remove_sessions r k : rg_sessions (remove_session_locked r k) = delete k (rg_sessions r).
Proof.
  unfold remove_session_locked. destruct (rg_sessions r !! k) as [s|] eqn:Hk.
  - destruct (us_connection_id s); [apply decrement_sessions | done].
  - symmetry. by apply delete_id.
Qed.

Lemma remove_all_sessions r ks k :
  rg_sessions (foldl remove_session_locked r ks) !! k = if decide (k ∈ ks) then None else rg_sessions r !! k.
Proof.
  revert r. induction ks as [|k' ks IH]; intros r; simpl; [done |]. rewrite IH, remove_sessions.
  destruct (decide (k ∈ ks)) as [Hin|Hin].
  - rewrite decide_True; [done |]. by right.
  - destruct (decide (k = k')) as [->|Hne].
    + rewrite lookup_delete_eq, decide_True; [done |]. by left.
    + rewrite lookup_delete_ne, decide_False; [done | |done]. by rewrite elem_of_cons; intros [].
Qed.

Lemma shutdown_sessions r : rg_sessions (shutdown r) = ∅.
Proof.
  apply map_eq. intros k. simpl. rewrite remove_all_sessions, lookup_empty. case_decide as Hin; [done |].
  destruct (rg_sessions r !! k) as [s|] eqn:Hk; [|done]. exfalso. apply Hin.
  apply list_elem_of_fmap. exists (k, s). split; [done |]. by apply elem_of_map_to_list.
Qed.

End pending.

Lemma get_live_Some r k now s r' : get_live r k now = (Some s, r') → r' = r ∧ rg_sessions r !! k = Some s ∧ is_expired s now = false.
Proof. unfold get_live. destruct (rg_sessions r !! k) as [s'|]; [| done]. destruct (is_expired s' now) eqn:He; by intros [= <- <-]. Qed.

(** *** The end of a control stream *)

Lemma counted_still_app p c c' : counted_still (p ++ [c]) c' = counted_still p c' + (if decide (c = c') then 1 else 0).
Proof. unfold counted_still. rewrite filter_app, length_app, filter_cons. case_decide; cbn; lia. Qed.

Lemma counted_still_take p p' c c' : counted_still (p ++ c :: p') c' = counted_still (p ++ p') c' + (if decide (c = c') then 1 else 0).
Proof. unfold counted_still. rewrite !filter_app, !length_app, filter_cons. case_decide; cbn; lia. Qed.

Lemma counted_still_none p c : c ∉ p → counted_still p c = 0.
Proof.
  unfold counted_still. induction p as [|c' p IH]; [done |]. intros [Hne Hp]%not_elem_of_cons. rewrite filter_cons, decide_False by done. by apply IH.
Qed.

Lemma detach_keeps p r k c now : registry_wf p r → let '(r', detached) := detach_if_current r k c now in
  let p' := if detached then p ++ [c] else p in registry_wf p' r' ∧ (exact p r → exact p' r').
Proof.
  intros Hwf. unfold detach_if_current. destruct (get_live r k now) as [[s|] r'] eqn:Hg.
  2: { by apply (get_live_keeps p) in Hg as [[] _]. }
  apply (get_live_keeps p) in Hg as (_ & -> & Hk & _); [|done].
  pose proof (rw_sessions _ _ Hwf k s Hk) as [Hid Hst Ht].
  unfold session_mark_linger_if_current. case_bool_decide as Hc.
  { apply (keeps_replace p) with s; done. }
  rewrite Hc in Hst. destruct (Z.ltb_spec 1 (us_active_controls s)).
  - apply (keeps_replace p) with s; try done. split; simpl; [done | | done]. rewrite Hc. split; [apply Hst | lia].
  - set (s' := Build_UdpSession _ _ _ _ _ _ _ _).
    assert (∀ c', attached_in (<[k := s']> (rg_sessions r)) c' + counted_still (p ++ [c]) c' = attached r c' + counted_still p c') as Ha.
    { intros c'. rewrite counted_still_app, (attached_update _ _ s), (here_one s c), here_none by done. lia. }
    destruct Hwf as [Hs Hp Hcn Hq]. split; [split; simpl; try done |].
    + apply map_Forall_insert_2; [| done]. split; simpl; [done | split; [by eexists | done] | done].
    + intros c'. rewrite Ha. apply Hcn.
    + intros He c'. simpl. rewrite Ha. apply He.
Qed.

(** The counter of a connection that is gone is not there any more when the registry was shut down meanwhile. *)
Lemma discount_keeps p p' c r : registry_wf (p ++ c :: p') r → registry_wf (p ++ p') (decrement_connection_sessions r c) ∧
  (exact (p ++ c :: p') r → exact (p ++ p') (decrement_connection_sessions r c)).
Proof.
  intros [Hs Hp Hc Hq]. pose proof (decrement_sessions r c) as Hse. pose proof (counted_still_nonneg (p ++ p')) as Hn.
  assert (∀ c', 0 ≤ attached r c') as H0 by (intros c'; unfold attached_in; lia).
  assert (∀ c', connection_session_count (decrement_connection_sessions r c) c'
    = if decide (c = c') then Z.max 0 (connection_session_count r c' - 1) else connection_session_count r c')
    as Hcnt by (intros c'; by apply count_decrement).
  split; [split |].
  - by rewrite Hse.
  - by apply decrement_positive.
  - intros c'. rewrite Hcnt, Hse. specialize (Hc c'). rewrite counted_still_take in Hc. specialize (Hn c'). specialize (H0 c'). case_decide; lia.
  - intros c'. rewrite Hcnt. pose proof (Hq c'). unfold MAX_SESSIONS_PER_CONNECTION in *. case_decide; lia.
  - intros He c'. rewrite Hcnt, Hse. specialize (He c'). rewrite counted_still_take in He. specialize (Hn c'). specialize (H0 c'). case_decide; lia.
Qed.

Lemma empty_wf p r : rg_sessions r = ∅ → rg_connection_sessions r = ∅ → registry_wf p r ∧ (p = [] → exact p r).
Proof.
  intros Hs Hc. assert (∀ c, connection_session_count r c = 0 ∧ attached r c = 0) as H0.
  { intros c. unfold connection_session_count, attached_in. rewrite Hc, Hs, map_filter_empty, lookup_empty.
    by rewrite map_size_empty. }
  split; [split|].
  - rewrite Hs. apply map_Forall_empty.
  - intros c n. by rewrite Hc, lookup_empty.
  - intros c. destruct (H0 c) as [-> ->]. pose proof (counted_still_nonneg p c). lia.
  - intros c. by destruct (H0 c) as [-> _].
  - intros -> c. by destruct (H0 c) as [-> ->].
Qed.

Lemma gc_lookup l now r k s :
  rg_sessions (foldl (λ r kv, if is_expired kv.2 now then remove_session_locked r kv.1 else r) r l) !! k = Some s →
  rg_sessions r !! k = Some s ∧ ((k, s) ∈ l → is_expired s now = false).
Proof.
  revert r. induction l as [|[k' s'] l IH]; intros r; simpl.
  { intros Hk. split; [done |]. by intros ?%not_elem_of_nil. }
  intros Hk. apply IH in Hk as [Hk Hl]. destruct (is_expired s' now) eqn:He; simpl in *.
  - rewrite remove_sessions, lookup_delete_Some in Hk. destruct Hk as [Hne Hk]. split; [done |].
    intros [[= -> ->]|Hin]%elem_of_cons; [done | by apply Hl].
  - split; [done |]. intros [[= -> ->]|Hin]%elem_of_cons; [done | by apply Hl].
Qed.

(** ** The registry as a transition system

    The states are the registry with the connections of sessions that were detached and are still counted.
    [Q] restricts the results of [attach_or_create] that the history contains. *)
Inductive step (Q : result string bytes → Prop) : Registry * list Z → Registry * list Z → Prop :=
  | step_attach r p lookup sid binds c tok hex now draws res r' :
      attach_or_create r lookup sid binds c tok hex now draws = Some (res, r') → Q res → step Q (r, p) (r', p)
  | step_detach r p sid c now r' (detached : bool) : detach_if_current r sid c now = (r', detached) →
      step Q (r, p) (r', if detached then p ++ [c] else p)
  | step_discount r p c p' : step Q (r, p ++ c :: p') (decrement_connection_sessions r c, p ++ p')
  | step_get r p sid now : step Q (r, p) ((get_live r sid now).2, p)
  | step_gc r p now : step Q (r, p) (gc_expired r now, p)
  | step_datagram r p len decoded now instant socket sent :
      step Q (r, p) ((handle_datagram r len decoded now instant socket sent).2, p).

(** The end of the agent, which may come at any time *)
Inductive any_step : Registry * list Z → Registry * list Z → Prop :=
  | step_runs s s' : step (λ _, True) s s' → any_step s s'
  | step_shutdown r p : any_step (r, p) (shutdown r, p).

Lemma step_keeps Q s s' :
  step Q s s' → registry_wf s.2 s.1 →
  registry_wf s'.2 s'.1 ∧ ((∀ res, Q res → res ≠ Err "session quota exceeded") → exact s.2 s.1 → exact s'.2 s'.1).
Proof.
  intros Hst Hwf. assert (∀ p r1, keeps p s.1 r1 → s.2 = p → registry_wf p r1
    ∧ ((∀ res, Q res → res ≠ Err "session quota exceeded") → exact s.2 s.1 → exact p r1)) as Hk by by intros p r1 [] <-.
  destruct Hst as [r p ? ? ? ? ? ? ? ? res ? Ha HQ|r p sid c now r' d Hd|r p c p'|r p sid now|r p now|r p len dg now instant socket sent]; cbn [fst snd] in *.
  - apply (attach_or_create_keeps p) in Ha as [? He]; [|done]. split; [done |]. intros HnQ. by apply He, HnQ.
  - pose proof (detach_keeps p r sid c now Hwf) as Hdk. rewrite Hd in Hdk. destruct Hdk as [? He]. split; [done |]. by intros _.
  - destruct (discount_keeps p p' c r Hwf) as [? He]. split; [done |]. by intros _.
  - destruct (get_live r sid now) as [o r'] eqn:Hg. by apply Hk; [apply (get_live_keeps p r sid now o) |].
  - by apply Hk; [apply gc_expired_keeps |].
  - destruct (handle_datagram _ _ _ _ _ _ _) as [evs r'] eqn:Hd. by eapply Hk; [eapply handle_datagram_keeps |].
Qed.

Lemma reachable_keeps Q n s :
  rtc (step Q) (new n, []) s →
  registry_wf s.2 s.1 ∧ ((∀ res, Q res → res ≠ Err "session quota exceeded") → exact s.2 s.1).
Proof.
  apply (rtc_ind_r (λ s, registry_wf s.2 s.1 ∧ ((∀ res, Q res → res ≠ Err "session quota exceeded") → exact s.2 s.1))).
  - destruct (empty_wf [] (new n)) as [Hw He]; [done | done |]. split; [done |]. intros _. by apply He.
  - intros s1 s2 _ Hs [Hw He]. destruct (step_keeps Q s1 s2 Hs Hw) as [Hw2 He2]. split; auto.
Qed.

Lemma any_reachable_wf n s : rtc any_step (new n, []) s → registry_wf s.2 s.1.
Proof.
  apply (rtc_ind_r (λ s, registry_wf s.2 s.1)); [by apply empty_wf |]. intros s1 s2 _ [a b Hs|r p] Hw.
  - by apply (step_keeps _ _ _ Hs).
  - apply empty_wf; [apply shutdown_sessions | done].
Qed.

Lemma route_Ok s d instant socket ip port sock s' :
  route_to_target s d instant socket = (Ok ((ip, port), sock), s') →
  port = dg_target_port d ∧ ∃ b, b ∈ us_binds s ∧ bind_covers port b = true ∧ ip = rb_target_ip b.
Proof.
  unfold route_to_target. intros Hr. destruct (List.find _ _) as [b|] eqn:Hf; [|done].
  apply find_some in Hf as [Hb%list_elem_of_In Hcov].
  destruct (us_src_tags s !! dg_src_tag d); [|destruct socket]; simplify_eq; split; try done; by exists b.
Qed.

Lemma permitted_port c b port :
  udp_permits c (rb_bind b) = Ok tt → bind_covers port b = true →
  ∃ rules rule, udp c = Some rules ∧ rule ∈ rules
    ∧ host_matches (host_glob rule) (target_host (rb_bind b)) = true
    ∧ port_min rule ≤ port ≤ port_max rule.
Proof.
  unfold udp_permits, bind_covers. destruct (udp c) as [rules|]; [|done]. rewrite any_or_Ok.
  intros (rule & Hin & Hr) Hcov. reflect_bool. exists rules, rule. split_and!; try done; lia.
Qed.

(** ** Properties *)

(** C15: whatever the history of the registry, each session is either attached to one
    connection with at least one control stream or lingering without any, has at most
    1024 source tags, and the counter of a connection never exceeds sixteen nor the
    number of sessions really attached to it, with those that the end of a control stream has just detached
    and is about to take off the counter. *)
Theorem udp_registry_invariant n r p :
  rtc any_step (new n, []) (r, p) →
  map_Forall session_wf (rg_sessions r)
  ∧ ∀ c, connection_session_count r c ≤ MAX_SESSIONS_PER_CONNECTION
         ∧ connection_session_count r c ≤ attached r c + counted_still p c
         ∧ (c ∉ p → connection_session_count r c ≤ attached r c).
Proof.
  intros []%any_reachable_wf. split; [done |]. intros c. cbn [fst snd] in *. split_and!; [done | done |]. intros Hp.
  pose proof (rw_counted0 c) as Hc. rewrite counted_still_none in Hc by done. lia.
Qed.

(** The quota is exact on histories in which no attach failed for the quota: the
    counter of every connection is the number of sessions attached to it, and just detached from it, so no
    connection has more than sixteen. *)
Theorem udp_quota_exact n r p c :
  rtc (step (λ res, res ≠ Err "session quota exceeded")) (new n, []) (r, p) →
  attached r c + counted_still p c = connection_session_count r c ∧ attached r c ≤ MAX_SESSIONS_PER_CONNECTION.
Proof.
  intros [[] He]%reachable_keeps. specialize (He (λ _ H, H) c). cbn [fst snd] in *. pose proof (counted_still_nonneg p c). rewrite <- He.
  specialize (rw_quota0 c). lia.
Qed.

(** A session can only be resumed by its owner: asking for another owner's live
    session fails and changes nothing, and whatever
    [attach_or_create] returns, the session handed out belongs to the caller's
    fingerprint and is attached to the caller's connection. *)
Theorem udp_session_owner r lookup sid binds c tok hex now draws res r' :
  map_Forall session_wf (rg_sessions r) → attach_or_create r lookup sid binds c tok hex now draws = Some (res, r') →
  (∀ s, rg_sessions r !! sid = Some s → sid ≠ replicate 8 0 → is_expired s now = false →
     us_owner_fingerprint s ≠ owner_fingerprint tok hex → (is_ok res = false ∧ r' = r))
  ∧ ∀ sid', res = Ok sid' → ∃ s', rg_sessions r' !! sid' = Some s'
      ∧ us_owner_fingerprint s' = owner_fingerprint tok hex ∧ us_connection_id s' = Some c
      ∧ resolve_binds lookup binds = Ok (us_binds s').
Proof.
  intros Hwf. unfold attach_or_create. destruct (resolve_binds lookup binds) as [resolved|e]; cbv zeta.
  2: { by intros [= <- <-]. }
  assert (∀ r0, create_session r0 (owner_fingerprint tok hex) resolved c draws = Some (res, r') →
    ∀ sid', res = Ok sid' → ∃ s', rg_sessions r' !! sid' = Some s'
      ∧ us_owner_fingerprint s' = owner_fingerprint tok hex ∧ us_connection_id s' = Some c
      ∧ Ok (E := string) resolved = Ok (us_binds s')) as Hcreate.
  { intros r0. unfold create_session. destruct (ensure_connection_quota r0 c); [|by intros [= <- <-]].
    destruct (allocate_session_id_locked r0 draws) as [k|]; [|done]. simpl. intros [= <- <-] ? [= <-].
    eexists. split; [apply lookup_insert_eq | done]. }
  case_decide as Hz.
  { intros Hc. split; [by intros | by eapply Hcreate]. }
  destruct (rg_sessions r !! sid) as [s|] eqn:Hs.
  2: { intros Hc. split; [by intros | by eapply Hcreate]. }
  destruct (is_expired s now) eqn:He.
  { intros Hc. split; [by intros ? [= <-] ?; rewrite He | by eapply Hcreate]. }
  destruct (attach s resolved c (owner_fingerprint tok hex)) as [[ar s']|e] eqn:Ha.
  2: { intros [= <- <-]. by split. }
  apply (attach_Ok sid) in Ha as (Ho & Ho' & _ & Har); [|by apply Hwf].
  intros Hres. split; [by intros ? [= <-] |].
  destruct ar as [[|]|]; [| |by eapply Hcreate].
  - destruct Har as (_ & ? & Hb). destruct (ensure_connection_quota _ _); [|by simplify_eq]. simplify_eq.
    intros ? [= <-]. exists s'. split; [apply lookup_insert_eq | done].
  - destruct Har as (_ & ? & Hb). simplify_eq. intros ? [= <-].
    exists s'. split; [apply lookup_insert_eq | done].
Qed.

(** A datagram only leaves towards an authorised destination: when a payload is
    sent, the session was live, one of its binds covers the port and resolved to the
    address, and if the session's binds were permitted by some capabilities, a UDP rule
    of theirs matches the bind's host and contains the port. *)
Theorem udp_datagram_authorised r len d now instant socket sent evs r' sock ip port payload :
  handle_datagram r len (Some d) now instant socket sent = (evs, r') → SendTo sock ip port payload ∈ evs →
  ∃ s b, rg_sessions r !! dg_session_id d = Some s ∧ is_expired s now = false ∧ b ∈ us_binds s
    ∧ ip = rb_target_ip b ∧ port = dg_target_port d ∧ payload = dg_payload d
    ∧ len ≤ MAX_UDP_DATAGRAM_BYTES
    ∧ ∀ c, Forall (λ b, udp_permits c (rb_bind b) = Ok tt) (us_binds s) →
        ∃ rules rule, udp c = Some rules ∧ rule ∈ rules
          ∧ host_matches (host_glob rule) (target_host (rb_bind b)) = true
          ∧ port_min rule ≤ port ≤ port_max rule.
Proof.
  intros Hh Hin. unfold handle_datagram in Hh.
  destruct (get_live r (dg_session_id d) now) as [[s|] r1] eqn:Hg.
  2: { injection Hh as <- <-. by apply list_elem_of_singleton in Hin. }
  apply get_live_Some in Hg as (-> & Hk & He).
  assert (∀ s p tag msg, SendTo sock ip port payload ∉ send_error s p tag msg) as Hno.
  { intros s0 ???. unfold send_error. destruct (us_connection_id s0).
    - by intros ?%list_elem_of_singleton.
    - apply not_elem_of_nil. }
  destruct (Z.ltb_spec MAX_UDP_DATAGRAM_BYTES len).
  { injection Hh as <- <-. apply elem_of_cons in Hin as [[=]|Hin]. by apply Hno in Hin. }
  destruct (route_to_target s d instant socket) as [[[[ip' port'] sock']|e] s'] eqn:Hr.
  2: { injection Hh as <- <-. apply elem_of_cons in Hin as [[=]|Hin]. by apply Hno in Hin. }
  apply route_Ok in Hr as (-> & b & Hb & Hcov & ->).
  assert (SendTo sock ip port payload = SendTo sock' (rb_target_ip b) (dg_target_port d) (dg_payload d))
    as [= -> -> -> ->].
  { injection Hh as <- <-. apply elem_of_cons in Hin as [Hin|Hin]; [done |]. exfalso.
    destruct sent as [e|]; [|by apply not_elem_of_nil in Hin].
    apply elem_of_cons in Hin as [[=]|Hin]. by apply Hno in Hin. }
  exists s, b. split_and!; try done. intros c Hp. rewrite Forall_forall in Hp.
  by apply permitted_port, Hcov; apply Hp.
Qed.

Lemma gc_keeps_live r now l k s : rg_sessions r !! k = Some s →
  (∀ s', (k, s') ∈ l → is_expired s' now = false) →
  rg_sessions (foldl (λ r kv, if is_expired kv.2 now then remove_session_locked r kv.1 else r) r l) !! k
  = Some s.
Proof.
  revert r. induction l as [|[k' s'] l IH]; intros r Hk Hl; [done |]. simpl. apply IH.
  - destruct (is_expired s' now) eqn:He; [| done]. rewrite remove_sessions, lookup_delete_ne; [done |].
    intros ->. rewrite (Hl s') in He; [done | by left].
  - intros s0 Hs0. apply Hl. by right.
Qed.

(** A collection removes exactly the expired sessions and leaves the live ones as
    they are. *)
Theorem udp_gc_complete r now sid s :
  rg_sessions (gc_expired r now) !! sid = Some s ↔
  rg_sessions r !! sid = Some s ∧ is_expired s now = false.
Proof.
  split.
  - intros Hk. apply gc_lookup in Hk as [Hk He]. split; [done |]. apply He. by apply elem_of_map_to_list.
  - intros [Hk He]. apply gc_keeps_live; [done |]. intros s' Hs'%elem_of_map_to_list.
    rewrite Hk in Hs'. by injection Hs' as <-.
Qed.

End registry.

(** ** A concrete registry *)

Module Demo.
Import Params.

Definition dns (h : string) (p : Z) : option (option IpAddr) := Some (Some "10.0.0.1").
Definition bind53 : UdpBind :=
  {| local_port_range := (5353, 5353); target_host := "dns"; target_port_range := (53, 53) |}.
Definition sid (i : Z) : bytes := [1; i; 0; 0; 0; 0; 0; 0].

Definition open_on (c : Z) (r : Registry) (i : Z) : Registry :=
  match attach_or_create r dns (replicate 8 0) [bind53] c [5] "aa" 100 [sid i] with
  | Some (_, r') => r'
  | None => r
  end.

(** Session 99 opened on connection 2, left lingering; then sixteen on connection 1. *)
Definition lingering : Registry := mark_linger_if_current (open_on 2 (new 60) 99) (sid 99) 2 100.
Definition full : Registry := foldl (open_on 1) lingering (Z.of_nat <$> seq 0 16).

Definition after_quota_failure : Registry :=
  match attach_or_create full dns (sid 99) [bind53] 1 [5] "aa" 110 [] with
  | Some (_, r') => r'
  | None => full
  end.

(** The quota can be exceeded: resuming a lingering session on a connection that
    already has sixteen reports the quota error, but the session has been attached to
    the connection all the same, uncounted. *)
Theorem udp_quota_escape :
  attached full 1 = 16 ∧ connection_session_count full 1 = 16
  ∧ attach_or_create full dns (sid 99) [bind53] 1 [5] "aa" 110 []
    = Some (Err "session quota exceeded", after_quota_failure)
  ∧ attached after_quota_failure 1 = 17 ∧ connection_session_count after_quota_failure 1 = 16
  ∧ us_connection_id <$> (rg_sessions after_quota_failure !! sid 99) = Some (Some 1).
Proof. by vm_compute. Qed.

Definition detached : Registry := (detach_if_current (open_on 2 (new 60) 99) (sid 99) 2 100).1.

Lemma reach_detached (Q : result string bytes → Prop) : (∀ k, Q (Ok k)) → rtc (step Q) (new 60, []) (detached, [2]).
Proof.
  intros HQ. eapply rtc_l; [|eapply rtc_l; [|apply rtc_refl]].
  - apply (step_attach Q (new 60) [] dns (replicate 8 0) [bind53] 2 [5] "aa" 100 [sid 99] (Ok (sid 99))).
    + vm_compute. reflexivity.
    + apply HQ.
  - by apply (step_detach Q _ [] (sid 99) 2 100 detached true).
Qed.

Lemma reach_lingering (Q : result string bytes → Prop) : (∀ k, Q (Ok k)) → rtc (step Q) (new 60, []) (lingering, []).
Proof. intros HQ. eapply rtc_r; [by apply reach_detached |]. apply (step_discount Q detached [] 2 []). Qed.

Lemma reach_any s : rtc (step (λ _, True)) (new 60, []) s → rtc any_step (new 60, []) s.
Proof. apply (rtc_congruence id). intros x y. by apply step_runs. Qed.

Lemma udp_registry_invariant_witness :
  map_Forall session_wf (rg_sessions detached) ∧ connection_session_count detached 2 ≤ attached detached 2 + counted_still [2] 2.
Proof.
  destruct (udp_registry_invariant 60 detached [2] (reach_any _ (reach_detached _ (λ _, I)))) as [H1 H2].
  split; [exact H1 | apply H2].
Defined.

Lemma udp_quota_exact_witness :
  attached detached 2 + counted_still [2] 2 = connection_session_count detached 2.
Proof. apply (udp_quota_exact 60 detached [2] 2). apply reach_detached. discriminate. Defined.

Lemma lingering_wf : map_Forall session_wf (rg_sessions lingering).
Proof. apply (reachable_keeps (λ _, True) 60 (lingering, [])). apply reach_lingering. done. Qed.

Lemma udp_session_owner_witness :
  ∃ r', attach_or_create lingering dns (sid 99) [bind53] 1 [6] "aa" 110 [] = Some (Err "udp session owner mismatch", r')
    ∧ r' = lingering.
Proof.
  destruct (attach_or_create lingering dns (sid 99) [bind53] 1 [6] "aa" 110 []) as [[res r']|] eqn:Ha;
    [|vm_compute in Ha; discriminate].
  assert (res = Err "udp session owner mismatch") as -> by (vm_compute in Ha; congruence).
  exists r'. split; [reflexivity |].
  destruct (rg_sessions lingering !! sid 99) as [s|] eqn:Hs; [|vm_compute in Hs; discriminate].
  eapply (proj1 (udp_session_owner lingering dns (sid 99) [bind53] 1 [6] "aa" 110 [] _ r' lingering_wf Ha) s Hs);
    vm_compute in Hs; injection Hs as <-; vm_compute; discriminate || reflexivity.
Defined.

Definition datagram : UdpDatagram :=
  {| dg_session_id := sid 99; dg_target_port := 53; dg_src_tag := 7; dg_payload := [1; 2] |}.

Lemma udp_datagram_authorised_witness :
  ∃ s b, rg_sessions lingering !! sid 99 = Some s ∧ b ∈ us_binds s ∧ "10.0.0.1" = rb_target_ip b.
Proof.
  destruct (handle_datagram lingering 40 (Some datagram) 110 1 (Some 3) None) as [evs r'] eqn:Hh.
  destruct (udp_datagram_authorised lingering 40 datagram 110 1 (Some 3) None evs r' 3 "10.0.0.1" 53 [1; 2]
    Hh) as (s & b & Hs & _ & Hb & Hip & _).
  - vm_compute in Hh. injection Hh as <- _. by left.
  - exists s, b. split_and!; [exact Hs | exact Hb | exact Hip].
Defined.

End Demo.

End Udp.
