(* ===== verification/UnixFs.v ===== *)
(** * Unix listeners and the file system

    crates/portl-agent/src/unix_handler.rs from [serve_listen] on: preparing the parent
    directory, replacing a stale socket, binding, and what the guards remove when the
    listener ends.  The file system is explicit state; every call may also fail for a
    reason of its own, given by a [Fault].  Directories above the parent are not
    symbolic links in the model, and other processes do not act between the calls. *)

From S2P Require Import Prelude Schema.

Module Fs.

(** ** [std::path] on [/]-separated strings *)

Definition is_absolute (p : string) : bool := starts_with "/" p.

(** Segments [components] skips, after the first. *)
Definition redundant (seg : string) : bool := bool_decide (seg = "") || bool_decide (seg = ".").

Fixpoint drop_redundant (rsegs : list string) : list string :=
  match rsegs with
  | seg :: r => if redundant seg then drop_redundant r else rsegs
  | [] => []
  end.

Definition segments (p : string) : string * list string :=
  match str_split 47 p with first :: rest => (first, rest) | [] => ("", []) end.

#[export] Instance component_eq_dec : EqDecision UnixPath.component.
Proof. solve_decision. Defined.

(** [Path] equality compares components. *)
Definition path_eq (p q : string) : bool := bool_decide (UnixPath.components p = UnixPath.components q).

Definition path_parent (p : string) : option string :=
  let (first, rest) := segments p in
  match drop_redundant (rev rest) with
  | [] => if decide (first = "") then None else Some ""
  | _ :: above =>
      match rev (drop_redundant above) with
      | [] => Some (if is_absolute p then "/" else first)
      | rest' => Some (String.concat "/" (first :: rest'))
      end
  end.

Definition path_file_name (p : string) : option string :=
  let (first, rest) := segments p in
  let name := match drop_redundant (rev rest) with
              | seg :: _ => seg
              | [] => first
              end in
  if decide (name = "" ∨ name = "." ∨ name = "..") then None else Some name.

(** ** The file system *)

Inductive Node :=
  | Dir (mode : Z)
  | Socket (listening : bool)
  | Regular
  | Symlink (target : list string).

Abbreviation FS := (gmap (list string) Node).

Inductive FsCall := StatParent | Mkdir | Chmod | RestatParent | StatSocket | Unlink | Bind
  | DropUnlink | DropRmdir.
Abbreviation Fault := (FsCall → option string).

Inductive IoError := NotFound | OtherIo (text : string).

(** An absolute path names a node by its normal components. *)
Definition key (p : string) : list string :=
  List.filter (λ s, negb (redundant s)) (segments p).2.

Section calls.
Context (fault : Fault).

Definition symlink_metadata (c : FsCall) (p : string) (fs : FS) : result IoError Node :=
  match fault c with
  | Some text => Err (OtherIo text)
  | None => match fs !! key p with Some n => Ok n | None => Err NotFound end
  end.

(** [DirBuilder::new().mode(mode).create(p)], under [umask]. *)
Definition mkdir (umask mode : Z) (p : string) (fs : FS) : option FS :=
  match fault Mkdir, fs !! key p with
  | None, None => Some (<[key p := Dir (Z.ldiff mode umask)]> fs)
  | _, _ => None
  end.

(** [set_permissions], which follows symbolic links (at most 40, as Linux does). *)
Fixpoint chmod_at (fuel : nat) (mode : Z) (k : list string) (fs : FS) : option FS :=
  match fs !! k with
  | Some (Dir _) => Some (<[k := Dir mode]> fs)
  | Some (Symlink t) => match fuel with O => None | S fuel' => chmod_at fuel' mode t fs end
  | Some _ => Some fs
  | None => None
  end.

Definition set_permissions (p : string) (mode : Z) (fs : FS) : option FS :=
  match fault Chmod with Some _ => None | None => chmod_at 40 mode (key p) fs end.

Definition remove_file (c : FsCall) (p : string) (fs : FS) : option FS :=
  match fault c, fs !! key p with
  | None, Some (Socket _) | None, Some Regular | None, Some (Symlink _) => Some (delete (key p) fs)
  | _, _ => None
  end.

Definition is_child (k k' : list string) : bool :=
  match rev k' with _ :: above => bool_decide (rev above = k) | [] => false end.

Definition empty_dir (k : list string) (fs : FS) : bool :=
  bool_decide (map_Forall (λ k' _, is_child k k' = false) fs).

(** [std::fs::remove_dir]: empty directories only. *)
Definition remove_dir (p : string) (fs : FS) : option FS :=
  match fault DropRmdir, fs !! key p with
  | None, Some (Dir _) => if empty_dir (key p) fs then Some (delete (key p) fs) else None
  | _, _ => None
  end.

(** [UnixListener::bind]: the path must be free and its parent a directory. *)
Definition bind_socket (p : string) (fs : FS) : result string FS :=
  match fault Bind with
  | Some text => Err text
  | None =>
      match fs !! key p with
      | Some _ => Err "Address already in use (os error 98)"
      | None =>
          match (path_parent p) ≫= (λ d, fs !! key d) with
          | Some (Dir _) => Ok (<[key p := Socket true]> fs)
          | _ => Err "No such file or directory (os error 2)"
          end
      end
  end.

End calls.

(** ** unix_handler.rs *)

Definition is_ascii_hexdigit (b : Z) : bool :=
  (48 <=? b) && (b <=? 57) || (65 <=? b) && (b <=? 70) || (97 <=? b) && (b <=? 102).

Definition in_tmp (parent : string) : bool :=
  match path_parent parent with Some d => path_eq d "/tmp" | None => false end.

Definition validate_agent_parent (parent : string) : result string unit :=
  match path_file_name parent with
  | None => Err "ssh-agent forwarding parent must have a utf-8 name"
  | Some name =>
      match strip_prefix "portl-agent-" name, in_tmp parent with
      | Some suffix, true =>
          ensure (negb (bool_decide (suffix = "")) && forallb is_ascii_hexdigit (str_bytes suffix))
            "ssh-agent forwarding parent suffix must be hex"
      | _, _ => Err "ssh-agent forwarding parent must be /tmp/portl-agent-*"
      end
  end.

Definition is_generated_forward_parent (parent : string) : bool :=
  match path_file_name parent with
  | None => false
  | Some name => in_tmp parent && starts_with "portl-from-" name
  end.

Definition is_dir (n : Node) : bool := match n with Dir _ => true | _ => false end.

(** [metadata.permissions().mode() & 0o777 == 0o700] *)
Definition private (n : Node) : bool :=
  match n with Dir mode => Z.land mode 511 =? 448 | _ => false end.

Definition validate_generated_forward_parent_type (parent : string) (n : Node) : result string unit :=
  ensure (is_dir n) ("generated unix forwarding parent is not a directory " +:+ parent).

Definition validate_generated_forward_parent_metadata (parent : string) (n : Node) : result string unit :=
  validate_generated_forward_parent_type parent n;;
  ensure (private n) ("generated unix forwarding directory has unsafe permissions " +:+ parent).

(** A failing step may leave earlier ones done, so the file system is returned with
    the error too. *)
Definition Step (A : Type) : Type := result string A * FS.

Section handler.
Context (fault : Fault) (umask : Z).

Definition create_private_agent_parent (p : string) (fs : FS) : Step string :=
  match path_parent p with
  | None => (Err "ssh-agent socket path must include a parent directory", fs)
  | Some parent =>
      match validate_agent_parent parent with
      | Err e => (Err e, fs)
      | Ok _ =>
          match mkdir fault umask 448 parent fs with
          | None => (Err ("create ssh-agent forwarding directory " +:+ parent), fs)
          | Some fs1 =>
              match set_permissions fault parent 448 fs1 with
              | None => (Err ("chmod ssh-agent forwarding directory " +:+ parent), fs1)
              | Some fs2 =>
                  match symlink_metadata fault RestatParent parent fs2 with
                  | Err _ => (Err ("stat ssh-agent forwarding directory " +:+ parent), fs2)
                  | Ok n =>
                      if negb (is_dir n)
                      then (Err ("ssh-agent forwarding parent is not a directory " +:+ parent), fs2)
                      else if negb (private n)
                      then (Err ("ssh-agent forwarding directory has unsafe permissions " +:+ parent), fs2)
                      else (Ok parent, fs2)
                  end
              end
          end
      end
  end.

(** The second half of [ensure_generated_forward_parent], from [set_permissions] on. *)
Definition tighten_generated_parent (parent : string) (fs : FS) : Step (option string) :=
  match set_permissions fault parent 448 fs with
  | None => (Err ("chmod generated unix forwarding directory " +:+ parent), fs)
  | Some fs' =>
      match symlink_metadata fault RestatParent parent fs' with
      | Err _ => (Err ("stat generated unix forwarding directory " +:+ parent), fs')
      | Ok n => (validate_generated_forward_parent_metadata parent n;; Ok (Some parent), fs')
      end
  end.

Definition ensure_generated_forward_parent (p : string) (fs : FS) : Step (option string) :=
  match path_parent p with
  | None => (Ok None, fs)
  | Some parent =>
      if negb (is_generated_forward_parent parent) then (Ok None, fs)
      else match symlink_metadata fault StatParent parent fs with
      | Ok n =>
          match validate_generated_forward_parent_type parent n with
          | Err e => (Err e, fs)
          | Ok _ => tighten_generated_parent parent fs
          end
      | Err NotFound =>
          match mkdir fault umask 448 parent fs with
          | None => (Err ("create generated unix forwarding directory " +:+ parent), fs)
          | Some fs' => tighten_generated_parent parent fs'
          end
      | Err (OtherIo _) => (Err ("stat generated unix forwarding directory " +:+ parent), fs)
      end
  end.

(** [unix_socket_is_active]: connecting succeeds while some process listens. *)
Definition unix_socket_is_active (p : string) (fs : FS) : bool :=
  match fs !! key p with Some (Socket listening) => listening | _ => false end.

Definition remove_existing_socket_for_bind (p : string) (fs : FS) : Step unit :=
  match symlink_metadata fault StatSocket p fs with
  | Ok (Socket _) =>
      if unix_socket_is_active p fs then (Err ("unix socket is already active: " +:+ p), fs)
      else match remove_file fault Unlink p fs with
           | Some fs' => (Ok tt, fs')
           | None => (Err ("remove stale unix socket " +:+ p), fs)
           end
  | Ok _ => (Err ("refusing to remove non-socket path " +:+ p), fs)
  | Err NotFound => (Ok tt, fs)
  | Err (OtherIo _) => (Err ("stat unix socket path " +:+ p), fs)
  end.

Definition remove_socket_if_present (p : string) (fs : FS) : FS :=
  match fs !! key p with
  | Some (Socket _) => default fs (remove_file fault DropUnlink p fs)
  | _ => fs
  end.

(** [Drop for AgentParentCleanup], when there is a guard. *)
Definition drop_parent (guard : option string) (fs : FS) : FS :=
  match guard with Some parent => default fs (remove_dir fault parent fs) | None => fs end.

(** [serve_listen] up to its ack, with the parent guard it holds from then on. *)
Definition listen_setup (p : string) (cleanup ssh_agent : bool) (fs : FS) : Step (option string) :=
  let (guard, fs1) := if ssh_agent
                      then let (r, fs') := create_private_agent_parent p fs in
                           (match r with Ok d => Ok (Some d) | Err e => Err e end, fs')
                      else ensure_generated_forward_parent p fs in
  match guard with
  | Err e => (Err e, fs1)
  | Ok g =>
      let (r, fs2) := if cleanup then remove_existing_socket_for_bind p fs1 else (Ok tt, fs1) in
      match r with
      | Err e => (Err e, drop_parent g fs2)
      | Ok _ =>
          match bind_socket fault p fs2 with
          | Err e => (Err e, drop_parent g fs2)
          | Ok fs3 => (Ok g, fs3)
          end
      end
  end.

(** The locals of [serve_listen] dropped in reverse order of declaration: the socket,
    then the parent directory. *)
Definition listen_teardown (p : string) (cleanup : bool) (guard : option string) (fs : FS) : FS :=
  drop_parent guard (if cleanup then remove_socket_if_present p fs else fs).

End handler.

(** ** Paths *)

Lemma split_app (x t : string) :
  str_contains_byte 47 x = false → str_split 47 (x +:+ "/" +:+ t) = x :: str_split 47 t.
Proof. exact (str_split_app (Ascii.ascii_of_N 47) x t). Qed.

Lemma split_concat (x : string) (l : list string) :
  Forall (λ seg, str_contains_byte 47 seg = false) (x :: l) →
  str_split 47 (String.concat "/" (x :: l)) = x :: l.
Proof. exact (str_split_concat (Ascii.ascii_of_N 47) x l). Qed.

Lemma segments_absolute (p : string) : is_absolute p = true →
  ∃ rest, str_split 47 p = "" :: rest ∧ segments p = ("", rest).
Proof.
  unfold is_absolute. intros [t ->]%starts_with_spec. exists (str_split 47 t).
  unfold segments. by rewrite (split_app "" t eq_refl : str_split 47 ("/" +:+ t) = _).
Qed.

Abbreviation normal := (List.filter (λ s, negb (redundant s))).

Lemma drop_redundant_normal (l : list string) : normal (drop_redundant l) = normal l.
Proof. induction l as [|s l IH]; [done |]. simpl. by destruct (redundant s) eqn:E; simpl; rewrite ?E. Qed.

Lemma drop_redundant_head (l : list string) s r : drop_redundant l = s :: r → redundant s = false.
Proof.
  induction l as [|x l IH]; [done |]. simpl. destruct (redundant x) eqn:E; [done |]. by intros [= <- _].
Qed.

Lemma drop_redundant_incl (l : list string) (P : string → Prop) : Forall P l → Forall P (drop_redundant l).
Proof. induction 1 as [|x l Hx Hl IH]; [done |]. simpl. destruct (redundant x); [done | by constructor]. Qed.

Lemma normal_rev (l : list string) : normal (rev l) = rev (normal l).
Proof.
  induction l as [|x l IH]; [done |]. simpl. rewrite List.filter_app, IH. simpl.
  destruct (redundant x); simpl; [by rewrite app_nil_r | done].
Qed.

(** The key of a path is that of its parent and one more name. *)
Lemma key_parent (p d : string) : is_absolute p = true → path_parent p = Some d →
  ∃ name, key p = key d ++ [name].
Proof.
  intros Hp. destruct (segments_absolute p Hp) as (rest & Hsplit & Hseg).
  pose proof (str_split_clean 47 p) as Hclean. rewrite Hsplit in Hclean. apply Forall_cons in Hclean as [_ Hclean].
  unfold path_parent, key. rewrite Hseg, Hp. cbn [snd].
  destruct (drop_redundant (rev rest)) as [|name above] eqn:Hd; [by destruct (decide _) |].
  pose proof (drop_redundant_head _ _ _ Hd) as Hname.
  assert (Hnorm : normal rest = normal (rev (drop_redundant above)) ++ [name]).
  { rewrite normal_rev, drop_redundant_normal, <-(rev_involutive rest), normal_rev,
      <-(drop_redundant_normal (rev rest)), Hd. simpl. by rewrite Hname. }
  assert (Hab : Forall (λ seg, str_contains_byte 47 seg = false) (rev (drop_redundant above))).
  { apply Forall_rev, drop_redundant_incl.
    pose proof (drop_redundant_incl (rev rest) _ (Forall_rev Hclean)) as H0. rewrite Hd in H0.
    by apply Forall_cons in H0 as [_ ?]. }
  destruct (rev (drop_redundant above)) as [|x l] eqn:Hr.
  - intros [= <-]. by exists name.
  - intros He%(inj Some). rewrite <-He. exists name. rewrite Hnorm. unfold segments.
    by rewrite (split_concat "" (x :: l)) by (by constructor).
Qed.

(** ** What the calls change *)

(** Directories the agent may create, tighten and remove. *)
Definition managed (d : string) : Prop :=
  validate_agent_parent d = Ok tt ∨ is_generated_forward_parent d = true.

(** Every node lies in a directory. *)
Definition fs_wf (fs : FS) : Prop :=
  ∀ k name n, fs !! (k ++ [name]) = Some n → ∃ m, fs !! k = Some (Dir m).

Section effects.
Context (fault : Fault) (umask : Z).

Lemma mkdir_Some mode d fs fs' : mkdir fault umask mode d fs = Some fs' →
  fs !! key d = None ∧ fs' = <[key d := Dir (Z.ldiff mode umask)]> fs.
Proof. unfold mkdir. destruct (fault Mkdir), (fs !! key d); try done. by intros [= <-]. Qed.

Lemma set_permissions_dir d m mode fs fs' : fs !! key d = Some (Dir m) →
  set_permissions fault d mode fs = Some fs' → fs' = <[key d := Dir mode]> fs.
Proof.
  intros Hd. unfold set_permissions. destruct (fault Chmod); [done |].
  cbn [chmod_at]. rewrite Hd. by intros [= <-].
Qed.

(** What preparing the parent of [p] may do: nothing, or put a directory at a managed
    parent that was absent or a directory; with a guard its mode is 0700. *)
Definition prepared (p : string) (fs : FS) (st : Step (option string)) : Prop :=
  (st.2 = fs ∧ ∀ d, st.1 ≠ Ok (Some d)) ∨
  ∃ d m, path_parent p = Some d ∧ managed d ∧ (∀ n, fs !! key d = Some n → is_dir n = true)
    ∧ st.2 = <[key d := Dir m]> fs ∧ (∀ g, st.1 = Ok g → g = Some d ∧ m = 448).

Lemma create_private_spec p fs r fs' : create_private_agent_parent fault umask p fs = (r, fs') →
  (fs' = fs ∧ ∀ d, r ≠ Ok d) ∨
  ∃ d m, path_parent p = Some d ∧ validate_agent_parent d = Ok tt ∧ fs !! key d = None
    ∧ fs' = <[key d := Dir m]> fs ∧ (∀ g, r = Ok g → g = d ∧ m = 448).
Proof.
  unfold create_private_agent_parent. destruct (path_parent p) as [d|]; [| intros [= <- <-]; by left].
  destruct (validate_agent_parent d) as [[]|] eqn:Hv; [| intros [= <- <-]; by left].
  destruct (mkdir _ _ _ _ _) as [fs1|] eqn:Hm; [| intros [= <- <-]; by left].
  apply mkdir_Some in Hm as [Hn ->].
  destruct (set_permissions _ _ _ _) as [fs2|] eqn:Hs; [| intros [= <- <-]; right; by eexists d, _].
  apply (set_permissions_dir d (Z.ldiff 448 umask)) in Hs; [| by rewrite lookup_insert_eq].
  rewrite insert_insert_eq in Hs. subst fs2. intros Hr. right. exists d, 448. revert Hr.
  destruct (symlink_metadata _ _ _ _) as [n|]; [| intros [= <- <-]; by split_and!].
  destruct (is_dir n); simpl; [| intros [= <- <-]; by split_and!].
  destruct (private n); simpl; intros [= <- <-]; split_and!; try done; by intros g [= <-].
Qed.

Lemma tighten_spec d m fs r fs' : fs !! key d = Some (Dir m) →
  tighten_generated_parent fault d fs = (r, fs') →
  (∃ e, r = Err e) ∧ fs' = fs ∨ fs' = <[key d := Dir 448]> fs ∧ ∀ g, r = Ok g → g = Some d.
Proof.
  intros Hd. unfold tighten_generated_parent.
  destruct (set_permissions _ _ _ _) as [fs2|] eqn:Hs; [| intros [= <- <-]; left; eauto].
  apply (set_permissions_dir d m) in Hs as ->; [| done]. intros Hr. right. revert Hr.
  destruct (symlink_metadata _ _ _ _) as [n|]; [| intros [= <- <-]; done].
  destruct (validate_generated_forward_parent_metadata d n); simpl; intros [= <- <-]; [| done].
  split; [done |]. by intros g [= <-].
Qed.

Lemma ensure_generated_spec p fs : prepared p fs (ensure_generated_forward_parent fault umask p fs).
Proof.
  unfold ensure_generated_forward_parent. destruct (path_parent p) as [d|] eqn:Hp; [| by left].
  destruct (is_generated_forward_parent d) eqn:Hg; [| by left]. simpl.
  unfold symlink_metadata at 1. destruct (fault StatParent); [by left |].
  destruct (fs !! key d) as [n|] eqn:Hn.
  - unfold validate_generated_forward_parent_type, ensure.
    destruct n as [m| | |]; try (by left). cbn [is_dir].
    destruct (tighten_generated_parent fault d fs) as [r fs'] eqn:Ht.
    destruct (tighten_spec d m fs r fs' Hn Ht) as [[[e ->] ->]|[-> Hok]]; [by left |].
    right. exists d, 448. split_and!; [done | by right | by rewrite Hn; intros ? [= <-] | done |].
    intros g Hr. split; [by apply Hok | done].
  - destruct (mkdir _ _ _ _ _) as [fs1|] eqn:Hm; [| by left].
    apply mkdir_Some in Hm as [_ ->].
    destruct (tighten_generated_parent fault d _) as [r fs'] eqn:Ht.
    apply (tighten_spec d (Z.ldiff 448 umask)) in Ht; [| by rewrite lookup_insert_eq].
    rewrite insert_insert_eq in Ht. right.
    destruct Ht as [[[e ->] ->]|[-> Hok]]; eexists d, _;
      (split_and!; [done | by right | by rewrite Hn | done |]); [done |].
    intros g Hr. split; [by apply Hok | done].
Qed.

Lemma create_private_prepared p fs r fs' : create_private_agent_parent fault umask p fs = (r, fs') →
  prepared p fs (match r with Ok d => Ok (Some d) | Err e => Err e end, fs').
Proof.
  intros [[-> Hr]|(d & m & Hp & Hv & Hn & -> & Hok)]%create_private_spec.
  - left. split; [done |]. destruct r as [x|]; [by destruct (Hr x) | done].
  - right. exists d, m. split_and!; [done | by left | by rewrite Hn | done |].
    destruct r as [x|]; [| done]. intros g [= <-]. by destruct (Hok x eq_refl) as [-> ->].
Qed.

Lemma remove_existing_spec p fs r fs' : remove_existing_socket_for_bind fault p fs = (r, fs') →
  fs' = fs ∨ fs !! key p = Some (Socket false) ∧ fs' = delete (key p) fs.
Proof.
  unfold remove_existing_socket_for_bind, symlink_metadata, unix_socket_is_active, remove_file.
  destruct (fault StatSocket); [intros [= <- <-]; by left |].
  destruct (fs !! key p) as [[|[]| |]|] eqn:Hn; try (intros [= <- <-]; by left).
  destruct (fault Unlink); intros [= <- <-]; [by left | by right].
Qed.

Lemma drop_parent_spec g fs : drop_parent fault g fs = fs
  ∨ ∃ d m, g = Some d ∧ fs !! key d = Some (Dir m) ∧ drop_parent fault g fs = delete (key d) fs.
Proof.
  unfold drop_parent, remove_dir. destruct g as [d|]; [| by left].
  destruct (fault DropRmdir); [by left |]. destruct (fs !! key d) as [[m| | |]|] eqn:Hd; try by left.
  destruct (empty_dir _ _); [right; by exists d, m | by left].
Qed.

Lemma bind_socket_Ok p fs fs' : bind_socket fault p fs = Ok fs' →
  fs !! key p = None ∧ fs' = <[key p := Socket true]> fs.
Proof.
  unfold bind_socket. destruct (fault Bind); [done |]. destruct (fs !! key p); [done |].
  destruct (path_parent p ≫= _) as [[]|]; try done. by intros [= <-].
Qed.

(** Preparing, removing a dead socket and the drop on failure, seen from one key. *)
Definition spares (p : string) (fs fs' : FS) : Prop :=
  (∀ k, fs' !! k ≠ fs !! k → k = key p ∨ ∃ d, path_parent p = Some d ∧ k = key d ∧ managed d
          ∧ ∀ n, fs !! k = Some n → is_dir n = true)
  ∧ (∀ n, fs !! key p = Some n → n ≠ Socket false → fs' !! key p = Some n).

Lemma listen_setup_inv p cleanup ssh_agent fs r fs' :
  listen_setup fault umask p cleanup ssh_agent fs = (r, fs') →
  ∃ guard fs1, prepared p fs (guard, fs1) ∧
    ((∃ e, guard = Err e ∧ r = Err e ∧ fs' = fs1) ∨
     ∃ g fs2, guard = Ok g
       ∧ (fs2 = fs1 ∨ fs1 !! key p = Some (Socket false) ∧ fs2 = delete (key p) fs1)
       ∧ ((∃ e, r = Err e) ∧ fs' = drop_parent fault g fs2
          ∨ r = Ok g ∧ fs2 !! key p = None ∧ fs' = <[key p := Socket true]> fs2)).
Proof.
  unfold listen_setup. intros H.
  assert (Hprep : prepared p fs (if ssh_agent
            then let (r, fs') := create_private_agent_parent fault umask p fs in
                 (match r with Ok d => Ok (Some d) | Err e => Err e end, fs')
            else ensure_generated_forward_parent fault umask p fs)).
  { destruct ssh_agent; [| apply ensure_generated_spec].
    destruct (create_private_agent_parent _ _ _ _) eqn:E. by apply create_private_prepared. }
  destruct (if ssh_agent then _ else _) as [guard fs1]. exists guard, fs1. split; [done |].
  destruct guard as [g|e]; [right | left; exists e; by injection H as <- <-]. revert H.
  destruct (if cleanup then _ else _) as [res fs2] eqn:Hc. intros H. exists g, fs2. split; [done |].
  split.
  { destruct cleanup; [by eapply remove_existing_spec | injection Hc as <- <-; by left]. }
  destruct res as [[]|e]; [| left; injection H as <- <-; eauto].
  destruct (bind_socket fault p fs2) as [fs3|e] eqn:Hb; [right | left]; injection H as <- <-; [| eauto].
  by apply bind_socket_Ok in Hb as [? ->].
Qed.

Lemma key_parent_ne p d : is_absolute p = true → path_parent p = Some d → key d ≠ key p.
Proof.
  intros Hp Hd Heq. destruct (key_parent p d Hp Hd) as [name Hk]. rewrite Heq in Hk.
  apply (f_equal length) in Hk. rewrite length_app in Hk. simpl in Hk. lia.
Qed.

Lemma prepared_spares p fs guard fs1 : is_absolute p = true → prepared p fs (guard, fs1) →
  spares p fs fs1 ∧ fs1 !! key p = fs !! key p.
Proof.
  intros Hp [[Hfs _]|(d & m & Hd & Hm & Hn & Hfs & _)]; simpl in Hfs; subst fs1.
  { split; [split; [done | auto] | done]. }
  assert (Hk : <[key d:=Dir m]> fs !! key p = fs !! key p)
    by (apply lookup_insert_ne; by apply key_parent_ne).
  split; [split |]; [| by intros n; rewrite Hk | done].
  intros k Hne. right. exists d. assert (k = key d) as ->; [| done].
  destruct (decide (k = key d)) as [|Hkd]; [done |]. by rewrite lookup_insert_ne in Hne.
Qed.

(** Dropping the guard of a prepared parent changes nothing else. *)
Lemma drop_guard_spares p fs g fs1 fs2 : is_absolute p = true → prepared p fs (Ok g, fs1) →
  (∀ k, k ≠ key p → fs2 !! k = fs1 !! k) →
  drop_parent fault g fs2 !! key p = fs2 !! key p
  ∧ ∀ k, k ≠ key p → drop_parent fault g fs2 !! k ≠ fs !! k →
      ∃ d, path_parent p = Some d ∧ k = key d ∧ managed d ∧ ∀ n, fs !! k = Some n → is_dir n = true.
Proof.
  intros Hp Hprep H2. destruct (prepared_spares _ _ _ _ Hp Hprep) as [[Hs _] _].
  assert (Hold : ∀ k, k ≠ key p → fs2 !! k ≠ fs !! k → ∃ d, path_parent p = Some d ∧ k = key d
            ∧ managed d ∧ ∀ n, fs !! k = Some n → is_dir n = true).
  { intros k Hk. rewrite H2 by done. intros [?|?]%Hs; done. }
  destruct (drop_parent_spec g fs2) as [->|(d & m & -> & Hd & ->)]; [by split |].
  destruct Hprep as [[_ Hno]|(d' & m' & Hd' & Hm' & Hn' & _ & Hg)]; [by destruct (Hno d) |].
  destruct (Hg (Some d) eq_refl) as [[= <-] _].
  split; [apply lookup_delete_ne; by apply key_parent_ne |].
  intros k Hk Hne. destruct (decide (k = key d)) as [->|Hkd]; [by exists d |].
  rewrite lookup_delete_ne in Hne by done. by apply Hold.
Qed.

(** Setting up a Unix listener, whichever call fails, changes only the socket path
    and its parent; the parent only when it is one of the agent's generated directories
    under /tmp and was absent or a directory (never through a symbolic link); the path
    only when it was free or held a dead socket.  On success the path is a listening
    socket and a guarded parent has mode 0700. *)
Theorem unix_listen_frame p cleanup ssh_agent fs r fs' :
  is_absolute p = true → listen_setup fault umask p cleanup ssh_agent fs = (r, fs') →
  spares p fs fs'
  ∧ ∀ g, r = Ok g → fs' !! key p = Some (Socket true)
      ∧ ∀ d, g = Some d → path_parent p = Some d ∧ managed d ∧ fs' !! key d = Some (Dir 448).
Proof.
  intros Hp (guard & fs1 & Hprep & Hcase)%listen_setup_inv.
  destruct (prepared_spares _ _ _ _ Hp Hprep) as [[Hs1 Hs2] Hkp].
  destruct Hcase as [(e & -> & -> & ->)|(g & fs2 & -> & Hrm & Hcase)]; [done |].
  assert (H2 : ∀ k, k ≠ key p → fs2 !! k = fs1 !! k).
  { intros k Hk. destruct Hrm as [->|[_ ->]]; [done | by apply lookup_delete_ne]. }
  assert (Hlive : ∀ n, fs !! key p = Some n → n ≠ Socket false → fs2 !! key p = Some n).
  { intros n Hn Hns. destruct Hrm as [->|[Hdead _]]; [by apply Hs2 |].
    rewrite Hkp in Hdead. rewrite Hdead in Hn. by injection Hn as <-. }
  destruct Hcase as [[[e ->] ->]|(-> & Hnone & ->)].
  - destruct (drop_guard_spares _ _ _ _ _ Hp Hprep H2) as [Hkey Hrest]. split; [| done]. split.
    + intros k Hk. destruct (decide (k = key p)); [by left | right; by apply Hrest].
    + intros n Hn Hns. rewrite Hkey. by apply Hlive.
  - split; [split |].
    + intros k Hk. destruct (decide (k = key p)) as [|Hkp']; [by left |].
      rewrite lookup_insert_ne in Hk by done. rewrite H2 in Hk by done. by apply Hs1.
    + intros n Hn Hns. by rewrite (Hlive n Hn Hns) in Hnone.
    + intros g' [= <-]. split; [by rewrite lookup_insert_eq |]. intros d ->.
      destruct Hprep as [[_ Hno]|(d' & m & Hd & Hm & _ & Hfs & Hg)]; [by destruct (Hno d) |].
      destruct (Hg (Some d) eq_refl) as [[= <-] ->]. split_and!; [done | done |].
      pose proof (key_parent_ne p d Hp Hd) as Hne. simpl in Hfs. subst fs1.
      by rewrite lookup_insert_ne, H2, lookup_insert_eq.
Qed.

Lemma absent_child fs p d : fs_wf fs → is_absolute p = true → path_parent p = Some d →
  fs !! key d = None → fs !! key p = None.
Proof.
  intros Hwf Hp Hd Hn. destruct (key_parent p d Hp Hd) as [name Hk].
  destruct (fs !! key p) as [n|] eqn:E; [| done].
  rewrite Hk in E. destruct (Hwf _ _ _ E) as [m Hm]. by rewrite Hn in Hm.
Qed.

Lemma fresh_dir_empty fs k m : fs_wf fs → fs !! k = None → empty_dir k (<[k := Dir m]> fs) = true.
Proof.
  intros Hwf Hn. apply bool_decide_eq_true_2. intros k' n Hk'. unfold is_child.
  destruct (rev k') as [|name above] eqn:Hr; [done |].
  apply bool_decide_eq_false_2. intros Hab.
  assert (k' = k ++ [name]) as ->.
  { rewrite <-(rev_involutive k'), Hr. simpl. by rewrite Hab. }
  rewrite lookup_insert_ne in Hk'.
  - destruct (Hwf _ _ _ Hk') as [m' Hm']. by rewrite Hn in Hm'.
  - intros He. apply (f_equal length) in He. rewrite length_app in He. simpl in He. lia.
Qed.

(** An ssh-agent listener leaves no trace: when it ends and both removals work, the
    file system is the one before the request. *)
Theorem agent_listener_restores p fs g fs' :
  fs_wf fs → is_absolute p = true → fault DropUnlink = None → fault DropRmdir = None →
  listen_setup fault umask p true true fs = (Ok g, fs') →
  listen_teardown fault p true g fs' = fs.
Proof.
  intros Hwf Hp Hu Hrd. unfold listen_setup.
  destruct (create_private_agent_parent fault umask p fs) as [r fs1] eqn:Hc.
  destruct (create_private_spec _ _ _ _ Hc) as [[_ Hno]|(d & m & Hd & _ & Hn & -> & Hok)].
  { destruct r as [x|]; [by destruct (Hno x) | done]. }
  destruct r as [x|]; [| done]. destruct (Hok x eq_refl) as [-> ->].
  pose proof (key_parent_ne p d Hp Hd) as Hne. pose proof (absent_child fs p d Hwf Hp Hd Hn) as Hpn.
  destruct (remove_existing_socket_for_bind fault p _) as [[[]|] fs2] eqn:Hr; [| done].
  destruct (remove_existing_spec _ _ _ _ Hr) as [->|[Hx _]];
    [| by rewrite lookup_insert_ne, Hpn in Hx].
  destruct (bind_socket fault p _) as [fs3|] eqn:Hb; [| done]. intros [= <- <-].
  apply bind_socket_Ok in Hb as [Hnone ->].
  unfold listen_teardown, remove_socket_if_present, remove_file.
  rewrite lookup_insert_eq, Hu. simpl. rewrite delete_insert_id by done.
  unfold remove_dir. rewrite Hrd, lookup_insert_eq, fresh_dir_empty by done. simpl.
  by rewrite delete_insert_id.
Qed.

End effects.

Module Demo.

Definition no_fault : Fault := λ _, None.
Definition tmp : FS := <[[] := Dir 493]> (<[["tmp"] := Dir 1023]> ∅).
Definition sock : string := "/tmp/portl-agent-0a1f/agent.sock".

Lemma tmp_wf : fs_wf tmp.
Proof.
  intros k name n. unfold tmp. destruct k as [|a k].
  - intros _. exists 493. by rewrite lookup_insert_eq.
  - rewrite lookup_insert_ne by done. rewrite lookup_insert_ne by (by destruct k).
    by rewrite lookup_empty.
Qed.

Lemma fst_pair {A B} (st : A * B) (a : A) : st.1 = a → st = (a, st.2).
Proof. destruct st. by intros <-. Qed.

Lemma agent_listener_restores_witness :
  let st := listen_setup no_fault 18 sock true true tmp in
  st.1 = Ok (Some "/tmp/portl-agent-0a1f")
  ∧ listen_teardown no_fault sock true (Some "/tmp/portl-agent-0a1f") st.2 = tmp.
Proof.
  intros st. assert (Hst : st.1 = Ok (Some "/tmp/portl-agent-0a1f")) by (vm_compute; reflexivity).
  split; [exact Hst |].
  exact (agent_listener_restores no_fault 18 sock tmp _ _ tmp_wf eq_refl eq_refl eq_refl
           (fst_pair st _ Hst)).
Defined.

(** A symbolic link planted where the generated directory would go. *)
Definition planted : FS := <[["tmp"; "portl-from-x"] := Symlink ["tmp"]]> tmp.

Lemma unix_listen_frame_witness :
  let st := listen_setup no_fault 18 "/tmp/portl-from-x/s" true false planted in
  st.1 = Err "generated unix forwarding parent is not a directory /tmp/portl-from-x"
  ∧ spares "/tmp/portl-from-x/s" planted st.2.
Proof.
  intros st.
  assert (Hst : st.1 = Err "generated unix forwarding parent is not a directory /tmp/portl-from-x")
    by (vm_compute; reflexivity).
  split; [exact Hst |].
  exact (proj1 (unix_listen_frame no_fault 18 "/tmp/portl-from-x/s" true false planted _ _ eq_refl (fst_pair st _ Hst))).
Defined.

End Demo.

End Fs.
