(* ===== verification/Streams.v ===== *)
(** * Authenticated streams

    What the agent does with a stream opened on an accepted connection: the dispatch of
    ticket_handler.rs on the ALPN and the agent mode, and the handlers of
    tcp_handler.rs, unix_handler.rs, udp_handler.rs, gateway.rs, meta_handler.rs and the
    control stream of shell_handler/mod.rs, up to the point where bytes are relayed.  A
    handler is the list of its externally visible effects, given the decoded request
    frame and the answers of the operating system.  The persistent-session protocol of
    session_handler is one opaque effect. *)

From stdpp Require Import pretty.
From S2P Require Import Prelude Text Schema Canonical Sample Codec Caps Enforce Chain.
From S2P Require Import Revocations Pipeline UdpRegistry UnixFs.

(** ** Protocol names and wire types *)

Definition ALPN_TICKET_V1 : string := "portl/ticket/v1".
Definition ALPN_META_V1 : string := "portl/meta/v1".
Definition ALPN_SHELL_V1 : string := "portl/shell/v1".
Definition ALPN_SESSION_V1 : string := "portl/session/v1".
Definition ALPN_TCP_V1 : string := "portl/tcp/v1".
Definition ALPN_TCP_V2 : string := "portl/tcp/v2".
Definition ALPN_UDP_V1 : string := "portl/udp/v1".
Definition ALPN_UNIX_V1 : string := "portl/unix/v1".

Record TcpReqBody := { tb_host : string; tb_port : Z }.

Inductive TcpOp :=
  | TcpOpConnect (host : string) (port : Z)
  | TcpOpListen (bind_host : string) (bind_port : Z)
  | TcpOpAccepted (bind_host : string) (bind_port : Z) (originator_host : string) (originator_port : Z).

Record UdpCtlReqTail := { uc_session_id : bytes; uc_binds : list UdpBind }.

Inductive ShellStreamKind := Stdin | Stdout | Stderr | Signal | Resize | Exit.
Record ShellSubTail := { ss_session_id : bytes; ss_kind : ShellStreamKind }.
Record ShellReqBody := {
  sb_mode : ShellMode;
  sb_argv : option (list string);
  sb_env_patch : list (string * EnvValue);
  sb_cwd : option string;
  sb_pty : option PtyCfg;
  sb_user : option string;
}.
Inductive ShellFirstFrame := Control (req_body : ShellReqBody) | Sub (tail : ShellSubTail).

Inductive ErrorKind :=
  | ProtoError | EkCapDenied | EkNotFound | EkRateLimited | ResourceExhausted | Overloaded
  | VersionMismatch | EkInternalError | Timeout | Cancelled.
Record Error := { err_kind : ErrorKind; err_message : string; err_retry_after_ms : option Z }.

Inductive MetaReq := Ping (t_client_us : Z) | Info | PublishRevocations (items : list bytes).
Inductive MetaResp :=
  | Pong (t_server_us : Z)
  | InfoResp (agent_version : string) (supported_alpns : list string) (uptime_s : Z)
      (hostname os : string) (tags : list (string * string))
  | PublishedRevocations (accepted : Z) (rejected : list (bytes * string))
  | MetaError (e : Error).

(** ** Effects *)

Inductive Event :=
  | CloseConnection (code : Z) (reason : string)
  | TcpConnect (host : string) (port : Z)
  | TcpBind (host : string) (port : Z)
  | WriteTcpAck (ok : bool) (error : option string)
  | WriteTcpListenAck (ok : bool) (error : option string) (bound_port : option Z)
  | UnixDial (path : string)
  | UnixBind (path : string) (cleanup ssh_agent : bool)
  | WriteUnixAck (ok : bool) (error : option string)
  | UdpAttach (session_id : bytes) (binds : list UdpBind)
  | WriteUdpResp (ok : bool) (error : option string) (session_id : bytes)
  | WriteMeta (resp : MetaResp)
  | Spawn (req : ShellReq)
  | WriteShellAck (ok : bool) (reason : option ShellReason) (pid : option Z) (session_id : option bytes)
  | PumpShell (session_id : bytes) (kind : ShellStreamKind)
  | Relay
  | RelayWithBearer (br : bytes)
  | ServeSession.

(** Effects in order, and how the handler ends ([bail!] or an early [?] is an error). *)
Definition Outcome : Type := list Event * result string unit.

Definition bail (evs : list Event) (msg : string) : Outcome := (evs, Err msg).
Definition done_with (evs : list Event) : Outcome := (evs, Ok tt).

(** The answers of the operating system to the calls the handlers make. *)
Record Os := {
  os_tcp_connect : string → Z → result string unit;
  os_tcp_bind : string → Z → result string Z;
  os_unix_connect : string → result string unit;
  os_fault : Fs.Fault;
  os_umask : Z;
  os_fs : Fs.FS;
}.

(** ** lib.rs *)

Definition alpn_allowed_in_mode (mode : AgentMode) (a : string) : result string unit :=
  match mode with
  | Listener => Ok tt
  | Gateway _ _ _ =>
      if decide (a = ALPN_META_V1 ∨ a = ALPN_TCP_V1) then Ok tt
      else Err "gateway mode only serves meta/v1 and tcp/v1 streams"
  end.

(** ** ticket_handler.rs: dispatch *)

Inductive Route :=
  | RouteMeta | RouteShell | RouteSession | RouteTcp | RouteGateway | RouteUdp | RouteUnix
  | RouteClose (code : Z) (reason : string).

Definition gated (mode : AgentMode) (a : string) (r : Route) : Route :=
  match alpn_allowed_in_mode mode a with Err error => RouteClose 0x1004 error | Ok _ => r end.

Definition dispatch (mode : AgentMode) (a : string) : Route :=
  if decide (a = ALPN_META_V1) then RouteMeta
  else if decide (a = ALPN_SHELL_V1) then gated mode a RouteShell
  else if decide (a = ALPN_SESSION_V1) then gated mode a RouteSession
  else if decide (a = ALPN_TCP_V1) then
    match mode with Listener => RouteTcp | Gateway _ _ _ => RouteGateway end
  else if decide (a = ALPN_TCP_V2) then gated mode a RouteTcp
  else if decide (a = ALPN_UDP_V1) then gated mode a RouteUdp
  else if decide (a = ALPN_UNIX_V1) then gated mode a RouteUnix
  else RouteClose 0x1003 "version mismatch".

(** ** tcp_handler.rs *)

Definition tcp_serve_connect (os : Os) (se : Session) (p : StreamPreamble) (host : string) (port : Z) :
    Outcome :=
  match tcp_permits (se_caps se) {| tr_preamble := p; tr_host := host; tr_port := port |} with
  | Err error => done_with [WriteTcpAck false (Some error)]
  | Ok _ =>
      match os_tcp_connect os host port with
      | Err err => done_with [TcpConnect host port; WriteTcpAck false (Some err)]
      | Ok _ => done_with [TcpConnect host port; WriteTcpAck true None; Relay]
      end
  end.

Definition tcp_serve_listen (os : Os) (se : Session) (bind_host : string) (bind_port : Z) : Outcome :=
  match tcp_listen_permits (se_caps se) bind_host bind_port with
  | Err error => done_with [WriteTcpListenAck false (Some error) None]
  | Ok _ =>
      match os_tcp_bind os bind_host bind_port with
      | Err err => done_with [TcpBind bind_host bind_port; WriteTcpListenAck false (Some err) None]
      | Ok bound_port =>
          done_with [TcpBind bind_host bind_port; WriteTcpListenAck true None (Some bound_port); Relay]
      end
  end.

Definition tcp_serve_v2 (os : Os) (se : Session) (p : StreamPreamble) (tail : option TcpOp) : Outcome :=
  match tail with
  | None => bail [] "missing tcp v2 request"
  | Some (TcpOpConnect host port) => tcp_serve_connect os se p host port
  | Some (TcpOpListen bind_host bind_port) => tcp_serve_listen os se bind_host bind_port
  | Some (TcpOpAccepted _ _ _ _) =>
      done_with [WriteTcpAck false (Some "client may not send tcp accepted requests")]
  end.

Definition tcp_serve_v1_connect (os : Os) (se : Session) (p : StreamPreamble)
    (body : option TcpReqBody) : Outcome :=
  match body with
  | None => bail [] "missing tcp request"
  | Some b => tcp_serve_connect os se p (tb_host b) (tb_port b)
  end.

Definition tcp_serve_stream (os : Os) (se : Session) (p : StreamPreamble) (v1 : option TcpReqBody)
    (v2 : option TcpOp) : Outcome :=
  if bool_decide (peer_token p ≠ se_peer_token se) then bail [] "invalid tcp preamble"
  else if decide (alpn p = ALPN_TCP_V1) then tcp_serve_v1_connect os se p v1
  else if decide (alpn p = ALPN_TCP_V2) then tcp_serve_v2 os se p v2
  else bail [] "invalid tcp preamble".

(** ** gateway.rs *)

Definition gateway_serve_stream (os : Os) (mode : AgentMode) (se : Session) (p : StreamPreamble)
    (body : option TcpReqBody) : Outcome :=
  match body with
  | None => bail [] "missing tcp request"
  | Some b =>
      if bool_decide (peer_token p ≠ se_peer_token se) || bool_decide (alpn p ≠ ALPN_TCP_V1)
      then bail [] "invalid tcp preamble"
      else match mode with
      | Listener => bail [] "gateway stream called in listener mode"
      | Gateway _ upstream_host upstream_port =>
          match tcp_permits (se_caps se)
                  {| tr_preamble := p; tr_host := upstream_host; tr_port := upstream_port |} with
          | Err error => done_with [WriteTcpAck false (Some error)]
          | Ok _ =>
              if bool_decide (tb_host b ≠ upstream_host) || negb (tb_port b =? upstream_port)
              then done_with [WriteTcpAck false (Some "destination restricted by gateway mode")]
              else match se_bearer se with
              | None | Some [] =>
                  done_with [WriteTcpAck false (Some "gateway mode requires a ticket bearer")]
              | Some br =>
                  match os_tcp_connect os upstream_host upstream_port with
                  | Err err =>
                      done_with [TcpConnect upstream_host upstream_port; WriteTcpAck false (Some err)]
                  | Ok _ =>
                      done_with [TcpConnect upstream_host upstream_port; WriteTcpAck true None;
                                 RelayWithBearer br]
                  end
              end
          end
      end
  end.

(** ** unix_handler.rs *)

Definition unix_serve_connect (os : Os) (p : string) : Outcome :=
  match os_unix_connect os p with
  | Err err => done_with [UnixDial p; WriteUnixAck false (Some err)]
  | Ok _ => done_with [UnixDial p; WriteUnixAck true None; Relay]
  end.

(** [Fs.listen_setup] is the part between the first check and the ack. *)
Definition unix_serve_listen (os : Os) (p : string) (cleanup ssh_agent : bool) : Outcome :=
  if ssh_agent && negb cleanup then
    done_with [WriteUnixAck false (Some "ssh-agent forwarding listen requires cleanup")]
  else match (Fs.listen_setup (os_fault os) (os_umask os) p cleanup ssh_agent (os_fs os)).1 with
       | Err err => done_with [UnixBind p cleanup ssh_agent; WriteUnixAck false (Some err)]
       | Ok _ => done_with [UnixBind p cleanup ssh_agent; WriteUnixAck true None; Relay]
       end.

Definition unix_serve_stream (os : Os) (se : Session) (p : StreamPreamble) (tail : option UnixOp) :
    Outcome :=
  match tail with
  | None => bail [] "missing unix request"
  | Some op =>
      if bool_decide (peer_token p ≠ se_peer_token se) || bool_decide (alpn p ≠ ALPN_UNIX_V1)
      then bail [] "invalid unix preamble"
      else match unix_permits (se_caps se) {| ur_preamble := p; ur_op := op |} with
           | Err error => done_with [WriteUnixAck false (Some error)]
           | Ok _ => match op with
                     | UnixConnect path => unix_serve_connect os path
                     | UnixListen path cleanup ssh_agent => unix_serve_listen os path cleanup ssh_agent
                     end
           end
  end.

(** ** shell_handler/user.rs

    [pw_uid] and [pw_name] are the password-database lookups ([Err] on failure,
    [Ok None] for an unknown entry), [euid] the effective user id. *)

Record Passwd := { pw_uid : Z; pw_gid : Z; pw_name : string; pw_dir : string; pw_shell : string }.

(** shell_handler/reject.rs: the audited kind and the client-visible reason *)
Inductive RejectKind := ArgvEmpty | PathProbeFailed | PtyAllocationFailed | UidLookupFailed | UserSwitchRefused.
Record SpawnReject := { sj_kind : RejectKind; sj_wire : ShellReason }.

Definition reason_str (k : RejectKind) : string :=
  match k with
  | ArgvEmpty => "argv_empty"
  | PathProbeFailed => "path_probe_failed"
  | PtyAllocationFailed => "pty_allocation_failed"
  | UidLookupFailed => "uid_lookup_failed"
  | UserSwitchRefused => "user_switch_refused"
  end.

Definition argv_empty : SpawnReject := {| sj_kind := ArgvEmpty; sj_wire := SpawnFailed "missing argv" |}.
Definition path_probe_failed (msg : string) : SpawnReject :=
  {| sj_kind := PathProbeFailed; sj_wire := SpawnFailed msg |}.
Definition pty_allocation_failed (wire : ShellReason) : SpawnReject :=
  {| sj_kind := PtyAllocationFailed; sj_wire := wire |}.
Definition uid_lookup_failed (msg : string) : SpawnReject :=
  {| sj_kind := UidLookupFailed; sj_wire := BadUser msg |}.
Definition user_switch_refused (msg : string) : SpawnReject :=
  {| sj_kind := UserSwitchRefused; sj_wire := BadUser msg |}.

Definition resolve_requested_user (euid : Z) (from_uid : Z → result string (option Passwd))
    (from_name : string → result string (option Passwd)) (user : option string) :
    result SpawnReject RequestedUser :=
  cur ← map_err uid_lookup_failed (from_uid euid);
  current_user ← ok_or cur (uid_lookup_failed ("unknown current user: " +:+ pretty (Z.to_N euid)));
  requested ← match user with
              | Some u =>
                  r ← map_err user_switch_refused (from_name u);
                  ok_or r (user_switch_refused ("unknown user: " +:+ u))
              | None => Ok current_user
              end;
  ensure (negb (negb (euid =? 0) && negb (pw_uid requested =? euid)))
    (user_switch_refused "cannot drop uid as non-root");;
  Ok {| ru_uid := pw_uid requested; ru_gid := pw_gid requested; ru_name := pw_name requested;
        ru_home_dir := pw_dir requested;
        ru_shell := if decide (pw_shell requested = "") then "/bin/sh" else pw_shell requested;
        ru_switch_required := (euid =? 0) && negb (pw_uid requested =? euid) |}.

(** ** The agent's state *)

Record AgentState := {
  as_mode : AgentMode;
  as_revocations : Rev.RevocationSet;
  as_world : Rev.World;
  as_udp : Udp.Registry;
  as_shells : gset bytes;
}.

Definition with_revocations (st : AgentState) (rv : Rev.RevocationSet) (w : Rev.World) : AgentState :=
  {| as_mode := as_mode st; as_revocations := rv; as_world := w; as_udp := as_udp st;
     as_shells := as_shells st |}.
Definition with_udp (st : AgentState) (u : Udp.Registry) : AgentState :=
  {| as_mode := as_mode st; as_revocations := as_revocations st; as_world := as_world st; as_udp := u;
     as_shells := as_shells st |}.
Definition with_shells (st : AgentState) (s : gset bytes) : AgentState :=
  {| as_mode := as_mode st; as_revocations := as_revocations st; as_world := as_world st;
     as_udp := as_udp st; as_shells := s |}.

Section handlers.
Context `{Sha256, Hex, !Json Rev.RevocationRecord}.

(** ** meta_handler.rs *)

Definition MAX_PUBLISH_ITEMS : Z := 1000.

Definition cap_denied (message : string) : MetaResp :=
  MetaError {| err_kind := EkCapDenied; err_message := message; err_retry_after_ms := None |}.

Definition meta_allows (f : MetaCaps → bool) (se : Session) : bool :=
  match meta (se_caps se) with Some c => f c | None => false end.

Definition supported_alpns (mode : AgentMode) : list string :=
  [ALPN_TICKET_V1; ALPN_META_V1; ALPN_SHELL_V1; ALPN_TCP_V1; ALPN_UDP_V1]
  ++ match mode with Listener => [ALPN_TCP_V2] | Gateway _ _ _ => [] end.

(** [io_text] is the text of an i/o error. *)
Definition append_error_text (io_text : string) (e : Rev.AppendError) : string :=
  match e with
  | Rev.SizeCeilingExceeded c a m =>
      "revocations.jsonl would exceed ceiling: current=" +:+ dec c +:+ " append=" +:+ dec a
        +:+ " max=" +:+ dec m
  | Rev.InvalidRecord message => "invalid revocation record: " +:+ message
  | Rev.AppendIo => io_text
  end.

Definition is_ticket_id (raw : bytes) : bool := Z.of_nat (length raw) =? 16.

Definition publish_revocations (io : bool) (io_text : string) (clock : option Z) (st : AgentState)
    (se : Session) (items : list bytes) : MetaResp * AgentState :=
  if negb (meta_allows info se) then
    (cap_denied "publish revocations requires meta.info capability", st)
  else if MAX_PUBLISH_ITEMS <? Z.of_nat (length items) then
    (MetaError {| err_kind := EkRateLimited;
       err_message := "batch exceeds 1000 records; split into smaller requests";
       err_retry_after_ms := Some 1000 |}, st)
  else match clock with
  | None =>
      (MetaError {| err_kind := EkInternalError;
         err_message := "unix time unavailable: system clock is before unix epoch";
         err_retry_after_ms := None |}, st)
  | Some now =>
      let reason := "meta_publish_from_" +:+ hex_encode (se_caller_endpoint_id se) in
      let valid := List.filter is_ticket_id items in
      let rejected := (λ raw, (raw, "ticket_id must be 16 bytes"))
                        <$> List.filter (λ raw, negb (is_ticket_id raw)) items in
      let batch := (λ i, Rev.record_new i reason now None) <$> valid in
      match Rev.append_batch_atomic io (as_revocations st) batch (as_world st) with
      | (Ok _, rv, w) =>
          (PublishedRevocations (Z.of_nat (length valid)) rejected, with_revocations st rv w)
      | (Err (Rev.SizeCeilingExceeded c a m), rv, w) =>
          (MetaError {| err_kind := ResourceExhausted;
             err_message := "revocations.jsonl ceiling exceeded: current=" +:+ dec c +:+ " append="
                              +:+ dec a +:+ " max=" +:+ dec m;
             err_retry_after_ms := None |}, with_revocations st rv w)
      | (Err e, rv, w) =>
          (MetaError {| err_kind := EkInternalError;
             err_message := "append revocations: " +:+ append_error_text io_text e;
             err_retry_after_ms := None |}, with_revocations st rv w)
      end
  end.

(** What the agent reports about itself. *)
Record Facts := { fa_version : string; fa_uptime : Z; fa_hostname : string; fa_os : string }.

Definition meta_serve_stream (io : bool) (io_text : string) (clock clock_us : option Z) (facts : Facts)
    (st : AgentState) (se : Session) (p : StreamPreamble) (frame : option MetaReq) :
    Outcome * AgentState :=
  if bool_decide (peer_token p ≠ se_peer_token se) || bool_decide (alpn p ≠ ALPN_META_V1)
  then (bail [CloseConnection 0x1001 "policy denied"] "policy denied", st)
  else match frame with
  | None => (bail [] "missing meta request", st)
  | Some (Ping _) =>
      if meta_allows ping se then
        match clock_us with
        | Some t => (done_with [WriteMeta (Pong t)], st)
        | None => (bail [] "system clock is before unix epoch", st)
        end
      else (done_with [WriteMeta (cap_denied "meta ping not allowed")], st)
  | Some Info =>
      if meta_allows info se then
        (done_with [WriteMeta (InfoResp (fa_version facts) (supported_alpns (as_mode st))
           (fa_uptime facts) (fa_hostname facts) (fa_os facts) [])], st)
      else (done_with [WriteMeta (cap_denied "meta info not allowed")], st)
  | Some (PublishRevocations items) =>
      let '(resp, st') := publish_revocations io io_text clock st se items in
      (done_with [WriteMeta resp], st')
  end.

(** ** udp_handler.rs: opening a session *)

Definition udp_serve_stream (lookup : string → Z → option (option string)) (now : Z)
    (draws : list bytes) (connection_id : Z) (st : AgentState) (se : Session) (p : StreamPreamble)
    (frame : option UdpCtlReqTail) : option (Outcome * AgentState) :=
  match frame with
  | None => Some (bail [] "missing udp control request", st)
  | Some req =>
      if bool_decide (peer_token p ≠ se_peer_token se) || bool_decide (alpn p ≠ ALPN_UDP_V1)
      then Some (bail [] "invalid udp preamble", st)
      else if decide (uc_binds req = []) then
        Some (done_with [WriteUdpResp false (Some "at least one udp bind is required")
                (uc_session_id req)], st)
      else match for_each (udp_permits (se_caps se)) (uc_binds req) with
      | Err error => Some (done_with [WriteUdpResp false (Some error) (uc_session_id req)], st)
      | Ok _ =>
          '(res, reg) ← Udp.attach_or_create (as_udp st) lookup (uc_session_id req) (uc_binds req)
                          connection_id (se_peer_token se) (hex_encode (se_ticket_id se)) now draws;
          Some match res with
               | Ok session_id =>
                   (done_with [UdpAttach session_id (uc_binds req); WriteUdpResp true None session_id],
                    with_udp st reg)
               | Err e => (done_with [WriteUdpResp false (Some e) (uc_session_id req)], with_udp st reg)
               end
      end
  end.

(** ** shell_handler/mod.rs

    [resolve] answers the user lookup and [spawn] the process creation. *)

Definition control_request (p : StreamPreamble) (b : ShellReqBody) : ShellReq := {|
  sr_preamble := p; sr_mode := sb_mode b; sr_argv := sb_argv b; sr_env_patch := sb_env_patch b;
  sr_cwd := sb_cwd b; sr_pty := sb_pty b; sr_user := sb_user b |}.

Definition serve_control_stream (resolve : option string → result SpawnReject RequestedUser)
    (spawn : ShellReq → RequestedUser → result SpawnReject Z) (session_id : bytes) (token : Z)
    (st : AgentState) (se : Session) (req : ShellReq) : Outcome * AgentState :=
  if bool_decide (peer_token (sr_preamble req) ≠ se_peer_token se)
     || bool_decide (alpn (sr_preamble req) ≠ ALPN_SHELL_V1)
  then (bail [] "invalid shell preamble", st)
  else match shell_permits (se_caps se) req with
  | Err reason => (done_with [WriteShellAck false (Some reason) None None], st)
  | Ok _ =>
      match resolve (sr_user req) with
      | Err reject => (done_with [WriteShellAck false (Some (sj_wire reject)) None None], st)
      | Ok user =>
          match spawn req user with
          | Err reject =>
              (done_with [Spawn req; WriteShellAck false (Some (sj_wire reject)) None None], st)
          | Ok pid =>
              (done_with [Spawn req; WriteShellAck true None (Some pid) (Some session_id)],
               with_shells
                 (with_revocations st
                    (Rev.register_live_session (as_revocations st) session_id
                       (se_ticket_chain_ids se) token) (as_world st))
                 ({[session_id]} ∪ as_shells st))
          end
      end
  end.

(** [ShellSessionGuard::drop], when the control stream ends. *)
Definition end_control_stream (session_id : bytes) (st : AgentState) (se : Session) : AgentState :=
  with_shells
    (with_revocations st
       (Rev.deregister_live_session (as_revocations st) session_id (se_ticket_chain_ids se))
       (as_world st))
    (as_shells st ∖ {[session_id]}).

Definition serve_substream (st : AgentState) (se : Session) (p : StreamPreamble) (tail : ShellSubTail) :
    Outcome :=
  if bool_decide (peer_token p ≠ se_peer_token se) || bool_decide (alpn p ≠ ALPN_SHELL_V1)
  then bail [] "invalid shell sub-stream preamble"
  else if decide (ss_session_id tail ∈ as_shells st)
       then done_with [PumpShell (ss_session_id tail) (ss_kind tail)]
       else bail [] "shell session not found".

Definition shell_serve_stream (resolve : option string → result SpawnReject RequestedUser)
    (spawn : ShellReq → RequestedUser → result SpawnReject Z) (session_id : bytes) (token : Z)
    (st : AgentState) (se : Session) (p : StreamPreamble) (first : option ShellFirstFrame) :
    Outcome * AgentState :=
  match first with
  | None => (bail [] "missing shell first frame", st)
  | Some (Control b) => serve_control_stream resolve spawn session_id token st se (control_request p b)
  | Some (Sub tail) => (serve_substream st se p tail, st)
  end.

(** ** A whole stream *)

(** What [read_frame] yields for the type each handler asks for. *)
Record Frames := {
  fr_tcp_v1 : option TcpReqBody;
  fr_tcp_v2 : option TcpOp;
  fr_unix : option UnixOp;
  fr_udp : option UdpCtlReqTail;
  fr_meta : option MetaReq;
  fr_shell : option ShellFirstFrame;
}.

(** The answers of the environment to every call a stream may make. *)
Record Env := {
  env_os : Os;
  env_io : bool;
  env_io_text : string;
  env_clock : option Z;
  env_clock_us : option Z;
  env_facts : Facts;
  env_lookup : string → Z → option (option string);
  env_now : Z;
  env_draws : list bytes;
  env_connection_id : Z;
  env_resolve : option string → result SpawnReject RequestedUser;
  env_spawn : ShellReq → RequestedUser → result SpawnReject Z;
  env_session_id : bytes;
  env_token : Z;
}.

Definition serve_stream (e : Env) (st : AgentState) (se : Session) (p : StreamPreamble) (fr : Frames) :
    option (Outcome * AgentState) :=
  match dispatch (as_mode st) (alpn p) with
  | RouteMeta => Some (meta_serve_stream (env_io e) (env_io_text e) (env_clock e) (env_clock_us e)
                         (env_facts e) st se p (fr_meta fr))
  | RouteShell =>
      Some (shell_serve_stream (env_resolve e) (env_spawn e) (env_session_id e) (env_token e) st se p
              (fr_shell fr))
  | RouteSession => Some (done_with [ServeSession], st)
  | RouteTcp => Some (tcp_serve_stream (env_os e) se p (fr_tcp_v1 fr) (fr_tcp_v2 fr), st)
  | RouteGateway => Some (gateway_serve_stream (env_os e) (as_mode st) se p (fr_tcp_v1 fr), st)
  | RouteUdp => udp_serve_stream (env_lookup e) (env_now e) (env_draws e) (env_connection_id e) st se p
                  (fr_udp fr)
  | RouteUnix => Some (unix_serve_stream (env_os e) se p (fr_unix fr), st)
  | RouteClose code reason => Some (done_with [CloseConnection code reason], st)
  end.

End handlers.

(** ** Authorised effects *)

(** The permission an effect needs from a set of capabilities and that narrowing
    preserves, for a TCP listener as far as it does; [allowed_event] asks it of the session's own in any case.
    What a stream of the session protocol does is in SessionHandler.v. *)
Definition permits_event (c : Capabilities) (p : StreamPreamble) (ev : Event) : Prop :=
  match ev with
  | TcpConnect host port => tcp_permits c {| tr_preamble := p; tr_host := host; tr_port := port |} = Ok tt
  | TcpBind host port => wildcard_free c ∨ is_loopback_name host = true → tcp_listen_permits c host port = Ok tt
  | UnixDial path => unix_permits c {| ur_preamble := p; ur_op := UnixConnect path |} = Ok tt
  | UnixBind path cleanup ssh_agent =>
      unix_permits c {| ur_preamble := p; ur_op := UnixListen path cleanup ssh_agent |} = Ok tt
  | UdpAttach _ binds => Forall (λ b, udp_permits c b = Ok tt) binds
  | Spawn req => shell_permits c req = Ok tt
  | _ => True
  end.

(** What the session and the agent mode must allow besides. *)
Definition allowed_event (mode : AgentMode) (se : Session) (p : StreamPreamble) (ev : Event) : Prop :=
  match ev with
  | TcpConnect host port =>
      match mode with
      | Listener => True
      | Gateway _ uh up => host = uh ∧ port = up ∧ ∃ br, se_bearer se = Some br ∧ br ≠ []
      end
  | TcpBind host port => mode = Listener ∧ tcp_listen_permits (se_caps se) host port = Ok tt
  | UnixBind _ cleanup ssh_agent => mode = Listener ∧ (ssh_agent = true → cleanup = true)
  | UdpAttach _ binds => mode = Listener ∧ binds ≠ []
  | UnixDial _ | Spawn _ | PumpShell _ _ => mode = Listener
  | RelayWithBearer br => mode ≠ Listener ∧ se_bearer se = Some br
  | WriteMeta (Pong _) => meta_allows ping se = true
  | WriteMeta (InfoResp _ _ _ _ _ _) | WriteMeta (PublishedRevocations _ _) => meta_allows info se = true
  | _ => True
  end.

(** Effects a stream with the wrong token may still have. *)
Definition harmless (ev : Event) : Prop :=
  match ev with CloseConnection _ _ | ServeSession => True | _ => False end.

Definition authorised (mode : AgentMode) (se : Session) (p : StreamPreamble) (ev : Event) : Prop :=
  permits_event (se_caps se) p ev ∧ allowed_event mode se p ev
  ∧ (peer_token p = se_peer_token se ∨ harmless ev).

Lemma permits_event_attenuates p c pre ev :
  attenuates p c → permits_event c pre ev → permits_event p pre ev.
Proof.
  intros [Hsh Ht Hu Hx Hw Hl]. destruct ev; simpl; auto.
  - intros Hb Hside. apply Hl; [done |]. apply Hb. destruct Hside; auto.
  - intros Hf. eapply Forall_impl; [exact Hf |]. auto.
Qed.

Lemma dispatch_gateway u h pt a :
  match dispatch (Gateway u h pt) a with
  | RouteMeta | RouteGateway | RouteClose _ _ => True
  | _ => False
  end.
Proof.
  unfold dispatch, gated, alpn_allowed_in_mode. repeat case_decide; subst; try done;
    exfalso; naive_solver.
Qed.

Lemma dispatch_listener a :
  match dispatch Listener a with RouteGateway => False | _ => True end.
Proof. unfold dispatch, gated. simpl. by repeat case_decide. Qed.

Ltac effects := repeat (apply Forall_cons; split); try apply Forall_nil; try done;
  split_and!; simpl; auto.

Section effects.
Context (os : Os) (se : Session) (p : StreamPreamble).
Hypothesis token_ok : peer_token p = se_peer_token se.

Lemma tcp_connect_effects host port :
  Forall (authorised Listener se p) (tcp_serve_connect os se p host port).1.
Proof.
  unfold tcp_serve_connect. destruct (tcp_permits _ _) as [[]|] eqn:Hp; [|effects].
  destruct (os_tcp_connect os host port); effects.
Qed.

Lemma tcp_listen_effects host port :
  Forall (authorised Listener se p) (tcp_serve_listen os se host port).1.
Proof.
  unfold tcp_serve_listen. destruct (tcp_listen_permits _ _ _) as [[]|] eqn:Hp; [|effects].
  destruct (os_tcp_bind os host port); effects.
Qed.

Lemma unix_effects op :
  Forall (authorised Listener se p) (unix_serve_stream os se p (Some op)).1.
Proof.
  unfold unix_serve_stream. destruct (_ || _); [effects |].
  destruct (unix_permits _ _) as [[]|] eqn:Hp; [|effects].
  destruct op as [path|path cleanup ssh_agent].
  - unfold unix_serve_connect. destruct (os_unix_connect os path); effects.
  - unfold unix_serve_listen. destruct ssh_agent, cleanup; simpl; try effects;
      destruct (Fs.listen_setup _ _ _ _ _ _) as [[] ?]; effects.
Qed.

Lemma gateway_effects u h pt b :
  Forall (authorised (Gateway u h pt) se p) (gateway_serve_stream os (Gateway u h pt) se p (Some b)).1.
Proof.
  unfold gateway_serve_stream. destruct (_ || _); [effects |].
  destruct (tcp_permits _ _) as [[]|] eqn:Hp; [|effects].
  destruct (_ || _); [effects |]. destruct (se_bearer se) as [[|x br]|] eqn:Hb; try effects.
  destruct (os_tcp_connect os h pt); effects; eauto.
Qed.
End effects.

Lemma tcp_effects os se p v1 v2 :
  Forall (authorised Listener se p) (tcp_serve_stream os se p v1 v2).1.
Proof.
  unfold tcp_serve_stream. case_bool_decide as Htok; [constructor |].
  destruct (decide (alpn p = ALPN_TCP_V1)).
  - destruct v1; [by apply tcp_connect_effects | constructor].
  - destruct (decide (alpn p = ALPN_TCP_V2)); [|constructor].
    destruct v2 as [[]|]; simpl; [by apply tcp_connect_effects | by apply tcp_listen_effects | effects | constructor].
Qed.

Section stateful_effects.
Context `{Sha256, Hex, !Json Rev.RevocationRecord}.

(** Handlers that refuse the wrong token do nothing with it. *)
Lemma bad_token_or (p : StreamPreamble) (se : Session) (a : string) :
  (bool_decide (peer_token p ≠ se_peer_token se) || bool_decide (alpn p ≠ a) = true)
  ∨ (peer_token p = se_peer_token se ∧ alpn p = a
     ∧ bool_decide (peer_token p ≠ se_peer_token se) || bool_decide (alpn p ≠ a) = false).
Proof. repeat case_bool_decide; naive_solver. Qed.

Lemma unix_stream_effects os se p fr : Forall (authorised Listener se p) (unix_serve_stream os se p fr).1.
Proof.
  destruct fr as [op|]; [|constructor].
  destruct (bad_token_or p se ALPN_UNIX_V1) as [Hb|(Ht & _)]; [|by apply unix_effects].
  unfold unix_serve_stream. rewrite Hb. constructor.
Qed.

Lemma gateway_stream_effects os u h pt se p fr :
  Forall (authorised (Gateway u h pt) se p) (gateway_serve_stream os (Gateway u h pt) se p fr).1.
Proof.
  destruct fr as [b|]; [|constructor].
  destruct (bad_token_or p se ALPN_TCP_V1) as [Hb|(Ht & _)]; [|by apply gateway_effects].
  unfold gateway_serve_stream. rewrite Hb. constructor.
Qed.

Lemma publish_allowed io txt clock st se items :
  (∃ a r, (publish_revocations io txt clock st se items).1 = PublishedRevocations a r
     ∧ meta_allows info se = true)
  ∨ ∃ m, (publish_revocations io txt clock st se items).1 = MetaError m.
Proof.
  unfold publish_revocations. destruct (meta_allows info se); [|by right; eexists]. simpl.
  destruct (_ <? _); [by right; eexists |]. destruct clock; [|by right; eexists]. cbv zeta.
  destruct (Rev.append_batch_atomic _ _ _ _) as [[[n|[]] rv] w]; [left; by eexists _, _ | right..]; by eexists.
Qed.

Lemma meta_effects io txt clock clock_us facts st se p fr :
  Forall (authorised (as_mode st) se p) (meta_serve_stream io txt clock clock_us facts st se p fr).1.1.
Proof.
  unfold meta_serve_stream. destruct (bad_token_or p se ALPN_META_V1) as [->|(Ht & _ & ->)]; [effects |].
  destruct fr as [[t| |items]|]; simpl; [| | |constructor].
  - destruct (meta_allows ping se) eqn:Hm; [destruct clock_us|]; effects.
  - destruct (meta_allows info se) eqn:Hm; effects.
  - pose proof (publish_allowed io txt clock st se items) as Hp.
    destruct (publish_revocations io txt clock st se items) as [resp st']. simpl in *. effects.
    by destruct Hp as [(a & r & -> & Hi)|[m ->]].
Qed.

Lemma shell_effects resolve spawn sid tok st se req :
  Forall (authorised Listener se (sr_preamble req))
    (serve_control_stream resolve spawn sid tok st se req).1.1.
Proof.
  unfold serve_control_stream.
  destruct (bad_token_or (sr_preamble req) se ALPN_SHELL_V1) as [->|(Ht & _ & ->)]; [constructor |].
  destruct (shell_permits _ _) as [[]|] eqn:Hp; [|effects].
  destruct (resolve _) as [user|]; [|effects]. destruct (spawn req user); effects.
Qed.

Lemma substream_effects st se p tail : Forall (authorised Listener se p) (serve_substream st se p tail).1.
Proof.
  unfold serve_substream. destruct (bad_token_or p se ALPN_SHELL_V1) as [->|(Ht & _ & ->)]; [constructor |].
  case_decide; [effects | constructor].
Qed.

Lemma udp_effects lookup now draws c st se p fr out st' :
  udp_serve_stream lookup now draws c st se p fr = Some (out, st') →
  Forall (authorised Listener se p) out.1.
Proof.
  unfold udp_serve_stream. destruct fr as [req|]; [|intros [= <- <-]; constructor].
  destruct (bad_token_or p se ALPN_UDP_V1) as [->|(Ht & _ & ->)]; [intros [= <- <-]; constructor |].
  case_decide as Hne; [intros [= <- <-]; effects |].
  destruct (for_each _ _) as [[]|] eqn:Hf; [|intros [= <- <-]; effects].
  apply for_each_Ok in Hf. destruct (Udp.attach_or_create _ _ _ _ _ _ _ _ _) as [[res reg]|]; [|done].
  simpl. destruct res; intros [= <- <-]; effects.
Qed.

Lemma serve_stream_effects e st se p fr out st' :
  serve_stream e st se p fr = Some (out, st') → Forall (authorised (as_mode st) se p) out.1.
Proof.
  unfold serve_stream. pose proof (dispatch_listener (alpn p)) as Hl.
  destruct (as_mode st) as [|u h pt] eqn:Hm.
  - destruct (dispatch Listener (alpn p)) eqn:Hd; try done.
    + intros Ho. injection Ho as Ho. apply (f_equal fst) in Ho. cbn [fst] in Ho. subst out. rewrite <- Hm.
      apply meta_effects.
    + unfold shell_serve_stream. destruct (fr_shell fr) as [[b|tail]|]; intros Ho; injection Ho as Ho.
      * apply (f_equal fst) in Ho. cbn [fst] in Ho. subst out.
        apply (shell_effects _ _ _ _ _ _ (control_request p b)).
      * subst out. apply substream_effects.
      * subst out. constructor.
    + intros [= <- <-]. effects.
    + intros [= <- <-]. apply tcp_effects.
    + apply udp_effects.
    + intros [= <- <-]. apply unix_stream_effects.
    + intros [= <- <-]. effects.
  - pose proof (dispatch_gateway u h pt (alpn p)) as Hg.
    destruct (dispatch (Gateway u h pt) (alpn p)) eqn:Hd; try done; intros Ho; injection Ho as Ho.
    + apply (f_equal fst) in Ho. cbn [fst] in Ho. subst out. rewrite <- Hm. apply meta_effects.
    + subst out. apply gateway_stream_effects.
    + subst out. effects.
Qed.
End stateful_effects.

(** ** Properties *)

Section properties.
Context `{Sha256, Hex, !Json Rev.RevocationRecord}.

(** Every effect of a stream on an accepted connection is authorised: outgoing TCP
    and Unix connections, Unix and TCP listeners, UDP sessions and spawned processes are
    permitted by the session's capabilities; a gateway only ever connects to its
    upstream, with a non-empty bearer; and with a preamble token other than the
    session's nothing happens beyond closing the connection (or entering the persistent
    session protocol, which checks the token itself). *)
Theorem stream_effects_authorised e st se p fr evs res st' ev :
  serve_stream e st se p fr = Some ((evs, res), st') → ev ∈ evs →
  permits_event (se_caps se) p ev ∧ allowed_event (as_mode st) se p ev
  ∧ (peer_token p = se_peer_token se ∨ harmless ev).
Proof. intros Hs%serve_stream_effects Hev. rewrite Forall_forall in Hs. by apply Hs. Qed.

(** Publishing revocations over the metadata stream needs the info capability and is
    all or nothing: on success the revoked ids grow by exactly the well-sized items and
    the others are reported back; on any error set, file and sessions are unchanged. *)
Theorem publish_revocations_effect `{!HexLaws} io txt clock st se items resp st' :
  Forall (Forall u8_range) items →
  publish_revocations io txt clock st se items = (resp, st') →
  match resp with
  | PublishedRevocations n rejected =>
      meta_allows info se = true ∧ n + Z.of_nat (length rejected) = Z.of_nat (length items)
      ∧ rejected.*1 = List.filter (λ raw, negb (is_ticket_id raw)) items
      ∧ Rev.ids (as_revocations st')
        = Rev.ids (as_revocations st) ∪ list_to_set (List.filter is_ticket_id items)
  | _ => as_revocations st' = as_revocations st ∧ as_world st' = as_world st
  end.
Proof.
  intros Hr. unfold publish_revocations. destruct (meta_allows info se) eqn:Hm; [|by intros [= <- <-]].
  simpl. destruct (_ <? _); [by intros [= <- <-] |]. destruct clock as [now|]; [|by intros [= <- <-]].
  cbv zeta. destruct (Rev.append_batch_atomic _ _ _ _) as [[[n|err] rv] w] eqn:Ha.
  - intros [= <- <-]. simpl. apply Rev.append_batch_ids in Ha. rewrite Ha, Rev.ids_of_new.
    + rewrite length_fmap. split_and!; [done | | | done].
      * clear. induction items as [|i l IH]; simpl; [done |]. destruct (is_ticket_id i); simpl; lia.
      * rewrite <- list_fmap_compose. apply list_fmap_id.
    + rewrite Forall_forall in *. intros i [Hi Hl]%Rev.filter_elem. split; [|by apply Hr].
      apply Z.eqb_eq in Hl. lia.
  - apply Rev.append_batch_failed in Ha as [-> ->]. by destruct err; intros [= <- <-].
Qed.

Lemma switch_allowed euid uid :
  negb (negb (euid =? 0) && negb (uid =? euid)) = true →
  (euid ≠ 0 → uid = euid) ∧ ((euid =? 0) && negb (uid =? euid) = true ↔ euid = 0 ∧ uid ≠ 0).
Proof.
  destruct (Z.eqb_spec euid 0), (Z.eqb_spec uid euid); simpl; intros; try done; subst; naive_solver.
Qed.

(** The user switch is safe: an agent that is not root only ever runs as itself, the
    switch is required exactly when root runs someone else, and the target shell is
    never empty. *)
Theorem user_switch_safe euid from_uid from_name user u :
  resolve_requested_user euid from_uid from_name user = Ok u →
  (euid ≠ 0 → ru_uid u = euid) ∧ ru_shell u ≠ ""
  ∧ (ru_switch_required u = true ↔ euid = 0 ∧ ru_uid u ≠ 0).
Proof.
  unfold resolve_requested_user. intros Hr. inv_result. subst u. simpl.
  match goal with Hs : negb _ = true |- _ => apply switch_allowed in Hs as [Hn Hi] end.
  split_and!; [done | by case_decide | done].
Qed.

(** what the info response advertises is not what the dispatcher serves: a gateway
    advertises the shell and UDP protocols and closes connections that use them, and a
    listener serves the session and Unix protocols without advertising them. *)
Theorem supported_alpns_mismatch u h pt :
  Forall (λ a, a ∈ supported_alpns (Gateway u h pt)
    ∧ dispatch (Gateway u h pt) a
      = RouteClose 0x1004 "gateway mode only serves meta/v1 and tcp/v1 streams")
    [ALPN_SHELL_V1; ALPN_UDP_V1]
  ∧ dispatch Listener ALPN_SESSION_V1 = RouteSession ∧ ~ (ALPN_SESSION_V1 ∈ supported_alpns Listener)
  ∧ dispatch Listener ALPN_UNIX_V1 = RouteUnix ∧ ~ (ALPN_UNIX_V1 ∈ supported_alpns Listener).
Proof.
  split_and!; try (by vm_compute).
  - repeat constructor; vm_compute; set_solver.
  - apply (bool_decide_unpack _). vm_compute. exact I.
  - apply (bool_decide_unpack _). vm_compute. exact I.
Qed.
End properties.

(** ** Witnesses *)

Module Demo2.
Import Params Demo Agent1 Rev.Demo.

Definition os : Os := {|
  os_tcp_connect := λ _ _, Ok tt; os_tcp_bind := λ _ p, Ok p; os_unix_connect := λ _, Ok tt;
  os_fault := λ _, None; os_umask := 18; os_fs := ∅ |}.
Definition me : Passwd := {| pw_uid := 1000; pw_gid := 1000; pw_name := "me"; pw_dir := "/home/me"; pw_shell := "" |}.
Definition env : Env := {|
  env_os := os; env_io := true; env_io_text := "io"; env_clock := Some 2000; env_clock_us := Some 2000000;
  env_facts := {| fa_version := "1"; fa_uptime := 1; fa_hostname := "h"; fa_os := "linux" |};
  env_lookup := λ _ _, None; env_now := 2000; env_draws := []; env_connection_id := 1;
  env_resolve := resolve_requested_user 1000 (λ _, Ok (Some me)) (λ _, Ok None);
  env_spawn := λ _ _, Ok 42; env_session_id := [8]; env_token := 1 |}.
Definition state : AgentState := {|
  as_mode := Listener; as_revocations := no_revocations; as_world := fresh; as_udp := Udp.new 60;
  as_shells := ∅ |}.
Definition session_of (c : Capabilities) : Session := {|
  se_peer_token := [1]; se_caps := c; se_ticket_id := id1; se_ticket_chain_ids := [id1];
  se_caller_endpoint_id := [4]; se_ticket_issuer_id := [7]; se_ticket_holder_id := None; se_bearer := None |}.
Definition pre : StreamPreamble := {| peer_token := [1]; alpn := ALPN_TCP_V1 |}.
Definition frames : Frames := {|
  fr_tcp_v1 := Some {| tb_host := "localhost"; tb_port := 22 |}; fr_tcp_v2 := None; fr_unix := None;
  fr_udp := None; fr_meta := None; fr_shell := None |}.

Lemma stream_effects_authorised_witness :
  tcp_permits narrow_caps {| tr_preamble := pre; tr_host := "localhost"; tr_port := 22 |} = Ok tt.
Proof.
  apply (stream_effects_authorised env state (session_of narrow_caps) pre frames
    [TcpConnect "localhost" 22; WriteTcpAck true None; Relay] (Ok tt) state (TcpConnect "localhost" 22)).
  - vm_compute. reflexivity.
  - by left.
Defined.

Definition info_caps : Capabilities := {|
  presence := 32; shell := None; tcp := None; udp := None; fs := None; vpn := None;
  meta := Some {| ping := true; info := true |}; unix := None |}.

#[local] Instance any_json : Json Rev.RevocationRecord :=
  {| to_json := λ _, Some "{}"; from_json := λ _, None |}.

Lemma publish_revocations_effect_witness :
  ∃ st', publish_revocations true "io" (Some 1000) state (session_of info_caps) [id1; [3]]
    = (PublishedRevocations 1 [([3], "ticket_id must be 16 bytes")], st')
  ∧ Rev.ids (as_revocations st') = Rev.ids no_revocations ∪ list_to_set [id1].
Proof.
  destruct (publish_revocations true "io" (Some 1000) state (session_of info_caps) [id1; [3]]) as [resp st'] eqn:Hp.
  assert (resp = PublishedRevocations 1 [([3], "ticket_id must be 16 bytes")]) as ->
    by (vm_compute in Hp; congruence).
  exists st'. split; [reflexivity |].
  refine (proj2 (proj2 (proj2 (publish_revocations_effect true "io" (Some 1000) state (session_of info_caps)
    [id1; [3]] _ st' _ Hp)))).
  repeat constructor; vm_compute; discriminate.
Defined.

Lemma user_switch_safe_witness :
  ∃ u, resolve_requested_user 1000 (λ _, Ok (Some me)) (λ _, Ok None) None = Ok u ∧ ru_uid u = 1000.
Proof.
  destruct (resolve_requested_user 1000 (λ _, Ok (Some me)) (λ _, Ok None) None) as [u|] eqn:Hr;
    [|vm_compute in Hr; discriminate].
  exists u. split; [reflexivity |].
  apply (proj1 (user_switch_safe 1000 (λ _, Ok (Some me)) (λ _, Ok None) None u Hr)). discriminate.
Defined.
End Demo2.
