(* ===== verification/GatewayHttp.v ===== *)
(** * The gateway's header rewriting

    crates/portl-agent/src/gateway.rs: reading the header block of an HTTP/1.1 request
    from the stream, and replacing its credentials by the ticket's bearer.  Everything
    is on bytes; [is_utf8] is [std::str::from_utf8(..).is_ok()]. *)

From S2P Require Import Prelude Bytes Canonical.

Module Http.

(** ** Bytes of the standard library *)

Definition CR : Z := 13.
Definition LF : Z := 10.
Definition CRLF : bytes := [CR; LF].

(** [slice.split(|b| *b == sep)] *)
Fixpoint split_on (sep : Z) (l : bytes) : list bytes :=
  match l with
  | [] => [[]]
  | b :: r =>
      if b =? sep then [] :: split_on sep r
      else match split_on sep r with
           | [] => [[b]]
           | seg :: segs => (b :: seg) :: segs
           end
  end.

Definition bytes_ends_with (suf l : bytes) : bool :=
  bool_decide (suf = drop (length l - length suf) l) && (length suf <=? length l)%nat.

(** [windows(2).position(|w| w == b"\r\n")] *)
Fixpoint crlf_position (l : bytes) : option nat :=
  match l with
  | a :: ((b :: _) as r) =>
      if (a =? CR) && (b =? LF) then Some O else S <$> crlf_position r
  | _ => None
  end.

(** [trim_end_matches("\r\n")]; the fuel is the length. *)
Fixpoint trim_end_crlf (fuel : nat) (l : bytes) : bytes :=
  match fuel with
  | O => l
  | S fuel' =>
      if bytes_ends_with CRLF l then trim_end_crlf fuel' (take (length l - 2) l) else l
  end.

(** [&l[a..b]], which panics unless [a <= b <= len]. *)
Definition slice (a b : nat) (l : bytes) : option bytes :=
  if ((a <=? b) && (b <=? length l))%nat then Some (take (b - a) (drop a l)) else None.

(** ** gateway.rs *)

Definition MAX_HTTP_HEADER_BYTES : Z := 64 * 1024.

(** Reads [stream] byte by byte after [acc]; [Ok None] at an immediate end. *)
Fixpoint read_initial_headers (acc stream : bytes) : result string (option (bytes * bytes)) :=
  match stream with
  | [] => if decide (acc = []) then Ok None else Err "gateway expected an HTTP/1.1 header block"
  | b :: rest =>
      let acc := acc ++ [b] in
      if MAX_HTTP_HEADER_BYTES <? Z.of_nat (length acc)
      then Err "gateway header block exceeded 65536 bytes"
      else if bytes_ends_with (CRLF ++ CRLF) acc then Ok (Some (acc, rest))
      else read_initial_headers acc rest
  end.

Definition bearer_to_header_value (br : bytes) : result string bytes :=
  ensure (is_utf8 br) "bearer contains non-UTF-8 bytes";;
  ensure (negb (bool_decide (br = []))) "bearer is empty";;
  ensure (forallb (in_range 33 126) br) "bearer contains non-printable characters";;
  Ok br.

Definition validate_http11_request_line (line : bytes) : result string unit :=
  ensure (is_utf8 line) "gateway request line was not utf-8";;
  ensure (bytes_ends_with (str_bytes " HTTP/1.1" ++ CRLF) line)
    "gateway requires an HTTP/1.1 request line";;
  let parts := split_on 32 (trim_end_crlf (length line) line) in
  match parts with
  | [method; target; version] =>
      ensure (negb (bool_decide (method = [])) && negb (bool_decide (target = []))
              && bool_decide (version = str_bytes "HTTP/1.1"))
        "gateway received a malformed HTTP/1.1 request line"
  | _ => Err "gateway received a malformed HTTP/1.1 request line"
  end.

Definition is_header_named (line name : bytes) : bool :=
  match split_on 58 line with
  | header_name :: _ => bool_decide (to_ascii_lowercase <$> header_name = to_ascii_lowercase <$> name)
  | [] => false
  end.

Definition drops_line (line : bytes) : bool :=
  bool_decide (line = []) || bool_decide (line = [CR])
  || is_header_named line (str_bytes "authorization")
  || is_header_named line (str_bytes "connection").

Definition auth_line (value : bytes) : bytes := str_bytes "Authorization: Bearer " ++ value ++ CRLF.
Definition close_line : bytes := str_bytes "Connection: close" ++ CRLF.

(** [None] is a slice panic. *)
Definition rewrite_request_headers (headers br : bytes) : option (result string bytes) :=
  match crlf_position headers with
  | None => Some (Err "gateway request line terminator missing")
  | Some request_line_end =>
      request_line ← slice 0 (request_line_end + 2) headers;
      match validate_http11_request_line request_line;; bearer_to_header_value br with
      | Err e => Some (Err e)
      | Ok header_value =>
          header_block ← slice (request_line_end + 2) (length headers - 2) headers;
          let kept := List.filter (λ line, negb (drops_line line)) (split_on LF header_block) in
          Some (Ok (request_line ++ auth_line header_value ++ close_line
                      ++ concat ((λ line, line ++ [LF]) <$> kept) ++ CRLF))
      end
  end.

(** The bytes written upstream first and the rest of the stream; [Ok None] when the
    stream ends before the request. *)
Definition inject_authorization_header (stream br : bytes) :
    option (result string (option (bytes * bytes))) :=
  match read_initial_headers [] stream with
  | Err e => Some (Err e)
  | Ok None => Some (Ok None)
  | Ok (Some (headers, rest)) =>
      r ← rewrite_request_headers headers br;
      Some (match r with Ok out => Ok (Some (out, rest)) | Err e => Err e end)
  end.

(** ** Lines *)

Lemma split_on_app (sep : Z) (x r : bytes) :
  sep ∉ x → split_on sep (x ++ sep :: r) = x :: split_on sep r.
Proof.
  induction x as [|b x IH]; simpl; intros Hx; [by rewrite Z.eqb_refl |].
  apply not_elem_of_cons in Hx as [Hb Hx].
  rewrite (proj2 (Z.eqb_neq b sep)) by done. by rewrite IH.
Qed.

Lemma split_on_clean (sep : Z) (l : bytes) : Forall (λ seg, sep ∉ seg) (split_on sep l).
Proof.
  induction l as [|b l IH]; simpl; [apply Forall_singleton, not_elem_of_nil |].
  destruct (Z.eqb_spec b sep) as [->|Hb].
  { constructor; [apply not_elem_of_nil | done]. }
  destruct (split_on sep l) as [|seg segs].
  { apply Forall_singleton, not_elem_of_cons; split; [done | apply not_elem_of_nil]. }
  apply Forall_cons in IH as [Hs Hr]. constructor; [| done].
  apply not_elem_of_cons; split; done.
Qed.

Lemma split_on_lines (sep : Z) (ls : list bytes) (r : bytes) :
  Forall (λ seg, sep ∉ seg) ls →
  split_on sep (concat ((λ line, line ++ [sep]) <$> ls) ++ r) = ls ++ split_on sep r.
Proof.
  induction 1 as [|x ls Hx _ IH]; [done |].
  rewrite fmap_cons. simpl. rewrite <-!app_assoc. simpl. by rewrite split_on_app, IH.
Qed.

Lemma bytes_ends_with_iff (suf l : bytes) :
  bytes_ends_with suf l = true ↔ ∃ h, l = h ++ suf.
Proof.
  unfold bytes_ends_with. rewrite andb_true_iff, bool_decide_eq_true, Nat.leb_le. split.
  - intros [E _]. exists (take (length l - length suf) l). rewrite E at 2. by rewrite take_drop.
  - intros [h ->]. rewrite length_app. split; [| lia].
    replace (length h + length suf - length suf)%nat with (length h) by lia.
    by rewrite drop_app_length.
Qed.

Lemma crlf_position_cons (a b : Z) (l : bytes) :
  crlf_position (a :: b :: l)
  = if (a =? CR) && (b =? LF) then Some O else S <$> crlf_position (b :: l).
Proof. done. Qed.

Lemma crlf_position_Some (l : bytes) (n : nat) :
  crlf_position l = Some n → ∃ x r, l = x ++ CRLF ++ r ∧ length x = n.
Proof.
  revert n. induction l as [|a l IH]; intros n; [done |].
  destruct l as [|b l]; [done |]. rewrite crlf_position_cons.
  destruct ((a =? CR) && (b =? LF)) eqn:E.
  - intros [= <-]. apply andb_true_iff in E as [->%Z.eqb_eq ->%Z.eqb_eq]. by exists [], l.
  - intros (m & Hm & ->)%fmap_Some. destruct (IH m Hm) as (x & r & -> & <-).
    by exists (a :: x), r.
Qed.

Lemma crlf_position_le (h r : bytes) :
  ∃ n, crlf_position (h ++ CRLF ++ r) = Some n ∧ (n ≤ length h)%nat.
Proof.
  induction h as [|a h (n & Hn & Hle)]; [by exists O |].
  destruct (h ++ CRLF ++ r) as [|b l] eqn:E; [by destruct h |].
  rewrite <-app_comm_cons, E, crlf_position_cons.
  destruct ((a =? CR) && (b =? LF)); [exists O; simpl; split; [done | lia] |].
  exists (S n). rewrite Hn. simpl. split; [done | lia].
Qed.

(** ** Reading *)

Lemma read_initial_headers_spec (stream acc h rest : bytes) :
  read_initial_headers acc stream = Ok (Some (h, rest)) →
  acc ++ stream = h ++ rest ∧ bytes_ends_with (CRLF ++ CRLF) h = true
  ∧ Z.of_nat (length h) ≤ MAX_HTTP_HEADER_BYTES.
Proof.
  revert acc. induction stream as [|b stream IH]; intros acc; cbn [read_initial_headers].
  { by destruct (decide (acc = [])). }
  destruct (Z.ltb_spec MAX_HTTP_HEADER_BYTES (Z.of_nat (length (acc ++ [b])))) as [|Hle]; [done |].
  destruct (bytes_ends_with (CRLF ++ CRLF) (acc ++ [b])) eqn:E.
  - intros [= <- <-]. by rewrite <-app_assoc.
  - intros H%IH. by rewrite <-app_assoc in H.
Qed.

Lemma slice_middle (n m : nat) (p l q : bytes) :
  n = length p → m = (length p + length l)%nat → slice n m (p ++ l ++ q) = Some l.
Proof.
  intros -> ->. unfold slice. rewrite !length_app.
  rewrite (proj2 (Nat.leb_le (length p) _)) by lia.
  rewrite (proj2 (Nat.leb_le (length p + length l) _)) by lia. simpl.
  replace (length p + length l - length p)%nat with (length l) by lia.
  by rewrite drop_app_length, take_app_length.
Qed.

(** The two slices of a block that [read_initial_headers] returned. *)
Lemma header_slices (h : bytes) :
  bytes_ends_with (CRLF ++ CRLF) h = true →
  ∃ n x block, crlf_position h = Some n ∧ h = x ++ CRLF ++ block ++ CRLF ∧ length x = n
    ∧ slice 0 (n + 2) h = Some (x ++ CRLF)
    ∧ slice (n + 2) (length h - 2) h = Some block.
Proof.
  intros [g Hg]%bytes_ends_with_iff.
  destruct (crlf_position_le g CRLF) as (n & Hn & Hle).
  rewrite <-Hg in Hn. destruct (crlf_position_Some _ _ Hn) as (x & r & Hx & Hlen).
  assert (Hr : length r = (length g - n + 2)%nat).
  { apply (f_equal length) in Hg. rewrite Hx in Hg. rewrite !length_app in Hg. simpl in Hg. lia. }
  assert (∃ block, r = block ++ CRLF) as [block ->].
  { exists (take (length r - 2) r). rewrite <-(take_drop (length r - 2) r) at 1. f_equal.
    assert (E : drop (length h - 2) h = CRLF).
    { rewrite Hg, !length_app, app_assoc. simpl.
      replace (length g + 4 - 2)%nat with (length (g ++ CRLF)) by (rewrite length_app; simpl; lia).
      by rewrite drop_app_length. }
    rewrite <-E, Hx, !length_app, app_assoc. simpl.
    rewrite drop_app_ge by (rewrite length_app; simpl; lia).
    f_equal. rewrite length_app. simpl. lia. }
  exists n, x, block. subst n. split_and!; [done | done | done | |].
  - rewrite Hx. rewrite (app_assoc x). apply (slice_middle 0 _ []); rewrite ?length_app; simpl; lia.
  - rewrite Hx, app_assoc. apply slice_middle; rewrite !length_app; simpl; lia.
Qed.

Lemma bearer_no_lf (br v : bytes) : bearer_to_header_value br = Ok v → v = br ∧ LF ∉ br.
Proof.
  unfold bearer_to_header_value, ensure. repeat case_match; simpl; try done.
  intros [= <-]. split; [done |]. intros Hin.
  match goal with H : forallb _ _ = true |- _ => rewrite forallb_forall in H;
    apply list_elem_of_In in Hin; specialize (H _ Hin); done end.
Qed.

(** What [rewrite_request_headers] does on a block that was read. *)
Lemma rewrite_request_headers_spec (h br : bytes) :
  bytes_ends_with (CRLF ++ CRLF) h = true →
  ∃ x block, h = x ++ CRLF ++ block ++ CRLF ∧ crlf_position h = Some (length x) ∧
    rewrite_request_headers h br =
      Some (validate_http11_request_line (x ++ CRLF);;
            v ← bearer_to_header_value br;
            Ok ((x ++ CRLF) ++ auth_line v ++ close_line
                  ++ concat ((λ line, line ++ [LF]) <$>
                       List.filter (λ line, negb (drops_line line)) (split_on LF block)) ++ CRLF)).
Proof.
  intros (n & x & block & Hn & Hh & Hx & H1 & H2)%header_slices. exists x, block. split; [done |]. split; [by rewrite Hn, Hx |].
  unfold rewrite_request_headers. rewrite Hn, H1. simpl.
  destruct (validate_http11_request_line (x ++ CRLF)) as [[]|e]; [| done]. simpl.
  destruct (bearer_to_header_value br) as [v|e]; [| done]. simpl. by rewrite H2.
Qed.

Lemma inject_Ok (stream br out rest : bytes) :
  inject_authorization_header stream br = Some (Ok (Some (out, rest))) →
  ∃ x block, stream = x ++ CRLF ++ block ++ CRLF ++ rest ∧ crlf_position (x ++ CRLF ++ block ++ CRLF) = Some (length x)
    ∧ validate_http11_request_line (x ++ CRLF) = Ok tt
    ∧ bearer_to_header_value br = Ok br
    ∧ out = (x ++ CRLF) ++ auth_line br ++ close_line
              ++ concat ((λ line, line ++ [LF]) <$>
                   List.filter (λ line, negb (drops_line line)) (split_on LF block)) ++ CRLF.
Proof.
  unfold inject_authorization_header.
  destruct (read_initial_headers [] stream) as [[[h r]|]|e] eqn:Hread; [| done | done].
  apply read_initial_headers_spec in Hread as (Hs & He & _). simpl in Hs.
  destruct (rewrite_request_headers_spec h br He) as (x & block & Hh & Hpos & ->). simpl.
  destruct (validate_http11_request_line (x ++ CRLF)) as [[]|e] eqn:Hv; [| done]. simpl.
  destruct (bearer_to_header_value br) as [v|e] eqn:Hb; [| done]. simpl.
  destruct (bearer_no_lf _ _ Hb) as [-> _]. intros [= <- <-]. exists x, block.
  split_and!; [| by rewrite Hh in Hpos | done | done | done]. by rewrite Hs, Hh, <-!app_assoc.
Qed.

Lemma kept_clean (block : bytes) :
  Forall (λ line, LF ∉ line) (List.filter (λ line, negb (drops_line line)) (split_on LF block)).
Proof.
  apply List.Forall_forall. intros line [Hin _]%filter_In.
  exact (proj1 (List.Forall_forall _ _) (split_on_clean LF block) line Hin).
Qed.

Lemma split_on_head (x br : bytes) (kept : list bytes) :
  LF ∉ x → LF ∉ br → Forall (λ line, LF ∉ line) kept →
  split_on LF ((x ++ CRLF) ++ auth_line br ++ close_line
                 ++ concat ((λ line, line ++ [LF]) <$> kept) ++ CRLF)
  = (x ++ [CR]) :: (str_bytes "Authorization: Bearer " ++ br ++ [CR])
      :: (str_bytes "Connection: close" ++ [CR]) :: kept ++ [[CR]; []].
Proof.
  intros Hx Hbr Hk. set (tail := concat _ ++ CRLF).
  transitivity (split_on LF ((x ++ [CR]) ++ LF :: (str_bytes "Authorization: Bearer " ++ br ++ [CR])
    ++ LF :: (str_bytes "Connection: close" ++ [CR]) ++ LF :: tail)).
  { f_equal. unfold auth_line, close_line, CRLF. by rewrite <-!app_assoc. }
  rewrite !split_on_app; [subst tail; by rewrite split_on_lines | | |].
  - apply (bool_decide_unpack _). by vm_compute.
  - rewrite !not_elem_of_app. split_and!; [| done |]; apply (bool_decide_unpack _); by vm_compute.
  - rewrite not_elem_of_app. split; [done |]. apply (bool_decide_unpack _). by vm_compute.
Qed.

(** A header line with a name, in any case: what is before its first colon, or all of it *)
Definition named (name line : bytes) : Prop :=
  ∃ n, to_ascii_lowercase <$> n = to_ascii_lowercase <$> name ∧ 58 ∉ n ∧ (line = n ∨ ∃ v, line = n ++ 58 :: v).

Lemma split_on_first (sep : Z) (l : bytes) : ∃ n ls, split_on sep l = n :: ls ∧ sep ∉ n ∧ (l = n ∨ ∃ v, l = n ++ sep :: v).
Proof.
  induction l as [|b l (n & ls & E & Hn & Hl)]; cbn [split_on]; [exists [], []; split_and!; [done | apply not_elem_of_nil | by left] |].
  destruct (Z.eqb_spec b sep) as [->|Hb]; [exists [], (split_on sep l); split_and!; [done | apply not_elem_of_nil | right; by exists l] |].
  rewrite E. exists (b :: n), ls. split_and!; [done | by apply not_elem_of_cons |]. destruct Hl as [->|[v ->]]; [by left | right; by exists v].
Qed.

Lemma is_header_named_iff line name : is_header_named line name = true ↔ named name line.
Proof.
  unfold is_header_named, named. destruct (split_on_first 58 line) as (n & ls & E & Hn & Hl). rewrite E, bool_decide_eq_true. split; [by exists n |].
  intros (n' & Hc & Hn' & Hl'). rewrite <- Hc. f_equal. destruct Hl' as [->|[v ->]].
  - destruct Hl as [->|[v ->]]; [done |]. exfalso. apply Hn'. apply elem_of_app. right. by left.
  - rewrite split_on_app in E by done. by injection E as ->.
Qed.

(** The lines of a client that are handed on *)
Definition client_line (line : bytes) : Prop :=
  line ≠ [] ∧ line ≠ [CR] ∧ ¬ named (str_bytes "authorization") line ∧ ¬ named (str_bytes "connection") line.

Lemma drops_line_iff line : negb (drops_line line) = true ↔ client_line line.
Proof.
  unfold drops_line, client_line. rewrite negb_true_iff, !orb_false_iff, !bool_decide_eq_false, <- !is_header_named_iff, !not_true_iff_false. tauto.
Qed.

#[global] Instance client_line_dec line : Decision (client_line line).
Proof. destruct (negb (drops_line line)) eqn:E; [left | right]; rewrite <- drops_line_iff; [done | by rewrite E]. Defined.

Lemma kept_lines ls : List.filter (λ line, negb (drops_line line)) ls = filter client_line ls.
Proof.
  induction ls as [|line ls IH]; [done |]. rewrite filter_cons. cbn [List.filter]. rewrite IH. destruct (negb (drops_line line)) eqn:E.
  - by rewrite decide_True by by apply drops_line_iff.
  - rewrite decide_False; [done |]. rewrite <- drops_line_iff. by rewrite E.
Qed.

(** A request line without a line feed is the one that was found. *)
Lemma request_line_unique (x x' r r' : bytes) n : x ++ CRLF ++ r = x' ++ CRLF ++ r' → LF ∉ x → crlf_position (x' ++ CRLF ++ n) = Some (length x') →
  n `prefix_of` r' → x = x'.
Proof.
  intros Heq Hx Hpos [k ->]. assert (Hle : (length x' ≤ length x)%nat).
  { destruct (decide (length x' ≤ length x)%nat) as [|Hgt]; [done |]. exfalso.
    assert (Hpre : ∃ q, x' = x ++ CR :: q).
    { exists (drop (S (length x)) x'). apply (f_equal (take (length x'))) in Heq. rewrite take_app_length in Heq. rewrite <- Heq at 1.
      rewrite take_app_ge by lia. destruct (length x' - length x)%nat as [|m] eqn:Hm; [lia |]. cbn. do 2 f_equal.
      apply (f_equal (drop (S (length x)))) in Heq. rewrite <- Heq. rewrite take_app_ge by lia. rewrite Hm. cbn.
      rewrite drop_app_ge by lia. by replace (S (length x) - length x)%nat with 1%nat by lia. }
    destruct Hpre as [q ->]. rewrite <- !app_assoc in Heq. apply app_inv_head in Heq. cbn in Heq. injection Heq as Heq.
    destruct q as [|b q].
    - unfold CRLF, CR, LF in Heq. cbn in Heq. discriminate.
    - cbn in Heq. injection Heq as <- _. rewrite <- app_assoc in Hpos. cbn in Hpos.
      destruct (crlf_position_le x (q ++ CRLF ++ n)) as (m & Hm & Hml). cbn in Hm. rewrite Hpos in Hm. injection Hm as <-.
      rewrite length_app in Hml. cbn in Hml. lia. }
  assert (Hpre : ∃ q, x = x' ++ q).
  { exists (drop (length x') x). apply (f_equal (take (length x'))) in Heq. rewrite take_app_length, take_app_le in Heq by lia.
    by rewrite <- Heq at 1; rewrite take_drop. }
  destruct Hpre as [q ->]. rewrite <- app_assoc in Heq. apply app_inv_head in Heq. destruct q as [|b [|b' q]]; [by rewrite app_nil_r | |]; exfalso.
  - unfold CRLF, CR, LF in Heq. cbn in Heq. discriminate.
  - cbn in Heq. injection Heq as _ -> _. apply Hx. apply elem_of_app. right. by right; left.
Qed.

(** C20: when the request line has no bare line feed, the block the gateway writes upstream is the client's request line,
    the bearer of the ticket, `Connection: close`, then exactly the header lines of the client that are neither blank nor
    named authorization or connection, in their order, and ends at its only blank line. *)
Theorem gateway_single_authorization (stream br out rest x block : bytes) :
  inject_authorization_header stream br = Some (Ok (Some (out, rest))) →
  stream = x ++ CRLF ++ block ++ CRLF ++ rest → LF ∉ x →
  split_on LF out =
    (x ++ [CR]) :: (str_bytes "Authorization: Bearer " ++ br ++ [CR]) :: (str_bytes "Connection: close" ++ [CR])
      :: filter client_line (split_on LF block) ++ [[CR]; []].
Proof.
  intros (x' & block' & Hs & Hpos & _ & Hb & ->)%inject_Ok Hs' Hx. rewrite Hs in Hs'.
  assert (x = x') as ->. { eapply (request_line_unique x x'); [symmetry; exact Hs' | done | exact Hpos |]. exists rest. by rewrite <- app_assoc. }
  apply app_inv_head, app_inv_head in Hs'. rewrite !app_assoc in Hs'. apply app_inv_tail, app_inv_tail in Hs' as ->.
  destruct (bearer_no_lf _ _ Hb) as [_ Hbr]. rewrite <- kept_lines. apply split_on_head; [done | done | apply kept_clean].
Qed.

(** Rewriting never panics: whatever the stream and the bearer, both slices of the
    header block are in range. *)
Theorem gateway_never_panics (stream br : bytes) : inject_authorization_header stream br ≠ None.
Proof.
  unfold inject_authorization_header.
  destruct (read_initial_headers [] stream) as [[[h r]|]|e] eqn:Hread; [| done | done].
  apply read_initial_headers_spec in Hread as (_ & He & _).
  by destruct (rewrite_request_headers_spec h br He) as (x & block & _ & _ & ->).
Qed.

Definition demo_stream : bytes :=
  str_bytes "GET / HTTP/1.1" ++ CRLF ++ str_bytes "Host: a" ++ CRLF
  ++ str_bytes "AUTHORIZATION: Bearer client" ++ CRLF ++ CRLF ++ str_bytes "body".

Lemma gateway_single_authorization_witness :
  ∃ out, inject_authorization_header demo_stream (str_bytes "tok") = Some (Ok (Some (out, str_bytes "body")))
    ∧ split_on LF out = [str_bytes "GET / HTTP/1.1" ++ [CR]; str_bytes "Authorization: Bearer tok" ++ [CR]; str_bytes "Connection: close" ++ [CR];
        str_bytes "Host: a" ++ [CR]; [CR]; []].
Proof.
  eexists. split; [vm_compute; reflexivity |].
  refine (eq_trans (gateway_single_authorization demo_stream (str_bytes "tok") _ (str_bytes "body") (str_bytes "GET / HTTP/1.1")
    (str_bytes "Host: a" ++ CRLF ++ str_bytes "AUTHORIZATION: Bearer client" ++ CRLF) ltac:(vm_compute; reflexivity) ltac:(vm_compute; reflexivity) _) _).
  - apply (bool_decide_unpack _). by vm_compute.
  - rewrite <- kept_lines. vm_compute. reflexivity.
Defined.

Definition lf_target : bytes :=
  str_bytes "GET /" ++ [LF] ++ str_bytes "Authorization:client HTTP/1.1" ++ CRLF ++ CRLF.

(** A bare line feed in the request target is accepted, and what follows it reaches
    the upstream as a line of its own named authorization, before the injected one. *)
Theorem gateway_lf_smuggles_header :
  ∃ out line, inject_authorization_header lf_target (str_bytes "tok") = Some (Ok (Some (out, [])))
    ∧ split_on LF out !! 1%nat = Some line
    ∧ is_header_named line (str_bytes "authorization") = true
    ∧ line = str_bytes "Authorization:client HTTP/1.1" ++ [CR].
Proof. eexists _, _. split_and!; vm_compute; reflexivity. Qed.

End Http.
