(* ===== verification/Terminal.v ===== *)
(** * Byte automata of terminals

    What the filters of terminal streams (QueryStripper.v, ResponseFilter.v) and the mode
    tracker (ModeTracker.v) share: the escape byte and the final bytes of CSI sequences,
    slices, and runs of a step function over a byte string. *)

From stdpp Require Import pretty.
From S2P Require Import Prelude.

Definition ESC : Z := 27.

(** [(0x40..=0x7e).contains(&byte)] *)
Definition is_csi_final (b : Z) : bool := (64 <=? b) && (b <=? 126).

(** An unsigned integer with [format!] *)
Definition decimal_digits (v : Z) : bytes := str_bytes (pretty (Z.to_N v)).

(** [slice.strip_prefix] and [slice.strip_suffix] *)
Fixpoint slice_strip_prefix (p l : bytes) : option bytes :=
  match p, l with
  | [], _ => Some l
  | a :: p', b :: l' => if a =? b then slice_strip_prefix p' l' else None
  | _, [] => None
  end.

Definition slice_strip_suffix (s l : bytes) : option bytes :=
  @rev Z <$> slice_strip_prefix (rev s) (rev l).

Lemma slice_strip_prefix_spec p l r : slice_strip_prefix p l = Some r ↔ l = p ++ r.
Proof.
  revert l. induction p as [|a p IH]; intros l; simpl.
  { split; [by intros [= ->] | by intros ->]. }
  destruct l as [|b l]; [done |]. destruct (Z.eqb_spec a b) as [->|Hne].
  - rewrite IH. split; [by intros -> | by intros [= ->]].
  - split; [done | by intros [= -> _]].
Qed.

Lemma slice_strip_suffix_spec s l r : slice_strip_suffix s l = Some r ↔ l = r ++ s.
Proof.
  unfold slice_strip_suffix. rewrite fmap_Some. setoid_rewrite slice_strip_prefix_spec. split.
  - intros (x & Hx & ->). by rewrite <-(rev_involutive l), Hx, rev_app_distr, rev_involutive.
  - intros ->. exists (rev r). by rewrite rev_app_distr, rev_involutive.
Qed.

(** ** Runs of a byte automaton *)

(** [feed]: the state after the bytes and everything emitted on the way. *)
Section run.
Context {S : Type} (step : S → Z → S * bytes).

Fixpoint feed_with (s : S) (l : bytes) : S * bytes :=
  match l with
  | [] => (s, [])
  | b :: l' => let (s1, o1) := step s b in let (s2, o2) := feed_with s1 l' in (s2, o1 ++ o2)
  end.

(** How the stream is cut into chunks does not matter. *)
Lemma feed_with_app s l1 l2 :
  feed_with s (l1 ++ l2)
  = let (s1, o1) := feed_with s l1 in let (s2, o2) := feed_with s1 l2 in (s2, o1 ++ o2).
Proof.
  revert s. induction l1 as [|b l1 IH]; intros s; simpl.
  { by destruct (feed_with s l2). }
  destruct (step s b) as [s1 o1]. rewrite IH. destruct (feed_with s1 l1) as [s2 o2].
  destruct (feed_with s2 l2) as [s3 o3]. by rewrite app_assoc.
Qed.

(** An input that is an output with some dropped pieces put back. *)
Inductive erases (D : bytes → Prop) : bytes → bytes → Prop :=
  | erases_nil : erases D [] []
  | erases_keep l i o : erases D i o → erases D (i ++ l) (o ++ l)
  | erases_drop d i o : D d → erases D i o → erases D (i ++ d) o.

(** When each step keeps [pending] and either emits everything it had and read, or
    drops it as a piece of [D], the run erases pieces of [D] only. *)
Lemma feed_erases (D : bytes → Prop) (pending : S → bytes) (I : S → Prop) :
  (∀ s b s' o, I s → step s b = (s', o) → I s' ∧
     (pending s ++ [b] = o ++ pending s' ∨ o = [] ∧ pending s' = [] ∧ D (pending s ++ [b]))) →
  ∀ l s s' o i0 o0, I s → erases D i0 o0 → feed_with s l = (s', o) →
    I s' ∧ ∃ i, i0 ++ pending s ++ l = i ++ pending s' ∧ erases D i (o0 ++ o).
Proof.
  intros Hstep. induction l as [|b l IH]; intros s s' o i0 o0 HI He; simpl.
  { intros [= <- <-]. split; [done |]. exists i0. by rewrite !app_nil_r. }
  destruct (step s b) as [s1 o1] eqn:Hs. destruct (feed_with s1 l) as [s2 o2] eqn:Hf.
  intros [= <- <-]. destruct (Hstep _ _ _ _ HI Hs) as [HI1 [Heq|(-> & Hp & HD)]].
  - destruct (IH s1 s2 o2 (i0 ++ o1) (o0 ++ o1) HI1) as (HI2 & i & Hi & Hei);
      [by apply erases_keep | done |].
    split; [done |]. exists i. split; [| by rewrite (app_assoc o0)].
    rewrite <-Hi, <-!app_assoc. f_equal. rewrite (app_assoc o1), <-Heq, <-!app_assoc. done.
  - destruct (IH s1 s2 o2 (i0 ++ pending s ++ [b]) o0 HI1) as (HI2 & i & Hi & Hei);
      [by apply erases_drop | done |].
    split; [done |]. exists i. split; [| done]. rewrite <-Hi, Hp, <-!app_assoc. done.
Qed.
End run.
