(* ===== verification/QueryStripper.v ===== *)
(** * Removing terminal queries

    crates/portl-core/src/query_stripper.rs removes the terminal queries from the output
    of a session: an automaton over single bytes with a buffer of at most 32.  The filled
    part of the buffer is the list [pending]; a step returns the bytes it emits. *)

From S2P Require Import Prelude Terminal.

Module Stripper.

Inductive Mode := Ground | EscapeIntermediate | CsiParam | OscString | DcsString.

Record QueryStripper := {
  mode : Mode;
  pending : bytes;
  string_escape : bool;
}.

Definition MAX_BUFFERED : Z := 32.

Definition new : QueryStripper := {| mode := Ground; pending := []; string_escape := false |}.

Definition full (s : QueryStripper) : bool := Z.of_nat (length (pending s)) =? MAX_BUFFERED.

Definition with_mode (s : QueryStripper) (m : Mode) : QueryStripper :=
  {| mode := m; pending := pending s; string_escape := string_escape s |}.

Definition is_kitty_numeric_query (l : bytes) (marker : Z) : bool :=
  match slice_strip_prefix [ESC; 91; marker] l ≫= slice_strip_suffix [117] with
  | None => false
  | Some body => negb (bool_decide (body = [])) && forallb (λ b, is_ascii_digit b || (b =? 59)) body
  end.

Definition is_query (l : bytes) : bool :=
  bool_decide (l ∈ [[ESC; 91; 99]; [ESC; 91; 62; 99]; [ESC; 91; 54; 110]; [ESC; 91; 63; 117];
                    [ESC; 91; 60; 117]])
  || is_kitty_numeric_query l 62 || is_kitty_numeric_query l 61.

Definition start_pending_escape (s : QueryStripper) : QueryStripper :=
  {| mode := EscapeIntermediate; pending := [ESC]; string_escape := string_escape s |}.

Definition flush_pending (s : QueryStripper) : QueryStripper * bytes :=
  ({| mode := mode s; pending := []; string_escape := string_escape s |}, pending s).

Definition push_pending (s : QueryStripper) (b : Z) : QueryStripper * bytes :=
  let (s1, o) := if full s then flush_pending s else (s, []) in
  ({| mode := mode s1; pending := pending s1 ++ [b]; string_escape := string_escape s1 |}, o).

Definition feed_escape_intermediate (s : QueryStripper) (b : Z) : QueryStripper * bytes :=
  if b =? 91 then let (s1, o) := push_pending s b in (with_mode s1 CsiParam, o)
  else if (b =? 93) || (b =? 80) then
    let (s1, o1) := push_pending s b in
    let (s2, o2) := flush_pending s1 in
    ({| mode := if b =? 93 then OscString else DcsString; pending := pending s2;
        string_escape := false |}, o1 ++ o2)
  else if b =? ESC then
    let (s1, o) := flush_pending s in (start_pending_escape s1, o)
  else
    let (s1, o1) := push_pending s b in
    let (s2, o2) := flush_pending s1 in
    (with_mode s2 Ground, o1 ++ o2).

Definition feed_csi_param (s : QueryStripper) (b : Z) : QueryStripper * bytes :=
  if b =? ESC then
    let (s1, o) := flush_pending s in (start_pending_escape s1, o)
  else if full s then
    let (s1, o) := flush_pending s in (with_mode s1 Ground, o ++ [b])
  else
    let (s1, o1) := push_pending s b in
    if is_csi_final b then
      if is_query (pending s1)
      then ({| mode := Ground; pending := []; string_escape := string_escape s1 |}, o1)
      else let (s2, o2) := flush_pending s1 in (with_mode s2 Ground, o1 ++ o2)
    else (s1, o1).

Definition feed_string (s : QueryStripper) (b : Z) (osc : bool) : QueryStripper * bytes :=
  if osc && (b =? 7) || string_escape s && (b =? 92)
  then ({| mode := Ground; pending := pending s; string_escape := false |}, [b])
  else ({| mode := mode s; pending := pending s; string_escape := b =? ESC |}, [b]).

Definition feed_byte (s : QueryStripper) (b : Z) : QueryStripper * bytes :=
  match mode s with
  | Ground => if b =? ESC then (start_pending_escape s, []) else (s, [b])
  | EscapeIntermediate => feed_escape_intermediate s b
  | CsiParam => feed_csi_param s b
  | OscString => feed_string s b true
  | DcsString => feed_string s b false
  end.

Definition feed (s : QueryStripper) (l : bytes) : QueryStripper * bytes := feed_with feed_byte s l.

(** What is still pending is dropped. *)
Definition finish (s : QueryStripper) : QueryStripper * bytes := (new, []).

Definition buffered_len (s : QueryStripper) : Z := Z.of_nat (length (pending s)).

(** *** Invariant *)

(** A parameter byte of a control sequence. *)
Definition is_param (b : Z) : bool := negb (b =? ESC) && negb (is_csi_final b).

Record wf (s : QueryStripper) : Prop := {
  wf_bound : buffered_len s ≤ MAX_BUFFERED;
  wf_shape : match mode s with
             | EscapeIntermediate => pending s = [ESC]
             | CsiParam => ∃ ps, pending s = [ESC; 91] ++ ps ∧ Forall (λ b, is_param b = true) ps
             | _ => pending s = []
             end;
}.

Lemma stripper_new_wf : wf new.
Proof. by split. Qed.

Lemma stripper_full_false_length s : full s = false → buffered_len s ≤ MAX_BUFFERED → (length (pending s) < 32)%nat.
Proof. unfold full, buffered_len, MAX_BUFFERED. rewrite Z.eqb_neq. lia. Qed.

Lemma stripper_push_room s b : full s = false → push_pending s b
  = ({| mode := mode s; pending := pending s ++ [b]; string_escape := string_escape s |}, []).
Proof. unfold push_pending. by intros ->. Qed.

Lemma start_wf s : wf (start_pending_escape s).
Proof. by split. Qed.

(** One byte: the invariant, and nothing is lost but a query. *)
Lemma stripper_feed_byte_spec s b s' o : wf s → feed_byte s b = (s', o) → wf s' ∧
  (pending s ++ [b] = o ++ pending s' ∨ o = [] ∧ pending s' = [] ∧ is_query (pending s ++ [b]) = true).
Proof.
  intros [Hb Hs]. unfold feed_byte. destruct (mode s) eqn:Hm.
  - destruct (b =? ESC) eqn:E; intros [= <- <-]; rewrite Hs.
    + apply Z.eqb_eq in E as ->. split; [by split | by left].
    + split; [split; rewrite ?Hm; done | left; by rewrite ?Hs].
  - assert (Hf : full s = false) by (unfold full; by rewrite Hs).
    unfold feed_escape_intermediate. rewrite !stripper_push_room by done. simpl. rewrite Hs. simpl.
    destruct (Z.eqb_spec b 91) as [->|_].
    { intros [= <- <-]. split; [split; simpl; [done | by exists []] | by left]. }
    destruct ((b =? 93) || (b =? 80)) eqn:E.
    { intros [= <- <-]. split; [split; simpl; [done | by destruct (b =? 93)] | by left]. }
    destruct (Z.eqb_spec b ESC) as [->|_]; intros [= <- <-]; (split; [by split | by left]).
  - destruct Hs as (ps & Hps & Hall). unfold feed_csi_param.
    destruct (Z.eqb_spec b ESC) as [->|Hne].
    { intros [= <- <-]. split; [by split | by left]. }
    destruct (full s) eqn:Hf.
    { intros [= <- <-]. split; [by split | left; by rewrite app_nil_r]. }
    rewrite stripper_push_room by done. simpl. pose proof (stripper_full_false_length s Hf Hb) as Hlen.
    destruct (is_csi_final b) eqn:Hfin.
    + destruct (is_query (pending s ++ [b])) eqn:Hq; intros [= <- <-];
        (split; [by split |]); [by right | left; by rewrite app_nil_r].
    + intros [= <- <-]. split; [| by left]. split; simpl.
      * unfold buffered_len, MAX_BUFFERED. simpl. rewrite length_app. simpl. lia.
      * rewrite Hm. exists (ps ++ [b]). rewrite Hps, <-app_assoc. split; [done |].
        apply Forall_app. split; [done |]. apply Forall_singleton. unfold is_param.
        by rewrite Hfin, (proj2 (Z.eqb_neq b ESC) Hne).
  - unfold feed_string. destruct (_ || _); intros [= <- <-]; rewrite Hs;
      (split; [split; simpl; rewrite ?Hm, ?Hs; done | left; simpl; by rewrite ?Hs, ?app_nil_r]).
  - unfold feed_string. destruct (_ || _); intros [= <- <-]; rewrite Hs;
      (split; [split; simpl; rewrite ?Hm, ?Hs; done | left; simpl; by rewrite ?Hs, ?app_nil_r]).
Qed.

(** *** Queries *)

Lemma is_query_shape q : is_query q = true →
  ∃ ps f, q = [ESC; 91] ++ ps ++ [f] ∧ Forall (λ b, is_param b = true) ps ∧ is_csi_final f = true.
Proof.
  assert (Hk : ∀ marker, is_param marker = true → is_kitty_numeric_query q marker = true →
    ∃ ps f, q = [ESC; 91] ++ ps ++ [f] ∧ Forall (λ b, is_param b = true) ps ∧ is_csi_final f = true).
  { intros marker Hm. unfold is_kitty_numeric_query.
    destruct (slice_strip_prefix _ q) as [r|] eqn:Hp; [| done].
    apply slice_strip_prefix_spec in Hp as ->. simpl.
    destruct (slice_strip_suffix [117] r) as [body|] eqn:Hs; [| done].
    apply slice_strip_suffix_spec in Hs as ->. intros [_ Hd]%andb_true_iff.
    exists (marker :: body), 117. split_and!; [done | | done]. constructor; [done |].
    apply Forall_forall. intros b Hb. rewrite forallb_forall in Hd.
    apply list_elem_of_In, Hd in Hb. revert Hb. unfold is_param, is_csi_final, is_ascii_digit, ESC. lia. }
  unfold is_query. rewrite !orb_true_iff, bool_decide_eq_true. intros [[Hin|Hq]|Hq].
  - set_unfold in Hin. repeat destruct Hin as [->|Hin]; [..| done].
    + by exists [], 99.
    + exists [62], 99. split_and!; [done | by apply Forall_singleton | done].
    + exists [54], 110. split_and!; [done | by apply Forall_singleton | done].
    + exists [63], 117. split_and!; [done | by apply Forall_singleton | done].
    + exists [60], 117. split_and!; [done | by apply Forall_singleton | done].
  - by apply (Hk 62).
  - by apply (Hk 61).
Qed.

Definition csi_state (pend : bytes) (e : bool) : QueryStripper :=
  {| mode := CsiParam; pending := pend; string_escape := e |}.
Definition ground_state (e : bool) : QueryStripper :=
  {| mode := Ground; pending := []; string_escape := e |}.

Lemma feed_cons s b l :
  feed s (b :: l) = let (s1, o1) := feed_byte s b in let (s2, o2) := feed s1 l in (s2, o1 ++ o2).
Proof. done. Qed.

Lemma feed_step s b s1 o1 l : feed_byte s b = (s1, o1) →
  feed s (b :: l) = let (s2, o2) := feed s1 l in (s2, o1 ++ o2).
Proof. rewrite feed_cons. by intros ->. Qed.

Lemma feed_app s l1 l2 :
  feed s (l1 ++ l2) = let (s1, o1) := feed s l1 in let (s2, o2) := feed s1 l2 in (s2, o1 ++ o2).
Proof. apply feed_with_app. Qed.

Lemma feed_ground_text e l : ESC ∉ l → feed (ground_state e) l = (ground_state e, l).
Proof.
  unfold feed. induction l as [|b l IH]; [done |]. intros [Hb Hl]%not_elem_of_cons. simpl.
  unfold feed_byte at 1. simpl. rewrite (proj2 (Z.eqb_neq b ESC)) by congruence. by rewrite IH.
Qed.

Lemma is_param_elim b : is_param b = true → b ≠ ESC ∧ is_csi_final b = false.
Proof. unfold is_param. rewrite andb_true_iff, !negb_true_iff, Z.eqb_neq. done. Qed.

Lemma full_csi pend e : full (csi_state pend e) = true ↔ length pend = 32%nat.
Proof. unfold full, MAX_BUFFERED. simpl. rewrite Z.eqb_eq. lia. Qed.

Lemma feed_params e ps pend : Forall (λ b, is_param b = true) ps → (length pend + length ps ≤ 32)%nat →
  feed (csi_state pend e) ps = (csi_state (pend ++ ps) e, []).
Proof.
  intros Hps. revert pend. unfold feed. induction Hps as [|b ps Hb Hps IH]; intros pend Hlen; simpl.
  { by rewrite app_nil_r. }
  simpl in Hlen. apply is_param_elim in Hb as [Hne Hfin].
  assert (Hf : full (csi_state pend e) = false).
  { apply not_true_iff_false. rewrite full_csi. lia. }
  unfold feed_byte at 1, feed_csi_param. simpl. rewrite (proj2 (Z.eqb_neq b ESC) Hne), Hf.
  rewrite stripper_push_room by done. rewrite Hfin. simpl. fold (csi_state (pend ++ [b]) e).
  rewrite IH by (rewrite length_app; simpl; lia). by rewrite <-app_assoc.
Qed.

Lemma feed_intro e ps : Forall (λ b, is_param b = true) ps → (length ps ≤ 30)%nat →
  feed (ground_state e) ([ESC; 91] ++ ps) = (csi_state ([ESC; 91] ++ ps) e, []).
Proof.
  intros Hps Hlen. cbn [app]. rewrite (feed_step _ _ (start_pending_escape (ground_state e)) []) by done.
  rewrite (feed_step _ _ (csi_state [ESC; 91] e) []) by done.
  by rewrite (feed_params e ps [ESC; 91] Hps) by (simpl; lia).
Qed.

(** A query met in the ground state, one that fits the buffer and one that does not. *)
Lemma feed_query e q : is_query q = true → feed (ground_state e) q
  = (ground_state e, if (length q <=? 32)%nat then [] else q).
Proof.
  intros Hq. destruct (is_query_shape q Hq) as (ps & f & -> & Hps & Hf).
  assert (Hfe : f ≠ ESC) by (intros ->; done).
  rewrite !length_app. simpl length. destruct (Nat.leb_spec (2 + (length ps + 1)) 32) as [Hle|Hgt].
  - rewrite app_assoc, feed_app, feed_intro by (done || lia).
    rewrite feed_cons. unfold feed_byte, feed_csi_param. cbn [mode csi_state].
    rewrite (proj2 (Z.eqb_neq f ESC) Hfe).
    assert (Hfull : full (csi_state ([ESC; 91] ++ ps) e) = false).
    { apply not_true_iff_false. rewrite full_csi, length_app. simpl. lia. }
    rewrite Hfull, stripper_push_room by done. rewrite Hf. cbn [pending csi_state].
    rewrite <-app_assoc, Hq. done.
  - assert (Hsplit : ∃ x r, ps ++ [f] = take 30 ps ++ x :: r ∧ x ≠ ESC ∧ ESC ∉ r).
    { assert (Hall : Forall (λ b, b ≠ ESC) (ps ++ [f])).
      { apply Forall_app. split; [| by apply Forall_singleton].
        eapply Forall_impl; [exact Hps |]. intros b Hb. by apply is_param_elim. }
      rewrite <-(take_drop 30 ps) in Hall at 1. rewrite <-app_assoc in Hall.
      apply Forall_app in Hall as [_ Hall].
      destruct (drop 30 ps ++ [f]) as [|x r] eqn:Hd; [by destruct (drop 30 ps) |].
      exists x, r. apply Forall_cons in Hall as [Hx Hr]. rewrite <-Hd, app_assoc, take_drop.
      split_and!; [done | done |]. intros Hin. rewrite Forall_forall in Hr. by apply (Hr ESC). }
    destruct Hsplit as (x & r & -> & Hx & Hr). rewrite app_assoc, feed_app.
    rewrite feed_intro; [| by apply Forall_take | rewrite length_take; lia].
    rewrite (feed_step _ _ (ground_state e) (([ESC; 91] ++ take 30 ps) ++ [x])).
    { rewrite feed_ground_text by done. cbn [app]. by rewrite <-!app_assoc. }
    assert (Hfull : full (csi_state ([ESC; 91] ++ take 30 ps) e) = true).
    { rewrite full_csi, length_app, length_take. cbn [length]. lia. }
    unfold feed_byte, feed_csi_param. cbn [mode csi_state].
    by rewrite (proj2 (Z.eqb_neq x ESC) Hx), Hfull.
Qed.

(** *** Properties *)

Definition feed_chunks (s : QueryStripper) (chunks : list bytes) : QueryStripper * bytes :=
  foldl (λ so chunk, let (s', o) := feed so.1 chunk in (s', so.2 ++ o)) (s, []) chunks.

Lemma feed_chunks_concat s chunks : feed_chunks s chunks = feed s (concat chunks).
Proof.
  unfold feed_chunks. rewrite <-(app_nil_r (concat chunks)).
  assert (H : ∀ so, foldl (λ so chunk, let (s', o) := feed so.1 chunk in (s', so.2 ++ o)) so chunks
    = let (s', o) := feed so.1 (concat chunks) in (s', so.2 ++ o)).
  { induction chunks as [|c cs IH]; intros [s0 o0]; simpl.
    { by rewrite app_nil_r. }
    rewrite IH, feed_app. simpl. destruct (feed s0 c) as [s1 o1]. simpl.
    destruct (feed s1 (concat cs)) as [s2 o2]. by rewrite app_assoc. }
  rewrite H, app_nil_r. simpl. by destruct (feed s (concat chunks)).
Qed.

(** However the output of a session is cut into chunks, what the stripper emits is
    that output with nothing removed but complete terminal queries, up to the
    unfinished escape sequence it holds back, which is at most 32 bytes long. *)
Theorem query_stripper_sound chunks s o :
  feed_chunks new chunks = (s, o) →
  buffered_len s ≤ MAX_BUFFERED
  ∧ ∃ i, concat chunks = i ++ pending s ∧ erases (λ d, is_query d = true) i o.
Proof.
  rewrite feed_chunks_concat. intros Hf.
  destruct (feed_erases feed_byte (λ d, is_query d = true) pending wf stripper_feed_byte_spec
    (concat chunks) new s o [] [] stripper_new_wf (erases_nil _) Hf) as (Hwf & i & Hi & He).
  split; [apply Hwf |]. by exists i.
Qed.

(** Each query in plain output is removed as a whole, and the text after it is
    processed as if the query had not been there; a query longer than the buffer (only
    the numeric kitty forms can be) passes unchanged. *)
Theorem query_stripper_complete s q l :
  wf s → mode s = Ground → is_query q = true →
  feed s (q ++ l) = let (s', o) := feed s l in (s', (if (length q <=? 32)%nat then [] else q) ++ o).
Proof.
  intros [_ Hs] Hm Hq. rewrite Hm in Hs. destruct s as [m p e]. simpl in Hm, Hs. subst m p.
  fold (ground_state e). by rewrite feed_app, feed_query.
Qed.

(** Removing a query can put another one together: the output of the stripper may
    contain a query, and stripping is not idempotent. *)
Theorem query_stripper_reassembles :
  ∃ l, (feed new l).2 = [ESC; 91; 99] ∧ is_query [ESC; 91; 99] = true
    ∧ (feed new (feed new l).2).2 = [].
Proof. exists [ESC; ESC; 91; 99; 91; 99]. by vm_compute. Qed.

Lemma query_stripper_sound_witness :
  ∃ i, concat [[97; ESC]; [91; 99; 98; ESC]] = i ++ [ESC] ∧ erases (λ d, is_query d = true) i [97; 98].
Proof.
  exact (proj2 (query_stripper_sound [[97; ESC]; [91; 99; 98; ESC]] _ _ eq_refl)).
Defined.

Lemma query_stripper_complete_witness : (feed new ([ESC; 91; 62; 49; 117] ++ [120])).2 = [120].
Proof. by rewrite (query_stripper_complete new [ESC; 91; 62; 49; 117] [120] stripper_new_wf eq_refl eq_refl). Defined.

End Stripper.
