(* ===== verification/ResponseFilter.v ===== *)
(** * Removing the answers to terminal queries

    crates/portl-core/src/query_response_filter.rs removes the answers of a terminal from
    the input of a session, except inside a bracketed paste: an automaton over single
    bytes with a buffer of at most 32, the list [pending]. *)

From S2P Require Import Prelude Terminal.

Module Filter.

Definition BRACKETED_PASTE_BEGIN : bytes := [ESC; 91; 50; 48; 48; 126].
Definition BRACKETED_PASTE_END : bytes := [ESC; 91; 50; 48; 49; 126].

Inductive Mode := Ground | Escape | Csi.

Record QueryResponseFilter := {
  mode : Mode;
  pending : bytes;
  in_bracketed_paste : bool;
  paste_end_match : nat;
}.

Definition MAX_BUFFERED : Z := 32.

Definition new : QueryResponseFilter :=
  {| mode := Ground; pending := []; in_bracketed_paste := false; paste_end_match := 0 |}.

Definition full (s : QueryResponseFilter) : bool := Z.of_nat (length (pending s)) =? MAX_BUFFERED.

Definition with_mode (s : QueryResponseFilter) (m : Mode) : QueryResponseFilter :=
  {| mode := m; pending := pending s; in_bracketed_paste := in_bracketed_paste s;
     paste_end_match := paste_end_match s |}.

Definition with_pending (s : QueryResponseFilter) (p : bytes) : QueryResponseFilter :=
  {| mode := mode s; pending := p; in_bracketed_paste := in_bracketed_paste s;
     paste_end_match := paste_end_match s |}.

Fixpoint response_params_match (params separators : bytes) (saw_digit : bool) : bool :=
  match params with
  | [] => saw_digit
  | b :: r =>
      if is_ascii_digit b then response_params_match r separators true
      else if bool_decide (b ∈ separators) then response_params_match r separators saw_digit
      else false
  end.

Definition is_response (l : bytes) : bool :=
  match rev l with
  | [] => false
  | final_byte :: body =>
      match slice_strip_prefix [ESC; 91] (rev body) with
      | None => false
      | Some params =>
          match params, final_byte with
          | 63 :: r, 117 => response_params_match r [59; 58] false
          | 63 :: r, 99 | 62 :: r, 99 | 63 :: r, 82 => response_params_match r [59] false
          | _, 82 => response_params_match params [59] false
          | _, _ => false
          end
      end
  end.

Definition start_pending_escape (s : QueryResponseFilter) : QueryResponseFilter :=
  with_mode (with_pending s [ESC]) Escape.

Definition flush_pending (s : QueryResponseFilter) : QueryResponseFilter * bytes :=
  (with_pending s [], pending s).

Definition push_pending (s : QueryResponseFilter) (b : Z) : QueryResponseFilter * bytes :=
  let (s1, o) := if full s then flush_pending s else (s, []) in
  (with_pending s1 (pending s1 ++ [b]), o).

Definition track_bracketed_paste_end (s : QueryResponseFilter) (b : Z) : QueryResponseFilter :=
  let set still k := {| mode := mode s; pending := pending s; in_bracketed_paste := still;
                        paste_end_match := k |} in
  if bool_decide (BRACKETED_PASTE_END !! paste_end_match s = Some b) then
    let k := S (paste_end_match s) in
    if (k =? length BRACKETED_PASTE_END)%nat then set false O else set (in_bracketed_paste s) k
  else set (in_bracketed_paste s) (if b =? ESC then 1%nat else O).

Definition feed_csi (s : QueryResponseFilter) (b : Z) : QueryResponseFilter * bytes :=
  if b =? ESC then let (s1, o) := flush_pending s in (start_pending_escape s1, o)
  else if full s then let (s1, o) := flush_pending s in (with_mode s1 Ground, o ++ [b])
  else
    let (s1, o1) := push_pending s b in
    if is_csi_final b then
      if bool_decide (pending s1 = BRACKETED_PASTE_BEGIN) then
        let (s2, o2) := flush_pending s1 in
        ({| mode := Ground; pending := pending s2; in_bracketed_paste := true; paste_end_match := 0 |},
         o1 ++ o2)
      else if is_response (pending s1) then (with_mode (with_pending s1 []) Ground, o1)
      else let (s2, o2) := flush_pending s1 in (with_mode s2 Ground, o1 ++ o2)
    else (s1, o1).

Definition feed_byte (s : QueryResponseFilter) (b : Z) : QueryResponseFilter * bytes :=
  if in_bracketed_paste s then (track_bracketed_paste_end s b, [b])
  else match mode s with
  | Ground => if b =? ESC then (start_pending_escape s, []) else (s, [b])
  | Escape =>
      if b =? 91 then let (s1, o) := push_pending s b in (with_mode s1 Csi, o)
      else if b =? ESC then let (s1, o) := flush_pending s in (start_pending_escape s1, o)
      else let (s1, o1) := push_pending s b in
           let (s2, o2) := flush_pending s1 in (with_mode s2 Ground, o1 ++ o2)
  | Csi => feed_csi s b
  end.

Definition feed (s : QueryResponseFilter) (l : bytes) : QueryResponseFilter * bytes :=
  feed_with feed_byte s l.

(** A lone escape is a key press once nothing follows it in time. *)
Definition flush_timeout (s : QueryResponseFilter) : QueryResponseFilter * bytes :=
  match mode s with
  | Escape => if (length (pending s) =? 1)%nat
              then let (s1, o) := flush_pending s in (with_mode s1 Ground, o) else (s, [])
  | _ => (s, [])
  end.

Definition finish (s : QueryResponseFilter) : QueryResponseFilter * bytes := (new, pending s).

Definition buffered_len (s : QueryResponseFilter) : Z := Z.of_nat (length (pending s)).

(** *** Invariant *)

Record wf (s : QueryResponseFilter) : Prop := {
  wf_bound : buffered_len s ≤ MAX_BUFFERED;
  wf_shape : match mode s with
             | Ground => pending s = []
             | Escape => pending s = [ESC]
             | Csi => ∃ ps, pending s = [ESC; 91] ++ ps
             end;
  wf_paste : in_bracketed_paste s = true → mode s = Ground;
}.

Lemma filter_new_wf : wf new.
Proof. by split. Qed.

Lemma filter_push_room s b : full s = false → push_pending s b = (with_pending s (pending s ++ [b]), []).
Proof. unfold push_pending. by intros ->. Qed.

Lemma filter_full_false_length s : full s = false → buffered_len s ≤ MAX_BUFFERED → (length (pending s) < 32)%nat.
Proof. unfold full, buffered_len, MAX_BUFFERED. rewrite Z.eqb_neq. lia. Qed.

Lemma feed_csi_spec s b s' o : wf s → in_bracketed_paste s = false → mode s = Csi →
  feed_csi s b = (s', o) → wf s' ∧
  (pending s ++ [b] = o ++ pending s' ∨ o = [] ∧ pending s' = [] ∧ is_response (pending s ++ [b]) = true).
Proof.
  intros [Hb Hs _] Hnp Hm. rewrite Hm in Hs. destruct Hs as [ps Hps]. unfold feed_csi.
  destruct (Z.eqb_spec b ESC) as [->|Hne].
  { intros [= <- <-]. split; [split; simpl; [done | done | by rewrite Hnp] | by left]. }
  destruct (full s) eqn:Hf.
  { intros [= <- <-]. split; [by split | left; by rewrite app_nil_r]. }
  rewrite filter_push_room by done. simpl. pose proof (filter_full_false_length s Hf Hb) as Hlen.
  destruct (is_csi_final b) eqn:Hfin.
  - case_bool_decide; [intros [= <- <-]; split; [by split | left; by rewrite app_nil_r] |].
    destruct (is_response (pending s ++ [b])) eqn:Hq; intros [= <- <-];
      (split; [by split |]); [by right | left; by rewrite app_nil_r].
  - intros [= <- <-]. split; [| by left]. split; simpl.
    + unfold buffered_len, MAX_BUFFERED. simpl. rewrite length_app. simpl. lia.
    + rewrite Hm. exists (ps ++ [b]). by rewrite Hps, <-app_assoc.
    + by rewrite Hnp.
Qed.

Lemma filter_feed_byte_spec s b s' o : wf s → feed_byte s b = (s', o) → wf s' ∧
  (pending s ++ [b] = o ++ pending s' ∨ o = [] ∧ pending s' = [] ∧ is_response (pending s ++ [b]) = true).
Proof.
  intros Hwf. pose proof Hwf as [Hb Hs Hp]. unfold feed_byte.
  destruct (in_bracketed_paste s) eqn:Hnp.
  { rewrite (Hp eq_refl) in Hs. intros [= <- <-]. rewrite Hs. unfold track_bracketed_paste_end.
    rewrite Hs, (Hp eq_refl). destruct (bool_decide _); [destruct (_ =? _)%nat |]; simpl;
      (split; [by split | by left]). }
  destruct (mode s) eqn:Hm; [| | by apply feed_csi_spec].
  - destruct (Z.eqb_spec b ESC) as [->|_]; intros [= <- <-]; rewrite ?Hs.
    + split; [split; simpl; [done | done | by rewrite Hnp] | by left].
    + split; [done | by left].
  - assert (Hf : full s = false) by (unfold full; by rewrite Hs).
    rewrite !filter_push_room by done. simpl. rewrite Hs. simpl.
    destruct (Z.eqb_spec b 91) as [->|_].
    { intros [= <- <-]. split; [split; simpl; [done | by exists [] | by rewrite Hnp] | by left]. }
    destruct (Z.eqb_spec b ESC) as [->|_]; intros [= <- <-];
      (split; [split; simpl; rewrite ?Hnp; done | by left]).
Qed.

(** *** The end of a paste *)

(** [k] is the length of the longest proper prefix of the end marker that ends [l]. *)
Record longest_match (l : bytes) (k : nat) : Prop := {
  lm_bound : (k < 6)%nat;
  lm_suffix : take k BRACKETED_PASTE_END `suffix_of` l;
  lm_longest : ∀ j, (j < 6)%nat → take j BRACKETED_PASTE_END `suffix_of` l → (j ≤ k)%nat;
}.

Lemma suffix_both {A} (x y l : list A) : x `suffix_of` l → y `suffix_of` l →
  (length x ≤ length y)%nat → x `suffix_of` y.
Proof.
  intros [a Ha] [b Hb] Hlen. rewrite Hb in Ha. symmetry in Ha.
  apply app_eq_inv in Ha as [(c & _ & Hy)|(c & _ & Hx)]; [by exists c |].
  assert (c = []) as -> by (apply (f_equal length) in Hx; rewrite length_app in Hx;
    destruct c; [done | simpl in Hx; lia]).
  simpl in Hx. by subst.
Qed.

(** The marker has no border: the escape is nowhere but in front. *)
Lemma end_no_border i k : (0 < i < k)%nat → (k < 6)%nat →
  ~ take i BRACKETED_PASTE_END `suffix_of` take k BRACKETED_PASTE_END.
Proof.
  intros Hi Hk. assert (Hlook : take k BRACKETED_PASTE_END !! (k - i)%nat ≠ Some ESC).
  { assert (H : forallb (λ k, forallb (λ i, bool_decide (take k BRACKETED_PASTE_END !! (k - i)%nat ≠ Some ESC))
      (seq 1 (k - 1))) (seq 0 6) = true) by reflexivity.
    rewrite forallb_forall in H. specialize (H k ltac:(apply in_seq; lia)).
    rewrite forallb_forall in H. specialize (H i ltac:(apply in_seq; lia)).
    by apply bool_decide_eq_true in H. }
  intros [a Ha]. apply Hlook. rewrite Ha.
  assert (length a = (k - i)%nat) as <-.
  { apply (f_equal length) in Ha. rewrite length_app, !length_take in Ha. cbn [length BRACKETED_PASTE_END] in Ha. lia. }
  rewrite lookup_app_r by lia. rewrite Nat.sub_diag. by destruct i; [lia |].
Qed.

Lemma take_suffix_snoc j l b : (j < 6)%nat → take (S j) BRACKETED_PASTE_END `suffix_of` l ++ [b] →
  BRACKETED_PASTE_END !! j = Some b ∧ take j BRACKETED_PASTE_END `suffix_of` l.
Proof.
  intros Hj. destruct (lookup_lt_is_Some_2 BRACKETED_PASTE_END j Hj) as [c Hc].
  rewrite (take_S_r _ _ c) by done. intros Hs.
  rewrite Hc, (suffix_snoc_inv_1 _ _ _ _ Hs). split; [done | by eapply suffix_snoc_inv_2].
Qed.

(** One byte of the matcher keeps the longest match, or completes the marker. *)
Lemma longest_match_step l k b : longest_match l k →
  if bool_decide (BRACKETED_PASTE_END !! k = Some b)
  then if (S k =? 6)%nat then BRACKETED_PASTE_END `suffix_of` l ++ [b] else longest_match (l ++ [b]) (S k)
  else ~ BRACKETED_PASTE_END `suffix_of` l ++ [b]
       ∧ longest_match (l ++ [b]) (if b =? ESC then 1 else 0).
Proof.
  intros [Hk Hs Hl].
  assert (Hold : ∀ j, (j < 6)%nat → take (S j) BRACKETED_PASTE_END `suffix_of` l ++ [b] →
    j = k ∧ BRACKETED_PASTE_END !! k = Some b ∨ j = O ∧ b = ESC).
  { intros j Hj [Hb Hsuf]%take_suffix_snoc; [| done]. pose proof (Hl j Hj Hsuf) as Hle.
    destruct (decide (j = k)) as [->|Hne]; [by left |]. right.
    destruct (decide (j = O)) as [->|Hj0]; [split; [done |]; by injection Hb as <- |].
    exfalso. apply (end_no_border j k); [lia | done |]. eapply suffix_both; [done | done |].
    rewrite !length_take. cbn [length BRACKETED_PASTE_END]. lia. }
  case_bool_decide as Hb.
  - assert (Hnew : take (S k) BRACKETED_PASTE_END `suffix_of` l ++ [b]).
    { rewrite (take_S_r _ _ b) by done. by apply suffix_app. }
    destruct (Nat.eqb_spec (S k) 6) as [He|He].
    + rewrite He in Hnew. done.
    + split; [lia | done |]. intros [|j] Hj Hsuf; [lia |].
      destruct (Hold j ltac:(lia) Hsuf) as [[-> _]|[-> _]]; lia.
  - split.
    { intros Hend. destruct (Hold 5%nat ltac:(lia) Hend) as [[<- ?]|[? _]]; done. }
    destruct (Z.eqb_spec b ESC) as [->|Hne].
    + split; [lia | by exists l |]. intros [|j] Hj Hsuf; [lia |].
      destruct (Hold j ltac:(lia) Hsuf) as [[_ ?]|[-> _]]; [done | lia].
    + split; [lia | apply suffix_nil |]. intros [|j] Hj Hsuf; [lia |].
      destruct (Hold j ltac:(lia) Hsuf) as [[_ ?]|[_ ?]]; done.
Qed.

Definition pasting (k : nat) : QueryResponseFilter :=
  {| mode := Ground; pending := []; in_bracketed_paste := true; paste_end_match := k |}.

Lemma feed_paste l seen k : longest_match seen k →
  (∀ a c, l = a ++ c → a ≠ [] → ~ BRACKETED_PASTE_END `suffix_of` seen ++ a) →
  ∃ k', feed (pasting k) l = (pasting k', l) ∧ longest_match (seen ++ l) k'.
Proof.
  unfold feed. revert seen k. induction l as [|b l IH]; intros seen k Hm Hno; cbn [feed_with].
  { exists k. by rewrite app_nil_r. }
  pose proof (longest_match_step seen k b Hm) as Hstep.
  pose proof (Hno [b] l eq_refl ltac:(done)) as Hb.
  assert (Hnext : ∃ k1, feed_byte (pasting k) b = (pasting k1, [b]) ∧ longest_match (seen ++ [b]) k1).
  { unfold feed_byte, track_bracketed_paste_end. simpl in *. revert Hstep.
    case_bool_decide; [| intros [_ Hlm]; by eexists].
    destruct k as [|[|[|[|[|k]]]]]; simpl; intros Hlm; try (by eexists).
    destruct k; [done |]. by destruct Hm; lia. }
  destruct Hnext as (k1 & -> & Hm1).
  destruct (IH (seen ++ [b]) k1 Hm1) as (k' & -> & Hm').
  { intros a c -> Ha. rewrite <-app_assoc. apply (Hno (b :: a) c); done. }
  exists k'. split; [done |]. by rewrite <-app_assoc in Hm'.
Qed.

(** *** Properties *)

Lemma longest_match_nil : longest_match [] 0.
Proof.
  split; [lia | done |]. intros [|j] Hj [a Ha]; [lia |].
  destruct a; [by destruct (j <? 6)%nat; cbn in Ha | done].
Qed.

(** What reaches the session is what the user typed, with nothing removed but
    complete answers to terminal queries: after [finish] no byte is held back, and at
    most 32 ever are. *)
Theorem response_filter_sound l s o :
  feed new l = (s, o) →
  buffered_len s ≤ MAX_BUFFERED ∧ erases (λ d, is_response d = true) l (o ++ (finish s).2).
Proof.
  intros Hf.
  destruct (feed_erases feed_byte (λ d, is_response d = true) pending wf filter_feed_byte_spec
    l new s o [] [] filter_new_wf (erases_nil _) Hf) as (Hwf & i & Hi & He).
  split; [apply Hwf |]. simpl in Hi, He. subst l. by apply erases_keep.
Qed.

(** A bracketed paste passes verbatim, answers to queries inside it included, and
    ends exactly at the first end marker: the matcher finds what a search for the
    marker finds. *)
Theorem paste_verbatim body :
  (∀ n, (n < length body + 6)%nat →
     ~ BRACKETED_PASTE_END `suffix_of` take n (body ++ BRACKETED_PASTE_END)) →
  feed new (BRACKETED_PASTE_BEGIN ++ body ++ BRACKETED_PASTE_END)
  = (new, BRACKETED_PASTE_BEGIN ++ body ++ BRACKETED_PASTE_END).
Proof.
  intros Hfirst. set (init := body ++ take 5 BRACKETED_PASTE_END).
  assert (Hall : body ++ BRACKETED_PASTE_END = init ++ [126]) by (unfold init; by rewrite <-app_assoc).
  destruct (feed_paste init [] 0 longest_match_nil) as (k & Hk & Hm).
  { intros a c Hac Ha. pose proof (Hfirst (length a)) as Hn. rewrite Hall, Hac, <-app_assoc, take_app_length in Hn.
    apply Hn. apply (f_equal length) in Hall. rewrite Hac, !length_app in Hall. simpl in Hall. lia. }
  assert (k = 5)%nat as ->.
  { destruct Hm as [Hk6 _ Hlong]. pose proof (Hlong 5%nat ltac:(lia) ltac:(by exists body)). lia. }
  unfold feed in *. rewrite Hall. rewrite feed_with_app.
  change (feed_with feed_byte new BRACKETED_PASTE_BEGIN) with (pasting 0, BRACKETED_PASTE_BEGIN).
  cbv iota. rewrite feed_with_app, Hk. cbv iota. done.
Qed.

Lemma response_filter_sound_witness :
  erases (λ d, is_response d = true) [97; ESC; 91; 63; 49; 99; ESC] [97; ESC].
Proof. exact (proj2 (response_filter_sound [97; ESC; 91; 63; 49; 99; ESC] _ _ eq_refl)). Defined.

Lemma paste_verbatim_witness :
  (feed new (BRACKETED_PASTE_BEGIN ++ [ESC; 91; 63; 49; 99] ++ BRACKETED_PASTE_END)).2
  = BRACKETED_PASTE_BEGIN ++ [ESC; 91; 63; 49; 99] ++ BRACKETED_PASTE_END.
Proof.
  rewrite (paste_verbatim [ESC; 91; 63; 49; 99]); [done |].
  assert (H : forallb (λ n, bool_decide (~ BRACKETED_PASTE_END `suffix_of`
    take n ([ESC; 91; 63; 49; 99] ++ BRACKETED_PASTE_END))) (seq 0 11) = true) by (vm_compute; reflexivity).
  rewrite forallb_forall in H. intros n Hn.
  refine (proj1 (bool_decide_eq_true _) (H n _)). apply in_seq. simpl in Hn. lia.
Defined.

End Filter.
