(* ===== verification/ModeTracker.v ===== *)
(** * Terminal mode tracking

    crates/portl-core/src/terminal_mode_tracker.rs follows the modes a session sets on
    the user's terminal, and plans the escape sequences that undo them.  [mouse_modes]
    is the array of four flags; the filled part of the parameter buffer is a list. *)

From S2P Require Import Prelude Terminal.

Module Tracker.

Definition KITTY_POP : bytes := [ESC; 91; 60; 117].
Definition KITTY_FLAGS_CLEAR : bytes := [ESC; 91; 61; 48; 117].
Definition MODIFY_OTHER_KEYS_CLEAR : bytes := [ESC; 91; 62; 52; 59; 48; 109].
Definition ALT_SCREEN_1049_LEAVE : bytes := [ESC; 91; 63; 49; 48; 52; 57; 108].
Definition ALT_SCREEN_47_LEAVE : bytes := [ESC; 91; 63; 52; 55; 108].
Definition BRACKETED_PASTE_DISABLE : bytes := [ESC; 91; 63; 50; 48; 48; 52; 108].
Definition DECAWM_ENABLE : bytes := [ESC; 91; 63; 55; 104].
Definition SCROLL_REGION_RESET : bytes := [ESC; 91; 114].
Definition MOUSE_MODES : list Z := [1000; 1002; 1003; 1006].
Definition CSI_BUFFER_CAPACITY : Z := 64.
Definition MAX_KITTY_DEPTH : Z := 16.

Inductive AltScreenMode := Legacy47 | Mode1049.

Record TerminalModeState := {
  kitty_keyboard_depth : Z;
  kitty_flags : Z;
  alt_screen : option AltScreenMode;
  bracketed_paste : bool;
  mouse_modes : list bool;
  modify_other_keys : Z;
  decawm : bool;
  scroll_region_non_default : bool;
}.

Definition default_modes : TerminalModeState := {|
  kitty_keyboard_depth := 0; kitty_flags := 0; alt_screen := None; bracketed_paste := false;
  mouse_modes := [false; false; false; false]; modify_other_keys := 0; decawm := true;
  scroll_region_non_default := false |}.

Inductive ParserState := Ground | Escape | Csi | Osc | OscEscape.

Record TerminalModeTracker := {
  modes : TerminalModeState;
  parser : ParserState;
  csi : bytes;
  csi_overflowed : bool;
  pending_alt_screen_kitty_reset : bool;
}.

Definition new : TerminalModeTracker := {|
  modes := default_modes; parser := Ground; csi := []; csi_overflowed := false;
  pending_alt_screen_kitty_reset := false |}.

(** *** Field updates *)

Definition set_kitty (m : TerminalModeState) (depth flags : Z) : TerminalModeState := {|
  kitty_keyboard_depth := depth; kitty_flags := flags; alt_screen := alt_screen m;
  bracketed_paste := bracketed_paste m; mouse_modes := mouse_modes m;
  modify_other_keys := modify_other_keys m; decawm := decawm m;
  scroll_region_non_default := scroll_region_non_default m |}.

Definition set_mok (m : TerminalModeState) (k : Z) : TerminalModeState := {|
  kitty_keyboard_depth := kitty_keyboard_depth m; kitty_flags := kitty_flags m;
  alt_screen := alt_screen m; bracketed_paste := bracketed_paste m; mouse_modes := mouse_modes m;
  modify_other_keys := k; decawm := decawm m;
  scroll_region_non_default := scroll_region_non_default m |}.

Definition set_screen (m : TerminalModeState) (a : option AltScreenMode) (scroll : bool) :
    TerminalModeState := {|
  kitty_keyboard_depth := kitty_keyboard_depth m; kitty_flags := kitty_flags m; alt_screen := a;
  bracketed_paste := bracketed_paste m; mouse_modes := mouse_modes m;
  modify_other_keys := modify_other_keys m; decawm := decawm m;
  scroll_region_non_default := scroll |}.

Definition set_flags (m : TerminalModeState) (paste wrap : bool) (mouse : list bool) :
    TerminalModeState := {|
  kitty_keyboard_depth := kitty_keyboard_depth m; kitty_flags := kitty_flags m;
  alt_screen := alt_screen m; bracketed_paste := paste; mouse_modes := mouse;
  modify_other_keys := modify_other_keys m; decawm := wrap;
  scroll_region_non_default := scroll_region_non_default m |}.

Definition with_modes (t : TerminalModeTracker) (m : TerminalModeState) : TerminalModeTracker := {|
  modes := m; parser := parser t; csi := csi t; csi_overflowed := csi_overflowed t;
  pending_alt_screen_kitty_reset := pending_alt_screen_kitty_reset t |}.

Definition with_reset (t : TerminalModeTracker) (r : bool) : TerminalModeTracker := {|
  modes := modes t; parser := parser t; csi := csi t; csi_overflowed := csi_overflowed t;
  pending_alt_screen_kitty_reset := r |}.

(** *** Parameters *)

Fixpoint parse_params_loop (l : bytes) (parsed : list Z) (current : Z) (has_digit : bool) :
    option (list Z * Z * bool) :=
  match l with
  | [] => Some (parsed, current, has_digit)
  | b :: r =>
      if is_ascii_digit b then
        parse_params_loop r parsed (saturating_add U16_MAX (saturating_mul U16_MAX current 10) (b - 48)) true
      else if (b =? 59) || (b =? 58) then
        parse_params_loop r (parsed ++ [if has_digit then current else 0]) 0 false
      else None
  end.

Definition parse_params (params : bytes) : list Z :=
  match parse_params_loop params [] 0 false with
  | None => []
  | Some (parsed, current, has_digit) =>
      if has_digit || negb (bool_decide (params = []))
      then parsed ++ [if has_digit then current else 0] else parsed
  end.

Definition first_or_zero (l : list Z) : Z := default 0 (head l).

Definition scroll_region_is_non_default (params : bytes) : bool :=
  if decide (params = []) then false
  else match parse_params params with [] | [0] | [1; 0] => false | _ => true end.

Definition mouse_mode_index (mode : Z) : option nat :=
  if mode =? 1000 then Some 0%nat else if mode =? 1002 then Some 1%nat
  else if mode =? 1003 then Some 2%nat else if mode =? 1006 then Some 3%nat else None.

(** *** Operations *)

Definition is_kitty_active (t : TerminalModeTracker) : bool :=
  (0 <? kitty_keyboard_depth (modes t)) || negb (kitty_flags (modes t) =? 0).

Definition is_mouse_mode_enabled (t : TerminalModeTracker) (mode : Z) : bool :=
  match mouse_mode_index mode with
  | Some i => default false (mouse_modes (modes t) !! i)
  | None => false
  end.

Definition set_mouse_mode (t : TerminalModeTracker) (mode : Z) (enable : bool) : TerminalModeTracker :=
  match mouse_mode_index mode with
  | Some i => with_modes t (set_flags (modes t) (bracketed_paste (modes t)) (decawm (modes t))
                (<[i := enable]> (mouse_modes (modes t))))
  | None => t
  end.

Definition any_dirty (t : TerminalModeTracker) : bool :=
  is_kitty_active t || negb (modify_other_keys (modes t) =? 0) || bracketed_paste (modes t)
  || existsb id (mouse_modes (modes t)) || negb (decawm (modes t))
  || scroll_region_non_default (modes t).

Definition set_alt_screen (t : TerminalModeTracker) (mode : AltScreenMode) (enable : bool) :
    TerminalModeTracker :=
  let m := modes t in
  if enable then with_modes t (set_screen m (Some mode) (scroll_region_non_default m))
  else if bool_decide (is_Some (alt_screen m)) then
    let t' := with_modes t (set_screen m None (scroll_region_non_default m)) in
    if any_dirty t then with_reset t' true else t'
  else t.

Definition apply_private_mode (t : TerminalModeTracker) (mode : Z) (enable : bool) : TerminalModeTracker :=
  let m := modes t in
  if mode =? 47 then set_alt_screen t Legacy47 enable
  else if mode =? 1049 then set_alt_screen t Mode1049 enable
  else if mode =? 2004 then with_modes t (set_flags m enable (decawm m) (mouse_modes m))
  else if mode =? 7 then with_modes t (set_flags m (bracketed_paste m) enable (mouse_modes m))
  else set_mouse_mode t mode enable.

(** A kitty change that leaves the protocol inactive cancels the planned reset. *)
Definition settle (t : TerminalModeTracker) : TerminalModeTracker :=
  if is_kitty_active t then t else with_reset t false.

Definition handle_csi (t : TerminalModeTracker) (final_byte : Z) : TerminalModeTracker :=
  if csi_overflowed t then t
  else
    let m := modes t in
    let arm c f := bool_decide (head (csi t) = Some c) && (final_byte =? f) in
    let ps := tail (csi t) in
    if arm 62 117 && negb (bool_decide (ps = [])) && (0 <? first_or_zero (parse_params ps)) then
      with_modes t (set_kitty m
        (Z.min (saturating_add 255 (kitty_keyboard_depth m) 1) MAX_KITTY_DEPTH) (kitty_flags m))
    else if arm 60 117 then
      settle (with_modes t (set_kitty m (Z.max 0 (kitty_keyboard_depth m - 1)) (kitty_flags m)))
    else if arm 61 117 then
      settle (with_modes t (set_kitty m (kitty_keyboard_depth m) (first_or_zero (parse_params ps))))
    else if arm 62 109 then
      match parse_params ps with
      | code :: rest => if code =? 4 then with_modes t (set_mok m (first_or_zero rest)) else t
      | [] => t
      end
    else if arm 63 104 || arm 63 108 then
      foldl (λ t mode, apply_private_mode t mode (final_byte =? 104)) t (parse_params ps)
    else if final_byte =? 114 then
      with_modes t (set_screen m (alt_screen m) (scroll_region_is_non_default (csi t)))
    else t.

Definition with_parser (t : TerminalModeTracker) (p : ParserState) : TerminalModeTracker := {|
  modes := modes t; parser := p; csi := csi t; csi_overflowed := csi_overflowed t;
  pending_alt_screen_kitty_reset := pending_alt_screen_kitty_reset t |}.

Definition reset_csi (t : TerminalModeTracker) : TerminalModeTracker := {|
  modes := modes t; parser := parser t; csi := []; csi_overflowed := false;
  pending_alt_screen_kitty_reset := pending_alt_screen_kitty_reset t |}.

Definition feed_byte (t : TerminalModeTracker) (b : Z) : TerminalModeTracker :=
  match parser t with
  | Ground => if b =? ESC then with_parser t Escape else t
  | Escape =>
      if b =? 91 then with_parser (reset_csi t) Csi
      else if b =? 93 then with_parser t Osc
      else if b =? ESC then with_parser t Escape
      else with_parser t Ground
  | Csi =>
      if b =? ESC then reset_csi (with_parser t Escape)
      else if is_csi_final b then reset_csi (with_parser (handle_csi t b) Ground)
      else if Z.of_nat (length (csi t)) <? CSI_BUFFER_CAPACITY then {|
        modes := modes t; parser := Csi; csi := csi t ++ [b]; csi_overflowed := csi_overflowed t;
        pending_alt_screen_kitty_reset := pending_alt_screen_kitty_reset t |}
      else {|
        modes := modes t; parser := Csi; csi := csi t; csi_overflowed := true;
        pending_alt_screen_kitty_reset := pending_alt_screen_kitty_reset t |}
  | Osc =>
      if b =? 7 then with_parser t Ground else if b =? ESC then with_parser t OscEscape else t
  | OscEscape =>
      if b =? 92 then with_parser t Ground
      else if b =? ESC then with_parser t OscEscape else with_parser t Osc
  end.

Definition feed (t : TerminalModeTracker) (l : bytes) : TerminalModeTracker := foldl feed_byte t l.

Definition private_mode_reset (mode : Z) : bytes := [ESC; 91; 63] ++ decimal_digits mode ++ [108].

(** The mouse loop of [cleanup_plan]. *)
Definition cleanup_mouse (acc : bytes * TerminalModeTracker) (mode : Z) : bytes * TerminalModeTracker :=
  if is_mouse_mode_enabled acc.2 mode
  then (acc.1 ++ private_mode_reset mode, set_mouse_mode acc.2 mode false) else acc.

Definition when (c : bool) (l : bytes) : bytes := if c then l else [].

Definition cleanup_plan (t : TerminalModeTracker) : bytes * TerminalModeTracker :=
  let m := modes t in
  let plan1 := concat (replicate (Z.to_nat (kitty_keyboard_depth m)) KITTY_POP)
    ++ when (negb (kitty_flags m =? 0)) KITTY_FLAGS_CLEAR
    ++ when (negb (modify_other_keys m =? 0)) MODIFY_OTHER_KEYS_CLEAR
    ++ match alt_screen m with
       | Some Legacy47 => ALT_SCREEN_47_LEAVE
       | Some Mode1049 => ALT_SCREEN_1049_LEAVE
       | None => []
       end
    ++ when (bracketed_paste m) BRACKETED_PASTE_DISABLE in
  let t1 := with_reset (with_modes t
    (set_flags (set_screen (set_mok (set_kitty m 0 0) 0) None (scroll_region_non_default m))
       false (decawm m) (mouse_modes m))) false in
  let (plan2, t2) := foldl cleanup_mouse (plan1, t1) MOUSE_MODES in
  let m2 := modes t2 in
  (plan2 ++ when (negb (decawm m2)) DECAWM_ENABLE
     ++ when (scroll_region_non_default m2) SCROLL_REGION_RESET,
   with_modes t2 (set_flags (set_screen m2 (alt_screen m2) false) (bracketed_paste m2) true
                    (mouse_modes m2))).

Definition take_alt_screen_leave_kitty_reset (t : TerminalModeTracker) : bytes * TerminalModeTracker :=
  if negb (pending_alt_screen_kitty_reset t) then ([], t)
  else
    let m := modes t in
    let '(plan, t') := cleanup_plan (with_modes (with_reset t false) (set_mok (set_kitty m 0 0) 0)) in
    (when (0 <? kitty_keyboard_depth m) KITTY_POP ++ when (negb (kitty_flags m =? 0)) KITTY_FLAGS_CLEAR
       ++ when (negb (modify_other_keys m =? 0)) MODIFY_OTHER_KEYS_CLEAR ++ plan, t').

(** *** Invariant *)

Record wf (t : TerminalModeTracker) : Prop := {
  wf_depth : 0 ≤ kitty_keyboard_depth (modes t) ≤ MAX_KITTY_DEPTH;
  wf_flags : 0 ≤ kitty_flags (modes t) ≤ U16_MAX;
  wf_mok : 0 ≤ modify_other_keys (modes t) ≤ U16_MAX;
  wf_mouse : length (mouse_modes (modes t)) = 4%nat;
  wf_csi : Z.of_nat (length (csi t)) ≤ CSI_BUFFER_CAPACITY;
}.

Lemma parse_params_loop_bounds l parsed current d r :
  Forall (λ v, 0 ≤ v ≤ U16_MAX) parsed → 0 ≤ current ≤ U16_MAX →
  parse_params_loop l parsed current d = Some r →
  Forall (λ v, 0 ≤ v ≤ U16_MAX) r.1.1 ∧ 0 ≤ r.1.2 ≤ U16_MAX.
Proof.
  revert parsed current d. induction l as [|b l IH]; intros parsed current d Hp Hc; simpl.
  { by intros [= <-]. }
  destruct (is_ascii_digit b) eqn:Hd.
  - apply IH; [done |]. unfold is_ascii_digit in Hd. unfold saturating_add, saturating_mul, U16_MAX in *. lia.
  - destruct (_ || _); [| done]. apply IH; [| unfold U16_MAX; lia].
    apply Forall_app. split; [done |]. apply Forall_singleton. destruct d; [done | unfold U16_MAX; lia].
Qed.

Lemma parse_params_bounds l : Forall (λ v, 0 ≤ v ≤ U16_MAX) (parse_params l).
Proof.
  unfold parse_params. destruct (parse_params_loop l [] 0 false) as [[[ps c] d]|] eqn:E; [| done].
  apply parse_params_loop_bounds in E as [Hp Hc]; [| done | unfold U16_MAX; lia]. simpl in *.
  destruct (_ || _); [| done]. apply Forall_app. split; [done |]. apply Forall_singleton.
  destruct d; [done | unfold U16_MAX; lia].
Qed.

Lemma first_or_zero_bounds l : Forall (λ v, 0 ≤ v ≤ U16_MAX) l → 0 ≤ first_or_zero l ≤ U16_MAX.
Proof. destruct 1; [by unfold first_or_zero, U16_MAX; simpl; lia | done]. Qed.

Lemma set_mouse_wf t mode e : wf t → wf (set_mouse_mode t mode e).
Proof.
  intros []. unfold set_mouse_mode. destruct (mouse_mode_index mode); [| done].
  split; try done. simpl. by rewrite length_insert.
Qed.

Lemma set_alt_wf t mode e : wf t → wf (set_alt_screen t mode e).
Proof.
  intros []. unfold set_alt_screen. destruct e; [done |]. case_bool_decide; [| done].
  by destruct (any_dirty t).
Qed.

Lemma apply_private_wf t mode e : wf t → wf (apply_private_mode t mode e).
Proof.
  intros Hwf. unfold apply_private_mode.
  destruct (mode =? 47); [by apply set_alt_wf |]. destruct (mode =? 1049); [by apply set_alt_wf |].
  destruct (mode =? 2004); [by destruct Hwf |]. destruct (mode =? 7); [by destruct Hwf |].
  by apply set_mouse_wf.
Qed.

Lemma fold_private_wf l e t : wf t → wf (foldl (λ t mode, apply_private_mode t mode e) t l).
Proof. revert t. induction l as [|x l IH]; intros t Hwf; [done |]. by apply IH, apply_private_wf. Qed.

Lemma settle_wf t : wf t → wf (settle t).
Proof. intros []. unfold settle. by destruct (is_kitty_active t). Qed.

Lemma handle_csi_wf t f : wf t → wf (handle_csi t f).
Proof.
  intros Hwf. pose proof Hwf as [Hd Hf Hm Hmo Hc]. unfold handle_csi.
  destruct (csi_overflowed t); [done |]. cbv zeta.
  destruct (_ && _).
  { split; simpl; try done. unfold saturating_add, MAX_KITTY_DEPTH in *. lia. }
  destruct (_ && _).
  { apply settle_wf. split; simpl; try done. unfold MAX_KITTY_DEPTH in *. lia. }
  destruct (_ && _).
  { apply settle_wf. split; simpl; try done. apply first_or_zero_bounds, parse_params_bounds. }
  destruct (_ && _).
  { pose proof (parse_params_bounds (tail (csi t))) as Hb.
    destruct (parse_params (tail (csi t))) as [|code rest]; [done |]. destruct (code =? 4); [| done].
    apply Forall_cons in Hb as [_ Hb]. split; simpl; try done. by apply first_or_zero_bounds. }
  destruct (_ || _); [by apply fold_private_wf |]. by destruct (f =? 114).
Qed.

Lemma feed_byte_wf t b : wf t → wf (feed_byte t b).
Proof.
  intros Hwf. pose proof (handle_csi_wf t b Hwf) as Hh. unfold feed_byte.
  destruct (parser t); repeat (match goal with |- context[if ?c then _ else _] => destruct c eqn:? end);
    try done; try (destruct Hwf; by split); try (destruct Hh; by split).
  destruct Hwf. split; simpl; try done. rewrite length_app. simpl. lia.
Qed.

Lemma tracker_new_wf : wf new.
Proof. split; simpl; unfold MAX_KITTY_DEPTH, U16_MAX, CSI_BUFFER_CAPACITY; lia. Qed.

Lemma feed_wf l t : wf t → wf (feed t l).
Proof. unfold feed. revert t. induction l as [|b l IH]; intros t Hwf; [done |]. by apply IH, feed_byte_wf. Qed.

(** *** Running an escape sequence *)

(** From the ground state, [l] acts on the modes as [F] and returns to the ground state. *)
Definition acts (l : bytes) (F : TerminalModeState → TerminalModeState) : Prop :=
  ∀ t, parser t = Ground → parser (feed t l) = Ground ∧ modes (feed t l) = F (modes t).

Lemma acts_nil : acts [] id.
Proof. by intros t. Qed.

Lemma acts_app l1 l2 F G : acts l1 F → acts l2 G → acts (l1 ++ l2) (G ∘ F).
Proof.
  intros H1 H2 t Ht. unfold feed. rewrite foldl_app. fold (feed t l1).
  destruct (H1 t Ht) as [Hg Hm]. fold (feed (feed t l1) l2). destruct (H2 _ Hg) as [Hg' Hm'].
  split; [done |]. by rewrite Hm', Hm.
Qed.

Lemma acts_when c l F : acts l F → acts (when c l) (λ m, if c then F m else m).
Proof. by destruct c. Qed.

Lemma acts_ext l F G : (∀ m, F m = G m) → acts l F → acts l G.
Proof. intros HFG H t Ht. destruct (H t Ht) as [? ->]. by rewrite HFG. Qed.

(** A control sequence with given parameters is handled at its final byte. *)
Lemma modes_settle t : modes (settle t) = modes t.
Proof. unfold settle. by destruct (is_kitty_active t). Qed.

Definition csi_at (t : TerminalModeTracker) (ps : bytes) : TerminalModeTracker := {|
  modes := modes t; parser := Csi; csi := ps; csi_overflowed := false;
  pending_alt_screen_kitty_reset := pending_alt_screen_kitty_reset t |}.

Definition is_param (b : Z) : bool := negb (b =? ESC) && negb (is_csi_final b).

Lemma feed_csi_params t ps qs : forallb is_param qs = true → Z.of_nat (length (ps ++ qs)) ≤ CSI_BUFFER_CAPACITY →
  feed (csi_at t ps) qs = csi_at t (ps ++ qs).
Proof.
  revert ps. unfold feed. induction qs as [|b qs IH]; intros ps Hq Hlen; simpl; [by rewrite app_nil_r |].
  simpl in Hq. apply andb_true_iff in Hq as [Hb Hq]. unfold is_param in Hb.
  apply andb_true_iff in Hb as [He%negb_true_iff Hf%negb_true_iff].
  unfold feed_byte at 2. cbn [parser csi_at]. rewrite He, Hf. cbn [csi csi_at].
  rewrite (proj2 (Z.ltb_lt _ _)) by (rewrite length_app in Hlen; simpl in Hlen; lia).
  change (foldl feed_byte (csi_at t (ps ++ [b])) qs = csi_at t (ps ++ b :: qs)).
  rewrite IH; [by rewrite <-app_assoc | done | by rewrite <-app_assoc].
Qed.

(** A control sequence is handled at its final byte with the parameters collected. *)
Lemma feed_csi_seq t ps f : parser t = Ground → forallb is_param ps = true →
  Z.of_nat (length ps) ≤ CSI_BUFFER_CAPACITY → is_csi_final f = true →
  feed t ([ESC; 91] ++ ps ++ [f]) = reset_csi (with_parser (handle_csi (csi_at t ps) f) Ground).
Proof.
  intros Ht Hps Hlen Hf. unfold feed. rewrite !foldl_app.
  replace (foldl feed_byte t [ESC; 91]) with (csi_at t []).
  2: { simpl. unfold feed_byte at 2. by rewrite Ht. }
  pose proof (feed_csi_params t [] ps Hps Hlen) as Hp. unfold feed in Hp. rewrite Hp. simpl.
  unfold feed_byte. cbn [parser csi_at]. rewrite Hf.
  by rewrite (proj2 (Z.eqb_neq f ESC)) by (intros ->; done).
Qed.

Lemma acts_csi ps f F : forallb is_param ps = true → Z.of_nat (length ps) ≤ CSI_BUFFER_CAPACITY →
  is_csi_final f = true → (∀ t, modes (handle_csi (csi_at t ps) f) = F (modes t)) →
  acts ([ESC; 91] ++ ps ++ [f]) F.
Proof. intros ??? HF t Ht. rewrite feed_csi_seq by done. split; [done | apply HF]. Qed.

Lemma acts_pop : acts KITTY_POP (λ m, set_kitty m (Z.max 0 (kitty_keyboard_depth m - 1)) (kitty_flags m)).
Proof. apply (acts_csi [60] 117); try done. intros t. apply modes_settle. Qed.

Lemma acts_flags_clear : acts KITTY_FLAGS_CLEAR (λ m, set_kitty m (kitty_keyboard_depth m) 0).
Proof. apply (acts_csi [61; 48] 117); try done. intros t. apply modes_settle. Qed.

Lemma acts_mok_clear : acts MODIFY_OTHER_KEYS_CLEAR (λ m, set_mok m 0).
Proof. by apply (acts_csi [62; 52; 59; 48] 109). Qed.

Lemma modes_alt_leave t mode :
  modes (set_alt_screen t mode false) = set_screen (modes t) None (scroll_region_non_default (modes t)).
Proof.
  unfold set_alt_screen. case_bool_decide as H; [by destruct (any_dirty t) |].
  apply eq_None_not_Some in H. destruct (modes t). simpl in *. by subst.
Qed.

Lemma acts_alt_leave a : acts (match a with Legacy47 => ALT_SCREEN_47_LEAVE | Mode1049 => ALT_SCREEN_1049_LEAVE end)
  (λ m, set_screen m None (scroll_region_non_default m)).
Proof.
  destruct a.
  - apply (acts_csi [63; 52; 55] 108); try done. intros t. exact (modes_alt_leave (csi_at t _) Legacy47).
  - apply (acts_csi [63; 49; 48; 52; 57] 108); try done. intros t. exact (modes_alt_leave (csi_at t _) Mode1049).
Qed.

Lemma acts_paste_off : acts BRACKETED_PASTE_DISABLE (λ m, set_flags m false (decawm m) (mouse_modes m)).
Proof. by apply (acts_csi [63; 50; 48; 48; 52] 108). Qed.

Lemma acts_wrap_on : acts DECAWM_ENABLE (λ m, set_flags m (bracketed_paste m) true (mouse_modes m)).
Proof. by apply (acts_csi [63; 55] 104). Qed.

Lemma acts_scroll_reset : acts SCROLL_REGION_RESET (λ m, set_screen m (alt_screen m) false).
Proof. by apply (acts_csi [] 114). Qed.

(** The sequence printed for a mouse mode is the one the parser reads back. *)
Lemma acts_mouse_off mode i : mouse_mode_index mode = Some i → acts (private_mode_reset mode)
  (λ m, set_flags m (bracketed_paste m) (decawm m) (<[i := false]> (mouse_modes m))).
Proof.
  unfold mouse_mode_index. intros Hi.
  repeat (case_match; [match goal with H : (mode =? _) = true |- _ => apply Z.eqb_eq in H as -> end;
    injection Hi as <- |]); [..| done].
  - by apply (acts_csi [63; 49; 48; 48; 48] 108).
  - by apply (acts_csi [63; 49; 48; 48; 50] 108).
  - by apply (acts_csi [63; 49; 48; 48; 51] 108).
  - by apply (acts_csi [63; 49; 48; 48; 54] 108).
Qed.

(** *** The cleanup plan *)

Lemma acts_pops n : acts (concat (replicate (S n) KITTY_POP))
  (λ m, set_kitty m (Z.max 0 (kitty_keyboard_depth m - Z.of_nat (S n))) (kitty_flags m)).
Proof.
  induction n as [|n IH].
  - eapply acts_ext; [| exact (acts_app _ _ _ _ acts_pop acts_nil)]. done.
  - eapply acts_ext; [| exact (acts_app _ _ _ _ acts_pop IH)]. intros m.
    unfold compose, set_kitty. cbn [kitty_keyboard_depth kitty_flags alt_screen bracketed_paste mouse_modes
      modify_other_keys decawm scroll_region_non_default]. f_equal. lia.
Qed.

Definition alt_leave (a : option AltScreenMode) : bytes :=
  match a with Some Legacy47 => ALT_SCREEN_47_LEAVE | Some Mode1049 => ALT_SCREEN_1049_LEAVE | None => [] end.

(** The planned sequences in order, for modes with the given mouse flags. *)
Definition plan_of (m : TerminalModeState) (b0 b1 b2 b3 : bool) : bytes :=
  concat (replicate (Z.to_nat (kitty_keyboard_depth m)) KITTY_POP)
  ++ when (negb (kitty_flags m =? 0)) KITTY_FLAGS_CLEAR
  ++ when (negb (modify_other_keys m =? 0)) MODIFY_OTHER_KEYS_CLEAR
  ++ alt_leave (alt_screen m)
  ++ when (bracketed_paste m) BRACKETED_PASTE_DISABLE
  ++ when b0 (private_mode_reset 1000) ++ when b1 (private_mode_reset 1002)
  ++ when b2 (private_mode_reset 1003) ++ when b3 (private_mode_reset 1006)
  ++ when (negb (decawm m)) DECAWM_ENABLE
  ++ when (scroll_region_non_default m) SCROLL_REGION_RESET.

Definition with_mouse (t : TerminalModeTracker) (l : list bool) : TerminalModeTracker :=
  with_modes t (set_flags (modes t) (bracketed_paste (modes t)) (decawm (modes t)) l).

Lemma cleanup_mouse_eq pl t mode i b : mouse_mode_index mode = Some i →
  mouse_modes (modes t) !! i = Some b →
  cleanup_mouse (pl, t) mode
  = (pl ++ when b (private_mode_reset mode), with_mouse t (<[i := false]> (mouse_modes (modes t)))).
Proof.
  intros Hi Hb. unfold cleanup_mouse, is_mouse_mode_enabled, set_mouse_mode. cbn [fst snd].
  rewrite Hi, Hb. simpl. destruct b; [done |]. simpl. rewrite app_nil_r, list_insert_id by done.
  by destruct t as [[] ? ? ? ?].
Qed.

Lemma cleanup_plan_eq t b0 b1 b2 b3 : mouse_modes (modes t) = [b0; b1; b2; b3] →
  cleanup_plan t = (plan_of (modes t) b0 b1 b2 b3, with_reset (with_modes t default_modes) false).
Proof.
  destruct t as [[d fl a bp mo mk wr sc] pa c o r]. simpl. intros ->.
  unfold cleanup_plan, plan_of, MOUSE_MODES. cbv zeta. cbn [foldl].
  rewrite (cleanup_mouse_eq _ _ 1000 0 b0) by done. rewrite (cleanup_mouse_eq _ _ 1002 1 b1) by done.
  rewrite (cleanup_mouse_eq _ _ 1003 2 b2) by done. rewrite (cleanup_mouse_eq _ _ 1006 3 b3) by done.
  cbv iota. f_equal. rewrite <-!app_assoc. reflexivity.
Qed.

(** [l] takes a terminal from modes [m] to modes [m']. *)
Definition runs (l : bytes) (m m' : TerminalModeState) : Prop :=
  ∀ t, parser t = Ground → modes t = m → parser (feed t l) = Ground ∧ modes (feed t l) = m'.

Lemma runs_app l1 l2 m m1 m2 : runs l1 m m1 → runs l2 m1 m2 → runs (l1 ++ l2) m m2.
Proof.
  intros H1 H2 t Ht Hm. unfold feed. rewrite foldl_app. destruct (H1 t Ht Hm) as [Hg Hm1].
  by apply H2.
Qed.

(** A step that is left out when it would change nothing. *)
Lemma runs_when c l F m : acts l F → (c = false → m = F m) → runs (when c l) m (F m).
Proof. intros H Hid t Ht <-. destruct c; [by apply H | split; [done | by apply Hid]]. Qed.

Lemma runs_pops m : 0 ≤ kitty_keyboard_depth m →
  runs (concat (replicate (Z.to_nat (kitty_keyboard_depth m)) KITTY_POP)) m (set_kitty m 0 (kitty_flags m)).
Proof.
  intros Hd t Ht <-. destruct (Z.to_nat (kitty_keyboard_depth (modes t))) as [|n] eqn:Hn.
  - split; [done |]. simpl. replace 0 with (kitty_keyboard_depth (modes t)) by lia. by destruct (modes t).
  - destruct (acts_pops n t Ht) as [Hg ->]. split; [exact Hg |]. f_equal. lia.
Qed.

Lemma runs_alt a m : alt_screen m = a →
  runs (alt_leave a) m (set_screen m None (scroll_region_non_default m)).
Proof.
  intros Ha t Ht <-. destruct a as [a|]; [exact (acts_alt_leave a t Ht) |].
  split; [done |]. simpl. rewrite <-Ha. by destruct (modes t).
Qed.

(** What the plan of modes [m] does to a terminal in those modes. *)
Lemma plan_of_default m b0 b1 b2 b3 : 0 ≤ kitty_keyboard_depth m → mouse_modes m = [b0; b1; b2; b3] →
  runs (plan_of m b0 b1 b2 b3) m default_modes.
Proof.
  destruct m as [d fl a bp mo mk wr sc]. simpl. intros Hd ->. unfold plan_of.
  cbn [kitty_keyboard_depth kitty_flags alt_screen bracketed_paste modify_other_keys decawm
    scroll_region_non_default].
  eapply runs_app; [by apply (runs_pops (Build_TerminalModeState d fl a bp [b0; b1; b2; b3] mk wr sc)) |].
  eapply runs_app; [apply (runs_when _ _ _ _ acts_flags_clear) |].
  { unfold set_kitty. simpl. by intros ->%negb_false_iff%Z.eqb_eq. }
  eapply runs_app; [apply (runs_when _ _ _ _ acts_mok_clear) |].
  { unfold set_mok. simpl. by intros ->%negb_false_iff%Z.eqb_eq. }
  eapply runs_app; [by apply runs_alt |].
  eapply runs_app; [apply (runs_when _ _ _ _ acts_paste_off); by intros -> |].
  eapply runs_app; [apply (runs_when _ _ _ _ (acts_mouse_off 1000 0 eq_refl)); by intros -> |].
  eapply runs_app; [apply (runs_when _ _ _ _ (acts_mouse_off 1002 1 eq_refl)); by intros -> |].
  eapply runs_app; [apply (runs_when _ _ _ _ (acts_mouse_off 1003 2 eq_refl)); by intros -> |].
  eapply runs_app; [apply (runs_when _ _ _ _ (acts_mouse_off 1006 3 eq_refl)); by intros -> |].
  eapply runs_app; [apply (runs_when _ _ _ _ acts_wrap_on); by intros ->%negb_false_iff |].
  refine (runs_when sc _ _ _ acts_scroll_reset _). by intros ->.
Qed.

(** *** Properties *)

Lemma mouse_of_wf t : wf t → ∃ b0 b1 b2 b3, mouse_modes (modes t) = [b0; b1; b2; b3].
Proof.
  intros [_ _ _ Hl _]. destruct (mouse_modes (modes t)) as [|b0 [|b1 [|b2 [|b3 [|]]]]]; try done.
  by exists b0, b1, b2, b3.
Qed.

(** The cleanup plan undoes what the session did: sent to a terminal that has seen
    the same output, it restores every tracked mode to its default, whatever the output
    was; the tracker forgets the modes and plans nothing twice. *)
Theorem cleanup_restores_terminal l t u plan t' :
  t = feed new l → parser u = Ground → modes u = modes t → cleanup_plan t = (plan, t') →
  modes (feed u plan) = default_modes ∧ parser (feed u plan) = Ground
  ∧ modes t' = default_modes ∧ (cleanup_plan t').1 = [].
Proof.
  intros -> Hg Hu Hplan. pose proof (feed_wf l new tracker_new_wf) as Hwf.
  destruct (mouse_of_wf _ Hwf) as (b0 & b1 & b2 & b3 & Hmo).
  rewrite (cleanup_plan_eq _ b0 b1 b2 b3 Hmo) in Hplan. injection Hplan as <- <-.
  destruct (plan_of_default (modes (feed new l)) b0 b1 b2 b3 (proj1 (wf_depth _ Hwf)) Hmo u Hg Hu) as [Hp Hm].
  split_and!; [done | done | done |].
  by rewrite (cleanup_plan_eq _ false false false false).
Qed.

(** Whatever bytes are fed, the parameter buffer stays within its 64 bytes, the
    kitty depth within 16 and every numeric mode within 16 bits. *)
Theorem tracker_bounded l : wf (feed new l).
Proof. apply feed_wf, tracker_new_wf. Qed.

(** Leaving the alternate screen with a kitty depth of two resets the terminal by a
    single pop and forgets the depth: the user's terminal is left in kitty mode and no
    later cleanup ends it. *)
Theorem alt_screen_reset_loses_depth :
  ∃ l, let t := feed new l in
    let (plan, t') := take_alt_screen_leave_kitty_reset t in
    kitty_keyboard_depth (modes t) = 2 ∧ (cleanup_plan t').1 = []
    ∧ kitty_keyboard_depth (modes (feed t (plan ++ (cleanup_plan t').1))) = 1.
Proof.
  exists ([ESC; 91; 62; 49; 117] ++ [ESC; 91; 62; 49; 117] ++ [ESC; 91; 63; 49; 48; 52; 57; 104]
    ++ ALT_SCREEN_1049_LEAVE). by vm_compute.
Qed.

Lemma cleanup_restores_terminal_witness :
  modes (feed (feed new [ESC; 91; 62; 49; 117]) KITTY_POP) = default_modes.
Proof.
  exact (proj1 (cleanup_restores_terminal [ESC; 91; 62; 49; 117] _ (feed new [ESC; 91; 62; 49; 117])
    KITTY_POP _ eq_refl eq_refl eq_refl eq_refl)).
Defined.

End Tracker.
