(* ===== verification/Labels.v ===== *)
(** * Labels

    crates/portl-core/src/labels.rs: the names derived for machines, session shares and
    saved tickets.  A string is its UTF-8 bytes; the slice in [endpoint_suffix] is taken
    on bytes, as in the source, which needs an ASCII end of the endpoint id (it is hex). *)

From S2P Require Import Prelude.

Definition DASH : Z := 45.

Definition is_ascii_alphanumeric (b : Z) : bool :=
  is_ascii_digit b || (65 <=? b) && (b <=? 90) || (97 <=? b) && (b <=? 122).

(** [chars().flat_map(char::to_lowercase)], as UTF-8 bytes.  Two characters outside ASCII
    have lower-case mappings with an ASCII character: U+212A (to k) and U+0130 (to i and
    U+0307).  Every other one maps to characters outside ASCII; its bytes are kept, which
    is enough since only the ASCII characters are looked at. *)
Fixpoint to_lowercase (l : bytes) : bytes :=
  match l with
  | [] => []
  | a :: r =>
      match r with
      | b :: r2 =>
          if (a =? 196) && (b =? 176) then 105 :: 204 :: 135 :: to_lowercase r2
          else match r2 with
               | c :: r3 =>
                   if (a =? 226) && (b =? 132) && (c =? 170) then 107 :: to_lowercase r3
                   else to_ascii_lowercase a :: to_lowercase r
               | [] => to_ascii_lowercase a :: to_lowercase r
               end
      | [] => [to_ascii_lowercase a]
      end
  end.

(** The loop body: the output and [last_dash]. *)
Definition sanitize_char (st : bytes * bool) (ch : Z) : bytes * bool :=
  if is_ascii_alphanumeric ch then (st.1 ++ [ch], false)
  else if negb st.2 && negb (bool_decide (st.1 = [])) then (st.1 ++ [DASH], true)
  else st.

(** [while out.ends_with('-') { out.pop(); }], on the reversed bytes *)
Fixpoint drop_dashes (l : bytes) : bytes :=
  match l with
  | b :: l' => if b =? DASH then drop_dashes l' else l
  | [] => []
  end.

Definition trim_end_dashes (l : bytes) : bytes := rev (drop_dashes (rev l)).

(** [s.trim_matches('-')] *)
Definition trim_matches_dash (s : string) : string :=
  str_of_bytes (trim_end_dashes (drop_dashes (str_bytes s))).

Definition sanitize_bytes (l : bytes) : bytes :=
  trim_end_dashes (foldl sanitize_char ([], false) (to_lowercase l)).1.

Definition sanitize_label_component (raw : string) : option string :=
  let out := sanitize_bytes (trim_bytes (str_bytes raw)) in
  if decide (out = []) then None else Some (str_of_bytes out).

Definition endpoint_suffix (endpoint_id_hex : string) (chars : nat) : string :=
  let hex := str_bytes (str_to_ascii_lowercase (trim endpoint_id_hex)) in
  str_of_bytes (drop (length hex - chars) hex).

Definition machine_label_from_hint (hint : option string) (endpoint_id_hex : string) : string :=
  let base := default "host" (hint ≫= sanitize_label_component) in
  let suffix := endpoint_suffix endpoint_id_hex 4 in
  if ends_with ("-" +:+ suffix) base then base else base +:+ "-" +:+ suffix.

Definition machine_label (hostname : option string) (endpoint_id_hex : string) : string :=
  machine_label_from_hint (hostname ≫= λ h, head (str_split 46 h)) endpoint_id_hex.

Definition session_share_label (machine_label friendly_name : string) : string :=
  trim_matches_dash machine_label +:+ "/" +:+ default "session" (sanitize_label_component friendly_name).

Definition ticket_label (machine_label purpose : string) : string :=
  trim_matches_dash machine_label +:+ "-ticket-" +:+ default "access" (sanitize_label_component purpose).

(** ** Components of labels: words of lower-case letters and digits, joined by single
    dashes.  [run prev l] is the automaton: [prev] says that a dash may not come next
    and the word may not end; [None] is failure. *)

Definition is_label_char (b : Z) : bool := is_ascii_digit b || (97 <=? b) && (b <=? 122).

Fixpoint run (prev : bool) (l : bytes) : option bool :=
  match l with
  | [] => Some prev
  | b :: l' =>
      if b =? DASH then if prev then None else run true l'
      else if is_label_char b then run false l' else None
  end.

Definition is_component (s : string) : Prop := run true (str_bytes s) = Some false.

Lemma run_app p l k : run p (l ++ k) = run p l ≫= λ q, run q k.
Proof.
  revert p. induction l as [|b l IH]; intros p; simpl; [done |].
  destruct (b =? DASH); [destruct p | destruct (is_label_char b)]; by rewrite ?IH.
Qed.

Lemma run_word p l : Forall (λ b, is_label_char b = true) l → l ≠ [] → run p l = Some false.
Proof.
  intros Hl Hne. destruct Hl as [|b l Hb Hl]; [done |]. simpl.
  assert (∀ b, is_label_char b = true → (b =? DASH) = false) as Hd
    by (unfold is_label_char, is_ascii_digit, DASH; intros; lia).
  rewrite (Hd b), Hb by done. clear Hne. induction Hl as [|c l Hc Hl IH]; [done |]. simpl.
  by rewrite (Hd c), Hc by done.
Qed.

Lemma run_chars p l q : run p l = Some q → Forall (λ b, is_label_char b || (b =? DASH) = true) l.
Proof.
  revert p. induction l as [|b l IH]; intros p; simpl; [constructor |]. intros H.
  constructor; [| destruct (b =? DASH), p, (is_label_char b); by eauto].
  destruct (b =? DASH), (is_label_char b); done.
Qed.

(** ** What sanitizing produces *)

Lemma lower_alnum b : is_ascii_alphanumeric b = true → ¬ (65 ≤ b ≤ 90) → is_label_char b = true.
Proof. unfold is_ascii_alphanumeric, is_label_char, is_ascii_digit. lia. Qed.

Lemma to_lowercase_no_upper l : Forall (λ b, ¬ (65 ≤ b ≤ 90)) (to_lowercase l).
Proof.
  assert (∀ b, ¬ (65 ≤ to_ascii_lowercase b ≤ 90)) as Hl.
  { intros b. unfold to_ascii_lowercase. destruct ((65 <=? b) && (b <=? 90)) eqn:?; lia. }
  induction l as [l IH] using (well_founded_induction (well_founded_ltof _ length)). unfold ltof in IH.
  destruct l as [|a [|b [|c r]]]; simpl; [constructor | by repeat constructor | |].
  - destruct ((a =? 196) && (b =? 176)); repeat constructor; [lia | lia | lia | done | done].
  - destruct ((a =? 196) && (b =? 176)).
    { repeat (constructor; [lia |]). apply (IH (c :: r)). simpl. lia. }
    destruct ((a =? 226) && (b =? 132) && (c =? 170)).
    + constructor; [lia |]. apply IH. simpl. lia.
    + constructor; [done |]. apply (IH (b :: c :: r)). simpl. lia.
Qed.

(** A dash may not come next after a dash and at the start. *)
Definition blocked (st : bytes * bool) : bool := bool_decide (st.1 = []) || st.2.

Lemma sanitize_char_run st ch : ¬ (65 ≤ ch ≤ 90) → run true st.1 = Some (blocked st) →
  run true (sanitize_char st ch).1 = Some (blocked (sanitize_char st ch)).
Proof.
  intros Hup Hrun. destruct st as [out d]. unfold sanitize_char, blocked in *. cbn [fst snd] in *.
  destruct (is_ascii_alphanumeric ch) eqn:Hc; cbn [fst snd].
  - rewrite run_app, Hrun. simpl. pose proof (lower_alnum _ Hc Hup) as Hl. rewrite Hl.
    replace (ch =? DASH) with false by (unfold is_label_char, is_ascii_digit, DASH in *; lia).
    rewrite bool_decide_eq_false_2; [done | by destruct out].
  - destruct d; simpl; [done |].
    destruct (bool_decide (out = [])) eqn:He; simpl in *; [by rewrite He |].
    by rewrite run_app, Hrun, orb_true_r.
Qed.

Lemma drop_dashes_run l : run true (rev l) = Some true → drop_dashes l = [] ∨
  run true (rev (drop_dashes l)) = Some false.
Proof.
  destruct l as [|b l]; simpl; [by left |]. rewrite run_app. intros (p & Hp & Hb)%bind_Some. simpl in Hb.
  destruct (b =? DASH); [| by destruct (is_label_char b)]. destruct p; [done |]. right.
  destruct l as [|c l]; simpl in *; [done |]. destruct (c =? DASH) eqn:Hc; [| done].
  rewrite run_app in Hp. apply bind_Some in Hp as (q & _ & Hq). simpl in Hq. rewrite Hc in Hq. by destruct q.
Qed.

Lemma drop_dashes_id l : run true (rev l) = Some false → drop_dashes l = l.
Proof.
  destruct l as [|b l]; simpl; [done |]. rewrite run_app. intros (p & _ & Hb)%bind_Some. simpl in Hb.
  destruct (b =? DASH); [by destruct p | done].
Qed.

Lemma trim_end_dashes_id l : run true l = Some false → trim_end_dashes l = l.
Proof.
  intros Hl. unfold trim_end_dashes. rewrite drop_dashes_id by by rewrite rev_involutive.
  apply rev_involutive.
Qed.

Lemma sanitize_bytes_run l : sanitize_bytes l = [] ∨ run true (sanitize_bytes l) = Some false.
Proof.
  unfold sanitize_bytes.
  assert (∀ k st, Forall (λ b, ¬ (65 ≤ b ≤ 90)) k → run true st.1 = Some (blocked st) →
    ∃ p, run true (foldl sanitize_char st k).1 = Some p) as Hfold.
  { intros k. induction k as [|c k IH]; intros st Hk Hst; simpl; [by eexists |].
    apply Forall_cons in Hk as [? ?]. by apply IH; [| apply sanitize_char_run]. }
  destruct (Hfold _ ([], false) (to_lowercase_no_upper l) eq_refl) as [[] Hp].
  - unfold trim_end_dashes. destruct (drop_dashes_run (rev (foldl sanitize_char ([], false) (to_lowercase l)).1))
      as [->|H]; [by rewrite rev_involutive | by left | by right].
  - right. by rewrite trim_end_dashes_id.
Qed.

(** ** Sanitizing leaves a component alone *)

Definition is_plain (b : Z) : bool := is_label_char b || (b =? DASH).

Lemma is_plain_elim b : is_plain b = true → b = 45 ∨ 48 ≤ b ≤ 57 ∨ 97 ≤ b ≤ 122.
Proof. unfold is_plain, is_label_char, is_ascii_digit, DASH. lia. Qed.

Lemma to_lowercase_plain l : Forall (λ b, is_plain b = true) l → to_lowercase l = l.
Proof.
  induction 1 as [|b l Hb Hl IH]; [done |]. cbn [to_lowercase].
  assert (to_ascii_lowercase b = b) as Hlow.
  { apply is_plain_elim in Hb. unfold to_ascii_lowercase. destruct ((65 <=? b) && (b <=? 90)) eqn:?; lia. }
  apply is_plain_elim in Hb. destruct l as [|c l]; [by rewrite Hlow |].
  replace (b =? 196) with false by lia. replace (b =? 226) with false by lia. cbn [andb].
  rewrite Hlow, IH. by destruct l.
Qed.

Lemma plain_range l : Forall (λ b, is_plain b = true) l → Forall u8_range l.
Proof. intros Hl. apply (Forall_impl _ _ _ Hl). intros b Hb%is_plain_elim. unfold u8_range, U8_MAX. lia. Qed.

Lemma trim_plain l : Forall (λ b, is_plain b = true) l → trim_bytes l = l.
Proof.
  intros Hl. apply trim_visible, (Forall_impl _ _ _ Hl). intros b Hb%is_plain_elim. unfold is_visible. lia.
Qed.

Lemma sanitize_run st l p q : run p l = Some q → p = blocked st →
  ∃ d, foldl sanitize_char st l = (st.1 ++ l, d).
Proof.
  revert st p. induction l as [|b l IH]; intros [out d] p Hrun ->; simpl in *.
  - exists d. by rewrite app_nil_r.
  - unfold sanitize_char at 2. cbn [fst snd]. unfold blocked in *. cbn [fst snd] in *.
    destruct (is_ascii_alphanumeric b) eqn:Hb.
    + destruct (b =? DASH) eqn:Hd; [unfold is_ascii_alphanumeric, is_ascii_digit, DASH in *; lia |].
      destruct (is_label_char b); [| done].
      destruct (IH (out ++ [b], false) false Hrun) as [d' ->]; cbn [fst snd].
      * rewrite bool_decide_eq_false_2; [done | by destruct out].
      * exists d'. by rewrite <- app_assoc.
    + destruct (b =? DASH) eqn:Hd.
      2:{ destruct (is_label_char b) eqn:Hl; [| done].
          unfold is_ascii_alphanumeric, is_label_char, is_ascii_digit in *. lia. }
      destruct (bool_decide (out = [])) eqn:He; [done |]. destruct d; [done |]. cbn [negb andb orb] in *.
      apply Z.eqb_eq in Hd as ->.
      destruct (IH (out ++ [DASH], true) true Hrun) as [d' ->]; cbn [fst snd].
      * by rewrite orb_true_r.
      * exists d'. by rewrite <- app_assoc.
Qed.

Lemma component_plain s : is_component s → Forall (λ b, is_plain b = true) (str_bytes s).
Proof. apply run_chars. Qed.

Lemma sanitize_component s : is_component s → sanitize_label_component s = Some s.
Proof.
  intros Hs. pose proof (component_plain _ Hs) as Hp. unfold sanitize_label_component, sanitize_bytes.
  rewrite trim_plain, to_lowercase_plain by done.
  destruct (sanitize_run ([], false) _ _ _ Hs) as [d ->]; [done |]. cbn [fst app].
  rewrite trim_end_dashes_id by done. rewrite decide_False, str_of_bytes_str; [done |].
  intros He. unfold is_component in Hs. by rewrite He in Hs.
Qed.

Lemma sanitize_is_component raw s : sanitize_label_component raw = Some s → is_component s.
Proof.
  unfold sanitize_label_component. case_decide as Hne; [done |]. intros [= <-]. unfold is_component.
  destruct (sanitize_bytes_run (trim_bytes (str_bytes raw))) as [?|Hrun]; [done |].
  rewrite str_bytes_of_bytes; [done |]. apply plain_range. by eapply run_chars.
Qed.

(** ** Machine labels *)

(** The endpoint ids of the program are 64 lower-case hex digits. *)
Definition is_endpoint_hex (s : string) : Prop :=
  Forall (λ b, is_label_char b = true) (str_bytes s) ∧ (4 ≤ length (str_bytes s))%nat.

Lemma endpoint_suffix_bytes s n : Forall (λ b, is_label_char b = true) (str_bytes s) →
  str_bytes (endpoint_suffix s n) = drop (length (str_bytes s) - n) (str_bytes s).
Proof.
  intros Hs. unfold endpoint_suffix, str_to_ascii_lowercase, trim.
  assert (Forall (λ b, is_plain b = true) (str_bytes s)) as Hp.
  { apply (Forall_impl _ _ _ Hs). intros b Hb. unfold is_plain. by rewrite Hb. }
  rewrite trim_plain, str_of_bytes_str by done.
  replace (to_ascii_lowercase <$> str_bytes s) with (str_bytes s).
  2:{ rewrite <- (list_fmap_id (str_bytes s)) at 1. apply list_fmap_ext. intros i b Hb.
      apply (Forall_lookup_1 _ _ _ _ Hp), is_plain_elim in Hb. unfold to_ascii_lowercase.
      destruct ((65 <=? b) && (b <=? 90)) eqn:?; [lia | done]. }
  rewrite str_of_bytes_str, str_bytes_of_bytes; [done |]. apply Forall_drop. by apply plain_range.
Qed.

Lemma component_suffix s t : is_component s → Forall (λ b, is_label_char b = true) (str_bytes t) → t ≠ "" →
  is_component (s +:+ "-" +:+ t).
Proof.
  intros Hs Ht Hne. unfold is_component in *. rewrite !str_bytes_app, !run_app, Hs. simpl.
  apply run_word; [done |]. by destruct t.
Qed.

Lemma base_component hint : is_component (default "host" (hint ≫= sanitize_label_component)).
Proof.
  destruct (hint ≫= sanitize_label_component) as [b|] eqn:Hb; [| done]. simpl.
  apply bind_Some in Hb as (h & _ & Hh). by eapply sanitize_is_component.
Qed.

Lemma machine_label_shape hint eid : is_endpoint_hex eid →
  is_component (machine_label_from_hint hint eid) ∧
  ends_with ("-" +:+ endpoint_suffix eid 4) (machine_label_from_hint hint eid) = true.
Proof.
  intros [Heid Hlen]. pose proof (endpoint_suffix_bytes eid 4 Heid) as Hsuf. unfold machine_label_from_hint.
  destruct (ends_with _ _) eqn:Hend; [by split; [apply base_component |] |].
  split; [| apply ends_with_spec; by eexists]. apply component_suffix; [apply base_component | |].
  - rewrite Hsuf. by apply Forall_drop.
  - intros Hnil. rewrite Hnil in Hsuf. apply (f_equal length) in Hsuf. rewrite length_drop in Hsuf.
    simpl in Hsuf. lia.
Qed.

(** Whatever the hint, the label of a machine is a sequence of words of lower-case
    letters and digits joined by single dashes, the last of which is the end of its
    endpoint id, and is the label derived when it is itself given as the hint. *)
Theorem machine_label_canonical hint eid : is_endpoint_hex eid →
  let l := machine_label_from_hint hint eid in
  is_component l ∧ ends_with ("-" +:+ endpoint_suffix eid 4) l = true ∧
  machine_label_from_hint (Some l) eid = l.
Proof.
  intros Heid l. destruct (machine_label_shape hint eid Heid) as [Hc He].
  split_and!; [done | done |]. fold l in Hc, He. clearbody l. unfold machine_label_from_hint.
  cbn [mbind option_bind]. rewrite sanitize_component by done. cbn [from_option id]. by rewrite He.
Qed.

Lemma machine_label_canonical_witness :
  machine_label_from_hint (Some "onyx-7310") "d65f9e657310" = "onyx-7310" ∧
  is_component (machine_label_from_hint (Some " Max's  Laptop ") "d65f9e657310").
Proof.
  split; [reflexivity |]. apply (machine_label_canonical (Some " Max's  Laptop ") "d65f9e657310").
  split; [repeat constructor | vm_compute; lia].
Defined.
