(* ===== verification/Files.v ===== *)
(** * Files of the stores

    The stores of crates/portl-core/src (peer_store.rs, ticket_store.rs, pair_store.rs)
    replace a JSON file through a temporary one.  A file here has what readers see and
    what the device holds; a crash keeps the latter, or anything while they differ.  A
    rename is atomic and ordered after the synchronisation it follows, so a rename lost
    in a crash is a crash before it.  Directories are not modelled, nor is what a failed
    write leaves in the temporary file, which is never read. *)

From S2P Require Import Prelude.

(** ** Parameter: serde_json on whole files *)

Class JsonFile (A : Type) := { json_print : A → option string; json_parse : string → option A }.

Class JsonFileLaws (A : Type) `{JsonFile A} : Prop := {
  json_print_parse a s : json_print a = Some s → json_parse s = Some a;
  json_parse_empty : json_parse "" = None;
}.

(** ** Files *)

Record Inode := { cached : string; durable : string }.
Abbreviation Fs := (gmap string Inode).

Inductive FsOp :=
  | Create (path : string)
  | WriteAll (path data : string)
  | SyncAll (path : string)
  | Rename (from to : string).

Definition apply_op (fs : Fs) (op : FsOp) : Fs :=
  match op with
  | Create p =>
      <[p := {| cached := ""; durable := default "" (durable <$> fs !! p) |}]> fs
  | WriteAll p s => alter (λ f, {| cached := cached f +:+ s; durable := durable f |}) p fs
  | SyncAll p => alter (λ f, {| cached := cached f; durable := cached f |}) p fs
  | Rename p q => match fs !! p with Some f => <[q := f]> (delete p fs) | None => fs end
  end.

Definition run_ops (fs : Fs) (ops : list FsOp) : Fs := foldl apply_op fs ops.

Definition read_file (fs : Fs) (p : string) : option string := cached <$> fs !! p.

(** A crash: every file is left with some content, its own where it was synchronised. *)
Definition crash (fs fs' : Fs) : Prop := ∀ p,
  match fs !! p, fs' !! p with
  | Some f, Some f' => cached f' = durable f' ∧ (cached f = durable f → cached f' = cached f)
  | None, None => True
  | _, _ => False
  end.

Definition clean (fs : Fs) (p : string) : Prop :=
  match fs !! p with Some f => cached f = durable f | None => True end.

(** ** Saving *)

(** [path.with_extension("json.tmp")], for a path that ends in .json or has no extension *)
Definition tmp_of (path : string) : string := default path (strip_suffix ".json" path) +:+ ".json.tmp".

(** [sync] is whether the temporary file is synchronised before the rename. *)
Definition save_ops (sync : bool) (path data : string) : list FsOp :=
  [Create (tmp_of path); WriteAll (tmp_of path) data] ++
  (if sync then [SyncAll (tmp_of path)] else []) ++ [Rename (tmp_of path) path].

(** [fault] is the index of the file system call that fails, if one does. *)
Definition save_file (sync : bool) (fs : Fs) (path : string) (encoded : option string)
    (fault : option nat) : Fs * bool :=
  match encoded with
  | None => (fs, false)
  | Some data =>
      let ops := save_ops sync path data in
      match fault with
      | Some n => if (n <? length ops)%nat then (run_ops fs (take n ops), false) else (run_ops fs ops, true)
      | None => (run_ops fs ops, true)
      end
  end.

(** ** Lemmas *)

Lemma tmp_of_ne path : tmp_of path ≠ path.
Proof.
  unfold tmp_of. intros H. destruct (strip_suffix ".json" path) as [stem|] eqn:Hs; simpl in H.
  - apply strip_suffix_spec in Hs. rewrite Hs in H. apply (f_equal String.length) in H.
    rewrite !str_length_app in H. simpl in H. lia.
  - apply (f_equal String.length) in H. rewrite str_length_app in H. simpl in H. lia.
Qed.

(** The operations on the temporary file leave the others alone. *)
Lemma apply_op_other fs op p :
  match op with Create q | WriteAll q _ | SyncAll q => q ≠ p | Rename q q' => q ≠ p ∧ q' ≠ p end →
  apply_op fs op !! p = fs !! p.
Proof.
  destruct op; simpl; intros H.
  - by rewrite lookup_insert_ne.
  - by rewrite lookup_alter_ne.
  - by rewrite lookup_alter_ne.
  - destruct H. case_match; [| done]. by rewrite lookup_insert_ne, lookup_delete_ne.
Qed.

Lemma save_ops_done sync fs path data :
  run_ops fs (save_ops sync path data) !! path =
    Some {| cached := data; durable := if sync then data else default "" (durable <$> fs !! tmp_of path) |}.
Proof.
  unfold run_ops, save_ops. destruct sync; simpl.
  - rewrite lookup_alter_eq, lookup_alter_eq, lookup_insert_eq. simpl. by rewrite lookup_insert_eq.
  - rewrite lookup_alter_eq, lookup_insert_eq. simpl. by rewrite lookup_insert_eq.
Qed.

Lemma save_ops_prefix sync fs path data n : (n < length (save_ops sync path data))%nat →
  run_ops fs (take n (save_ops sync path data)) !! path = fs !! path.
Proof.
  intros Hn. pose proof (tmp_of_ne path) as Hne. unfold run_ops.
  destruct sync; simpl in *; destruct n as [|[|[|[|n]]]]; try lia; simpl;
    rewrite ?lookup_alter_ne, ?lookup_insert_ne by done; done.
Qed.

Lemma save_file_frame sync fs path enc fault p : p ≠ path → p ≠ tmp_of path →
  (save_file sync fs path enc fault).1 !! p = fs !! p.
Proof.
  intros Hp Ht. unfold save_file. destruct enc as [data|]; [| done].
  assert (∀ n, run_ops fs (take n (save_ops sync path data)) !! p = fs !! p) as Hall.
  { intros n. unfold run_ops, save_ops. pose proof (tmp_of_ne path).
    destruct sync; destruct n as [|[|[|[|n]]]]; simpl; rewrite ?take_nil; simpl; rewrite ?apply_op_other by done;
      repeat (case_match; simpl); simplify_eq;
      rewrite ?lookup_insert_ne, ?lookup_delete_ne, ?lookup_alter_ne, ?lookup_insert_ne by done; done. }
  pose proof (Hall (length (save_ops sync path data))) as Hfull. rewrite firstn_all in Hfull.
  destruct fault as [n|]; [| done]. case_match; simpl; auto.
Qed.

(** What a save that succeeds, and one that fails, leaves in the file. *)
Lemma save_file_read sync fs path enc fault fs' b : save_file sync fs path enc fault = (fs', b) →
  if b then read_file fs' path = enc ∧ is_Some enc else read_file fs' path = read_file fs path.
Proof.
  unfold save_file, read_file. destruct enc as [data|]; [| by intros [= <- <-]].
  destruct fault as [n|]; [case_match eqn:Hn |]; intros [<- <-]%pair_eq.
  - rewrite save_ops_prefix; [done | by apply Nat.ltb_lt].
  - by rewrite save_ops_done.
  - by rewrite save_ops_done.
Qed.

(** Synchronised saves are atomic under crashes and failures: whenever a crash happens in
    a save, the file reads as before or as saved. *)
Lemma save_crash_atomic fs path data n fs' : clean fs path →
  crash (run_ops fs (take n (save_ops true path data))) fs' →
  read_file fs' path = read_file fs path ∨ read_file fs' path = Some data.
Proof.
  intros Hclean Hcrash. specialize (Hcrash path). unfold read_file, clean in *.
  destruct (decide (n < length (save_ops true path data))%nat) as [Hn|Hn].
  - rewrite save_ops_prefix in Hcrash by done. left. destruct (fs !! path), (fs' !! path); try done.
    simpl. f_equal. by apply Hcrash.
  - rewrite take_ge, save_ops_done in Hcrash by lia. right. simpl in Hcrash.
    destruct (fs' !! path); [| done]. simpl. f_equal. by apply Hcrash.
Qed.

(** ** A concrete serialiser that knows a list of values, for witnesses *)

Module Table.
Section table.
Context {A : Type} {EA : EqDecision A} (known : list A).

Definition tally (n : nat) : string := str_of_bytes (replicate (S n) 49).

Definition json : JsonFile A := {|
  json_print a := tally ∘ fst <$> list_find (eq a) known;
  json_parse s := match String.length s with O => None | S n => known !! n end |}.

Lemma tally_length n : String.length (tally n) = S n.
Proof. unfold tally. induction n as [|n IH]; [done |]. simpl in *. by rewrite IH. Qed.

Lemma table_laws : @JsonFileLaws A json.
Proof.
  split; simpl; [| done]. intros a s Hs. apply fmap_Some in Hs as ([n b] & Hf & ->).
  apply list_find_Some in Hf as (Hn & -> & _). unfold compose. simpl fst. by rewrite tally_length.
Qed.
End table.
End Table.
