(* ===== verification/Peers.v ===== *)
(** * The peer store

    crates/portl-core/src/peer_store.rs: the peers of a machine and whom it trusts.  A
    HashMap is a finite map; where the code takes the first entry in iteration order the
    model takes the first of [map_to_list], and [get_by_label_iff] shows that the order
    does not matter in a store with unique labels. *)

From S2P Require Import Prelude Canonical Revocations Labels Files.

(** ** The hex crate: lower-case digits on output, either case on input. *)

Class HexDigits `{Hex} : Prop := {
  hex_encode_chars bs : Forall (λ b, is_label_char b = true) (str_bytes (hex_encode bs));
  hex_encode_length bs : length (str_bytes (hex_encode bs)) = (2 * length bs)%nat;
  hex_decode_case s bs : hex_decode s = Some bs → str_to_ascii_lowercase s = hex_encode bs;
}.

Lemma hex_encode_inj `{HexLaws} a b : Forall u8_range a → Forall u8_range b →
  hex_encode a = hex_encode b → a = b.
Proof.
  intros Ha Hb Heq. apply (f_equal hex_decode) in Heq. rewrite !hex_roundtrip in Heq by done. congruence.
Qed.

Inductive StoreError :=
  | LabelInUse (label short : string)
  | LabelExists (label : string)
  | ParseError
  | SchemaMismatch (found : Z)
  | AmbiguousPrefix
  | SaveFailed.

(** ** Data *)

Inductive PeerOrigin := Zelf | Paired | Accepted | Raw.

Record PeerEntry := {
  label : string;
  endpoint_id_hex : string;
  accepts_from_them : bool;
  they_accept_from_me : bool;
  since : Z;
  origin : PeerOrigin;
  last_hold_at : option Z;
  is_self : bool;
  relay_hint : option string;
  schema_version : Z;
}.

#[export] Instance PeerOrigin_eq_dec : EqDecision PeerOrigin.
Proof. solve_decision. Defined.
#[export] Instance PeerEntry_eq_dec : EqDecision PeerEntry.
Proof. solve_decision. Defined.

Record PeerStore := { schema : Z; entries : gmap string PeerEntry }.

#[export] Instance PeerStore_eq_dec : EqDecision PeerStore.
Proof. solve_decision. Defined.

Definition CURRENT_SCHEMA : Z := 1.

Definition as_str (o : PeerOrigin) : string :=
  match o with Zelf => "self" | Paired => "paired" | Accepted => "accepted" | Raw => "raw" end.

Definition relationship (e : PeerEntry) : string :=
  if is_some (last_hold_at e) then "held"
  else if is_self e then "self"
  else match accepts_from_them e, they_accept_from_me e with
       | true, true => "mutual"
       | true, false => "inbound"
       | false, true => "outbound"
       | false, false => "none"
       end.

(** ** Operations *)

Definition new : PeerStore := {| schema := CURRENT_SCHEMA; entries := ∅ |}.

(** [store.iter()] *)
Definition iter (s : PeerStore) : list PeerEntry := (map_to_list (entries s)).*2.

(** [&s[..n.min(s.len())]] *)
Definition str_take (n : nat) (s : string) : string := str_of_bytes (take n (str_bytes s)).

Definition insert_or_update (s : PeerStore) (e : PeerEntry) : result StoreError PeerStore :=
  match List.find (λ kv, bool_decide (label kv.2 = label e) && negb (bool_decide (kv.1 = endpoint_id_hex e)))
          (map_to_list (entries s)) with
  | Some (_, existing) => Err (LabelInUse (label e) (str_take 16 (endpoint_id_hex existing)))
  | None => Ok {| schema := schema s; entries := <[endpoint_id_hex e := e]> (entries s) |}
  end.

Definition remove_key (s : PeerStore) (k : string) : PeerStore * option PeerEntry :=
  ({| schema := schema s; entries := delete k (entries s) |}, entries s !! k).

Definition remove_by_label (s : PeerStore) (l : string) : PeerStore * option PeerEntry :=
  match List.find (λ kv, bool_decide (label kv.2 = l)) (map_to_list (entries s)) with
  | Some (k, _) => remove_key s k
  | None => (s, None)
  end.

Definition get_by_label (s : PeerStore) (l : string) : option PeerEntry :=
  List.find (λ e, bool_decide (label e = l)) (iter s).

Section peers.
Context {HX : Hex}.

Definition endpoint_id_bytes (e : PeerEntry) : option bytes :=
  bs ← hex_decode (endpoint_id_hex e); if decide (length bs = 32%nat) then Some bs else None.

Definition remove_by_endpoint (s : PeerStore) (eid : bytes) : PeerStore * option PeerEntry :=
  remove_key s (hex_encode eid).

Definition get_by_endpoint (s : PeerStore) (eid : bytes) : option PeerEntry :=
  entries s !! hex_encode eid.

Definition trusted (e : PeerEntry) : bool := accepts_from_them e && negb (is_some (last_hold_at e)).

Definition trust_roots (s : PeerStore) : gset bytes :=
  list_to_set (omap endpoint_id_bytes (List.filter trusted (iter s))).

Definition auto_label (eid : bytes) : string := hex_encode (take 4 eid).

Context {JF : JsonFile PeerStore}.

Definition load (fs : Fs) (path : string) : result StoreError PeerStore :=
  match read_file fs path with
  | None => Ok new
  | Some raw =>
      store ← ok_or (json_parse raw) ParseError;
      ensure (schema store =? CURRENT_SCHEMA) (SchemaMismatch (schema store));;
      Ok store
  end.

Definition save (s : PeerStore) (fs : Fs) (path : string) (fault : option nat) : Fs * result StoreError unit :=
  let '(fs', ok) := save_file true fs path (json_print s) fault in
  (fs', if ok then Ok tt else Err SaveFailed).

(** ** Well-formed stores: entries are filed under their endpoint id, and labels are unique *)

Record wf (s : PeerStore) : Prop := {
  wf_schema : schema s = CURRENT_SCHEMA;
  wf_key k e : entries s !! k = Some e → endpoint_id_hex e = k;
  wf_label k1 k2 e1 e2 : entries s !! k1 = Some e1 → entries s !! k2 = Some e2 →
    label e1 = label e2 → k1 = k2;
}.

Lemma peers_new_wf : wf new.
Proof. split; simpl; [done | |]; intros *; by rewrite lookup_empty. Qed.

Lemma iter_elem s e : e ∈ iter s ↔ ∃ k, entries s !! k = Some e.
Proof.
  unfold iter. rewrite list_elem_of_fmap. split.
  - intros ([k e'] & -> & H). exists k. by apply elem_of_map_to_list in H.
  - intros [k H]. exists (k, e). split; [done | by apply elem_of_map_to_list].
Qed.

Lemma find_entry (P : string * PeerEntry → bool) s :
  match List.find P (map_to_list (entries s)) with
  | Some (k, e) => entries s !! k = Some e ∧ P (k, e) = true
  | None => ∀ k e, entries s !! k = Some e → P (k, e) = false
  end.
Proof.
  destruct (List.find P _) as [[k e]|] eqn:Hf.
  - apply find_some in Hf as [Hin HP]. split; [| done]. by apply elem_of_map_to_list, list_elem_of_In.
  - intros k e Hk. eapply find_none; [done |]. by apply list_elem_of_In, elem_of_map_to_list.
Qed.

Lemma insert_or_update_Ok s e s' : insert_or_update s e = Ok s' ↔
  (∀ k e', entries s !! k = Some e' → label e' = label e → k = endpoint_id_hex e) ∧
  s' = {| schema := schema s; entries := <[endpoint_id_hex e := e]> (entries s) |}.
Proof.
  unfold insert_or_update. set (P := λ kv : string * PeerEntry, _).
  pose proof (find_entry P s) as Hf. destruct (List.find P _) as [[k e']|].
  - destruct Hf as [Hk HP]. subst P. simpl in HP. reflect_bool. split; [done |]. intros [Hall _]. naive_solver.
  - split; [| by intros [_ ->]]. intros [= <-]. split; [| done]. intros k e' Hk Hl.
    specialize (Hf k e' Hk). subst P. simpl in Hf. rewrite bool_decide_eq_true_2 in Hf by done. simpl in Hf.
    by reflect_bool.
Qed.

Lemma insert_or_update_wf s e s' : wf s → insert_or_update s e = Ok s' → wf s'.
Proof.
  intros [Hs Hk Hl] [Hfree ->]%insert_or_update_Ok. split; simpl; [done | |].
  - intros k e'. rewrite lookup_insert_Some. naive_solver.
  - intros k1 k2 e1 e2. rewrite !lookup_insert_Some.
    intros [[<- <-]|[? H1]] [[<- <-]|[? H2]] Heq; [done | | |].
    + symmetry. by eapply Hfree.
    + by eapply Hfree.
    + by eapply Hl.
Qed.

Lemma remove_key_wf s k : wf s → wf (remove_key s k).1.
Proof.
  intros [Hs Hk Hl]. split; simpl; [done | |].
  - intros k' e [_ H]%lookup_delete_Some. eauto.
  - intros k1 k2 e1 e2 [_ H1]%lookup_delete_Some [_ H2]%lookup_delete_Some. eauto.
Qed.

Lemma remove_by_label_wf s l : wf s → wf (remove_by_label s l).1.
Proof. intros Hs. unfold remove_by_label. case_match; [| done]. case_match. by apply remove_key_wf. Qed.

Lemma get_by_label_iff s l e : wf s →
  get_by_label s l = Some e ↔ entries s !! endpoint_id_hex e = Some e ∧ label e = l.
Proof.
  intros [_ Hk Hl]. unfold get_by_label. split.
  - intros [Hin He]%find_some. reflect_bool. split; [| done].
    apply list_elem_of_In, iter_elem in Hin as [k H]. by rewrite (Hk _ _ H).
  - intros [He <-]. destruct (List.find _ _) as [e'|] eqn:Hf.
    + apply find_some in Hf as [Hin He']. reflect_bool. apply list_elem_of_In, iter_elem in Hin as [k' H'].
      pose proof (Hl _ _ _ _ H' He He') as ->. congruence.
    + eapply find_none in Hf; [by rewrite bool_decide_eq_true_2 in Hf |]. apply list_elem_of_In, iter_elem. eauto.
Qed.

Lemma get_by_label_None s l : get_by_label s l = None ↔ ∀ k e, entries s !! k = Some e → label e ≠ l.
Proof.
  unfold get_by_label. split.
  - intros Hf k e He Hl. eapply find_none in Hf; [by rewrite bool_decide_eq_true_2 in Hf |].
    apply list_elem_of_In, iter_elem. eauto.
  - intros Hno. destruct (List.find _ _) as [e|] eqn:Hf; [| done]. apply find_some in Hf as [Hin He].
    reflect_bool. apply list_elem_of_In, iter_elem in Hin as [k Hk]. by destruct (Hno _ _ Hk).
Qed.

(** ** The file *)

Lemma peers_load_fs fs fs' path : read_file fs path = read_file fs' path → load fs path = load fs' path.
Proof. unfold load. by intros ->. Qed.

Context {JL : JsonFileLaws PeerStore}.

Lemma peers_load_saved s fs path enc : json_print s = Some enc → schema s = CURRENT_SCHEMA →
  read_file fs path = Some enc → load fs path = Ok s.
Proof. intros He Hs Hr. unfold load. rewrite Hr, (json_print_parse _ _ He). simpl. by rewrite Hs. Qed.

Lemma peers_save_spec s fs path fault fs' r : save s fs path fault = (fs', r) → schema s = CURRENT_SCHEMA →
  match r with Ok _ => load fs' path = Ok s | Err _ => load fs' path = load fs path end.
Proof.
  unfold save. destruct (save_file _ _ _ _ _) as [fs1 ok] eqn:Hsave. intros [= <- <-] Hs.
  apply save_file_read in Hsave. destruct ok.
  - destruct Hsave as [Hr [enc He]]. rewrite He in Hr. by eapply peers_load_saved.
  - by apply peers_load_fs.
Qed.

(** C40: a crash, or a failing call, at any point of saving the peer store leaves a file
    that loads as before the save or as the saved store. *)
Theorem peers_save_crash_safe s fs path fault fs' : clean fs path → schema s = CURRENT_SCHEMA →
  crash (save s fs path fault).1 fs' → load fs' path = load fs path ∨ load fs' path = Ok s.
Proof.
  unfold save, save_file. intros Hclean Hs Hcrash. destruct (json_print s) as [enc|] eqn:He.
  - assert (∃ n, crash (run_ops fs (take n (save_ops true path enc))) fs') as [n Hn].
    { destruct fault as [n|]; [destruct (n <? _)%nat; [by exists n |] |];
        exists (length (save_ops true path enc)); by rewrite firstn_all. }
    apply save_crash_atomic in Hn as [Hr|Hr]; [left; by apply peers_load_fs | right | done].
    by eapply peers_load_saved.
  - left. apply peers_load_fs. specialize (Hcrash path). unfold read_file, clean in *. simpl in Hcrash.
    destruct (fs !! path), (fs' !! path); try done. simpl. f_equal. by apply Hcrash.
Qed.

(** ** Trust roots *)

Context {HL : HexLaws} {HD : HexDigits}.

Lemma elem_of_trust_roots s k : k ∈ trust_roots s ↔
  ∃ key e, entries s !! key = Some e ∧ trusted e = true ∧ endpoint_id_bytes e = Some k.
Proof.
  unfold trust_roots. rewrite elem_of_list_to_set, list_elem_of_omap. split.
  - intros (e & Hin & He). apply list_elem_of_In, filter_In in Hin as [Hin Ht].
    apply list_elem_of_In, iter_elem in Hin as [key Hk]. by exists key, e.
  - intros (key & e & Hk & Ht & He). exists e. split; [| done]. apply list_elem_of_In, filter_In.
    split; [| done]. apply list_elem_of_In, iter_elem. by exists key.
Qed.
End peers.
