(* ===== verification/Tickets.v ===== *)
(** * The ticket store

    crates/portl-core/src/ticket_store.rs: tickets issued to this machine, by label; and
    store_index.rs, which looks a label up in both stores. *)

From S2P Require Import Prelude Files Peers.

Record SessionShareMetadata := {
  friendly_name : string;
  provider_session : string;
  provider : option string;
  origin_label_hint : option string;
  target_label_hint : option string;
}.

Record TicketEntry := {
  endpoint_id_hex : string;
  ticket_string : string;
  expires_at : Z;
  saved_at : Z;
  session_share : option SessionShareMetadata;
}.

#[export] Instance SessionShareMetadata_eq_dec : EqDecision SessionShareMetadata.
Proof. solve_decision. Defined.
#[export] Instance TicketEntry_eq_dec : EqDecision TicketEntry.
Proof. solve_decision. Defined.

Record TicketStore := { schema : Z; entries : gmap string TicketEntry }.

Definition CURRENT_SCHEMA : Z := 1.

Definition new : TicketStore := {| schema := CURRENT_SCHEMA; entries := ∅ |}.

Definition insert (s : TicketStore) (label : string) (e : TicketEntry) : result StoreError TicketStore :=
  match entries s !! label with
  | Some _ => Err (LabelExists label)
  | None => Ok {| schema := schema s; entries := <[label := e]> (entries s) |}
  end.

Definition remove (s : TicketStore) (label : string) : TicketStore * option TicketEntry :=
  ({| schema := schema s; entries := delete label (entries s) |}, entries s !! label).

Definition get (s : TicketStore) (label : string) : option TicketEntry := entries s !! label.

Definition prune_expired (s : TicketStore) (now : Z) : TicketStore * list string :=
  let removed := (List.filter (λ kv, expires_at kv.2 <=? now) (map_to_list (entries s))).*1 in
  ({| schema := schema s; entries := foldl (λ m l, delete l m) (entries s) removed |}, removed).

(** [Iterator::min] *)
Definition iter_min (l : list Z) : option Z :=
  match l with [] => None | x :: l' => Some (foldl Z.min x l') end.

Definition soonest_expiry (s : TicketStore) (now : Z) : option Z :=
  iter_min ((λ e, expires_at e - now) <$> List.filter (λ e, now <? expires_at e) (map_to_list (entries s)).*2).

(** store_index.rs *)
Definition label_in_use (label : string) (peers : Peers.PeerStore) (tickets : TicketStore) : option string :=
  if bool_decide (is_Some (Peers.get_by_label peers label)) then Some "peer"
  else if bool_decide (is_Some (get tickets label)) then Some "ticket"
  else None.

Section tickets.
Context {JF : JsonFile TicketStore}.

Definition load (fs : Fs) (path : string) : result StoreError TicketStore :=
  match read_file fs path with
  | None => Ok new
  | Some raw =>
      store ← ok_or (json_parse raw) ParseError;
      ensure (schema store =? CURRENT_SCHEMA) (SchemaMismatch (schema store));;
      Ok store
  end.

Definition save (s : TicketStore) (fs : Fs) (path : string) (fault : option nat) : Fs * result StoreError unit :=
  let '(fs', ok) := save_file true fs path (json_print s) fault in
  (fs', if ok then Ok tt else Err SaveFailed).

Context {JL : JsonFileLaws TicketStore}.

Lemma tickets_save_spec s fs path fault fs' r : save s fs path fault = (fs', r) → schema s = CURRENT_SCHEMA →
  match r with Ok _ => load fs' path = Ok s | Err _ => load fs' path = load fs path end.
Proof.
  unfold save. destruct (save_file _ _ _ _ _) as [fs1 ok] eqn:Hsave. intros [= <- <-] Hs.
  apply save_file_read in Hsave. unfold load. destruct ok; [| by rewrite Hsave].
  destruct Hsave as [-> [enc He]]. rewrite He, (json_print_parse _ _ He). simpl. by rewrite Hs.
Qed.

Lemma tickets_load_schema fs path s : load fs path = Ok s → schema s = CURRENT_SCHEMA.
Proof.
  unfold load. destruct (read_file fs path); [| by intros [= <-]]. intros Hl. inv_result. subst.
  by reflect_bool.
Qed.
End tickets.

Lemma foldl_delete (m : gmap string TicketEntry) (ls : list string) k :
  foldl (λ m l, delete l m) m ls !! k = if decide (k ∈ ls) then None else m !! k.
Proof.
  revert m. induction ls as [|l ls IH]; intros m; [by rewrite decide_False by set_solver |].
  cbn [foldl]. rewrite IH. destruct (decide (k = l)) as [->|Hne].
  - rewrite lookup_delete_eq. by repeat case_decide; set_solver.
  - rewrite lookup_delete_ne by done. repeat case_decide; set_solver.
Qed.

(** Pruning removes exactly the expired tickets and reports exactly them. *)
Theorem prune_expired_exact s now l :
  get (prune_expired s now).1 l
    = (e ← get s l; if expires_at e <=? now then None else Some e) ∧
  (l ∈ (prune_expired s now).2 ↔ ∃ e, get s l = Some e ∧ expires_at e ≤ now).
Proof.
  assert (l ∈ (prune_expired s now).2 ↔ ∃ e, get s l = Some e ∧ expires_at e ≤ now) as Hin.
  { unfold prune_expired. simpl. rewrite list_elem_of_fmap. split.
    - intros ([k e] & -> & Hin). apply list_elem_of_In, filter_In in Hin as [Hin He]. simpl in *. reflect_bool.
      exists e. split; [| done]. by apply elem_of_map_to_list, list_elem_of_In.
    - intros (e & He & Hle). exists (l, e). split; [done |]. apply list_elem_of_In, filter_In. simpl.
      split; [| lia]. by apply list_elem_of_In, elem_of_map_to_list. }
  split; [| done]. unfold get in *. unfold prune_expired in *. simpl in *. rewrite foldl_delete. case_decide as Hd.
  - apply Hin in Hd as (e & -> & Hle). simpl. by rewrite (proj2 (Z.leb_le _ _) Hle).
  - destruct (entries s !! l) as [e|] eqn:He; [| done]. simpl.
    destruct (Z.leb_spec (expires_at e) now); [| done]. destruct Hd. apply Hin. eauto.
Qed.
