(* ===== verification/Invites.v ===== *)
(** * Pending invites

    crates/portl-core/src/pair_store.rs: the invites of this machine that wait to be
    accepted. *)

From S2P Require Import Prelude Files Peers.

(** pair_code.rs *)
Inductive InitiatorMode := Mutual | Me | Them.

#[export] Instance InitiatorMode_eq_dec : EqDecision InitiatorMode.
Proof. solve_decision. Defined.

Record PendingInvite := {
  nonce_hex : string;
  issued_at_unix : Z;
  not_after_unix : Z;
  initiator : InitiatorMode;
  for_label_hint : option string;
}.

(** [PairStoreFile], whose [Default] has schema 0. *)
Record PairStore := { schema : Z; invites : list PendingInvite }.

#[export] Instance PendingInvite_eq_dec : EqDecision PendingInvite.
Proof. solve_decision. Defined.
#[export] Instance PairStore_eq_dec : EqDecision PairStore.
Proof. solve_decision. Defined.

Definition default_store : PairStore := {| schema := 0; invites := [] |}.

Definition with_invites (s : PairStore) (l : list PendingInvite) : PairStore :=
  {| schema := schema s; invites := l |}.

Definition is_expired (i : PendingInvite) (now : Z) : bool := not_after_unix i <=? now.

Definition has_nonce (n : string) (i : PendingInvite) : bool := eq_ignore_ascii_case (nonce_hex i) n.

Definition find_by_nonce (s : PairStore) (n : string) : option PendingInvite :=
  List.find (has_nonce n) (invites s).

Definition find_by_nonce_prefix (s : PairStore) (prefix : string) : result StoreError (option PendingInvite) :=
  let prefix := str_to_ascii_lowercase prefix in
  match List.filter (λ i, starts_with prefix (str_to_ascii_lowercase (nonce_hex i))) (invites s) with
  | [] => Ok None
  | [i] => Ok (Some i)
  | _ => Err AmbiguousPrefix
  end.

Definition insert (s : PairStore) (i : PendingInvite) : PairStore :=
  if existsb (has_nonce (nonce_hex i)) (invites s) then s
  else with_invites s (invites s ++ [i]).

Definition remove (s : PairStore) (n : string) : PairStore * bool :=
  let kept := List.filter (λ i, negb (has_nonce n i)) (invites s) in
  (with_invites s kept, negb (length (invites s) =? length kept)%nat).

Definition prune_expired (s : PairStore) (now : Z) : PairStore * Z :=
  let kept := List.filter (λ i, negb (is_expired i now)) (invites s) in
  (with_invites s kept, Z.of_nat (length (invites s)) - Z.of_nat (length kept)).

Section invites.
Context {JF : JsonFile PairStore}.

Definition load (fs : Fs) (path : string) : result StoreError PairStore :=
  match read_file fs path with
  | None => Ok default_store
  | Some raw => ok_or (json_parse raw) ParseError
  end.

(** The temporary file is written with [fs::write] and not synchronised. *)
Definition save (s : PairStore) (fs : Fs) (path : string) (fault : option nat) : Fs * result StoreError unit :=
  let '(fs', ok) := save_file false fs path (json_print s) fault in
  (fs', if ok then Ok tt else Err SaveFailed).

Context {JL : JsonFileLaws PairStore}.

Lemma invites_save_spec s fs path fault fs' r : save s fs path fault = (fs', r) →
  match r with Ok _ => load fs' path = Ok s | Err _ => load fs' path = load fs path end.
Proof.
  unfold save. destruct (save_file _ _ _ _ _) as [fs1 ok] eqn:Hsave. intros [= <- <-].
  apply save_file_read in Hsave. unfold load. destruct ok; [| by rewrite Hsave].
  destruct Hsave as [-> [enc He]]. by rewrite He, (json_print_parse _ _ He).
Qed.

(** A crash after the pending invites were saved can leave an empty file, so that the
    store no longer loads: unlike the peer store, it is renamed into place without being
    synchronised. *)
Theorem invites_lost_on_crash s fs path enc : json_print s = Some enc → fs !! tmp_of path = None →
  ∃ fs', (save s fs path None).2 = Ok tt ∧ crash (save s fs path None).1 fs' ∧ load fs' path = Err ParseError.
Proof.
  intros He Hnew. unfold save, save_file. rewrite He.
  pose proof (save_ops_done false fs path enc) as Hdone. rewrite Hnew in Hdone. simpl default in Hdone.
  set (fs1 := run_ops fs (save_ops false path enc)) in *.
  exists ((λ f, {| cached := durable f; durable := durable f |}) <$> fs1). split_and!; [done | |].
  - intros p. simpl. rewrite lookup_fmap. destruct (fs1 !! p); [| done]. simpl. by split; [| intros ->].
  - unfold load, read_file. rewrite lookup_fmap, Hdone. simpl. by rewrite json_parse_empty.
Qed.
End invites.

(** ** Nonces are unique up to case *)

Definition wf (s : PairStore) : Prop := NoDup (str_to_ascii_lowercase ∘ nonce_hex <$> invites s).

Lemma lower_str s : str_bytes (str_to_ascii_lowercase s) = to_ascii_lowercase <$> str_bytes s.
Proof.
  unfold str_to_ascii_lowercase. apply str_bytes_of_bytes, Forall_fmap. pose proof (str_bytes_range s) as Hr.
  apply (Forall_impl _ _ _ Hr). intros b. unfold u8_range, U8_MAX, to_ascii_lowercase. simpl. case_match; lia.
Qed.

Lemma has_nonce_iff n i : has_nonce n i = true ↔ str_to_ascii_lowercase (nonce_hex i) = str_to_ascii_lowercase n.
Proof.
  unfold has_nonce, eq_ignore_ascii_case. rewrite bool_decide_eq_true, <- !lower_str. split.
  - apply str_bytes_inj.
  - by intros ->.
Qed.

Lemma find_by_nonce_Some s n i : find_by_nonce s n = Some i → i ∈ invites s ∧ has_nonce n i = true.
Proof. intros [Hin Hn]%find_some. by rewrite list_elem_of_In. Qed.

Lemma find_by_nonce_None s n : find_by_nonce s n = None ↔ ∀ i, i ∈ invites s → has_nonce n i = false.
Proof.
  split.
  - intros Hf i Hi. eapply find_none; [done |]. by apply list_elem_of_In.
  - intros Hall. destruct (find_by_nonce s n) as [i|] eqn:Hf; [| done].
    apply find_by_nonce_Some in Hf as [Hi Hn]. by rewrite Hall in Hn.
Qed.

Lemma elem_of_remove s n i : i ∈ invites (remove s n).1 ↔ i ∈ invites s ∧ has_nonce n i = false.
Proof. simpl. rewrite !list_elem_of_In, filter_In, negb_true_iff. done. Qed.

Lemma find_removed s n : find_by_nonce (remove s n).1 n = None.
Proof. apply find_by_nonce_None. intros i Hi. by apply elem_of_remove in Hi as [_ ?]. Qed.

Lemma insert_wf s i : wf s → wf (insert s i).
Proof.
  unfold wf, insert. intros Hs. destruct (existsb _ _) eqn:He; [done |]. simpl. rewrite fmap_app. apply NoDup_app.
  split; [done |]. split; [| simpl; apply NoDup_singleton]. intros n Hn Hi. simpl in Hi.
  apply list_elem_of_singleton in Hi as ->. apply list_elem_of_fmap in Hn as (j & Hj & Hin). simpl in Hj.
  apply not_true_iff_false in He. apply He, existsb_exists. exists j. split; [by apply list_elem_of_In |].
  by apply has_nonce_iff.
Qed.

Lemma filter_wf s (P : PendingInvite → bool) : wf s → wf (with_invites s (List.filter P (invites s))).
Proof.
  unfold wf. simpl. induction (invites s) as [|i l IH]; simpl; [done |]. intros [Hi Hl]%NoDup_cons.
  destruct (P i); simpl; [| by apply IH]. apply NoDup_cons. split; [| by apply IH].
  intros Hin. apply Hi. apply list_elem_of_fmap in Hin as (j & Hj & Hin%list_elem_of_In).
  apply filter_In in Hin as [Hin _]. apply list_elem_of_fmap. exists j. by rewrite list_elem_of_In.
Qed.
