(* ===== verification/InviteCode.v ===== *)
(** * Invite codes

    crates/portl-core/src/pair_code.rs: what an invite says, and its text form.  The
    base32 crate is a parameter. *)

From S2P Require Import Prelude Bytes Revocations Files Labels Peers Invites.

(** ** The base32 crate, RFC 4648 without padding *)

Class Base32 := { base32_encode : bytes → string; base32_decode : string → option bytes }.

Class Base32Laws `{Base32} : Prop := {
  base32_roundtrip l : Forall u8_range l → base32_decode (base32_encode l) = Some l;
  (** The output has letters and digits only. *)
  base32_chars l : Forall (λ b, is_ascii_alphanumeric b = true) (str_bytes (base32_encode l));
}.

(** ** Relationships *)

Definition to_wire_byte (m : InitiatorMode) : Z :=
  match m with Mutual => 0 | Me => 1 | Them => 2 end.

Definition from_wire_byte (b : Z) : result string InitiatorMode :=
  if b =? 0 then Ok Mutual
  else if b =? 1 then Ok Me
  else if b =? 2 then Ok Them
  else Err "reserved initiator byte".

Record PairRelationship := {
  inviter_accepts_from_acceptor : bool;
  acceptor_accepts_from_inviter : bool;
}.

Definition mode_relationship (m : InitiatorMode) : PairRelationship :=
  match m with
  | Mutual => {| inviter_accepts_from_acceptor := true; acceptor_accepts_from_inviter := true |}
  | Me => {| inviter_accepts_from_acceptor := false; acceptor_accepts_from_inviter := true |}
  | Them => {| inviter_accepts_from_acceptor := true; acceptor_accepts_from_inviter := false |}
  end.

(** The flags [(accepts_from_them, they_accept_from_me)] of each side. *)
Definition inviter_peer_flags (r : PairRelationship) : bool * bool :=
  (inviter_accepts_from_acceptor r, acceptor_accepts_from_inviter r).
Definition acceptor_peer_flags (r : PairRelationship) : bool * bool :=
  (acceptor_accepts_from_inviter r, inviter_accepts_from_acceptor r).

(** ** Codes *)

Definition INVITE_PREFIX : string := "PORTLINV-".
Definition INVITE_VERSION : Z := 1.
Definition MAX_RELAY_HINT_LEN : Z := 255.

Record InviteCode := {
  version : Z;
  inviter_eid : bytes;
  nonce : bytes;
  code_not_after : Z;
  code_initiator : InitiatorMode;
  code_relay_hint : option string;
}.

Definition invite_new (eid n : bytes) (not_after : Z) (m : InitiatorMode) (hint : option string) : InviteCode :=
  {| version := INVITE_VERSION; inviter_eid := eid; nonce := n; code_not_after := not_after;
     code_initiator := m; code_relay_hint := hint |}.

Section codes.
Context {B32 : Base32}.

Definition code_bytes (c : InviteCode) : bytes :=
  let hint := default "" (code_relay_hint c) in
  [version c] ++ inviter_eid c ++ nonce c ++ le_encode 8 (code_not_after c) ++
  [to_wire_byte (code_initiator c); Z.of_nat (String.length hint)] ++ str_bytes hint.

Definition encode (c : InviteCode) : result string string :=
  ensure (Z.of_nat (String.length (default "" (code_relay_hint c))) <=? MAX_RELAY_HINT_LEN)
    "relay hint length exceeds cap";;
  Ok (INVITE_PREFIX +:+ base32_encode (code_bytes c)).

(** [&bytes[from..to]] *)
Definition slice (from to : nat) (l : bytes) : bytes := take (to - from) (drop from l).

Definition decode_hint (l : bytes) (hint_len : nat) : result string (option string) :=
  if decide (hint_len = 0%nat) then Ok None
  else
    let h := slice 59 (59 + hint_len) l in
    ensure (is_utf8 h) "relay hint is not valid UTF-8";;
    Ok (Some (str_of_bytes h)).

Definition decode (s : string) : result string InviteCode :=
  body ← ok_or (strip_prefix INVITE_PREFIX (trim s)) "invite codes must start with PORTLINV-";
  l ← ok_or (base32_decode body) "invite body is not valid base32";
  ensure (59 <=? length l)%nat "invite code too short";;
  ensure (nth 0 l 0 =? INVITE_VERSION) "unsupported invite version";;
  m ← from_wire_byte (nth 57 l 0);
  let hint_len := Z.to_nat (nth 58 l 0) in
  ensure (59 + hint_len <=? length l)%nat "invite code truncated";;
  hint ← decode_hint l hint_len;
  Ok {| version := nth 0 l 0; inviter_eid := slice 1 33 l; nonce := slice 33 49 l;
        code_not_after := le_decode (slice 49 57 l); code_initiator := m; code_relay_hint := hint |}.

(** ** Codes round trip *)

(** The values the Rust types allow, with the version of this build. *)
Record wf (c : InviteCode) : Prop := {
  wf_version : version c = INVITE_VERSION;
  wf_eid : length (inviter_eid c) = 32%nat ∧ Forall u8_range (inviter_eid c);
  wf_nonce : length (nonce c) = 16%nat ∧ Forall u8_range (nonce c);
  wf_time : u64_range (code_not_after c);
  wf_hint h : code_relay_hint c = Some h → is_utf8 (str_bytes h) = true;
}.

Lemma slice_app from to l1 l2 l3 : length l1 = from → length l2 = (to - from)%nat →
  slice from to (l1 ++ l2 ++ l3) = l2.
Proof. intros <- H. unfold slice. rewrite drop_app_length, <- H. by rewrite take_app_length. Qed.

Lemma from_to_wire_byte m : from_wire_byte (to_wire_byte m) = Ok m.
Proof. by destruct m. Qed.

Context {B32L : Base32Laws}.

Lemma trim_code l : trim (INVITE_PREFIX +:+ base32_encode l) = INVITE_PREFIX +:+ base32_encode l.
Proof.
  unfold trim. rewrite trim_visible; [apply str_of_bytes_str |]. rewrite str_bytes_app. apply Forall_app.
  split; [by repeat constructor |]. pose proof (base32_chars l) as Hc. apply (Forall_impl _ _ _ Hc).
  intros b. unfold is_visible, is_ascii_alphanumeric, is_ascii_digit. lia.
Qed.

Lemma code_bytes_range c : wf c → (String.length (default "" (code_relay_hint c)) ≤ 255)%nat →
  Forall u8_range (code_bytes c).
Proof.
  intros [Hv He Hn Ht _] Hlen. unfold code_bytes. rewrite !Forall_app. unfold u8_range, U8_MAX in *.
  split_and!; [| tauto | tauto | apply le_encode_range | | apply str_bytes_range].
  - constructor; [rewrite Hv; unfold INVITE_VERSION; lia | constructor].
  - constructor; [destruct (code_initiator c); simpl; lia |]. constructor; [lia | constructor].
Qed.

Lemma nth_mid (l1 l2 : bytes) x n : length l1 = n → nth n (l1 ++ x :: l2) 0 = x.
Proof. intros <-. by rewrite nth_middle. Qed.

(** The fields of a code are where [decode] looks for them. *)
Lemma code_fields c : wf c →
  let l := code_bytes c in
  let h := str_bytes (default "" (code_relay_hint c)) in
  length l = (59 + length h)%nat ∧ nth 0 l 0 = version c ∧ slice 1 33 l = inviter_eid c ∧
  slice 33 49 l = nonce c ∧ slice 49 57 l = le_encode 8 (code_not_after c) ∧
  nth 57 l 0 = to_wire_byte (code_initiator c) ∧ nth 58 l 0 = Z.of_nat (length h) ∧
  slice 59 (59 + length h) l = h.
Proof.
  intros [_ [He _] [Hn _] _ _]. unfold code_bytes. rewrite <- str_bytes_length.
  set (h := str_bytes (default "" (code_relay_hint c))). pose proof (le_encode_length 8 (code_not_after c)) as Ht.
  set (t := le_encode 8 _) in *. set (m := to_wire_byte _). split_and!.
  - rewrite !length_app. simpl. lia.
  - done.
  - by apply (slice_app 1 33 [version c]).
  - rewrite app_assoc. apply slice_app; rewrite ?length_app; simpl; lia.
  - rewrite app_assoc, app_assoc. apply slice_app; rewrite ?length_app; simpl; lia.
  - rewrite app_assoc, app_assoc, app_assoc. apply (nth_mid _ (Z.of_nat (length h) :: h)). rewrite !length_app. simpl. lia.
  - change ([m; Z.of_nat (length h)] ++ h) with ([m] ++ Z.of_nat (length h) :: h).
    rewrite app_assoc, app_assoc, app_assoc, app_assoc. apply nth_mid. rewrite !length_app. simpl. lia.
  - rewrite app_assoc, app_assoc, app_assoc, app_assoc. set (pre := (_ ++ [m; _])).
    pose proof (slice_app 59 (59 + length h) pre h []) as Hslice. rewrite app_nil_r in Hslice.
    apply Hslice; subst pre; rewrite ?length_app; simpl; lia.
Qed.

(** An invite code decodes to the invite it was made from, unless the invite has an
    empty relay hint, which comes back as no hint; a code is made for every hint of at
    most 255 bytes. *)
Theorem invite_code_roundtrip c : wf c →
  (String.length (default "" (code_relay_hint c)) ≤ 255)%nat → code_relay_hint c ≠ Some "" →
  ∃ s, encode c = Ok s ∧ decode s = Ok c.
Proof.
  intros Hwf Hlen Hhint. exists (INVITE_PREFIX +:+ base32_encode (code_bytes c)).
  unfold encode, decode. rewrite trim_code.
  replace (strip_prefix INVITE_PREFIX _) with (Some (base32_encode (code_bytes c)))
    by (symmetry; by apply strip_prefix_spec).
  rewrite (proj2 (Z.leb_le _ _)) by (unfold MAX_RELAY_HINT_LEN; lia). split; [done |].
  cbn [ok_or mbind result_bind]. rewrite base32_roundtrip by by apply code_bytes_range.
  destruct (code_fields c Hwf) as (Hl & Hv & He & Hn & Ht & Hm & Hh & Hs).
  set (l := code_bytes c) in *. set (h := str_bytes (default "" (code_relay_hint c))) in *.
  cbn [ok_or mbind result_bind]. rewrite Hl, Hv, He, Hn, Ht, Hm, Hh, Nat2Z.id, from_to_wire_byte, le_decode_encode
    by (destruct Hwf as [_ _ _ Ht' _]; unfold u64_range, U64_MAX in Ht'; lia).
  rewrite (proj2 (Nat.leb_le 59 _)), (proj2 (Nat.leb_le _ _)) by lia. rewrite (wf_version _ Hwf).
  cbn [mbind result_bind ensure INVITE_VERSION Z.eqb Pos.eqb]. replace (decode_hint l (length h)) with
    (Ok (E := string) (code_relay_hint c)); [by destruct c; simpl in *; rewrite <- (wf_version _ Hwf) |].
  unfold decode_hint. rewrite Hs. subst h. destruct (code_relay_hint c) as [r|] eqn:Hr; simpl in *.
  - rewrite (wf_hint _ Hwf r Hr), str_of_bytes_str. rewrite decide_False; [done |]. by destruct r.
  - done.
Qed.
End codes.
