(* ===== verification/HexDemo.v ===== *)
(** * A concrete hex codec

    Used to instantiate the parameters [Hex] and [Base32] in witnesses. *)

From S2P Require Import Prelude Bytes Revocations Files Labels Peers Invites InviteCode.

Module HexDemo.

Fixpoint digits (l : bytes) : bytes :=
  match l with
  | [] => []
  | b :: l' => hex_digit ((b `div` 16) `mod` 16) :: hex_digit (b `mod` 16) :: digits l'
  end.

Fixpoint undigits (l : bytes) : option bytes :=
  match l with
  | [] => Some []
  | [_] => None
  | a :: b :: l' =>
      match hex_value a, hex_value b, undigits l' with
      | Some x, Some y, Some r => Some (16 * x + y :: r)
      | _, _, _ => None
      end
  end.

Definition hex_str (l : bytes) : string := str_of_bytes (digits l).
Definition unhex_str (s : string) : option bytes := undigits (str_bytes s).

Lemma hex_digit_spec n : 0 ≤ n < 16 → is_label_char (hex_digit n) = true ∧ hex_value (hex_digit n) = Some n ∧ u8_range (hex_digit n).
Proof.
  intros Hn. unfold hex_digit, hex_value, is_label_char, is_ascii_digit, in_range, u8_range, U8_MAX.
  destruct (Z.ltb_spec n 10); (split_and!; [lia | | lia | lia]); repeat case_match; try lia; f_equal; lia.
Qed.

Lemma hex_value_spec b n : hex_value b = Some n → 0 ≤ n < 16 ∧ to_ascii_lowercase b = hex_digit n.
Proof.
  unfold hex_value, in_range, to_ascii_lowercase, hex_digit. intros H.
  repeat case_match; simplify_eq; reflect_bool; lia.
Qed.

Lemma digits_chars l : Forall (λ b, is_label_char b = true) (digits l) ∧ Forall u8_range (digits l).
Proof.
  induction l as [|b l [IH1 IH2]]; simpl; [done |].
  pose proof (hex_digit_spec ((b `div` 16) `mod` 16)) as H1. pose proof (hex_digit_spec (b `mod` 16)) as H2.
  pose proof (Z.mod_pos_bound (b `div` 16) 16). pose proof (Z.mod_pos_bound b 16).
  destruct H1 as (? & _ & ?); [lia |]. destruct H2 as (? & _ & ?); [lia |]. split; repeat (constructor; [done |]); done.
Qed.

Lemma hex_str_bytes l : str_bytes (hex_str l) = digits l.
Proof. apply str_bytes_of_bytes, digits_chars. Qed.

Lemma undigits_digits l : Forall u8_range l → undigits (digits l) = Some l.
Proof.
  induction 1 as [|b l Hb _ IH]; [done |]. unfold u8_range, U8_MAX in Hb. simpl. rewrite IH.
  pose proof (Z.mod_pos_bound b 16). pose proof (Z.div_mod b 16).
  rewrite (Z.mod_small (b `div` 16)); [| split; [apply Z.div_pos; lia | apply Z.div_lt_upper_bound; lia]].
  destruct (hex_digit_spec (b `div` 16)) as (_ & -> & _); [split; [apply Z.div_pos; lia | apply Z.div_lt_upper_bound; lia] |].
  destruct (hex_digit_spec (b `mod` 16)) as (_ & -> & _); [lia |]. do 2 f_equal. lia.
Qed.

Lemma undigits_case l bs : undigits l = Some bs → to_ascii_lowercase <$> l = digits bs.
Proof.
  revert bs. induction l as [l IH] using (well_founded_induction (well_founded_ltof _ length)). unfold ltof in IH.
  intros bs. destruct l as [|a [|b l]]; cbn [undigits]; [by intros [= <-] | done |].
  destruct (hex_value a) as [x|] eqn:Ha; [| done]. destruct (hex_value b) as [y|] eqn:Hb; [| done].
  destruct (undigits l) as [r|] eqn:Hr; [| done]. intros [= <-]. rewrite !fmap_cons. cbn [digits].
  apply hex_value_spec in Ha as [? ->], Hb as [? ->]. rewrite (IH l) with (bs := r); [| simpl; lia | done].
  rewrite (Z.mul_comm 16 x), Z.div_add_l, (Z.div_small y), Z.add_0_r, (Z.mod_small x) by lia.
  by rewrite Z.add_comm, Z.mod_add, (Z.mod_small y) by lia.
Qed.

Lemma digits_length l : length (digits l) = (2 * length l)%nat.
Proof. induction l; simpl; [done | lia]. Qed.

#[export] Instance hex : Hex := {| hex_encode := hex_str; hex_decode := unhex_str |}.
#[export] Instance hex_laws : HexLaws.
Proof. split. intros bs Hbs. simpl. unfold unhex_str. by rewrite hex_str_bytes, undigits_digits. Qed.
#[export] Instance hex_digits : HexDigits.
Proof.
  split; simpl.
  - intros bs. rewrite hex_str_bytes. apply digits_chars.
  - intros bs. by rewrite hex_str_bytes, digits_length.
  - intros s bs Hs. apply undigits_case in Hs. unfold str_to_ascii_lowercase, hex_str. by rewrite Hs.
Qed.

#[export] Instance b32 : Base32 := {| base32_encode := hex_str; base32_decode := unhex_str |}.
#[export] Instance b32_laws : Base32Laws.
Proof.
  split; simpl.
  - intros l Hl. unfold unhex_str. by rewrite hex_str_bytes, undigits_digits.
  - intros l. rewrite hex_str_bytes. destruct (digits_chars l) as [Hl _]. apply (Forall_impl _ _ _ Hl).
    intros b. unfold is_label_char, is_ascii_alphanumeric, is_ascii_digit. intros. lia.
Qed.

(** ** Witness *)

Definition code1 : InviteCode :=
  invite_new (replicate 32 7) (replicate 16 9) 4000 Them (Some "https://relay.example/").

Lemma invite_code_roundtrip_witness : ∃ s, encode code1 = Ok s ∧ decode s = Ok code1.
Proof.
  apply (invite_code_roundtrip code1); [| vm_compute; lia | done].
  split; [done | | | |]; vm_compute.
  - split; [done |]. repeat constructor; done.
  - split; [done |]. repeat constructor; done.
  - split; done.
  - by intros h [= <-].
Defined.

End HexDemo.
