(* ===== verification/Pairing.v ===== *)
(** * Pairing

    crates/portl-agent/src/pair_handler.rs answers a request to pair, and
    crates/portl-core/src/pair_accept.rs records the inviter on the caller's side; the
    types of crates/portl-proto/src/pair_v1.rs.  [handle_pair] reads both stores and then
    writes them, so it is the composition of [plan_pair] and [commit_pair], which is what
    two concurrent requests interleave: no lock is held. *)

From stdpp Require Import pretty.
From S2P Require Import Prelude Revocations Labels Files Peers Invites InviteCode.

Record PairRequest := {
  req_version : Z;
  req_nonce : bytes;
  req_initiator : InitiatorMode;
  caller_relay_hint : option string;
  caller_label : option string;
}.

Inductive PairResult :=
  | PairOk
  | NonceExpired
  | NonceUnknown
  | AlreadyPaired (existing_label : string)
  | PolicyRejected (message : string).

Record PairResponse := {
  resp_version : Z;
  result_of : PairResult;
  responder_relay_hint : option string;
  responder_chosen_label : option string;
  responder_self_label : option string;
}.

(** The parts of the agent's state that a request reads. *)
Record RelayStatus := {
  enabled : bool;
  hostname : option string;
  https_addr : option string;
  http_addr : option string;
}.

Record PairEnv := {
  peers_path : option string;
  default_peers_path : string;
  pending_invites_path : string;
  relays : list string;
  relay_status : RelayStatus;
  local_hostname : option string;
}.

(** ** Labels *)

Definition peer_label_in_use (peers : PeerStore) (l : string) : bool :=
  existsb (λ e, bool_decide (label e = l)) (iter peers).

(** [s.rsplit_once('-')], the part before the last dash *)
Fixpoint after_dash (l : bytes) : option bytes :=
  match l with
  | [] => None
  | b :: l' => if b =? DASH then Some l' else after_dash l'
  end.

Definition rsplit_dash (s : string) : option string :=
  str_of_bytes ∘ @rev Z <$> after_dash (rev (str_bytes s)).

Definition extend_machine_label_until_unique (peers : PeerStore) (candidate eid_hex : string) : string :=
  match rsplit_dash candidate with
  | None => candidate +:+ "-" +:+ endpoint_suffix eid_hex 6
  | Some base =>
      default candidate
        (List.find (λ l, negb (peer_label_in_use peers l))
          ((λ len, base +:+ "-" +:+ endpoint_suffix eid_hex len) <$> [6; 8; 12; 16; 64]%nat))
  end.

Definition option_or {A} (a b : option A) : option A := match a with Some _ => a | None => b end.

Definition choose_label (peers : PeerStore) (caller_label for_label_hint : option string)
    (caller_eid_hex : string) : string :=
  let candidate := machine_label_from_hint (option_or for_label_hint caller_label) caller_eid_hex in
  if negb (peer_label_in_use peers candidate) then candidate
  else extend_machine_label_until_unique peers candidate caller_eid_hex.

Definition relay_hint_for_response (env : PairEnv) : option string :=
  option_or (head (relays env))
    (let st := relay_status env in
     if negb (enabled st) then None
     else option_or ((λ h, "https://" +:+ h +:+ "/") <$> hostname st)
            (option_or ((λ a, "https://" +:+ a +:+ "/") <$> https_addr st)
               ((λ a, "http://" +:+ a +:+ "/") <$> http_addr st))).

Section pairing.
Context {HX : Hex} {JP : JsonFile PeerStore} {JI : JsonFile PairStore}.

Definition peers_file (env : PairEnv) : string := default (default_peers_path env) (peers_path env).

Definition self_label (env : PairEnv) (fs : Fs) : option string :=
  path ← peers_path env;
  match Peers.load fs path with
  | Err _ => None
  | Ok store => e ← List.find is_self (iter store); Some (machine_label (local_hostname env) (endpoint_id_hex e))
  end.

Definition reply (env : PairEnv) (fs : Fs) (r : PairResult) (chosen : option string) : PairResponse :=
  {| resp_version := 1; result_of := r; responder_relay_hint := relay_hint_for_response env;
     responder_chosen_label := chosen; responder_self_label := self_label env fs |}.

(** The entry the inviter files for the caller. *)
Definition paired_entry (l eid_hex : string) (flags : bool * bool) (now : Z) (hint : option string) : PeerEntry :=
  {| label := l; endpoint_id_hex := eid_hex; accepts_from_them := flags.1; they_accept_from_me := flags.2;
     since := now; origin := Paired; last_hold_at := None; is_self := false; relay_hint := hint;
     schema_version := 2 |}.

(** What a request is going to do, from what it has read. *)
Inductive Plan :=
  | Refuse (r : PairResult) (bare : bool)
  | Fail (e : StoreError)
  | Consume (existing_label : string) (invites : PairStore)
  | Grant (chosen : string) (peers : PeerStore) (invites : PairStore).

Definition plan_pair (env : PairEnv) (fs : Fs) (caller_eid : bytes) (req : PairRequest) (now : Z) : Plan :=
  if negb (req_version req =? 1) then
    Refuse (PolicyRejected ("unsupported pair protocol version " +:+ pretty (req_version req))) true
  else match Invites.load fs (pending_invites_path env) with
  | Err e => Fail e
  | Ok pair_store =>
    let n := hex_encode (req_nonce req) in
    match find_by_nonce pair_store n with
    | None => Refuse NonceUnknown false
    | Some invite =>
      if is_expired invite now then Refuse NonceExpired false
      else if negb (bool_decide (req_initiator req = initiator invite)) then
        Refuse (PolicyRejected "invite initiator mismatch") false
      else match Peers.load fs (peers_file env) with
      | Err e => Fail e
      | Ok peers =>
        let caller_hex := hex_encode caller_eid in
        match List.find (λ e, bool_decide (endpoint_id_hex e = caller_hex)) (iter peers) with
        | Some existing => Consume (label existing) (Invites.remove pair_store n).1
        | None =>
          let chosen := choose_label peers (caller_label req) (for_label_hint invite) caller_hex in
          match insert_or_update peers
                  (paired_entry chosen caller_hex (inviter_peer_flags (mode_relationship (initiator invite)))
                     now (caller_relay_hint req)) with
          | Err e => Fail e
          | Ok peers' => Grant chosen peers' (Invites.remove pair_store n).1
          end
        end
      end
    end
  end.

Definition commit_pair (env : PairEnv) (fs : Fs) (p : Plan) (peers_fault invites_fault : option nat)
    : Fs * result StoreError PairResponse :=
  match p with
  | Refuse r true => (fs, Ok {| resp_version := 1; result_of := r; responder_relay_hint := None;
                               responder_chosen_label := None; responder_self_label := None |})
  | Refuse r false => (fs, Ok (reply env fs r None))
  | Fail e => (fs, Err e)
  | Consume l invites =>
      let fs1 := (Invites.save invites fs (pending_invites_path env) invites_fault).1 in
      (fs1, Ok (reply env fs1 (AlreadyPaired l) (Some l)))
  | Grant l peers invites =>
      match Peers.save peers fs (peers_file env) peers_fault with
      | (fs1, Err e) => (fs1, Err e)
      | (fs1, Ok _) =>
          match Invites.save invites fs1 (pending_invites_path env) invites_fault with
          | (fs2, Err e) => (fs2, Err e)
          | (fs2, Ok _) => (fs2, Ok (reply env fs2 PairOk (Some l)))
          end
      end
  end.

Definition handle_pair (env : PairEnv) (fs : Fs) (caller_eid : bytes) (req : PairRequest) (now : Z)
    (peers_fault invites_fault : option nat) : Fs * result StoreError PairResponse :=
  commit_pair env fs (plan_pair env fs caller_eid req now) peers_fault invites_fault.

(** ** The caller's side *)

Record AcceptedPeer := { accepted_label : string; accepted_eid_hex : string; accepted_relationship : string }.

Definition choose_local_label (peers : PeerStore) (self : option string) (inviter_hex : string) : string :=
  let candidate := default (str_take 8 inviter_hex) self in
  if negb (peer_label_in_use peers candidate) then candidate
  else candidate +:+ "-" +:+ str_take 4 inviter_hex.

Definition acceptor_relationship_sentence (self : option string) (c : InviteCode) : string :=
  let l := default "peer" self in
  match code_initiator c with
  | Mutual => l +:+ " and you can reach each other."
  | Me => l +:+ " can reach you; you cannot reach " +:+ l +:+ "."
  | Them => "you can reach " +:+ l +:+ "; " +:+ l +:+ " cannot reach you."
  end.

Definition save_accepted_peer (c : InviteCode) (self hint : option string) (now : Z) (fs : Fs) (path : string)
    (fault : option nat) : Fs * result StoreError AcceptedPeer :=
  let inviter_hex := hex_encode (inviter_eid c) in
  match Peers.load fs path with
  | Err e => (fs, Err e)
  | Ok peers =>
      let l := choose_local_label peers self inviter_hex in
      match insert_or_update peers
              (paired_entry l inviter_hex (acceptor_peer_flags (mode_relationship (code_initiator c))) now hint) with
      | Err e => (fs, Err e)
      | Ok peers' =>
          match Peers.save peers' fs path fault with
          | (fs1, Err e) => (fs1, Err e)
          | (fs1, Ok _) => (fs1, Ok {| accepted_label := l; accepted_eid_hex := inviter_hex;
                                      accepted_relationship := acceptor_relationship_sentence self c |})
          end
      end
  end.

(** portl-cli/src/commands/peer/pair.rs, [apply_response]: whether the command succeeds. *)
Definition apply_response (c : InviteCode) (r : PairResponse) (now : Z) (fs : Fs) (path : string)
    (fault : option nat) : Fs * result StoreError bool :=
  match result_of r with
  | PairOk =>
      let '(fs1, res) := save_accepted_peer c (responder_self_label r) (responder_relay_hint r) now fs path fault in
      (fs1, _ ← res; Ok true)
  | _ => (fs, Ok false)
  end.

(** ** Reading the stores through the files *)

Context {HL : HexLaws} {HD : HexDigits} {JPL : JsonFileLaws PeerStore} {JIL : JsonFileLaws PairStore}.
Context (env : PairEnv).

Definition peers_of (fs : Fs) : result StoreError PeerStore := Peers.load fs (peers_file env).
Definition invites_of (fs : Fs) : result StoreError PairStore := Invites.load fs (pending_invites_path env).

(** The two files and their temporary files are different files. *)
Record paths_ok : Prop := {
  paths_differ : peers_file env ≠ pending_invites_path env;
  peers_not_tmp : peers_file env ≠ tmp_of (pending_invites_path env);
  invites_not_tmp : pending_invites_path env ≠ tmp_of (peers_file env);
}.

Context (Hpaths : paths_ok).

Lemma save_peers_invites p fs fault : invites_of (Peers.save p fs (peers_file env) fault).1 = invites_of fs.
Proof.
  unfold Peers.save, invites_of, Invites.load, read_file.
  pose proof (save_file_frame true fs (peers_file env) (json_print p) fault (pending_invites_path env)) as Hf.
  destruct (save_file _ _ _ _ _) as [fs1 ok]. simpl in *.
  by rewrite Hf; [| intros H; by apply (paths_differ Hpaths) | apply (invites_not_tmp Hpaths)].
Qed.

Lemma save_invites_peers i fs fault : peers_of (Invites.save i fs (pending_invites_path env) fault).1 = peers_of fs.
Proof.
  unfold Invites.save, peers_of, Peers.load, read_file.
  pose proof (save_file_frame false fs (pending_invites_path env) (json_print i) fault (peers_file env)) as Hf.
  destruct (save_file _ _ _ _ _) as [fs1 ok]. simpl in *.
  by rewrite Hf; [| apply (paths_differ Hpaths) | apply (peers_not_tmp Hpaths)].
Qed.

Lemma commit_grant fs l p i fp fi fs' r : Peers.schema p = CURRENT_SCHEMA →
  commit_pair env fs (Grant l p i) fp fi = (fs', r) →
  match r with
  | Ok resp => peers_of fs' = Ok p ∧ invites_of fs' = Ok i ∧ result_of resp = PairOk
  | Err _ => invites_of fs' = invites_of fs ∧ (peers_of fs' = peers_of fs ∨ peers_of fs' = Ok p)
  end.
Proof.
  intros Hs. simpl. destruct (Peers.save _ _ _ _) as [fs1 rp] eqn:Hp.
  pose proof (save_peers_invites p fs fp) as Hi. rewrite Hp in Hi. simpl in Hi.
  apply peers_save_spec in Hp; [| done]. destruct rp as [[]|e]; [| intros [= <- <-]; by auto].
  destruct (Invites.save _ _ _ _) as [fs2 ri] eqn:Hv.
  pose proof (save_invites_peers i fs1 fi) as Hq. rewrite Hv in Hq. simpl in Hq. apply invites_save_spec in Hv.
  destruct ri as [[]|e]; intros [= <- <-].
  - split_and!; [by rewrite Hq | done | done].
  - split; [unfold invites_of in *; congruence | right; by rewrite Hq].
Qed.

Lemma commit_consume fs l i fi fs' r : commit_pair env fs (Consume l i) None fi = (fs', r) →
  peers_of fs' = peers_of fs ∧ (invites_of fs' = Ok i ∨ invites_of fs' = invites_of fs) ∧
  ∃ resp, r = Ok resp ∧ result_of resp = AlreadyPaired l.
Proof.
  simpl. destruct (Invites.save _ _ _ _) as [fs1 ri] eqn:Hv.
  pose proof (save_invites_peers i fs fi) as Hq. rewrite Hv in Hq. simpl in *. apply invites_save_spec in Hv.
  intros [= <- <-]. split_and!; [done | destruct ri; auto | by eexists].
Qed.

(** An invite that admits a request. *)
Record admits (fs : Fs) (req : PairRequest) (now : Z) (store : PairStore) (invite : PendingInvite) : Prop := {
  adm_version : req_version req = 1;
  adm_store : invites_of fs = Ok store;
  adm_found : find_by_nonce store (hex_encode (req_nonce req)) = Some invite;
  adm_live : now < not_after_unix invite;
  adm_mode : req_initiator req = initiator invite;
}.

(** The entry the inviter makes for a caller. *)
Definition caller_entry (peers : PeerStore) (caller : bytes) (req : PairRequest) (now : Z) (invite : PendingInvite)
    : PeerEntry :=
  paired_entry (choose_label peers (caller_label req) (for_label_hint invite) (hex_encode caller))
    (hex_encode caller) (inviter_peer_flags (mode_relationship (initiator invite))) now (caller_relay_hint req).

Lemma find_caller peers hex : Peers.wf peers →
  match List.find (λ e, bool_decide (endpoint_id_hex e = hex)) (iter peers) with
  | Some e => entries peers !! hex = Some e
  | None => entries peers !! hex = None
  end.
Proof.
  intros [_ Hk _]. destruct (List.find _ _) as [e|] eqn:Hf.
  - apply find_some in Hf as [Hin He]. reflect_bool. apply list_elem_of_In, iter_elem in Hin as [k He'].
    by rewrite <- He, (Hk _ _ He').
  - destruct (entries peers !! hex) as [e|] eqn:He; [| done]. eapply find_none in Hf.
    + rewrite bool_decide_eq_true_2 in Hf; [done | by eapply Hk].
    + apply list_elem_of_In, iter_elem. eauto.
Qed.

(** What a plan that changes a store rests on. *)
Lemma plan_cases fs caller req now peers : peers_of fs = Ok peers → Peers.wf peers →
  match plan_pair env fs caller req now with
  | Refuse _ _ | Fail _ => True
  | Consume l i => ∃ store invite e, admits fs req now store invite ∧
      entries peers !! hex_encode caller = Some e ∧ l = label e ∧
      i = (Invites.remove store (hex_encode (req_nonce req))).1
  | Grant l p i => ∃ store invite, admits fs req now store invite ∧
      entries peers !! hex_encode caller = None ∧
      insert_or_update peers (caller_entry peers caller req now invite) = Ok p ∧
      i = (Invites.remove store (hex_encode (req_nonce req))).1
  end.
Proof.
  intros Hp Hwf. unfold plan_pair, peers_of in *. fold (invites_of fs).
  destruct (req_version req =? 1) eqn:Hver; simpl; [| done]. destruct (invites_of fs) as [store|] eqn:Hs; [| done].
  destruct (find_by_nonce _ _) as [invite|] eqn:Hf; [| done]. destruct (is_expired invite now) eqn:He; [done |].
  destruct (bool_decide _) eqn:Hm; simpl; [| done]. rewrite Hp.
  assert (admits fs req now store invite) as Hadm.
  { unfold is_expired in He. reflect_bool. split; [done | by rewrite Hs | done | lia | done]. }
  pose proof (find_caller peers (hex_encode caller) Hwf) as Hc. destruct (List.find _ _) as [e|].
  - by exists store, invite, e.
  - destruct (insert_or_update _ _) as [p|] eqn:Hi; [| done]. by exists store, invite.
Qed.

Lemma insert_schema p e p' : insert_or_update p e = Ok p' → Peers.schema p' = Peers.schema p.
Proof. by intros [_ ->]%insert_or_update_Ok. Qed.

Lemma handle_pair_peers fs caller req now fp fi fs' r peers : peers_of fs = Ok peers → Peers.wf peers →
  handle_pair env fs caller req now fp fi = (fs', r) →
  peers_of fs' = Ok peers ∨
  ∃ store invite peers', admits fs req now store invite ∧ entries peers !! hex_encode caller = None ∧
    insert_or_update peers (caller_entry peers caller req now invite) = Ok peers' ∧ peers_of fs' = Ok peers'.
Proof.
  intros Hp Hwf. unfold handle_pair. pose proof (plan_cases fs caller req now peers Hp Hwf) as Hplan.
  destruct (plan_pair env fs caller req now) as [res [] | e | l i | l p i]; intros Hc.
  - injection Hc as <- <-. by left.
  - injection Hc as <- <-. by left.
  - injection Hc as <- <-. by left.
  - apply commit_consume in Hc as (Hq & _ & _). left. by rewrite Hq.
  - destruct Hplan as (store & invite & Hadm & Hn & Hi & _). apply commit_grant in Hc.
    2:{ rewrite (insert_schema _ _ _ Hi). apply (wf_schema _ Hwf). }
    destruct r as [resp|e].
    + right. exists store, invite, p. tauto.
    + destruct Hc as [_ [Hq|Hq]]; [left; by rewrite Hq | right; exists store, invite, p; tauto].
Qed.

Lemma trust_roots_insert peers e peers' caller : insert_or_update peers e = Ok peers' →
  endpoint_id_hex e = hex_encode caller → length caller = 32%nat → Forall u8_range caller →
  entries peers !! hex_encode caller = None →
  trust_roots peers' = (if trusted e then {[caller]} else ∅) ∪ trust_roots peers.
Proof.
  intros [_ ->]%insert_or_update_Ok Hhex Hlen Hr Hn. rewrite Hhex.
  assert (endpoint_id_bytes e = Some caller) as Hid.
  { unfold endpoint_id_bytes. rewrite Hhex, hex_roundtrip by done. simpl. by rewrite decide_True. }
  apply set_eq. intros k. rewrite elem_of_union, !elem_of_trust_roots. simpl. split.
  - intros (key & e' & Hk & Ht & Hd). apply lookup_insert_Some in Hk as [[<- <-]|[_ Hk]].
    + left. rewrite Ht. rewrite Hid in Hd. set_solver.
    + right. eauto.
  - intros [Hk|(key & e' & Hk & Ht & Hd)].
    + destruct (trusted e) eqn:Ht; [| set_solver]. apply elem_of_singleton in Hk as ->.
      exists (hex_encode caller), e. by rewrite lookup_insert_eq.
    + exists key, e'. rewrite lookup_insert_ne; [done |]. by intros <-; rewrite Hn in Hk.
Qed.

(** C6: a request to pair changes the peer store only by adding the caller, who was not in
    it, and only when an invite with the nonce of the request is on file, has not expired
    and says the same relationship as the request; the caller is then trusted if and only
    if that relationship lets the acceptor reach the inviter.  The store stays well
    formed, whichever writes fail. *)
Theorem pairing_grants_by_invite fs caller req now fp fi fs' r peers :
  peers_of fs = Ok peers → Peers.wf peers → length caller = 32%nat → Forall u8_range caller →
  handle_pair env fs caller req now fp fi = (fs', r) →
  ∃ peers', peers_of fs' = Ok peers' ∧ Peers.wf peers' ∧
    (peers' = peers ∨
     ∃ store invite, admits fs req now store invite ∧ entries peers !! hex_encode caller = None ∧
       entries peers' = <[hex_encode caller := caller_entry peers caller req now invite]> (entries peers) ∧
       trust_roots peers' =
         (if bool_decide (initiator invite = Me) then ∅ else {[caller]}) ∪ trust_roots peers).
Proof.
  intros Hp Hwf Hlen Hr Hh. destruct (handle_pair_peers _ _ _ _ _ _ _ _ _ Hp Hwf Hh)
    as [Hq|(store & invite & peers' & Hadm & Hn & Hi & Hq)]; [by exists peers; auto |].
  exists peers'. split_and!; [done | by eapply insert_or_update_wf |]. right. exists store, invite.
  split_and!; [done | done | by apply insert_or_update_Ok in Hi as [_ ->] |].
  rewrite (trust_roots_insert _ _ _ _ Hi) by done. unfold caller_entry, trusted. simpl. by destruct (initiator invite).
Qed.

Lemma plan_refuse fs caller req now res b : plan_pair env fs caller req now = Refuse res b → res ≠ PairOk.
Proof. unfold plan_pair. intros H. repeat case_match; congruence. Qed.

(** C19: an invite is good for one pairing: once a request has been answered with success,
    every request with the nonce is refused as unknown and changes nothing. *)
Theorem invite_single_use fs caller req now fp fi fs' resp peers :
  peers_of fs = Ok peers → Peers.wf peers →
  handle_pair env fs caller req now fp fi = (fs', Ok resp) → result_of resp = PairOk →
  ∀ caller2 req2 now2 fp2 fi2, req_nonce req2 = req_nonce req → req_version req2 = 1 →
    handle_pair env fs' caller2 req2 now2 fp2 fi2 = (fs', Ok (reply env fs' NonceUnknown None)).
Proof.
  intros Hp Hwf Hh Hok caller2 req2 now2 fp2 fi2 Hn Hv.
  assert (∃ store, invites_of fs' = Ok (Invites.remove store (hex_encode (req_nonce req))).1) as [store Hi].
  { unfold handle_pair in Hh. pose proof (plan_cases fs caller req now peers Hp Hwf) as Hplan.
    destruct (plan_pair env fs caller req now) as [res [] | e | l i | l p i] eqn:Hpl.
    - injection Hh as <- <-. by apply plan_refuse in Hpl.
    - injection Hh as <- <-. by apply plan_refuse in Hpl.
    - done.
    - apply commit_consume in Hh as (_ & _ & r & [= <-] & Hr). by rewrite Hr in Hok.
    - destruct Hplan as (store & invite & _ & _ & Hins & ->). exists store. apply commit_grant in Hh; [tauto |].
      rewrite (insert_schema _ _ _ Hins). apply (wf_schema _ Hwf). }
  unfold handle_pair, plan_pair. fold (invites_of fs'). rewrite Hv, Hi, Hn. simpl negb. cbv iota.
  by rewrite find_removed.
Qed.

(** ** A label is always found *)

Lemma peer_label_in_use_false peers l : peer_label_in_use peers l = false ↔
  ∀ k e, entries peers !! k = Some e → label e ≠ l.
Proof.
  unfold peer_label_in_use. rewrite <- not_true_iff_false, existsb_exists. split.
  - intros Hno k e Hk Hl. apply Hno. exists e. split; [| by apply bool_decide_eq_true].
    apply list_elem_of_In, iter_elem. eauto.
  - intros Hall (e & Hin & Hl). reflect_bool. apply list_elem_of_In, iter_elem in Hin as [k Hk].
    by apply (Hall k e).
Qed.

Lemma after_dash_elem l : DASH ∈ l → is_Some (after_dash l).
Proof.
  induction l as [|b l IH]; [by intros ?%elem_of_nil |]. simpl.
  destruct (b =? DASH) eqn:Hb; [by eexists |]. intros [<-|Hin]%elem_of_cons; [done | by apply IH].
Qed.

(** A caller whose full endpoint id ends no label gets a label that is free. *)
Lemma choose_label_free peers cl fl caller : length caller = 32%nat →
  (∀ k e, entries peers !! k = Some e → ends_with (hex_encode caller) (label e) = false) →
  peer_label_in_use peers (choose_label peers cl fl (hex_encode caller)) = false.
Proof.
  intros Hlen Hno. pose proof (hex_encode_chars caller) as Hc. pose proof (hex_encode_length caller) as Hl.
  unfold choose_label. set (cand := machine_label_from_hint _ _).
  destruct (peer_label_in_use peers cand) eqn:Huse; [| done]. simpl. unfold extend_machine_label_until_unique.
  assert (is_Some (rsplit_dash cand)) as [base Hbase].
  { destruct (machine_label_shape (option_or fl cl) (hex_encode caller)) as [_ He]; [by split; [| lia] |].
    apply ends_with_spec in He as [t Ht]. fold cand in Ht. unfold rsplit_dash. apply fmap_is_Some, after_dash_elem.
    rewrite list_elem_of_In, <- in_rev, <- list_elem_of_In, Ht, !str_bytes_app. set_solver. }
  rewrite Hbase. set (labels := _ <$> _). destruct (List.find _ labels) as [l|] eqn:Hf; simpl.
  { apply find_some in Hf as [_ Hf]. by reflect_bool. }
  exfalso. set (last := base +:+ "-" +:+ endpoint_suffix (hex_encode caller) 64).
  assert (In last labels) as Hin by (right; right; right; right; by left).
  apply (find_none _ _ Hf last) in Hin. reflect_bool. apply not_false_iff_true in Hin. apply Hin, peer_label_in_use_false. intros k e Hk He.
  specialize (Hno k e Hk). rewrite He in Hno. apply not_true_iff_false in Hno. apply Hno, ends_with_spec.
  exists (base +:+ "-"). subst last. rewrite <- str_app_assoc. do 2 f_equal. apply str_bytes_inj.
  rewrite endpoint_suffix_bytes by done. by replace (length (str_bytes (hex_encode caller)) - 64)%nat with 0%nat by lia.
Qed.

(** A caller that is not a peer yet, and whose endpoint id ends no label in use, is
    paired by a request that an invite admits, when the files can be written; the answer
    is success. *)
Theorem pairing_progress fs caller req now peers store invite :
  peers_of fs = Ok peers → Peers.wf peers → admits fs req now store invite → length caller = 32%nat →
  entries peers !! hex_encode caller = None →
  (∀ k e, entries peers !! k = Some e → ends_with (hex_encode caller) (label e) = false) →
  is_Some (json_print {| Peers.schema := Peers.schema peers;
             entries := <[hex_encode caller := caller_entry peers caller req now invite]> (entries peers) |}) →
  is_Some (json_print (Invites.remove store (hex_encode (req_nonce req))).1) →
  ∃ fs' resp peers', handle_pair env fs caller req now None None = (fs', Ok resp) ∧ result_of resp = PairOk ∧
    peers_of fs' = Ok peers' ∧ get_by_endpoint peers' caller = Some (caller_entry peers caller req now invite).
Proof.
  intros Hp Hwf [Hv Hs Hf Hlive Hm] Hlen Hnone Hno [encp Hjp] [enci Hji].
  pose proof (choose_label_free peers (caller_label req) (for_label_hint invite) caller Hlen Hno) as Hfree.
  rewrite peer_label_in_use_false in Hfree. set (e := caller_entry peers caller req now invite) in *.
  set (peers' := {| Peers.schema := _; entries := _ |}) in *.
  assert (insert_or_update peers e = Ok peers') as Hins.
  { apply insert_or_update_Ok. split; [| done]. intros k e' Hk Hl. by destruct (Hfree _ _ Hk). }
  assert (plan_pair env fs caller req now =
    Grant (label e) peers' (Invites.remove store (hex_encode (req_nonce req))).1) as Hplan.
  { unfold plan_pair. fold (invites_of fs) (peers_of fs). rewrite Hv, Hs, Hf, Hp. simpl negb. cbv iota.
    unfold is_expired. rewrite (proj2 (Z.leb_gt _ _)) by lia. rewrite bool_decide_eq_true_2 by done. simpl negb. cbv iota.
    pose proof (find_caller peers (hex_encode caller) Hwf) as Hc. destruct (List.find _ _); [congruence |].
    change (insert_or_update peers _) with (insert_or_update peers e). by rewrite Hins. }
  unfold handle_pair. rewrite Hplan. destruct (commit_pair _ _ _ _ _) as [fs' r] eqn:Hc.
  pose proof (commit_grant _ _ _ _ _ _ _ _ (wf_schema _ Hwf : Peers.schema peers' = _) Hc) as Hspec.
  cbn [commit_pair] in Hc. unfold Peers.save, Invites.save, save_file in Hc. rewrite Hjp, Hji in Hc.
  injection Hc as <- <-. destruct Hspec as (Hq & _ & Hr). eexists _, _, peers'. split_and!; [done | done | done |].
  apply lookup_insert_eq.
Qed.

(** ** Both sides *)

Lemma handle_pair_ok fs caller req now fp fi fs' resp peers : peers_of fs = Ok peers → Peers.wf peers →
  handle_pair env fs caller req now fp fi = (fs', Ok resp) → result_of resp = PairOk →
  ∃ store invite peers', admits fs req now store invite ∧ peers_of fs' = Ok peers' ∧
    entries peers' !! hex_encode caller = Some (caller_entry peers caller req now invite).
Proof.
  intros Hp Hwf. unfold handle_pair. pose proof (plan_cases fs caller req now peers Hp Hwf) as Hplan.
  destruct (plan_pair env fs caller req now) as [res b | e | l i | l p i] eqn:Hpl; intros Hc Hok.
  - apply plan_refuse in Hpl. destruct b; injection Hc as <- <-; done.
  - done.
  - apply commit_consume in Hc as (_ & _ & r & [= <-] & Hr). by rewrite Hr in Hok.
  - destruct Hplan as (store & invite & Hadm & Hn & Hi & _). exists store, invite, p. apply commit_grant in Hc.
    2:{ rewrite (insert_schema _ _ _ Hi). apply (wf_schema _ Hwf). }
    split_and!; [done | tauto |]. apply insert_or_update_Ok in Hi as [_ ->]. apply lookup_insert_eq.
Qed.

Lemma save_accepted_ok c self hint now gs path fault gs' a peers : Peers.load gs path = Ok peers → Peers.wf peers →
  save_accepted_peer c self hint now gs path fault = (gs', Ok a) →
  ∃ peers' e, Peers.load gs' path = Ok peers' ∧ Peers.wf peers' ∧
    entries peers' !! hex_encode (inviter_eid c) = Some e ∧
    (accepts_from_them e, they_accept_from_me e) = acceptor_peer_flags (mode_relationship (code_initiator c)) ∧
    last_hold_at e = None.
Proof.
  intros Hp Hwf. unfold save_accepted_peer. rewrite Hp. destruct (insert_or_update _ _) as [p|] eqn:Hi; [| done].
  destruct (Peers.save _ _ _ _) as [gs1 [[]|]] eqn:Hs; [| done]. intros [= <- _].
  apply peers_save_spec in Hs; [| rewrite (insert_schema _ _ _ Hi); apply (wf_schema _ Hwf)].
  pose proof (insert_or_update_wf _ _ _ Hwf Hi) as Hwf'. apply insert_or_update_Ok in Hi as [_ ->].
  eexists _, _. split_and!; [done | done | apply lookup_insert_eq | done | done].
Qed.

(** When a pairing succeeds on both sides, the two entries mirror each other: one side
    accepts tickets of the other exactly when the other believes so, and exactly as the
    relationship in the invite says. *)
Theorem pairing_mirrored fs caller req now fp fi fs' resp peers c now2 gs path fault gs' gpeers :
  peers_of fs = Ok peers → Peers.wf peers → Peers.load gs path = Ok gpeers → Peers.wf gpeers →
  handle_pair env fs caller req now fp fi = (fs', Ok resp) → req_initiator req = code_initiator c →
  apply_response c resp now2 gs path fault = (gs', Ok true) →
  ∃ peers' gpeers' e g, peers_of fs' = Ok peers' ∧ Peers.load gs' path = Ok gpeers' ∧
    entries peers' !! hex_encode caller = Some e ∧ entries gpeers' !! hex_encode (inviter_eid c) = Some g ∧
    accepts_from_them e = they_accept_from_me g ∧ accepts_from_them g = they_accept_from_me e ∧
    (accepts_from_them e = true ↔ code_initiator c ≠ Me) ∧ (accepts_from_them g = true ↔ code_initiator c ≠ Them).
Proof.
  intros Hp Hwf Hg Hgwf Hh Hm Ha. unfold apply_response in Ha. destruct (result_of resp) eqn:Hres; try done.
  destruct (save_accepted_peer _ _ _ _ _ _ _) as [gs1 [a|]] eqn:Hsave; [| done]. injection Ha as <-.
  destruct (handle_pair_ok _ _ _ _ _ _ _ _ _ Hp Hwf Hh Hres) as (store & invite & peers' & Hadm & Hq & He).
  destruct (save_accepted_ok _ _ _ _ _ _ _ _ _ _ Hg Hgwf Hsave) as (gpeers' & g & Hgq & _ & Hge & Hflags & _).
  injection Hflags as Hacc Hthey. exists peers', gpeers', (caller_entry peers caller req now invite), g.
  unfold caller_entry, paired_entry. cbn [accepts_from_them they_accept_from_me].
  rewrite Hacc, Hthey, <- (adm_mode _ _ _ _ _ Hadm), Hm. unfold caller_entry in He. rewrite <- (adm_mode _ _ _ _ _ Hadm), Hm in He.
  split_and!; [done | done | done | done | | | |]; by destruct (code_initiator c).
Qed.

(** Two requests with the same invite that both read the stores before either writes
    both succeed, and the first caller is lost: the store ends with the second alone. *)
Theorem concurrent_pairing_double_spend fs a b req req2 now la pa ia lb pb ib fs1 fs2 ra rb peers :
  peers_of fs = Ok peers → Peers.wf peers → hex_encode a ≠ hex_encode b →
  plan_pair env fs a req now = Grant la pa ia → plan_pair env fs b req2 now = Grant lb pb ib →
  commit_pair env fs (Grant la pa ia) None None = (fs1, Ok ra) →
  commit_pair env fs1 (Grant lb pb ib) None None = (fs2, Ok rb) →
  result_of ra = PairOk ∧ result_of rb = PairOk ∧
  (∃ pa', peers_of fs1 = Ok pa' ∧ is_Some (entries pa' !! hex_encode a)) ∧
  (∃ pb', peers_of fs2 = Ok pb' ∧ is_Some (entries pb' !! hex_encode b) ∧ entries pb' !! hex_encode a = None).
Proof.
  intros Hp Hwf Hne Hpa Hpb Hca Hcb.
  pose proof (plan_cases fs a req now peers Hp Hwf) as Ha. pose proof (plan_cases fs b req2 now peers Hp Hwf) as Hb.
  rewrite Hpa in Ha. rewrite Hpb in Hb. destruct Ha as (sa & va & _ & Hna & Hia & _).
  destruct Hb as (sb & vb & _ & Hnb & Hib & _).
  apply commit_grant in Hca; [| rewrite (insert_schema _ _ _ Hia); apply (wf_schema _ Hwf)].
  apply commit_grant in Hcb; [| rewrite (insert_schema _ _ _ Hib); apply (wf_schema _ Hwf)].
  apply insert_or_update_Ok in Hia as [_ ->], Hib as [_ ->]. split_and!; [tauto | tauto | |].
  - eexists. split; [apply Hca |]. simpl. rewrite lookup_insert_eq. by eexists.
  - eexists. split; [apply Hcb |]. simpl. rewrite lookup_insert_eq, lookup_insert_ne by done. split; [by eexists | done].
Qed.
End pairing.
