(* ===== verification/Trust.v ===== *)
(** * Who the running agent trusts

    crates/portl-agent/src/config.rs builds the trust roots from the peer store and the
    environment, lib.rs keeps them as the bootstrap set and reloads the peer store every
    500 ms ([spawn_peer_store_reload_task]); portl-cli/src/commands/peer/ (unlink.rs,
    add_unsafe_raw.rs) edits the store. *)

From S2P Require Import Prelude Revocations Labels Files Peers Tickets.

Inductive CommandError :=
  | StoreErr (e : StoreError)
  | RefuseSelf
  | NoPeer (label : string)
  | BadEndpoint
  | BadTrustRoot (value : string)
  | BadFlags
  | LabelTaken (label : string)
  | ConfirmationMismatch.

Section trust.
Context {HX : Hex} {JP : JsonFile PeerStore} {JT : JsonFile TicketStore}.

(** ** The agent *)

Definition hex32 (s : string) : option bytes :=
  bs ← hex_decode s; if decide (length bs = 32%nat) then Some bs else None.

Definition parse_trust_roots (value : string) : result CommandError (list bytes) :=
  try_map (λ s, ok_or (hex32 s) (BadTrustRoot s))
    (List.filter (λ s, negb (bool_decide (s = ""))) (trim <$> str_split 44 value)).

(** [AgentState]: the current set, and the one taken at start-up. *)
Record AgentTrust := { roots : gset bytes; bootstrap_roots : gset bytes }.

(** [AgentConfig::from_env], then [run]: [env_roots] is PORTL_TRUST_ROOTS, [probe] the key
    of the watchdog's probe. *)
Definition config_trust_roots (fs : Fs) (path : string) (env_roots : option string)
    : result CommandError (gset bytes) :=
  peers ← map_err StoreErr (Peers.load fs path);
  env ← match env_roots with Some v => parse_trust_roots v | None => Ok [] end;
  Ok (trust_roots peers ∪ list_to_set env).

Definition start (fs : Fs) (path : string) (env_roots : option string) (probe : option bytes)
    : result CommandError AgentTrust :=
  cfg ← config_trust_roots fs path env_roots;
  let startup := match probe with Some p => {[p]} ∪ cfg | None => cfg end in
  Ok {| roots := startup; bootstrap_roots := startup |}.

(** One tick of the reload task; a store that does not load leaves the set alone.  The
    flag is whether the set changed. *)
Definition reload (t : AgentTrust) (fs : Fs) (path : string) : AgentTrust * bool :=
  match Peers.load fs path with
  | Err _ => (t, false)
  | Ok store =>
      let new_roots := trust_roots store ∪ bootstrap_roots t in
      ({| roots := new_roots; bootstrap_roots := bootstrap_roots t |}, negb (bool_decide (roots t = new_roots)))
  end.

(** ** Commands *)

Definition unlink (fs : Fs) (path l : string) (fault : option nat) : Fs * result CommandError unit :=
  match Peers.load fs path with
  | Err e => (fs, Err (StoreErr e))
  | Ok peers =>
      match remove_by_label peers l with
      | (_, None) => (fs, Err (NoPeer l))
      | (peers', Some e) =>
          if is_self e then (fs, Err RefuseSelf)
          else let '(fs', r) := Peers.save peers' fs path fault in (fs', map_err StoreErr r)
      end
  end.

Definition raw_flags (mutual inbound outbound : bool) : result CommandError (bool * bool) :=
  match mutual, inbound, outbound with
  | true, false, false => Ok (true, true)
  | false, true, false => Ok (true, false)
  | false, false, true => Ok (false, true)
  | _, _, _ => Err BadFlags
  end.

(** The guard on labels. *)
Definition raw_label_ok (peers : PeerStore) (tickets : TicketStore) (l eid_hex : string) : bool :=
  match label_in_use l peers tickets with
  | None => true
  | Some store =>
      bool_decide (store = "peer") &&
      match get_by_label peers l with
      | Some existing => bool_decide (Peers.endpoint_id_hex existing = eid_hex)
      | None => true
      end
  end.

(** [confirmation] is the line typed, [None] with --yes. *)
Definition add_unsafe_raw (fs : Fs) (peers_path tickets_path endpoint_hex : string) (label : option string)
    (mutual inbound outbound : bool) (confirmation : option string) (now : Z) (fault : option nat)
    : Fs * result CommandError unit :=
  let go : result CommandError PeerStore :=
    eid ← ok_or (hex32 endpoint_hex) BadEndpoint;
    flags ← raw_flags mutual inbound outbound;
    let l := default (auto_label eid) label in
    peers ← map_err StoreErr (Peers.load fs peers_path);
    tickets ← map_err StoreErr (Tickets.load fs tickets_path);
    ensure (raw_label_ok peers tickets l (hex_encode eid)) (LabelTaken l);;
    ensure (match confirmation with Some line => bool_decide (trim line = endpoint_hex) | None => true end)
      ConfirmationMismatch;;
    map_err StoreErr (insert_or_update peers
      {| Peers.label := l; Peers.endpoint_id_hex := hex_encode eid; accepts_from_them := flags.1;
         they_accept_from_me := flags.2; since := now; origin := Raw; last_hold_at := None; is_self := false;
         relay_hint := None; schema_version := 2 |}) in
  match go with
  | Err e => (fs, Err e)
  | Ok peers' => let '(fs', r) := Peers.save peers' fs peers_path fault in (fs', map_err StoreErr r)
  end.

(** ** What the agent trusts *)

Context {HL : HexLaws} {HD : HexDigits} {JPL : JsonFileLaws PeerStore}.

Lemma start_roots fs path env probe t : start fs path env probe = Ok t → roots t = bootstrap_roots t.
Proof. unfold start. intros H. inv_result. by subst. Qed.

Lemma start_peers fs path env probe t peers : start fs path env probe = Ok t → Peers.load fs path = Ok peers →
  trust_roots peers ⊆ bootstrap_roots t.
Proof.
  unfold start, config_trust_roots. intros H Hp. rewrite Hp in H. simpl in H. inv_result. simplify_eq. simpl.
  intros k Hk. destruct probe; rewrite ?elem_of_union; auto.
Qed.

Lemma reload_bootstrap t fs path : bootstrap_roots (reload t fs path).1 = bootstrap_roots t.
Proof. unfold reload. by destruct (Peers.load fs path). Qed.

(** Ids of peers are filed in the spelling of [hex::encode], by every command. *)
Definition canonical_ids (s : PeerStore) : Prop :=
  ∀ k e, Peers.entries s !! k = Some e → ∃ bs, Forall u8_range bs ∧ k = hex_encode bs.

Lemma canonical_id_bytes s k e bs : Peers.wf s → canonical_ids s → Peers.entries s !! k = Some e →
  endpoint_id_bytes e = Some bs → k = hex_encode bs.
Proof.
  intros Hwf Hc Hk Hb. destruct (Hc k e Hk) as (bs' & Hr & ->). unfold endpoint_id_bytes in Hb.
  rewrite (wf_key _ Hwf _ _ Hk), hex_roundtrip in Hb by done. simpl in Hb. by case_decide; simplify_eq.
Qed.

Lemma unlink_Ok fs path l fault fs' peers : Peers.load fs path = Ok peers → Peers.wf peers →
  unlink fs path l fault = (fs', Ok tt) →
  ∃ e, Peers.entries peers !! Peers.endpoint_id_hex e = Some e ∧ Peers.label e = l ∧ is_self e = false ∧
    Peers.load fs' path = Ok (remove_key peers (Peers.endpoint_id_hex e)).1.
Proof.
  intros Hp Hwf. unfold unlink. rewrite Hp. unfold remove_by_label.
  set (P := λ kv : string * PeerEntry, _). pose proof (find_entry P peers) as Hf.
  destruct (List.find P _) as [[k e]|]; [| done]. destruct Hf as [Hk HP]. unfold remove_key. rewrite Hk.
  subst P. simpl in HP. reflect_bool. pose proof (wf_key _ Hwf _ _ Hk) as He.
  destruct (is_self e) eqn:Hself; [done |]. destruct (Peers.save _ _ _ _) as [fs1 [[]|]] eqn:Hs; [| done].
  intros [= <-]. apply peers_save_spec in Hs; [| apply (wf_schema _ Hwf)]. exists e. rewrite He. by split_and!.
Qed.

(** Removing a peer with [portl peer rm] takes it out of the running agent's trust
    roots at the next reload if, and only if, it was not already trusted when the agent
    started: the start-up set is never shrunk. *)
Theorem peer_rm_effect t fs path l fault fs' peers e k :
  Peers.load fs path = Ok peers → Peers.wf peers → canonical_ids peers →
  get_by_label peers l = Some e → endpoint_id_bytes e = Some k →
  unlink fs path l fault = (fs', Ok tt) →
  k ∈ roots (reload t fs' path).1 ↔ k ∈ bootstrap_roots t.
Proof.
  intros Hp Hwf Hc Hl Hk Hu. apply get_by_label_iff in Hl as [He Hlab]; [| done].
  destruct (unlink_Ok _ _ _ _ _ _ Hp Hwf Hu) as (e' & He' & Hlab' & _ & Hload).
  assert (Peers.endpoint_id_hex e' = Peers.endpoint_id_hex e) as Heq.
  { apply (wf_label _ Hwf _ _ _ _ He' He). congruence. }
  unfold reload. rewrite Hload. cbn [fst roots]. rewrite elem_of_union, elem_of_trust_roots. split; [| by right].
  intros [(key & e2 & Hk2 & _ & Hb)|?]; [| done]. exfalso. simpl in Hk2. apply lookup_delete_Some in Hk2 as [Hne Hk2].
  apply Hne. rewrite Heq. rewrite (canonical_id_bytes _ _ _ _ Hwf Hc Hk2 Hb). by eapply canonical_id_bytes.
Qed.

(** A peer that the store made trusted when the agent started stays trusted through
    every later state of the store: whatever the reload task reads, in any number of
    ticks. *)
Theorem startup_peer_stays_trusted fs path env probe t peers k (later : list Fs) :
  start fs path env probe = Ok t → Peers.load fs path = Ok peers → k ∈ trust_roots peers →
  k ∈ roots (foldl (λ s fs', (reload s fs' path).1) t later).
Proof.
  intros Ht Hp Hk.
  assert (bootstrap_roots t ⊆ roots (foldl (λ s fs', (reload s fs' path).1) t later) ∧
    bootstrap_roots (foldl (λ s fs', (reload s fs' path).1) t later) = bootstrap_roots t) as [Hsub _].
  { assert (bootstrap_roots t ⊆ roots t) as Hs by by rewrite (start_roots _ _ _ _ _ Ht).
    clear Ht. revert t Hs. induction later as [|fs' later IH]; intros t Hs; [done |]. simpl.
    destruct (IH (reload t fs' path).1) as [IH1 IH2].
    - unfold reload. destruct (Peers.load fs' path); simpl; [set_solver | done].
    - rewrite reload_bootstrap in IH1, IH2. done. }
  apply Hsub. by apply (start_peers _ _ _ _ _ _ Ht Hp).
Qed.
End trust.
