(* ===== verification/PairDemo.v ===== *)
(** * Pairing and trust on concrete stores

    Witnesses of Peers.v, Invites.v, Pairing.v and Trust.v: an inviter with one invite,
    and two callers. *)

From S2P Require Import Prelude Revocations Labels Files Peers Tickets Invites InviteCode HexDemo Pairing Trust.

Module PairDemo.
Import HexDemo.

Definition me : bytes := replicate 32 1.
Definition ann : bytes := replicate 32 2.
Definition bob : bytes := replicate 32 3.

Definition entry (l : string) (eid : bytes) (zelf : bool) : PeerEntry :=
  {| Peers.label := l; Peers.endpoint_id_hex := hex_str eid; accepts_from_them := true; they_accept_from_me := true;
     since := 10; origin := Raw; last_hold_at := None; is_self := zelf; relay_hint := None; schema_version := 2 |}.

Definition store_of (l : list PeerEntry) : PeerStore :=
  {| Peers.schema := 1; Peers.entries := list_to_map ((λ e, (Peers.endpoint_id_hex e, e)) <$> l) |}.

Definition peers0 : PeerStore := store_of [entry "self" me true].

Definition invite0 : PendingInvite :=
  {| nonce_hex := hex_str (replicate 16 9); issued_at_unix := 50; not_after_unix := 4000; initiator := Mutual;
     for_label_hint := None |}.
Definition invites0 : PairStore := {| Invites.schema := 1; invites := [invite0] |}.
Definition invites1 : PairStore := {| Invites.schema := 1; invites := [] |}.

Definition req (name : string) : PairRequest :=
  {| req_version := 1; req_nonce := replicate 16 9; req_initiator := Mutual; caller_relay_hint := None;
     caller_label := Some name |}.

Definition with_peer (name : string) (eid : bytes) : PeerStore :=
  {| Peers.schema := 1;
     Peers.entries := <[hex_str eid := caller_entry peers0 eid (req name) 100 invite0]> (Peers.entries peers0) |}.

(** The caller's own store, empty before and with the inviter after. *)
Definition code : InviteCode := invite_new me (replicate 16 9) 4000 Mutual None.
Definition anns_store : PeerStore :=
  store_of [paired_entry "host-0101" (hex_str me) (true, true) 100 None].

#[export] Instance peers_json : JsonFile PeerStore :=
  Table.json [peers0; with_peer "Ann" ann; with_peer "Bob" bob; anns_store; store_of []].
#[export] Instance peers_json_laws : JsonFileLaws PeerStore := Table.table_laws _.
#[export] Instance invites_json : JsonFile PairStore := Table.json [invites0; invites1].
#[export] Instance invites_json_laws : JsonFileLaws PairStore := Table.table_laws _.

Definition env : PairEnv :=
  {| peers_path := Some "peers.json"; default_peers_path := "default.json";
     pending_invites_path := "pending_invites.json"; relays := [];
     relay_status := {| enabled := false; hostname := None; https_addr := None; http_addr := None |};
     local_hostname := None |}.

Definition synced (s : string) : Inode := {| cached := s; durable := s |}.

Definition fs0 : Fs :=
  {[ "peers.json" := synced (Table.tally 0); "pending_invites.json" := synced (Table.tally 0) ]}.

Lemma demo_paths : paths_ok env.
Proof. by split. Qed.

Lemma demo_load : peers_of env fs0 = Ok peers0.
Proof. by_vm. Qed.

Lemma demo_wf : Peers.wf peers0.
Proof.
  split; [done | |]; unfold peers0, store_of; simpl.
  - intros k e He. apply lookup_insert_Some in He as [[<- <-]|[_ He]]; [done | by apply lookup_empty_Some in He].
  - intros k1 k2 e1 e2 H1 H2 _.
    apply lookup_insert_Some in H1 as [[<- _]|[_ H1]]; [| by apply lookup_empty_Some in H1].
    apply lookup_insert_Some in H2 as [[<- _]|[_ H2]]; [done | by apply lookup_empty_Some in H2].
Qed.

Lemma ann_ok : length ann = 32%nat ∧ Forall u8_range ann.
Proof. split; [done |]. apply Forall_replicate. unfold u8_range, U8_MAX. lia. Qed.

Definition run1 : Fs * result StoreError PairResponse := handle_pair env fs0 ann (req "Ann") 100 None None.
Definition ok_resp (r : result StoreError PairResponse) : PairResponse :=
  match r with Ok resp => resp | Err _ => reply env fs0 NonceUnknown None end.

Definition is_Ok {A} (r : result StoreError A) : bool := match r with Ok _ => true | Err _ => false end.

Lemma ok_pair (p : Fs * result StoreError PairResponse) : is_Ok p.2 = true → p = (p.1, Ok (ok_resp p.2)).
Proof. by destruct p as [fs [r|e]]. Qed.

Lemma run1_ok : run1 = (run1.1, Ok (ok_resp run1.2)) ∧ result_of (ok_resp run1.2) = PairOk.
Proof. split; [apply ok_pair |]; by_vm. Qed.

Lemma pairing_grants_by_invite_witness : ∃ peers', peers_of env run1.1 = Ok peers' ∧ Peers.wf peers' ∧
  (peers' = peers0 ∨
   ∃ store invite, admits env fs0 (req "Ann") 100 store invite ∧ Peers.entries peers0 !! hex_encode ann = None ∧
     Peers.entries peers' = <[hex_encode ann := caller_entry peers0 ann (req "Ann") 100 invite]> (Peers.entries peers0) ∧
     trust_roots peers' = (if bool_decide (initiator invite = Me) then ∅ else {[ann]}) ∪ trust_roots peers0).
Proof.
  apply (pairing_grants_by_invite env demo_paths fs0 ann (req "Ann") 100 None None run1.1 (Ok (ok_resp run1.2)) peers0
    demo_load demo_wf (proj1 ann_ok) (proj2 ann_ok) (proj1 run1_ok)).
Defined.

Lemma invite_single_use_witness :
  handle_pair env run1.1 bob (req "Bob") 101 None None = (run1.1, Ok (reply env run1.1 NonceUnknown None)).
Proof.
  by apply (invite_single_use env demo_paths fs0 ann (req "Ann") 100 None None run1.1 (ok_resp run1.2) peers0
    demo_load demo_wf (proj1 run1_ok) (proj2 run1_ok)).
Defined.

Lemma demo_admits : admits env fs0 (req "Ann") 100 invites0 invite0.
Proof. split; [done | by_vm | by_vm | done | done]. Qed.

Lemma demo_no_label e k : Peers.entries peers0 !! k = Some e → Peers.label e = "self".
Proof.
  unfold peers0, store_of. simpl. intros He.
  apply lookup_insert_Some in He as [[_ <-]|[_ He]]; [done | by apply lookup_empty_Some in He].
Qed.

Lemma pairing_progress_witness : ∃ fs' resp peers', run1 = (fs', Ok resp) ∧ result_of resp = PairOk ∧
  peers_of env fs' = Ok peers' ∧ get_by_endpoint peers' ann = Some (caller_entry peers0 ann (req "Ann") 100 invite0).
Proof.
  apply (pairing_progress env demo_paths fs0 ann (req "Ann") 100 peers0 invites0 invite0 demo_load demo_wf
    demo_admits (proj1 ann_ok)).
  - by vm_compute.
  - intros k e He. rewrite (demo_no_label e k He). by vm_compute.
  - eexists. by vm_compute.
  - eexists. by vm_compute.
Defined.

(** The caller's side, with the answer of [run1]. *)
Definition run2 : Fs * result StoreError bool := apply_response code (ok_resp run1.2) 100 ∅ "peers.json" None.

Lemma pairing_mirrored_witness : ∃ peers' gpeers' e g, peers_of env run1.1 = Ok peers' ∧
  Peers.load run2.1 "peers.json" = Ok gpeers' ∧
  Peers.entries peers' !! hex_encode ann = Some e ∧ Peers.entries gpeers' !! hex_encode me = Some g ∧
  accepts_from_them e = they_accept_from_me g ∧ accepts_from_them g = they_accept_from_me e ∧
  (accepts_from_them e = true ↔ Mutual ≠ Me) ∧ (accepts_from_them g = true ↔ Mutual ≠ Them).
Proof.
  apply (pairing_mirrored env demo_paths fs0 ann (req "Ann") 100 None None run1.1 (ok_resp run1.2) peers0
    code 100 ∅ "peers.json" None run2.1 Peers.new demo_load demo_wf).
  - by vm_compute.
  - apply peers_new_wf.
  - apply run1_ok.
  - done.
  - by_vm.
Defined.

(** Two callers read before either writes. *)
Definition commit1 : Fs * result StoreError PairResponse :=
  commit_pair env fs0 (Grant "ann-0202" (with_peer "Ann" ann) invites1) None None.
Definition commit2 : Fs * result StoreError PairResponse :=
  commit_pair env commit1.1 (Grant "bob-0303" (with_peer "Bob" bob) invites1) None None.

Lemma plan_ann : plan_pair env fs0 ann (req "Ann") 100 = Grant "ann-0202" (with_peer "Ann" ann) invites1.
Proof. by_vm. Qed.
Lemma plan_bob : plan_pair env fs0 bob (req "Bob") 100 = Grant "bob-0303" (with_peer "Bob" bob) invites1.
Proof. by_vm. Qed.
Lemma commit1_ok : commit1 = (commit1.1, Ok (ok_resp commit1.2)).
Proof. apply ok_pair. by_vm. Qed.
Lemma commit2_ok : commit2 = (commit2.1, Ok (ok_resp commit2.2)).
Proof. apply ok_pair. by_vm. Qed.

Lemma concurrent_pairing_double_spend_witness :
  result_of (ok_resp commit1.2) = PairOk ∧ result_of (ok_resp commit2.2) = PairOk ∧
  (∃ pa, peers_of env commit1.1 = Ok pa ∧ is_Some (Peers.entries pa !! hex_encode ann)) ∧
  (∃ pb, peers_of env commit2.1 = Ok pb ∧ is_Some (Peers.entries pb !! hex_encode bob) ∧
     Peers.entries pb !! hex_encode ann = None).
Proof.
  apply (concurrent_pairing_double_spend env demo_paths fs0 ann bob (req "Ann") (req "Bob") 100
    "ann-0202" (with_peer "Ann" ann) invites1 "bob-0303" (with_peer "Bob" bob) invites1 commit1.1 commit2.1
    (ok_resp commit1.2) (ok_resp commit2.2) peers0 demo_load demo_wf).
  - by vm_compute.
  - apply plan_ann.
  - apply plan_bob.
  - apply commit1_ok.
  - apply commit2_ok.
Defined.

Lemma invites_lost_on_crash_witness : ∃ fs', (Invites.save invites1 fs0 "pending_invites.json" None).2 = Ok tt ∧
  crash (Invites.save invites1 fs0 "pending_invites.json" None).1 fs' ∧
  Invites.load fs' "pending_invites.json" = Err ParseError.
Proof. apply (invites_lost_on_crash invites1 fs0 "pending_invites.json" (Table.tally 1)); by vm_compute. Defined.

(** A crash before the rename. *)
Definition crashed : Fs :=
  (λ f, {| cached := cached f; durable := cached f |}) <$> (Peers.save (with_peer "Ann" ann) fs0 "peers.json" (Some 2%nat)).1.

Lemma demo_crash : crash (Peers.save (with_peer "Ann" ann) fs0 "peers.json" (Some 2%nat)).1 crashed.
Proof. intros p. unfold crashed. rewrite lookup_fmap. destruct (_ !! p); done. Qed.

Lemma peers_save_crash_safe_witness :
  Peers.load crashed "peers.json" = Peers.load fs0 "peers.json" ∨ Peers.load crashed "peers.json" = Ok (with_peer "Ann" ann).
Proof.
  apply (peers_save_crash_safe (with_peer "Ann" ann) fs0 "peers.json" (Some 2%nat) crashed); [done | done |].
  apply demo_crash.
Defined.

(** Ann is removed by label, from an agent that started without and one that started with
    the peer. *)
Definition fs_ann : Fs := {[ "peers.json" := synced (Table.tally 1) ]}.
Definition ann_entry : PeerEntry := caller_entry peers0 ann (req "Ann") 100 invite0.

Lemma ann_store_cases k e : Peers.entries (with_peer "Ann" ann) !! k = Some e →
  k = hex_str ann ∧ e = ann_entry ∨ k = hex_str me ∧ e = entry "self" me true.
Proof.
  unfold with_peer, peers0, store_of. simpl. intros He.
  apply lookup_insert_Some in He as [[<- <-]|[_ He]]; [by left |]. right.
  apply lookup_insert_Some in He as [[<- <-]|[_ He]]; [done | by apply lookup_empty_Some in He].
Qed.

Lemma ann_wf : Peers.wf (with_peer "Ann" ann).
Proof.
  split; [done | |].
  - by intros k e [[-> ->]|[-> ->]]%ann_store_cases.
  - intros k1 k2 e1 e2 [[-> ->]|[-> ->]]%ann_store_cases [[-> ->]|[-> ->]]%ann_store_cases Hl;
      [reflexivity | | | reflexivity]; vm_compute in Hl; discriminate.
Qed.

Lemma ann_canonical : canonical_ids (with_peer "Ann" ann).
Proof.
  intros k e [[-> _]|[-> _]]%ann_store_cases; [exists ann | exists me]; (split; [| done]); apply Forall_replicate;
    unfold u8_range, U8_MAX; lia.
Qed.

Lemma peer_rm_effect_witness (t := {| roots := {[me; ann]}; bootstrap_roots := {[me]} |} : AgentTrust) :
  ann ∈ roots (reload t (unlink fs_ann "peers.json" "ann-0202" None).1 "peers.json").1 ↔ ann ∈ bootstrap_roots t.
Proof.
  apply (peer_rm_effect t fs_ann "peers.json" "ann-0202" None _ (with_peer "Ann" ann) ann_entry ann).
  - by_vm.
  - apply ann_wf.
  - apply ann_canonical.
  - by_vm.
  - by_vm.
  - by_vm.
Defined.

Definition started : AgentTrust :=
  match start fs_ann "peers.json" None None with Ok t => t | Err _ => {| roots := ∅; bootstrap_roots := ∅ |} end.

Lemma startup_peer_stays_trusted_witness :
  ann ∈ roots (reload started (unlink fs_ann "peers.json" "ann-0202" None).1 "peers.json").1.
Proof.
  apply (startup_peer_stays_trusted fs_ann "peers.json" None None started (with_peer "Ann" ann) ann
    [(unlink fs_ann "peers.json" "ann-0202" None).1]).
  - by_vm.
  - by_vm.
  - apply elem_of_trust_roots. exists (hex_str ann), ann_entry. split_and!; by_vm.
Defined.
End PairDemo.
