(* ===== verification/Resolve.v ===== *)
(** * Resolving targets and saving tickets

    crates/portl-core/src/target_resolve.rs turns what a user names into a ticket;
    ticket_save.rs and session_share.rs (with rendezvous/exchange.rs) save tickets under
    labels.  The text form of tickets and the addresses are iroh's and are parameters. *)

From S2P Require Import Prelude Schema Canonical Codec Revocations Chain Labels Files.
From S2P Require Import Peers Tickets.

(** ** Parameters *)

(** [Ticket::decode_string] and [encode_string]. *)
Class TicketText `{Iroh} := {
  decode_string : string → option PortlTicket;
  encode_string : PortlTicket → string;
}.

(** [EndpointId::from_bytes(..).is_ok()], [EndpointAddr::new], and parsing a relay URL and
    adding it to an address. *)
Class IrohAddr `{Iroh} := {
  endpoint_valid : bytes → bool;
  addr_new : bytes → EndpointAddr;
  with_relay_url : EndpointAddr → string → option EndpointAddr;
}.

Class IrohAddrLaws `{IrohAddr} : Prop := {
  addr_new_id b : addr_id (addr_new b) = b;
  with_relay_id a u a' : with_relay_url a u = Some a' → addr_id a' = addr_id a;
}.

Inductive ResolveError :=
  | EmptyTarget
  | Expired (ago : Z)
  | StoreFailed (e : StoreError)
  | HeldPeer
  | InboundOnly
  | InvalidEndpoint
  | InvalidRelay
  | MintFailed (e : PortlError)
  | MalformedTicket
  | UnknownTarget.

Inductive TargetSource := InlineTicket | FromPeerStore | FromTicketStore | RawEndpointId.

Definition is_ascii_hexdigit (b : Z) : bool :=
  is_ascii_digit b || (65 <=? b) && (b <=? 70) || (97 <=? b) && (b <=? 102).

Definition interactive_shell_caps : Capabilities := {|
  presence := 1;
  shell := Some {| user_allowlist := None; pty_allowed := true; exec_allowed := true;
                   command_allowlist := None; env_policy := Merge None |};
  tcp := None; udp := None; Schema.fs := None; vpn := None; meta := None; unix := None |}.

Definition reject_expired (expires now : Z) : result ResolveError unit :=
  if expires <=? now then Err (Expired (now - expires)) else Ok tt.

Section resolve.
Context {IR : Iroh} {SH : Sha256} {ED : Ed25519} {PC : Postcard PortlBody} {TT : TicketText} {IA : IrohAddr}.
Context {HX : Hex} {JP : JsonFile PeerStore} {JT : JsonFile TicketStore}.

Record ResolveTargetOptions := {
  identity : SigningKey;
  opt_caps : Capabilities;
  peer_store_path : string;
  ticket_store_path : string;
  now_unix : Z;
  ephemeral_ttl_secs : Z;
}.

Record ResolvedTarget := {
  res_ticket : PortlTicket;
  res_string : string;
  res_source : TargetSource;
  res_expires_at : Z;
}.

Definition resolved_ticket (t : PortlTicket) (s : string) (src : TargetSource) : ResolvedTarget :=
  {| res_ticket := t; res_string := s; res_source := src; res_expires_at := not_after (body t) |}.

Definition endpoint_id_from_hex (s : string) : result ResolveError bytes :=
  bs ← ok_or (hex_decode s) InvalidEndpoint;
  ensure (bool_decide (length bs = 32%nat)) InvalidEndpoint;;
  ensure (endpoint_valid bs) InvalidEndpoint;;
  Ok bs.

Definition parse_endpoint_id (s : string) : result ResolveError (option bytes) :=
  if negb (bool_decide (length (str_bytes s) = 64%nat)) || negb (forallb is_ascii_hexdigit (str_bytes s))
  then Ok None
  else id ← endpoint_id_from_hex s; Ok (Some id).

(** Minting for an address, with the [u64] sum as in a release build; [None] as in
    [mint_root]. *)
Definition mint_for (o : ResolveTargetOptions) (draws : list bytes) (a : EndpointAddr) (src : TargetSource)
    : option (result ResolveError ResolvedTarget) :=
  r ← mint_root (identity o) a (opt_caps o) (now_unix o) (wrapping 64 (now_unix o + ephemeral_ttl_secs o))
        (Some (verifying_key (identity o))) draws;
  Some (t ← map_err MintFailed r; Ok (resolved_ticket t (encode_string t) src)).

Definition peer_addr (e : PeerEntry) : result ResolveError EndpointAddr :=
  id ← endpoint_id_from_hex (Peers.endpoint_id_hex e);
  match relay_hint e with
  | None => Ok (addr_new id)
  | Some hint => ok_or (with_relay_url (addr_new id) hint) InvalidRelay
  end.

(** A failing step before minting. *)
Definition or_fail {A} (r : result ResolveError A) (k : A → option (result ResolveError ResolvedTarget))
    : option (result ResolveError ResolvedTarget) :=
  match r with Ok a => k a | Err e => Some (Err e) end.

Definition mint_peer_ticket (o : ResolveTargetOptions) (draws : list bytes) (e : PeerEntry)
    : option (result ResolveError ResolvedTarget) :=
  or_fail (peer_addr e) (λ a, mint_for o draws a FromPeerStore).

Definition resolve_saved (o : ResolveTargetOptions) (e : TicketEntry) : result ResolveError ResolvedTarget :=
  reject_expired (expires_at e) (now_unix o);;
  t ← ok_or (decode_string (ticket_string e)) MalformedTicket;
  reject_expired (not_after (body t)) (now_unix o);;
  Ok (resolved_ticket t (ticket_string e) FromTicketStore).

(** The cascade after the inline ticket. *)
Definition resolve_label (tgt : string) (o : ResolveTargetOptions) (draws : list bytes) (peers : PeerStore)
    (tickets : TicketStore) : option (result ResolveError ResolvedTarget) :=
  let fallthrough :=
    match Tickets.get tickets tgt with
    | Some e => Some (resolve_saved o e)
    | None =>
        if is_some (get_by_label peers tgt) then Some (Err InboundOnly)
        else or_fail (parse_endpoint_id tgt) (λ id,
          match id with
          | Some id => mint_for o draws (addr_new id) RawEndpointId
          | None => Some (Err UnknownTarget)
          end)
    end in
  match get_by_label peers tgt with
  | Some e =>
      if is_some (last_hold_at e) then Some (Err HeldPeer)
      else if they_accept_from_me e then mint_peer_ticket o draws e
      else fallthrough
  | None => fallthrough
  end.

Definition resolve_target (raw : string) (o : ResolveTargetOptions) (draws : list bytes) (fs : Fs)
    : option (result ResolveError ResolvedTarget) :=
  let tgt := trim raw in
  if decide (tgt = "") then Some (Err EmptyTarget)
  else match decode_string tgt with
  | Some t =>
      Some (reject_expired (not_after (body t)) (now_unix o);; Ok (resolved_ticket t tgt InlineTicket))
  | None =>
      or_fail (map_err StoreFailed (Peers.load fs (peer_store_path o))) (λ peers,
      or_fail (map_err StoreFailed (Tickets.load fs (ticket_store_path o))) (λ tickets,
        resolve_label tgt o draws peers tickets))
  end.

(** ** Saving tickets *)

Inductive SaveError :=
  | BadTicket
  | TicketExpired (ago : Z)
  | SaveStore (e : StoreError)
  | EmptyLabel
  | LabelOfPeer
  | LabelOfOtherEndpoint
  | KeepsExisting
  | LabelOf (store : string)
  | BadEnvelope
  | ShareExpired
  | InvalidTicket (e : PortlError)
  | NotShareTicket
  | TargetMismatch
  | OutlivesShare
  | NotBound
  | OtherRecipient.

Record SavedTicket := {
  saved_label : string;
  saved_endpoint_id_hex : string;
  saved_expires_at : Z;
  saved_now : Z;
}.

Definition cap_summary (c : Capabilities) : string :=
  let parts :=
    match shell c with Some s => [if pty_allowed s then "shell" else "exec"] | None => [] end ++
    (if match tcp c with Some r => negb (bool_decide (r = [])) | None => false end then ["tcp"] else []) ++
    (if match udp c with Some r => negb (bool_decide (r = [])) | None => false end then ["udp"] else []) ++
    (if is_some (meta c) then ["meta"] else []) in
  match parts with
  | [a] => a
  | [a; b] => a +:+ "-" +:+ b
  | _ => "access"
  end.

Definition auto_ticket_label (eid_hex : string) (c : Capabilities) (peers : PeerStore) : string :=
  let machine :=
    match List.find (λ p, eq_ignore_ascii_case (Peers.endpoint_id_hex p) eid_hex) (iter peers) with
    | Some p => Peers.label p
    | None => machine_label None eid_hex
    end in
  ticket_label machine (cap_summary c).

(** Both importers file an entry so: a label of a peer is refused, and a ticket is only
    replaced by a later one for the same endpoint.  (The importer of shares looks the label
    up once more where neither store has it, which cannot fail.) *)
Definition file_ticket (peers : PeerStore) (tickets : TicketStore) (l : string) (e : TicketEntry)
    : result SaveError TicketStore :=
  ensure (negb (is_some (get_by_label peers l))) LabelOfPeer;;
  cleared ← match Tickets.get tickets l with
            | Some existing =>
                ensure (eq_ignore_ascii_case (Tickets.endpoint_id_hex existing) (Tickets.endpoint_id_hex e))
                  LabelOfOtherEndpoint;;
                ensure (negb (expires_at e <=? expires_at existing)) KeepsExisting;;
                Ok (Tickets.remove tickets l).1
            | None => Ok tickets
            end;
  map_err SaveStore (Tickets.insert cleared l e).

Definition write_tickets {A} (fs : Fs) (path : string) (fault : option nat) (r : result SaveError (TicketStore * A))
    : Fs * result SaveError A :=
  match r with
  | Err e => (fs, Err e)
  | Ok (s, a) => let '(fs', w) := Tickets.save s fs path fault in (fs', map_err SaveStore w;; Ok a)
  end.

(** What is to be written, before the write. *)
Definition plan_save (label : option string) (text : string) (fs : Fs) (peers_path tickets_path : string) (now : Z)
    : result SaveError (TicketStore * SavedTicket) :=
  t ← ok_or (decode_string text) BadTicket;
  let eid_hex := hex_encode (addr_id (addr t)) in
  let expires := not_after (body t) in
  ensure (negb (expires <=? now)) (TicketExpired (now - expires));;
  peers ← map_err SaveStore (Peers.load fs peers_path);
  tickets ← map_err SaveStore (Tickets.load fs tickets_path);
  let l := match label with Some s => trim s | None => auto_ticket_label eid_hex (caps (body t)) peers end in
  ensure (negb (bool_decide (l = ""))) EmptyLabel;;
  let e := {| Tickets.endpoint_id_hex := eid_hex; ticket_string := text; expires_at := expires; saved_at := now;
              session_share := None |} in
  tickets' ← file_ticket peers tickets l e;
  Ok (tickets', {| saved_label := l; saved_endpoint_id_hex := eid_hex; saved_expires_at := expires;
                   saved_now := now |}).

Definition save_ticket_at (label : option string) (text : string) (fs : Fs) (peers_path tickets_path : string)
    (now : Z) (fault : option nat) : Fs * result SaveError SavedTicket :=
  write_tickets fs tickets_path fault (plan_save label text fs peers_path tickets_path now).

(** ** Session shares *)

Record SessionShareEnvelopeV1 := {
  workspace_id : string;
  share_name : string;
  conflict_handle : string;
  share_origin_hint : option string;
  share_target_hint : option string;
  target_endpoint_id_hex : string;
  share_provider : option string;
  share_provider_session : string;
  share_ticket : string;
  access_not_after_unix : Z;
}.

(** The payload has one kind, as the envelope. *)
Record PortlExchangeEnvelopeV1 := {
  env_schema : string;
  created_at_unix : Z;
  env_not_after_unix : option Z;
  sender_label : option string;
  payload : SessionShareEnvelopeV1;
}.

Definition PORTL_EXCHANGE_SCHEMA_V1 : string := "portl.exchange.v1".

Definition session_share_envelope (share : SessionShareEnvelopeV1) (created : Z) (na : option Z)
    : PortlExchangeEnvelopeV1 :=
  {| env_schema := PORTL_EXCHANGE_SCHEMA_V1; created_at_unix := created; env_not_after_unix := na;
     sender_label := share_origin_hint share; payload := share |}.

Definition validate_share (s : SessionShareEnvelopeV1) : bool :=
  bool_decide (length (str_bytes (target_endpoint_id_hex s)) = 64%nat) &&
  forallb is_ascii_hexdigit (str_bytes (target_endpoint_id_hex s)).

Definition validate_envelope (e : PortlExchangeEnvelopeV1) : bool :=
  bool_decide (env_schema e = PORTL_EXCHANGE_SCHEMA_V1) &&
  match env_not_after_unix e with Some na => negb (na <=? created_at_unix e) | None => true end &&
  validate_share (payload e).

Definition import_label (s : SessionShareEnvelopeV1) : string :=
  let machine :=
    match trim <$> share_target_hint s with
    | Some l => if decide (l = "") then machine_label None (target_endpoint_id_hex s) else l
    | None => machine_label None (target_endpoint_id_hex s)
    end in
  session_share_label machine (share_name s).

(** The checks on the embedded ticket. *)
Definition check_share_ticket (share : SessionShareEnvelopeV1) (now : Z) (recipient : option string)
    : result SaveError PortlTicket :=
  t ← ok_or (decode_string (share_ticket share)) BadTicket;
  map_err InvalidTicket (canonical_check_ticket t);;
  map_err InvalidTicket (verify_body (resolved_issuer t) (body t) (sig t));;
  ensure ((v t =? 1) && negb (is_some (parent (body t))) && negb (is_some (bearer (body t))) &&
          bool_decide (caps (body t) = interactive_shell_caps)) NotShareTicket;;
  ensure (eq_ignore_ascii_case (hex_encode (addr_id (addr t))) (target_endpoint_id_hex share)) TargetMismatch;;
  ensure (not_after (body t) <=? access_not_after_unix share) OutlivesShare;;
  ensure (negb (not_after (body t) <=? now)) (TicketExpired (now - not_after (body t)));;
  match recipient with
  | None => Ok tt
  | Some expected =>
      holder ← ok_or (to (body t)) NotBound;
      ensure (eq_ignore_ascii_case (hex_encode holder) expected) OtherRecipient
  end;;
  Ok t.

Definition plan_import (e : PortlExchangeEnvelopeV1) (label recipient : option string) (fs : Fs)
    (peers_path tickets_path : string) (now : Z) : result SaveError (TicketStore * SavedTicket) :=
  let share := payload e in
  ensure (validate_envelope e) BadEnvelope;;
  ensure (negb (match env_not_after_unix e with Some na => na <=? now | None => false end)) ShareExpired;;
  ensure (negb (access_not_after_unix share <=? now)) ShareExpired;;
  t ← check_share_ticket share now recipient;
  let l := match label with Some s => trim s | None => import_label share end in
  ensure (negb (bool_decide (trim l = ""))) EmptyLabel;;
  peers ← map_err SaveStore (Peers.load fs peers_path);
  tickets ← map_err SaveStore (Tickets.load fs tickets_path);
  let eid_hex := hex_encode (addr_id (addr t)) in
  let entry := {| Tickets.endpoint_id_hex := eid_hex; ticket_string := share_ticket share;
                  expires_at := not_after (body t); saved_at := now;
                  session_share := Some {| friendly_name := share_name share;
                    provider_session := share_provider_session share; provider := share_provider share;
                    origin_label_hint := share_origin_hint share; target_label_hint := share_target_hint share |} |} in
  tickets' ← file_ticket peers tickets l entry;
  Ok (tickets', {| saved_label := l; saved_endpoint_id_hex := eid_hex; saved_expires_at := not_after (body t);
                   saved_now := now |}).

Definition import_session_share_envelope (e : PortlExchangeEnvelopeV1) (label recipient : option string) (fs : Fs)
    (peers_path tickets_path : string) (now : Z) (fault : option nat) : Fs * result SaveError SavedTicket :=
  write_tickets fs tickets_path fault (plan_import e label recipient fs peers_path tickets_path now).

(** ** What a resolved target is *)

Context {EDL : Ed25519Laws} {IAL : IrohAddrLaws}.

Lemma reject_expired_Ok expires now u : reject_expired expires now = Ok u ↔ now < expires.
Proof. unfold reject_expired. destruct u. destruct (Z.leb_spec expires now); split; (done || lia). Qed.

Lemma or_fail_Ok {A} (r : result ResolveError A) k x : or_fail r k = Some (Ok x) → ∃ a, r = Ok a ∧ k a = Some (Ok x).
Proof. destruct r; simpl; [eauto | done]. Qed.

Lemma endpoint_id_from_hex_Ok s id : endpoint_id_from_hex s = Ok id → hex_decode s = Some id ∧ length id = 32%nat.
Proof. unfold endpoint_id_from_hex. intros H. inv_result. subst. by reflect_bool. Qed.

(** A ticket minted here: for [id], with the capabilities asked for, to our own key, and
    signed by it. *)
Record own_ticket (o : ResolveTargetOptions) (id : bytes) (t : PortlTicket) : Prop := {
  own_target : addr_id (addr t) = id;
  own_caps : caps (body t) = opt_caps o;
  own_holder : to (body t) = Some (verifying_key (identity o));
  own_start : not_before (body t) = now_unix o;
  own_signed : signed_by (verifying_key (identity o)) (body t) (sig t);
  own_issuer : resolved_issuer t = verifying_key (identity o);
}.

Lemma mint_for_Ok o draws a src r : mint_for o draws a src = Some (Ok r) →
  own_ticket o (addr_id a) (res_ticket r) ∧ now_unix o < res_expires_at r ∧
  res_expires_at r = not_after (body (res_ticket r)) ∧ res_source r = src.
Proof.
  unfold mint_for, mint_root. intros (m & Hm & Hr)%bind_Some. apply bind_Some in Hm as (n & _ & [= <-]).
  injection Hr as Hr. apply bind_Ok in Hr as (t & Ht & [= <-]). apply map_err_Ok in Ht.
  apply sign_ticket_Ok in Ht as (_ & Ha & Hb & Hc & Hs). cbn [resolved_ticket res_ticket res_expires_at res_source].
  rewrite <- Ha. split; [| by split_and!; [destruct Hc as [[_ _ Hw] _ _]; rewrite Hb in *; simpl in *; lia | |]].
  split; rewrite ?Hb; try done; [by rewrite <- Hb |].
  unfold resolved_issuer, issuer_for. rewrite Hb. cbn [issuer]. unfold issuer_for. rewrite Ha. by case_decide.
Qed.

(** Where a resolved target may come from. *)
Definition resolves (tgt : string) (o : ResolveTargetOptions) (fs : Fs) (r : ResolvedTarget) : Prop :=
  match res_source r with
  | InlineTicket => decode_string tgt = Some (res_ticket r)
  | FromPeerStore => ∃ peers e id, Peers.load fs (peer_store_path o) = Ok peers ∧
      get_by_label peers tgt = Some e ∧ last_hold_at e = None ∧ they_accept_from_me e = true ∧
      hex_decode (Peers.endpoint_id_hex e) = Some id ∧ own_ticket o id (res_ticket r)
  | FromTicketStore => ∃ peers tickets e, Peers.load fs (peer_store_path o) = Ok peers ∧
      Tickets.load fs (ticket_store_path o) = Ok tickets ∧ Tickets.get tickets tgt = Some e ∧
      now_unix o < expires_at e ∧ decode_string (ticket_string e) = Some (res_ticket r) ∧
      ∀ p, get_by_label peers tgt = Some p → last_hold_at p = None ∧ they_accept_from_me p = false
  | RawEndpointId => ∃ peers tickets id, Peers.load fs (peer_store_path o) = Ok peers ∧
      Tickets.load fs (ticket_store_path o) = Ok tickets ∧ get_by_label peers tgt = None ∧
      Tickets.get tickets tgt = None ∧ hex_decode tgt = Some id ∧ own_ticket o id (res_ticket r)
  end.

Lemma peer_addr_Ok e a : peer_addr e = Ok a → hex_decode (Peers.endpoint_id_hex e) = Some (addr_id a).
Proof.
  unfold peer_addr. intros (id & Hid & Ha)%bind_Ok. apply endpoint_id_from_hex_Ok in Hid as [Hid _].
  destruct (relay_hint e).
  - apply ok_or_Ok in Ha. by rewrite (with_relay_id _ _ _ Ha), addr_new_id.
  - injection Ha as <-. by rewrite addr_new_id.
Qed.

Lemma resolve_saved_Ok o e r : resolve_saved o e = Ok r →
  now_unix o < expires_at e ∧ decode_string (ticket_string e) = Some (res_ticket r) ∧
  now_unix o < res_expires_at r ∧ res_expires_at r = not_after (body (res_ticket r)) ∧ res_source r = FromTicketStore.
Proof.
  unfold resolve_saved. intros H. inv_result. subst. rewrite !reject_expired_Ok in *. done.
Qed.

Lemma parse_endpoint_id_Ok s id : parse_endpoint_id s = Ok (Some id) → hex_decode s = Some id.
Proof.
  unfold parse_endpoint_id. case_match; [done |]. intros (id' & Hid & [= <-])%bind_Ok.
  by apply endpoint_id_from_hex_Ok in Hid as [Hid _].
Qed.

Lemma resolve_label_Ok tgt o draws fs peers tickets r :
  Peers.load fs (peer_store_path o) = Ok peers → Tickets.load fs (ticket_store_path o) = Ok tickets →
  resolve_label tgt o draws peers tickets = Some (Ok r) →
  resolves tgt o fs r ∧ now_unix o < res_expires_at r ∧ res_expires_at r = not_after (body (res_ticket r)).
Proof.
  intros Hp Ht. unfold resolve_label. set (fall := match Tickets.get tickets tgt with Some _ => _ | None => _ end).
  assert (∀ p, get_by_label peers tgt = p →
    (∀ e, p = Some e → last_hold_at e = None ∧ they_accept_from_me e = false) → fall = Some (Ok r) →
    resolves tgt o fs r ∧ now_unix o < res_expires_at r ∧ res_expires_at r = not_after (body (res_ticket r))) as Hfall.
  { intros p Hl Hno Hr. subst fall. destruct (Tickets.get tickets tgt) as [e|] eqn:Hg.
    - injection Hr as Hr. apply resolve_saved_Ok in Hr as (He & Hd & Hx & Hy & Hsrc). split; [| done].
      unfold resolves. rewrite Hsrc. exists peers, tickets, e. split_and!; try done. rewrite Hl. apply Hno.
    - rewrite Hl in Hr. destruct p as [e|]; [done |]. apply or_fail_Ok in Hr as ([id|] & Hid & Hr); [| done].
      apply mint_for_Ok in Hr as (Hown & Hx & Hy & Hsrc). rewrite addr_new_id in Hown. split; [| done].
      unfold resolves. rewrite Hsrc. exists peers, tickets, id. apply parse_endpoint_id_Ok in Hid. by split_and!. }
  destruct (get_by_label peers tgt) as [e|] eqn:Hl; [| by apply (Hfall None)].
  destruct (last_hold_at e) as [h|] eqn:Hh; [done |]. destruct (they_accept_from_me e) eqn:Hacc; simpl.
  - intros (a & Ha & Hr)%or_fail_Ok. apply mint_for_Ok in Hr as (Hown & Hx & Hy & Hsrc). split; [| done].
    unfold resolves. rewrite Hsrc. exists peers, e, (addr_id a). apply peer_addr_Ok in Ha. by split_and!.
  - apply (Hfall (Some e)); [done |]. by intros e' [= <-].
Qed.

(** C10: a target resolves to a ticket that has not expired and that is the one pasted in;
    or one minted by our key, for our key, with the capabilities asked for, to the
    endpoint of the peer of that label, which is not held and accepts us, or to the
    endpoint named when no store has the label; or the one saved under the label, when no
    held peer and no peer that accepts us has it. *)
Theorem resolve_target_sound raw o draws fs r : resolve_target raw o draws fs = Some (Ok r) →
  resolves (trim raw) o fs r ∧ now_unix o < res_expires_at r ∧ res_expires_at r = not_after (body (res_ticket r)).
Proof.
  unfold resolve_target. case_decide as He; [done |]. destruct (decode_string (trim raw)) as [t|] eqn:Hd.
  - intros [= H]. inv_result. subst. rewrite reject_expired_Ok in *. done.
  - intros (peers & Hp & (tickets & Ht & Hr)%or_fail_Ok)%or_fail_Ok. apply map_err_Ok in Hp. apply map_err_Ok in Ht.
    by eapply resolve_label_Ok.
Qed.

(** ** What saving a ticket does *)

Context {JTL : JsonFileLaws TicketStore}.

(** [tickets'] is [tickets] with [e] under [l], which no peer has, and whose earlier entry
    was for the same endpoint and expired before. *)
Record filed (peers : PeerStore) (tickets tickets' : TicketStore) (l : string) (e : TicketEntry) : Prop := {
  filed_store : tickets' = {| Tickets.schema := Tickets.schema tickets; Tickets.entries := <[l := e]> (Tickets.entries tickets) |};
  filed_no_peer : get_by_label peers l = None;
  filed_later old : Tickets.get tickets l = Some old →
    eq_ignore_ascii_case (Tickets.endpoint_id_hex old) (Tickets.endpoint_id_hex e) = true ∧ expires_at old < expires_at e;
}.

Lemma file_ticket_Ok peers tickets l e tickets' :
  file_ticket peers tickets l e = Ok tickets' → filed peers tickets tickets' l e.
Proof.
  unfold file_ticket. intros ([] & Hpeer%ensure_Ok & (c & Hc & Hi%map_err_Ok)%bind_Ok)%bind_Ok. reflect_bool.
  assert (get_by_label peers l = None) as Hnone by by destruct (get_by_label peers l).
  unfold Tickets.insert in Hi. destruct (Tickets.entries c !! l) as [x|] eqn:Hx; [done |]. injection Hi as <-.
  destruct (Tickets.get tickets l) as [old|] eqn:Hg.
  - apply bind_tt in Hc as [Hend%ensure_Ok Hc]. apply bind_tt in Hc as [Hexp%ensure_Ok Hc]. injection Hc as <-.
    reflect_bool. split; [simpl; by rewrite insert_delete_eq | done |]. intros old' Hold. simplify_eq. split; [done | lia].
  - injection Hc as <-. split; [done | done |]. intros old Hold. congruence.
Qed.

Lemma write_tickets_spec {A} fs path fault (r : result SaveError (TicketStore * A)) fs' w ts :
  write_tickets fs path fault r = (fs', w) → Tickets.load fs path = Ok ts →
  (∀ s a, r = Ok (s, a) → Tickets.schema s = CURRENT_SCHEMA) →
  match w with
  | Ok a => ∃ s, r = Ok (s, a) ∧ Tickets.load fs' path = Ok s
  | Err _ => Tickets.load fs' path = Ok ts
  end.
Proof.
  intros Hw Hl Hs. destruct r as [[s a]|e]; simpl in Hw; [| by injection Hw as <- <-].
  destruct (Tickets.save s fs path fault) as [fs1 [[]|e]] eqn:Hsave; injection Hw as <- <-;
    apply tickets_save_spec in Hsave; try by eapply Hs.
  - simpl. eauto.
  - simpl. congruence.
Qed.

(** The ticket that [plan_save] files. *)
Record saves (label : option string) (text : string) (peers : PeerStore) (ts ts' : TicketStore) (now : Z)
    (saved : SavedTicket) (t : PortlTicket) (e : TicketEntry) : Prop := {
  sv_text : decode_string text = Some t ∧ ticket_string e = text;
  sv_filed : filed peers ts ts' (saved_label saved) e;
  sv_label : saved_label saved ≠ "";
  sv_endpoint : Tickets.endpoint_id_hex e = hex_encode (addr_id (addr t));
  sv_expiry : expires_at e = not_after (body t) ∧ now < expires_at e;
}.

Lemma plan_save_Ok label text fs pp tp now peers ts ts' saved :
  Peers.load fs pp = Ok peers → Tickets.load fs tp = Ok ts → plan_save label text fs pp tp now = Ok (ts', saved) →
  ∃ t e, saves label text peers ts ts' now saved t e.
Proof.
  unfold plan_save. intros -> ->. cbn [map_err mbind result_bind]. intros (t & Hd%ok_or_Ok & H)%bind_Ok.
  apply bind_tt in H as [Hexp%ensure_Ok H]. apply bind_tt in H as [Hne%ensure_Ok H].
  apply bind_Ok in H as (ts2 & Hf%file_ticket_Ok & [= <- <-]). reflect_bool. eexists t, _.
  split; [| exact Hf | | |]; simpl; [done | done | done | split; [done | lia]].
Qed.

(** Saving a ticket either fails and leaves the saved tickets as they were, or adds
    just the given ticket, which has not expired, filed under its own endpoint and expiry
    and under a label that no peer has; a ticket already saved under the label was for the
    same endpoint and expires earlier. *)
Theorem save_ticket_effect label text fs pp tp now fault fs' w peers ts :
  save_ticket_at label text fs pp tp now fault = (fs', w) →
  Peers.load fs pp = Ok peers → Tickets.load fs tp = Ok ts →
  match w with
  | Err _ => Tickets.load fs' tp = Ok ts
  | Ok saved => ∃ t ts' e, Tickets.load fs' tp = Ok ts' ∧ saves label text peers ts ts' now saved t e
  end.
Proof.
  unfold save_ticket_at. intros Hw Hp Ht. pose proof (tickets_load_schema _ _ _ Ht) as Hs.
  apply (write_tickets_spec _ _ _ _ _ _ ts) in Hw; [| done |].
  - destruct w as [saved|e]; [| done]. destruct Hw as (ts' & Hr & Hl).
    destruct (plan_save_Ok _ _ _ _ _ _ _ _ _ _ Hp Ht Hr) as (t & e & Hsv). by exists t, ts', e.
  - intros ts' saved Hr. destruct (plan_save_Ok _ _ _ _ _ _ _ _ _ _ Hp Ht Hr) as (t & e & [_ [-> _ _] _ _ _]). done.
Qed.

(** What the ticket of a session share must be. *)
Record share_ticket_ok (share : SessionShareEnvelopeV1) (now : Z) (recipient : option string) (t : PortlTicket) : Prop := {
  sto_text : decode_string (share_ticket share) = Some t;
  sto_signed : signed_by (resolved_issuer t) (body t) (sig t);
  sto_root : parent (body t) = None ∧ bearer (body t) = None;
  sto_caps : caps (body t) = interactive_shell_caps;
  sto_target : eq_ignore_ascii_case (hex_encode (addr_id (addr t))) (target_endpoint_id_hex share) = true;
  sto_window : now < not_after (body t) ≤ access_not_after_unix share;
  sto_bound expected : recipient = Some expected → ∃ h, to (body t) = Some h ∧
    eq_ignore_ascii_case (hex_encode h) expected = true;
}.

Lemma check_share_ticket_Ok share now recipient t :
  check_share_ticket share now recipient = Ok t → share_ticket_ok share now recipient t.
Proof.
  unfold check_share_ticket. intros H.
  apply bind_Ok in H as (t' & Hd%ok_or_Ok & H). apply bind_tt in H as [_ H].
  apply bind_tt in H as [Hs%map_err_Ok H]. apply bind_tt in H as [Hk%ensure_Ok H].
  apply bind_tt in H as [Ht%ensure_Ok H]. apply bind_tt in H as [Ho%ensure_Ok H].
  apply bind_tt in H as [Hx%ensure_Ok H]. apply bind_tt in H as [Hr H]. injection H as <-. reflect_bool.
  apply verify_body_iff in Hs. split; try done.
  - by destruct (parent (body t')), (bearer (body t')).
  - intros expected ->. apply bind_Ok in Hr as (h & Hh%ok_or_Ok & He%ensure_Ok). eauto.
Qed.

Lemma plan_import_Ok env label recipient fs pp tp now peers ts ts' saved :
  Peers.load fs pp = Ok peers → Tickets.load fs tp = Ok ts →
  plan_import env label recipient fs pp tp now = Ok (ts', saved) →
  ∃ t e, share_ticket_ok (payload env) now recipient t ∧ filed peers ts ts' (saved_label saved) e ∧
    ticket_string e = share_ticket (payload env) ∧ expires_at e = not_after (body t).
Proof.
  unfold plan_import. intros -> ->. cbn [map_err mbind result_bind]. intros [_ H]%bind_tt.
  apply bind_tt in H as [_ H]. apply bind_tt in H as [_ H].
  apply bind_Ok in H as (t & Hc%check_share_ticket_Ok & H). apply bind_tt in H as [_ H].
  apply bind_Ok in H as (ts2 & Hf%file_ticket_Ok & [= <- <-]). eexists t, _. split; [done |]. split; [exact Hf |]. done.
Qed.

(** Importing a session share either fails and leaves the saved tickets as they were,
    or adds just its ticket: a root ticket signed by its issuer, with exactly the
    capabilities of an interactive shell and no bearer, for the endpoint of the share,
    within the window of the share, and bound to the expected recipient if there is one. *)
Theorem import_share_sound env label recipient fs pp tp now fault fs' w peers ts :
  import_session_share_envelope env label recipient fs pp tp now fault = (fs', w) →
  Peers.load fs pp = Ok peers → Tickets.load fs tp = Ok ts →
  match w with
  | Err _ => Tickets.load fs' tp = Ok ts
  | Ok saved => ∃ t ts' e, Tickets.load fs' tp = Ok ts' ∧ share_ticket_ok (payload env) now recipient t ∧
      filed peers ts ts' (saved_label saved) e ∧ ticket_string e = share_ticket (payload env) ∧
      expires_at e = not_after (body t)
  end.
Proof.
  unfold import_session_share_envelope. intros Hw Hp Ht. pose proof (tickets_load_schema _ _ _ Ht) as Hs.
  apply (write_tickets_spec _ _ _ _ _ _ ts) in Hw; [| done |].
  - destruct w as [saved|e]; [| done]. destruct Hw as (ts' & Hr & Hl).
    destruct (plan_import_Ok _ _ _ _ _ _ _ _ _ _ _ Hp Ht Hr) as (t & e & H). by exists t, ts', e.
  - intros ts' saved Hr. by destruct (plan_import_Ok _ _ _ _ _ _ _ _ _ _ _ Hp Ht Hr) as (t & e & _ & [-> _ _] & _).
Qed.
End resolve.
