(* ===== verification/ResolveDemo.v ===== *)
(** * Targets and saved tickets on concrete stores

    Witnesses of Resolve.v, and what pairing does to a label that a saved ticket has. *)

From S2P Require Import Prelude Schema Canonical Sample Codec Revocations Chain Labels Files.
From S2P Require Import Peers Tickets Invites InviteCode HexDemo Pairing Trust PairDemo Resolve.

Module ResolveDemo.
Import Params HexDemo PairDemo.

Definition target_id : bytes := replicate 32 9.

Definition ticket1 : PortlTicket :=
  match mint_root root_key target_id interactive_shell_caps 100 200 None [nonce1] with
  | Some (Ok t) => t
  | _ => {| v := 0; addr := target_id; sig := [];
            body := {| caps := interactive_shell_caps; target := target_id; alpns_extra := []; not_before := 0;
                       not_after := 0; issuer := None; parent := None; Schema.nonce := []; bearer := None; to := None |} |}
  end.

#[export] Instance text : TicketText := {|
  decode_string s := if decide (s = "portlone") then Some ticket1 else None; encode_string _ := "portltwo" |}.
#[export] Instance addrs : IrohAddr := {|
  endpoint_valid _ := true; addr_new b := b; with_relay_url a _ := Some a |}.
#[export] Instance addrs_laws : IrohAddrLaws.
Proof. split; [done | by intros a u a' [= <-]]. Qed.

Definition saved_entry : TicketEntry :=
  {| Tickets.endpoint_id_hex := hex_str target_id; ticket_string := "portlone"; expires_at := 200; saved_at := 150;
     session_share := None |}.

Definition share : SessionShareEnvelopeV1 :=
  {| workspace_id := "ws"; share_name := "Dot Files"; conflict_handle := "7k3p"; share_origin_hint := None;
     share_target_hint := Some "max-b265"; target_endpoint_id_hex := hex_str target_id; share_provider := None;
     share_provider_session := "main"; share_ticket := "portlone"; access_not_after_unix := 250 |}.

Definition shared_entry : TicketEntry :=
  {| Tickets.endpoint_id_hex := hex_str target_id; ticket_string := "portlone"; expires_at := 200; saved_at := 150;
     session_share := Some {| friendly_name := "Dot Files"; provider_session := "main"; provider := None;
       origin_label_hint := None; target_label_hint := Some "max-b265" |} |}.

Definition tickets_of (l : string) (e : TicketEntry) : TicketStore :=
  {| Tickets.schema := 1; Tickets.entries := {[ l := e ]} |}.

#[export] Instance TicketStore_eq_dec : EqDecision TicketStore.
Proof. solve_decision. Defined.
#[export] Instance tickets_json : JsonFile TicketStore :=
  Table.json [tickets_of "ann-0202" saved_entry; tickets_of "max-b265/dot-files" shared_entry].
#[export] Instance tickets_json_laws : JsonFileLaws TicketStore := Table.table_laws _.

Definition saved_run := save_ticket_at (Some " ann-0202 ") "portlone" fs0 "peers.json" "tickets.json" 150 None.
Definition imported_run :=
  import_session_share_envelope (session_share_envelope share 100 (Some 240)) None None fs0
    "peers.json" "tickets.json" 150 None.

Definition ok_saved (r : result SaveError SavedTicket) : SavedTicket :=
  match r with
  | Ok s => s
  | Err _ => {| saved_label := ""; saved_endpoint_id_hex := ""; saved_expires_at := 0; saved_now := 0 |}
  end.

Lemma saved_ok : saved_run = (saved_run.1, Ok (ok_saved saved_run.2)).
Proof. by_vm. Qed.
Lemma imported_ok : imported_run = (imported_run.1, Ok (ok_saved imported_run.2)).
Proof. by_vm. Qed.
Lemma no_tickets : Tickets.load fs0 "tickets.json" = Ok Tickets.new.
Proof. by_vm. Qed.

Lemma save_ticket_effect_witness : ∃ t ts' e, Tickets.load saved_run.1 "tickets.json" = Ok ts' ∧
  saves (Some " ann-0202 ") "portlone" peers0 Tickets.new ts' 150 (ok_saved saved_run.2) t e.
Proof.
  apply (save_ticket_effect (Some " ann-0202 ") "portlone" fs0 "peers.json" "tickets.json" 150 None
    saved_run.1 (Ok (ok_saved saved_run.2)) peers0 Tickets.new saved_ok demo_load no_tickets).
Defined.

Lemma import_share_sound_witness : ∃ t ts' e, Tickets.load imported_run.1 "tickets.json" = Ok ts' ∧
  share_ticket_ok share 150 None t ∧ filed peers0 Tickets.new ts' (saved_label (ok_saved imported_run.2)) e ∧
  ticket_string e = "portlone" ∧ expires_at e = not_after (body t).
Proof.
  apply (import_share_sound (session_share_envelope share 100 (Some 240)) None None fs0 "peers.json" "tickets.json" 150
    None imported_run.1 (Ok (ok_saved imported_run.2)) peers0 Tickets.new imported_ok demo_load no_tickets).
Defined.

Definition options : ResolveTargetOptions :=
  {| identity := root_key; opt_caps := interactive_shell_caps; peer_store_path := "peers.json";
     ticket_store_path := "tickets.json"; now_unix := 150; ephemeral_ttl_secs := 60 |}.

Definition resolved (raw : string) (fs : Fs) : ResolvedTarget :=
  match resolve_target raw options [nonce1] fs with
  | Some (Ok r) => r
  | _ => resolved_ticket ticket1 "" InlineTicket
  end.

Lemma resolved_self : resolve_target "self" options [nonce1] saved_run.1 = Some (Ok (resolved "self" saved_run.1)) ∧
  res_source (resolved "self" saved_run.1) = FromPeerStore.
Proof. split; by_vm. Qed.

Lemma resolve_target_sound_witness :
  resolves (trim "self") options saved_run.1 (resolved "self" saved_run.1) ∧
  150 < res_expires_at (resolved "self" saved_run.1) ∧
  res_expires_at (resolved "self" saved_run.1) = not_after (body (res_ticket (resolved "self" saved_run.1))).
Proof. apply (resolve_target_sound "self" options [nonce1] saved_run.1). apply resolved_self. Defined.

(** ** Labels of peers and tickets *)

(** No label names both a peer and a ticket. *)
Definition labels_disjoint (fs : Fs) : bool :=
  match Peers.load fs "peers.json", Tickets.load fs "tickets.json" with
  | Ok peers, Ok tickets =>
      forallb (λ e, negb (bool_decide (is_Some (Tickets.get tickets (Peers.label e))))) (iter peers)
  | _, _ => false
  end.

Definition paired_run := handle_pair env saved_run.1 ann (req "Ann") 100 None None.

(** Pairing looks for a free label among the peers only, so it can give a new peer the
    label of a saved ticket, and the label changes its meaning: here "ann-0202" resolves to
    the endpoint of the saved ticket before the pairing, and to the new peer after it. *)
Theorem pairing_shadows_saved_ticket :
  labels_disjoint saved_run.1 = true ∧
  addr_id (addr (res_ticket (resolved "ann-0202" saved_run.1))) = target_id ∧
  (∃ resp, paired_run.2 = Ok resp ∧ responder_chosen_label resp = Some "ann-0202") ∧
  labels_disjoint paired_run.1 = false ∧
  res_source (resolved "ann-0202" paired_run.1) = FromPeerStore ∧
  addr_id (addr (res_ticket (resolved "ann-0202" paired_run.1))) = ann.
Proof.
  split; [by_vm |]. split; [by_vm |]. split; [| split_and!; by_vm].
  exists (ok_resp paired_run.2). split; by_vm.
Qed.
End ResolveDemo.
