(* ===== verification/Watchdog.v ===== *)
(** * The network watchdog

    crates/portl-agent/src/network_watchdog.rs probes the agent's own endpoint and asks
    the accept loop of lib.rs for a new one after repeated failures.  [Inner] is the
    health record; [tick] is a tick of the task that nothing disturbs.  The steps of [step] are what the task and the
    accept loop do between two waits or accesses to the record, and the inbound handshakes, over the health, the commands in
    the channel and where the two are, so that every interleaving is a run.
    Durations are nanoseconds, times Unix seconds. *)

From S2P Require Import Prelude Canonical.

Inductive WatchdogState := Disabled | Healthy | Degraded | Refreshing | Failed.

#[export] Instance WatchdogState_eq_dec : EqDecision WatchdogState.
Proof. solve_decision. Defined.

Definition NANOS : Z := 1000000000.
Definition DURATION_MAX : Z := U64_MAX * NANOS + (NANOS - 1).
Definition as_secs (d : Z) : Z := d `div` NANOS.

Definition RECENT_INBOUND_SKIP_MULTIPLIER : Z := 2.

Record WatchdogConfig := {
  enabled : bool;
  interval : Z;
  timeout : Z;
  failures_before_refresh : Z;
}.

Definition default_config : WatchdogConfig :=
  {| enabled := true; interval := 300 * NANOS; timeout := 5 * NANOS; failures_before_refresh := 3 |}.

Record Inner := {
  state : WatchdogState;
  endpoint_generation : Z;
  endpoint_started_at : Z;
  last_inbound_handshake_at : option Z;
  last_self_probe_ok_at : option Z;
  last_self_probe_failed_at : option Z;
  consecutive_self_probe_failures : Z;
  endpoint_refresh_count : Z;
  consecutive_endpoint_refresh_failures : Z;
  last_endpoint_refresh_at : option Z;
  next_endpoint_refresh_not_before : option Z;
  last_endpoint_refresh_error : option string;
}.

(** ** The health record *)

Definition new (now : Z) : Inner :=
  {| state := Healthy; endpoint_generation := 1; endpoint_started_at := now; last_inbound_handshake_at := None;
     last_self_probe_ok_at := None; last_self_probe_failed_at := None; consecutive_self_probe_failures := 0;
     endpoint_refresh_count := 0; consecutive_endpoint_refresh_failures := 0; last_endpoint_refresh_at := None;
     next_endpoint_refresh_not_before := None; last_endpoint_refresh_error := None |}.

Definition set_disabled (h : Inner) : Inner :=
  {| state := Disabled; endpoint_generation := endpoint_generation h; endpoint_started_at := endpoint_started_at h;
     last_inbound_handshake_at := last_inbound_handshake_at h; last_self_probe_ok_at := last_self_probe_ok_at h;
     last_self_probe_failed_at := last_self_probe_failed_at h;
     consecutive_self_probe_failures := consecutive_self_probe_failures h;
     endpoint_refresh_count := endpoint_refresh_count h;
     consecutive_endpoint_refresh_failures := consecutive_endpoint_refresh_failures h;
     last_endpoint_refresh_at := last_endpoint_refresh_at h;
     next_endpoint_refresh_not_before := next_endpoint_refresh_not_before h;
     last_endpoint_refresh_error := last_endpoint_refresh_error h |}.

Definition disabled (now : Z) : Inner := set_disabled (new now).

(** What an inbound handshake and a successful probe share. *)
Definition recovered (h : Inner) (inbound probe_ok : option Z) : Inner :=
  {| state := Healthy; endpoint_generation := endpoint_generation h; endpoint_started_at := endpoint_started_at h;
     last_inbound_handshake_at := inbound; last_self_probe_ok_at := probe_ok;
     last_self_probe_failed_at := last_self_probe_failed_at h; consecutive_self_probe_failures := 0;
     endpoint_refresh_count := endpoint_refresh_count h; consecutive_endpoint_refresh_failures := 0;
     last_endpoint_refresh_at := last_endpoint_refresh_at h; next_endpoint_refresh_not_before := None;
     last_endpoint_refresh_error := None |}.

Definition record_inbound_handshake (h : Inner) (now : Z) : Inner :=
  recovered h (Some now) (last_self_probe_ok_at h).

Definition record_probe_success (h : Inner) (now : Z) : Inner :=
  recovered h (last_inbound_handshake_at h) (Some now).

(** Returns the count of the [ProbeFailureAction]. *)
Definition record_probe_failure (h : Inner) (now : Z) : Inner * Z :=
  let n := saturating_add U32_MAX (consecutive_self_probe_failures h) 1 in
  ({| state := if decide (state h = Failed) then Failed else Degraded;
      endpoint_generation := endpoint_generation h; endpoint_started_at := endpoint_started_at h;
      last_inbound_handshake_at := last_inbound_handshake_at h; last_self_probe_ok_at := last_self_probe_ok_at h;
      last_self_probe_failed_at := Some now; consecutive_self_probe_failures := n;
      endpoint_refresh_count := endpoint_refresh_count h;
      consecutive_endpoint_refresh_failures := consecutive_endpoint_refresh_failures h;
      last_endpoint_refresh_at := last_endpoint_refresh_at h;
      next_endpoint_refresh_not_before := next_endpoint_refresh_not_before h;
      last_endpoint_refresh_error := last_endpoint_refresh_error h |}, n).

Definition should_refresh (c : WatchdogConfig) (consecutive_failures : Z) : bool :=
  enabled c && (Z.max (failures_before_refresh c) 1 <=? consecutive_failures).

Definition record_endpoint_refresh_started (h : Inner) : Inner :=
  {| state := Refreshing; endpoint_generation := endpoint_generation h; endpoint_started_at := endpoint_started_at h;
     last_inbound_handshake_at := last_inbound_handshake_at h; last_self_probe_ok_at := last_self_probe_ok_at h;
     last_self_probe_failed_at := last_self_probe_failed_at h; consecutive_self_probe_failures := 0;
     endpoint_refresh_count := endpoint_refresh_count h;
     consecutive_endpoint_refresh_failures := consecutive_endpoint_refresh_failures h;
     last_endpoint_refresh_at := last_endpoint_refresh_at h;
     next_endpoint_refresh_not_before := next_endpoint_refresh_not_before h;
     last_endpoint_refresh_error := last_endpoint_refresh_error h |}.

Definition record_endpoint_refresh_success (h : Inner) (now : Z) : Inner :=
  {| state := Healthy; endpoint_generation := saturating_add U64_MAX (endpoint_generation h) 1;
     endpoint_started_at := now; last_inbound_handshake_at := None; last_self_probe_ok_at := last_self_probe_ok_at h;
     last_self_probe_failed_at := last_self_probe_failed_at h; consecutive_self_probe_failures := 0;
     endpoint_refresh_count := saturating_add U64_MAX (endpoint_refresh_count h) 1;
     consecutive_endpoint_refresh_failures := 0; last_endpoint_refresh_at := Some now;
     next_endpoint_refresh_not_before := None; last_endpoint_refresh_error := None |}.

(** In seconds. *)
Definition refresh_backoff (consecutive_failures : Z) : Z :=
  if consecutive_failures <=? 1 then 300
  else if consecutive_failures =? 2 then 600
  else if consecutive_failures =? 3 then 1200
  else 3600.

Definition record_endpoint_refresh_failure (h : Inner) (now : Z) (error : string) : Inner :=
  let n := saturating_add U32_MAX (consecutive_endpoint_refresh_failures h) 1 in
  {| state := Failed; endpoint_generation := endpoint_generation h; endpoint_started_at := endpoint_started_at h;
     last_inbound_handshake_at := last_inbound_handshake_at h; last_self_probe_ok_at := last_self_probe_ok_at h;
     last_self_probe_failed_at := last_self_probe_failed_at h;
     consecutive_self_probe_failures := consecutive_self_probe_failures h;
     endpoint_refresh_count := endpoint_refresh_count h; consecutive_endpoint_refresh_failures := n;
     last_endpoint_refresh_at := Some now;
     next_endpoint_refresh_not_before := Some (saturating_add U64_MAX now (refresh_backoff n));
     last_endpoint_refresh_error := Some error |}.

Definition refresh_allowed (h : Inner) (now : Z) : bool :=
  match next_endpoint_refresh_not_before h with None => true | Some nb => nb <=? now end.

(** ** A tick *)

Inductive ProbeOutcome := ProbeSuccess | ProbeFailure (error : string).

Definition apply_probe_outcome (c : WatchdogConfig) (h : Inner) (now : Z) (o : ProbeOutcome) : Inner * bool :=
  match o with
  | ProbeSuccess => (record_probe_success h now, false)
  | ProbeFailure _ => let '(h', n) := record_probe_failure h now in (h', should_refresh c n)
  end.

Definition should_skip_probe_after_recent_inbound (h : Inner) (c : WatchdogConfig) (now : Z) : bool :=
  match last_inbound_handshake_at h with
  | None => false
  | Some last =>
      saturating_sub now last <=?
        as_secs (saturating_mul DURATION_MAX (interval c) RECENT_INBOUND_SKIP_MULTIPLIER)
  end.

(** What a tick meets: the clock when it looks at the last handshake, after the probe, and
    when it looks at the backoff; the outcome of the probe; and whether the accept loop
    still has its end of the channel. *)
Record Tick := { t_skip : Z; t_probe : Z; t_allow : Z; outcome : ProbeOutcome; channel_open : bool }.

Inductive TickResult := Skipped | Probed | Requested | Stopped.

Definition tick (c : WatchdogConfig) (h : Inner) (t : Tick) : Inner * TickResult :=
  if decide (state h = Refreshing) then (h, Skipped)
  else if should_skip_probe_after_recent_inbound h c (t_skip t) then (h, Skipped)
  else
    let '(h1, refresh) := apply_probe_outcome c h (t_probe t) (outcome t) in
    if refresh && negb (refresh_allowed h1 (t_allow t)) then (h1, Probed)
    else if refresh then
      let h2 := record_endpoint_refresh_started h1 in
      if channel_open t then (h2, Requested)
      else (record_endpoint_refresh_failure h2 (t_allow t) "agent accept loop is unavailable", Stopped)
    else (h1, Probed).

Definition jittered_interval (d pid : Z) : Z :=
  if d <=? NANOS then d
  else
    let jitter_window := Z.max (d `div` 10) NANOS in
    saturating_add DURATION_MAX d (pid `mod` (jitter_window `div` 1000000) * 1000000).

(** ** The accept loop's side (lib.rs) *)

(** Where the accept loop is: in its [select!], waiting for the new endpoint, closing the old one, or after the loop *)
Inductive LoopStage := Selecting | Binding | Closing | Exited.

#[export] Instance LoopStage_eq_dec : EqDecision LoopStage.
Proof. solve_decision. Defined.

Inductive BindResult := BindOk | BindErr (error : string).

(** A command is taken from the channel; a fixed listen address ends the agent. *)
Definition take_refresh (fixed : bool) (h : Inner) (now : Z) : Inner * LoopStage :=
  if fixed then
    (record_endpoint_refresh_failure h now "fixed listen address requires service-manager restart for endpoint refresh", Exited)
  else (h, Binding).

(** [endpoint::bind] has returned. *)
Definition end_refresh (h : Inner) (now : Z) (b : BindResult) : Inner * LoopStage :=
  match b with
  | BindOk => (record_endpoint_refresh_success h now, Closing)
  | BindErr e => (record_endpoint_refresh_failure h now e, Selecting)
  end.

(** ** The system: health, commands in the channel, and where task and loop are *)

(** Between two ticks; in the probe; with a probe that asks for a refresh; allowed to; having recorded it and about to send the
    command; gone *)
Inductive TaskStage := Idle | Probing | Deciding | Starting | Asking | Gone.

Record System := { health : Inner; queued : nat; task : TaskStage; loop : LoopStage }.

Definition tick_probes (c : WatchdogConfig) (h : Inner) (now : Z) : bool :=
  bool_decide (state h ≠ Refreshing) && negb (should_skip_probe_after_recent_inbound h c now).

(** The steps by which a request is sent and carried out *)
Inductive handling (fixed : bool) : System → System → Prop :=
  | command_sent s : task s = Asking → loop s ≠ Exited →
      handling fixed s {| health := health s; queued := S (queued s); task := Idle; loop := loop s |}
  | command_taken s n now h l : loop s = Selecting → queued s = S n → take_refresh fixed (health s) now = (h, l) →
      handling fixed s {| health := h; queued := n; task := task s; loop := l |}
  | bind_ends s b now h l : loop s = Binding → end_refresh (health s) now b = (h, l) →
      handling fixed s {| health := h; queued := queued s; task := task s; loop := l |}
  | old_endpoint_closed s : loop s = Closing →
      handling fixed s {| health := health s; queued := queued s; task := task s; loop := Selecting |}.

(** The others.  The receiver is dropped some time after the loop; a loop that has lost the task stops, and it stops when the agent is
    shut down and when the endpoint is closed. *)
Inductive other (c : WatchdogConfig) : System → System → Prop :=
  | tick_starts s now : task s = Idle → tick_probes c (health s) now = true →
      other c s {| health := health s; queued := queued s; task := Probing; loop := loop s |}
  | probe_ends s now o h (asks : bool) : task s = Probing → apply_probe_outcome c (health s) now o = (h, asks) →
      other c s {| health := h; queued := queued s; task := if asks then Deciding else Idle; loop := loop s |}
  | tick_decides s now : task s = Deciding →
      other c s {| health := health s; queued := queued s; task := if refresh_allowed (health s) now then Starting else Idle; loop := loop s |}
  | refresh_starts s : task s = Starting →
      other c s {| health := record_endpoint_refresh_started (health s); queued := queued s; task := Asking; loop := loop s |}
  | sent_after_loop s : task s = Asking → loop s = Exited →
      other c s {| health := health s; queued := S (queued s); task := Idle; loop := Exited |}
  | command_refused s now : task s = Asking → loop s = Exited →
      other c s {| health := record_endpoint_refresh_failure (health s) now "agent accept loop is unavailable"; queued := queued s;
                   task := Gone; loop := Exited |}
  | task_cancelled s : task s = Idle → other c s {| health := health s; queued := queued s; task := Gone; loop := loop s |}
  | task_lost s : task s = Gone → queued s = 0%nat → loop s = Selecting →
      other c s {| health := health s; queued := 0; task := Gone; loop := Exited |}
  | loop_stops s : loop s = Selecting → other c s {| health := health s; queued := queued s; task := task s; loop := Exited |}
  | step_inbound s now :
      other c s {| health := record_inbound_handshake (health s) now; queued := queued s; task := task s; loop := loop s |}.

Definition step (c : WatchdogConfig) (fixed : bool) (s s' : System) : Prop := handling fixed s s' ∨ other c s s'.

Definition initial (now : Z) : System := {| health := new now; queued := 0; task := Idle; loop := Selecting |}.

(** ** Lemmas *)

(** The steps of a tick, when nothing else takes one, are [tick]. *)
Lemma tick_undisturbed c fixed h t h' r q l : channel_open t = bool_decide (l ≠ Exited) → tick c h t = (h', r) →
  rtc (step c fixed) {| health := h; queued := q; task := Idle; loop := l |}
    {| health := h'; queued := match r with Requested => S q | _ => q end; task := match r with Stopped => Gone | _ => Idle end; loop := l |}.
Proof.
  intros Hc Ht. unfold tick in Ht. case_decide as Hd; [by simplify_eq |].
  destruct (should_skip_probe_after_recent_inbound h c (t_skip t)) eqn:Hs; [by simplify_eq |].
  eapply rtc_l; [right; apply (tick_starts c _ (t_skip t)); [done |]; unfold tick_probes; cbn; by rewrite bool_decide_true, Hs |].
  destruct (apply_probe_outcome c h (t_probe t) (outcome t)) as [h1 asks] eqn:Ha.
  eapply rtc_l; [right; by eapply probe_ends |]. destruct asks; cbn [andb] in Ht; [| by simplify_eq].
  eapply rtc_l; [right; by apply (tick_decides _ _ (t_allow t)) |]. cbn [health]. destruct (refresh_allowed h1 (t_allow t)); cbn [negb] in Ht; [| by simplify_eq].
  eapply rtc_l; [right; by apply refresh_starts |]. cbn [negb health] in *. rewrite Hc in Ht. destruct (decide (l = Exited)) as [->|Hl].
  - rewrite bool_decide_false in Ht by auto. simplify_eq. eapply rtc_l; [right; by apply (command_refused _ _ (t_allow t)) |]. apply rtc_refl.
  - rewrite bool_decide_true in Ht by done. simplify_eq. eapply rtc_l; [left; by apply command_sent |]. apply rtc_refl.
Qed.

Lemma probe_not_refreshing c h now o h' asks : apply_probe_outcome c h now o = (h', asks) → state h' ≠ Refreshing.
Proof.
  destruct o; cbn; [by intros [= <- _] |]. intros [= <- _]. cbn. by case_decide.
Qed.

(** A request that is about to be sent, in the channel, or being carried out *)
Definition under_way (s : System) : Prop := task s = Asking ∨ (0 < queued s)%nat ∨ loop s = Binding.

Definition inv (s : System) : Prop := state (health s) = Refreshing → under_way s ∨ loop s = Exited.

(** Carrying out a request never starts another, and the record is written when the request is out of the channel. *)
Lemma handling_inv fixed s s' : handling fixed s s' → loop s ≠ Exited →
  (state (health s) = Refreshing → under_way s) → state (health s') = Refreshing → under_way s' ∧ loop s' ≠ Exited.
Proof.
  unfold under_way. destruct 1 as [s Ht Hl | s n now h l Hl Hq Hk | s b now h l Hl Hk | s Hl]; cbn; intros Hne Hi.
  - split; [right; left; lia | done].
  - unfold take_refresh in Hk. destruct fixed; simplify_eq/=; [done |]. split; [auto | done].
  - destruct b; by simplify_eq/=.
  - intros Hr%Hi. rewrite Hl in Hr. split; [| done]. destruct Hr as [?|[?|?]]; [auto | auto | done].
Qed.

Lemma handling_exited fixed s s' : handling fixed s s' → loop s = Exited → False.
Proof. destruct 1; congruence. Qed.

Lemma step_inv c fixed s s' : step c fixed s s' → inv s → inv s'.
Proof.
  unfold inv. intros [Hs | Hs] Hinv.
  - intros Hr. left. eapply handling_inv; [done | | | done]; [intros He; by eapply handling_exited |].
    intros H%Hinv. destruct H as [|He]; [done |]. exfalso. by eapply handling_exited.
  - unfold under_way in *. destruct Hs as [s now Ht|s now o h asks Ht Hp|s now Ht|s Ht|s Ht Hl|s now Ht Hl|s Ht|s Ht Hq Hl|s Hl|s now]; cbn in *; try done; auto.
    + rewrite Ht in Hinv. naive_solver.
    + by apply probe_not_refreshing in Hp.
    + rewrite Ht in Hinv. naive_solver.
    + rewrite Ht in Hinv. naive_solver.
Qed.

Lemma reachable_inv c fixed s s' : rtc (step c fixed) s s' → inv s → inv s'.
Proof. induction 1; eauto using step_inv. Qed.

Definition handling_rank (s : System) : nat :=
  ((match task s with Asking => 5 | _ => 0 end) + 4 * queued s +
   match loop s with Selecting => 0 | Binding => 3 | Closing => 1 | Exited => 0 end)%nat.

Lemma handling_sn fixed s : sn (handling fixed) s.
Proof.
  remember (handling_rank s) as n eqn:Hn. revert s Hn. induction (lt_wf n) as [n _ IH]. intros s ->. constructor.
  intros s' Hs. eapply IH; [| done]. unfold handling_rank.
  destruct Hs as [s Ht Hl | s n now h l Hl Hq Hk | s b now h l Hl Hk | s Hl]; cbn; rewrite ?Ht, ?Hl; try lia.
  - unfold take_refresh in Hk. rewrite Hq. destruct fixed; simplify_eq/=; lia.
  - destruct b; simplify_eq/=; lia.
Qed.

Lemma handling_rest fixed s : nf (handling fixed) s → loop s ≠ Exited → ¬ under_way s.
Proof.
  intros Hnf Hl Hu. apply Hnf. destruct Hu as [Ht|[Hq|Hb]].
  - eexists. by apply command_sent.
  - destruct (queued s) as [|n] eqn:Hn; [lia |]. destruct (loop s) eqn:E; [| | | done].
    + destruct (take_refresh fixed (health s) 0) as [h l] eqn:Hk. eexists. by eapply command_taken.
    + eexists. by apply (bind_ends fixed s BindOk 0 (record_endpoint_refresh_success (health s) 0) Closing).
    + eexists. by apply old_endpoint_closed.
  - eexists. by apply (bind_ends fixed s BindOk 0 (record_endpoint_refresh_success (health s) 0) Closing).
Qed.

Lemma handled_run fixed s s' : rtc (handling fixed) s s' →
  (state (health s) = Refreshing → under_way s ∧ loop s ≠ Exited) → state (health s') = Refreshing → under_way s' ∧ loop s' ≠ Exited.
Proof.
  induction 1 as [|s s1 s' Hs _ IH]; [done |]. intros Hi. apply IH. eapply handling_inv; [done | | naive_solver].
  intros He. by eapply handling_exited.
Qed.

(** C24: the watchdog never waits for a refresh that will not be carried out: in every state
    the agent can reach, a health of "refreshing" means that a command is about to be sent, is in the channel, or is being carried out,
    unless the accept loop has ended; and while it runs, sending and carrying out what is asked, whatever
    binding gives, comes to an end and leaves that health. *)
Theorem refresh_always_completes c fixed now s : rtc (step c fixed) (initial now) s → state (health s) = Refreshing →
  loop s = Exited ∨
  under_way s ∧ sn (handling fixed) s ∧ ∀ s', rtc (handling fixed) s s' → nf (handling fixed) s' → state (health s') ≠ Refreshing.
Proof.
  intros Hr Href. assert (inv s) as Hinv by (eapply reachable_inv; [done |]; by intros ?).
  destruct (decide (loop s = Exited)) as [|Hl]; [by left |]. right. destruct (Hinv Href) as [Hu|]; [| done].
  split; [done |]. split; [apply handling_sn |]. intros s' Hrun Hnf Href'.
  destruct (handled_run fixed s s' Hrun) as [Hu' Hl']; [done | done |]. by apply (handling_rest fixed s').
Qed.

(** ** A dead network is noticed *)

(** A tick that finds no recent handshake, a failing probe and no backoff. *)
Record failing_tick (c : WatchdogConfig) (h : Inner) (t : Tick) : Prop := {
  ft_recent last : last_inbound_handshake_at h = Some last →
    as_secs (saturating_mul DURATION_MAX (interval c) RECENT_INBOUND_SKIP_MULTIPLIER) < saturating_sub (t_skip t) last;
  ft_backoff nb : next_endpoint_refresh_not_before h = Some nb → nb ≤ t_allow t;
  ft_failed : ∃ e, outcome t = ProbeFailure e;
  ft_open : channel_open t = true;
}.

Definition threshold (c : WatchdogConfig) : Z := Z.max (failures_before_refresh c) 1.

Lemma failing_tick_step c h t : enabled c = true → state h ≠ Refreshing → failing_tick c h t →
  let n := saturating_add U32_MAX (consecutive_self_probe_failures h) 1 in
  if threshold c <=? n then (tick c h t).2 = Requested
  else (tick c h t).2 = Probed ∧ consecutive_self_probe_failures (tick c h t).1 = n ∧
       state (tick c h t).1 ≠ Refreshing ∧
       last_inbound_handshake_at (tick c h t).1 = last_inbound_handshake_at h ∧
       next_endpoint_refresh_not_before (tick c h t).1 = next_endpoint_refresh_not_before h.
Proof.
  intros Hen Hst [Hrec Hback [e He] Hopen]. unfold tick. rewrite decide_False by done.
  assert (should_skip_probe_after_recent_inbound h c (t_skip t) = false) as ->.
  { unfold should_skip_probe_after_recent_inbound. destruct (last_inbound_handshake_at h); [| done].
    apply Z.leb_gt. by apply Hrec. }
  rewrite He. cbn [apply_probe_outcome record_probe_failure]. unfold should_refresh. rewrite Hen. fold (threshold c).
  cbv zeta. set (n := saturating_add _ _ _). destruct (threshold c <=? n); cbn [andb].
  - assert (∀ h1, next_endpoint_refresh_not_before h1 = next_endpoint_refresh_not_before h →
      refresh_allowed h1 (t_allow t) = true) as Hal.
    { unfold refresh_allowed. intros h1 ->. destruct (next_endpoint_refresh_not_before h); [| done].
      apply Z.leb_le. by apply Hback. }
    rewrite Hal by done. cbn [negb]. by rewrite Hopen.
  - simpl. split_and!; try done. by case_decide.
Qed.

(** A run of ticks with nothing in between: the commands it sends. *)
Fixpoint run_ticks (c : WatchdogConfig) (h : Inner) (ts : list Tick) : Inner * nat :=
  match ts with
  | [] => (h, 0%nat)
  | t :: ts' =>
      let '(h1, r) := tick c h t in
      let '(h2, n) := run_ticks c h1 ts' in
      (h2, match r with Requested => S n | _ => n end)
  end.

(** When nothing but failing probes happens, a refresh is requested within as many
    ticks as the configuration asks failures for, whatever the health was (unless a
    refresh was already under way). *)
Theorem dead_network_refreshed c h ts :
  enabled c = true → state h ≠ Refreshing → threshold c ≤ U32_MAX → 0 ≤ consecutive_self_probe_failures h →
  Forall (failing_tick c h) ts → threshold c ≤ Z.of_nat (length ts) →
  (0 < (run_ticks c h ts).2)%nat.
Proof.
  intros Hen Hst Hmax H0 Hts Hlen.
  assert (∀ h', state h' ≠ Refreshing → last_inbound_handshake_at h' = last_inbound_handshake_at h →
    next_endpoint_refresh_not_before h' = next_endpoint_refresh_not_before h → 0 ≤ consecutive_self_probe_failures h' →
    threshold c ≤ consecutive_self_probe_failures h' + Z.of_nat (length ts) → (0 < length ts)%nat →
    (0 < (run_ticks c h' ts).2)%nat) as Hgen.
  2:{ apply Hgen; [done | done | done | done | lia |]. unfold threshold in Hlen. lia. }
  clear Hlen H0 Hst. induction Hts as [|t ts Ht Hts IH]; intros h' Hst Hl Hn H0 Hlen Hpos; [simpl in Hpos; lia |].
  assert (failing_tick c h' t) as Ht'.
  { destruct Ht as [Hrec Hback He Ho]. split; [by rewrite Hl | by rewrite Hn | done | done]. }
  pose proof (failing_tick_step c h' t Hen Hst Ht') as Hstep. cbn [run_ticks length] in *.
  destruct (tick c h' t) as [h1 r]. cbn [fst snd] in Hstep.
  unfold saturating_add in Hstep. cbv zeta in Hstep. destruct (Z.leb_spec (threshold c) (Z.min U32_MAX (consecutive_self_probe_failures h' + 1))) as [Hle|Hgt].
  - subst. destruct (run_ticks c h1 ts). simpl. lia.
  - destruct Hstep as (-> & Hc & Hs1 & Hl1 & Hn1).
    assert (0 < (run_ticks c h1 ts).2)%nat as Hind.
    { apply IH; [done | congruence | congruence | rewrite Hc; lia | rewrite Hc; lia |].
      destruct ts; simpl in *; lia. }
    destruct (run_ticks c h1 ts). done.
Qed.

(** ** Refreshes are asked for only when due *)

(** A tick asks for a refresh only when no refresh is under way, no handshake is
    recent, its probe failed, the failures in a row reach the configured number, and the
    backoff of the last failed refresh is over. *)
Theorem refresh_request_justified c h t h' : tick c h t = (h', Requested) →
  enabled c = true ∧ state h ≠ Refreshing ∧ should_skip_probe_after_recent_inbound h c (t_skip t) = false ∧
  (∃ e, outcome t = ProbeFailure e) ∧ threshold c ≤ consecutive_self_probe_failures h + 1 ∧
  ∀ nb, next_endpoint_refresh_not_before h = Some nb → nb ≤ t_allow t.
Proof.
  unfold tick. case_decide as Hst; [done |]. destruct (should_skip_probe_after_recent_inbound _ _ _) eqn:Hskip; [done |].
  unfold apply_probe_outcome. destruct (outcome t) as [|e]; [done |]. cbn [record_probe_failure]. cbv zeta.
  unfold should_refresh. destruct (enabled c); [| done]. fold (threshold c). cbn [andb].
  destruct (Z.leb_spec (threshold c) (saturating_add U32_MAX (consecutive_self_probe_failures h) 1)) as [Hle|Hgt];
    [| done]. cbn [andb].
  unfold refresh_allowed. cbn [next_endpoint_refresh_not_before]. intros Hr. split_and!; try done; [eauto | |].
  - unfold saturating_add in Hle. lia.
  - intros nb Hnb. rewrite Hnb in Hr. by destruct (Z.leb_spec nb (t_allow t)).
Qed.

(** A disabled watchdog reports "ok" after the first inbound handshake, and goes on
    doing so: the handshake overwrites the disabled state. *)
Theorem disabled_state_is_lost now times : times ≠ [] →
  state (foldl record_inbound_handshake (disabled now) times) = Healthy.
Proof.
  intros Hne. destruct (exists_last Hne) as (l & t & ->). by rewrite foldl_app.
Qed.

(** ** Witnesses *)

Definition bad_tick (now : Z) : Tick :=
  {| t_skip := now; t_probe := now; t_allow := now; outcome := ProbeFailure "timeout"; channel_open := true |}.

Lemma bad_tick_fails c now at_ : failing_tick c (new at_) (bad_tick now).
Proof. split; [done | done | by eexists | done]. Qed.

Lemma dead_network_refreshed_witness :
  (0 < (run_ticks default_config (new 0) [bad_tick 300; bad_tick 600; bad_tick 900]).2)%nat.
Proof.
  apply (dead_network_refreshed default_config (new 0) [bad_tick 300; bad_tick 600; bad_tick 900]);
    [done | done | done | done | | done].
  repeat (apply Forall_cons; split; [apply bad_tick_fails |]). by apply Forall_nil.
Defined.

Definition before_request : Inner := (run_ticks default_config (new 0) [bad_tick 300; bad_tick 600]).1.
Definition after_request : Inner := (tick default_config before_request (bad_tick 900)).1.

Lemma refresh_request_justified_witness : threshold default_config ≤ consecutive_self_probe_failures before_request + 1.
Proof. apply (refresh_request_justified default_config before_request (bad_tick 900) after_request). reflexivity. Defined.

(** Three failing ticks lead to a request, and the command is taken. *)
Definition sys (h : Inner) (t : TaskStage) (l : LoopStage) : System := {| health := h; queued := 0; task := t; loop := l |}.

Definition failed_once : Inner := Eval vm_compute in (tick default_config (new 0) (bad_tick 300)).1.
Definition failed_twice : Inner := Eval vm_compute in (tick default_config failed_once (bad_tick 600)).1.
Definition asked : Inner := Eval vm_compute in (tick default_config failed_twice (bad_tick 900)).1.

Lemma requested_reachable : rtc (step default_config false) (initial 0) (sys asked Idle Binding).
Proof.
  etransitivity; [by apply (tick_undisturbed default_config false _ (bad_tick 300) failed_once Probed) |].
  etransitivity; [by apply (tick_undisturbed default_config false _ (bad_tick 600) failed_twice Probed) |].
  etransitivity; [by apply (tick_undisturbed default_config false _ (bad_tick 900) asked Requested) |].
  eapply rtc_l; [left; by apply (command_taken false _ 0 900 asked Binding) |]. apply rtc_refl.
Qed.

Lemma refresh_always_completes_witness :
  loop (sys asked Idle Binding) = Exited ∨
  under_way (sys asked Idle Binding) ∧ sn (handling false) (sys asked Idle Binding) ∧
  ∀ s', rtc (handling false) (sys asked Idle Binding) s' → nf (handling false) s' → state (health s') ≠ Refreshing.
Proof. apply (refresh_always_completes default_config false 0 (sys asked Idle Binding) requested_reachable). reflexivity. Defined.

Lemma disabled_state_is_lost_witness : state (foldl record_inbound_handshake (disabled 0) [5]) = Healthy.
Proof. by apply (disabled_state_is_lost 0 [5]). Defined.
