(* ===== verification/HerdrWire.v ===== *)
(** * Herdr frames

    crates/portl-core/src/herdr_wire.rs relays the frames of Herdr: a little-endian length,
    then a bincode message that starts with a compact variant tag.  A reader is the bytes
    still to come, up to the end of the stream; the two semaphores of [HerdrFrameBudget]
    are the permits they have left.  The bodies of messages are decoded by bincode and are
    not modelled; the variants are, for the lanes. *)

From S2P Require Import Prelude Bytes.

Definition MAX_FRAME_SIZE : Z := 2 * 1024 * 1024.
Definition MAX_GRAPHICS_FRAME_SIZE : Z := 32 * 1024 * 1024.
Definition MAX_CLIPBOARD_IMAGE_PAYLOAD : Z := 16 * 1024 * 1024.
Definition LENGTH_PREFIX_BYTES : nat := 4.
Definition HERDR_NORMAL_QUEUED_BYTES : Z := 8 * 1024 * 1024.
Definition HERDR_LARGE_QUEUED_BYTES : Z := 64 * 1024 * 1024.

Record HerdrReadLimits := { normal_payload : Z; large_payload : Z; clipboard_image_data : Z }.

Definition default_limits : HerdrReadLimits :=
  {| normal_payload := MAX_FRAME_SIZE; large_payload := MAX_GRAPHICS_FRAME_SIZE;
     clipboard_image_data := MAX_CLIPBOARD_IMAGE_PAYLOAD |}.

Record HerdrFrameBudget := { normal : Z; large : Z }.

Definition default_budget : HerdrFrameBudget :=
  {| normal := HERDR_NORMAL_QUEUED_BYTES; large := HERDR_LARGE_QUEUED_BYTES |}.

Inductive FrameDirection := ClientToServer | ServerToClient.
Inductive ClientLane := ClientControl | ClientInput | ClientResize | ClientBulk.
Inductive ServerLane := ServerControl | ServerRender | ServerBulk.

#[export] Instance FrameDirection_eq_dec : EqDecision FrameDirection.
Proof. solve_decision. Defined.

Inductive HerdrFrameError :=
  | Oversized (claimed max : Z)
  | UnexpectedEof (needed actual : Z)
  | Bincode (message : string)
  | InvalidTag (message : string)
  | ZeroLength
  | Allocation (bytes : Z)
  | SlowConsumer (bytes : Z)
  | ClipboardImageOversized (claimed max : Z).

(** ** Lanes: the messages by their variants, in the order of the declaration *)

Inductive ClientVariant := Hello | Input | ClipboardImage | Resize | Detach | AttachTerminal | AttachScroll.
Inductive ServerVariant :=
  | Welcome | Frame | Terminal | Graphics | ServerShutdown | Notify | Clipboard | ReloadSoundConfig | MouseCapture.

Definition client_tag (v : ClientVariant) : Z :=
  match v with
  | Hello => 0 | Input => 1 | ClipboardImage => 2 | Resize => 3 | Detach => 4 | AttachTerminal => 5
  | AttachScroll => 6
  end.

Definition server_tag (v : ServerVariant) : Z :=
  match v with
  | Welcome => 0 | Frame => 1 | Terminal => 2 | Graphics => 3 | ServerShutdown => 4 | Notify => 5
  | Clipboard => 6 | ReloadSoundConfig => 7 | MouseCapture => 8
  end.

Definition client_lane (v : ClientVariant) : ClientLane :=
  match v with
  | Hello | Detach | AttachTerminal => ClientControl
  | Input | AttachScroll => ClientInput
  | Resize => ClientResize
  | ClipboardImage => ClientBulk
  end.

Definition client_lane_from_variant_tag (tag : Z) : ClientLane :=
  if (tag =? 1) || (tag =? 6) || (tag =? 7) then ClientInput
  else if tag =? 2 then ClientBulk
  else if tag =? 3 then ClientResize
  else ClientControl.

Definition server_lane (v : ServerVariant) : ServerLane :=
  match v with
  | Welcome | ServerShutdown | Notify | ReloadSoundConfig | MouseCapture => ServerControl
  | Frame | Terminal => ServerRender
  | Graphics | Clipboard => ServerBulk
  end.

Definition server_lane_from_variant_tag (tag : Z) : ServerLane :=
  if (tag =? 1) || (tag =? 2) then ServerRender
  else if (tag =? 3) || (tag =? 6) then ServerBulk
  else ServerControl.

(** ** Tags and limits *)

(** The width of a compact integer, from its first byte. *)
Definition tag_width (marker : Z) : result HerdrFrameError nat :=
  if marker <=? 250 then Ok 1%nat
  else if marker =? 251 then Ok 3%nat
  else if marker =? 252 then Ok 5%nat
  else Err (InvalidTag "reserved or overflowing marker").

Definition decode_compact_u32 (l : bytes) : result HerdrFrameError Z :=
  match l with
  | [b] => if b <=? 250 then Ok b else Err (InvalidTag "invalid length")
  | [m; lo; hi] =>
      if m =? 251 then
        let v := le_decode [lo; hi] in
        if 250 <? v then Ok v else Err (InvalidTag "non-canonical u16")
      else Err (InvalidTag "invalid length")
  | [m; a; b; c; d] =>
      if m =? 252 then
        let v := le_decode [a; b; c; d] in
        if U16_MAX <? v then Ok v else Err (InvalidTag "non-canonical u32")
      else Err (InvalidTag "invalid length")
  | _ => Err (InvalidTag "invalid length")
  end.

Definition decode_tag_prefix (l : bytes) : result HerdrFrameError (Z * nat) :=
  marker ← ok_or (head l) (UnexpectedEof 1 0);
  width ← tag_width marker;
  ensure (width <=? length l)%nat (UnexpectedEof (Z.of_nat width) (Z.of_nat (length l)));;
  tag ← decode_compact_u32 (take width l);
  Ok (tag, width).

Definition is_large_frame (d : FrameDirection) (tag : Z) : bool :=
  match d with
  | ClientToServer => tag =? 2
  | ServerToClient => (tag =? 1) || (tag =? 3)
  end.

Definition frame_payload_limit (d : FrameDirection) (tag : Z) (limits : HerdrReadLimits) : Z :=
  if is_large_frame d tag then large_payload limits else normal_payload limits.

(** Returns the value and the offset after it. *)
Definition parse_varint_usize (l : bytes) (offset : nat) : result HerdrFrameError (Z * nat) :=
  marker ← ok_or (l !! offset) (UnexpectedEof (Z.of_nat offset + 1) (Z.of_nat (length l)));
  width ← (if marker <=? 250 then Ok 1%nat else if marker =? 251 then Ok 3%nat
           else if marker =? 252 then Ok 5%nat else if marker =? 253 then Ok 9%nat
           else Err (InvalidTag "invalid length varint"));
  ensure (offset + width <=? length l)%nat (UnexpectedEof (Z.of_nat (offset + width)) (Z.of_nat (length l)));;
  let raw := take width (drop offset l) in
  let value := match width with S O => marker | _ => le_decode (drop 1 raw) end in
  ensure (match width with
          | 1%nat => true
          | 3%nat => 250 <? value
          | 5%nat => U16_MAX <? value
          | _ => U32_MAX <? value
          end) (InvalidTag "non-canonical collection length");;
  Ok (value, (offset + width)%nat).

Definition validate_clipboard_image (payload : bytes) (max : Z) : result HerdrFrameError unit :=
  '(tag, tag_len) ← decode_tag_prefix payload;
  ensure (tag =? 2) (InvalidTag "expected ClipboardImage");;
  '(extension_len, offset) ← parse_varint_usize payload tag_len;
  let extension_end := Z.of_nat offset + extension_len in
  ensure (extension_end <=? Z.of_nat (length payload)) (UnexpectedEof extension_end (Z.of_nat (length payload)));;
  ensure (is_utf8 (take (Z.to_nat extension_len) (drop offset payload)))
    (Bincode "ClipboardImage extension is not UTF-8");;
  '(data_len, data_offset) ← parse_varint_usize payload (Z.to_nat extension_end);
  ensure (data_len <=? max) (ClipboardImageOversized data_len max);;
  ensure (Z.of_nat data_offset + data_len =? Z.of_nat (length payload)) (Bincode "malformed ClipboardImage payload").

(** ** Reading *)

Record RawHerdrFrame := { direction : FrameDirection; framed : bytes; permit : option bool }.

(** [read_exact_counted]: [n] bytes and what is left, or the end of the stream. *)
Definition read_exact_counted (n : nat) (needed already : Z) (input : bytes) : result HerdrFrameError (bytes * bytes) :=
  if (n <=? length input)%nat then Ok (take n input, drop n input)
  else Err (UnexpectedEof needed (already + Z.of_nat (length input))).

(** Permits are granted when that many are left before the timeout. *)
Definition acquire (b : HerdrFrameBudget) (is_large : bool) (n : Z) : option HerdrFrameBudget :=
  if is_large then if n <=? large b then Some {| normal := normal b; large := large b - n |} else None
  else if n <=? normal b then Some {| normal := normal b - n; large := large b |} else None.

(** Dropping the last handle of a frame. *)
Definition release (b : HerdrFrameBudget) (f : RawHerdrFrame) : HerdrFrameBudget :=
  match permit f with
  | None => b
  | Some true => {| normal := normal b; large := large b + Z.of_nat (length (framed f)) |}
  | Some false => {| normal := normal b + Z.of_nat (length (framed f)); large := large b |}
  end.

(** What a read gives: the end of the stream, or a frame, the rest of the stream and the
    permits left.  An error drops the permit again. *)
Definition read_herdr_frame (input : bytes) (d : FrameDirection) (budget : HerdrFrameBudget) (limits : HerdrReadLimits)
    : result HerdrFrameError (option (RawHerdrFrame * bytes * HerdrFrameBudget)) :=
  match input with
  | [] => Ok None
  | b0 :: input1 =>
      '(rest_len, input2) ← read_exact_counted 3 4 1 input1;
      let len_buf := b0 :: rest_len in
      let claimed := le_decode len_buf in
      ensure (negb (claimed =? 0)) ZeroLength;;
      '(t0, input3) ← read_exact_counted 1 1 0 input2;
      width ← tag_width (nth 0 t0 0);
      ensure (Z.of_nat width <=? claimed) (UnexpectedEof (Z.of_nat width) claimed);;
      '(t1, input4) ← read_exact_counted (width - 1) (Z.of_nat width) 1 input3;
      tag ← decode_compact_u32 (t0 ++ t1);
      let is_large := is_large_frame d tag in
      let max := frame_payload_limit d tag limits in
      ensure (claimed <=? max) (Oversized claimed max);;
      let total := 4 + claimed in
      ensure (total <=? U32_MAX) (Allocation total);;
      budget' ← ok_or (acquire budget is_large total) (SlowConsumer total);
      '(body, input5) ← read_exact_counted (Z.to_nat claimed - width) claimed (Z.of_nat width) input4;
      let payload := t0 ++ t1 ++ body in
      (if bool_decide (d = ClientToServer) && (tag =? 2)
       then validate_clipboard_image payload (clipboard_image_data limits) else Ok tt);;
      Ok (Some ({| direction := d; framed := len_buf ++ payload; permit := Some is_large |}, input5, budget'))
  end.

(** ** Well-formed frames *)

(** [tag] is the tag of the payload. *)
Record wf_payload (d : FrameDirection) (limits : HerdrReadLimits) (payload : bytes) (tag : Z) : Prop := {
  wp_tag : ∃ w, decode_tag_prefix payload = Ok (tag, w);
  wp_limit : Z.of_nat (length payload) ≤ frame_payload_limit d tag limits;
  wp_u32 : 4 + Z.of_nat (length payload) ≤ U32_MAX;
  wp_image : d = ClientToServer → tag = 2 → validate_clipboard_image payload (clipboard_image_data limits) = Ok tt;
}.

Definition frame_of (payload : bytes) : bytes := le_encode 4 (Z.of_nat (length payload)) ++ payload.

Lemma frame_of_length payload : length (frame_of payload) = (4 + length payload)%nat.
Proof. unfold frame_of. by rewrite length_app, le_encode_length. Qed.

Lemma tag_width_pos m w : tag_width m = Ok w → (1 ≤ w)%nat.
Proof. unfold tag_width. repeat case_match; intros [= <-]; lia. Qed.

Lemma read_exact_Ok n needed already l a r : read_exact_counted n needed already l = Ok (a, r) ↔
  l = a ++ r ∧ length a = n.
Proof.
  unfold read_exact_counted. destruct (Nat.leb_spec n (length l)) as [Hn|Hn]; split.
  - intros [= <- <-]. rewrite take_drop, length_take. split; [done | lia].
  - intros [-> <-]. by rewrite take_app_length, drop_app_length.
  - done.
  - intros [-> <-]. rewrite length_app in Hn. lia.
Qed.

(** The tag is read byte by byte, or from the whole payload: the same. *)
Lemma decode_tag_split t0 t1 body w tag : length t0 = 1%nat → tag_width (nth 0 t0 0) = Ok w →
  length t1 = (w - 1)%nat →
  decode_tag_prefix (t0 ++ t1 ++ body) = Ok (tag, w) ↔ decode_compact_u32 (t0 ++ t1) = Ok tag.
Proof.
  intros H0 Hw H1. pose proof (tag_width_pos _ _ Hw) as Hpos. destruct t0 as [|m [|? ?]]; try done. simpl in Hw.
  unfold decode_tag_prefix. cbn [app head ok_or mbind result_bind]. rewrite Hw. cbn [mbind result_bind].
  rewrite (proj2 (Nat.leb_le w _)) by (cbn [length]; rewrite length_app; lia). cbn [ensure mbind result_bind].
  replace (take w (m :: t1 ++ body)) with (m :: t1).
  - split; [by intros (tag' & Ht & [= <-])%bind_Ok | by intros ->].
  - destruct w as [|w]; [lia |]. simpl. f_equal. replace w with (length t1) by lia. by rewrite take_app_length.
Qed.

Lemma read_frame_fwd input d b limits f rest b' : Forall u8_range input →
  read_herdr_frame input d b limits = Ok (Some (f, rest, b')) →
  ∃ payload tag, wf_payload d limits payload tag ∧ input = frame_of payload ++ rest ∧
    f = {| direction := d; framed := frame_of payload; permit := Some (is_large_frame d tag) |} ∧
    acquire b (is_large_frame d tag) (Z.of_nat (length (frame_of payload))) = Some b'.
Proof.
  intros Hrange. destruct input as [|b0 input1]; [done |]. cbn [read_herdr_frame].
  intros ([rest_len input2] & H2%read_exact_Ok & H)%bind_Ok. apply bind_tt in H as [Hz%ensure_Ok H].
  apply bind_Ok in H as ([t0 input3] & H3%read_exact_Ok & H). apply bind_Ok in H as (w & Hw & H).
  apply bind_tt in H as [Hwc%ensure_Ok H]. apply bind_Ok in H as ([t1 input4] & H4%read_exact_Ok & H).
  apply bind_Ok in H as (tag & Htag & H). apply bind_tt in H as [Hlim%ensure_Ok H].
  apply bind_tt in H as [Hu%ensure_Ok H]. apply bind_Ok in H as (b1 & Hacq%ok_or_Ok & H).
  apply bind_Ok in H as ([body input5] & H5%read_exact_Ok & H). apply bind_tt in H as [Himg [= <- <- <-]].
  reflect_bool. destruct H2 as [-> Hl2], H3 as [-> Hl3], H4 as [-> Hl4], H5 as [-> Hl5].
  assert (Forall u8_range (b0 :: rest_len)) as Hr by (rewrite app_comm_cons, Forall_app in Hrange; tauto).
  set (claimed := le_decode (b0 :: rest_len)) in *. pose proof (le_decode_bound _ Hr) as Hbound. fold claimed in Hbound.
  pose proof (tag_width_pos _ _ Hw) as Hwpos.
  set (payload := t0 ++ t1 ++ body).
  assert (Z.of_nat (length payload) = claimed) as Hplen.
  { unfold payload. rewrite !length_app. lia. }
  assert (frame_of payload = (b0 :: rest_len) ++ payload) as Hframe.
  { unfold frame_of. rewrite Hplen. f_equal. pose proof (le_encode_decode _ Hr) as Henc. cbn [length] in Henc.
    by rewrite Hl2 in Henc. }
  exists payload, tag. rewrite frame_of_length, Nat2Z.inj_add, Hplen, Hframe.
  split; [| split; [by rewrite <- !app_assoc; cbn [app]; unfold payload; rewrite <- !app_assoc | by split]].
  split.
  - exists w. by apply decode_tag_split.
  - lia.
  - lia.
  - intros -> ->. destruct (bool_decide _) eqn:?; [done |]. by reflect_bool.
Qed.

Lemma decode_tag_prefix_inv payload tag w : decode_tag_prefix payload = Ok (tag, w) →
  ∃ t0 t1 body, payload = t0 ++ t1 ++ body ∧ length t0 = 1%nat ∧ tag_width (nth 0 t0 0) = Ok w ∧
    length t1 = (w - 1)%nat ∧ decode_compact_u32 (t0 ++ t1) = Ok tag ∧ (w ≤ length payload)%nat.
Proof.
  unfold decode_tag_prefix. intros (m & Hm%ok_or_Ok & H)%bind_Ok. apply bind_Ok in H as (w' & Hw & H).
  apply bind_tt in H as [Hlen%ensure_Ok H]. apply bind_Ok in H as (tag' & Ht & [= <- <-]). apply Nat.leb_le in Hlen.
  destruct payload as [|x payload]; [done |]. simpl in Hm. injection Hm as ->.
  pose proof (tag_width_pos _ _ Hw) as Hpos. exists [m], (take (w' - 1) payload), (drop (w' - 1) payload).
  cbn [app nth length] in *. rewrite take_drop, length_take. split_and!; [done | done | done | lia | | done].
  destruct w' as [|w']; [lia |]. cbn [take] in Ht. by rewrite Nat.sub_succ, Nat.sub_0_r.
Qed.

Lemma read_frame_bwd payload tag d b limits rest b' : wf_payload d limits payload tag →
  acquire b (is_large_frame d tag) (Z.of_nat (length (frame_of payload))) = Some b' →
  read_herdr_frame (frame_of payload ++ rest) d b limits =
    Ok (Some ({| direction := d; framed := frame_of payload; permit := Some (is_large_frame d tag) |}, rest, b')).
Proof.
  intros [[w Hw] Hlim Hu Himg] Hacq. apply decode_tag_prefix_inv in Hw as (t0 & t1 & body & Hpay & H0 & Hw & H1 & Ht & Hwlen).
  rewrite frame_of_length, Nat2Z.inj_add in Hacq. change (Z.of_nat 4) with 4 in Hacq.
  set (n := Z.of_nat (length payload)) in *.
  assert (le_decode (le_encode 4 n) = n) as Hn by (apply le_decode_encode; unfold U32_MAX in Hu; lia).
  unfold frame_of. fold n. destruct (le_encode 4 n) as [|b0 rest_len] eqn:Henc; [done |].
  pose proof (le_encode_length 4 n) as Hl. rewrite Henc in Hl. injection Hl as Hl.
  rewrite <- app_assoc. cbn [app read_herdr_frame].
  rewrite (proj2 (read_exact_Ok 3 4 1 _ rest_len (payload ++ rest)) (conj eq_refl Hl)). cbn [mbind result_bind].
  rewrite Hn. pose proof (tag_width_pos _ _ Hw) as Hpos.
  rewrite (proj2 (Z.eqb_neq n 0)) by lia. cbn [negb ensure mbind result_bind].
  assert (payload ++ rest = t0 ++ t1 ++ body ++ rest) as -> by by rewrite Hpay, <- !app_assoc.
  rewrite (proj2 (read_exact_Ok 1 1 0 _ t0 (t1 ++ body ++ rest)) (conj eq_refl H0)). cbn [mbind result_bind].
  rewrite Hw. cbn [mbind result_bind]. rewrite (proj2 (Z.leb_le (Z.of_nat w) n)) by lia. cbn [ensure mbind result_bind].
  rewrite (proj2 (read_exact_Ok (w - 1) (Z.of_nat w) 1 _ t1 (body ++ rest)) (conj eq_refl H1)). cbn [mbind result_bind].
  rewrite Ht. cbn [mbind result_bind]. rewrite (proj2 (Z.leb_le n _) Hlim), (proj2 (Z.leb_le (4 + n) U32_MAX) Hu).
  cbn [ensure mbind result_bind]. rewrite Hacq. cbn [ok_or mbind result_bind].
  rewrite (proj2 (read_exact_Ok (Z.to_nat n - w) n (Z.of_nat w) _ body rest)); [| split; [done |]].
  2:{ subst n. rewrite Nat2Z.id, Hpay, !length_app. lia. }
  cbn [mbind result_bind]. rewrite <- Hpay.
  assert ((if bool_decide (d = ClientToServer) && (tag =? 2)
           then validate_clipboard_image payload (clipboard_image_data limits) else Ok tt) = Ok tt) as ->; [| done].
  destruct (bool_decide (d = ClientToServer)) eqn:Hd; [| done]. destruct (tag =? 2) eqn:H2; [| done].
  reflect_bool. by apply Himg.
Qed.

(** C32: a read takes from the stream exactly one well-formed frame and leaves what follows
    it; it succeeds on every well-formed frame for which the budget has the permits, and
    on nothing else.  The frame read is byte for byte the one received. *)
Theorem read_frame_exact input d b limits f rest b' : Forall u8_range input →
  read_herdr_frame input d b limits = Ok (Some (f, rest, b')) ↔
  ∃ payload tag, wf_payload d limits payload tag ∧ input = frame_of payload ++ rest ∧
    f = {| direction := d; framed := frame_of payload; permit := Some (is_large_frame d tag) |} ∧
    acquire b (is_large_frame d tag) (Z.of_nat (length (frame_of payload))) = Some b'.
Proof.
  intros Hr. split; [by apply read_frame_fwd |]. intros (payload & tag & Hwf & -> & -> & Hacq).
  by apply read_frame_bwd.
Qed.

(** ** The budget bounds the bytes that are queued *)

(** A connection: what is left to read, the permits, and the frames not dropped yet. *)
Record Conn := { pending : bytes; budget : HerdrFrameBudget; live : list RawHerdrFrame }.

Inductive conn_step (d : FrameDirection) (limits : HerdrReadLimits) : Conn → Conn → Prop :=
  | conn_recv c data : conn_step d limits c
      {| pending := pending c ++ data; budget := budget c; live := live c |}
  | conn_read c f rest b' : read_herdr_frame (pending c) d (budget c) limits = Ok (Some (f, rest, b')) →
      conn_step d limits c {| pending := rest; budget := b'; live := f :: live c |}
  | conn_drop c l1 f l2 : live c = l1 ++ f :: l2 →
      conn_step d limits c {| pending := pending c; budget := release (budget c) f; live := l1 ++ l2 |}.

(** The bytes a frame, and the live frames, hold of a class. *)
Definition weight (is_large : bool) (f : RawHerdrFrame) : Z :=
  match permit f with Some lg => if eqb lg is_large then Z.of_nat (length (framed f)) else 0 | None => 0 end.

Definition held (is_large : bool) (l : list RawHerdrFrame) : Z := foldr (λ f n, weight is_large f + n) 0 l.

Record accounted (caps : HerdrFrameBudget) (c : Conn) : Prop := {
  acc_normal : normal (budget c) + held false (live c) = normal caps;
  acc_large : large (budget c) + held true (live c) = large caps;
  acc_pos : 0 ≤ normal (budget c) ∧ 0 ≤ large (budget c);
}.

Lemma held_app b l1 l2 : held b (l1 ++ l2) = held b l1 + held b l2.
Proof. induction l1 as [|f l1 IH]; simpl; [done |]. rewrite IH. lia. Qed.

Lemma read_frame_acquire input d b limits f rest b' :
  read_herdr_frame input d b limits = Ok (Some (f, rest, b')) →
  ∃ is_large, permit f = Some is_large ∧ acquire b is_large (Z.of_nat (length (framed f))) = Some b'.
Proof.
  destruct input as [|b0 input1]; [done |]. cbn [read_herdr_frame].
  intros ([rest_len input2] & H2%read_exact_Ok & H)%bind_Ok. apply bind_tt in H as [Hz H].
  apply bind_Ok in H as ([t0 input3] & H3%read_exact_Ok & H). apply bind_Ok in H as (w & Hw & H).
  apply bind_tt in H as [Hwc%ensure_Ok H]. apply bind_Ok in H as ([t1 input4] & H4%read_exact_Ok & H).
  apply bind_Ok in H as (tag & Htag & H). apply bind_tt in H as [_ H].
  apply bind_tt in H as [_ H]. apply bind_Ok in H as (b1 & Hacq%ok_or_Ok & H).
  apply bind_Ok in H as ([body input5] & H5%read_exact_Ok & H). apply bind_tt in H as [_ [= <- <- <-]].
  eexists. split; [done |]. cbn [framed]. rewrite <- Hacq. f_equal.
  destruct H2 as [_ Hl2], H3 as [_ Hl3], H4 as [_ Hl4], H5 as [_ Hl5]. apply tag_width_pos in Hw. reflect_bool.
  cbn [app length]. rewrite !length_app. lia.
Qed.

Lemma conn_step_accounted caps d limits c c' : conn_step d limits c c' → accounted caps c → accounted caps c'.
Proof.
  destruct 1 as [c data | c f rest b' Hread | c l1 f l2 Hlive]; intros [Hn Hl [Hpn Hpl]].
  - by split.
  - apply read_frame_acquire in Hread as (lg & Hp & Hacq). unfold acquire in Hacq.
    split; cbn [budget live held foldr]; try unfold weight at 1; rewrite ?Hp;
      destruct lg; case_match; try done; injection Hacq as <-; reflect_bool; cbn [eqb normal large]; fold (held false (live c)) (held true (live c)); lia.
  - rewrite Hlive, held_app in Hn, Hl. cbn [held foldr] in Hn, Hl.
    fold (held false l2) in Hn. fold (held true l2) in Hl. unfold weight in Hn, Hl.
    split; cbn [budget live]; rewrite ?held_app; unfold release;
      destruct (permit f) as [[]|]; cbn [eqb normal large] in *; lia.
Qed.

(** However frames are received, read and dropped, the permits left and the bytes of the
    frames still held add up to the budget, so the bytes queued of either class never
    exceed it. *)
Theorem queued_bytes_bounded caps d limits input c :
  0 ≤ normal caps → 0 ≤ large caps →
  rtc (conn_step d limits) {| pending := input; budget := caps; live := [] |} c →
  normal (budget c) + held false (live c) = normal caps ∧ large (budget c) + held true (live c) = large caps ∧
  held false (live c) ≤ normal caps ∧ held true (live c) ≤ large caps.
Proof.
  intros Hn Hl Hr.
  assert (accounted caps {| pending := input; budget := caps; live := [] |}) as H0 by (split; simpl; lia).
  assert (accounted caps c) as [H1 H2 [H3 H4]]; [| lia].
  revert H0. induction Hr; eauto using conn_step_accounted.
Qed.

(** Routing by the tag of a frame agrees with the message it carries, for every message
    of either direction. *)
Theorem lanes_by_tag : (∀ v, client_lane_from_variant_tag (client_tag v) = client_lane v) ∧
  (∀ v, server_lane_from_variant_tag (server_tag v) = server_lane v).
Proof. split; by intros []. Qed.

(** ** Witnesses *)

Definition detach_payload : bytes := [4].

Lemma detach_wf : wf_payload ClientToServer default_limits detach_payload 4.
Proof. split; [by exists 1%nat | done | done | done]. Qed.

Lemma read_frame_exact_witness :
  read_herdr_frame ([1; 0; 0; 0; 4] ++ [9]) ClientToServer default_budget default_limits
  = Ok (Some ({| direction := ClientToServer; framed := [1; 0; 0; 0; 4]; permit := Some false |}, [9],
              {| normal := HERDR_NORMAL_QUEUED_BYTES - 5; large := HERDR_LARGE_QUEUED_BYTES |})).
Proof.
  apply (read_frame_exact ([1; 0; 0; 0; 4] ++ [9]) ClientToServer default_budget default_limits).
  - repeat (constructor; [unfold u8_range, U8_MAX; lia |]). constructor.
  - exists detach_payload, 4. split_and!; [apply detach_wf | done | done | done].
Defined.

Definition one_frame : Conn :=
  {| pending := [9]; budget := {| normal := HERDR_NORMAL_QUEUED_BYTES - 5; large := HERDR_LARGE_QUEUED_BYTES |};
     live := [{| direction := ClientToServer; framed := [1; 0; 0; 0; 4]; permit := Some false |}] |}.

Lemma queued_bytes_bounded_witness : held false (live one_frame) ≤ HERDR_NORMAL_QUEUED_BYTES.
Proof.
  apply (queued_bytes_bounded default_budget ClientToServer default_limits [1; 0; 0; 0; 4; 9] one_frame); [done | done |].
  apply rtc_once. apply (conn_read ClientToServer default_limits
    {| pending := [1; 0; 0; 0; 4; 9]; budget := default_budget; live := [] |}). reflexivity.
Defined.
