(* ===== verification/Framing.v ===== *)
(** * Frames on streams

    crates/portl-core/src/io.rs reads postcard values from a stream that arrives in pieces;
    terminal/zmx_control.rs has tagged frames; wire/session.rs has compressed payloads.
    Postcard and zstd are parameters. *)

From S2P Require Import Prelude Bytes.

(** ** Parameters *)

(** [postcard::take_from_bytes] at type [A]: a value and the rest, the end of the input
    too early, or another error. *)
Inductive Taken (A : Type) := TakeOk (a : A) (rest : bytes) | TakeEnd | TakeErr.
Arguments TakeOk {A} a rest.
Arguments TakeEnd {A}.
Arguments TakeErr {A}.

Class PostcardStream (A : Type) := { take_from_bytes : bytes → Taken A }.

(** Decoding uses a prefix of the input and does not look at what follows it, and says
    that the input ended early on a proper part of such a prefix. *)
Class PostcardStreamLaws (A : Type) `{PostcardStream A} : Prop := {
  take_prefix l a rest : take_from_bytes l = TakeOk a rest →
    ∃ frame, l = frame ++ rest ∧ ∀ more, take_from_bytes (frame ++ more) = TakeOk a more;
  take_partial frame part a : take_from_bytes frame = TakeOk a [] → part `prefix_of` frame → part ≠ frame →
    take_from_bytes part = TakeEnd;
}.

(** zstd: compression, and reading at most a number of bytes of the decompressed stream. *)
Class Zstd := { zstd_encode : bytes → option bytes; zstd_read : bytes → Z → option bytes }.

Class ZstdLaws `{Zstd} : Prop := {
  zstd_read_encode l c cap : zstd_encode l = Some c → zstd_read c cap = Some (take (Z.to_nat cap) l);
  zstd_read_bound c cap l : zstd_read c cap = Some l → Z.of_nat (length l) ≤ Z.max 0 cap;
}.

(** ** io.rs *)

Module Io.

Definition READ_CHUNK : nat := 1024.

(** The pieces a stream is going to arrive in; a read gets at most the first one. *)
Abbreviation stream := (list bytes).

Definition recv_read (k : nat) (s : stream) : option (bytes * stream) :=
  match s with
  | [] => None
  | c :: s' => if (length c <=? k)%nat then Some (c, s') else Some (take k c, drop k c :: s')
  end.

Inductive FrameError := TooLong | Truncated | BadFrame.

Section io.
Context {A : Type} {PS : PostcardStream A}.

Record BufferedRecv := { prefix : bytes; recv : stream }.

Definition push_front (b : BufferedRecv) (l : bytes) : BufferedRecv :=
  {| prefix := l ++ prefix b; recv := recv b |}.

(** [None]: out of fuel. *)
Fixpoint read_frame (fuel : nat) (max_bytes : nat) (b : BufferedRecv)
    : option (result FrameError (option A) * BufferedRecv) :=
  match fuel with
  | O => None
  | S fuel' =>
      match take_from_bytes (prefix b) with
      | TakeOk a rest => Some (Ok (Some a), {| prefix := rest; recv := recv b |})
      | TakeErr => Some (Err BadFrame, b)
      | TakeEnd =>
          if (max_bytes <=? length (prefix b))%nat then Some (Err TooLong, b)
          else match recv_read (Nat.min READ_CHUNK (max_bytes - length (prefix b))) (recv b) with
               | Some (chunk, recv') => read_frame fuel' max_bytes {| prefix := prefix b ++ chunk; recv := recv' |}
               | None => Some (if decide (prefix b = []) then Ok None else Err Truncated, b)
               end
      end
  end.

(** [AsyncRead::poll_read] of the buffer, for a caller with room for [k] bytes. *)
Definition poll_read (k : nat) (b : BufferedRecv) : bytes * BufferedRecv :=
  match prefix b with
  | [] => match recv_read k (recv b) with
          | Some (c, s) => (c, {| prefix := []; recv := s |})
          | None => ([], b)
          end
  | _ :: _ => (take k (prefix b), {| prefix := drop k (prefix b); recv := recv b |})
  end.

(** Everything that is still to be read. *)
Definition unread (b : BufferedRecv) : bytes := prefix b ++ concat (recv b).

Definition nonempty_chunks (s : stream) : Prop := Forall (λ c, c ≠ []) s.

Lemma recv_read_spec k s c s' : (0 < k)%nat → nonempty_chunks s → recv_read k s = Some (c, s') →
  concat s = c ++ concat s' ∧ c ≠ [] ∧ (length c ≤ k)%nat ∧ nonempty_chunks s'.
Proof.
  intros Hk Hs. destruct s as [|x s]; [done |]. apply Forall_cons in Hs as [Hx Hs]. simpl.
  destruct (Nat.leb_spec (length x) k) as [Hl|Hl]; intros [= <- <-].
  - done.
  - simpl. rewrite app_assoc, take_drop. split_and!; [done | | rewrite length_take; lia |].
    + destruct x; [done |]. destruct k; [lia | done].
    + constructor; [| done]. intros Hd. apply (f_equal length) in Hd. rewrite length_drop in Hd. simpl in Hd. lia.
Qed.

(** Reading a frame ends: every round but the last adds at least one byte to the
    buffer, so one round per byte that fits, and one more, are enough. *)
Theorem read_frame_terminates max_bytes b : nonempty_chunks (recv b) →
  is_Some (read_frame (S (max_bytes - length (prefix b))) max_bytes b).
Proof.
  remember (max_bytes - length (prefix b))%nat as n eqn:Hn. assert (max_bytes - length (prefix b) ≤ n)%nat as Hle by lia.
  clear Hn. revert b Hle. induction n as [|n IH]; intros b Hle Hs; cbn [read_frame];
    destruct (take_from_bytes (prefix b)) as [a rest | |]; try by eexists.
  - rewrite (proj2 (Nat.leb_le _ _)) by lia. by eexists.
  - destruct (Nat.leb_spec max_bytes (length (prefix b))) as [Hm|Hm]; [by eexists |].
    destruct (recv_read _ (recv b)) as [[c s']|] eqn:Hr; [| by eexists].
    apply recv_read_spec in Hr as (_ & Hc & _ & Hs'); [| unfold READ_CHUNK; lia | done].
    apply IH; [| done]. cbn [prefix]. rewrite length_app. destruct c; [done |]. cbn [length]. lia.
Qed.

Context {PSL : PostcardStreamLaws A}.

(** Nothing is lost: what was unread is the frame, if one was read, and what is unread. *)
Lemma read_frame_unread fuel max_bytes b r b' : nonempty_chunks (recv b) →
  read_frame fuel max_bytes b = Some (r, b') →
  match r with
  | Ok (Some a) => ∃ frame, unread b = frame ++ unread b' ∧ take_from_bytes frame = TakeOk a []
  | _ => unread b = unread b'
  end.
Proof.
  revert b. induction fuel as [|fuel IH]; intros b Hs; [done |]. cbn [read_frame].
  destruct (take_from_bytes (prefix b)) as [a rest | |] eqn:Ht.
  - intros [= <- <-]. apply take_prefix in Ht as (frame & Hp & Hmore). exists frame. unfold unread. cbn [prefix recv].
    rewrite Hp, <- app_assoc. split; [done |]. specialize (Hmore []). by rewrite app_nil_r in Hmore.
  - destruct (Nat.leb_spec max_bytes (length (prefix b))); [by intros [= <- <-] |].
    destruct (recv_read _ (recv b)) as [[c s']|] eqn:Hr; [| by intros [= <- <-]; case_decide].
    apply recv_read_spec in Hr as (Hc & _ & _ & Hs'); [| unfold READ_CHUNK; lia | done].
    intros Hrun. apply IH in Hrun; [| done]. unfold unread in *. cbn [prefix recv] in Hrun.
    rewrite Hc, app_assoc. destruct r as [[]|]; done.
  - by intros [= <- <-].
Qed.

Lemma prefix_both (l1 l2 k1 k2 : bytes) : l1 ++ l2 = k1 ++ k2 → (length l1 ≤ length k1)%nat → l1 `prefix_of` k1.
Proof.
  intros Heq Hlen. exists (drop (length l1) k1).
  rewrite <- (take_drop (length l1) k1) at 1. f_equal.
  apply (f_equal (take (length l1))) in Heq. rewrite take_app_length, take_app_le in Heq by done. done.
Qed.

(** However a stream is cut into pieces, a frame of at most the allowed size at its
    front is read, and what is left to read is what follows it. *)
Theorem read_frame_any_chunks max_bytes b frame a rest : nonempty_chunks (recv b) →
  unread b = frame ++ rest → take_from_bytes frame = TakeOk a [] → (length frame ≤ max_bytes)%nat →
  ∃ b', read_frame (S (max_bytes - length (prefix b))) max_bytes b = Some (Ok (Some a), b') ∧ unread b' = rest.
Proof.
  intros Hs Hun Hf Hlen. destruct (take_prefix _ _ _ Hf) as (f0 & Hf0 & Hmore). rewrite app_nil_r in Hf0. subst f0.
  remember (max_bytes - length (prefix b))%nat as n eqn:Hn. assert (max_bytes - length (prefix b) ≤ n)%nat as Hle by lia.
  clear Hn. revert b Hs Hun Hle. induction n as [|n IH]; intros b Hs Hun Hle; cbn [read_frame].
  all: destruct (decide (length frame ≤ length (prefix b))%nat) as [Hfull|Hpart].
  1,3: destruct (prefix_both frame rest (prefix b) (concat (recv b)) (eq_sym Hun) Hfull) as [more Hp];
    rewrite Hp, Hmore; (eexists; split; [done |]); unfold unread in *; cbn [prefix recv];
    rewrite Hp, <- app_assoc in Hun; by apply app_inv_head in Hun.
  - exfalso. lia.
  - assert (prefix b `prefix_of` frame) as Hpre by (apply (prefix_both _ (concat (recv b)) _ rest); [done | lia]).
    rewrite (take_partial frame (prefix b) a Hf Hpre) by (intros Heq; rewrite Heq in Hpart; lia).
    destruct (Nat.leb_spec max_bytes (length (prefix b))) as [Hm|Hm]; [lia |].
    destruct (recv_read _ (recv b)) as [[c s']|] eqn:Hr.
    + apply recv_read_spec in Hr as (Hc & Hne & _ & Hs'); [| unfold READ_CHUNK; lia | done].
      apply IH; [done | unfold unread in *; cbn [prefix recv]; by rewrite <- app_assoc, <- Hc |].
      cbn [prefix]. rewrite length_app. destruct c; [done |]. cbn [length]. lia.
    + exfalso. destruct (recv b) as [|x s0] eqn:Hrecv; [| simpl in Hr; by case_match].
      unfold unread in Hun. rewrite Hrecv in Hun. cbn [concat] in Hun. rewrite app_nil_r in Hun.
      apply (f_equal length) in Hun. rewrite length_app in Hun. lia.
Qed.
End io.
End Io.

(** ** zmx_control.rs *)

Module Zmx.

Definition HEADER_BYTES : nat := 5.
Definition MAX_FRAME_BYTES : Z := 16 * 1024 * 1024.

Inductive ZmxError := FrameTooLarge | UnexpectedEof | InvalidData.

Definition write_frame (tag : Z) (payload : bytes) : result ZmxError bytes :=
  ensure (Z.of_nat (length payload) <=? U32_MAX) FrameTooLarge;;
  Ok ([tag] ++ le_encode 4 (Z.of_nat (length payload)) ++ payload).

(** [read_exact] on the bytes up to the end of the stream. *)
Definition read_exact (n : nat) (input : bytes) : result ZmxError (bytes * bytes) :=
  if (n <=? length input)%nat then Ok (take n input, drop n input) else Err UnexpectedEof.

Definition zmx_read_frame (input : bytes) : result ZmxError (option (Z * bytes * bytes)) :=
  match input with
  | [] => Ok None
  | tag :: input1 =>
      '(len_bytes, input2) ← read_exact 4 input1;
      let len := le_decode len_bytes in
      ensure (len <=? MAX_FRAME_BYTES) InvalidData;;
      '(payload, input3) ← read_exact (Z.to_nat len) input2;
      Ok (Some (tag, payload, input3))
  end.

Definition resize_payload (rows cols : Z) : bytes := le_encode 2 rows ++ le_encode 2 cols.

Lemma read_exact_app a b : read_exact (length a) (a ++ b) = Ok (a, b).
Proof.
  unfold read_exact. rewrite (proj2 (Nat.leb_le _ _)) by (rewrite length_app; lia).
  by rewrite take_app_length, drop_app_length.
Qed.

(** A frame written is read back, and the stream continues after it, exactly when its
    payload is at most 16 MiB; larger ones, up to 4 GiB, are written but refused by every
    reader. *)
Theorem zmx_frame_roundtrip tag payload rest frame : write_frame tag payload = Ok frame →
  zmx_read_frame (frame ++ rest) =
    if Z.of_nat (length payload) <=? MAX_FRAME_BYTES then Ok (Some (tag, payload, rest)) else Err InvalidData.
Proof.
  unfold write_frame. intros [Hlen%ensure_Ok [= <-]]%bind_tt. reflect_bool.
  set (n := Z.of_nat (length payload)) in *.
  change (zmx_read_frame (tag :: (le_encode 4 n ++ payload) ++ rest) =
    if n <=? MAX_FRAME_BYTES then Ok (Some (tag, payload, rest)) else Err InvalidData).
  rewrite <- app_assoc. cbn [zmx_read_frame].
  pose proof (read_exact_app (le_encode 4 n) (payload ++ rest)) as Hr. rewrite le_encode_length in Hr. rewrite Hr.
  cbn [mbind result_bind]. rewrite le_decode_encode by (unfold U32_MAX in *; lia).
  destruct (n <=? MAX_FRAME_BYTES); [| done]. cbn [ensure mbind result_bind]. subst n.
  by rewrite Nat2Z.id, read_exact_app.
Qed.

Lemma zmx_frame_roundtrip_witness : zmx_read_frame ([15; 2; 0; 0; 0; 7; 8] ++ [1]) = Ok (Some (15, [7; 8], [1])).
Proof. exact (zmx_frame_roundtrip 15 [7; 8] [1] [15; 2; 0; 0; 0; 7; 8] eq_refl). Defined.

End Zmx.

(** ** Payloads of wire/session.rs *)

Module Payload.

Definition ATTACH_V2_COMPRESS_THRESHOLD : Z := 16 * 1024.
Definition ATTACH_V2_MAX_DECODED_PAYLOAD : Z := 4 * 1024 * 1024.

Inductive AttachV2PayloadCodec := CodecNone | CodecZstd.

Record AttachV2Payload := {
  codec : AttachV2PayloadCodec;
  dictionary_id : option Z;
  uncompressed_len : Z;
  compressed_len : Z;
  payload_bytes : bytes;
}.

Inductive PayloadError :=
  | CompressFailed | CompressedMismatch | ExceedsCap | Dictionary | RawMismatch | DecodeFailed | DecodedMismatch.

Definition len (l : bytes) : Z := Z.of_nat (length l).

Definition raw (l : bytes) : AttachV2Payload :=
  {| codec := CodecNone; dictionary_id := None; uncompressed_len := len l; compressed_len := len l; payload_bytes := l |}.

Section payload.
Context {ZS : Zstd}.

Definition encode_auto (l : bytes) : result PayloadError AttachV2Payload :=
  if len l <=? ATTACH_V2_COMPRESS_THRESHOLD then Ok (raw l)
  else
    compressed ← ok_or (zstd_encode l) CompressFailed;
    if len l <=? len compressed then Ok (raw l)
    else Ok {| codec := CodecZstd; dictionary_id := None; uncompressed_len := len l;
               compressed_len := len compressed; payload_bytes := compressed |}.

Definition decode (p : AttachV2Payload) (max_uncompressed_len : Z) : result PayloadError bytes :=
  ensure (len (payload_bytes p) =? compressed_len p) CompressedMismatch;;
  ensure (uncompressed_len p <=? max_uncompressed_len) ExceedsCap;;
  ensure (negb (bool_decide (is_Some (dictionary_id p)))) Dictionary;;
  match codec p with
  | CodecNone =>
      ensure (uncompressed_len p =? compressed_len p) RawMismatch;;
      Ok (payload_bytes p)
  | CodecZstd =>
      decoded ← ok_or (zstd_read (payload_bytes p) (saturating_add U64_MAX max_uncompressed_len 1)) DecodeFailed;
      ensure (len decoded =? uncompressed_len p) DecodedMismatch;;
      Ok decoded
  end.

Lemma decode_raw l max : decode (raw l) max = if len l <=? max then Ok l else Err ExceedsCap.
Proof.
  unfold decode, raw. cbn [payload_bytes compressed_len uncompressed_len dictionary_id codec].
  rewrite Z.eqb_refl. by destruct (len l <=? max).
Qed.

(** Whatever was received, decoding gives exactly the declared number of bytes, at most
    the cap. *)
Theorem payload_decode_bounded p max l : decode p max = Ok l → len l = uncompressed_len p ∧ len l ≤ max.
Proof.
  unfold decode. intros [Hlen%ensure_Ok H]%bind_tt. apply bind_tt in H as [Hcap%ensure_Ok H]. apply bind_tt in H as [_ H].
  reflect_bool. destruct (codec p); inv_result; reflect_bool; subst; lia.
Qed.

Context {ZSL : ZstdLaws}.

(** A payload decodes to the bytes it was made from when they fit the cap, and is
    refused when they do not: the encoder does not look at the cap. *)
Theorem payload_roundtrip l p max : encode_auto l = Ok p → 0 ≤ max ≤ U64_MAX →
  decode p max = if len l <=? max then Ok l else Err ExceedsCap.
Proof.
  pose proof (decode_raw l max) as Hraw.
  intros He Hmax. unfold encode_auto in He. case_match; [by injection He as <- |].
  apply bind_Ok in He as (c & Hc%ok_or_Ok & He). case_match; [by injection He as <- |]. injection He as <-.
  unfold decode. cbn [payload_bytes compressed_len uncompressed_len dictionary_id codec].
  rewrite Z.eqb_refl. cbn [ensure mbind result_bind]. destruct (Z.leb_spec (len l) max) as [Hle|]; [| done].
  cbn [ensure mbind result_bind negb bool_decide decide]. rewrite (zstd_read_encode _ _ _ Hc). cbn [ok_or mbind result_bind].
  assert (take (Z.to_nat (saturating_add U64_MAX max 1)) l = l) as ->.
  { apply take_ge. unfold saturating_add, U64_MAX, len in *. lia. }
  by rewrite Z.eqb_refl.
Qed.
End payload.

(** A compressor that knows one block. *)
Module Demo.
Definition block : bytes := replicate (Z.to_nat 20000) 7.
#[export] Instance zstd : Zstd := {|
  zstd_encode l := if decide (l = block) then Some [1] else Some (0 :: l);
  zstd_read c cap := Some (take (Z.to_nat cap) (if decide (c = [1]) then block else drop 1 c)) |}.
#[export] Instance zstd_laws : ZstdLaws.
Proof.
  split; simpl.
  - intros l c cap. case_decide as Hl; intros [= <-]; [by subst |]. by rewrite decide_False.
  - intros c cap l [= <-]. rewrite length_take. lia.
Qed.

Definition packed : AttachV2Payload :=
  {| codec := CodecZstd; dictionary_id := None; uncompressed_len := 20000; compressed_len := 1; payload_bytes := [1] |}.

Lemma packed_ok : encode_auto block = Ok packed.
Proof. by_vm. Qed.

Lemma payload_roundtrip_witness : decode packed ATTACH_V2_MAX_DECODED_PAYLOAD = Ok block.
Proof.
  apply (payload_roundtrip block packed ATTACH_V2_MAX_DECODED_PAYLOAD packed_ok). split; done.
Defined.

Lemma payload_decode_bounded_witness : len block = uncompressed_len packed ∧ len block ≤ 30000.
Proof. apply (payload_decode_bounded packed 30000 block). by_vm. Defined.
End Demo.
End Payload.

(** ** Witness for io.rs: a value is a byte and a length-prefixed tail *)

Module IoDemo.
Import Io.

(** [n] and then [n] bytes. *)
#[export] Instance counted : PostcardStream bytes := {|
  take_from_bytes l :=
    match l with
    | [] => TakeEnd
    | n :: r => if (Z.to_nat n <=? length r)%nat then TakeOk (take (Z.to_nat n) r) (drop (Z.to_nat n) r) else TakeEnd
    end |}.

#[export] Instance counted_laws : PostcardStreamLaws bytes.
Proof.
  split; simpl.
  - intros [|n r] a rest; [done |]. destruct (Nat.leb_spec (Z.to_nat n) (length r)) as [Hn|]; [| done].
    intros [= <- <-]. exists (n :: take (Z.to_nat n) r). split; [simpl; by rewrite take_drop |]. intros more. simpl.
    assert (length (take (Z.to_nat n) r) = Z.to_nat n) as Hl by (rewrite length_take; lia).
    rewrite (proj2 (Nat.leb_le _ _)) by (rewrite length_app; lia).
    rewrite <- Hl at 1 3. by rewrite take_app_length, drop_app_length.
  - intros [|n r] part a; [done |]. destruct (Nat.leb_spec (Z.to_nat n) (length r)) as [Hn|]; [| done].
    intros [= _ Hd] [more Hp] Hne. destruct part as [|m part]; [done |]. injection Hp as -> ->.
    apply (f_equal length) in Hd. rewrite length_drop, length_app in Hd. simpl in Hd.
    assert (more ≠ []) as Hm by (intros ->; by rewrite app_nil_r in Hne).
    destruct more; [done |]. rewrite length_app in *. cbn [length] in *.
    destruct (Nat.leb_spec (Z.to_nat m) (length part)); [lia | done].
Qed.

Definition demo : BufferedRecv := {| prefix := []; recv := [[3; 9]; [8]; [7; 1]; [5]] |}.

Lemma demo_chunks : nonempty_chunks (recv demo).
Proof. repeat (constructor; [done |]). constructor. Qed.

Lemma read_frame_terminates_witness : is_Some (read_frame (S (100 - 0)) 100 demo).
Proof. apply (read_frame_terminates 100 demo demo_chunks). Defined.

Lemma read_frame_any_chunks_witness :
  ∃ b', read_frame (S (100 - 0)) 100 demo = Some (Ok (Some [9; 8; 7]), b') ∧ unread b' = [1; 5].
Proof.
  apply (read_frame_any_chunks 100 demo [3; 9; 8; 7] [9; 8; 7] [1; 5] demo_chunks); [done | done | cbn [length]; lia].
Defined.
End IoDemo.
