(* ===== verification/ShortCode.v ===== *)
(** * Short codes

    crates/portl-core/src/rendezvous/short_code.rs: codes of the form
    PORTL-S-<nameplate>-<word>-<word>[-...], typed by users to receive a session share. *)

From S2P Require Import Prelude.

Definition PREFIX : string := "PORTL-S-".
Definition DASH : Z := 45.

Record ShortCode := { nameplate : string; words : list string }.

Inductive ShortCodeParseError := WrongPrefix | MissingComponents | InvalidNameplate | InvalidWord (w : string).

Definition is_ascii_lowercase (b : Z) : bool := (97 <=? b) && (b <=? 122).

Definition is_word (w : string) : bool :=
  negb (bool_decide (w = "")) && forallb is_ascii_lowercase (str_bytes w).

Definition parse (input : string) : result ShortCodeParseError ShortCode :=
  rest ← ok_or (strip_prefix PREFIX input) WrongPrefix;
  let parts := str_split DASH rest in
  nameplate ← ok_or (match head parts with Some n => if decide (n = "") then None else Some n | None => None end)
                MissingComponents;
  ensure (forallb is_ascii_digit (str_bytes nameplate)) InvalidNameplate;;
  let words := tail parts in
  ensure (2 <=? length words)%nat MissingComponents;;
  for_each (λ w, ensure (is_word w) (InvalidWord w)) words;;
  Ok {| nameplate := nameplate; words := words |}.

Definition WORDLIST : list string := [
  "absent"; "acid"; "acorn"; "active"; "actor"; "adapt"; "admit"; "adobe"; "adopt"; "agent";
  "album"; "alert"; "alibi"; "alive"; "alley"; "alpha"; "amber"; "amend"; "amigo"; "ample";
  "amuse"; "anchor"; "angel"; "ankle"; "apple"; "april"; "apron"; "arbor"; "arcade"; "arena";
  "argue"; "arise"; "armor"; "arrow"; "ascot"; "aspen"; "aspect"; "assist"; "atlas"; "atom";
  "audio"; "aunt"; "autumn"; "avert"; "awake"; "axis"; "bacon"; "badge"; "baker"; "balsa";
  "bamboo"; "banjo"; "barn"; "basil"; "basin"; "batch"; "beach"; "beacon"; "beam"; "bean"; "bear";
  "beaver"; "bench"; "berry"; "beta"; "bicep"; "binder"; "bingo"; "birch"; "bishop"; "bison";
  "bitmap"; "blade"; "blaze"; "blend"; "blink"; "block"; "bloom"; "blueprint"; "blush"; "boat";
  "bobcat"; "bonus"; "boost"; "border"; "bottle"; "bounce"; "boxer"; "brain"; "brave"; "bread";
  "breeze"; "bridge"; "brisk"; "broker"; "bronze"; "brown"; "bubble"; "budget"; "buffer"; "bugle";
  "bulb"; "bunker"; "burst"; "butter"; "cabin"; "cable"; "cactus"; "camel"; "camera"; "candle";
  "canvas"; "canyon"; "carbon"; "career"; "cargo"; "carrot"; "castle"; "catch"; "cedar"; "celery";
  "cement"; "census"; "ceramic"; "cereal"; "chalk"; "chant"; "chapel"; "charm"; "chart"; "cheese";
  "cherry"; "chess"; "chief"; "chime"; "chisel"; "chord"; "cider"; "cinema"; "cipher"; "circle";
  "citrus"; "civic"; "clamp"; "clarity"; "clasp"; "classic"; "clean"; "clever"; "client"; "cliff";
  "climb"; "clinic"; "clock"; "clover"; "cluster"; "coast"; "cobalt"; "cobra"; "cocoa"; "comet";
  "common"; "compass"; "copper"; "coral"; "cosmic"; "cotton"; "couple"; "courier"; "coyote";
  "crab"; "crane"; "crater"; "crayon"; "credit"; "crisp"; "crochet"; "crown"; "crystal"; "cube";
  "cumin"; "cupcake"; "current"; "cygnet"; "daisy"; "dapper"; "darling"; "dashing"; "dawn";
  "decade"; "decoy"; "delta"; "denim"; "depot"; "desert"; "design"; "device"; "dialog"; "diamond";
  "diary"; "dimple"; "dingo"; "dipper"; "doctor"; "dolphin"; "domain"; "donor"; "donut"; "dossier";
  "dragon"; "dream"; "driver"; "drizzle"; "drum"; "dryad"; "duet"; "dynamo"; "eagle"; "earth";
  "easel"; "eclair"; "edible"; "editor"; "eject"; "elastic"; "elbow"; "elder"; "ember"; "emblem";
  "emerald"; "empire"; "emu"; "energy"; "engine"; "envelope"; "epoch"; "equal"; "erode"; "escape";
  "ethics"; "evolve"; "exhale"; "expert"; "extra"; "fable"; "fabric"; "facet"; "faint"; "falcon";
  "famous"; "fancy"; "farm"; "fawn"; "feather"; "fennel"; "fern"; "ferry"; "fiber"; "fiction";
  "field"; "figure"; "filter"; "finch"; "finish"
].

(** [picks] are the positions of the two words that [choose_multiple] draws, which are
    different. *)
Definition generate_with_nameplate (n : string) (picks : nat * nat) : result ShortCodeParseError ShortCode :=
  ensure (negb (bool_decide (n = "")) && forallb is_ascii_digit (str_bytes n)) InvalidNameplate;;
  Ok {| nameplate := n; words := omap (λ i, WORDLIST !! i) [picks.1; picks.2] |}.

Definition password (c : ShortCode) : string :=
  foldl (λ out w, out +:+ "-" +:+ w) (nameplate c) (words c).

Definition display_code (c : ShortCode) : string := PREFIX +:+ password c.

(** ** Lemmas *)

Lemma password_join c : password c = String.concat "-" (nameplate c :: words c).
Proof.
  unfold password. destruct c as [n ws]. simpl. revert n. induction ws as [|w ws IH]; intros n; simpl; [done |].
  rewrite IH. clear IH. destruct ws as [|x ws]; [done |]. by rewrite <- !str_app_assoc.
Qed.

Definition no_dash (s : string) : Prop := str_contains_byte DASH s = false.

Lemma split_join p l : no_dash p → Forall no_dash l → str_split DASH (String.concat "-" (p :: l)) = p :: l.
Proof. intros Hp Hl. exact (str_split_concat (Ascii.ascii_of_N 45) p l (Forall_cons_2 _ _ _ Hp Hl)). Qed.

Lemma join_split s p l : str_split DASH s = p :: l → String.concat "-" (p :: l) = s.
Proof. intros <-. exact (str_concat_split (Ascii.ascii_of_N 45) s). Qed.

(** ** Codes *)

Record wf (c : ShortCode) : Prop := {
  wf_plate : nameplate c ≠ "" ∧ forallb is_ascii_digit (str_bytes (nameplate c)) = true;
  wf_words : Forall (λ w, is_word w = true) (words c);
  wf_two : (2 ≤ length (words c))%nat;
}.

Lemma wf_no_dash c : wf c → no_dash (nameplate c) ∧ Forall no_dash (words c).
Proof.
  intros [[_ Hn] Hw _]. split; [by eapply forallb_no_byte; [| exact Hn] |]. apply (Forall_impl _ _ _ Hw). intros w H.
  unfold is_word in H. reflect_bool. by eapply forallb_no_byte; [| eassumption].
Qed.

Lemma parse_display c : wf c → parse (display_code c) = Ok c.
Proof.
  intros Hwf. unfold display_code. rewrite password_join. destruct (wf_no_dash c Hwf) as [Hn Hl].
  destruct Hwf as [[Hne Hd] Hw H2]. unfold parse.
  replace (strip_prefix PREFIX _) with (Some (String.concat "-" (nameplate c :: words c)))
    by (symmetry; by apply strip_prefix_spec).
  cbn [ok_or mbind result_bind]. rewrite split_join by done. cbn [head tail]. rewrite decide_False by done.
  cbn [ok_or mbind result_bind]. rewrite Hd, (proj2 (Nat.leb_le 2 _) H2). cbn [ensure mbind result_bind].
  rewrite (proj2 (for_each_Ok _ _)); [by destruct c |]. apply (Forall_impl _ _ _ Hw). by intros w ->.
Qed.

(** Parsing and printing short codes are inverse to each other: a string parses to a
    code exactly when the code is well formed (a nameplate of digits and two or more words
    of lower-case letters) and prints as the string. *)
Theorem short_code_parse_print s c : parse s = Ok c ↔ wf c ∧ s = display_code c.
Proof.
  split; [| by intros [Hwf ->]; apply parse_display].
  unfold parse. intros (rest & Hr%ok_or_Ok & H)%bind_Ok. apply strip_prefix_spec in Hr as ->.
  apply bind_Ok in H as (n & Hn%ok_or_Ok & H). apply bind_tt in H as [Hd%ensure_Ok H].
  apply bind_tt in H as [H2%ensure_Ok%Nat.leb_le H]. apply bind_tt in H as [Hw%for_each_Ok [= <-]].
  destruct (str_split DASH rest) as [|p l] eqn:Hs; [done |]. simpl in *. case_decide; [done |]. simplify_eq.
  split; [| unfold display_code; rewrite password_join; by rewrite <- (join_split _ _ _ Hs)].
  split; simpl; [done | | done]. apply (Forall_impl _ _ _ Hw). intros w Hw'. by apply ensure_Ok in Hw'.
Qed.

Lemma wordlist_words : Forall (λ w, is_word w = true) WORDLIST.
Proof. apply Forall_forall. intros w Hw. apply (proj1 (forallb_forall is_word WORDLIST)); [by vm_compute | by apply list_elem_of_In]. Qed.

(** The words are different from each other, and there are 264 of them. *)
Lemma wordlist_size : NoDup WORDLIST ∧ length WORDLIST = 264%nat.
Proof. split; [| done]. apply (bool_decide_unpack _). by vm_compute. Qed.

(** A generated code parses back to itself when it is typed in. *)
Lemma generated_code_parses n i j c : (i < length WORDLIST)%nat → (j < length WORDLIST)%nat →
  generate_with_nameplate n (i, j) = Ok c → parse (display_code c) = Ok c.
Proof.
  intros [x Hx]%lookup_lt_is_Some [y Hy]%lookup_lt_is_Some [Hn%ensure_Ok [= <-]]%bind_tt.
  apply parse_display. reflect_bool. cbn [omap list_omap fst snd]. rewrite Hx, Hy.
  pose proof wordlist_words as Hw. rewrite Forall_lookup in Hw.
  split; simpl; [done | by repeat constructor; eauto | lia].
Qed.
