(* ===== verification/Pty.v ===== *)
(** * The PTY master task

    crates/portl-agent/src/shell_handler/pty_master.rs: the queue of input that waits for
    the terminal ([PendingPtyWrite]) and the task that owns the master side of a
    pseudo-terminal.  The messages are those of shell_registry.rs.  The system calls on the
    descriptor are the environment of a step. *)

From S2P Require Import Prelude.

Inductive StdinMessage := Data (b : bytes) | StdinClose.
#[export] Instance stdin_message_eq_dec : EqDecision StdinMessage.
Proof. solve_decision. Defined.

Inductive PtyCommand := Resize (rows cols : Z) | Close (force : bool) | KickOthers.

(** ** The input queue *)

Definition DEFAULT_PTY_INPUT_QUEUE_BYTES : Z := 1024 * 1024.

Record PendingPtyWrite := {
  chunks : list bytes;
  front_offset : nat;
  pending_bytes : Z;
  max_bytes : Z;
}.

Definition pending_new (max : Z) : PendingPtyWrite :=
  {| chunks := []; front_offset := 0; pending_bytes := 0; max_bytes := max |}.

Definition push (p : PendingPtyWrite) (b : bytes) : result string PendingPtyWrite :=
  if bool_decide (b = []) then Ok p
  else
    ensure (saturating_add U64_MAX (pending_bytes p) (Z.of_nat (length b)) <=? max_bytes p) "pty input queue is full";;
    Ok {| chunks := chunks p ++ [b]; front_offset := front_offset p;
          pending_bytes := pending_bytes p + Z.of_nat (length b); max_bytes := max_bytes p |}.

Definition front_chunk (p : PendingPtyWrite) : option bytes :=
  match chunks p with
  | [] => None
  | c :: _ => let rest := drop (front_offset p) c in if bool_decide (rest = []) then None else Some rest
  end.

(** The loop of [consume]; it pops the chunks that are written out. *)
Fixpoint consume_loop (max : Z) (cs : list bytes) (offset : nat) (pending : Z) (remaining : nat) : PendingPtyWrite :=
  match remaining, cs with
  | O, _ => {| chunks := cs; front_offset := offset; pending_bytes := pending; max_bytes := max |}
  | _, [] => {| chunks := []; front_offset := 0; pending_bytes := pending; max_bytes := max |}
  | _, front :: cs' =>
      let available := (length front - offset)%nat in
      if (remaining <? available)%nat then
        {| chunks := cs; front_offset := offset + remaining; pending_bytes := pending - Z.of_nat remaining; max_bytes := max |}
      else consume_loop max cs' 0 (pending - Z.of_nat available) (remaining - available)
  end.

Definition consume (p : PendingPtyWrite) (written : nat) : PendingPtyWrite :=
  consume_loop (max_bytes p) (chunks p) (front_offset p) (pending_bytes p)
    (written `min` Z.to_nat (pending_bytes p)).

Definition clear (p : PendingPtyWrite) : Z * PendingPtyWrite :=
  (pending_bytes p, {| chunks := []; front_offset := 0; pending_bytes := 0; max_bytes := max_bytes p |}).

Definition is_empty (p : PendingPtyWrite) : bool := pending_bytes p =? 0.

(** ** One write to the descriptor *)

(** What [write] does: [EAGAIN], an error, or some bytes taken (no more than offered). *)
Inductive WriteResult := WouldBlock | WriteFails (e : string) | Accepts (n : nat).

Definition write_one_pending_pty_chunk (w : WriteResult) (p : PendingPtyWrite) : result string (PendingPtyWrite * bytes) :=
  match front_chunk p with
  | None => Ok (p, [])
  | Some b =>
      match w with
      | WouldBlock => Ok (p, [])
      | WriteFails e => Err e
      | Accepts n =>
          let n := (n `min` length b)%nat in
          ensure (negb (n =? 0)%nat) "pty write returned zero bytes";;
          Ok (consume p n, take n b)
      end
  end.

(** ** The task *)

Record PtyTask := {
  stdin_open : bool;
  drain_deadline : option Z;
  pending_input : PendingPtyWrite;
  stdin_rx : list StdinMessage;
  pty_rx : list PtyCommand;
  window : option (Z * Z);
  written : bytes;
  stdout : list bytes;
}.

(** The system around one turn of the loop: the time, the results of the calls on the
    descriptor ([None]: not ready), and whether the reader of the output is there. *)
Record PtyIo := {
  now : Z;
  io_resize : result string unit;
  io_write : WriteResult;
  io_read : option (result string (option bytes));
  stdout_rx_open : bool;
}.

Inductive Turn := Next (t : PtyTask) | Waits | Returns (r : result string unit).

Definition turn (r : result string Turn) : Turn := match r with Ok t => t | Err e => Returns (Err e) end.

Definition set_pending (t : PtyTask) p w : PtyTask :=
  {| stdin_open := stdin_open t; drain_deadline := drain_deadline t; pending_input := p;
     stdin_rx := stdin_rx t; pty_rx := pty_rx t; window := window t; written := written t ++ w; stdout := stdout t |}.

Definition set_pty_rx (t : PtyTask) q : PtyTask :=
  {| stdin_open := stdin_open t; drain_deadline := drain_deadline t; pending_input := pending_input t;
     stdin_rx := stdin_rx t; pty_rx := q; window := window t; written := written t; stdout := stdout t |}.

Definition set_stdin (t : PtyTask) op q : PtyTask :=
  {| stdin_open := op; drain_deadline := drain_deadline t; pending_input := pending_input t;
     stdin_rx := q; pty_rx := pty_rx t; window := window t; written := written t; stdout := stdout t |}.

Definition set_deadline (t : PtyTask) d : PtyTask :=
  {| stdin_open := stdin_open t; drain_deadline := Some d; pending_input := pending_input t;
     stdin_rx := stdin_rx t; pty_rx := pty_rx t; window := window t; written := written t; stdout := stdout t |}.

Definition set_window (t : PtyTask) rows cols : PtyTask :=
  {| stdin_open := stdin_open t; drain_deadline := drain_deadline t; pending_input := pending_input t;
     stdin_rx := stdin_rx t; pty_rx := pty_rx t; window := Some (rows, cols); written := written t; stdout := stdout t |}.

Definition push_stdout (t : PtyTask) b : PtyTask :=
  {| stdin_open := stdin_open t; drain_deadline := drain_deadline t; pending_input := pending_input t;
     stdin_rx := stdin_rx t; pty_rx := pty_rx t; window := window t; written := written t; stdout := stdout t ++ [b] |}.

(** The [try_recv] loop of a graceful close. *)
Fixpoint drain_stdin (op : bool) (p : PendingPtyWrite) (q : list StdinMessage)
    : result string (bool * PendingPtyWrite * list StdinMessage) :=
  match q with
  | [] => Ok (op, p, [])
  | Data b :: q' => p' ← push p b; drain_stdin op p' q'
  | StdinClose :: q' => Ok (false, p, q')
  end.

Definition on_command (drain_timeout : Z) (io : PtyIo) (cmd : PtyCommand) (t : PtyTask) : result string Turn :=
  match cmd with
  | Resize rows cols =>
      if bool_decide (drain_deadline t = None) then io_resize io;; Ok (Next (set_window t rows cols))
      else Ok (Next t)
  | Close true => Ok (Returns (Ok tt))
  | Close false =>
      if bool_decide (drain_deadline t = None) then
        '(op, p, q) ← drain_stdin (stdin_open t) (pending_input t) (stdin_rx t);
        Ok (Next (set_deadline (set_pending (set_stdin t op q) p []) (now io + drain_timeout)))
      else Ok (Next t)
  | KickOthers => Ok (Next t)
  end.

Definition on_stdin (m : StdinMessage) (q : list StdinMessage) (t : PtyTask) : result string Turn :=
  match m with
  | Data b => p ← push (pending_input t) b; Ok (Next (set_pending (set_stdin t (stdin_open t) q) p []))
  | StdinClose => Ok (Next (set_stdin t false q))
  end.

Definition on_read (io : PtyIo) (r : result string (option bytes)) (t : PtyTask) : result string Turn :=
  chunk ← r;
  match chunk with
  | None => Ok (Returns (Ok tt))
  | Some c => Ok (if stdout_rx_open io then Next (push_stdout t c) else Returns (Ok tt))
  end.

Definition accepts_stdin (t : PtyTask) : bool := stdin_open t && bool_decide (drain_deadline t = None).
Definition drain_over (io : PtyIo) (t : PtyTask) : bool :=
  match drain_deadline t with Some d => d <=? now io | None => false end.
Definition can_write (io : PtyIo) (t : PtyTask) : bool :=
  negb (is_empty (pending_input t)) && match io_write io with WouldBlock => false | _ => true end.

(** One turn of the loop: the select is biased, so the first arm that is ready runs. *)
Definition pty_master_turn (drain_timeout : Z) (io : PtyIo) (t : PtyTask) : Turn :=
  match pty_rx t with
  | cmd :: q => turn (on_command drain_timeout io cmd (set_pty_rx t q))
  | [] =>
      match accepts_stdin t, stdin_rx t with
      | true, m :: q => turn (on_stdin m q t)
      | _, _ =>
          if drain_over io t then Returns (Ok tt)
          else if can_write io t then
            turn ('(p, w) ← write_one_pending_pty_chunk (io_write io) (pending_input t);
                  Ok (Next (set_pending t p w)))
          else match io_read io with Some r => turn (on_read io r t) | None => Waits end
      end
  end.

Definition pty_master_start : PtyTask :=
  {| stdin_open := true; drain_deadline := None; pending_input := pending_new DEFAULT_PTY_INPUT_QUEUE_BYTES;
     stdin_rx := []; pty_rx := []; window := None; written := []; stdout := [] |}.

(** ** The queue holds a string of bytes *)

Definition content (p : PendingPtyWrite) : bytes := drop (front_offset p) (concat (chunks p)).

Definition offset_ok (cs : list bytes) (offset : nat) : Prop :=
  match cs with [] => offset = 0%nat | c :: _ => (offset < length c)%nat end.

Record pending_wf (p : PendingPtyWrite) : Prop := {
  wf_offset : offset_ok (chunks p) (front_offset p);
  wf_chunks : Forall (λ c, c ≠ []) (chunks p);
  wf_pending : pending_bytes p = Z.of_nat (length (content p));
  wf_max : pending_bytes p <= max_bytes p;
  wf_limit : max_bytes p < U64_MAX;
}.

Lemma offset_concat cs offset : offset_ok cs offset → (offset ≤ length (concat cs))%nat.
Proof. destruct cs as [|c cs]; simpl; [lia |]. rewrite length_app. lia. Qed.

Lemma pending_new_wf max : 0 <= max < U64_MAX → pending_wf (pending_new max).
Proof. intros ?. by constructor; simpl; try lia. Qed.

Lemma push_spec p b p' : pending_wf p → push p b = Ok p' →
  pending_wf p' ∧ content p' = content p ++ b ∧ max_bytes p' = max_bytes p.
Proof.
  intros [Ho Hc Hp Hm Hl]. unfold push. case_bool_decide as Hb.
  { intros [= <-]. subst b. by rewrite app_nil_r. }
  intros [He%ensure_Ok%Z.leb_le [= <-]]%bind_tt.
  assert (content {| chunks := chunks p ++ [b]; front_offset := front_offset p;
    pending_bytes := pending_bytes p + Z.of_nat (length b); max_bytes := max_bytes p |} = content p ++ b) as Heq.
  { unfold content. simpl. rewrite concat_app. simpl. rewrite app_nil_r, drop_app_le; [done |]. by apply offset_concat. }
  split; [| done]. constructor; [simpl | simpl | rewrite Heq, length_app; simpl; lia | simpl | done].
  - destruct (chunks p); simpl in *; [| done]. rewrite Ho. destruct b; [done | simpl; lia].
  - apply Forall_app_2; [done | by constructor].
  - unfold saturating_add in He. lia.
Qed.

Lemma consume_loop_spec max cs offset pending n : offset_ok cs offset → Forall (λ c, c ≠ []) cs →
  pending = Z.of_nat (length (drop offset (concat cs))) → (n ≤ length (drop offset (concat cs)))%nat →
  pending <= max → max < U64_MAX →
  let p := consume_loop max cs offset pending n in
  pending_wf p ∧ content p = drop n (drop offset (concat cs)) ∧ max_bytes p = max.
Proof.
  revert offset pending n. induction cs as [|c cs IH]; intros offset pending n Ho Hc Hp Hn Hm Hl.
  - simpl in *. subst. destruct n; simpl in *; [by repeat constructor | lia].
  - destruct n as [|n]; [by split; [constructor |] |]. cbn [consume_loop].
    simpl in Ho. assert (Hd : drop offset (concat (c :: cs)) = drop offset c ++ concat cs)
      by (simpl; rewrite drop_app_le; [done | lia]).
    rewrite Hd, length_app, length_drop in Hp, Hn. destruct (S n <? length c - offset)%nat eqn:Hlt.
    + apply Nat.ltb_lt in Hlt. unfold content. simpl. split; [constructor; simpl; try done; try lia |].
      * unfold content. cbn [chunks front_offset]. rewrite <- drop_drop, Hd, length_drop, length_app, length_drop. lia.
      * by rewrite drop_drop.
    + apply Nat.ltb_ge in Hlt. apply Forall_cons in Hc as [Hne Hcs].
      assert (offset_ok cs 0) by (destruct cs as [|[] ?]; simpl; [done | by inversion Hcs | lia]).
      destruct (IH 0%nat (pending - Z.of_nat (length c - offset)) (S n - (length c - offset))%nat) as (? & Hcont & ?);
        rewrite ?drop_0; try done; try lia.
      split; [done |]. split; [| done]. rewrite Hcont, drop_0, Hd, drop_app_ge by (rewrite length_drop; lia).
      by rewrite length_drop.
Qed.

Lemma consume_spec p n : pending_wf p → (n ≤ length (content p))%nat →
  pending_wf (consume p n) ∧ content (consume p n) = drop n (content p) ∧ max_bytes (consume p n) = max_bytes p.
Proof.
  intros [Ho Hc Hp Hm Hl] Hn. unfold consume. rewrite Hp, Nat2Z.id, Nat.min_l by done.
  rewrite <- Hp. by apply consume_loop_spec.
Qed.

Lemma front_chunk_spec p b : pending_wf p → front_chunk p = Some b → ∃ rest, content p = b ++ rest ∧ b ≠ [].
Proof.
  intros [Ho _ _ _ _]. unfold front_chunk, content. destruct (chunks p) as [|c cs]; [done |]. case_bool_decide; [done |].
  intros [= <-]. exists (concat cs). simpl in *. by rewrite drop_app_le by lia.
Qed.

Lemma is_empty_spec p : pending_wf p → is_empty p = true ↔ content p = [].
Proof.
  intros [_ _ Hp _ _]. unfold is_empty. rewrite Z.eqb_eq, Hp. destruct (content p); simpl; [done |]. split; [lia | done].
Qed.

(** A write moves bytes from the front of the queue to the terminal. *)
Lemma write_one_spec w p p' out : pending_wf p → write_one_pending_pty_chunk w p = Ok (p', out) →
  pending_wf p' ∧ out ++ content p' = content p ∧ max_bytes p' = max_bytes p.
Proof.
  intros Hwf. unfold write_one_pending_pty_chunk. destruct (front_chunk p) as [b|] eqn:Hf; [| by intros [= <- <-]].
  apply front_chunk_spec in Hf as (rest & Hc & Hb); [| done]. destruct w as [| |n]; [by intros [= <- <-] | done |].
  intros [_ [= <- <-]]%bind_tt. destruct (consume_spec p (n `min` length b) Hwf) as (? & Hd & ?).
  { rewrite Hc, length_app. lia. }
  split; [done |]. split; [| done]. rewrite Hd, Hc, drop_app_le by lia. by rewrite app_assoc, take_drop.
Qed.

(** ** The task in its surroundings *)

(** The input of a client is what it sends before it closes its side. *)
Fixpoint until_close (l : list StdinMessage) : bytes :=
  match l with
  | [] | StdinClose :: _ => []
  | Data b :: l' => b ++ until_close l'
  end.

(** The task, with all that was sent to it so far. *)
Record PtySystem := { task : PtyTask; sent : list StdinMessage }.

Inductive sys_step (drain_timeout : Z) : PtySystem → PtySystem → Prop :=
  | send_stdin s m :
      sys_step drain_timeout s
        {| task := set_stdin (task s) (stdin_open (task s)) (stdin_rx (task s) ++ [m]); sent := sent s ++ [m] |}
  | send_command s c :
      sys_step drain_timeout s {| task := set_pty_rx (task s) (pty_rx (task s) ++ [c]); sent := sent s |}
  | run_turn s io t :
      pty_master_turn drain_timeout io (task s) = Next t → sys_step drain_timeout s {| task := t; sent := sent s |}.

Definition sys_start : PtySystem := {| task := pty_master_start; sent := [] |}.

Definition queued (t : PtyTask) : bytes := written t ++ content (pending_input t).

Record sys_inv (s : PtySystem) : Prop := {
  inv_wf : pending_wf (pending_input (task s));
  inv_max : max_bytes (pending_input (task s)) = DEFAULT_PTY_INPUT_QUEUE_BYTES;
  inv_taken : drain_deadline (task s) = None → ∃ taken, sent s = taken ++ stdin_rx (task s) ∧
    queued (task s) = until_close taken ∧ (stdin_open (task s) = true ↔ StdinClose ∉ taken);
}.

Lemma until_close_app l l' :
  until_close (l ++ l') = until_close l ++ (if decide (StdinClose ∈ l) then [] else until_close l').
Proof.
  induction l as [|[b|] l IH]; cbn [app until_close]; [by rewrite decide_False by apply not_elem_of_nil | |].
  - rewrite IH, <- app_assoc. do 2 f_equal. apply decide_ext. rewrite elem_of_cons. naive_solver.
  - by rewrite decide_True by apply list_elem_of_here.
Qed.

Lemma turn_Next r t : turn r = Next t ↔ r = Ok (Next t).
Proof. destruct r; simpl; naive_solver. Qed.

Lemma drain_stdin_spec op p q op' p' q' : pending_wf p → drain_stdin op p q = Ok (op', p', q') →
  pending_wf p' ∧ content p' = content p ++ until_close q ∧ max_bytes p' = max_bytes p.
Proof.
  revert p. induction q as [|[b|] q IH]; intros p Hwf; cbn [drain_stdin until_close].
  - intros [= <- <- <-]. by rewrite app_nil_r.
  - intros (p1 & (Hwf1 & Hc & Hm)%push_spec & H)%bind_Ok; [| done].
    apply IH in H as (? & -> & ->); [| done]. by rewrite Hc, Hm, <- app_assoc.
  - intros [= <- <- <-]. by rewrite app_nil_r.
Qed.

(** What a turn that goes on did to the input. *)
Inductive turn_effect (t t' : PtyTask) : Prop :=
  | effect_none : queued t' = queued t → stdin_rx t' = stdin_rx t → stdin_open t' = stdin_open t →
      drain_deadline t' = drain_deadline t → turn_effect t t'
  | effect_stdin m : accepts_stdin t = true → stdin_rx t = m :: stdin_rx t' → queued t' = queued t ++ until_close [m] →
      stdin_open t' = bool_decide (m ≠ StdinClose) → drain_deadline t' = None → turn_effect t t'
  | effect_close d q : pty_rx t = Close false :: q → drain_deadline t = None → drain_deadline t' = Some d →
      queued t' = queued t ++ until_close (stdin_rx t) → turn_effect t t'.

Ltac no_effect := split_and!; [done | done | by apply effect_none].

Lemma on_command_effect timeout io cmd q t t' : pending_wf (pending_input t) → pty_rx t = cmd :: q →
  on_command timeout io cmd (set_pty_rx t q) = Ok (Next t') →
  pending_wf (pending_input t') ∧ max_bytes (pending_input t') = max_bytes (pending_input t) ∧ turn_effect t t'.
Proof.
  intros Hwf Hq. destruct cmd as [rows cols|[]|]; simpl; [| done | |].
  - case_bool_decide; [intros [_ [= <-]]%bind_tt | intros [= <-]]; no_effect.
  - case_bool_decide as Hd; [| intros [= <-]; no_effect].
    intros ([[op p] rx] & (Hwf' & Hc & Hm)%drain_stdin_spec & [= <-])%bind_Ok; [| done].
    split_and!; [done | done |]. eapply effect_close; try done. unfold queued. simpl. by rewrite app_nil_r, Hc, app_assoc.
  - intros [= <-]; no_effect.
Qed.

Lemma on_stdin_effect m q t t' : pending_wf (pending_input t) → accepts_stdin t = true → stdin_rx t = m :: q →
  on_stdin m q t = Ok (Next t') →
  pending_wf (pending_input t') ∧ max_bytes (pending_input t') = max_bytes (pending_input t) ∧ turn_effect t t'.
Proof.
  intros Hwf Hacc Hq. assert (stdin_open t = true ∧ drain_deadline t = None) as [Hop Hd]
    by (unfold accepts_stdin in Hacc; by reflect_bool).
  destruct m as [b|]; simpl.
  - intros (p & (Hwf' & Hc & Hm)%push_spec & [= <-])%bind_Ok; [| done]. split_and!; [done | done |].
    apply (effect_stdin _ _ (Data b)); try done.
    unfold queued. simpl. by rewrite !app_nil_r, Hc, app_assoc.
  - intros [= <-]. split_and!; [done | done |]. apply (effect_stdin _ _ StdinClose); try done.
    unfold queued. simpl. by rewrite app_nil_r.
Qed.

Lemma turn_spec timeout io t t' : pending_wf (pending_input t) → pty_master_turn timeout io t = Next t' →
  pending_wf (pending_input t') ∧ max_bytes (pending_input t') = max_bytes (pending_input t) ∧ turn_effect t t'.
Proof.
  intros Hwf. unfold pty_master_turn. destruct (pty_rx t) as [|cmd q] eqn:Hq;
    [| intros H%turn_Next; by eapply on_command_effect].
  assert ((if drain_over io t then Returns (Ok tt)
    else if can_write io t then turn ('(p, w) ← write_one_pending_pty_chunk (io_write io) (pending_input t);
      Ok (Next (set_pending t p w)))
    else match io_read io with Some r => turn (on_read io r t) | None => Waits end) = Next t' →
    pending_wf (pending_input t') ∧ max_bytes (pending_input t') = max_bytes (pending_input t) ∧ turn_effect t t') as Hrest.
  { destruct (drain_over io t); [done |]. destruct (can_write io t).
    - intros ([p w] & (Hwf' & Hc & Hm)%write_one_spec & [= <-])%turn_Next%bind_Ok; [| done].
      split_and!; [done | done |]. apply effect_none; try done. unfold queued. simpl. by rewrite <- app_assoc, Hc.
    - destruct (io_read io) as [r|]; [| done]. intros (c & _ & H)%turn_Next%bind_Ok.
      destruct c; [| done]. destruct (stdout_rx_open io); [| done]. simplify_eq. no_effect. }
  destruct (accepts_stdin t) eqn:Ha; [| done]. destruct (stdin_rx t) as [|m rx] eqn:Hrx; [done |].
  intros H%turn_Next. by eapply on_stdin_effect.
Qed.

Lemma sys_inv_start : sys_inv sys_start.
Proof. split; [by apply pending_new_wf | done |]. intros _. exists []. split; [done |]. split; [done |]. split; [intros _; apply not_elem_of_nil | done]. Qed.

Lemma sys_inv_step timeout s s' : sys_inv s → sys_step timeout s s' → sys_inv s'.
Proof.
  intros [Hwf Hm Ht] Hstep. destruct Hstep as [s m | s c | s io t Hturn].
  - split; [done | done |]. simpl. intros (taken & -> & ? & ?)%Ht. exists taken. by rewrite app_assoc.
  - split; [done | done |]. simpl. done.
  - apply turn_spec in Hturn as (Hwf' & Hm' & Heff); [| done]. split; [done | by simpl; congruence |]. simpl.
    destruct Heff as [Hq Hrx Hop Hd | m Hacc Hrx Hq Hop Hd | d q Hc Hd Hd' Hq].
    + rewrite Hd. intros (taken & ? & ? & ?)%Ht. exists taken. by rewrite Hq, Hrx, Hop.
    + intros _. unfold accepts_stdin in Hacc. reflect_bool. destruct Ht as (taken & Hs & Hw & Ho); [done |].
      exists (taken ++ [m]). rewrite Hs, Hrx, <- app_assoc, until_close_app, decide_False by (by apply Ho).
      split; [done |]. split; [by rewrite Hq, Hw |]. rewrite Hop, bool_decide_eq_true, not_elem_of_app, list_elem_of_singleton.
      naive_solver.
    + congruence.
Qed.

Lemma sys_inv_reachable timeout s : rtc (sys_step timeout) sys_start s → sys_inv s.
Proof. apply (rtc_ind_r sys_inv sys_start); eauto using sys_inv_start, sys_inv_step. Qed.

(** During a graceful close nothing is added to the input or taken from it. *)
Lemma draining_step timeout s s' d : sys_inv s → sys_step timeout s s' → drain_deadline (task s) = Some d →
  drain_deadline (task s') = Some d ∧ queued (task s') = queued (task s).
Proof.
  intros [Hwf _ _] Hstep Hd. destruct Hstep as [s m | s c | s io t Hturn]; [done | done |].
  apply turn_spec in Hturn as (_ & _ & [Hq _ _ Hd' | m Hacc | d' q _ Hn]); [| | congruence | done].
  - simpl. by rewrite Hd', Hq.
  - unfold accepts_stdin in Hacc. rewrite Hd in Hacc. reflect_bool. done.
Qed.

Lemma draining_steps timeout s s' d : sys_inv s → rtc (sys_step timeout) s s' → drain_deadline (task s) = Some d →
  queued (task s') = queued (task s).
Proof.
  intros Hinv Hsteps. induction Hsteps as [s | s s1 s' Hstep _ IH]; [done |]. intros Hd.
  destruct (draining_step _ _ _ _ Hinv Hstep Hd) as [Hd1 Hq]. rewrite <- Hq. apply IH; [| done].
  by eapply sys_inv_step.
Qed.

(** C14: until it is asked to close, the task neither loses, repeats nor reorders input: the
    bytes given to the terminal, the queue and the messages not yet taken are together
    exactly what the client sent before closing its side, and the queue never holds more
    than its limit. *)
Theorem pty_input_in_order timeout s : rtc (sys_step timeout) sys_start s → drain_deadline (task s) = None →
  until_close (sent s) =
    written (task s) ++ content (pending_input (task s)) ++ (if stdin_open (task s) then until_close (stdin_rx (task s)) else [])
  ∧ Z.of_nat (length (content (pending_input (task s)))) <= DEFAULT_PTY_INPUT_QUEUE_BYTES.
Proof.
  intros [Hwf Hm Ht]%sys_inv_reachable Hd. split; [| rewrite <- Hm, <- (wf_pending _ Hwf); by apply wf_max].
  destruct (Ht Hd) as (taken & -> & Hq & Ho). rewrite until_close_app, <- Hq. unfold queued. rewrite <- app_assoc.
  do 2 f_equal. destruct (stdin_open (task s)), (decide (StdinClose ∈ taken)); naive_solver.
Qed.

(** A graceful close drops nothing that was sent before it: when the task has taken the
    close command, and for as long as it runs after that, what it gave to the terminal
    and its queue are together all that the client had sent. *)
Theorem pty_close_lossless timeout s io t q s' : rtc (sys_step timeout) sys_start s →
  drain_deadline (task s) = None → stdin_open (task s) = true → pty_rx (task s) = Close false :: q →
  pty_master_turn timeout io (task s) = Next t →
  rtc (sys_step timeout) {| task := t; sent := sent s |} s' →
  written (task s') ++ content (pending_input (task s')) = until_close (sent s).
Proof.
  intros Hinv%sys_inv_reachable Hd Hop Hq Hturn Hsteps.
  assert (sys_inv {| task := t; sent := sent s |}) as Hinv' by (eapply sys_inv_step; [done | by econstructor]).
  destruct Hinv as [Hwf _ Ht]. destruct (Ht Hd) as (taken & Hs & Hqu & Ho).
  assert (∃ d, drain_deadline t = Some d ∧ queued t = queued (task s) ++ until_close (stdin_rx (task s)))
    as (d & Hdt & Hqt).
  { unfold pty_master_turn in Hturn. rewrite Hq in Hturn. apply turn_Next in Hturn. simpl in Hturn.
    rewrite bool_decide_true in Hturn by done.
    apply bind_Ok in Hturn as ([[op p] rx] & (_ & Hc & _)%drain_stdin_spec & [= <-]); [| done].
    eexists. split; [done |]. unfold queued. simpl. by rewrite app_nil_r, Hc, app_assoc. }
  change (queued (task s') = until_close (sent s)). rewrite (draining_steps _ _ _ _ Hinv' Hsteps Hdt). simpl.
  by rewrite Hqt, Hqu, Hs, until_close_app, decide_False by (by apply Ho).
Qed.

(** The turns of the loop in given surroundings, for as long as the task goes on. *)
Fixpoint run_turns (timeout : Z) (ios : list PtyIo) (t : PtyTask) : Turn :=
  match ios with
  | [] => Next t
  | io :: ios' =>
      match pty_master_turn timeout io t with
      | Next t' => run_turns timeout ios' t'
      | Waits => run_turns timeout ios' t
      | r => r
      end
  end.

(** A graceful close ends: past the deadline the task returns, whatever the terminal
    does, as soon as it has handled the commands that were waiting. *)
Theorem pty_drain_ends timeout t d ios : drain_deadline t = Some d → Forall (λ io, d <= now io) ios →
  (length (pty_rx t) < length ios)%nat → run_turns timeout ios t = Returns (Ok tt).
Proof.
  intros Hd Hios. revert t Hd. induction Hios as [|io ios Hio _ IH]; intros t Hd Hlen; [simpl in Hlen; lia |].
  cbn [run_turns]. unfold pty_master_turn. destruct (pty_rx t) as [|cmd q] eqn:Hq.
  - unfold accepts_stdin, drain_over. rewrite Hd, bool_decide_false, andb_false_r by done.
    by rewrite (proj2 (Z.leb_le d _) Hio).
  - simpl in Hlen. destruct cmd as [rows cols|[]|]; cbn [on_command]; [| done | |].
    + rewrite bool_decide_false by (simpl; congruence). apply IH; [done | simpl; lia].
    + rewrite bool_decide_false by (simpl; congruence). apply IH; [done | simpl; lia].
    + apply IH; [done | simpl; lia].
Qed.

(** ** Witnesses *)

Module Demo.

Definition quiet : PtyIo :=
  {| now := 0; io_resize := Ok tt; io_write := WouldBlock; io_read := None; stdout_rx_open := true |}.

(** A client sends three bytes and asks for the close before the task has run. *)
Definition opened : PtySystem :=
  {| task := set_pty_rx (set_stdin pty_master_start true [Data [1; 2]; Data [3]]) [Close false];
     sent := [Data [1; 2]; Data [3]] |}.

Lemma opened_reachable : rtc (sys_step 30) sys_start opened.
Proof.
  eapply rtc_l; [apply (send_stdin 30 _ (Data [1; 2])) |]. eapply rtc_l; [apply (send_stdin 30 _ (Data [3])) |].
  eapply rtc_l; [apply (send_command 30 _ (Close false)) |]. apply rtc_refl.
Qed.

Definition closing : PtyTask :=
  match pty_master_turn 30 quiet (task opened) with Next t => t | _ => pty_master_start end.

Definition taking : PtyIo :=
  {| now := 5; io_resize := Ok tt; io_write := Accepts 1; io_read := None; stdout_rx_open := true |}.

Definition halfway : PtySystem :=
  {| task := match pty_master_turn 30 taking closing with Next t => t | _ => closing end; sent := sent opened |}.

Lemma pty_input_in_order_witness : until_close (sent opened) = [] ++ [] ++ [1; 2; 3] ∧ 0 <= DEFAULT_PTY_INPUT_QUEUE_BYTES.
Proof. exact (pty_input_in_order 30 opened opened_reachable eq_refl). Defined.

Lemma pty_close_lossless_witness :
  written (task halfway) = [1] ∧ content (pending_input (task halfway)) = [2; 3] ∧
  written (task halfway) ++ content (pending_input (task halfway)) = [1; 2; 3].
Proof.
  split; [done |]. split; [done |].
  apply (pty_close_lossless 30 opened quiet closing [] halfway opened_reachable); [done | done | done | done |].
  eapply rtc_l; [| apply rtc_refl]. by apply (run_turn 30 {| task := closing; sent := sent opened |} taking).
Defined.

Lemma pty_drain_ends_witness : run_turns 30
  [{| now := 30; io_resize := Ok tt; io_write := WouldBlock; io_read := None; stdout_rx_open := true |}] closing = Returns (Ok tt).
Proof. apply (pty_drain_ends 30 closing 30); [done | by repeat constructor | simpl; lia]. Defined.

End Demo.
