(* ===== verification/Tmux.v ===== *)
(** * tmux sessions in control mode

    crates/portl-core/src/terminal/tmux_cc.rs (the lines of control mode and the commands
    sent to it), the detach key of portl-core/src/attach_control.rs, and the task of
    portl-agent/src/session_handler/tmux_control.rs that joins a client to [tmux -CC].
    Strings are their bytes.  Arithmetic on [u8] and [u16] wraps as in release builds. *)

From S2P Require Import Prelude Bytes Terminal Pty.

(** ** Lines from tmux: tmux_cc.rs *)

Inductive TmuxControlEvent := Output (b : bytes) | TmuxError (msg : bytes) | Exit | Ignore.

(** [str::trim_end_matches(['\r', '\n'])] *)
Fixpoint drop_newlines (l : bytes) : bytes :=
  match l with
  | b :: l' => if (b =? 13) || (b =? 10) then drop_newlines l' else l
  | [] => []
  end.
Definition trim_end_newlines (l : bytes) : bytes := rev (drop_newlines (rev l)).

(** [str::split_once] *)
Fixpoint split_once (pat l : bytes) : option (bytes * bytes) :=
  match slice_strip_prefix pat l with
  | Some r => Some ([], r)
  | None =>
      match l with
      | [] => None
      | b :: l' => '(x, y) ← split_once pat l'; Some (b :: x, y)
      end
  end.

Definition octal_value (a b c : Z) : Z :=
  wrapping 8 (wrapping 8 (wrapping 8 ((a - 48) * 64) + (b - 48) * 8) + (c - 48)).

Fixpoint unescape_tmux_bytes (l : bytes) : bytes :=
  match l with
  | [] => []
  | x :: l1 =>
      if x =? 92 then
        match l1 with
        | [] => [x]
        | a :: l2 =>
            match l2 with
            | b :: (c :: l4) =>
                if is_ascii_digit a && is_ascii_digit b && is_ascii_digit c
                then octal_value a b c :: unescape_tmux_bytes l4
                else a :: unescape_tmux_bytes l2
            | _ => a :: unescape_tmux_bytes l2
            end
        end
      else x :: unescape_tmux_bytes l1
  end.

Definition parse_control_line (line : bytes) : TmuxControlEvent :=
  let line := trim_end_newlines line in
  match slice_strip_prefix (str_bytes "%output ") line with
  | Some rest =>
      match split_once [32] rest with
      | None => Ignore
      | Some (_, escaped) => Output (unescape_tmux_bytes escaped)
      end
  | None =>
  match slice_strip_prefix (str_bytes "%extended-output ") line with
  | Some rest =>
      match split_once (str_bytes " : ") rest with
      | None => Ignore
      | Some (_, escaped) => Output (unescape_tmux_bytes escaped)
      end
  | None =>
  match slice_strip_prefix (str_bytes "%error") line with
  | Some rest => TmuxError (trim_bytes rest)
  | None =>
  match slice_strip_prefix (str_bytes "%exit") line with
  | Some _ => Exit
  | None => Ignore
  end end end end.

(** [Decoder]: removes the DCS wrapper of [tmux -CC]. *)
Inductive DecoderState := Normal | Escape | DcsPrefix.

Definition decode_byte (s : DecoderState) (b : Z) : DecoderState * bytes :=
  match s with
  | Normal => if b =? ESC then (Escape, []) else (Normal, [b])
  | Escape =>
      if b =? 80 then (DcsPrefix, [])
      else if b =? 92 then (Normal, [])
      else (Normal, [ESC; b])
  | DcsPrefix => if b =? 112 then (Normal, []) else (DcsPrefix, [])
  end.

Definition decode (s : DecoderState) (input : bytes) : DecoderState * bytes := feed_with decode_byte s input.

(** ** Commands to tmux *)

(** [slice::chunks] *)
Fixpoint chunks_of (fuel n : nat) (l : bytes) : list bytes :=
  match fuel, l with
  | O, _ | _, [] => []
  | S fuel', _ => take n l :: chunks_of fuel' n (drop n l)
  end.

Definition hex_arg (b : Z) : bytes := [32; hex_digit (b `div` 16); hex_digit (b `mod` 16)].

Definition send_keys_line (chunk : bytes) : bytes := str_bytes "send-keys -H" ++ concat (hex_arg <$> chunk) ++ [10].

Definition send_keys_command (data : bytes) : bytes := concat (send_keys_line <$> chunks_of (length data) 128 data).

Definition resize_commands (rows cols : Z) : bytes :=
  str_bytes "refresh-client -C " ++ decimal_digits cols ++ [44] ++ decimal_digits rows ++ [10] ++
  str_bytes "resize-window -x " ++ decimal_digits cols ++ str_bytes " -y " ++ decimal_digits rows ++ [10].

(** [slice::split] on newlines *)
Fixpoint split_newlines (l : bytes) : list bytes :=
  match l with
  | [] => [[]]
  | b :: l' =>
      if b =? 10 then [] :: split_newlines l'
      else match split_newlines l' with x :: xs => (b :: x) :: xs | [] => [[b]] end
  end.

Definition pop_empty (ls : list bytes) : list bytes :=
  match rev ls with [] :: ls' => rev ls' | _ => ls end.

Definition strip_cr (l : bytes) : bytes := default l (slice_strip_suffix [13] l).

Definition render_line (index : nat) (line : bytes) : bytes :=
  [ESC; 91] ++ decimal_digits (Z.of_nat index + 1) ++ [59; 49; 72] ++ strip_cr line ++ [ESC; 91; 75].

Definition render_viewport_snapshot (snapshot : bytes) (cursor_x cursor_y : Z) : bytes :=
  [ESC; 91; 48; 109; ESC; 91; 72; ESC; 91; 50; 74] ++
  concat (imap render_line (pop_empty (split_newlines snapshot))) ++
  [ESC; 91] ++ decimal_digits (wrapping 16 (cursor_y + 1)) ++ [59] ++ decimal_digits (wrapping 16 (cursor_x + 1)) ++ [72].

(** ** The detach key: attach_control.rs *)

Fixpoint decimal_loop (value : Z) (data : bytes) : Z * bytes :=
  match data with
  | b :: data' =>
      if is_ascii_digit b
      then decimal_loop (saturating_add U32_MAX (saturating_mul U32_MAX value 10) (b - 48)) data'
      else (value, data)
  | [] => (value, [])
  end.

(** The value, if there is a digit, and what follows. *)
Definition parse_decimal (data : bytes) : option Z * bytes :=
  match data with
  | b :: _ => if is_ascii_digit b then (λ r, (Some r.1, r.2)) (decimal_loop 0 data) else (None, data)
  | [] => (None, [])
  end.

Fixpoint skip_alternates (fuel : nat) (data : bytes) : bytes :=
  match fuel, data with
  | S fuel', b :: data' => if b =? 58 then skip_alternates fuel' (parse_decimal data').2 else data
  | _, _ => data
  end.

Fixpoint skip_text (data : bytes) : bytes :=
  match data with
  | b :: data' => if is_ascii_digit b || (b =? 58) then skip_text data' else data
  | [] => []
  end.

(** The event type: [None] for a release. *)
Definition skip_event (data : bytes) : option bytes :=
  match data with
  | b :: data' =>
      if b =? 58 then
        let '(e, r) := parse_decimal data' in if bool_decide (e = Some 3) then None else Some r
      else Some data
  | [] => Some []
  end.

Definition keypress_with_mod (data : bytes) (expected_key expected_mods : Z) : bool :=
  let '(key, data) := parse_decimal data in
  if negb (bool_decide (key = Some expected_key)) then false
  else match skip_alternates (length data) data with
  | b :: data =>
      if negb (b =? 59) then false
      else
        let '(mods, data) := parse_decimal data in
        match mods with
        | None => false
        | Some m =>
            if m <? 1 then false
            else if negb (Z.land (m - 1) 63 =? expected_mods) then false
            else match skip_event data with
            | None => false
            | Some data =>
                let data := match data with
                            | b :: data' => if b =? 59 then skip_text data' else data
                            | [] => [] end in
                match data with b :: _ => b =? 117 | [] => false end
            end
        end
  | [] => false
  end.

Fixpoint is_key_pressed (data : bytes) (expected_key expected_mods : Z) : bool :=
  match data with
  | a :: ((b :: rest) as data') =>
      (a =? ESC) && (b =? 91) && keypress_with_mod rest expected_key expected_mods
      || is_key_pressed data' expected_key expected_mods
  | _ => false
  end.

Definition is_ctrl_backslash_sequence (data : bytes) : bool :=
  bool_decide (28 ∈ data) || is_key_pressed data 92 4.

(** ** The task: tmux_control.rs *)

Definition TMUX_CC_DRAIN_TIMEOUT : Z := 5.
Definition TMUX_PTY_INPUT_QUEUE_BYTES : Z := 4 * 1024 * 1024.

Inductive TmuxOut := ToStdout (b : bytes) | ToStderr (b : bytes).

Definition event_out (e : TmuxControlEvent) : list TmuxOut :=
  match e with
  | Output b => [ToStdout b]
  | TmuxError msg => [ToStderr (str_bytes "tmux: " ++ msg ++ [10])]
  | Exit | Ignore => []
  end.

Definition pump_byte (acc : bytes * list TmuxOut) (b : Z) : bytes * list TmuxOut :=
  let buf := acc.1 ++ [b] in
  if b =? 10 then ([], acc.2 ++ event_out (parse_control_line (from_utf8_lossy buf))) else (buf, acc.2).

Definition pump_control_bytes (line_buf : bytes) (l : bytes) : bytes * list TmuxOut := foldl pump_byte (line_buf, []) l.

Record TmuxTask := {
  decoder : DecoderState;
  line_buf : bytes;
  tmux_drain : option Z;
  pending_initial_commands : option (list bytes);
  tmux_pending : PendingPtyWrite;
  tmux_stdin_rx : list StdinMessage;
  tmux_pty_rx : list PtyCommand;
  tmux_written : bytes;
  tmux_out : list TmuxOut;
}.

(** [write_pty_all] writes everything or fails. *)
Record TmuxIo := {
  tmux_now : Z;
  tmux_write : WriteResult;
  tmux_write_all : result string unit;
  tmux_read : option (result string (option bytes));
}.

Inductive TmuxTurn := TmuxNext (t : TmuxTask) | TmuxWaits | TmuxReturns (r : result string unit).

Definition tmux_turn (r : result string TmuxTurn) : TmuxTurn :=
  match r with Ok t => t | Err e => TmuxReturns (Err e) end.

Definition tmux_set (t : TmuxTask) drain pending stdin pty written : TmuxTask :=
  {| decoder := decoder t; line_buf := line_buf t; tmux_drain := drain;
     pending_initial_commands := pending_initial_commands t; tmux_pending := pending;
     tmux_stdin_rx := stdin; tmux_pty_rx := pty; tmux_written := written; tmux_out := tmux_out t |}.

(** Drop the queue, ask tmux to detach and start to drain. *)
Definition tmux_detach (io : TmuxIo) (t : TmuxTask) : result string TmuxTurn :=
  let pending := (clear (tmux_pending t)).2 in
  tmux_write_all io;;
  Ok (TmuxNext (tmux_set t (Some (tmux_now io + TMUX_CC_DRAIN_TIMEOUT)) pending (tmux_stdin_rx t) (tmux_pty_rx t)
    (tmux_written t ++ str_bytes "detach-client" ++ [10]))).

Definition tmux_enqueue (t : TmuxTask) (command : bytes) : result string TmuxTurn :=
  p ← push (tmux_pending t) command;
  Ok (TmuxNext (tmux_set t (tmux_drain t) p (tmux_stdin_rx t) (tmux_pty_rx t) (tmux_written t))).

Definition tmux_on_stdin (io : TmuxIo) (m : StdinMessage) (t : TmuxTask) : result string TmuxTurn :=
  match m with
  | Data data => if is_ctrl_backslash_sequence data then tmux_detach io t else tmux_enqueue t (send_keys_command data)
  | StdinClose => tmux_detach io t
  end.

Definition tmux_on_command (io : TmuxIo) (c : PtyCommand) (t : TmuxTask) : result string TmuxTurn :=
  match c with
  | Resize rows cols => tmux_enqueue t (resize_commands rows cols)
  | Close _ => tmux_detach io t
  | KickOthers => tmux_enqueue t (str_bytes "detach-client -a" ++ [10])
  end.

Definition tmux_on_read (io : TmuxIo) (chunk : bytes) (t : TmuxTask) : result string TmuxTurn :=
  let '(dec, control) := decode (decoder t) chunk in
  let commands := if bool_decide (control = []) then [] else default [] (pending_initial_commands t) in
  (if bool_decide (commands = []) then Ok tt else tmux_write_all io);;
  let '(buf, out) := pump_control_bytes (line_buf t) control in
  Ok (TmuxNext {| decoder := dec; line_buf := buf; tmux_drain := tmux_drain t;
    pending_initial_commands := if bool_decide (control = []) then pending_initial_commands t else None;
    tmux_pending := tmux_pending t; tmux_stdin_rx := tmux_stdin_rx t; tmux_pty_rx := tmux_pty_rx t;
    tmux_written := tmux_written t ++ concat commands; tmux_out := tmux_out t ++ out |}).

(** One turn of the loop of [pump_tmux_cc_pty]; its select is biased too. *)
Definition tmux_pump_turn (io : TmuxIo) (t : TmuxTask) : TmuxTurn :=
  let live := bool_decide (tmux_drain t = None) in
  match live, tmux_stdin_rx t with
  | true, m :: q => tmux_turn (tmux_on_stdin io m (tmux_set t (tmux_drain t) (tmux_pending t) q (tmux_pty_rx t) (tmux_written t)))
  | _, _ =>
  match live, tmux_pty_rx t with
  | true, c :: q => tmux_turn (tmux_on_command io c (tmux_set t (tmux_drain t) (tmux_pending t) (tmux_stdin_rx t) q (tmux_written t)))
  | _, _ =>
      if live && negb (is_empty (tmux_pending t)) && match tmux_write io with WouldBlock => false | _ => true end then
        tmux_turn ('(p, w) ← write_one_pending_pty_chunk (tmux_write io) (tmux_pending t);
          Ok (TmuxNext (tmux_set t (tmux_drain t) p (tmux_stdin_rx t) (tmux_pty_rx t) (tmux_written t ++ w))))
      else if match tmux_drain t with Some d => d <=? tmux_now io | None => false end then TmuxReturns (Ok tt)
      else match tmux_read io with
           | None => TmuxWaits
           | Some r =>
               tmux_turn (chunk ← r;
                 match chunk with None => Ok (TmuxReturns (Ok tt)) | Some c => tmux_on_read io c t end)
           end
  end end.

Definition tmux_start (initial : list bytes) : TmuxTask :=
  {| decoder := Normal; line_buf := []; tmux_drain := None; pending_initial_commands := Some initial;
     tmux_pending := pending_new TMUX_PTY_INPUT_QUEUE_BYTES; tmux_stdin_rx := []; tmux_pty_rx := [];
     tmux_written := []; tmux_out := [] |}.

(** ** Output arrives as it was written *)

(** How tmux writes the output of a pane: any byte as a backslash with three octal digits,
    or as itself when it is neither a control character nor a backslash. *)
Inductive tmux_encodes : bytes → bytes → Prop :=
  | encodes_nil : tmux_encodes [] []
  | encodes_raw b d e : 32 ≤ b → b ≠ 92 → tmux_encodes d e → tmux_encodes (b :: d) (b :: e)
  | encodes_octal b d e : u8_range b → tmux_encodes d e →
      tmux_encodes (b :: d) (92 :: 48 + b `div` 64 :: 48 + (b `div` 8) `mod` 8 :: 48 + b `mod` 8 :: e).

Lemma octal_digits b : u8_range b →
  let x := 48 + b `div` 64 in let y := 48 + (b `div` 8) `mod` 8 in let z := 48 + b `mod` 8 in
  48 ≤ x ≤ 51 ∧ 48 ≤ y ≤ 55 ∧ 48 ≤ z ≤ 55 ∧ octal_value x y z = b.
Proof.
  unfold u8_range, U8_MAX. intros Hb. simpl.
  pose proof (Z.mod_pos_bound (b `div` 8) 8). pose proof (Z.mod_pos_bound b 8).
  pose proof (Z.div_mod b 8). pose proof (Z.div_mod (b `div` 8) 8) as Hd.
  rewrite Z.div_div in Hd by lia. change (8 * 8) with 64 in Hd.
  assert (0 ≤ b `div` 64 < 4) by (split; [apply Z.div_pos; lia | apply Z.div_lt_upper_bound; lia]).
  split_and!; try lia. unfold octal_value, wrapping.
  assert (b = 64 * (b `div` 64) + 8 * ((b `div` 8) `mod` 8) + b `mod` 8) as Heq by lia.
  clear Hd. set (x := b `mod` 8) in *. set (y := (b `div` 8) `mod` 8) in *. set (z := b `div` 64) in *. clearbody x y z.
  change (2 ^ 8) with 256. rewrite (Z.mod_small ((48 + z - 48) * 64)) by lia.
  rewrite (Z.mod_small (_ + (48 + y - 48) * 8)) by lia. rewrite Z.mod_small; lia.
Qed.

Lemma unescape_encodes d e : tmux_encodes d e → unescape_tmux_bytes e = d.
Proof.
  induction 1 as [|b d e Hb Hne _ IH | b d e Hb _ IH]; [done | |].
  - cbn [unescape_tmux_bytes]. rewrite (proj2 (Z.eqb_neq _ _)) by done. by rewrite IH.
  - destruct (octal_digits b Hb) as (Hx & Hy & Hz & Hv). cbn [unescape_tmux_bytes]. rewrite Z.eqb_refl.
    unfold is_ascii_digit. repeat rewrite (proj2 (Z.leb_le _ _)) by lia. simpl. by rewrite Hv, IH.
Qed.

Definition plain_byte (b : Z) : Prop := 32 ≤ b.

Lemma encodes_plain d e : tmux_encodes d e → Forall plain_byte e.
Proof.
  unfold plain_byte. induction 1 as [|b d e Hb Hne _ IH | b d e Hb _ IH]; [done | by constructor |].
  destruct (octal_digits b Hb) as (Hx & Hy & Hz & _). repeat (constructor; [lia |]). done.
Qed.

Lemma decode_plain l : Forall (λ b, b ≠ ESC) l → decode Normal l = (Normal, l).
Proof.
  unfold decode. induction 1 as [|b l Hb _ IH]; [done |]. simpl. rewrite (proj2 (Z.eqb_neq _ _)) by done. by rewrite IH.
Qed.

Lemma pump_plain buf outs l : Forall (λ b, b ≠ 10) l → foldl pump_byte (buf, outs) l = (buf ++ l, outs).
Proof.
  intros Hl. revert buf. induction Hl as [|b l Hb _ IH]; intros buf; simpl; [by rewrite app_nil_r |].
  unfold pump_byte at 2. simpl. rewrite (proj2 (Z.eqb_neq _ _)) by done. by rewrite IH, <- app_assoc.
Qed.

(** Outputs already made do not matter to the pump. *)
Lemma pump_outs buf outs l : foldl pump_byte (buf, outs) l =
  let '(buf', outs') := pump_control_bytes buf l in (buf', outs ++ outs').
Proof.
  unfold pump_control_bytes. enough (∀ outs0, foldl pump_byte (buf, outs ++ outs0) l =
    let '(buf', outs') := foldl pump_byte (buf, outs0) l in (buf', outs ++ outs')) as H
    by (specialize (H []); by rewrite app_nil_r in H).
  revert buf. induction l as [|b l IH]; intros buf outs0; simpl; [done |].
  unfold pump_byte at 2 4. simpl. destruct (b =? 10); rewrite <- ?app_assoc; apply IH.
Qed.

Lemma trim_end_newlines_app l eol : Forall plain_byte l → Forall (λ b, b = 13 ∨ b = 10) eol →
  trim_end_newlines (l ++ eol) = l.
Proof.
  intros Hl He. unfold trim_end_newlines. rewrite rev_app_distr. apply Forall_rev in He.
  assert (∀ r, drop_newlines (rev eol ++ r) = drop_newlines r) as ->.
  { intros r. induction He as [|b e Hb _ IH]; [done |]. simpl. by destruct Hb as [-> | ->]. }
  apply Forall_rev in Hl. replace (drop_newlines (rev l)) with (rev l); [apply rev_involutive |].
  destruct Hl as [|b r Hb _]; [done |]. unfold plain_byte in Hb. simpl.
  by rewrite !(proj2 (Z.eqb_neq _ _)) by lia.
Qed.

Lemma split_once_space x y : 32 ∉ x → split_once [32] (x ++ 32 :: y) = Some (x, y).
Proof.
  induction x as [|b x IH]; intros Hx; [done |]. apply not_elem_of_cons in Hx as [Hb Hx]. cbn [split_once app].
  cbn [slice_strip_prefix]. rewrite (proj2 (Z.eqb_neq _ _)) by done. by rewrite IH.
Qed.

Lemma Forall_by_bool (P : Z → bool) l : forallb P l = true → Forall (λ b, P b = true) l.
Proof. rewrite forallb_forall. intros H. apply Forall_forall. intros b Hb. by apply H, list_elem_of_In. Qed.

(** Chunks read one after the other. *)
Fixpoint read_chunks (io : TmuxIo) (t : TmuxTask) (cs : list bytes) : result string TmuxTask :=
  match cs with
  | [] => Ok t
  | c :: cs' =>
      r ← tmux_on_read io c t;
      match r with TmuxNext t' => read_chunks io t' cs' | _ => Ok t end
  end.

(** Once the initial commands are sent, chunks do not matter: only the bytes do. *)
Lemma read_chunks_concat io t cs : pending_initial_commands t = None → ∃ t', read_chunks io t cs = Ok t' ∧
  let '(dec, control) := decode (decoder t) (concat cs) in
  let '(buf, out) := pump_control_bytes (line_buf t) control in
  decoder t' = dec ∧ line_buf t' = buf ∧ tmux_out t' = tmux_out t ++ out.
Proof.
  revert t. induction cs as [|c cs IH]; intros t Hi; [exists t; unfold pump_control_bytes; simpl; by rewrite app_nil_r |]. cbn [read_chunks concat].
  unfold decode at 1. rewrite feed_with_app. fold (decode (decoder t) c).
  unfold tmux_on_read. rewrite Hi. destruct (decode (decoder t) c) as [dec1 c1]. cbn [default].
  replace (if bool_decide (c1 = []) then [] else []) with (@nil bytes) by (by case_match).
  rewrite (bool_decide_true (@nil bytes = [])) by done. cbn [mbind result_bind].
  destruct (pump_control_bytes (line_buf t) c1) as [buf1 out1] eqn:Hp1. cbn [mbind result_bind].
  destruct (IH {| decoder := dec1; line_buf := buf1; tmux_drain := tmux_drain t;
    pending_initial_commands := if bool_decide (c1 = []) then None else None;
    tmux_pending := tmux_pending t; tmux_stdin_rx := tmux_stdin_rx t; tmux_pty_rx := tmux_pty_rx t;
    tmux_written := tmux_written t ++ concat []; tmux_out := tmux_out t ++ out1 |}) as (t' & -> & Ht'); [by case_match |].
  exists t'. split; [done |]. cbn [decoder line_buf tmux_out] in Ht'.
  fold (decode dec1 (concat cs)). destruct (decode dec1 (concat cs)) as [dec2 c2].
  unfold pump_control_bytes in *. rewrite foldl_app, Hp1, pump_outs. unfold pump_control_bytes.
  destruct (foldl pump_byte (buf1, []) c2) as [buf2 out2]. by rewrite app_assoc.
Qed.

(** The notification of tmux that a pane has written [data], as a line *)
Inductive notification : bytes → bytes → Prop :=
  | plain_output pane data enc eol : Forall (λ b, 33 ≤ b ≤ 126) pane → tmux_encodes data enc → is_utf8 enc = true → eol = [10] ∨ eol = [13; 10] →
      notification data (str_bytes "%output " ++ pane ++ [32] ++ enc ++ eol)
  | extended_output head data enc eol : Forall (λ b, 32 ≤ b ≤ 126 ∧ b ≠ 58) head → tmux_encodes data enc → is_utf8 enc = true → eol = [10] ∨ eol = [13; 10] →
      notification data (str_bytes "%extended-output " ++ head ++ str_bytes " : " ++ enc ++ eol).

Lemma split_once_colon x y : 58 ∉ x → split_once (str_bytes " : ") (x ++ str_bytes " : " ++ y) = Some (x, y).
Proof.
  change (str_bytes " : " ++ y) with (32 :: 58 :: 32 :: y). change (str_bytes " : ") with [32; 58; 32]. induction x as [|b x IH]; intros Hx; [done |]. apply not_elem_of_cons in Hx as [Hb Hx].
  cbn [split_once app]. rewrite (IH Hx). replace (slice_strip_prefix [32; 58; 32] (b :: x ++ 32 :: 58 :: 32 :: y)) with (@None bytes); [done |].
  cbn [slice_strip_prefix]. destruct (32 =? b); [| done]. destruct x as [|c x]; [done |]. apply not_elem_of_cons in Hx as [Hc _].
  cbn [app slice_strip_prefix]. by rewrite (proj2 (Z.eqb_neq 58 c)).
Qed.

(** A line of printable UTF-8 is pumped as a whole. *)
Lemma line_pumped text eol data : Forall plain_byte text → is_utf8 text = true → eol = [10] ∨ eol = [13; 10] →
  parse_control_line (text ++ eol) = Output data →
  Forall (λ b, b ≠ ESC) (text ++ eol) ∧ pump_control_bytes [] (text ++ eol) = ([], [ToStdout data]).
Proof.
  intros Htext Hut Heol Hparse. split.
  { apply Forall_app_2; [eapply Forall_impl; [exact Htext |]; unfold plain_byte, ESC; simpl; lia |].
    by destruct Heol as [-> | ->]; repeat constructor. }
  unfold pump_control_bytes. rewrite foldl_app, pump_plain by (eapply Forall_impl; [exact Htext |]; unfold plain_byte; simpl; lia).
  assert (from_utf8_lossy (text ++ eol) = text ++ eol) as Hl
    by (apply from_utf8_lossy_valid, is_utf8_app; [done | by destruct Heol as [-> | ->]]).
  destruct Heol as [-> | ->]; simpl in *; unfold pump_byte; simpl; [by rewrite Hl, Hparse |].
  rewrite <- app_assoc. simpl. by rewrite Hl, Hparse.
Qed.

Lemma notification_pumped data line : notification data line →
  Forall (λ b, b ≠ ESC) line ∧ pump_control_bytes [] line = ([], [ToStdout data]).
Proof.
  destruct 1 as [pane data enc eol Hpane Henc Hu Heol | head data enc eol Hhead Henc Hu Heol]; pose proof (encodes_plain _ _ Henc) as Hpl.
  - set (text := str_bytes "%output " ++ pane ++ [32] ++ enc).
    assert (Forall plain_byte text) as Htext.
    { unfold text, plain_byte in *. apply Forall_app_2; [by repeat constructor |].
      apply Forall_app_2; [by eapply Forall_impl; [exact Hpane |]; simpl; lia |]. by constructor. }
    replace (str_bytes "%output " ++ pane ++ [32] ++ enc ++ eol) with (text ++ eol) by (unfold text; by rewrite <- !app_assoc).
    apply line_pumped; [done | | done |].
    { unfold text. repeat apply is_utf8_app; try done. apply is_utf8_ascii. eapply Forall_impl; [exact Hpane |]. simpl; lia. }
    unfold parse_control_line. rewrite trim_end_newlines_app; [| done | by destruct Heol as [-> | ->]; repeat constructor; auto].
    unfold text. rewrite (proj2 (slice_strip_prefix_spec _ _ (pane ++ [32] ++ enc))) by done.
    change ([32] ++ enc) with (32 :: enc). rewrite (split_once_space pane enc); [by rewrite (unescape_encodes _ _ Henc) |].
    intros Hin. rewrite Forall_forall in Hpane. apply Hpane in Hin. lia.
  - set (text := str_bytes "%extended-output " ++ head ++ str_bytes " : " ++ enc).
    assert (Forall plain_byte text) as Htext.
    { unfold text, plain_byte in *. apply Forall_app_2; [by repeat constructor |].
      apply Forall_app_2; [by eapply Forall_impl; [exact Hhead |]; simpl; lia |]. by repeat constructor. }
    replace (str_bytes "%extended-output " ++ head ++ str_bytes " : " ++ enc ++ eol) with (text ++ eol) by (unfold text; by rewrite <- !app_assoc).
    apply line_pumped; [done | | done |].
    { unfold text. repeat apply is_utf8_app; try done. apply is_utf8_ascii. eapply Forall_impl; [exact Hhead |]. simpl; lia. }
    unfold parse_control_line. rewrite trim_end_newlines_app; [| done | by destruct Heol as [-> | ->]; repeat constructor; auto].
    unfold text. replace (slice_strip_prefix (str_bytes "%output ") _) with (@None bytes) by done.
    rewrite (proj2 (slice_strip_prefix_spec _ _ (head ++ str_bytes " : " ++ enc))) by done.
    rewrite split_once_colon; [by rewrite (unescape_encodes _ _ Henc) |].
    intros Hin. rewrite Forall_forall in Hhead. apply Hhead in Hin. lia.
Qed.

(** Notifications, read in chunks cut anywhere, make the task send the bytes of each, once and in order. *)
Lemma notifications_read io t datas lines cs : decoder t = Normal → line_buf t = [] → pending_initial_commands t = None →
  Forall2 notification datas lines → concat cs = concat lines →
  ∃ t', read_chunks io t cs = Ok t' ∧ tmux_out t' = tmux_out t ++ (ToStdout <$> datas) ∧ line_buf t' = [] ∧ decoder t' = Normal.
Proof.
  intros Hdec Hbuf Hi Hn Hcs. destruct (read_chunks_concat io t cs Hi) as (t' & Hr & Ht'). exists t'. split; [done |].
  rewrite Hdec, Hbuf, Hcs in Ht'.
  assert (Forall (λ b, b ≠ ESC) (concat lines) ∧ pump_control_bytes [] (concat lines) = ([], ToStdout <$> datas)) as [Hesc Hpump].
  { clear -Hn. induction Hn as [|data line datas lines [Hl Hp]%notification_pumped _ [IHe IHp]]; [done |]. split; [by apply Forall_app_2 |].
    cbn [concat fmap list_fmap]. unfold pump_control_bytes in *. rewrite foldl_app, Hp, pump_outs. unfold pump_control_bytes. by rewrite IHp. }
  rewrite decode_plain, Hpump in Ht' by done. destruct Ht' as (-> & -> & ->). done.
Qed.

(** ** Input is typed as it was sent *)

(** The arguments of [send-keys -H], up to the end of the line, and what follows. *)
Fixpoint read_args (l : bytes) : option (bytes * bytes) :=
  match l with
  | [] => None
  | x :: l1 =>
      if x =? 10 then Some ([], l1)
      else match l1 with
      | a :: b :: l3 =>
          if x =? 32 then
            h ← hex_value a; lo ← hex_value b; '(keys, rest) ← read_args l3;
            Some (16 * h + lo :: keys, rest)
          else None
      | _ => None
      end
  end.

(** The keys that a text of [send-keys -H] lines types. *)
Fixpoint keys_typed (fuel : nat) (l : bytes) : option bytes :=
  match fuel, l with
  | _, [] => Some []
  | O, _ => None
  | S fuel', _ =>
      rest ← slice_strip_prefix (str_bytes "send-keys -H") l;
      '(keys, rest) ← read_args rest;
      more ← keys_typed fuel' rest;
      Some (keys ++ more)
  end.

Lemma read_args_line chunk rest : Forall u8_range chunk →
  read_args (concat (hex_arg <$> chunk) ++ 10 :: rest) = Some (chunk, rest).
Proof.
  induction 1 as [|b chunk Hb _ IH]; [done |]. unfold u8_range, U8_MAX in Hb. rewrite fmap_cons. cbn [concat app].
  unfold hex_arg at 1. cbn [app read_args]. rewrite !hex_value_digit.
  2:{ split; [apply Z.div_pos; lia | apply Z.div_lt_upper_bound; lia]. }
  2:{ apply Z.mod_pos_bound. lia. }
  simpl. rewrite IH. simpl. do 3 f_equal. symmetry. apply Z.div_mod. lia.
Qed.

Lemma chunks_of_concat fuel n l : (0 < n)%nat → (length l ≤ fuel)%nat → concat (chunks_of fuel n l) = l.
Proof.
  intros Hn. revert l. induction fuel as [|fuel IH]; intros l Hl; [by destruct l; simpl in *; [| lia] |].
  destruct l as [|b l]; [done |]. cbn [chunks_of concat]. rewrite IH; [apply take_drop |].
  rewrite length_drop. simpl in *. lia.
Qed.

Lemma keys_typed_lines cs fuel : Forall (Forall u8_range) cs → (length cs ≤ fuel)%nat →
  keys_typed fuel (concat (send_keys_line <$> cs)) = Some (concat cs).
Proof.
  intros Hcs. revert fuel. induction Hcs as [|c cs Hc _ IH]; intros fuel Hf; [by destruct fuel |].
  destruct fuel as [|fuel]; simpl in Hf; [lia |]. rewrite fmap_cons. cbn [concat].
  unfold send_keys_line at 1. rewrite <- !app_assoc. cbn [app]. set (l := str_bytes _ ++ _).
  assert (l ≠ []) by done. cbn [keys_typed]. destruct l as [|x l'] eqn:Hl; [done |]. rewrite <- Hl. unfold l.
  rewrite (proj2 (slice_strip_prefix_spec _ _ _) eq_refl). cbn [mbind option_bind].
  rewrite read_args_line by done. cbn [mbind option_bind]. by rewrite IH by lia.
Qed.

Lemma concat_args_length c : length (concat (hex_arg <$> c)) = (3 * length c)%nat.
Proof. induction c as [|b c IH]; [done |]. rewrite fmap_cons. cbn [concat]. rewrite length_app, IH. simpl. lia. Qed.

Lemma send_keys_line_length c : length (send_keys_line c) = (13 + 3 * length c)%nat.
Proof. unfold send_keys_line. rewrite !length_app, concat_args_length. simpl. lia. Qed.

Lemma lines_length fuel n l : (0 < n)%nat → (length l ≤ fuel)%nat →
  (n * length (concat (send_keys_line <$> chunks_of fuel n l)) ≤ (3 * n + 13) * length l + 13 * (n - 1))%nat.
Proof.
  intros Hn. revert l. induction fuel as [|fuel IH]; intros l Hl; [by destruct l; simpl in *; [lia | lia] |].
  destruct l as [|b l]; [simpl; lia |]. cbn [chunks_of]. rewrite fmap_cons. cbn [concat].
  rewrite length_app, send_keys_line_length, length_take.
  destruct (decide (length (b :: l) ≤ n)%nat) as [Hle|Hgt].
  - rewrite Nat.min_r, drop_ge by done. assert (chunks_of fuel n [] = []) as -> by (by destruct fuel). simpl in *. nia.
  - rewrite Nat.min_l by lia. specialize (IH (drop n (b :: l))). rewrite length_drop in IH.
    assert (length (b :: l) - n ≤ fuel)%nat as Hf by (simpl in *; lia). specialize (IH Hf). nia.
Qed.

(** The commands for tmux type exactly the bytes that the client sent, in order, on
    lines of at most 397 bytes, and a message of up to a mebibyte fits in the queue. *)
Theorem send_keys_exact data : Forall u8_range data →
  keys_typed (length data) (send_keys_command data) = Some data ∧
  Forall (λ c, (length (send_keys_line c) ≤ 397)%nat) (chunks_of (length data) 128 data) ∧
  (Z.of_nat (length data) ≤ 1024 * 1024 → Z.of_nat (length (send_keys_command data)) ≤ TMUX_PTY_INPUT_QUEUE_BYTES).
Proof.
  intros Hd. pose proof (chunks_of_concat (length data) 128 data ltac:(lia) ltac:(lia)) as Hcat.
  assert (∀ fuel l, Forall u8_range l → Forall (Forall u8_range) (chunks_of fuel 128 l) ∧
    Forall (λ c, (length (send_keys_line c) ≤ 397)%nat) (chunks_of fuel 128 l) ∧ (length (chunks_of fuel 128 l) ≤ fuel)%nat) as Hch.
  { induction fuel as [|fuel IH]; intros l Hl; [done |]. destruct l as [|b l]; [split_and!; simpl; [done | done | lia] |].
    destruct (IH (drop 128 (b :: l))) as (? & ? & ?); [by apply Forall_drop |]. cbn [chunks_of length].
    split_and!; [by constructor; [apply Forall_take |] | constructor; [| done] | lia].
    rewrite send_keys_line_length, length_take. lia. }
  destruct (Hch (length data) data Hd) as (H1 & H2 & H3). split_and!; [| done |].
  - unfold send_keys_command. by rewrite keys_typed_lines, Hcat.
  - intros Hlen. pose proof (lines_length (length data) 128 data ltac:(lia) ltac:(lia)) as Hl.
    unfold send_keys_command, TMUX_PTY_INPUT_QUEUE_BYTES. lia.
Qed.

(** ** What tmux reads *)

Inductive tmux_step : TmuxTask → TmuxTask → Prop :=
  | tmux_send_stdin t m :
      tmux_step t (tmux_set t (tmux_drain t) (tmux_pending t) (tmux_stdin_rx t ++ [m]) (tmux_pty_rx t) (tmux_written t))
  | tmux_send_command t c :
      tmux_step t (tmux_set t (tmux_drain t) (tmux_pending t) (tmux_stdin_rx t) (tmux_pty_rx t ++ [c]) (tmux_written t))
  | tmux_run_turn t io t' : tmux_pump_turn io t = TmuxNext t' → tmux_step t t'.

(** The commands that the task queues. *)
Inductive queued_command : bytes → Prop :=
  | command_keys data : queued_command (send_keys_command data)
  | command_resize rows cols : queued_command (resize_commands rows cols)
  | command_kick : queued_command (str_bytes "detach-client -a" ++ [10]).

Definition whole_commands (l : bytes) : Prop := ∃ cmds, l = concat cmds ∧ Forall queued_command cmds.

Record tmux_inv (t : TmuxTask) : Prop := {
  tmux_inv_wf : pending_wf (tmux_pending t);
  tmux_inv_initial : default [] (pending_initial_commands t) = [];
  tmux_inv_whole : tmux_drain t = None → whole_commands (tmux_written t ++ content (tmux_pending t));
}.

Lemma tmux_turn_Next r t : tmux_turn r = TmuxNext t ↔ r = Ok (TmuxNext t).
Proof. destruct r; simpl; naive_solver. Qed.

Lemma tmux_detach_inv io t t' : tmux_inv t → tmux_detach io t = Ok (TmuxNext t') → tmux_inv t'.
Proof.
  intros [Hwf Hi Hw] [_ [= <-]]%bind_tt. destruct Hwf as [? ? ? ? ?]. constructor; [| done | done].
  by constructor; simpl; try lia.
Qed.

Lemma tmux_enqueue_inv t c t' : tmux_inv t → queued_command c → tmux_enqueue t c = Ok (TmuxNext t') → tmux_inv t'.
Proof.
  intros [Hwf Hi Hw] Hc (p & (Hwf' & Hp & _)%push_spec & [= <-])%bind_Ok; [| done].
  constructor; [done | done |]. simpl. intros (cmds & Heq & Hcmds)%Hw. exists (cmds ++ [c]). rewrite Hp.
  rewrite concat_app, app_assoc, Heq. simpl. rewrite app_nil_r. split; [done |]. apply Forall_app_2; [done | by constructor].
Qed.

(** Changing only the queues of messages keeps the invariant. *)
Lemma tmux_inv_rx t stdin pty : tmux_inv t → tmux_inv (tmux_set t (tmux_drain t) (tmux_pending t) stdin pty (tmux_written t)).
Proof. by intros [? ? ?]. Qed.

Lemma tmux_read_inv io c t t' : tmux_inv t → tmux_on_read io c t = Ok (TmuxNext t') → tmux_inv t'.
Proof.
  intros [Hwf Hi Hw]. unfold tmux_on_read. destruct (decode (decoder t) c) as [dec control]. rewrite Hi.
  replace (if bool_decide (control = []) then [] else []) with (@nil bytes) by (by case_match).
  intros [_ H]%bind_tt. destruct (pump_control_bytes (line_buf t) control) as [buf out]. simplify_eq.
  constructor; simpl; [done | by case_match | by rewrite app_nil_r].
Qed.

Lemma tmux_inv_turn io t t' : tmux_inv t → tmux_pump_turn io t = TmuxNext t' → tmux_inv t'.
Proof.
  intros Hinv. unfold tmux_pump_turn. set (live := bool_decide _).
  set (rest := if _ : bool then tmux_turn _ else _).
  assert (rest = TmuxNext t' → tmux_inv t') as Hrest.
  { subst rest. destruct (live && _ && _).
    - intros ([p w] & (Hwf' & Hp & _)%write_one_spec & [= <-])%tmux_turn_Next%bind_Ok; [| apply Hinv].
      destruct Hinv as [? ? Hw]. constructor; [done | done |]. simpl. intros Hd. rewrite <- app_assoc, Hp. by apply Hw.
    - destruct (match tmux_drain t with Some d => _ | None => _ end); [done |]. destruct (tmux_read io); [| done].
      intros ([c|] & _ & H)%tmux_turn_Next%bind_Ok; [by eapply tmux_read_inv | done]. }
  clearbody rest. destruct live; [| done]. destruct (tmux_stdin_rx t) as [|m q].
  - destruct (tmux_pty_rx t) as [|c q]; [done |].
    intros H%tmux_turn_Next. destruct c; simpl in H;
      first [eapply tmux_enqueue_inv in H | eapply tmux_detach_inv in H]; eauto using tmux_inv_rx, queued_command.
  - intros H%tmux_turn_Next. destruct m as [data|]; simpl in H; [destruct (is_ctrl_backslash_sequence data) |];
      first [eapply tmux_enqueue_inv in H | eapply tmux_detach_inv in H]; eauto using tmux_inv_rx, queued_command.
Qed.

Lemma tmux_inv_reachable t : rtc tmux_step (tmux_start []) t → tmux_inv t.
Proof.
  apply (rtc_ind_r tmux_inv (tmux_start [])).
  - constructor; [by apply pending_new_wf | done |]. intros _. by exists [].
  - intros x y _ Hstep IH. destruct Hstep as [t1 m | t1 c | t1 io t2 Hturn]; [by apply tmux_inv_rx.. | by eapply tmux_inv_turn].
Qed.

(** Until it is asked to detach, the task sends tmux whole commands, one after the
    other: what it wrote and what is still queued are together a sequence of complete
    commands, so a resize or a kick never lands inside the keys being typed. *)
Theorem tmux_commands_whole t : rtc tmux_step (tmux_start []) t → tmux_drain t = None →
  ∃ cmds, tmux_written t ++ content (tmux_pending t) = concat cmds ∧ Forall queued_command cmds.
Proof. intros [_ _ Hw]%tmux_inv_reachable. exact Hw. Qed.

(** ** The detach key *)

(** The key as kitty's protocol reports it: Ctrl and backslash pressed or repeated, with or
    without the lock keys. *)
Definition ctrl_backslash_key (caps num : bool) (event : bytes) : bytes :=
  [ESC; 91; 57; 50; 59] ++ decimal_digits (5 + (if caps then 64 else 0) + (if num then 128 else 0)) ++ event ++ [117].

Lemma is_key_pressed_app pre data k m : is_key_pressed data k m = true → is_key_pressed (pre ++ data) k m = true.
Proof.
  intros H. induction pre as [|a pre IH]; [done |]. cbn [app].
  destruct (pre ++ data) as [|b r]; [done |]. cbn [is_key_pressed] in *. rewrite IH. by rewrite orb_true_r.
Qed.

(** The key is seen wherever it is in the input, and its release is not taken for it. *)
Lemma ctrl_backslash_seen pre post caps num event : event ∈ [[]; [58; 49]; [58; 50]] →
  is_ctrl_backslash_sequence (pre ++ ctrl_backslash_key caps num event ++ post) = true ∧
  is_ctrl_backslash_sequence (ctrl_backslash_key caps num [58; 51]) = false.
Proof.
  intros He. split; [| by destruct caps, num].
  unfold is_ctrl_backslash_sequence. apply orb_true_iff. right. apply is_key_pressed_app.
  rewrite !elem_of_cons in He. destruct He as [-> | [-> | [-> | []%not_elem_of_nil]]]; by destruct caps, num.
Qed.

(** ** Departures and witnesses *)

Module Demo.

Definition ready (w : WriteResult) : TmuxIo :=
  {| tmux_now := 0; tmux_write := w; tmux_write_all := Ok tt; tmux_read := None |}.

Definition next (io : TmuxIo) (t : TmuxTask) : TmuxTask :=
  match tmux_pump_turn io t with TmuxNext t' => t' | _ => t end.

Definition send (m : StdinMessage) (t : TmuxTask) : TmuxTask :=
  tmux_set t (tmux_drain t) (tmux_pending t) (tmux_stdin_rx t ++ [m]) (tmux_pty_rx t) (tmux_written t).

(** A key is typed and the terminal takes 14 of the 16 bytes of the command. *)
Definition typing : TmuxTask := next (ready (Accepts 14)) (next (ready WouldBlock) (send (Data [65]) (tmux_start []))).
Definition detached : TmuxTask := next (ready WouldBlock) (send StdinClose typing).

Lemma typing_reachable : rtc tmux_step (tmux_start []) typing.
Proof.
  eapply rtc_l; [apply (tmux_send_stdin _ (Data [65])) |].
  eapply rtc_l; [by apply (tmux_run_turn _ (ready WouldBlock) (next (ready WouldBlock) (send (Data [65]) (tmux_start [])))) |].
  eapply rtc_l; [by apply (tmux_run_turn _ (ready (Accepts 14)) typing) |]. apply rtc_refl.
Qed.

Lemma tmux_commands_whole_witness : tmux_written typing = str_bytes "send-keys -H 4" ∧
  ∃ cmds, tmux_written typing ++ content (tmux_pending typing) = concat cmds ∧ Forall queued_command cmds.
Proof. split; [done |]. apply (tmux_commands_whole typing typing_reachable eq_refl). Defined.

(** A detach can be lost: when the terminal has taken only a part of a command, the
    task drops the rest of it and writes the detach command behind that part, on the same
    line. *)
Theorem tmux_detach_splits_command :
  ∃ t, rtc tmux_step (tmux_start []) t ∧ tmux_drain t = Some 5 ∧
    tmux_written t = str_bytes "send-keys -H 4detach-client" ++ [10].
Proof.
  exists detached. split; [| done]. etrans; [apply typing_reachable |].
  eapply rtc_l; [apply (tmux_send_stdin _ StdinClose) |].
  eapply rtc_l; [by apply (tmux_run_turn _ (ready WouldBlock) detached) |]. apply rtc_refl.
Qed.

(** [hé] and a newline, as tmux reports them in the one way and in the other *)
Definition lines : list bytes :=
  [str_bytes "%output %1 h" ++ [195; 169] ++ [13; 10]; str_bytes "%extended-output %1 20 : " ++ str_bytes "\012" ++ [10]].

Lemma lines_notify : Forall2 notification [[104; 195; 169]; [10]] lines.
Proof.
  repeat constructor.
  - apply (plain_output (str_bytes "%1") [104; 195; 169] [104; 195; 169] [13; 10]); [by repeat constructor | | done | by right].
    do 3 (apply encodes_raw; [done | done |]). constructor.
  - apply (extended_output (str_bytes "%1 20") [10] (str_bytes "\012") [10]); [by repeat constructor | | done | by left].
    by apply (encodes_octal 10 [] []); [| constructor].
Qed.

Definition attached : TmuxTask :=
  {| decoder := Normal; line_buf := []; tmux_drain := None; pending_initial_commands := None;
     tmux_pending := pending_new TMUX_PTY_INPUT_QUEUE_BYTES; tmux_stdin_rx := []; tmux_pty_rx := [];
     tmux_written := []; tmux_out := [] |}.

(** Without UTF-8 the output is changed: a character that tmux reports in two
    notifications reaches the client as two replacement characters. *)
Theorem tmux_output_split_character :
  tmux_out <$> (match read_chunks (ready WouldBlock) attached
      [str_bytes "%output %1 " ++ [195; 10]; str_bytes "%output %1 " ++ [169; 10]] with Ok t => Some t | Err _ => None end) =
  Some [ToStdout [239; 191; 189]; ToStdout [239; 191; 189]].
Proof. by vm_compute. Qed.

Lemma send_keys_exact_witness :
  keys_typed 2 (send_keys_command [65; 3]) = Some [65; 3] ∧
  Forall (λ c, (length (send_keys_line c) ≤ 397)%nat) (chunks_of 2 128 [65; 3]) ∧
  (2 ≤ 1024 * 1024 → Z.of_nat (length (send_keys_command [65; 3])) ≤ TMUX_PTY_INPUT_QUEUE_BYTES).
Proof. apply (send_keys_exact [65; 3]). by repeat constructor. Defined.

End Demo.
