(* ===== verification/Providers.v ===== *)
(** * Session providers

    crates/portl-agent/src/session_handler/provider.rs: finding and running the programs
    that keep persistent sessions (zmx, tmux, herdr), their environment, and the parsing of
    what they print.  The messages are those of portl-core/src/wire/session.rs.

    Running a program is a call on the host, whose state is a parameter [W]: the
    operations are in a monad that passes this state, records the commands that are run and
    stops at an error.  JSON text is parsed by a parameter.  Paths are strings; two
    spellings of one path count as different ones. *)

From stdpp Require Import pretty.
From S2P Require Import Prelude Bytes Text Schema Enforce Labels Revocations Terminal Tmux.

(** ** Messages: wire/session.rs *)

Inductive SessionOp := Providers | List | Attach | AttachV2 | Run | History | Kill.

#[export] Instance SessionOp_eq_dec : EqDecision SessionOp.
Proof. solve_decision. Defined.

Record ProviderCapabilities := {
  persistent : bool; multi_attach : bool; create_on_attach : bool; attach_command : bool; can_run : bool;
  detached_run : bool; can_history : bool; tail_output : bool; can_kill : bool; terminal_state_restore : bool;
  external_direct_attach : bool; exact_argv_spawn : bool;
}.

Definition raw_caps : ProviderCapabilities := {|
  persistent := false; multi_attach := false; create_on_attach := false; attach_command := false;
  can_run := false; detached_run := false; can_history := false; tail_output := false;
  can_kill := false; terminal_state_restore := false; external_direct_attach := false; exact_argv_spawn := false |}.
Definition zmx_caps : ProviderCapabilities := {|
  persistent := true; multi_attach := true; create_on_attach := true; attach_command := true;
  can_run := true; detached_run := false; can_history := true; tail_output := false;
  can_kill := true; terminal_state_restore := true; external_direct_attach := true; exact_argv_spawn := false |}.
Definition tmux_caps : ProviderCapabilities := {|
  persistent := true; multi_attach := true; create_on_attach := true; attach_command := true;
  can_run := false; detached_run := false; can_history := true; tail_output := false;
  can_kill := true; terminal_state_restore := true; external_direct_attach := false; exact_argv_spawn := false |}.
Definition ghostty_caps : ProviderCapabilities := {|
  persistent := true; multi_attach := true; create_on_attach := true; attach_command := true;
  can_run := true; detached_run := false; can_history := true; tail_output := false;
  can_kill := true; terminal_state_restore := true; external_direct_attach := false; exact_argv_spawn := true |}.
Definition herdr_caps : ProviderCapabilities := {|
  persistent := true; multi_attach := true; create_on_attach := true; attach_command := false;
  can_run := false; detached_run := false; can_history := false; tail_output := false;
  can_kill := false; terminal_state_restore := true; external_direct_attach := true; exact_argv_spawn := false |}.

Record ProviderStatus := {
  ps_name : string;
  available : bool;
  ps_path : option string;
  notes : option string;
  capabilities : ProviderCapabilities;
  tier : option string;
  features : list string;
}.

Record ProviderReport := { default_provider : option string; report_providers : list ProviderStatus }.

Record SessionInfo := { si_name : string; si_provider : string; metadata : list (string * string) }.

Record SessionRunResult := { code : Z; run_stdout : string; run_stderr : string }.

(** ** The host *)

Record Cmd := {
  program : string;
  args : list string;
  cmd_env : gmap string string;
  cmd_cwd : option string;
}.

(** What [Command::output] gives: no code when a signal ended the process. *)
Record ExecOut := { exit_code : option Z; out_stdout : bytes; out_stderr : bytes }.

(** [exec] runs a program to its end; it fails when the program does not start or takes too
    long.  [path_exists] is [Path::exists], [agent_env] the environment of the agent. *)
Class Host (W : Type) := {
  exec : Cmd → W → result string ExecOut * W;
  path_exists : W → string → bool;
  agent_env : string → option string;
}.

(** ** The monad *)

Definition Prov (W Ev E A : Type) : Type := W → result E A * list Ev * W.

#[export] Instance prov_ret {W Ev E} : MRet (Prov W Ev E) := λ A a w, (Ok a, [], w).
#[export] Instance prov_bind {W Ev E} : MBind (Prov W Ev E) := λ A B k m w,
  match m w with
  | (Ok a, l, w1) => let '(r, l', w2) := k a w1 in (r, l ++ l', w2)
  | (Err e, l, w1) => (Err e, l, w1)
  end.

Section monad.
Context {W Ev E A : Type}.

Definition lift (r : result E A) : Prov W Ev E A := λ w, (r, [], w).
Definition ask (f : W → A) : Prov W Ev E A := λ w, (Ok (f w), [], w).
Definition log (e : Ev) : Prov W Ev E unit := λ w, (Ok tt, [e], w).
(** The error as a value. *)
Definition attempt {E'} (m : Prov W Ev E A) : Prov W Ev E' (result E A) :=
  λ w, let '(r, l, w') := m w in (Ok r, l, w').
Definition with_err {E'} (f : E → E') (m : Prov W Ev E A) : Prov W Ev E' A :=
  λ w, let '(r, l, w') := m w in (map_err f r, l, w').
End monad.

(** Every event of a run has a property. *)
Definition logs {W Ev E A} (Q : Ev → Prop) (m : Prov W Ev E A) : Prop := ∀ w, Forall Q (m w).1.2.

(** A value some run gives. *)
Definition yields {W Ev E A} (m : Prov W Ev E A) (a : A) : Prop := ∃ w, (m w).1.1 = Ok a.

Lemma yields_bind {W Ev E A B} (m : Prov W Ev E A) (k : A → Prov W Ev E B) b :
  yields (m ≫= k) b → ∃ a, yields m a ∧ yields (k a) b.
Proof.
  intros [w Hw]. unfold mbind, prov_bind in Hw. destruct (m w) as [[[a|e] l] w1] eqn:Hm; [| done].
  exists a. split; [exists w; by rewrite Hm |]. exists w1. by destruct (k a w1) as [[r l'] w2].
Qed.

Lemma yields_ret {W Ev E A} (a b : A) : yields (mret a : Prov W Ev E A) b → b = a.
Proof. by intros [w [= ->]]. Qed.

Lemma yields_lift {W Ev E A} (r : result E A) b : yields (lift r : Prov W Ev E A) b → r = Ok b.
Proof. by intros [w Hw]. Qed.

Create HintDb prov.

Section logs.
Context {W Ev E A : Type} (Q : Ev → Prop).

Lemma logs_ret (a : A) : logs Q (mret a : Prov W Ev E A).
Proof. by intros w. Qed.
Lemma logs_lift (r : result E A) : logs Q (lift r : Prov W Ev E A).
Proof. by intros w. Qed.
Lemma logs_ask (f : W → A) : logs Q (ask f : Prov W Ev E A).
Proof. by intros w. Qed.
Lemma logs_log (e : Ev) : Q e → logs Q (log e : Prov W Ev E unit).
Proof. intros He w. by apply Forall_singleton. Qed.
Lemma logs_bind_yields {B} (m : Prov W Ev E A) (k : A → Prov W Ev E B) :
  logs Q m → (∀ a, yields m a → logs Q (k a)) → logs Q (m ≫= k).
Proof.
  intros Hm Hk w. unfold mbind, prov_bind. specialize (Hm w).
  destruct (m w) as [[[a|e] l] w1] eqn:Hw; simpl in *; [| done].
  assert (logs Q (k a)) as Hka by (apply Hk; exists w; by rewrite Hw). specialize (Hka w1).
  destruct (k a w1) as [[r l'] w2]. by apply Forall_app.
Qed.
Lemma logs_bind {B} (m : Prov W Ev E A) (k : A → Prov W Ev E B) :
  logs Q m → (∀ a, logs Q (k a)) → logs Q (m ≫= k).
Proof. intros Hm Hk. apply logs_bind_yields; auto. Qed.
Lemma logs_attempt {E'} (m : Prov W Ev E A) : logs Q m → logs Q (attempt m : Prov W Ev E' (result E A)).
Proof. intros Hm w. unfold attempt. specialize (Hm w). by destruct (m w) as [[r l] w']. Qed.
Lemma logs_with_err {E'} (f : E → E') (m : Prov W Ev E A) : logs Q m → logs Q (with_err f m).
Proof. intros Hm w. unfold with_err. specialize (Hm w). by destruct (m w) as [[r l] w']. Qed.
Lemma logs_mono (Q' : Ev → Prop) (m : Prov W Ev E A) : (∀ e, Q e → Q' e) → logs Q m → logs Q' m.
Proof. intros HQ Hm w. by apply (Forall_impl _ _ _ (Hm w)). Qed.
End logs.

#[export] Hint Resolve logs_ret logs_lift logs_ask logs_log logs_attempt logs_with_err : prov.

(** One step of a proof about a run: a bind, a branch, or a lemma of the database. *)
Ltac prov_step :=
  first [ progress eauto with prov
        | apply logs_bind; [| intros ?]
        | match goal with |- context [match ?x with _ => _ end] => destruct x eqn:? end ].
Ltac prov_solve := repeat prov_step.

(** ** Strings *)

Fixpoint slice_contains (pat l : bytes) : bool :=
  match slice_strip_prefix pat l with
  | Some _ => true
  | None => match l with [] => false | _ :: l' => slice_contains pat l' end
  end.

Definition contains_str (pat : string) (s : string) : bool := slice_contains (str_bytes pat) (str_bytes s).

Definition lossy_string (b : bytes) : string := str_of_bytes (from_utf8_lossy b).

Definition str_split_once (sep : bytes) (s : string) : option (string * string) :=
  '(x, y) ← split_once sep (str_bytes s); Some (str_of_bytes x, str_of_bytes y).

(** [str::split_whitespace] *)
Fixpoint take_word (fuel : nat) (l : bytes) : bytes * bytes :=
  match fuel, l with
  | S fuel', b :: l' =>
      if (0 <? leading_ws l)%nat then ([], l) else let '(w, r) := take_word fuel' l' in (b :: w, r)
  | _, _ => ([], l)
  end.

Fixpoint split_words (fuel : nat) (l : bytes) : list string :=
  match fuel with
  | O => []
  | S fuel' =>
      let l := drop_ws leading_ws (length l) l in
      if bool_decide (l = []) then []
      else let '(w, r) := take_word (length l) l in str_of_bytes w :: split_words fuel' r
  end.

Definition split_whitespace (s : string) : list string := split_words (length (str_bytes s)) (str_bytes s).

(** ** Finding a provider *)

Inductive ProviderPathSource := Config | StablePath | UserBin | MiseShim.

Record ProviderPathProbe := { probe_path : string; probe_source : ProviderPathSource; probe_exists : bool }.
Record ProviderPathDiscovery := {
  found_path : option string;
  found_source : option ProviderPathSource;
  probes : list ProviderPathProbe;
}.

Definition join_path (dir rel : string) : string :=
  if ends_with "/" dir then dir +:+ rel else dir +:+ "/" +:+ rel.

(** [seen] holds the paths of the probes. *)
Definition push_probe (ex : string → bool) (ps : list ProviderPathProbe) (p : string) (src : ProviderPathSource)
    : list ProviderPathProbe :=
  if bool_decide (p ∈ probe_path <$> ps) then ps
  else ps ++ [{| probe_path := p; probe_source := src; probe_exists := ex p |}].

Definition candidates (prog : string) (stable_dirs : list string) (target_home xdg_data_home : option string)
    : list (string * ProviderPathSource) :=
  ((λ d, (join_path d prog, StablePath)) <$> stable_dirs) ++
  match target_home with
  | None => []
  | Some home =>
      ((λ rel, (join_path (join_path home rel) prog, UserBin)) <$> [".local/bin"; "bin"; ".cargo/bin"]) ++
      [(join_path (join_path (default (join_path home ".local/share") xdg_data_home) "mise/shims") prog, MiseShim)]
  end.

Definition discover_provider_path_with_dirs (ex : string → bool) (prog : string) (configured : option string)
    (stable_dirs : list string) (target_home xdg_data_home : option string) : ProviderPathDiscovery :=
  match configured with
  | Some p =>
      {| found_path := if ex p then Some p else None; found_source := if ex p then Some Config else None;
         probes := push_probe ex [] p Config |}
  | None =>
      let ps := foldl (λ ps c, push_probe ex ps c.1 c.2) [] (candidates prog stable_dirs target_home xdg_data_home) in
      let selected := List.find probe_exists ps in
      {| found_path := probe_path <$> selected; found_source := probe_source <$> selected; probes := ps |}
  end.

Definition stable_provider_dirs : list string :=
  ["/opt/homebrew/bin"; "/opt/homebrew/sbin"; "/usr/local/bin"; "/usr/local/sbin"; "/usr/bin"; "/bin"].

Definition discover_provider_path (ex : string → bool) (prog : string) (configured target_home : option string)
    : ProviderPathDiscovery :=
  discover_provider_path_with_dirs ex prog configured stable_provider_dirs target_home None.

(** The environment of a provider. *)
Definition PASSED_KEYS : list string := ["TMPDIR"; "XDG_RUNTIME_DIR"; "ZMX_DIR"; "TMUX_TMPDIR"].

Definition put_env (env : gmap string string) (kv : string * string) : gmap string string := <[kv.1 := kv.2]> env.

Definition apply_provider_env (host_env : string → option string) (extra : list (string * string))
    (target_home : option string) : gmap string string :=
  let env := <["PATH" := default_target_path]> ∅ in
  let env := foldl (λ env k, match host_env k with Some v => <[k := v]> env | None => env end) env PASSED_KEYS in
  let env := match target_home with Some h => <["HOME" := h]> env | None => env end in
  foldl put_env env extra.

(** ** Parsing what providers print *)

#[local] Set Warnings "-register-all".

(** [serde_json::Value]: the text of numbers is kept. *)
Inductive JsonValue :=
  | JNull | JBool (b : bool) | JNumber (text : string) | JString (s : string)
  | JArray (l : list JsonValue) | JObject (fields : list (string * JsonValue)).

(** [serde_json::from_str] at [Value], and the [Display] of a value. *)
Class SerdeJson := { json_value : string → option JsonValue; json_show : JsonValue → string }.

Definition json_get (k : string) (fields : list (string * JsonValue)) : option JsonValue :=
  snd <$> List.find (λ f, bool_decide (f.1 = k)) fields.

Definition json_str (v : JsonValue) : option string := match v with JString s => Some s | _ => None end.

Section json.
Context {J : SerdeJson}.

Definition stringify_json_object (fields : list (string * JsonValue)) (skip_keys : list string) : list (string * string) :=
  (λ f, (f.1, default (json_show f.2) (json_str f.2))) <$>
    List.filter (λ f, negb (bool_decide (f.1 ∈ skip_keys))) fields.

(** An item of a session list. *)
Definition session_item (provider : string) (item : JsonValue) : option SessionInfo :=
  match item with
  | JString name => Some {| si_name := name; si_provider := provider; metadata := [] |}
  | JObject fields =>
      v ← match json_get "name" fields with Some v => Some v | None => json_get "session" fields end;
      name ← json_str v;
      Some {| si_name := name; si_provider := provider; metadata := stringify_json_object fields ["name"; "session"] |}
  | _ => None
  end.

Definition parse_zmx_session_json (stdout : string) : result string (list SessionInfo) :=
  v ← ok_or (json_value stdout) "parse zmx list --json";
  match v with JArray items => Ok (omap (session_item "zmx") items) | _ => Ok [] end.

Definition parse_herdr_session_json (stdout : string) : result string (list SessionInfo) :=
  v ← ok_or (json_value stdout) "parse herdr session list --json";
  let items :=
    match v with
    | JObject fields => match json_get "sessions" fields with Some (JArray l) => l | _ => [] end
    | JArray l => l
    | _ => []
    end in
  Ok (omap (session_item "herdr") items).
End json.

Record TmuxSessionFields := {
  f_name : string; f_id : string; f_attached : string; f_created : string; f_windows : string;
  f_width : string; f_height : string;
}.

(** [line.rsplitn(7, '_')], in the order of the line *)
Definition split_underscores (line : string) : list string :=
  let parts := str_split 95 line in
  let n := (length parts - 6)%nat in
  if (length parts <=? 7)%nat then parts else String.concat "_" (take n parts) :: drop n parts.

Definition parse_tmux_underscore_session_fields (line : string) : option TmuxSessionFields :=
  match split_underscores line with
  | [name; id; attached; created; windows; width; height] =>
      if bool_decide (name = "") || negb (starts_with "$" id)
         || negb (bool_decide (attached = "0") || bool_decide (attached = "1"))
         || existsb (λ f, bool_decide (parse_unsigned U64_MAX f = None)) [created; windows; width; height]
      then None
      else Some {| f_name := name; f_id := id; f_attached := attached; f_created := created; f_windows := windows;
                   f_width := width; f_height := height |}
  | _ => None
  end.

Definition parse_tmux_session_fields (line : string) : TmuxSessionFields :=
  match str_split 9 line with
  | name :: id :: attached :: created :: windows :: width :: height :: _ =>
      {| f_name := name; f_id := id; f_attached := attached; f_created := created; f_windows := windows;
         f_width := width; f_height := height |}
  | _ =>
      default {| f_name := line; f_id := ""; f_attached := ""; f_created := ""; f_windows := ""; f_width := ""; f_height := "" |}
        (parse_tmux_underscore_session_fields line)
  end.

(** The keys in the order of the [BTreeMap]. *)
Definition parse_tmux_session_line (line : string) : SessionInfo :=
  let f := parse_tmux_session_fields line in
  {| si_name := f_name f; si_provider := "tmux";
     metadata := [("attached", if bool_decide (f_attached f = "1") then "true" else "false");
                  ("created_unix", f_created f); ("height", f_height f); ("id", f_id f);
                  ("width", f_width f); ("windows", f_windows f)] |}.

Record TmuxTarget := { t_session : string; t_target : string; has_selector : bool }.

Definition parse_tmux_target (input : string) : TmuxTarget :=
  match str_split_once [58] input with
  | Some (session, _) => {| t_session := session; t_target := input; has_selector := true |}
  | None => {| t_session := input; t_target := input; has_selector := false |}
  end.

Definition tmux_lookup_session (input : string) : string :=
  match str_split_once [58] input with Some (session, _) => session | None => input end.

Definition target_byte (b : Z) : bool :=
  is_ascii_alphanumeric b || bool_decide (b ∈ str_bytes ":._-#@%$").

Definition validate_tmux_control_target (target : string) : result string unit :=
  ensure (negb (bool_decide (target = "")) && forallb target_byte (str_bytes target)) ("unsafe tmux target " +:+ target).

Definition tmux_list_empty_error (stderr : string) : bool :=
  contains_str "no server running" stderr || contains_str "no sessions" stderr
  || (contains_str "error connecting" stderr && contains_str "no such file or directory" stderr).

Record TmuxPane := {
  p_target : string; p_window_index : string; p_window_name : string; p_pane_index : string; p_active : bool;
}.

Definition parse_tmux_pane (line : string) : option TmuxPane :=
  match str_split 9 line with
  | target :: window_index :: window_name :: pane_index :: window_active :: pane_active :: _ =>
      Some {| p_target := target; p_window_index := window_index; p_window_name := window_name;
              p_pane_index := pane_index;
              p_active := bool_decide (window_active = "1") && bool_decide (pane_active = "1") |}
  | _ => None
  end.

Definition parse_tmux_panes (stdout : string) : list TmuxPane := omap parse_tmux_pane (Rev.str_lines stdout).

Definition parse_tmux_cursor_line (line : string) : option (Z * Z) :=
  match split_whitespace line with
  | tag :: x :: y :: _ =>
      if bool_decide (tag = "PORTL_CURSOR") then
        x ← parse_unsigned U16_MAX x; y ← parse_unsigned U16_MAX y; Some (x, y)
      else None
  | _ => None
  end.

Definition ensure_success (action : string) (r : SessionRunResult) : result string unit :=
  ensure (code r =? 0) (action +:+ " exited with " +:+ pretty (code r) +:+ ": " +:+ trim (run_stderr r)).

(** ** Provider operations *)

Inductive ProviderKind := Zmx | Tmux | Herdr.

#[export] Instance ProviderKind_eq_dec : EqDecision ProviderKind.
Proof. solve_decision. Defined.

Definition kind_name (k : ProviderKind) : string := match k with Zmx => "zmx" | Tmux => "tmux" | Herdr => "herdr" end.
Definition kind_caps (k : ProviderKind) : ProviderCapabilities :=
  match k with Zmx => zmx_caps | Tmux => tmux_caps | Herdr => herdr_caps end.

(** [ZmxProvider], [TmuxProvider] and [HerdrProvider] *)
Record ProviderCfg := { cfg_path : option string; cfg_env : list (string * string); target_home : option string }.

Definition with_target_home (p : ProviderCfg) (home : option string) : ProviderCfg :=
  {| cfg_path := cfg_path p; cfg_env := cfg_env p; target_home := home |}.

Definition ZMX_CONTROL_PROTOCOL : string := "zmx-control/v1".

Definition status_of (k : ProviderKind) (av : bool) (path note tr : option string) (fs : list string) : ProviderStatus :=
  {| ps_name := kind_name k; available := av; ps_path := path; notes := note; capabilities := kind_caps k;
     tier := tr; features := fs |}.

Definition herdr_features : list string := ["herdr_wire.v1"; "priority_lanes.v1"; "remote_client_bridge.v1"].
Definition tmux_features : list string :=
  ["tmux_control.v1"; "tmux_cc.v1"; "viewport_snapshot.v1"; "live_output.v1"; "priority_input.v1"].

(** The lines of a control probe: whether the protocol is named, the tier, the features. *)
Definition probe_line (acc : bool * option string * list string) (line : string) : bool * option string * list string :=
  let '(ok, tr, fs) := acc in
  match str_split_once [61] line with
  | None => acc
  | Some (key, value) =>
      if bool_decide (trim key = "protocol") then (ok || bool_decide (trim value = ZMX_CONTROL_PROTOCOL), tr, fs)
      else if bool_decide (trim key = "tier") then (ok, Some (trim value), fs)
      else if bool_decide (trim key = "features") then
        (ok, tr, List.filter (λ f, negb (bool_decide (f = ""))) (trim <$> str_split 44 value))
      else acc
  end.

Definition success (o : ExecOut) : bool := bool_decide (exit_code o = Some 0).

Section providers.
Context {W : Type} {HW : Host W} {J : SerdeJson} {Ev : Type} (ran : Cmd → Ev).

Definition P (A : Type) : Type := Prov W Ev string A.

Definition run_command (c : Cmd) : P ExecOut := λ w, let '(r, w') := exec c w in (r, [ran c], w').

Definition configured_path (k : ProviderKind) (p : ProviderCfg) : option string :=
  match k with
  | Herdr => match agent_env "PORTL_HERDR_PATH" with Some v => Some v | None => cfg_path p end
  | _ => cfg_path p
  end.

Definition resolve_path (k : ProviderKind) (p : ProviderCfg) : P (option string) :=
  ask (λ w, found_path (discover_provider_path (path_exists w) (kind_name k) (configured_path k p) (target_home p))).

Definition command (p : ProviderCfg) (path : string) (a : list string) : Cmd :=
  {| program := path; args := a; cmd_env := apply_provider_env agent_env (cfg_env p) (target_home p); cmd_cwd := None |}.

Definition installed_path (k : ProviderKind) (p : ProviderCfg) : P string :=
  found ← resolve_path k p;
  lift (ok_or found (kind_name k +:+ " is not installed on the target")).

Definition run_capture (k : ProviderKind) (p : ProviderCfg) (a : list string) : P SessionRunResult :=
  path ← installed_path k p;
  o ← with_err (λ _, "run " +:+ path +:+ " " +:+ String.concat " " a) (run_command (command p path a));
  mret {| code := default 1 (exit_code o); run_stdout := lossy_string (out_stdout o);
          run_stderr := lossy_string (out_stderr o) |}.

Definition probe_control (p : ProviderCfg) (path : string) : P (option (string * list string * option string)) :=
  r ← attempt (run_command (command p path ["control"; "--protocol"; ZMX_CONTROL_PROTOCOL; "--probe"]));
  mret (match r with
        | Err _ => None
        | Ok o =>
            if negb (success o) then None
            else
              let stdout := lossy_string (out_stdout o) in
              let '(ok, tr, fs) := foldl probe_line (false, None, []) (Rev.str_lines stdout) in
              if ok && bool_decide (tr = Some "control") then Some ("control", fs, Some (trim stdout)) else None
        end).

(** The version command of each provider, and the status its result gives. *)
Definition version_status (k : ProviderKind) (p : ProviderCfg) (path : string) (a : list string) (tr : string)
    (fs : list string) : P ProviderStatus :=
  r ← attempt (run_command (command p path a));
  mret (match r with
        | Ok o => if success o then status_of k true (Some path) (Some (trim (lossy_string (out_stdout o)))) (Some tr) fs
                  else status_of k false (Some path) (Some (trim (lossy_string (out_stderr o)))) None []
        | Err e => status_of k false (Some path) (Some e) None []
        end).

Definition probe (k : ProviderKind) (p : ProviderCfg) : P ProviderStatus :=
  found ← resolve_path k p;
  match found with
  | None => mret (status_of k false None (Some "not found") None [])
  | Some path =>
      match k with
      | Zmx =>
          control ← probe_control p path;
          match control with
          | Some (tr, fs, note) => mret (status_of Zmx true (Some path) note (Some tr) fs)
          | None => version_status Zmx p path ["version"] "attach" []
          end
      | Tmux => version_status Tmux p path ["-V"] "control" tmux_features
      | Herdr => version_status Herdr p path ["--version"] "protocol-aware" herdr_features
      end
  end.

Definition control_available (zmx : ProviderCfg) : P bool :=
  found ← resolve_path Zmx zmx;
  match found with
  | None => mret false
  | Some path => control ← probe_control zmx path; mret (bool_decide (is_Some control))
  end.

Definition plain_lines (stdout : string) : list string :=
  List.filter (λ l, negb (bool_decide (l = ""))) (trim <$> Rev.str_lines stdout).

Definition zmx_list_detailed (zmx : ProviderCfg) : P (list SessionInfo) :=
  json_output ← run_capture Zmx zmx ["list"; "--json"];
  match (if code json_output =? 0 then parse_zmx_session_json (run_stdout json_output) else Err "") with
  | Ok sessions => mret sessions
  | Err _ =>
      output ← run_capture Zmx zmx ["list"];
      _ ← lift (ensure_success "zmx list" output);
      mret ((λ name, {| si_name := name; si_provider := "zmx"; metadata := [] |}) <$> plain_lines (run_stdout output))
  end.

Definition zmx_run (zmx : ProviderCfg) (session : string) (argv : list string) : P SessionRunResult :=
  run_capture Zmx zmx (["run"; session] ++ argv).

Definition zmx_history (zmx : ProviderCfg) (session : string) : P string :=
  output ← run_capture Zmx zmx ["history"; session];
  _ ← lift (ensure_success "zmx history" output);
  mret (run_stdout output).

Definition zmx_kill (zmx : ProviderCfg) (session : string) : P unit :=
  output ← run_capture Zmx zmx ["kill"; session];
  lift (ensure_success "zmx kill" output).

Definition attach_argv (zmx : ProviderCfg) (session : string) (argv : option (list string)) : P (list string) :=
  path ← installed_path Zmx zmx;
  mret ([path; "attach"; session] ++ default [] argv).

Definition pty_args (rows_flag cols_flag : string) (pty : option PtyCfg) : list string :=
  match pty with
  | Some c => [rows_flag; pretty (rows c); cols_flag; pretty (cols c)]
  | None => []
  end.

Definition control_command (zmx : ProviderCfg) (session : string) (cwd : option string) (pty : option PtyCfg)
    (argv : option (list string)) (workload_env : list (string * string)) : P Cmd :=
  path ← installed_path Zmx zmx;
  mret {| program := path;
          args := ["control"; "--protocol"; ZMX_CONTROL_PROTOCOL] ++ pty_args "--rows" "--cols" pty ++ [session] ++ default [] argv;
          cmd_env := foldl put_env (foldl put_env (apply_provider_env agent_env (cfg_env zmx) (target_home zmx)) workload_env)
                       (cfg_env zmx);
          cmd_cwd := cwd |}.

Definition herdr_list_detailed (herdr : ProviderCfg) : P (list SessionInfo) :=
  output ← run_capture Herdr herdr ["session"; "list"; "--json"];
  _ ← lift (ensure_success "herdr session list --json" output);
  lift (parse_herdr_session_json (run_stdout output)).

Definition herdr_session_env (session_name : string) : option (string * string) :=
  if bool_decide (session_name = "default") then None else Some ("HERDR_SESSION", session_name).

Definition bridge_command (herdr : ProviderCfg) (session_name : string) (cwd : option string)
    (workload_env : list (string * string)) : P Cmd :=
  path ← installed_path Herdr herdr;
  let env := foldl put_env (apply_provider_env agent_env (cfg_env herdr) (target_home herdr)) workload_env in
  mret {| program := path; args := ["remote-client-bridge"];
          cmd_env := match herdr_session_env session_name with
                     | Some kv => put_env env kv
                     | None => delete "HERDR_SESSION" env
                     end;
          cmd_cwd := cwd |}.

Definition SESSION_FORMAT : string :=
  String.concat (str_of_bytes [9]) ["#{session_name}"; "#{session_id}"; "#{session_attached}"; "#{session_created}";
    "#{session_windows}"; "#{window_width}"; "#{window_height}"].
Definition PANE_FORMAT : string :=
  String.concat (str_of_bytes [9]) ["#{session_name}:#{window_index}.#{pane_index}"; "#{window_index}"; "#{window_name}";
    "#{pane_index}"; "#{window_active}"; "#{pane_active}"].

Definition str_lowercase (s : string) : string := str_of_bytes (to_lowercase (str_bytes s)).

Definition tmux_list_detailed (tmux : ProviderCfg) : P (list SessionInfo) :=
  output ← run_capture Tmux tmux ["list-sessions"; "-F"; SESSION_FORMAT];
  if negb (code output =? 0) && tmux_list_empty_error (str_lowercase (run_stderr output)) then mret []
  else
    _ ← lift (ensure_success "tmux list-sessions" output);
    mret (parse_tmux_session_line <$> plain_lines (run_stdout output)).

Definition list_panes (tmux : ProviderCfg) (session : string) : P (list TmuxPane) :=
  output ← run_capture Tmux tmux ["list-panes"; "-s"; "-F"; PANE_FORMAT; "-t"; session];
  _ ← lift (ensure_success "tmux list-panes" output);
  mret (parse_tmux_panes (run_stdout output)).

Definition tmux_history (tmux : ProviderCfg) (session : string) : P string :=
  output ← run_capture Tmux tmux ["capture-pane"; "-p"; "-e"; "-S"; "-"; "-E"; "-"; "-t"; session];
  _ ← lift (ensure_success "tmux capture-pane" output);
  mret (run_stdout output).

Definition viewport_snapshot (tmux : ProviderCfg) (session : string) : P bytes :=
  output ← run_capture Tmux tmux ["display-message"; "-p"; "-t"; session; "PORTL_CURSOR #{cursor_x} #{cursor_y}"; ";";
    "capture-pane"; "-p"; "-e"; "-N"; "-S"; "0"; "-E"; "-"; "-t"; session];
  _ ← lift (ensure_success "tmux capture-pane" output);
  let lines := Rev.str_lines (run_stdout output) in
  let '(x, y) := default (0, 0) (head lines ≫= parse_tmux_cursor_line) in
  mret (render_viewport_snapshot (str_bytes (String.concat Rev.newline (tail lines))) x y).

Definition tmux_kill (tmux : ProviderCfg) (session : string) : P unit :=
  output ← run_capture Tmux tmux ["kill-session"; "-t"; session];
  lift (ensure_success "tmux kill-session" output).

Record TmuxSpawnConfig := {
  spawn_program : string;
  spawn_args : list string;
  spawn_env : list (string * string);
  initial_commands : list bytes;
}.

Definition switch_commands (session : string) (target : option string) : result string (list bytes) :=
  match target with
  | Some t =>
      if bool_decide (t = session) then Ok []
      else
        validate_tmux_control_target t;;
        Ok [str_bytes "switch-client -t " ++ str_bytes t ++ [10]]
  | None => Ok []
  end.

Definition control_spawn_config_with_env (tmux : ProviderCfg) (session : string) (target cwd : option string)
    (pty : option PtyCfg) (argv : option (list string)) (workload_env : list (string * string)) : P TmuxSpawnConfig :=
  path ← installed_path Tmux tmux;
  commands ← lift (switch_commands session target);
  mret {| spawn_program := path;
          spawn_args := ["-CC"; "new-session"; "-A"; "-s"; session] ++
            match pty with Some c => ["-x"; pretty (cols c); "-y"; pretty (rows c)] | None => [] end ++
            match cwd with Some d => ["-c"; d] | None => [] end ++ default [] argv;
          spawn_env := workload_env ++ cfg_env tmux;
          initial_commands := commands |}.

Definition raw_status : ProviderStatus :=
  {| ps_name := "raw"; available := true; ps_path := None; notes := Some "one-shot PTY fallback";
     capabilities := raw_caps; tier := Some "raw"; features := [] |}.

(** [ghostty] is the status of the built-in provider, if it is compiled in. *)
Definition provider_report (ghostty : option ProviderStatus) (herdr zmx tmux : ProviderCfg) : P ProviderReport :=
  herdr_status ← probe Herdr herdr;
  zmx_status ← probe Zmx zmx;
  tmux_status ← probe Tmux tmux;
  let def :=
    match ghostty with
    | Some st => if available st then Some (ps_name st) else None
    | None => None
    end in
  let def := match def with Some _ => def | None => if available zmx_status then Some "zmx" else None end in
  let def := match def with Some _ => def | None => if available tmux_status then Some "tmux" else None end in
  mret {| default_provider := def;
          report_providers := option_list ghostty ++ [herdr_status; zmx_status; tmux_status; raw_status] |}.

(** ** The commands of each operation *)

Section commands.
Context (Q : Ev → Prop).

Lemma logs_run_command c : Q (ran c) → logs Q (run_command c).
Proof. intros Hc w. unfold run_command. destruct (exec c w). by apply Forall_singleton. Qed.

Lemma logs_installed_path k p : logs Q (installed_path k p).
Proof. apply logs_bind; [apply logs_ask | intros ?; apply logs_lift]. Qed.

Lemma logs_run_capture k p a : (∀ path, Q (ran (command p path a))) → logs Q (run_capture k p a).
Proof.
  intros Hq. apply logs_bind; [apply logs_installed_path | intros path].
  apply logs_bind; [apply logs_with_err, logs_run_command, Hq | intros o; apply logs_ret].
Qed.

Definition control_probe : list string := ["control"; "--protocol"; ZMX_CONTROL_PROTOCOL; "--probe"].
Definition probe_args (k : ProviderKind) : list (list string) :=
  match k with Zmx => [control_probe; ["version"]] | Tmux => [["-V"]] | Herdr => [["--version"]] end.

Lemma logs_probe_control p path : Q (ran (command p path control_probe)) → logs Q (probe_control p path).
Proof. intros Hq. apply logs_bind; [by apply logs_attempt, logs_run_command | intros ?; apply logs_ret]. Qed.

Lemma logs_version_status k p path a tr fs : Q (ran (command p path a)) → logs Q (version_status k p path a tr fs).
Proof. intros Hq. apply logs_bind; [by apply logs_attempt, logs_run_command | intros ?; apply logs_ret]. Qed.

Lemma logs_probe k p : (∀ path a, a ∈ probe_args k → Q (ran (command p path a))) → logs Q (probe k p).
Proof.
  intros Hq. apply logs_bind; [apply logs_ask | intros [path|]; [| apply logs_ret]].
  destruct k; [| by apply logs_version_status, Hq; left ..].
  apply logs_bind; [by apply logs_probe_control, Hq; left | intros [[[tr fs] note]|]; [apply logs_ret |]].
  apply logs_version_status, Hq. right. by left.
Qed.

Lemma logs_control_available p : (∀ path, Q (ran (command p path control_probe))) → logs Q (control_available p).
Proof.
  intros Hq. apply logs_bind; [apply logs_ask | intros [path|]; [| apply logs_ret]].
  apply logs_bind; [by apply logs_probe_control | intros ?; apply logs_ret].
Qed.

Definition list_args (k : ProviderKind) : list (list string) :=
  match k with
  | Zmx => [["list"; "--json"]; ["list"]]
  | Tmux => [["list-sessions"; "-F"; SESSION_FORMAT]]
  | Herdr => [["session"; "list"; "--json"]]
  end.

Lemma logs_zmx_list p : (∀ path a, a ∈ list_args Zmx → Q (ran (command p path a))) → logs Q (zmx_list_detailed p).
Proof.
  intros Hq. apply logs_bind; [apply logs_run_capture; intros ?; apply Hq; by left | intros o].
  destruct (if code o =? 0 then _ else _); [apply logs_ret |].
  apply logs_bind; [apply logs_run_capture; intros ?; apply Hq; right; by left | intros o'].
  apply logs_bind; [apply logs_lift | intros _; apply logs_ret].
Qed.

Lemma logs_herdr_list p : (∀ path a, a ∈ list_args Herdr → Q (ran (command p path a))) → logs Q (herdr_list_detailed p).
Proof.
  intros Hq. apply logs_bind; [apply logs_run_capture; intros ?; apply Hq; by left | intros o].
  apply logs_bind; [apply logs_lift | intros _; apply logs_lift].
Qed.

Lemma logs_tmux_list p : (∀ path a, a ∈ list_args Tmux → Q (ran (command p path a))) → logs Q (tmux_list_detailed p).
Proof.
  intros Hq. apply logs_bind; [apply logs_run_capture; intros ?; apply Hq; by left | intros o].
  case_match; [apply logs_ret |]. apply logs_bind; [apply logs_lift | intros _; apply logs_ret].
Qed.

Lemma logs_capture_then {A} k p a (f : SessionRunResult → P A) : (∀ path, Q (ran (command p path a))) →
  (∀ o, logs Q (f o)) → logs Q (o ← run_capture k p a; f o).
Proof. intros Hq Hf. by apply logs_bind; [apply logs_run_capture |]. Qed.
End commands.

End providers.

#[export] Hint Resolve logs_installed_path logs_run_capture logs_probe logs_control_available logs_zmx_list logs_herdr_list
  logs_tmux_list : prov.

(** ** Discovery *)

Lemma push_probe_find ex ps p src : (∀ q, q ∈ ps → probe_exists q = ex (probe_path q)) →
  (∀ q, q ∈ push_probe ex ps p src → probe_exists q = ex (probe_path q)) ∧
  (probe_path <$> List.find probe_exists (push_probe ex ps p src)) =
    match probe_path <$> List.find probe_exists ps with
    | Some q => Some q
    | None => if ex p then Some p else None
    end.
Proof.
  intros Hps. unfold push_probe. case_bool_decide as Hin.
  - split; [done |]. destruct (List.find probe_exists ps) as [q|] eqn:Hf; [done |]. simpl.
    apply list_elem_of_fmap in Hin as (q & -> & Hq). pose proof (List.find_none _ _ Hf q) as Hn.
    rewrite <- (Hps q Hq), Hn by (by apply list_elem_of_In). done.
  - split.
    + intros q [Hq|Hq%list_elem_of_singleton]%elem_of_app; [by apply Hps | by subst q].
    + clear. induction ps as [|q ps IH]; simpl; [by destruct (ex p) |]. by destruct (probe_exists q).
Qed.

Lemma push_probes_find ex cs ps : (∀ q, q ∈ ps → probe_exists q = ex (probe_path q)) →
  (probe_path <$> List.find probe_exists (foldl (λ ps c, push_probe ex ps c.1 c.2) ps cs)) =
    match probe_path <$> List.find probe_exists ps with
    | Some q => Some q
    | None => List.find ex (fst <$> cs)
    end.
Proof.
  revert ps. induction cs as [|[p src] cs IH]; intros ps Hps; [simpl; by destruct (probe_path <$> _) |].
  destruct (push_probe_find ex ps p src Hps) as [Hps' Hf]. cbn [foldl]. rewrite IH by done. cbn [fst snd]. rewrite Hf.
  rewrite fmap_cons. cbn [List.find fst]. destruct (probe_path <$> List.find probe_exists ps); [done |].
  by destruct (ex p).
Qed.

(** Discovery gives the configured path if there is one and it exists, and never another
    then; and otherwise the first of the candidates, in their order, that exists. *)
Lemma discovery_first_existing ex prog configured dirs home xdg :
  found_path (discover_provider_path_with_dirs ex prog configured dirs home xdg) =
  match configured with
  | Some p => List.find ex [p]
  | None => List.find ex (fst <$> candidates prog dirs home xdg)
  end.
Proof.
  unfold discover_provider_path_with_dirs. destruct configured as [p|]; [simpl; by destruct (ex p) |].
  simpl. rewrite push_probes_find; [done |]. intros q []%not_elem_of_nil.
Qed.

(** ** Environment *)

Lemma put_env_other env extra k : k ∉ fst <$> extra → foldl put_env env extra !! k = env !! k.
Proof.
  revert env. induction extra as [|[a v] extra IH]; intros env Hk; [done |]. rewrite fmap_cons in Hk.
  apply not_elem_of_cons in Hk as [Ha Hk]. simpl. rewrite IH by done. unfold put_env. simpl.
  by rewrite lookup_insert_ne by done.
Qed.

Lemma passed_env (h : string → option string) keys (env : gmap string string) (k : string) :
  foldl (λ env k, match h k with Some v => <[k := v]> env | None => env end) env keys !! k =
  match (if decide (k ∈ keys) then h k else None) with Some v => Some v | None => env !! k end.
Proof.
  revert env. induction keys as [|a keys IH]; intros env; cbn [foldl]; [by rewrite decide_False by apply not_elem_of_nil |].
  rewrite IH. destruct (decide (k ∈ keys)) as [Hk|Hk].
  - rewrite (decide_True _ _ (list_elem_of_further _ _ _ Hk)). destruct (h k) as [v|] eqn:Hh; [done |].
    destruct (h a) as [v|] eqn:Ha; [| done]. rewrite lookup_insert_ne by congruence. done.
  - destruct (decide (k = a)) as [->|Hne].
    + rewrite decide_True by apply list_elem_of_here. destruct (h a); [by rewrite lookup_insert_eq | done].
    + rewrite decide_False by (by rewrite elem_of_cons; intros [|]). destruct (h a); [by rewrite lookup_insert_ne | done].
Qed.

(** A provider runs in a clean environment: the fixed PATH, the home of the user it is
    for, four variables of the agent and those set for it; nothing else of the environment
    of the agent is visible to it. *)
Theorem provider_env_clean h extra home k : k ∉ fst <$> extra →
  apply_provider_env h extra home !! k =
    if decide (k = "HOME" ∧ is_Some home) then home
    else if decide (k ∈ PASSED_KEYS ∧ is_Some (h k)) then h k
    else if decide (k = "PATH") then Some default_target_path
    else None.
Proof.
  intros Hk. unfold apply_provider_env. rewrite put_env_other by done.
  assert (∀ env : gmap string string, (match home with Some d => <["HOME" := d]> env | None => env end) !! k =
    if decide (k = "HOME" ∧ is_Some home) then home else env !! k) as ->.
  { intros env. destruct home as [d|]; [| by rewrite decide_False by (by intros [_ []])].
    destruct (decide (k = "HOME")) as [->|Hne]; [by rewrite lookup_insert_eq, decide_True |].
    by rewrite lookup_insert_ne, decide_False by naive_solver. }
  case_decide; [done |]. rewrite passed_env.
  destruct (decide (k ∈ PASSED_KEYS)) as [Hin|Hin].
  - destruct (h k) as [v|]; [by rewrite decide_True by eauto | rewrite decide_False by (by intros [_ []])].
    destruct (decide (k = "PATH")) as [->|]; [done | by rewrite lookup_insert_ne].
  - rewrite decide_False by naive_solver.
    destruct (decide (k = "PATH")) as [->|]; [done | by rewrite lookup_insert_ne].
Qed.

(** ** Lines of tmux *)

Definition fields_list (f : TmuxSessionFields) : list string :=
  [f_name f; f_id f; f_attached f; f_created f; f_windows f; f_width f; f_height f].

(** What tmux prints for [SESSION_FORMAT], whose separators some versions turn into
    underscores. *)
Definition session_line (sep : Ascii.ascii) (f : TmuxSessionFields) : string := String.concat (String sep "") (fields_list f).

Definition TAB : Ascii.ascii := Ascii.ascii_of_N 9.
Definition UNDERSCORE : Ascii.ascii := Ascii.ascii_of_N 95.

(** The fields of a session of tmux: the name is not empty, without tabs, and may have
    underscores; the others are an identifier, a flag and numbers. *)
Definition tmux_fields (f : TmuxSessionFields) : bool :=
  negb (bool_decide (f_name f = "")) && starts_with "$" (f_id f)
  && (bool_decide (f_attached f = "0") || bool_decide (f_attached f = "1"))
  && forallb (λ x, bool_decide (is_Some (parse_unsigned U64_MAX x))) [f_created f; f_windows f; f_width f; f_height f]
  && forallb (λ x, negb (str_contains_byte 9 x)) (fields_list f)
  && forallb (λ x, negb (str_contains_byte 95 x)) (tail (fields_list f)).

Lemma forallb_clean b l : forallb (λ x, negb (str_contains_byte b x)) l = true →
  Forall (λ x, str_contains_byte b x = false) l.
Proof. intros H%Is_true_true%forallb_True. apply (Forall_impl _ _ _ H). intros x. by destruct (str_contains_byte b x). Qed.

Lemma split_underscores_name name rest : length rest = 6%nat → Forall (λ x, str_contains_byte 95 x = false) rest →
  split_underscores (String.concat "_" (name :: rest)) = name :: rest.
Proof.
  intros Hn Hr. pose proof (str_concat_split UNDERSCORE name) as Hc. change (String UNDERSCORE "") with "_" in Hc.
  pose proof (str_split_clean 95 name) as Hl. change (char_code UNDERSCORE) with 95 in Hc.
  pose proof (str_split_nonempty 95 name) as Hne.
  destruct rest as [|r rest]; [done |]. rewrite str_concat_cons, <- Hc, <- str_concat_app by done.
  destruct (str_split 95 name) as [|x l] eqn:Hs; [done |]. unfold split_underscores.
  assert (str_split 95 (String.concat "_" ((x :: l) ++ r :: rest)) = (x :: l) ++ r :: rest) as ->
    by (exact (str_split_concat UNDERSCORE x (l ++ r :: rest) (Forall_app_2 _ _ _ Hl Hr))).
  rewrite length_app, Hn. destruct (_ <=? 7)%nat eqn:Hlen.
  - apply Nat.leb_le in Hlen. destruct l; simpl in *; [done | lia].
  - replace (length (x :: l) + 6 - 6)%nat with (length (x :: l)) by lia.
    by rewrite take_app_length, drop_app_length.
Qed.

(** The line tmux prints for a session is read back to its fields, whether tmux keeps
    the tabs or turns them into underscores, also when the name has underscores itself. *)
Theorem tmux_session_line_roundtrip f : tmux_fields f = true →
  parse_tmux_session_fields (session_line TAB f) = f ∧
  parse_tmux_session_fields (session_line UNDERSCORE f) = f.
Proof.
  unfold tmux_fields. intros H. apply andb_true_iff in H as [H H95%forallb_clean]. apply andb_true_iff in H as [H H9%forallb_clean].
  apply andb_true_iff in H as [H Hu]. apply andb_true_iff in H as [H Ha]. apply andb_true_iff in H as [Hne Hid].
  unfold parse_tmux_session_fields, session_line. split.
  - assert (str_split 9 (String.concat (String TAB "") (fields_list f)) = fields_list f) as ->
      by (by apply (str_split_concat TAB)). by destruct f.
  - rewrite str_split_single.
    + unfold parse_tmux_underscore_session_fields. change (String UNDERSCORE "") with "_". unfold fields_list.
      rewrite split_underscores_name by done. rewrite (proj1 (negb_true_iff _) Hne), Hid, Ha. cbn [negb orb existsb].
      cbn [forallb] in Hu. reflect_bool. rewrite !(bool_decide_false (_ = None)) by (by apply not_eq_None_Some). by destruct f.
    + clear -H9. revert H9. unfold fields_list. generalize (f_name f) as x. intros x.
      generalize [f_id f; f_attached f; f_created f; f_windows f; f_width f; f_height f] as l. intros l. revert x.
      induction l as [|y l IH]; intros x [Hx Hl]%Forall_cons; [done |].
      rewrite str_concat_cons, !str_contains_app, Hx, (IH y Hl). done.
Qed.

(** The bytes with a meaning of their own in a command line of tmux. *)
Definition special : bytes := 34 :: str_bytes ";{}()'`&|<>\~!*?/,=+[]^".

Lemma target_byte_plain b : target_byte b = true → 33 ≤ b < 127 ∧ b ∉ special.
Proof.
  intros H. assert (33 ≤ b < 127) as Hr.
  { unfold target_byte, is_ascii_alphanumeric, is_ascii_digit in H. apply orb_true_iff in H as [H|H]; [lia |].
    apply bool_decide_eq_true in H. revert b H. apply Forall_forall.
    repeat (apply Forall_cons; split; [vm_compute; by repeat split |]). by apply Forall_nil. }
  split; [done |].
  assert (forallb (λ b, implb (target_byte b) (bool_decide (b ∉ special))) (seqZ 33 94) = true) as Hall by (by vm_compute).
  pose proof (proj1 (forallb_forall _ _) Hall b) as Hb. cbv beta in Hb. rewrite H in Hb.
  apply (bool_decide_eq_true (b ∉ special)). apply Hb. apply list_elem_of_In, elem_of_seqZ. lia.
Qed.

(** What the agent sends to tmux on its own account is nothing or one line of three
    words, the command, its flag and the target asked for: no byte of the target can end
    the line, start a word, a string or another command. *)
Theorem switch_command_single session target cmds : switch_commands session target = Ok cmds →
  cmds = [] ∨ ∃ t, target = Some t ∧ t ≠ session ∧ t ≠ "" ∧ cmds = [str_bytes "switch-client -t " ++ str_bytes t ++ [10]] ∧
    Forall (λ b, 33 ≤ b < 127 ∧ b ∉ special) (str_bytes t).
Proof.
  unfold switch_commands. destruct target as [t|]; [| by intros [= <-]; left].
  case_bool_decide; [by intros [= <-]; left |]. intros [Hv [= <-]]%bind_tt. right. exists t.
  unfold validate_tmux_control_target in Hv. apply ensure_Ok in Hv. reflect_bool. repeat split_and!; try done.
  match goal with H : forallb _ _ = true |- _ => rename H into Hb end. apply Is_true_true, forallb_True in Hb.
  apply (Forall_impl _ _ _ Hb). intros b Hb'%Is_true_true. apply (target_byte_plain b Hb').
Qed.

Module Demo.

Lemma provider_env_clean_witness :
  apply_provider_env (λ k, if bool_decide (k = "AWS_SECRET") then Some "s" else None) [("ZMX_DIR", "/run")] (Some "/home/me")
    !! "AWS_SECRET" = None.
Proof.
  rewrite (provider_env_clean _ [("ZMX_DIR", "/run")] (Some "/home/me") "AWS_SECRET").
  - vm_compute. reflexivity.
  - intros H. apply list_elem_of_singleton in H. discriminate.
Defined.

Definition fields : TmuxSessionFields :=
  {| f_name := "my_work"; f_id := "$3"; f_attached := "1"; f_created := "1700000000"; f_windows := "2"; f_width := "80";
     f_height := "24" |}.

Lemma tmux_session_line_roundtrip_witness :
  parse_tmux_session_fields (session_line TAB fields) = fields ∧ parse_tmux_session_fields "my_work_$3_1_1700000000_2_80_24" = fields.
Proof. apply (tmux_session_line_roundtrip fields). vm_compute. reflexivity. Defined.

Lemma switch_command_single_witness : Forall (λ b, 33 ≤ b < 127 ∧ b ∉ special) (str_bytes "dev:1.2").
Proof.
  destruct (switch_command_single "dev" (Some "dev:1.2") [str_bytes "switch-client -t dev:1.2" ++ [10]]) as [H|(t & [= <-] & _ & _ & _ & H)].
  - vm_compute. reflexivity.
  - discriminate H.
  - exact H.
Defined.

End Demo.
