(* ===== verification/Proxy.v ===== *)
(** * Outbound proxies

    crates/portl-core/src/proxy.rs: how the proxy of a process is chosen, what the choice does to
    the environment, and the CONNECT tunnel through a proxy.

    The url, base64, percent-encoding and hyper-util crates are the class [UrlCrate]; [UrlLaws] is
    what their documentation says of serialized URLs. *)

From S2P Require Import Prelude Bytes Canonical Text Diagnostics Revocations Providers.

Class UrlCrate := {
  Url : Type;
  url_parse : string → result string Url;
  url_scheme : Url → string;
  host_str : Url → option string;
  username : Url → string;
  password : Url → option string;
  as_str : Url → string;
  connect_host : Url → option string;
  port_or_known_default : Url → option Z;
  percent_decode : string → string;
  base64_standard : bytes → string;
  base64_url_safe : bytes → string;
  no_proxy_excludes : string → string → option bool;   (** [None]: the host is no URI *)
}.

Class UrlLaws (U : UrlCrate) : Prop := {
  parse_as_str u : url_parse (as_str u) = Ok u;
  as_str_scheme u : url_scheme u = "http" → starts_with "http://" (as_str u) = true;
  as_str_trim u : trim (as_str u) = as_str u;
}.

Definition PORTL_PROXY_ENV : string := "PORTL_PROXY".
Definition HTTPS_VARS : list string := ["HTTPS_PROXY"; "https_proxy"; "ALL_PROXY"; "all_proxy"].
Definition HTTP_VARS : list string := ["HTTP_PROXY"; "http_proxy"; "ALL_PROXY"; "all_proxy"].
Definition NO_PROXY_VARS : list string := ["NO_PROXY"; "no_proxy"].
Definition MANAGED_VARS : list string :=
  ["HTTPS_PROXY"; "https_proxy"; "HTTP_PROXY"; "http_proxy"; "ALL_PROXY"; "all_proxy"; "NO_PROXY"; "no_proxy"; PORTL_PROXY_ENV].

(** The messages of an error, outermost first. *)
Definition Chain : Type := list string.
Definition with_context {A} (msg : string) (r : result Chain A) : result Chain A := map_err (cons msg) r.
Definition chain_text (e : Chain) : string := String.concat ": " e.

Section proxy.
Context `{U : UrlCrate}.

(** ** The URL of a proxy *)

Definition host_missing (u : Url) : bool := match host_str u with None => true | Some h => bool_decide (h = "") end.

Definition proxy_parse (v : string) : result string Url :=
  let value := trim v in
  let with_scheme := if contains_str "://" value then value else "http://" +:+ value in
  url ← map_err (λ err, "invalid proxy URL: " +:+ err) (url_parse with_scheme);
  (if bool_decide (url_scheme url = "http") then Ok tt
   else if bool_decide (url_scheme url = "https") then
     Err "https:// proxies are not supported; use an http:// proxy URL (traffic inside the CONNECT tunnel stays TLS-encrypted)"
   else if bool_decide (url_scheme url ∈ ["socks4"; "socks4a"; "socks5"; "socks5h"]) then
     Err "SOCKS proxies are not supported (iroh's relay client only speaks HTTP CONNECT); use an http:// proxy URL"
   else Err ("unsupported proxy scheme `" +:+ url_scheme url +:+ "://`; use an http:// proxy URL"));;
  ensure (negb (host_missing url)) "proxy URL has no host";;
  Ok url.

Definition credentials (u : Url) : option (string * string) :=
  if bool_decide (username u = "") && negb (is_some (password u)) then None
  else Some (percent_decode (username u), percent_decode (default "" (password u))).

(** [Display]: the serialization is ASCII, so its bytes are its characters. *)
Definition display (u : Url) : string := str_of_bytes (redact_url_userinfo (str_bytes (as_str u))).

Definition relay_auth_caveat (u : Url) : option string :=
  let raw := str_bytes (username u +:+ ":" +:+ default "" (password u)) in
  let mangled := bool_decide (37 ∈ raw) || negb (bool_decide (base64_standard raw = base64_url_safe raw)) in
  if is_some (credentials u) && mangled then
    Some ("proxy " +:+ display u +:+ ": credentials contain characters that iroh's relay client encodes incorrectly; the proxy may reject relay connections (407). Prefer credentials made of letters and digits")
  else None.

Inductive ProxySetting := SetDirect | SetProxy (u : Url).

Definition setting_from_str (value : string) : result string ProxySetting :=
  let v := str_to_ascii_lowercase (trim value) in
  if bool_decide (v = "") then Err "proxy setting is empty; use an http:// URL, `direct`, or `none`"
  else if bool_decide (v = "direct") || bool_decide (v = "none") then Ok SetDirect
  else u ← proxy_parse value; Ok (SetProxy u).

(** ** The choice *)

Inductive ProxySource := FromFlag | PortlProxyEnv | ConfigFile | FromEnv (name : string) | FromDefault.

Definition source_text (s : ProxySource) : string :=
  match s with
  | FromFlag => "flag"
  | PortlProxyEnv => PORTL_PROXY_ENV
  | ConfigFile => "portl.toml"
  | FromEnv name => name
  | FromDefault => "default"
  end.

Definition is_explicit (s : ProxySource) : bool :=
  match s with FromFlag | PortlProxyEnv | ConfigFile => true | _ => false end.

Inductive ProxyRoute :=
  | RouteDirect
  | RouteAll (u : Url)
  | RouteEnv (https http : option Url) (no_proxy : option string).

Record ProxyConfig := { px_source : ProxySource; px_route : ProxyRoute; px_warnings : list string }.

Definition px_direct : ProxyConfig := {| px_source := FromDefault; px_route := RouteDirect; px_warnings := [] |}.

Definition not_blank (v : option string) : option string :=
  s ← v; if bool_decide (trim s = "") then None else Some s.

Definition push_new (l : list string) (w : string) : list string := if bool_decide (w ∈ l) then l else l ++ [w].

Fixpoint first_valid_env (env : string → option string) (names : list string) (warnings : list string) :
    option (string * Url) * list string :=
  match names with
  | [] => (None, warnings)
  | name :: names' =>
      match not_blank (env name) with
      | None => first_valid_env env names' warnings
      | Some value =>
          match proxy_parse value with
          | Ok url => (Some (name, url), warnings)
          | Err err => first_valid_env env names' (push_new warnings ("ignoring " +:+ name +:+ ": " +:+ err))
          end
      end
  end.

(** [find_map] over the names *)
Fixpoint first_set (env : string → option string) (names : list string) : option string :=
  match names with
  | [] => None
  | name :: names' => match env name with Some v => Some v | None => first_set env names' end
  end.

Definition route_proxies (r : ProxyRoute) : list Url :=
  match r with
  | RouteDirect => []
  | RouteAll u => [u]
  | RouteEnv https http _ => option_list https ++ option_list http
  end.

Definition explicit_choice (flag : option ProxySetting) (file : option string) (env : string → option string) :
    result Chain (option (ProxySetting * ProxySource)) :=
  match flag with
  | Some setting => Ok (Some (setting, FromFlag))
  | None =>
      match not_blank (env PORTL_PROXY_ENV) with
      | Some value =>
          s ← with_context "invalid PORTL_PROXY" (map_err (λ e, [e]) (setting_from_str value)); Ok (Some (s, PortlProxyEnv))
      | None =>
          match file with
          | Some value =>
              s ← with_context "invalid portl.toml [network] proxy" (map_err (λ e, [e]) (setting_from_str value));
              Ok (Some (s, ConfigFile))
          | None => Ok None
          end
      end
  end.

Definition env_choice (env : string → option string) : ProxySource * ProxyRoute * list string :=
  let '(https, w) := first_valid_env env HTTPS_VARS [] in
  let '(http, w) := first_valid_env env HTTP_VARS w in
  match (match https with Some x => Some x | None => http end) with
  | None => (FromDefault, RouteDirect, w)
  | Some (name, _) => (FromEnv name, RouteEnv (snd <$> https) (snd <$> http) (not_blank (first_set env NO_PROXY_VARS)), w)
  end.

Definition resolve (flag : option ProxySetting) (file : option string) (env : string → option string) :
    result Chain ProxyConfig :=
  explicit ← explicit_choice flag file env;
  let '(source, route, warnings) :=
    match explicit with
    | Some (SetDirect, source) => (source, RouteDirect, [])
    | Some (SetProxy url, source) => (source, RouteAll url, [])
    | None => env_choice env
    end in
  Ok {| px_source := source; px_route := route; px_warnings := foldl push_new warnings (omap relay_auth_caveat (route_proxies route)) |}.

(** ** Destinations *)

Definition no_proxy_matches (list : string) (target : Url) : bool :=
  match host_str target with
  | None => false
  | Some host => default false (no_proxy_excludes list host)
  end.

Definition proxy_for (c : ProxyConfig) (target : Url) : option Url :=
  match px_route c with
  | RouteDirect => None
  | RouteAll url => Some url
  | RouteEnv https http no_proxy =>
      if match no_proxy with Some l => no_proxy_matches l target | None => false end then None
      else if bool_decide (url_scheme target ∈ ["https"; "wss"]) then https
      else if bool_decide (url_scheme target ∈ ["http"; "ws"]) then http
      else None
  end.

Definition relay_proxy (c : ProxyConfig) (relays : list Url) : option Url := head relays ≫= proxy_for c.

Definition has_proxy (c : ProxyConfig) : bool := negb (bool_decide (length (route_proxies (px_route c)) = 0%nat)).

Definition describe (c : ProxyConfig) : string :=
  match px_route c with
  | RouteDirect =>
      match px_source c with
      | FromDefault => "direct (no proxy configured)"
      | s => "direct (forced by " +:+ source_text s +:+ ")"
      end
  | RouteAll url => display url +:+ " (from " +:+ source_text (px_source c) +:+ ")"
  | RouteEnv https http no_proxy =>
      default "direct" (display <$> (match https with Some u => Some u | None => http end)) +:+ " (from "
        +:+ source_text (px_source c) +:+ (if is_some no_proxy then ", NO_PROXY applies" else "") +:+ ")"
  end.

(** ** The process *)

(** The value of an environment variable. *)
Inductive OsString := Utf8 (s : string) | NotUtf8 (b : bytes).

(** [original]: [ORIGINAL_ENV]; [process]: [PROCESS]. *)
Record Proc := {
  env : gmap string OsString;
  original : option (list (string * option OsString));
  process : option ProxyConfig;
}.

Definition env_var (e : gmap string OsString) (name : string) : option string :=
  match e !! name with Some (Utf8 s) => Some s | _ => None end.

Definition route_value (r : ProxyRoute) : option string := match r with RouteAll url => Some (as_str url) | _ => None end.

Definition rewrite_var (proxy : option string) (e : gmap string OsString) (name : string) : gmap string OsString :=
  match proxy with
  | Some value => if bool_decide (name ∈ NO_PROXY_VARS) then delete name e else <[name := Utf8 value]> e
  | None => delete name e
  end.

Definition rewritten (proxy : option string) (e : gmap string OsString) : gmap string OsString :=
  <[PORTL_PROXY_ENV := Utf8 (default "direct" proxy)]> (foldl (rewrite_var proxy) e (HTTPS_VARS ++ HTTP_VARS ++ NO_PROXY_VARS)).

Definition rewrite_env (r : ProxyRoute) (p : Proc) : Proc :=
  {| env := rewritten (route_value r) (env p);
     original := match original p with
                 | Some o => Some o
                 | None => Some ((λ name, (name, env p !! name)) <$> MANAGED_VARS)
                 end;
     process := process p |}.

Definition init_process (flag : option ProxySetting) (file : option string) (p : Proc) : result Chain ProxyConfig * Proc :=
  match resolve flag file (env_var (env p)) with
  | Err e => (Err e, p)
  | Ok cfg =>
      let p := if is_explicit (px_source cfg) then rewrite_env (px_route cfg) p else p in
      (Ok cfg, {| env := env p; original := original p; process := Some cfg |})
  end.

Definition current (p : Proc) : ProxyConfig * Proc :=
  match process p with
  | Some cfg => (cfg, p)
  | None =>
      let cfg := match resolve None None (env_var (env p)) with Ok cfg => cfg | Err _ => px_direct end in
      (cfg, {| env := env p; original := original p; process := Some cfg |})
  end.

Definition as_utf8 (v : OsString) : option string := match v with Utf8 s => Some s | NotUtf8 _ => None end.

(** [std::env::vars] panics on a value that is not UTF-8. *)
Definition env_vars (e : gmap string OsString) : option (list (string * string)) :=
  mapM (λ kv : string * OsString, s ← as_utf8 kv.2; Some (kv.1, s)) (map_to_list e).

Definition child_env_vars (p : Proc) : option (list (string * string)) :=
  vars ← env_vars (env p);
  match original p with
  | None => Some vars
  | Some o =>
      Some (List.filter (λ kv, negb (bool_decide (kv.1 ∈ MANAGED_VARS))) vars
            ++ omap (λ kv : string * option OsString, v ← kv.2; s ← as_utf8 v; Some (kv.1, s)) o)
  end.

(** ** The tunnel *)

Definition CRLF : string := str_of_bytes [13; 10].

Definition connect_request (proxy : Url) (authority : string) : string :=
  let request := "CONNECT " +:+ authority +:+ " HTTP/1.1" +:+ CRLF +:+ "Host: " +:+ authority +:+ CRLF in
  let request := match credentials proxy with
                 | Some (user, pw) =>
                     request +:+ "Proxy-Authorization: Basic " +:+ base64_standard (str_bytes (user +:+ ":" +:+ pw)) +:+ CRLF
                 | None => request
                 end in
  request +:+ CRLF.

Definition head_ended (head : bytes) : bool := bool_decide (take 4 (reverse head) = [10; 13; 10; 13]).

(** The response up to the blank line, byte by byte. *)
Fixpoint read_head (proxy : Url) (hd : bytes) (l : bytes) : result string (bytes * bytes) :=
  if head_ended hd then Ok (hd, l)
  else if 8192 <=? Z.of_nat (length hd) then Err "proxy CONNECT response header too large"
  else match l with
       | [] => Err ("proxy " +:+ display proxy +:+ " closed the connection during CONNECT")
       | b :: l' => read_head proxy (hd ++ [b]) l'
       end.

Definition status_line (hd : bytes) : string := default "" (head (Rev.str_lines (lossy_string hd))).

Definition status_ok (hd : bytes) : bool :=
  match split_whitespace (status_line hd) !! 1%nat with Some code => starts_with "2" code | None => false end.

(** [connect] answers the connection to the proxy, [l] is what the proxy sends; the result is what
    is left of it for the tunnel. *)
Definition connect_tunnel (connect : string → Z → result string unit) (proxy : Url) (host : string) (port : Z) (l : bytes) :
    result string (string * bytes) :=
  proxy_host ← ok_or (connect_host proxy) "proxy URL has no host";
  connect proxy_host (default 80 (port_or_known_default proxy));;
  let authority := host +:+ ":" +:+ dec port in
  '(hd, rest) ← read_head proxy [] l;
  ensure (status_ok hd) ("proxy " +:+ display proxy +:+ " refused CONNECT " +:+ authority +:+ ": " +:+ status_line hd);;
  Ok (connect_request proxy authority, rest).

End proxy.

(** ** Proofs *)

Section proofs.
Context `{U : UrlCrate}.

(** *** The environment after a choice *)

Lemma rewrite_var_lookup proxy e name x :
  rewrite_var proxy e name !! x =
    if decide (x = name) then
      match proxy with Some v => if bool_decide (name ∈ NO_PROXY_VARS) then None else Some (Utf8 v) | None => None end
    else e !! x.
Proof.
  unfold rewrite_var. destruct proxy as [v|]; [destruct (bool_decide (name ∈ NO_PROXY_VARS)) |];
    (case_decide as Hx; [subst; by simplify_map_eq | by simplify_map_eq]).
Qed.

Lemma rewrite_vars_lookup proxy names e x :
  foldl (rewrite_var proxy) e names !! x =
    if decide (x ∈ names) then
      match proxy with Some v => if bool_decide (x ∈ NO_PROXY_VARS) then None else Some (Utf8 v) | None => None end
    else e !! x.
Proof.
  revert e. induction names as [|n names IH]; intros e; cbn [foldl]; [by rewrite decide_False by (apply not_elem_of_nil) |].
  rewrite IH, rewrite_var_lookup. destruct (decide (x ∈ names)) as [Hin|Hin].
  - rewrite decide_True by set_solver. done.
  - destruct (decide (x = n)) as [-> | Hne]; [by rewrite decide_True by set_solver |]. rewrite decide_False by set_solver. done.
Qed.

(** Only the managed variables change. *)
Lemma rewritten_lookup proxy e x :
  rewritten proxy e !! x =
    if decide (x = PORTL_PROXY_ENV) then Some (Utf8 (default "direct" proxy))
    else if decide (x ∈ MANAGED_VARS) then
      match proxy with Some v => if bool_decide (x ∈ NO_PROXY_VARS) then None else Some (Utf8 v) | None => None end
    else e !! x.
Proof.
  unfold rewritten. destruct (decide (x = PORTL_PROXY_ENV)) as [-> | Hne]; [by simplify_map_eq |].
  rewrite lookup_insert_ne, rewrite_vars_lookup by congruence.
  assert (Hiff : x ∈ HTTPS_VARS ++ HTTP_VARS ++ NO_PROXY_VARS ↔ x ∈ MANAGED_VARS).
  { unfold MANAGED_VARS, HTTPS_VARS, HTTP_VARS, NO_PROXY_VARS in *. set_solver. }
  by destruct (decide (x ∈ HTTPS_VARS ++ HTTP_VARS ++ NO_PROXY_VARS)), (decide (x ∈ MANAGED_VARS)); try (exfalso; tauto).
Qed.

(** A process after some calls of [init_process], from the environment [e0]. *)
Inductive started (e0 : gmap string OsString) : Proc → Prop :=
  | started_new : started e0 {| env := e0; original := None; process := None |}
  | started_init p flag file r p' : started e0 p → init_process flag file p = (r, p') → started e0 p'.

(** What the calls keep of the environment. *)
Record kept (e0 : gmap string OsString) (p : Proc) : Prop := {
  k_other x : x ∉ MANAGED_VARS → env p !! x = e0 !! x;
  k_original : match original p with
               | None => env p = e0
               | Some o => o = (λ name, (name, e0 !! name)) <$> MANAGED_VARS ∧
                           ∀ x v, x ∈ MANAGED_VARS → env p !! x = Some v → is_Some (as_utf8 v)
               end;
}.

Lemma kept_rewrite e0 p r : kept e0 p → kept e0 (rewrite_env r p).
Proof.
  intros [Ho Hor]. split; cbn [env original rewrite_env].
  - intros x Hx. rewrite rewritten_lookup, !decide_False by (try done; intros ->; apply Hx; unfold MANAGED_VARS; set_solver).
    by apply Ho.
  - assert (Hu : ∀ x v, x ∈ MANAGED_VARS → rewritten (route_value r) (env p) !! x = Some v → is_Some (as_utf8 v)).
    { intros x v Hx. rewrite rewritten_lookup. destruct (decide (x = PORTL_PROXY_ENV)); [by intros [= <-] |].
      rewrite decide_True by done. destruct (route_value r); [destruct (bool_decide (x ∈ NO_PROXY_VARS)) |]; try done.
      by intros [= <-]. }
    destruct (original p) as [o|]; [destruct Hor as [-> _]; by split |]. split; [by rewrite Hor | exact Hu].
Qed.

Lemma kept_started e0 p : started e0 p → kept e0 p.
Proof.
  induction 1 as [|p flag file r p' _ IH Hi]; [by split |]. unfold init_process in Hi.
  destruct (resolve flag file (env_var (env p))) as [cfg|e]; [| by injection Hi as _ <-].
  injection Hi as _ <-. destruct (is_explicit (px_source cfg)); [| by destruct IH; split].
  by destruct (kept_rewrite e0 p (px_route cfg) IH); split.
Qed.

Lemma env_vars_Some e : (∀ x v, e !! x = Some v → is_Some (as_utf8 v)) →
  ∃ l, env_vars e = Some l ∧ ∀ x s, (x, s) ∈ l ↔ e !! x = Some (Utf8 s).
Proof.
  intros Hall. unfold env_vars.
  assert (Hm : ∀ l : list (string * OsString), (∀ x v, (x, v) ∈ l → is_Some (as_utf8 v)) →
    ∃ k, mapM (λ kv : string * OsString, s ← as_utf8 kv.2; Some (kv.1, s)) l = Some k ∧ ∀ x s, (x, s) ∈ k ↔ (x, Utf8 s) ∈ l).
  { induction l as [|[x [v|b]] l IH]; intros Hl.
    - exists []. split; [done |]. intros. by rewrite !elem_of_nil.
    - destruct IH as (k & Hk & Hin); [intros y w Hy; eapply Hl; by right |]. exists ((x, v) :: k). cbn. rewrite Hk. split; [done |].
      intros y s. rewrite !elem_of_cons, Hin. naive_solver.
    - destruct (Hl x (NotUtf8 b)) as [? [=]]. by left. }
  destruct (Hm (map_to_list e)) as (k & Hk & Hin); [intros x v Hx%elem_of_map_to_list; by eapply Hall |].
  exists k. split; [done |]. intros x s. rewrite Hin. apply elem_of_map_to_list.
Qed.

(** What is passed on to the processes of users is the environment the process was started
    with: the choice of a proxy, however often it was made, shows in no variable. *)
Theorem child_env_restored e0 p :
  started e0 p → (∀ x v, x ∉ MANAGED_VARS → e0 !! x = Some v → is_Some (as_utf8 v)) → (is_Some (original p) ∨ ∀ x v, e0 !! x = Some v → is_Some (as_utf8 v)) →
  ∃ l, child_env_vars p = Some l ∧ ∀ x s, (x, s) ∈ l ↔ e0 !! x = Some (Utf8 s).
Proof.
  intros [Ho Hor]%kept_started Hutf Hall. unfold child_env_vars. destruct (original p) as [o|].
  - destruct Hor as [-> Hman]. destruct (env_vars_Some (env p)) as (l & -> & Hin).
    { intros x v Hx. destruct (decide (x ∈ MANAGED_VARS)); [eauto |]. rewrite Ho in Hx; eauto. }
    eexists. split; [done |]. intros x s.
    rewrite elem_of_app, (list_elem_of_In (List.filter _ _)), filter_In, <- list_elem_of_In, negb_true_iff, bool_decide_eq_false,
      Hin, list_elem_of_omap. cbn [fst]. setoid_rewrite list_elem_of_fmap. split.
    + intros [[Hx Hn]|(kv & (name & -> & Hname) & Hkv)]; [by rewrite <- Ho |]. cbn [fst snd] in Hkv.
      destruct (e0 !! name) as [[w|w]|] eqn:He; [| done | done]. by injection Hkv as -> ->.
    + intros Hx. destruct (decide (x ∈ MANAGED_VARS)) as [Hm|Hm]; [right | left; by rewrite Ho].
      exists (x, e0 !! x). split; [by exists x |]. cbn. by rewrite Hx.
  - subst. destruct Hall as [[? [=]]|Hall]. destruct (env_vars_Some (env p)) as (l & -> & Hin); eauto.
Qed.

(** A variable that is not UTF-8 makes it panic. *)
Lemma env_vars_None e x b : e !! x = Some (NotUtf8 b) → env_vars e = None.
Proof.
  intros He. unfold env_vars. destruct (mapM _ _) as [l|] eqn:Hm; [| done]. apply mapM_Some in Hm.
  assert (Hin : (x, NotUtf8 b) ∈ map_to_list e) by (by apply elem_of_map_to_list).
  apply list_elem_of_lookup in Hin as [i Hi]. destruct (Forall2_lookup_l _ _ _ _ _ Hm Hi) as (y & _ & [=]).
Qed.

(** One variable of the environment that is not UTF-8 is enough to make the passing on of the
    environment panic, whatever choices were made, unless it is a proxy variable that an explicit
    choice has replaced. *)
Theorem child_env_panics e0 p x b :
  started e0 p → x ∉ MANAGED_VARS → e0 !! x = Some (NotUtf8 b) → child_env_vars p = None.
Proof.
  intros [Ho _]%kept_started Hx He. unfold child_env_vars. by rewrite (env_vars_None (env p) x b) by (by rewrite Ho).
Qed.

(** *** The choice of a child process *)

Definition proxy_valid (u : Url) : Prop := url_scheme u = "http" ∧ host_missing u = false.

Definition route_of (s : ProxySetting) : ProxyRoute := match s with SetDirect => RouteDirect | SetProxy u => RouteAll u end.

Lemma proxy_parse_valid v u : proxy_parse v = Ok u → proxy_valid u.
Proof.
  unfold proxy_parse, proxy_valid. intros Hp. inv_result. subst.
  destruct (bool_decide (url_scheme u = "http")) eqn:Hs; [apply bool_decide_eq_true in Hs | by repeat case_bool_decide].
  by destruct (host_missing u).
Qed.

Lemma setting_valid v u : setting_from_str v = Ok (SetProxy u) → proxy_valid u.
Proof.
  unfold setting_from_str. destruct (bool_decide (str_to_ascii_lowercase (trim v) = "")); [done |].
  destruct (_ || _); [done |]. intros Hp. inv_result. simplify_eq. by eapply proxy_parse_valid.
Qed.

(** An explicit choice has a valid setting. *)
Lemma explicit_valid flag file env cfg :
  resolve flag file env = Ok cfg → is_explicit (px_source cfg) = true → (∀ u, flag = Some (SetProxy u) → proxy_valid u) →
  ∃ s, px_route cfg = route_of s ∧ ∀ u, s = SetProxy u → proxy_valid u.
Proof.
  unfold resolve. intros Hr He Hf. apply bind_Ok in Hr as (ex & Hex & Hr). destruct ex as [[s src]|].
  - exists s. split; [destruct s; by injection Hr as <- |]. intros u ->. unfold explicit_choice in Hex.
    destruct flag as [fs|]; [injection Hex as -> _; auto |].
    destruct (not_blank (env PORTL_PROXY_ENV)) as [v|]; [| destruct file as [v|]; [| done]];
      unfold with_context in Hex; inv_result; simplify_eq; by eapply setting_valid.
  - unfold env_choice in Hr. destruct (first_valid_env env HTTPS_VARS []) as [https w1].
    destruct (first_valid_env env HTTP_VARS w1) as [http w2]. destruct https as [[]|]; [| destruct http as [[]|]];
      injection Hr as <-; done.
Qed.

Lemma setting_roundtrip `{!UrlLaws U} u : proxy_valid u → setting_from_str (as_str u) = Ok (SetProxy u) ∧ trim (as_str u) ≠ "".
Proof.
  intros [Hs Hh]. pose proof (as_str_scheme u Hs) as [r Hr]%starts_with_spec. split; [| rewrite as_str_trim, Hr; done].
  unfold setting_from_str, proxy_parse. rewrite as_str_trim.
  assert (Hlow : ∃ t, str_to_ascii_lowercase (as_str u) = String (Ascii.ascii_of_N 104) t) by (rewrite Hr; by eexists).
  destruct Hlow as [t ->]. rewrite !bool_decide_eq_false_2 by done. cbn [orb].
  assert (Hc : contains_str "://" (as_str u) = true) by (rewrite Hr; unfold contains_str; by rewrite str_bytes_app).
  rewrite Hc, parse_as_str. cbn [map_err mbind result_bind]. rewrite bool_decide_eq_true_2 by done. cbn [mbind result_bind].
  by rewrite Hh.
Qed.

(** A choice made by a flag, [PORTL_PROXY] or the configuration reaches the processes that portl
    starts of itself: with the environment it leaves, and whatever their configuration, they decide
    the same for every destination. *)
Theorem children_agree `{!UrlLaws U} flag file p cfg p' file' :
  init_process flag file p = (Ok cfg, p') → is_explicit (px_source cfg) = true → (∀ u, flag = Some (SetProxy u) → proxy_valid u) →
  ∃ cfg', resolve None file' (env_var (env p')) = Ok cfg' ∧ px_source cfg' = PortlProxyEnv ∧ ∀ t, proxy_for cfg' t = proxy_for cfg t.
Proof.
  unfold init_process. destruct (resolve flag file (env_var (env p))) as [c|e] eqn:Hr; [| done]. intros [= -> <-] He Hf.
  destruct (explicit_valid _ _ _ _ Hr He Hf) as (s & Hroute & Hv). rewrite He. cbn [env rewrite_env].
  assert (Henv : env_var (rewritten (route_value (px_route cfg)) (env p)) PORTL_PROXY_ENV = Some (default "direct" (route_value (px_route cfg)))).
  { unfold env_var. by rewrite rewritten_lookup, decide_True. }
  assert (Hset : not_blank (Some (default "direct" (route_value (px_route cfg)))) = Some (default "direct" (route_value (px_route cfg))) ∧
                 setting_from_str (default "direct" (route_value (px_route cfg))) = Ok s).
  { rewrite Hroute. destruct s as [|u]; cbn [route_of route_value default from_option id]; [done |].
    destruct (setting_roundtrip u (Hv u eq_refl)) as [-> Ht]. cbn. by rewrite bool_decide_eq_false_2. }
  destruct Hset as [Hnb Hset]. unfold resolve, explicit_choice. rewrite Henv, Hnb, Hset. cbn [map_err with_context mbind result_bind].
  destruct s; (eexists; split; [done |]); (split; [done |]); intros t; unfold proxy_for; by rewrite Hroute.
Qed.

(** *** The tunnel *)

Lemma read_head_Ok proxy hd l hd' rest : read_head proxy hd l = Ok (hd', rest) ↔
  ∃ x, hd' = hd ++ x ∧ l = x ++ rest ∧ head_ended hd' = true ∧
    (∀ y z, x = y ++ z → z ≠ [] → head_ended (hd ++ y) = false ∧ Z.of_nat (length (hd ++ y)) < 8192).
Proof.
  revert hd. induction l as [|b l IH]; intros hd; cbn [read_head]; destruct (head_ended hd) eqn:Hh.
  - split.
    + intros [= <- <-]. exists []. rewrite app_nil_r. split_and!; try done. intros y z Hyz. by destruct y, z.
    + intros (x & -> & Hl & He & Hmin). destruct x; [| done]. rewrite app_nil_r. cbn in Hl. by subst.
  - split; [by case_match |]. intros (x & -> & Hl & He & _). destruct x; [| done]. rewrite app_nil_r in He. congruence.
  - split.
    + intros [= <- <-]. exists []. rewrite app_nil_r. split_and!; try done. intros y z Hyz. by destruct y, z.
    + intros (x & -> & Hl & He & Hmin). destruct x as [|c x]; [rewrite app_nil_r; cbn in Hl; by subst |].
      destruct (Hmin [] (c :: x)) as [Hn _]; [done | done |]. rewrite app_nil_r in Hn. congruence.
  - destruct (8192 <=? Z.of_nat (length hd)) eqn:Hlen.
    + split; [done |]. intros (x & -> & Hl & He & Hmin). destruct x as [|c x]; [rewrite app_nil_r in He; congruence |].
      destruct (Hmin [] (c :: x)) as [_ Hn]; [done | done |]. rewrite app_nil_r in Hn. lia.
    + rewrite IH. split.
      * intros (x & -> & -> & He & Hmin). exists (b :: x). rewrite <- app_assoc in *. split_and!; try done.
        intros [|c y] z Hyz Hz; [rewrite app_nil_r; split; [done | lia] |]. injection Hyz as <- ->.
        specialize (Hmin y z eq_refl Hz). by rewrite <- !app_assoc in Hmin.
      * intros (x & -> & Hl & He & Hmin). destruct x as [|c x]; [rewrite app_nil_r in He; congruence |].
        injection Hl as <- ->. exists x. rewrite <- app_assoc. split_and!; try done.
        intros y z -> Hz. rewrite <- !app_assoc. by apply (Hmin (b :: y) z).
Qed.

(** The response head is what comes before and with the first blank line. *)
Definition response_head (hd : bytes) : Prop :=
  head_ended hd = true ∧ ∀ y z, hd = y ++ z → z ≠ [] → head_ended y = false ∧ Z.of_nat (length y) < 8192.

(** A tunnel is opened exactly when the proxy could be reached and answered with a response head
    of at most 8192 bytes and a status of the 2xx class; every byte after the head is left to the
    tunnel and none of the head is. *)
Theorem tunnel_exact connect proxy host port l req rest :
  connect_tunnel connect proxy host port l = Ok (req, rest) ↔
  req = connect_request proxy (host +:+ ":" +:+ dec port) ∧
  (∃ h, connect_host proxy = Some h ∧ connect h (default 80 (port_or_known_default proxy)) = Ok tt) ∧
  ∃ hd, l = hd ++ rest ∧ response_head hd ∧ status_ok hd = true.
Proof.
  unfold connect_tunnel, response_head. split.
  - intros Ht. apply bind_Ok in Ht as (h & Hh%ok_or_Ok & Ht). apply bind_Ok in Ht as ([] & Hc & Ht).
    apply bind_Ok in Ht as ([hd r] & Hr & Ht). apply bind_Ok in Ht as ([] & Hs%ensure_Ok & [= <- <-]).
    apply read_head_Ok in Hr as (x & -> & -> & He & Hmin). split; [done |]. split; [by exists h |]. by exists x.
  - intros (-> & (h & -> & Hc) & hd & -> & [He Hmin] & Hs). cbn [ok_or mbind result_bind]. rewrite Hc. cbn [mbind result_bind].
    assert (read_head proxy [] (hd ++ rest) = Ok (hd, rest)) as -> by (apply read_head_Ok; by exists hd).
    cbn [mbind result_bind]. by rewrite Hs.
Qed.

End proofs.

(** ** Examples *)

Module Demo.

(** One URL. *)
#[export] Instance one_url : UrlCrate := {|
  Url := unit;
  url_parse := λ s, if decide (s = "http://p:1/") then Ok tt else Err "relative URL without a base";
  url_scheme := λ _, "http"; host_str := λ _, Some "p"; username := λ _, ""; password := λ _, None; as_str := λ _, "http://p:1/";
  connect_host := λ _, Some "p"; port_or_known_default := λ _, Some 1; percent_decode := λ s, s; base64_standard := λ _, "";
  base64_url_safe := λ _, ""; no_proxy_excludes := λ _ _, Some false |}.
#[export] Instance one_url_laws : UrlLaws one_url.
Proof. split; [intros []; reflexivity | reflexivity | reflexivity]. Qed.

Definition the_url : @Url one_url := tt.

Definition demo_env : gmap string OsString := {["HOME" := Utf8 "/home/me"]}.
Definition fresh_proc (e : gmap string OsString) : Proc := {| env := e; original := None; process := None |}.
Definition demo_cfg : ProxyConfig := {| px_source := FromFlag; px_route := RouteAll the_url; px_warnings := [] |}.
Definition after_flag (e : gmap string OsString) : Proc :=
  {| env := rewritten (Some "http://p:1/") e; original := Some ((λ name, (name, e !! name)) <$> MANAGED_VARS); process := Some demo_cfg |}.

Lemma flag_chosen e : init_process (Some (SetProxy the_url)) None (fresh_proc e) = (Ok demo_cfg, after_flag e).
Proof. reflexivity. Qed.

Lemma after_flag_started e : started e (after_flag e).
Proof. eapply started_init; [apply started_new | apply flag_chosen]. Qed.

Lemma demo_env_utf8 x v : demo_env !! x = Some v → is_Some (as_utf8 v).
Proof. unfold demo_env. by intros [_ <-]%lookup_singleton_Some. Qed.

Lemma child_env_restored_witness :
  ∃ l, child_env_vars (after_flag demo_env) = Some l ∧ ∀ x s, (x, s) ∈ l ↔ demo_env !! x = Some (Utf8 s).
Proof.
  apply (child_env_restored demo_env (after_flag demo_env) (after_flag_started demo_env)).
  - intros x v _. apply demo_env_utf8.
  - right. exact demo_env_utf8.
Defined.

Definition odd_env : gmap string OsString := {["HOME" := NotUtf8 [255]]}.

Lemma home_not_managed : "HOME" ∉ MANAGED_VARS.
Proof. apply (bool_decide_unpack _). by vm_compute. Qed.

Lemma child_env_panics_witness : child_env_vars (after_flag odd_env) = None.
Proof.
  apply (child_env_panics odd_env (after_flag odd_env) "HOME" [255] (after_flag_started odd_env) home_not_managed).
  apply lookup_singleton_eq.
Defined.

Lemma children_agree_witness :
  ∃ cfg', resolve None None (env_var (env (after_flag demo_env))) = Ok cfg' ∧ px_source cfg' = PortlProxyEnv ∧ ∀ t, proxy_for cfg' t = proxy_for demo_cfg t.
Proof.
  apply (children_agree (Some (SetProxy the_url)) None (fresh_proc demo_env) demo_cfg (after_flag demo_env) None).
  - exact (flag_chosen demo_env).
  - reflexivity.
  - intros u _. split; reflexivity.
Defined.

End Demo.
