(* ===== verification/SessionHandler.v ===== *)
(** * The session handler

    crates/portl-agent/src/session_handler/mod.rs: the requests on a stream of the session
    protocol (providers, list, run, history, kill, attach), the choice of a provider, and
    the registries of attached sessions; and the attach and the substreams of
    session_handler/herdr.rs.  The handlers are in the monad of [Providers], with the
    effects of a session as its events.

    The built-in provider (session_handler/ghostty.rs) is a record of operations; a build
    without it has none.  Starting a process, sending an acknowledgement, the user
    database and waiting for the client to close its stream are calls on the host. *)

From stdpp Require Import pretty.
From S2P Require Import Prelude Bytes Schema Canonical Sample Codec Caps Enforce Chain Revocations Pipeline UnixFs Streams Tmux Providers.

(** ** Messages: wire/session.rs *)

Record AttachV2Config := { prelude_max_wait_ms : Z; prelude_max_bytes : Z }.

Definition default_attach_v2 : AttachV2Config := {| prelude_max_wait_ms := 200; prelude_max_bytes := 512 * 1024 |}.

Record SessionReqBody := {
  rb_op : SessionOp;
  rb_provider : option string;
  rb_session_name : option string;
  rb_user : option string;
  rb_cwd : option string;
  rb_argv : option (list string);
  rb_pty : option PtyCfg;
  rb_attach_v2 : option AttachV2Config;
}.

(** [SessionReq]: the body with the preamble of the stream *)
Record SessionReq := { sq_preamble : StreamPreamble; sq_body : SessionReqBody }.

Inductive SessionReason :=
  | CapDenied
  | ProviderNotFound (provider : string)
  | ProviderUnavailable (provider : string)
  | CapabilityUnsupported (provider capability : string)
  | MissingSessionName
  | MissingArgv
  | SessionNotFound (name : string)
  | SessionAmbiguous (name : string) (providers : list string)
  | SpawnFailed (msg : string)
  | InternalError (msg : string).

Record SessionProviderSessions := {
  g_provider : string; g_available : bool; g_default : bool; g_sessions : list SessionInfo;
}.
Record SessionEntry := { e_provider : string; e_name : string }.

Record SessionAck := {
  sa_ok : bool;
  sa_reason : option SessionReason;
  sa_session_id : option bytes;
  sa_provider : option string;
  sa_providers : option ProviderReport;
  sa_sessions : option (list string);
  sa_session_entries : option (list SessionEntry);
  sa_session_groups : option (list SessionProviderSessions);
  sa_run : option SessionRunResult;
  sa_output : option string;
}.

Inductive SessionStreamKind :=
  | Stdin | Stdout | Stderr | Signal | Resize | Exit | Control
  | AttachV2Input | AttachV2Resize | AttachV2Viewport | AttachV2Live | AttachV2History
  | HerdrClientControl | HerdrClientInput | HerdrClientResize | HerdrClientBulk
  | HerdrServerControl | HerdrServerRender | HerdrServerBulk.

Record SessionSubTail := { st_session_id : bytes; st_kind : SessionStreamKind }.
Inductive SessionFirstFrame := ControlFrame (req_body : SessionReqBody) | SubFrame (tail : SessionSubTail).

(** target_context.rs; the variables are a sorted map there *)
Record TargetProcessContext := { ctx_cwd : option string; ctx_env : list (string * string) }.

(** ** Effects *)

(** [AgentState]: [shell_registry], [herdr_attach_registry], [ghostty_attach_v2_registry] *)
Inductive RegistryName := ShellRegistry | HerdrAttachRegistry | GhosttyAttachV2Registry.

#[export] Instance RegistryName_eq_dec : EqDecision RegistryName.
Proof. solve_decision. Defined.
#[export] Instance RegistryName_countable : Countable RegistryName.
Proof.
  refine (inj_countable'
    (λ r, match r with ShellRegistry => 0 | HerdrAttachRegistry => 1 | GhosttyAttachV2Registry => 2 end)%nat
    (λ n, match n with 0 => ShellRegistry | 1 => HerdrAttachRegistry | _ => GhosttyAttachV2Registry end)%nat _).
  by intros [].
Defined.

Inductive SessionEvent :=
  | RunCommand (c : Cmd)
  | SpawnShell (req : ShellReq) (user : RequestedUser)
  | SpawnChild (c : Cmd)
  | SpawnTmux (spawn : TmuxSpawnConfig) (pty : PtyCfg) (stdout stderr : option bytes)
  | GhosttyList
  | GhosttyRun (session : string) (cwd : option string) (argv : list string)
  | GhosttyHistory (session : string)
  | GhosttyKill (session : string)
  | GhosttyAttach (session : string) (cwd : option string) (pty : option PtyCfg) (argv : option (list string))
      (env : list (string * string))
  | GhosttyAttachV2 (session : string) (cwd : option string) (pty : option PtyCfg) (argv : option (list string))
      (env : list (string * string)) (config : AttachV2Config)
  | Audit (event : string) (provider session : option string) (user cwd : option string) (argv : option (list string))
  | AuditReject (op reason : string)
  | WriteAck (ack : SessionAck)
  | Register (r : RegistryName) (session_id : bytes)
  | Deregister (r : RegistryName) (session_id : bytes)
  | Pump (r : RegistryName) (session_id : bytes) (kind : SessionStreamKind).

(** The operations of the built-in provider. *)
Record GhosttyOps (W : Type) := {
  helper_exe : string;
  ghostty_features : list string;
  ghostty_list : W → result string (list SessionInfo) * W;
  ghostty_run : string → option string → list string → W → result string SessionRunResult * W;
  ghostty_history : string → W → result string string * W;
  ghostty_kill : string → W → result string unit * W;
  ghostty_attach : string → option string → option PtyCfg → option (list string) → list (string * string) → W →
    result string unit * W;
  ghostty_attach_v2 : string → option string → option PtyCfg → option (list string) → list (string * string) →
    AttachV2Config → W → result string unit * W;
}.
Arguments helper_exe {W}. Arguments ghostty_features {W}. Arguments ghostty_list {W}. Arguments ghostty_run {W}.
Arguments ghostty_history {W}. Arguments ghostty_kill {W}. Arguments ghostty_attach {W}. Arguments ghostty_attach_v2 {W}.

(** [draw_id] is the random generator, [await_close] reading the control stream until it
    ends, [debug_reason] the [Debug] text of a reason. *)
Class SessionHost (W : Type) := {
  host :: Host W;
  ghostty : option (GhosttyOps W);
  euid_home : option string;
  session_provider_path : option string;
  resolve_user : option string → W → result SpawnReject RequestedUser;
  spawn_process : ShellReq → RequestedUser → W → result SpawnReject unit * W;
  spawn_child : Cmd → W → result string unit * W;
  spawn_pty : TmuxSpawnConfig → PtyCfg → W → result string unit * W;
  draw_id : W → bytes * W;
  send_ack : SessionAck → W → result string unit * W;
  await_close : W → result string unit * W;
  debug_reason : ShellReason → string;
}.

Inductive SelectedProvider (W : Type) := SGhostty (g : GhosttyOps W) | SHerdr | SZmx | STmux | SRaw.
Arguments SGhostty {W}. Arguments SHerdr {W}. Arguments SZmx {W}. Arguments STmux {W}. Arguments SRaw {W}.

(** ** Acknowledgements *)

Definition reject (reason : SessionReason) : SessionAck :=
  {| sa_ok := false; sa_reason := Some reason; sa_session_id := None; sa_provider := None; sa_providers := None;
     sa_sessions := None; sa_session_entries := None; sa_session_groups := None; sa_run := None; sa_output := None |}.

Definition ok_ack (session_id : option bytes) (provider : option string) (providers : option ProviderReport) : SessionAck :=
  {| sa_ok := true; sa_reason := None; sa_session_id := session_id; sa_provider := provider; sa_providers := providers;
     sa_sessions := None; sa_session_entries := None; sa_session_groups := None; sa_run := None; sa_output := None |}.

Definition ok_empty (provider : string) : SessionAck := ok_ack None (Some provider) None.

Definition session_groups_to_entries (groups : list SessionProviderSessions) : list SessionEntry :=
  g ← groups; s ← g_sessions g; [{| e_provider := g_provider g; e_name := si_name s |}].

Definition ok_with_session_groups (provider : string) (sessions : list string) (groups : list SessionProviderSessions) : SessionAck :=
  {| sa_ok := true; sa_reason := None; sa_session_id := None; sa_provider := Some provider; sa_providers := None;
     sa_sessions := Some sessions; sa_session_entries := Some (session_groups_to_entries groups);
     sa_session_groups := Some groups; sa_run := None; sa_output := None |}.

Definition ok_with_run (provider : string) (run : SessionRunResult) : SessionAck :=
  {| sa_ok := true; sa_reason := None; sa_session_id := None; sa_provider := Some provider; sa_providers := None;
     sa_sessions := None; sa_session_entries := None; sa_session_groups := None; sa_run := Some run; sa_output := None |}.

Definition ok_with_output (provider : string) (output : string) : SessionAck :=
  {| sa_ok := true; sa_reason := None; sa_session_id := None; sa_provider := Some provider; sa_providers := None;
     sa_sessions := None; sa_session_entries := None; sa_session_groups := None; sa_run := None; sa_output := Some output |}.

Definition op_name (op : SessionOp) : string :=
  match op with
  | Providers => "providers" | List => "list" | Attach => "attach" | AttachV2 => "attach_v2"
  | Run => "run" | History => "history" | Kill => "kill"
  end.

Definition session_reason_metric (r : SessionReason) : string :=
  match r with
  | CapDenied => "cap_denied"
  | ProviderNotFound _ => "provider_not_found"
  | ProviderUnavailable _ => "provider_unavailable"
  | CapabilityUnsupported _ _ => "capability_unsupported"
  | MissingSessionName => "missing_session_name"
  | MissingArgv => "missing_argv"
  | SessionNotFound _ => "session_not_found"
  | SessionAmbiguous _ _ => "session_ambiguous"
  | SpawnFailed _ => "spawn_failed"
  | InternalError _ => "internal_error"
  end.

(** ** Permission *)

Definition session_shell_req (se : Session) (req : SessionReqBody) (pty : option PtyCfg) : ShellReq :=
  {| sr_preamble := {| peer_token := se_peer_token se; alpn := ALPN_SHELL_V1 |}; sr_mode := Shell; sr_argv := None;
     sr_env_patch := []; sr_cwd := rb_cwd req; sr_pty := pty; sr_user := rb_user req |}.

Definition session_permits (se : Session) (req : SessionReqBody) : result SessionReason unit :=
  map_err (λ _, CapDenied)
    (shell_permits (se_caps se)
       (session_shell_req se req (Some {| term := "xterm-256color"; cols := 80; rows := 24 |}))).

Definition session_workload_context (se : Session) (req : SessionReqBody) (user : RequestedUser) : TargetProcessContext :=
  let shell_req := session_shell_req se req (rb_pty req) in
  {| ctx_cwd := requested_cwd shell_req (Some user);
     ctx_env := map_to_list (effective_env (shell (se_caps se)) shell_req (Some user)) |}.

(** [path.file_name()] *)
Definition file_name (path : string) : option string :=
  match last (List.filter (λ s, negb (Fs.redundant s)) (str_split 47 path)) with
  | Some seg => if bool_decide (seg = "..") then None else Some seg
  | None => None
  end.

Definition named (name : string) (path : option string) : option string :=
  p ← path; if bool_decide (file_name p = Some name) then Some p else None.

Definition is_herdr_stream_kind (k : SessionStreamKind) : bool :=
  match k with
  | HerdrClientControl | HerdrClientInput | HerdrClientResize | HerdrClientBulk
  | HerdrServerControl | HerdrServerRender | HerdrServerBulk => true
  | _ => false
  end.

Definition is_attach_v2_kind (k : SessionStreamKind) : bool :=
  match k with
  | AttachV2Input | AttachV2Resize | AttachV2Viewport | AttachV2Live | AttachV2History => true
  | _ => false
  end.

Section handler.
Context {W : Type} {SH : SessionHost W} {J : SerdeJson}.

Definition H (A : Type) : Type := Prov W SessionEvent string A.
Definition R (A : Type) : Type := Prov W SessionEvent SessionReason A.

Definition act {A} (e : SessionEvent) (f : W → result string A * W) : H A := λ w, let '(r, w') := f w in (r, [e], w').

Definition write_ack (ack : SessionAck) : H unit := act (WriteAck ack) (send_ack ack).

(** ** Choosing a provider *)

Definition default_target_home : option string :=
  match euid_home with Some d => Some d | None => agent_env "HOME" end.

Definition provider_new (path : option string) : ProviderCfg :=
  {| cfg_path := path; cfg_env := []; target_home := default_target_home |}.

(** The three external providers of a request. *)
Record Cfgs := { c_herdr : ProviderCfg; c_zmx : ProviderCfg; c_tmux : ProviderCfg }.

Definition request_cfgs : Cfgs :=
  {| c_zmx := provider_new session_provider_path;
     c_herdr := provider_new (named "herdr" session_provider_path);
     c_tmux := provider_new (named "tmux" session_provider_path) |}.

Definition provider_name (s : SelectedProvider W) : string :=
  match s with SGhostty _ => "ghostty" | SHerdr => "herdr" | SZmx => "zmx" | STmux => "tmux" | SRaw => "raw" end.

Definition ghostty_status (g : GhosttyOps W) : ProviderStatus :=
  {| ps_name := "ghostty"; available := true; ps_path := Some (helper_exe g);
     notes := Some "built-in libghostty-vt provider"; capabilities := ghostty_caps; tier := Some "native";
     features := ghostty_features g |}.

Definition status (c : Cfgs) (s : SelectedProvider W) : H ProviderStatus :=
  match s with
  | SGhostty g => mret (ghostty_status g)
  | SHerdr => probe RunCommand Herdr (c_herdr c)
  | SZmx => probe RunCommand Zmx (c_zmx c)
  | STmux => probe RunCommand Tmux (c_tmux c)
  | SRaw => mret raw_status
  end.

Definition list_detailed (c : Cfgs) (s : SelectedProvider W) : H (list SessionInfo) :=
  match s with
  | SGhostty g => act GhosttyList (ghostty_list g)
  | SHerdr => herdr_list_detailed RunCommand (c_herdr c)
  | SZmx => zmx_list_detailed RunCommand (c_zmx c)
  | STmux => tmux_list_detailed RunCommand (c_tmux c)
  | SRaw => lift (Err "raw provider does not support list")
  end.

Definition run (c : Cfgs) (s : SelectedProvider W) (session : string) (cwd : option string) (argv : list string) :
    H SessionRunResult :=
  match s with
  | SGhostty g => act (GhosttyRun session cwd argv) (ghostty_run g session cwd argv)
  | SHerdr => lift (Err "herdr provider does not support run")
  | SZmx => zmx_run RunCommand (c_zmx c) session argv
  | STmux => lift (Err "tmux provider does not support run")
  | SRaw => lift (Err "raw provider does not support run")
  end.

Definition history (c : Cfgs) (s : SelectedProvider W) (session : string) : H string :=
  match s with
  | SGhostty g => act (GhosttyHistory session) (ghostty_history g session)
  | SHerdr => lift (Err "herdr provider does not support history")
  | SZmx => zmx_history RunCommand (c_zmx c) session
  | STmux => tmux_history RunCommand (c_tmux c) session
  | SRaw => lift (Err "raw provider does not support history")
  end.

Definition kill (c : Cfgs) (s : SelectedProvider W) (session : string) : H unit :=
  match s with
  | SGhostty g => act (GhosttyKill session) (ghostty_kill g session)
  | SHerdr => lift (Err "herdr provider does not support kill")
  | SZmx => zmx_kill RunCommand (c_zmx c) session
  | STmux => tmux_kill RunCommand (c_tmux c) session
  | SRaw => lift (Err "raw provider does not support kill")
  end.

(** The providers sessions are looked up in, in order. *)
Definition persistent_providers : list (SelectedProvider W) := option_list (SGhostty <$> ghostty) ++ [SHerdr; SZmx; STmux].

Fixpoint aggregate (c : Cfgs) (l : list (SelectedProvider W)) : H (list SessionEntry) :=
  match l with
  | [] => mret []
  | s :: l' =>
      st ← status c s;
      here ← (if available st then
                sessions ← list_detailed c s;
                mret ((λ i, {| e_provider := provider_name s; e_name := si_name i |}) <$> sessions)
              else mret []);
      rest ← aggregate c l';
      mret (here ++ rest)
  end.

Definition aggregate_session_entries (c : Cfgs) : H (list SessionEntry) := aggregate c persistent_providers.

Definition ensure_available (r : result string ProviderStatus) (name : string) (selected : SelectedProvider W) :
    result SessionReason (SelectedProvider W) :=
  st ← map_err InternalError r;
  ensure (available st) (ProviderUnavailable name);;
  Ok selected.

Definition select_provider (c : Cfgs) (requested : option string) (op : SessionOp) : R (SelectedProvider W) :=
  match requested with
  | Some p =>
      if bool_decide (p = "ghostty") then
        lift (match ghostty with Some g => Ok (SGhostty g) | None => Err (ProviderNotFound p) end)
      else if bool_decide (p = "herdr") then
        if bool_decide (op ∈ [Run; History; Kill]) then lift (Err (CapabilityUnsupported p (op_name op)))
        else r ← attempt (probe RunCommand Herdr (c_herdr c)); lift (ensure_available r "herdr" SHerdr)
      else if bool_decide (p = "zmx") then
        r ← attempt (probe RunCommand Zmx (c_zmx c)); lift (ensure_available r "zmx" SZmx)
      else if bool_decide (p = "tmux") then
        if bool_decide (op = Run) then lift (Err (CapabilityUnsupported p (op_name op)))
        else r ← attempt (probe RunCommand Tmux (c_tmux c)); lift (ensure_available r "tmux" STmux)
      else if bool_decide (p = "raw") then
        lift (if bool_decide (op = Attach) then Ok SRaw else Err (CapabilityUnsupported p (op_name op)))
      else lift (Err (ProviderNotFound p))
  | None =>
      let external : R (SelectedProvider W) :=
        zmx_status ← with_err InternalError (probe RunCommand Zmx (c_zmx c));
        if available zmx_status then mret SZmx
        else if bool_decide (op = Run) then lift (Err (ProviderUnavailable "zmx"))
        else
          tmux_status ← with_err InternalError (probe RunCommand Tmux (c_tmux c));
          if available tmux_status then mret STmux else lift (Err (ProviderUnavailable "zmx")) in
      match ghostty with
      | Some g => if available (ghostty_status g) then mret (SGhostty g) else external
      | None => external
      end
  end.

(** Does an entry name the session? *)
Definition entry_matches (session_name : string) (e : SessionEntry) : bool :=
  if bool_decide (e_provider e = "tmux") then bool_decide (e_name e = tmux_lookup_session session_name)
  else bool_decide (e_name e = session_name).

Definition push_provider (acc : list (SelectedProvider W)) (e : SessionEntry) : list (SelectedProvider W) :=
  match List.find (λ s, bool_decide (provider_name s = e_provider e)) persistent_providers with
  | Some s => if bool_decide (provider_name s ∈ provider_name <$> acc) then acc else acc ++ [s]
  | None => acc
  end.

Definition matching_providers (session_name : string) (entries : list SessionEntry) : list (SelectedProvider W) :=
  foldl push_provider [] (List.filter (entry_matches session_name) entries).

Definition resolve_provider_for_session (c : Cfgs) (requested : option string) (session_name : string) (op : SessionOp)
    (create_if_missing : bool) : R (SelectedProvider W) :=
  match requested with
  | Some _ => select_provider c requested op
  | None =>
      entries ← with_err SpawnFailed (aggregate_session_entries c);
      match matching_providers session_name entries with
      | [s] => mret s
      | [] => if create_if_missing then select_provider c None op else lift (Err (SessionNotFound session_name))
      | l => lift (Err (SessionAmbiguous session_name (provider_name <$> l)))
      end
  end.

(** The sessions of one provider, if it is available. *)
Definition group_of (c : Cfgs) (s : SelectedProvider W) (av : bool) (default_provider : option string) :
    R (list SessionProviderSessions) :=
  if av then
    sessions ← with_err SpawnFailed (list_detailed c s);
    mret [{| g_provider := provider_name s; g_available := true;
             g_default := bool_decide (default_provider = Some (provider_name s)); g_sessions := sessions |}]
  else mret [].

Definition list_session_groups (c : Cfgs) (requested : option string) : R (list SessionProviderSessions) :=
  match requested with
  | Some provider =>
      selected ← select_provider c (Some provider) List;
      zmx_available ←
        (if bool_decide (provider_name selected = "zmx") then mret true
         else st ← with_err InternalError (probe RunCommand Zmx (c_zmx c)); mret (available st));
      sessions ← with_err SpawnFailed (list_detailed c selected);
      mret [{| g_provider := provider; g_available := true;
               g_default := bool_decide (provider_name selected = "zmx") || negb zmx_available;
               g_sessions := sessions |}]
  | None =>
      herdr_status ← with_err InternalError (probe RunCommand Herdr (c_herdr c));
      zmx_status ← with_err InternalError (probe RunCommand Zmx (c_zmx c));
      tmux_status ← with_err InternalError (probe RunCommand Tmux (c_tmux c));
      let default_provider :=
        match ghostty with
        | Some _ => Some "ghostty"
        | None => if available zmx_status then Some "zmx" else if available tmux_status then Some "tmux" else None
        end in
      g1 ← match ghostty with
           | Some g => group_of c (SGhostty g) (available (ghostty_status g)) default_provider
           | None => mret []
           end;
      g2 ← group_of c SHerdr (available herdr_status) None;
      g3 ← group_of c SZmx (available zmx_status) default_provider;
      g4 ← group_of c STmux (available tmux_status) default_provider;
      lift (match g1 ++ g2 ++ g3 ++ g4 with
            | [] => Err (ProviderUnavailable "zmx")
            | groups => Ok groups
            end)
  end.

(** ** Attaching *)

(** The loop that reads the control stream until the client ends it. *)
Definition wait_closed : H unit := λ w, let '(r, w') := await_close w in (r, [], w').

(** A session is in its registry from before the acknowledgement until the handler
    returns, however it returns ([SessionRegistryGuard] and its like). *)
Definition hold (r : RegistryName) (provider : string) (session_id : bytes) : H unit :=
  _ ← log (Register r session_id);
  res ← attempt (_ ← write_ack (ok_ack (Some session_id) (Some provider) None);
                 wait_closed);
  _ ← log (Deregister r session_id);
  lift res.

Definition random_id : H bytes := λ w, let '(i, w') := draw_id w in (Ok i, [], w').

Definition write_reject (reason : SessionReason) : H unit := write_ack (reject reason).

(** [let x = match m { Ok(x) => x, Err(e) => return reject }] *)
Definition or_reject {E A} (f : E → SessionReason) (m : Prov W SessionEvent E A) (k : A → H unit) : H unit :=
  r ← attempt m;
  match r with
  | Ok a => k a
  | Err e => write_reject (f e)
  end.

Record TmuxAttachPlan := { plan_session : string; plan_target : string; plan_notice : option bytes }.

Definition pane_line (p : TmuxPane) : string :=
  "  " +:+ p_target p +:+ "  window=" +:+ p_window_index p +:+ "(" +:+ p_window_name p +:+ ") pane=" +:+ p_pane_index p
  +:+ (if p_active p then " active" else "") +:+ Rev.newline.

Definition attach_plan (parsed : TmuxTarget) (panes : list TmuxPane) : TmuxAttachPlan :=
  let pane := match List.find p_active panes with Some p => Some p | None => head panes end in
  let target := match pane with Some p => p_target p | None => t_target parsed end in
  let attaching := "portl: attaching to " +:+ target +:+ Rev.newline in
  {| plan_session := t_session parsed; plan_target := target;
     plan_notice :=
       if (1 <? length panes)%nat then
         Some (str_bytes (foldl (λ acc p, acc +:+ pane_line p)
                 ("portl: available tmux panes for " +:+ t_session parsed +:+ ":" +:+ Rev.newline) panes +:+ attaching))
       else if bool_decide (target ≠ t_target parsed) then Some (str_bytes attaching)
       else None |}.

Definition plan_tmux_attach (tmux : ProviderCfg) (requested : string) : H TmuxAttachPlan :=
  let parsed := parse_tmux_target requested in
  if has_selector parsed then
    mret {| plan_session := t_session parsed; plan_target := t_target parsed; plan_notice := None |}
  else
    panes ← attempt (list_panes RunCommand tmux (t_session parsed));
    mret (attach_plan parsed (match panes with Ok l => l | Err _ => [] end)).

(** Starting the process of an attach, in the registry [r]. *)
Definition attach_with (r : RegistryName) (provider : string) (start : H unit) : H unit :=
  session_id ← random_id;
  or_reject SpawnFailed start (λ _, hold r provider session_id).

Definition serve_ghostty_attach (g : GhosttyOps W) (req : SessionReqBody) (name : string) (ctx : TargetProcessContext) : H unit :=
  attach_with ShellRegistry "ghostty"
    (act (GhosttyAttach name (ctx_cwd ctx) (rb_pty req) (rb_argv req) (ctx_env ctx))
       (ghostty_attach g name (ctx_cwd ctx) (rb_pty req) (rb_argv req) (ctx_env ctx))).

Definition spawn_herdr_attach (herdr : ProviderCfg) (name : string) (ctx : TargetProcessContext) : H unit :=
  c ← bridge_command herdr name (ctx_cwd ctx) (ctx_env ctx);
  act (SpawnChild c) (spawn_child c).

Definition serve_herdr_attach (herdr : ProviderCfg) (name : string) (ctx : TargetProcessContext) : H unit :=
  attach_with HerdrAttachRegistry "herdr" (spawn_herdr_attach herdr name ctx).

Definition spawn_tmux_control_process (tmux : ProviderCfg) (name : string) (target : option string) (req : SessionReqBody)
    (ctx : TargetProcessContext) (initial_snapshot initial_stderr : option bytes) : H unit :=
  spawn ← control_spawn_config_with_env tmux name target (ctx_cwd ctx) (rb_pty req) (rb_argv req) (ctx_env ctx);
  pty ← lift (ok_or (rb_pty req) "tmux -CC attach requires pty dimensions");
  let nonempty o := b ← o; if bool_decide (b = []) then None else Some b in
  act (SpawnTmux spawn pty (nonempty initial_snapshot) (nonempty initial_stderr)) (spawn_pty spawn pty).

Definition serve_tmux_control_attach (tmux : ProviderCfg) (req : SessionReqBody) (plan : TmuxAttachPlan)
    (ctx : TargetProcessContext) (initial_snapshot : option bytes) : H unit :=
  attach_with ShellRegistry "tmux"
    (spawn_tmux_control_process tmux (plan_session plan) (Some (plan_target plan)) req ctx initial_snapshot (plan_notice plan)).

Definition spawn_zmx_control_process (zmx : ProviderCfg) (name : string) (req : SessionReqBody) (ctx : TargetProcessContext) :
    H unit :=
  c ← control_command zmx name (ctx_cwd ctx) (rb_pty req) (rb_argv req) (ctx_env ctx);
  act (SpawnChild c) (spawn_child c).

Definition serve_control_attach (zmx : ProviderCfg) (req : SessionReqBody) (name : string) (ctx : TargetProcessContext) : H unit :=
  attach_with ShellRegistry "zmx" (spawn_zmx_control_process zmx name req ctx).

Definition raw_shell_missing_explicit_argv (req : SessionReqBody) : bool :=
  bool_decide (rb_provider req = Some "raw") && bool_decide (rb_argv req = Some []).

(** The request an attach passes on to the shell handler. *)
Definition attach_shell_req (se : Session) (req : SessionReqBody) (argv : option (list string)) (ctx : TargetProcessContext) :
    ShellReq :=
  {| sr_preamble := {| peer_token := se_peer_token se; alpn := ALPN_SHELL_V1 |}; sr_mode := Shell; sr_argv := argv;
     sr_env_patch := []; sr_cwd := ctx_cwd ctx; sr_pty := rb_pty req; sr_user := rb_user req |}.

Definition spawn_shell (sreq : ShellReq) (user : RequestedUser) : H unit :=
  act (SpawnShell sreq user)
    (λ w, let '(r, w') := spawn_process sreq user w in (map_err (λ e, debug_reason (sj_wire e)) r, w')).

Definition unsupported_user (provider : string) : SessionReason := CapabilityUnsupported provider "user".

Definition serve_attach (se : Session) (req : SessionReqBody) (c : Cfgs) : H unit :=
  match rb_session_name req with
  | None => write_reject MissingSessionName
  | Some name =>
      or_reject id (resolve_provider_for_session c (rb_provider req) name Attach true) (λ selected,
      or_reject (λ e, SpawnFailed (debug_reason (sj_wire e)))
        (λ w, (resolve_user (rb_user req) w, [], w) : result SpawnReject RequestedUser * list SessionEvent * W) (λ user,
      let zmx := with_target_home (c_zmx c) (Some (ru_home_dir user)) in
      let tmux := with_target_home (c_tmux c) (Some (ru_home_dir user)) in
      let ctx := session_workload_context se req user in
      _ ← log (Audit "audit.session_attach" (Some (provider_name selected)) (Some name) (rb_user req) (ctx_cwd ctx) (rb_argv req));
      match selected with
      | SGhostty g =>
          if bool_decide (is_Some (rb_user req)) then write_reject (unsupported_user "ghostty")
          else serve_ghostty_attach g req name ctx
      | SHerdr =>
          if bool_decide (is_Some (rb_user req)) then write_reject (unsupported_user "herdr")
          else serve_herdr_attach (c_herdr c) name ctx
      | STmux =>
          if bool_decide (is_Some (rb_user req)) then write_reject (unsupported_user "tmux")
          else
            plan ← plan_tmux_attach tmux name;
            snapshot ← attempt (viewport_snapshot RunCommand tmux (plan_target plan));
            serve_tmux_control_attach tmux req plan ctx (match snapshot with Ok b => Some b | Err _ => None end)
      | SRaw =>
          if raw_shell_missing_explicit_argv req then write_reject MissingArgv
          else attach_with ShellRegistry "raw" (spawn_shell (attach_shell_req se req (rb_argv req) ctx) user)
      | SZmx =>
          control ← (if bool_decide (is_Some (rb_user req)) then mret false else control_available RunCommand zmx);
          if control : bool then serve_control_attach zmx req name ctx
          else
            provider_argv ← attach_argv zmx name (rb_argv req);
            attach_with ShellRegistry "zmx" (spawn_shell (attach_shell_req se req (Some provider_argv) ctx) user)
      end))
  end.

Definition serve_attach_v2 (se : Session) (req : SessionReqBody) (c : Cfgs) : H unit :=
  match rb_session_name req with
  | None => write_reject MissingSessionName
  | Some name =>
      let c := {| c_herdr := provider_new None; c_zmx := c_zmx c; c_tmux := c_tmux c |} in
      or_reject id (resolve_provider_for_session c (rb_provider req) name AttachV2 true) (λ selected,
      match selected with
      | SGhostty g =>
          if bool_decide (is_Some (rb_user req)) then write_reject (unsupported_user "ghostty")
          else
            or_reject (λ e, SpawnFailed (debug_reason (sj_wire e)))
              (λ w, (resolve_user (rb_user req) w, [], w) : result SpawnReject RequestedUser * list SessionEvent * W) (λ user,
            let ctx := session_workload_context se req user in
            let config := default default_attach_v2 (rb_attach_v2 req) in
            _ ← log (Audit "audit.session_attach_v2" (Some "ghostty") (Some name) (rb_user req) (ctx_cwd ctx) (rb_argv req));
            or_reject SpawnFailed
              (act (GhosttyAttachV2 name (ctx_cwd ctx) (rb_pty req) (rb_argv req) (ctx_env ctx) config)
                 (ghostty_attach_v2 g name (ctx_cwd ctx) (rb_pty req) (rb_argv req) (ctx_env ctx) config)) (λ _,
            session_id ← random_id;
            hold GhosttyAttachV2Registry "ghostty" session_id))
      | _ => write_reject (CapabilityUnsupported (provider_name selected) "attach_v2")
      end)
  end.

(** ** provider.rs: what the status of the agent says of the providers *)

Record SessionProviderInfo := {
  spi_name : string; spi_detected : bool; spi_path : option string; spi_source : option string; spi_notes : option string;
}.
Record SessionProviderSearchPath := { ssp_provider : string; ssp_path : string; ssp_source : string; ssp_exists : bool }.
Record SessionProvidersInfo := {
  sp_default_provider : option string;
  sp_providers : list SessionProviderInfo;
  sp_search_paths : list SessionProviderSearchPath;
}.

Definition source_name (src : ProviderPathSource) : string :=
  match src with Config => "config" | StablePath => "stable_path" | UserBin => "user_bin" | MiseShim => "mise_shim" end.

Definition provider_info (name : string) (d : ProviderPathDiscovery) : SessionProviderInfo :=
  {| spi_name := name; spi_detected := bool_decide (is_Some (found_path d)); spi_path := found_path d;
     spi_source := source_name <$> found_source d; spi_notes := None |}.

Definition append_search_paths (provider : string) (d : ProviderPathDiscovery) : list SessionProviderSearchPath :=
  (λ pr, {| ssp_provider := provider; ssp_path := probe_path pr; ssp_source := source_name (probe_source pr);
            ssp_exists := probe_exists pr |}) <$> probes d.

Definition ghostty_discovery_info : option SessionProviderInfo :=
  (λ g, let st := ghostty_status g in
        {| spi_name := ps_name st; spi_detected := available st; spi_path := ps_path st; spi_source := Some "builtin";
           spi_notes := notes st |}) <$> ghostty.

Definition raw_info : SessionProviderInfo :=
  {| spi_name := "raw"; spi_detected := true; spi_path := None; spi_source := Some "builtin";
     spi_notes := Some "one-shot PTY fallback" |}.

(** The default user it also reports is left out. *)
Definition provider_discovery_info (configured : option string) (w : W) : SessionProvidersInfo :=
  let ex := path_exists w in
  let herdr_config := named "herdr" configured in
  let tmux_config := named "tmux" configured in
  let zmx_config := if bool_decide (is_Some tmux_config) || bool_decide (is_Some herdr_config) then None else configured in
  let herdr := discover_provider_path ex "herdr"
                 (match agent_env "PORTL_HERDR_PATH" with Some v => Some v | None => herdr_config end) default_target_home in
  let zmx := discover_provider_path ex "zmx" zmx_config default_target_home in
  let tmux := discover_provider_path ex "tmux" tmux_config default_target_home in
  let ghostty_default := i ← ghostty_discovery_info; if spi_detected i then Some (spi_name i) else None in
  {| sp_default_provider :=
       match ghostty_default with
       | Some n => Some n
       | None => match found_path zmx with
                 | Some _ => Some "zmx"
                 | None => match found_path tmux with Some _ => Some "tmux" | None => None end
                 end
       end;
     sp_providers := option_list ghostty_discovery_info ++
       [provider_info "herdr" herdr; provider_info "zmx" zmx; provider_info "tmux" tmux; raw_info];
     sp_search_paths := append_search_paths "herdr" herdr ++ append_search_paths "zmx" zmx ++ append_search_paths "tmux" tmux |}.

(** ** Streams *)

Definition audit_op (req : SessionReqBody) (event : string) (provider session : option string) : H unit :=
  log (Audit event provider session (rb_user req) (rb_cwd req) (rb_argv req)).

Definition serve_list (req : SessionReqBody) (c : Cfgs) : H unit :=
  r ← attempt (list_session_groups c (rb_provider req));
  match r with
  | Err reason => _ ← log (AuditReject "list" "provider_command_failed"); write_reject reason
  | Ok groups =>
      let group := match List.find g_default groups with Some g => Some g | None => head groups end in
      let provider_name := match group with Some g => g_provider g | None => "zmx" end in
      _ ← audit_op req "audit.session_list" (Some provider_name) None;
      write_ack (ok_with_session_groups provider_name (g ← groups; si_name <$> g_sessions g) groups)
  end.

(** An operation of a provider, its failure and its success. *)
Definition command_or_reject {A} (op : string) (m : H A) (k : A → H unit) : H unit :=
  r ← attempt m;
  match r with
  | Ok a => k a
  | Err e => _ ← log (AuditReject op "provider_command_failed"); write_reject (SpawnFailed e)
  end.

Definition serve_run (req : SessionReqBody) (c : Cfgs) : H unit :=
  or_reject id (select_provider c (rb_provider req) Run) (λ selected,
  match rb_session_name req with
  | None => write_reject MissingSessionName
  | Some name =>
      match rb_argv req with
      | None | Some [] => write_reject MissingArgv
      | Some argv =>
          _ ← audit_op req "audit.session_run" (Some (provider_name selected)) (Some name);
          command_or_reject "run" (run c selected name (rb_cwd req) argv) (λ r,
          write_ack (ok_with_run (provider_name selected) r))
      end
  end).

Definition serve_history (req : SessionReqBody) (c : Cfgs) : H unit :=
  match rb_session_name req with
  | None => write_reject MissingSessionName
  | Some name =>
      or_reject id (resolve_provider_for_session c (rb_provider req) name History false) (λ selected,
      _ ← audit_op req "audit.session_history" (Some (provider_name selected)) (Some name);
      command_or_reject "history" (history c selected name) (λ output,
      write_ack (ok_with_output (provider_name selected) output)))
  end.

Definition serve_kill (req : SessionReqBody) (c : Cfgs) : H unit :=
  match rb_session_name req with
  | None => write_reject MissingSessionName
  | Some name =>
      or_reject id (resolve_provider_for_session c (rb_provider req) name Kill false) (λ selected,
      _ ← audit_op req "audit.session_kill" (Some (provider_name selected)) (Some name);
      command_or_reject "kill" (kill c selected name) (λ _,
      write_ack (ok_empty (provider_name selected))))
  end.

Definition serve_providers (req : SessionReqBody) (c : Cfgs) : H unit :=
  _ ← audit_op req "audit.session_providers" None None;
  report ← provider_report RunCommand (ghostty_status <$> ghostty) (c_herdr c) (c_zmx c) (c_tmux c);
  write_ack (ok_ack None (default_provider report) (Some report)).

Definition serve_op (se : Session) (req : SessionReqBody) (c : Cfgs) : H unit :=
  match rb_op req with
  | Providers => serve_providers req c
  | List => serve_list req c
  | Run => serve_run req c
  | History => serve_history req c
  | Kill => serve_kill req c
  | Attach => serve_attach se req c
  | AttachV2 =>
      match ghostty with
      | Some _ => serve_attach_v2 se req c
      | None => write_reject (CapabilityUnsupported (default "ghostty" (rb_provider req)) "attach_v2")
      end
  end.

Definition valid_preamble (se : Session) (p : StreamPreamble) : bool :=
  bool_decide (peer_token p = se_peer_token se) && bool_decide (alpn p = ALPN_SESSION_V1).

Definition serve_control_stream (se : Session) (req : SessionReq) : H unit :=
  if negb (valid_preamble se (sq_preamble req)) then lift (Err "invalid session preamble")
  else
    match session_permits se (sq_body req) with
    | Err reason => _ ← log (AuditReject (op_name (rb_op (sq_body req))) "caps_denied"); write_reject reason
    | Ok _ => serve_op se (sq_body req) request_cfgs
    end.

(** The registries of the agent, as a set of registered identifiers. *)
Definition Registries : Type := gset (RegistryName * bytes).

Definition lookup_registry (regs : Registries) (r : RegistryName) (tail : SessionSubTail) (missing : string) : H unit :=
  if bool_decide ((r, st_session_id tail) ∈ regs) then log (Pump r (st_session_id tail) (st_kind tail)) else lift (Err missing).

Definition serve_substream (regs : Registries) (se : Session) (p : StreamPreamble) (tail : SessionSubTail) : H unit :=
  if negb (valid_preamble se p) then lift (Err "invalid session sub-stream preamble")
  else if is_herdr_stream_kind (st_kind tail) then
    lookup_registry regs HerdrAttachRegistry tail "herdr attach session not found"
  else if bool_decide (is_Some ghostty) && is_attach_v2_kind (st_kind tail) then
    lookup_registry regs GhosttyAttachV2Registry tail "ghostty attach v2 session not found"
  else if bool_decide ((ShellRegistry, st_session_id tail) ∉ regs) then lift (Err "session attach process not found")
  else if is_attach_v2_kind (st_kind tail) then lift (Err "attach v2 stream not registered")
  else log (Pump ShellRegistry (st_session_id tail) (st_kind tail)).

Definition serve_stream (regs : Registries) (se : Session) (p : StreamPreamble) (first : option SessionFirstFrame) : H unit :=
  match first with
  | None => lift (Err "missing session first frame")
  | Some (ControlFrame body) => serve_control_stream se {| sq_preamble := p; sq_body := body |}
  | Some (SubFrame tail) => serve_substream regs se p tail
  end.

Definition apply_registry (regs : Registries) (e : SessionEvent) : Registries :=
  match e with
  | Register r i => {[(r, i)]} ∪ regs
  | Deregister r i => regs ∖ {[(r, i)]}
  | _ => regs
  end.

End handler.

(** ** What a request may do *)

(** Looking providers and sessions up. *)
Definition lookup_args : list (list string) :=
  (k ← [Zmx; Tmux; Herdr]; probe_args k) ++ (k ← [Zmx; Tmux; Herdr]; list_args k).

Definition capture_args (session : string) : list string :=
  ["capture-pane"; "-p"; "-e"; "-S"; "-"; "-E"; "-"; "-t"; session].
Definition panes_args (session : string) : list string := ["list-panes"; "-s"; "-F"; PANE_FORMAT; "-t"; session].
Definition viewport_args (target : string) : list string :=
  ["display-message"; "-p"; "-t"; target; "PORTL_CURSOR #{cursor_x} #{cursor_y}"; ";";
   "capture-pane"; "-p"; "-e"; "-N"; "-S"; "0"; "-E"; "-"; "-t"; target].

(** The commands of the operation asked for, on the session asked for. *)
Definition op_args (req : SessionReqBody) (name : string) (a : list string) : Prop :=
  match rb_op req with
  | Run => ∃ argv, rb_argv req = Some argv ∧ argv ≠ [] ∧ a = "run" :: name :: argv
  | History => a = ["history"; name] ∨ a = capture_args name
  | Kill => a = ["kill"; name] ∨ a = ["kill-session"; "-t"; name]
  | Attach => rb_user req = None ∧
      (a = panes_args (tmux_lookup_session name) ∨ ∃ target, a = viewport_args target)
  | _ => False
  end.

(** The program and the arguments of a process started for an attach. *)
Definition zmx_control_args (req : SessionReqBody) (name : string) : list string :=
  ["control"; "--protocol"; ZMX_CONTROL_PROTOCOL] ++ pty_args "--rows" "--cols" (rb_pty req) ++ [name] ++
  default [] (rb_argv req).

Definition allowed_effect `{SessionHost W} (se : Session) (req : SessionReqBody) (e : SessionEvent) : Prop :=
  match e with
  | RunCommand c =>
      (∃ home, cmd_env c = apply_provider_env agent_env [] home) ∧ cmd_cwd c = None ∧
      (args c ∈ lookup_args ∨ ∃ name, rb_session_name req = Some name ∧ op_args req name (args c))
  | SpawnShell sreq user =>
      rb_op req = Attach ∧ shell_permits (se_caps se) sreq = Ok tt ∧ sr_user sreq = rb_user req ∧
      (∃ w, resolve_user (rb_user req) w = Ok user) ∧
      ∃ name, rb_session_name req = Some name ∧
        (sr_argv sreq = rb_argv req ∨ ∃ path, sr_argv sreq = Some ([path; "attach"; name] ++ default [] (rb_argv req)))
  | SpawnChild c =>
      rb_op req = Attach ∧ rb_user req = None ∧
      ∃ name, rb_session_name req = Some name ∧ (args c = ["remote-client-bridge"] ∨ args c = zmx_control_args req name)
  | SpawnTmux spawn pty _ _ =>
      rb_op req = Attach ∧ rb_user req = None ∧ rb_pty req = Some pty ∧
      ∃ name target, rb_session_name req = Some name ∧
        take 5 (spawn_args spawn) = ["-CC"; "new-session"; "-A"; "-s"; tmux_lookup_session name] ∧
        switch_commands (tmux_lookup_session name) target = Ok (initial_commands spawn)
  | GhosttyRun s cwd argv =>
      rb_op req = Run ∧ rb_session_name req = Some s ∧ rb_argv req = Some argv ∧ cwd = rb_cwd req
  | GhosttyHistory s => rb_op req = History ∧ rb_session_name req = Some s
  | GhosttyKill s => rb_op req = Kill ∧ rb_session_name req = Some s
  | GhosttyAttach s _ pty argv _ =>
      rb_op req = Attach ∧ rb_user req = None ∧ rb_session_name req = Some s ∧ pty = rb_pty req ∧ argv = rb_argv req
  | GhosttyAttachV2 s _ pty argv _ _ =>
      rb_op req = AttachV2 ∧ rb_user req = None ∧ rb_session_name req = Some s ∧ pty = rb_pty req ∧ argv = rb_argv req
  | _ => True
  end.

(** The effects on the host: processes run or started. *)
Definition acts (e : SessionEvent) : bool :=
  match e with
  | Audit _ _ _ _ _ _ | AuditReject _ _ | WriteAck _ | Register _ _ | Deregister _ _ | Pump _ _ _ => false
  | _ => true
  end.

(** What the permission of a session asks of a ticket: a terminal, for the user asked for. *)
Definition terminal_for (c : Capabilities) (user : option string) : Prop :=
  ∃ sc, shell c = Some sc ∧ pty_allowed sc = true ∧
    match user_allowlist sc with Some l => default "" user ∈ l | None => True end.

Lemma terminal_permits c sreq : sr_mode sreq = Shell → is_Some (sr_pty sreq) →
  shell_permits c sreq = Ok tt ↔ terminal_for c (sr_user sreq).
Proof.
  intros Hm Hpty. unfold shell_permits, terminal_for. destruct (shell c) as [sc|]; [| split; [done | by intros (? & ? & _)]].
  rewrite Hm. destruct (sr_pty sreq); [| by destruct Hpty]. simpl.
  destruct (pty_allowed sc) eqn:Hp; simpl; [| split; [done | intros (sc' & [= <-] & Hp' & _); congruence]].
  destruct (user_allowlist sc) as [l|] eqn:Hl; simpl.
  - split.
    + destruct (any_or _ l _) as [[]|] eqn:Ha; [| done]. intros _. apply any_or_Ok in Ha as (u & Hu & Hd%bool_decide_eq_true).
      exists sc. rewrite Hl. by subst u.
    + intros (sc' & [= <-] & _ & Hu). rewrite Hl in Hu. rewrite (proj2 (any_or_Ok _ _ _ tt)); [done |].
      exists (default "" (sr_user sreq)). by rewrite bool_decide_true.
  - split; [intros _; exists sc; by rewrite Hl | done].
Qed.

Lemma session_permits_Ok se req : session_permits se req = Ok tt ↔ terminal_for (se_caps se) (rb_user req).
Proof. unfold session_permits. rewrite map_err_Ok. by apply terminal_permits. Qed.

Lemma session_permits_shell se req sreq : session_permits se req = Ok tt → sr_mode sreq = Shell → sr_user sreq = rb_user req →
  shell_permits (se_caps se) sreq = Ok tt.
Proof.
  intros (sc & Hs & Hp & Hu)%session_permits_Ok Hm Hsu. unfold shell_permits. rewrite Hs, Hm, Hp, andb_false_r, Hsu. simpl.
  destruct (user_allowlist sc) as [l|]; [| done]. simpl. rewrite (proj2 (any_or_Ok _ _ _ tt)); [done |].
  exists (default "" (rb_user req)). by rewrite bool_decide_true.
Qed.

Section lookups.
Context `{SH : SessionHost W} `{J : SerdeJson}.

Definition plain (c : Cfgs) : Prop := cfg_env (c_herdr c) = [] ∧ cfg_env (c_zmx c) = [] ∧ cfg_env (c_tmux c) = [].

(** The effects of looking providers and sessions up. *)
Definition looks_up (e : SessionEvent) : Prop :=
  e = GhosttyList ∨ ∃ p path a, e = RunCommand (command p path a) ∧ cfg_env p = [] ∧ a ∈ lookup_args.

Lemma looks_up_probe k p path a : cfg_env p = [] → a ∈ probe_args k → looks_up (RunCommand (command p path a)).
Proof.
  intros Hp Ha. right. exists p, path, a. split_and!; [done | done |]. apply elem_of_app. left.
  apply list_elem_of_bind. exists k. split; [done |]. destruct k; set_solver.
Qed.
Lemma looks_up_list k p path a : cfg_env p = [] → a ∈ list_args k → looks_up (RunCommand (command p path a)).
Proof.
  intros Hp Ha. right. exists p, path, a. split_and!; [done | done |]. apply elem_of_app. right.
  apply list_elem_of_bind. exists k. split; [done |]. destruct k; set_solver.
Qed.

Lemma logs_act {A} (Q : SessionEvent → Prop) e (f : W → result string A * W) : Q e → logs Q (act e f).
Proof. intros He w. unfold act. destruct (f w). by apply Forall_singleton. Qed.

Lemma looks_up_probes k p : cfg_env p = [] → logs looks_up (probe RunCommand k p : H ProviderStatus).
Proof. intros Hp. apply logs_probe. intros path a Ha. by apply (looks_up_probe k). Qed.

Hint Resolve logs_act looks_up_probes looks_up_probe looks_up_list : prov.

Lemma looks_up_status c s : plain c → logs looks_up (status c s).
Proof. intros (? & ? & ?). destruct s; simpl; eauto with prov. Qed.

Lemma looks_up_list_detailed c s : plain c → logs looks_up (list_detailed c s).
Proof. intros (? & ? & ?). destruct s; simpl; eauto with prov. apply logs_act. by left. Qed.

Hint Resolve looks_up_status looks_up_list_detailed : prov.

Lemma looks_up_aggregate c l : plain c → logs looks_up (aggregate c l).
Proof. intros Hc. induction l as [|s l IH]; cbn [aggregate]; prov_solve. Qed.

Lemma looks_up_select c requested op : plain c → logs looks_up (select_provider c requested op).
Proof. intros (? & ? & ?). unfold select_provider. prov_solve. Qed.

Hint Resolve looks_up_aggregate looks_up_select : prov.

Lemma looks_up_resolve c requested name op create : plain c →
  logs looks_up (resolve_provider_for_session c requested name op create).
Proof. intros Hc. unfold resolve_provider_for_session, aggregate_session_entries. prov_solve. Qed.

Lemma looks_up_group_of c s av d : plain c → logs looks_up (group_of c s av d).
Proof. intros Hc. unfold group_of. prov_solve. Qed.

Hint Resolve looks_up_group_of : prov.

Lemma looks_up_groups c requested : plain c → logs looks_up (list_session_groups c requested).
Proof. intros Hc. pose proof Hc as (? & ? & ?). unfold list_session_groups. prov_solve. Qed.

Lemma looks_up_report g c : plain c →
  logs looks_up (provider_report RunCommand g (c_herdr c) (c_zmx c) (c_tmux c) : H ProviderReport).
Proof. intros (? & ? & ?). unfold provider_report. prov_solve. Qed.

Lemma plain_request : plain request_cfgs.
Proof. done. Qed.

End lookups.

#[export] Hint Resolve logs_act looks_up_resolve looks_up_select looks_up_groups looks_up_report : prov.

(** Properties that hold of every event that does not act. *)
Section passive.
Context `{SH : SessionHost W} `{J : SerdeJson} (Q : SessionEvent → Prop) (HQ : ∀ e, acts e = false → Q e).

Lemma logs_passive {E} e : acts e = false → logs Q (log e : Prov W SessionEvent E unit).
Proof. intros He. by apply logs_log, HQ. Qed.

Lemma logs_write_ack ack : logs Q (write_ack ack).
Proof. by apply logs_act, HQ. Qed.

Lemma logs_or_reject_yields {E A} (f : E → SessionReason) (m : Prov W SessionEvent E A) k :
  logs Q m → (∀ a, yields m a → logs Q (k a)) → logs Q (or_reject f m k).
Proof.
  intros Hm Hk. apply logs_bind_yields; [by apply logs_attempt |].
  intros [a|e] [w Hw]; [| apply logs_write_ack]. apply Hk. exists w. unfold attempt in Hw.
  by destruct (m w) as [[r l] w']; simplify_eq/=.
Qed.

Lemma logs_or_reject {E A} (f : E → SessionReason) (m : Prov W SessionEvent E A) k :
  logs Q m → (∀ a, logs Q (k a)) → logs Q (or_reject f m k).
Proof. intros Hm Hk. apply logs_or_reject_yields; auto. Qed.

Lemma logs_command_or_reject {A} op (m : H A) k : logs Q m → (∀ a, logs Q (k a)) → logs Q (command_or_reject op m k).
Proof.
  intros Hm Hk. apply logs_bind; [by apply logs_attempt | intros [a|e]; [done |]].
  apply logs_bind; [by apply logs_passive | intros _; apply logs_write_ack].
Qed.

Lemma logs_hold r provider i : logs Q (hold r provider i).
Proof.
  apply logs_bind; [by apply logs_passive | intros _]. apply logs_bind; [apply logs_attempt |].
  - apply logs_bind; [apply logs_write_ack | intros _ w]. unfold wait_closed. by destruct (await_close w).
  - intros res. apply logs_bind; [by apply logs_passive | intros _; apply logs_lift].
Qed.

Lemma logs_attach_with r provider start : logs Q start → logs Q (attach_with r provider start).
Proof.
  intros Hs. apply logs_bind; [intros w; unfold random_id; by destruct (draw_id w) | intros i].
  apply logs_or_reject; [done | intros _; apply logs_hold].
Qed.
End passive.

Section effects.
Context `{SH : SessionHost W} `{J : SerdeJson} (se : Session) (req : SessionReqBody) (name : string).
Context (Hperm : session_permits se req = Ok tt).

Abbreviation Q := (allowed_effect se req).

Lemma passive_allowed e : acts e = false → Q e.
Proof. by destruct e. Qed.

Lemma looks_up_allowed e : looks_up e → Q e.
Proof. intros [->|(p & path & a & -> & Hp & Ha)]; simpl; [done |]. rewrite Hp. eauto. Qed.

Lemma allowed_looks_up {E A} (m : Prov W SessionEvent E A) : logs looks_up m → logs Q m.
Proof. apply logs_mono, looks_up_allowed. Qed.

Lemma allowed_command p path a : cfg_env p = [] → rb_session_name req = Some name → op_args req name a →
  Q (RunCommand (command p path a)).
Proof. intros Hp Hn Ha. simpl. rewrite Hp. eauto 10. Qed.

Hint Resolve passive_allowed allowed_looks_up logs_write_ack logs_passive logs_hold logs_attach_with : prov.

Lemma allowed_run c s argv : plain c → rb_op req = Run → rb_session_name req = Some name → rb_argv req = Some argv → argv ≠ [] →
  logs Q (run c s name (rb_cwd req) argv).
Proof.
  intros (_ & Hz & _) Hop Hn Ha Hne. destruct s; simpl; eauto with prov; [by apply logs_act |].
  apply logs_run_capture. intros path. apply allowed_command; [done | done |]. unfold op_args. rewrite Hop. eauto.
Qed.

Lemma allowed_history c s : plain c → rb_op req = History → rb_session_name req = Some name → logs Q (history c s name).
Proof.
  intros (_ & Hz & Ht) Hop Hn. destruct s; simpl; eauto with prov; [by apply logs_act | |].
  - apply logs_capture_then; [intros path; apply allowed_command; try done; unfold op_args; rewrite Hop; by left |].
    intros o. prov_solve.
  - apply logs_capture_then; [intros path; apply allowed_command; try done; unfold op_args; rewrite Hop; by right |].
    intros o. prov_solve.
Qed.

Lemma allowed_kill c s : plain c → rb_op req = Kill → rb_session_name req = Some name → logs Q (kill c s name).
Proof.
  intros (_ & Hz & Ht) Hop Hn. destruct s; simpl; eauto with prov; [by apply logs_act | |].
  - apply logs_capture_then; [intros path; apply allowed_command; try done; unfold op_args; rewrite Hop; by left |].
    intros o. apply logs_lift.
  - apply logs_capture_then; [intros path; apply allowed_command; try done; unfold op_args; rewrite Hop; by right |].
    intros o. apply logs_lift.
Qed.

Lemma allowed_spawn_shell argv ctx user : rb_op req = Attach → rb_session_name req = Some name →
  (∃ w, resolve_user (rb_user req) w = Ok user) →
  (argv = rb_argv req ∨ ∃ path, argv = Some ([path; "attach"; name] ++ default [] (rb_argv req))) →
  logs Q (spawn_shell (attach_shell_req se req argv ctx) user).
Proof.
  intros Hop Hn Hu Ha. apply logs_act. simpl. split_and!; [done | | done | done | by eauto].
  by apply (session_permits_shell se req).
Qed.

Lemma allowed_spawn_child (m : H Cmd) : rb_op req = Attach → rb_user req = None → rb_session_name req = Some name → logs Q m →
  (∀ c, yields m c → args c = ["remote-client-bridge"] ∨ args c = zmx_control_args req name) →
  logs Q (c ← m; act (SpawnChild c) (spawn_child c)).
Proof.
  intros Hop Hu Hn Hm Hc. apply logs_bind_yields; [done |]. intros c Hy. apply logs_act. simpl. eauto 10.
Qed.

Lemma allowed_zmx_control zmx ctx : rb_op req = Attach → rb_user req = None → rb_session_name req = Some name →
  logs Q (spawn_zmx_control_process zmx name req ctx).
Proof.
  intros Hop Hu Hn. apply allowed_spawn_child; [done .. | |].
  - unfold control_command. prov_solve.
  - intros c (path & _ & ->%yields_ret)%yields_bind. by right.
Qed.

Lemma allowed_herdr herdr ctx : rb_op req = Attach → rb_user req = None → rb_session_name req = Some name →
  logs Q (spawn_herdr_attach herdr name ctx).
Proof.
  intros Hop Hu Hn. apply allowed_spawn_child; [done .. | |].
  - unfold bridge_command. prov_solve.
  - intros c (path & _ & ->%yields_ret)%yields_bind. by left.
Qed.

Lemma allowed_tmux_control tmux target ctx snap err : rb_op req = Attach → rb_user req = None → rb_session_name req = Some name →
  logs Q (spawn_tmux_control_process tmux (tmux_lookup_session name) target req ctx snap err).
Proof.
  intros Hop Hu Hn. apply logs_bind_yields; [unfold control_spawn_config_with_env; prov_solve |].
  intros spawn (path & _ & (cmds & Hc%yields_lift & ->%yields_ret)%yields_bind)%yields_bind.
  apply logs_bind_yields; [apply logs_lift |]. intros pty Hpty%yields_lift%ok_or_Ok. apply logs_act. simpl. eauto 10.
Qed.

Lemma plan_session_name tmux plan : yields (plan_tmux_attach tmux name) plan → plan_session plan = tmux_lookup_session name.
Proof.
  unfold plan_tmux_attach, parse_tmux_target, tmux_lookup_session. destruct (str_split_once [58] name) as [[s t]|]; simpl.
  - by intros ->%yields_ret.
  - by intros (panes & _ & ->%yields_ret)%yields_bind.
Qed.

Lemma allowed_plan tmux : cfg_env tmux = [] → rb_op req = Attach → rb_user req = None → rb_session_name req = Some name →
  logs Q (plan_tmux_attach tmux name).
Proof.
  intros Ht Hop Hu Hn. unfold plan_tmux_attach. case_match eqn:Hsel; [apply logs_ret |].
  apply logs_bind; [apply logs_attempt | intros ?; apply logs_ret].
  apply logs_capture_then; [intros path; apply allowed_command; try done | intros o; prov_solve].
  unfold op_args. rewrite Hop. split; [done |]. left. unfold parse_tmux_target, tmux_lookup_session.
  by destruct (str_split_once [58] name) as [[??]|].
Qed.

Lemma allowed_viewport tmux target : cfg_env tmux = [] → rb_op req = Attach → rb_user req = None → rb_session_name req = Some name →
  logs Q (viewport_snapshot RunCommand tmux target).
Proof.
  intros Ht Hop Hu Hn. apply logs_capture_then; [intros path; apply allowed_command; try done |].
  - unfold op_args. rewrite Hop. eauto.
  - intros o. apply logs_bind; [apply logs_lift | intros _]. cbv beta zeta. case_match. apply logs_ret.
Qed.

Lemma allowed_resolve_user u f (k : RequestedUser → H unit) :
  (∀ user, (∃ w, resolve_user u w = Ok user) → logs Q (k user)) →
  logs Q (or_reject f (λ w, (resolve_user u w, [], w) : result SpawnReject RequestedUser * list SessionEvent * W) k).
Proof.
  intros Hk. apply logs_or_reject_yields; [exact passive_allowed | by intros w |].
  intros user [w Hw]. by apply Hk; exists w.
Qed.

Lemma allowed_zmx_attach c user ctx : cfg_env (c_zmx c) = [] → rb_op req = Attach → rb_session_name req = Some name →
  (∃ w, resolve_user (rb_user req) w = Ok user) →
  let zmx := with_target_home (c_zmx c) (Some (ru_home_dir user)) in
  logs Q (control ← (if bool_decide (is_Some (rb_user req)) then mret false else control_available RunCommand zmx) : H bool;
          if control : bool then serve_control_attach zmx req name ctx
          else provider_argv ← attach_argv zmx name (rb_argv req);
               attach_with ShellRegistry "zmx" (spawn_shell (attach_shell_req se req (Some provider_argv) ctx) user)).
Proof.
  intros Hz Hop Hn Hu zmx. apply logs_bind_yields.
  - case_bool_decide; [apply logs_ret |]. apply allowed_looks_up, logs_control_available.
    intros path. by apply (looks_up_probe Zmx); [| left].
  - intros [|] Hy.
    + apply logs_attach_with; [apply passive_allowed |]. case_bool_decide as Hs; [by apply yields_ret in Hy |].
      apply allowed_zmx_control; [done | by apply eq_None_not_Some | done].
    + apply logs_bind_yields; [unfold attach_argv; prov_solve |]. intros argv (path & _ & ->%yields_ret)%yields_bind.
      apply logs_attach_with; [apply passive_allowed |]. apply allowed_spawn_shell; eauto.
Qed.

Lemma allowed_attach c : plain c → rb_op req = Attach → rb_session_name req = Some name → logs Q (serve_attach se req c).
Proof.
  intros Hc Hop Hn. pose proof Hc as (Hh & Hz & Ht). unfold serve_attach. rewrite Hn.
  apply logs_or_reject; [apply passive_allowed | by apply allowed_looks_up, looks_up_resolve | intros selected].
  apply allowed_resolve_user. intros user Hu. apply logs_bind; [eauto with prov | intros _].
  destruct selected as [g| | | |]; [| | by apply allowed_zmx_attach | |].
  - case_bool_decide as Hs; [eauto with prov | apply eq_None_not_Some in Hs].
    apply logs_attach_with; [apply passive_allowed | by apply logs_act].
  - case_bool_decide as Hs; [eauto with prov | apply eq_None_not_Some in Hs].
    apply logs_attach_with; [apply passive_allowed | by apply allowed_herdr].
  - case_bool_decide as Hs; [eauto with prov | apply eq_None_not_Some in Hs].
    apply logs_bind_yields; [by apply allowed_plan |]. intros plan Hplan%plan_session_name.
    apply logs_bind; [by apply logs_attempt, allowed_viewport | intros snap].
    apply logs_attach_with; [apply passive_allowed |]. rewrite Hplan. by apply allowed_tmux_control.
  - case_match; [eauto with prov |]. apply logs_attach_with; [apply passive_allowed |].
    apply allowed_spawn_shell; eauto.
Qed.

Lemma allowed_attach_v2 c : plain c → rb_op req = AttachV2 → rb_session_name req = Some name →
  logs Q (serve_attach_v2 se req c).
Proof.
  intros (Hh & Hz & Ht) Hop Hn. unfold serve_attach_v2. rewrite Hn.
  apply logs_or_reject; [apply passive_allowed | by apply allowed_looks_up, looks_up_resolve | intros selected].
  destruct selected as [g| | | |]; try by eauto with prov.
  case_bool_decide as Hs; [eauto with prov | apply eq_None_not_Some in Hs].
  apply allowed_resolve_user. intros user Hu. apply logs_bind; [eauto with prov | intros _].
  apply logs_or_reject; [apply passive_allowed | by apply logs_act | intros _].
  apply logs_bind; [| eauto with prov]. intros w. unfold random_id. by destruct (draw_id w).
Qed.

End effects.

Lemma allowed_op `{SH : SessionHost W} `{J : SerdeJson} se req c : session_permits se req = Ok tt → plain c →
  logs (allowed_effect se req) (serve_op se req c).
Proof.
  intros Hp Hc. pose proof (passive_allowed se req) as HQ. unfold serve_op.
  destruct (rb_op req) eqn:Hop.
  - apply logs_bind; [by apply logs_passive | intros _]. apply logs_bind; [| intros ?; by apply logs_write_ack].
    by apply allowed_looks_up, looks_up_report.
  - apply logs_bind; [by apply logs_attempt, allowed_looks_up, looks_up_groups | intros [groups|e]];
      apply logs_bind; try (intros _; by apply logs_write_ack); by apply logs_passive.
  - destruct (rb_session_name req) as [name|] eqn:Hn; [by apply (allowed_attach se req name) |].
    unfold serve_attach. rewrite Hn. by apply logs_write_ack.
  - case_match; [| by apply logs_write_ack]. destruct (rb_session_name req) as [name|] eqn:Hn; [by apply (allowed_attach_v2 se req name) |].
    unfold serve_attach_v2. rewrite Hn. by apply logs_write_ack.
  - apply logs_or_reject; [done | by apply allowed_looks_up, looks_up_select | intros selected].
    destruct (rb_session_name req) as [name|] eqn:Hn; [| by apply logs_write_ack].
    destruct (rb_argv req) as [[|a argv]|] eqn:Ha; try by apply logs_write_ack.
    apply logs_bind; [by apply logs_passive | intros _].
    apply logs_command_or_reject; [done | by apply allowed_run | intros ?; by apply logs_write_ack].
  - unfold serve_history. destruct (rb_session_name req) as [name|] eqn:Hn; [| by apply logs_write_ack].
    apply logs_or_reject; [done | by apply allowed_looks_up, looks_up_resolve | intros selected].
    apply logs_bind; [by apply logs_passive | intros _].
    apply logs_command_or_reject; [done | by apply allowed_history | intros ?; by apply logs_write_ack].
  - unfold serve_kill. destruct (rb_session_name req) as [name|] eqn:Hn; [| by apply logs_write_ack].
    apply logs_or_reject; [done | by apply allowed_looks_up, looks_up_resolve | intros selected].
    apply logs_bind; [by apply logs_passive | intros _].
    apply logs_command_or_reject; [done | by apply allowed_kill | intros ?; by apply logs_write_ack].
Qed.

(** What a control stream does, on whichever input and host: an effect on the host needs
    the token of the session, its protocol and a ticket that permits a terminal for the
    user asked for; and it is one of the operation asked for, on the session asked for. *)
Lemma session_effects `{SH : SessionHost W} `{J : SerdeJson} se req :
  logs (λ e, acts e = true → valid_preamble se (sq_preamble req) = true ∧ session_permits se (sq_body req) = Ok tt ∧
             allowed_effect se (sq_body req) e) (serve_control_stream se req).
Proof.
  unfold serve_control_stream. destruct (valid_preamble se (sq_preamble req)); [| apply logs_lift].
  simpl. destruct (session_permits se (sq_body req)) as [[]|reason] eqn:Hp.
  - apply (logs_mono (allowed_effect se (sq_body req))); [by auto | by apply allowed_op].
  - apply logs_bind; [by apply logs_log | intros _]. by apply logs_act.
Qed.

(** ** Answers and registries *)

Definition is_ack (e : SessionEvent) : bool := match e with WriteAck _ => true | _ => false end.
Definition acks (l : list SessionEvent) : nat := length (List.filter is_ack l).

(** An acknowledgement that names a session is sent while the session is registered. *)
Fixpoint announced (regs : Registries) (l : list SessionEvent) : Prop :=
  match l with
  | [] => True
  | e :: l' =>
      match e with
      | WriteAck a => match sa_session_id a with Some i => ∃ r, (r, i) ∈ regs | None => True end
      | _ => True
      end ∧ announced (apply_registry regs e) l'
  end.

(** Effects without a part in the answer. *)
Definition silent (e : SessionEvent) : bool :=
  match e with WriteAck _ | Register _ _ | Deregister _ _ | Pump _ _ _ => false | _ => true end.

Section answers.
Context `{SH : SessionHost W} `{J : SerdeJson}.

Abbreviation quiet := (logs (λ e, silent e = true)).

Record well_answered (r : result string unit) (l : list SessionEvent) : Prop := {
  wa_once : (acks l ≤ 1)%nat;
  wa_ok : r = Ok tt → acks l = 1%nat;
  wa_registry regs : foldl apply_registry regs l ⊆ regs;
  wa_announced regs : announced regs l;
}.

Definition answers (m : H unit) : Prop :=
  ∀ w : W, let o : result string unit * list SessionEvent * W := m w in well_answered o.1.1 o.1.2.

Lemma silent_prefix r l l' : Forall (λ e, silent e = true) l → well_answered r l' → well_answered r (l ++ l').
Proof.
  induction 1 as [|e l He _ IH]; [done |]. intros [H1 H2 H3 H4]%IH.
  destruct e; try done; split; simpl; auto.
Qed.

Lemma silent_alone e l : Forall (λ e, silent e = true) l → well_answered (Err e) l.
Proof. intros Hl. rewrite <- (app_nil_r l). apply silent_prefix; [done |]. split; [unfold acks; simpl; lia | done | set_solver | done]. Qed.

Lemma answers_bind {A} (m : H A) k : quiet m → (∀ a, answers (k a)) → answers (m ≫= k).
Proof.
  intros Hm Hk w. unfold mbind, prov_bind. specialize (Hm w). destruct (m w) as [[[a|e] l] w1]; simpl in *.
  - specialize (Hk a w1). destruct (k a w1) as [[r l'] w2]. by apply silent_prefix.
  - by apply silent_alone.
Qed.

Lemma answers_lift e : answers (lift (Err e)).
Proof. intros w. by apply silent_alone. Qed.

Lemma answers_write_ack ack : sa_session_id ack = None → answers (write_ack ack).
Proof. intros Hi w. unfold write_ack, act. destruct (send_ack ack w). split; simpl; try done. by rewrite Hi. Qed.

Lemma answers_or_reject {E A} f (m : Prov W SessionEvent E A) k : quiet m → (∀ a, answers (k a)) → answers (or_reject f m k).
Proof. intros Hm Hk. apply answers_bind; [by apply logs_attempt | intros [a|e]; [done | by apply answers_write_ack]]. Qed.

Lemma answers_command_or_reject {A} op (m : H A) k : quiet m → (∀ a, answers (k a)) → answers (command_or_reject op m k).
Proof.
  intros Hm Hk. apply answers_bind; [by apply logs_attempt | intros [a|e]; [done |]].
  apply answers_bind; [by apply logs_log | intros _; by apply answers_write_ack].
Qed.

Lemma answers_hold r provider i : answers (hold r provider i).
Proof.
  intros w. unfold hold, mbind, prov_bind, log, attempt, write_ack, act, wait_closed, lift.
  destruct (send_ack _ w) as [[[]|e] w1]; simpl; [destruct (await_close w1) as [res w2]; simpl |];
    (split; simpl; [done | done | set_solver | intros regs; split_and!; try done; exists r; set_solver]).
Qed.

Lemma answers_attach_with r provider start : quiet start → answers (attach_with r provider start).
Proof.
  intros Hs. apply answers_bind; [intros w; unfold random_id; by destruct (draw_id w) | intros i].
  apply answers_or_reject; [done | intros _; apply answers_hold].
Qed.

Lemma quiet_looks_up {E A} (m : Prov W SessionEvent E A) : logs looks_up m → quiet m.
Proof. apply logs_mono. by intros e [->|(p & path & a & -> & _)]. Qed.

Hint Resolve answers_write_ack answers_hold answers_lift : prov.

Lemma quiet_resolve_user u : quiet ((λ w, (resolve_user u w, [], w)) : Prov W SessionEvent SpawnReject RequestedUser).
Proof. by intros w. Qed.

Lemma quiet_ops c s name cwd argv : quiet (run c s name cwd argv) ∧ quiet (history c s name) ∧ quiet (kill c s name).
Proof.
  split_and!; destruct s; simpl; try apply logs_lift; try (by apply logs_act);
    unfold zmx_run, zmx_history, zmx_kill, tmux_history, tmux_kill; try apply logs_capture_then; try (by intros o; prov_solve).
Qed.

Lemma quiet_plan tmux name : quiet (plan_tmux_attach tmux name).
Proof.
  unfold plan_tmux_attach. case_match; [apply logs_ret |]. apply logs_bind; [apply logs_attempt | intros ?; apply logs_ret].
  apply logs_capture_then; [done | intros o; prov_solve].
Qed.

Lemma quiet_viewport tmux target : quiet (viewport_snapshot RunCommand tmux target : H bytes).
Proof.
  apply logs_capture_then; [done | intros o]. apply logs_bind; [apply logs_lift | intros _]. cbv beta zeta.
  case_match. apply logs_ret.
Qed.

Lemma quiet_zmx_control p name req ctx : quiet (spawn_zmx_control_process p name req ctx).
Proof. unfold spawn_zmx_control_process, control_command. prov_solve. Qed.

Lemma quiet_herdr p name ctx : quiet (spawn_herdr_attach p name ctx).
Proof. unfold spawn_herdr_attach, bridge_command. prov_solve. Qed.

Lemma quiet_tmux_control p name target req ctx snap err : quiet (spawn_tmux_control_process p name target req ctx snap err).
Proof. unfold spawn_tmux_control_process, control_spawn_config_with_env. prov_solve. Qed.

Lemma answers_attach se req c : plain c → answers (serve_attach se req c).
Proof.
  intros Hc. unfold serve_attach. destruct (rb_session_name req) as [name|]; [| by apply answers_write_ack].
  apply answers_or_reject; [by apply quiet_looks_up, looks_up_resolve | intros selected].
  apply answers_or_reject; [apply quiet_resolve_user | intros user].
  apply answers_bind; [by apply logs_log | intros _].
  destruct selected as [g| | | |].
  - case_bool_decide; [by apply answers_write_ack | by apply answers_attach_with, logs_act].
  - case_bool_decide; [by apply answers_write_ack |]. apply answers_attach_with, quiet_herdr.
  - apply answers_bind; [case_bool_decide; [apply logs_ret | by apply logs_control_available] |].
    intros [|]; [apply answers_attach_with, quiet_zmx_control |].
    apply answers_bind; [unfold attach_argv; prov_solve | intros argv]. by apply answers_attach_with, logs_act.
  - case_bool_decide; [by apply answers_write_ack |]. apply answers_bind; [apply quiet_plan | intros plan].
    apply answers_bind; [apply logs_attempt, quiet_viewport | intros snap]. apply answers_attach_with, quiet_tmux_control.
  - case_match; [by apply answers_write_ack | by apply answers_attach_with, logs_act].
Qed.

Lemma answers_attach_v2 se req c : plain c → answers (serve_attach_v2 se req c).
Proof.
  intros (Hh & Hz & Ht). unfold serve_attach_v2. destruct (rb_session_name req) as [name|]; [| by apply answers_write_ack].
  apply answers_or_reject; [by apply quiet_looks_up, looks_up_resolve | intros selected].
  destruct selected as [g| | | |]; try by apply answers_write_ack.
  case_bool_decide; [by apply answers_write_ack |].
  apply answers_or_reject; [apply quiet_resolve_user | intros user]. apply answers_bind; [by apply logs_log | intros _].
  apply answers_or_reject; [by apply logs_act | intros _].
  apply answers_bind; [intros w; unfold random_id; by destruct (draw_id w) | intros i; apply answers_hold].
Qed.

Lemma answers_named req c op (k : string → SelectedProvider W → H unit) : plain c →
  (∀ name s, answers (k name s)) →
  answers (match rb_session_name req with
           | None => write_reject MissingSessionName
           | Some name => or_reject id (resolve_provider_for_session c (rb_provider req) name op false) (k name)
           end).
Proof.
  intros Hc Hk. destruct (rb_session_name req); [| by apply answers_write_ack].
  apply answers_or_reject; [by apply quiet_looks_up, looks_up_resolve | auto].
Qed.

Lemma answers_op se req c : plain c → answers (serve_op se req c).
Proof.
  intros Hc. pose proof (λ s n cwd argv, quiet_ops c s n cwd argv) as Hops. unfold serve_op. destruct (rb_op req).
  - apply answers_bind; [by apply logs_log | intros _]. apply answers_bind; [| intros ?; by apply answers_write_ack].
    by apply quiet_looks_up, looks_up_report.
  - apply answers_bind; [by apply logs_attempt, quiet_looks_up, looks_up_groups | intros [groups|e]];
      (apply answers_bind; [by apply logs_log | intros _; by apply answers_write_ack]).
  - by apply answers_attach.
  - case_match; [by apply answers_attach_v2 | by apply answers_write_ack].
  - apply answers_or_reject; [by apply quiet_looks_up, looks_up_select | intros s].
    destruct (rb_session_name req) as [name|]; [| by apply answers_write_ack].
    destruct (rb_argv req) as [[|a argv]|]; try by apply answers_write_ack.
    apply answers_bind; [by apply logs_log | intros _].
    apply answers_command_or_reject; [by apply Hops | intros ?; by apply answers_write_ack].
  - apply answers_named; [done | intros name s]. apply answers_bind; [by apply logs_log | intros _].
    apply answers_command_or_reject; [by apply (Hops s name None []) | intros ?; by apply answers_write_ack].
  - apply answers_named; [done | intros name s]. apply answers_bind; [by apply logs_log | intros _].
    apply answers_command_or_reject; [by apply (Hops s name None []) | intros ?; by apply answers_write_ack].
Qed.

Lemma session_answers se req : answers (serve_control_stream se req).
Proof.
  unfold serve_control_stream. destruct (valid_preamble se (sq_preamble req)); [| apply answers_lift]. simpl.
  destruct (session_permits se (sq_body req)); [by apply answers_op |].
  apply answers_bind; [by apply logs_log | intros _; by apply answers_write_ack].
Qed.

End answers.

(** ** The provider of a session *)

Section resolve.
Context `{SH : SessionHost W} `{J : SerdeJson}.

Lemma zmx_persistent : SZmx ∈ (persistent_providers : list (SelectedProvider W)).
Proof. apply elem_of_app. right. right. left. Qed.

Lemma ghostty_persistent g : SGhostty g ∈ (persistent_providers : list (SelectedProvider W)) → ghostty = Some g.
Proof.
  unfold persistent_providers. rewrite elem_of_app. intros [H|H].
  - destruct ghostty; simpl in H; [apply list_elem_of_singleton in H; congruence | by apply not_elem_of_nil in H].
  - by repeat (apply elem_of_cons in H as [H|H]; [done |]); apply not_elem_of_nil in H.
Qed.

Lemma providers_by_name (s s' : SelectedProvider W) : s ∈ persistent_providers → s' ∈ persistent_providers →
  provider_name s = provider_name s' → s = s'.
Proof.
  destruct s as [g| | | |], s' as [g'| | | |]; try done. intros Hg%ghostty_persistent Hg'%ghostty_persistent _. congruence.
Qed.

Lemma find_provider n : match List.find (λ s : SelectedProvider W, bool_decide (provider_name s = n)) persistent_providers with
  | Some s => s ∈ persistent_providers ∧ provider_name s = n
  | None => ∀ s, s ∈ persistent_providers → provider_name s ≠ n
  end.
Proof.
  destruct (List.find _ _) as [s|] eqn:Hf.
  - apply List.find_some in Hf as [Hin Hn%bool_decide_eq_true]. by rewrite list_elem_of_In.
  - intros s Hs%list_elem_of_In Hn. pose proof (List.find_none _ _ Hf s Hs) as Hb. simpl in Hb.
    by rewrite bool_decide_true in Hb.
Qed.

Lemma push_provider_spec acc e : (∀ s, s ∈ acc → s ∈ persistent_providers) → NoDup (provider_name <$> acc) →
  NoDup (provider_name <$> push_provider acc e) ∧
  ∀ s, s ∈ push_provider acc e ↔ s ∈ acc ∨ s ∈ persistent_providers ∧ e_provider e = provider_name s.
Proof.
  intros Hacc Hnd. unfold push_provider. pose proof (find_provider (e_provider e)) as Hf.
  destruct (List.find _ _) as [p|].
  - destruct Hf as [Hp Hn]. case_bool_decide as Hin.
    + split; [done |]. intros s. split; [by left | intros [Hs|[Hs He]]; [done |]].
      rewrite <- (providers_by_name p s) by (done || congruence).
      apply list_elem_of_fmap in Hin as (q & Hq & Hqin). by rewrite (providers_by_name p q) by auto.
    + rewrite fmap_app. split.
      * apply NoDup_app. split_and!; [done | | by apply NoDup_singleton].
        intros x Hx ->%list_elem_of_singleton. by apply Hin.
      * intros s. rewrite elem_of_app, list_elem_of_singleton. split; [intros [?| ->]; auto |].
        intros [?|[Hs He]]; [by left | right]. apply providers_by_name; congruence.
  - split; [done |]. intros s. split; [by left | intros [Hs|[Hs He]]; [done |]]. by destruct (Hf s Hs).
Qed.

Lemma push_providers_spec es acc : (∀ s, s ∈ acc → s ∈ persistent_providers) → NoDup (provider_name <$> acc) →
  NoDup (provider_name <$> foldl push_provider acc es) ∧
  ∀ s, s ∈ foldl push_provider acc es ↔
    s ∈ acc ∨ s ∈ persistent_providers ∧ ∃ e, e ∈ es ∧ e_provider e = provider_name s.
Proof.
  revert acc. induction es as [|e es IH]; intros acc Hacc Hnd; simpl.
  - split; [done |]. intros s. split; [by left | intros [?|(_ & e & []%not_elem_of_nil & _)]; done].
  - destruct (push_provider_spec acc e Hacc Hnd) as [Hnd' Hs].
    destruct (IH (push_provider acc e)) as [Hnd2 Hs2]; [| done | split; [done |]].
    + intros s [?|[? _]]%Hs; auto.
    + intros s. rewrite Hs2, Hs. split.
      * intros [[?|[? He]]|(? & e' & ? & ?)]; [by left | right | right]; split; try done; [exists e | exists e']; set_solver.
      * intros [?|(? & e' & [->|?]%elem_of_cons & ?)]; [by auto | by auto |]. right. eauto.
Qed.

(** A provider that lists the session. *)
Definition holds_session (entries : list SessionEntry) (name : string) (s : SelectedProvider W) : Prop :=
  s ∈ persistent_providers ∧ ∃ e, e ∈ entries ∧ entry_matches name e = true ∧ e_provider e = provider_name s.

Lemma matching_spec name entries : NoDup (provider_name <$> matching_providers name entries) ∧
  ∀ s, s ∈ matching_providers name entries ↔ holds_session entries name s.
Proof.
  destruct (push_providers_spec (List.filter (entry_matches name) entries) []) as [Hnd Hs];
    [by intros s ?%not_elem_of_nil | by apply NoDup_nil_2 |]. split; [done |]. intros s. unfold matching_providers. rewrite Hs.
  unfold holds_session. split.
  - intros [?%not_elem_of_nil|(? & e & Hin & ?)]; [done |]. split; [done |]. exists e.
    apply list_elem_of_In, filter_In in Hin as [Hin Hm]. by rewrite list_elem_of_In.
  - intros (? & e & Hin & Hm & ?). right. split; [done |]. exists e. split; [| done].
    apply list_elem_of_In, filter_In. by rewrite <- list_elem_of_In.
Qed.

(** C30: without a provider in the request, an operation on a session that is listed
    somewhere, or may not be created, goes to a provider exactly when that provider lists
    the session and no other one does. *)
Theorem resolve_provider_exact c name op create w entries l w1 s :
  aggregate_session_entries c w = (Ok entries, l, w1) →
  create = false ∨ (∃ s', holds_session entries name s') →
  (resolve_provider_for_session c None name op create w).1.1 = Ok s ↔
  holds_session entries name s ∧ ∀ s', holds_session entries name s' → s' = s.
Proof.
  intros Ha Hc. destruct (matching_spec name entries) as [Hnd Hs]. unfold resolve_provider_for_session, mbind, prov_bind, with_err.
  rewrite Ha. simpl. setoid_rewrite <- Hs. setoid_rewrite <- Hs in Hc.
  destruct (matching_providers name entries) as [|s1 [|s2 k]] eqn:Hm; simpl.
  - destruct create; simpl; [destruct Hc as [|[s' []%not_elem_of_nil]]; done |].
    split; [done | by intros [[]%not_elem_of_nil _]].
  - split; [intros [= <-] | by intros [->%list_elem_of_singleton _]].
    split; [by left | by intros s' ->%list_elem_of_singleton].
  - split; [done |]. intros [_ Hall]. assert (s1 = s2) as -> by (rewrite (Hall s1), (Hall s2); [done | set_solver ..]).
    apply NoDup_cons in Hnd as [Hnin _]. destruct Hnin. set_solver.
Qed.

End resolve.

(** ** Theorems *)

Section theorems.
Context `{SH : SessionHost W} `{J : SerdeJson}.

(** C5: whatever the host answers, a process is run or started for a stream of the session
    protocol only if the stream has the token of the session and its ticket permits a
    terminal for the user asked for; and then it is a lookup of providers and sessions, or
    the one operation asked for on the session asked for, with the arguments asked for. *)
Theorem session_effects_authorised se req w e :
  e ∈ (serve_control_stream se req w).1.2 → acts e = true →
  peer_token (sq_preamble req) = se_peer_token se ∧ alpn (sq_preamble req) = ALPN_SESSION_V1 ∧
  terminal_for (se_caps se) (rb_user (sq_body req)) ∧
  allowed_effect se (sq_body req) e.
Proof.
  intros He Ha. pose proof (session_effects se req w) as Hl. rewrite Forall_forall in Hl.
  destruct (Hl e He Ha) as (Hv & Hp%session_permits_Ok & Hal).
  unfold valid_preamble in Hv. apply andb_true_iff in Hv as [Ht%bool_decide_eq_true Hn%bool_decide_eq_true]. done.
Qed.

(** C17: a control stream of the session protocol is answered at most once, and exactly once
    when its handler succeeds; a session it names in the answer is registered then, so that
    the client can open its streams; and when the handler is over, however it ends, it
    leaves nothing in the registries. *)
Theorem session_answered_once se req w regs :
  let o : result string unit * list SessionEvent * W := serve_control_stream se req w in
  (acks o.1.2 ≤ 1)%nat ∧ (o.1.1 = Ok tt → acks o.1.2 = 1%nat) ∧
  announced regs o.1.2 ∧ foldl apply_registry regs o.1.2 ⊆ regs.
Proof. intros o. destruct (session_answers se req w). auto. Qed.

Lemma probe_identity k p st : yields (probe RunCommand k p : H ProviderStatus) st →
  ps_name st = kind_name k ∧ capabilities st = kind_caps k.
Proof.
  assert (∀ path a tr fs, yields (version_status RunCommand k p path a tr fs : H ProviderStatus) st →
    ps_name st = kind_name k ∧ capabilities st = kind_caps k) as Hv.
  { intros path a tr fs (r & _ & ->%yields_ret)%yields_bind. destruct r as [o|e]; [by destruct (success o) | done]. }
  intros ([path|] & _ & Hy)%yields_bind; [| by apply yields_ret in Hy as ->].
  destruct k; [| by apply Hv in Hy ..].
  apply yields_bind in Hy as ([[[tr fs] note]|] & _ & Hy); [by apply yields_ret in Hy as -> | by apply Hv in Hy].
Qed.

Definition op_capability (op : SessionOp) (c : ProviderCapabilities) : bool :=
  match op with Run => can_run c | History => can_history c | Kill => can_kill c | _ => true end.

Lemma available_supported k cfg name (s : SelectedProvider W) w p q :
  (((r ← attempt (probe RunCommand k cfg); lift (ensure_available r name s)) : R (SelectedProvider W)) w).1.1 ≠
  Err (CapabilityUnsupported p q).
Proof.
  unfold mbind, prov_bind, attempt. destruct (probe RunCommand k cfg w) as [[[st|e] l] w1]; [| done].
  unfold lift, ensure_available. simpl. by destruct (available st).
Qed.

Lemma report_has_raw c w :
  let m : H ProviderReport := provider_report RunCommand (ghostty_status <$> ghostty) (c_herdr c) (c_zmx c) (c_tmux c) in
  is_ok (m w).1.1 = true → ∃ report, yields m report ∧ raw_status ∈ report_providers report.
Proof.
  intros m Hok. destruct (m w).1.1 as [report|e] eqn:Hr; [| done]. exists report. assert (yields m report) as Hy by (by exists w).
  split; [done |]. apply yields_bind in Hy as (h & _ & (z & _ & (t & _ & ->%yields_ret)%yields_bind)%yields_bind). set_solver.
Qed.

(** The capabilities in the report of the providers are those the operations go by: the
    run, history or kill of a session with a provider of the report is refused as
    unsupported exactly when the report says the provider cannot do it. *)
Theorem report_matches_operations c report st op w :
  yields (provider_report RunCommand (ghostty_status <$> ghostty) (c_herdr c) (c_zmx c) (c_tmux c) : H ProviderReport) report →
  st ∈ report_providers report → op = Run ∨ op = History ∨ op = Kill →
  (select_provider c (Some (ps_name st)) op w).1.1 = Err (CapabilityUnsupported (ps_name st) (op_name op)) ↔
  op_capability op (capabilities st) = false.
Proof.
  intros (h & [Hhn Hhc]%probe_identity & (z & [Hzn Hzc]%probe_identity & (t & [Htn Htc]%probe_identity &
    ->%yields_ret)%yields_bind)%yields_bind)%yields_bind Hst Hop.
  pose proof (available_supported Herdr (c_herdr c) "herdr" SHerdr w) as Hh.
  pose proof (available_supported Zmx (c_zmx c) "zmx" SZmx w) as Hz.
  pose proof (available_supported Tmux (c_tmux c) "tmux" STmux w) as Ht.
  apply elem_of_app in Hst as [Hst|Hst].
  - destruct ghostty as [g|] eqn:Hg; simpl in Hst; [| by apply not_elem_of_nil in Hst].
    apply list_elem_of_singleton in Hst as ->. unfold select_provider. rewrite Hg. by destruct Hop as [->|[->| ->]].
  - repeat apply elem_of_cons in Hst as [->|Hst]; [| | | | by apply not_elem_of_nil in Hst];
      rewrite ?Hhn, ?Hhc, ?Hzn, ?Hzc, ?Htn, ?Htc; destruct Hop as [->|[->| ->]]; unfold select_provider; simpl;
      (split; [intros He; try done; by apply Hh in He || by apply Hz in He || by apply Ht in He | done]).
Qed.

(** Only a control stream runs anything. *)
Lemma stream_acts regs se p first w e : e ∈ (serve_stream regs se p first w).1.2 → acts e = true →
  ∃ req, first = Some (ControlFrame req) ∧ session_permits se req = Ok tt.
Proof.
  intros He Ha. destruct first as [[req|tail]|]; cbn [serve_stream] in He.
  - exists req. split; [done |]. pose proof (session_effects se {| sq_preamble := p; sq_body := req |} w) as Hl. rewrite Forall_forall in Hl. by apply (Hl e He Ha).
  - exfalso. unfold serve_substream, lookup_registry in He. repeat case_match; apply list_elem_of_singleton in He || apply not_elem_of_nil in He; by subst.
  - by apply not_elem_of_nil in He.
Qed.

(** C1: from the offer to the effect: what a session makes the agent do is permitted by every ticket of the chain it
    was offered: the ticket and the chain in the offer decode, and each of them is signed by one trusted key, was in force and not
    revoked when the session was accepted, and permits each TCP connection, Unix socket, UDP session and shell process of the
    streams of the session, and a terminal, for the user asked for, for whatever its streams of the session protocol run.  TCP listeners
    are permitted as far as narrowing keeps them: on loopback names, or by tickets without a rule for any host. *)
Theorem end_to_end_authority `{Sha256, Hex, !Json Rev.RevocationRecord, Iroh, Ed25519, !Postcard PortlBody, !Postcard PortlTicket, !Postcard TicketOffer}
    offer_bytes source_id tr rv rate mode now ack_now ack se :
  handshake offer_bytes source_id tr rv rate mode now ack_now = (ack, Some se) →
  ∃ offer terminal chain, from_bytes offer_bytes = Some offer ∧ Codec.decode (of_ticket offer) = Ok terminal ∧
    Forall2 (λ bs t, Codec.decode bs = Ok t) (of_chain offer) chain ∧ se_ticket_issuer_id se ∈ tr ∧
    ∀ t, t ∈ chain ++ [terminal] →
      signed_by (se_ticket_issuer_id se) (body t) (sig t) ∧
      not_before (body t) ≤ saturating_add U64_MAX now 60 ∧ now < not_after (body t) ∧ Rev.contains rv (ticket_id (sig t)) = false ∧
      (∀ e st p fr evs res st' ev, Streams.serve_stream e st se p fr = Some ((evs, res), st') → ev ∈ evs → permits_event (caps (body t)) p ev) ∧
      (∀ regs p first w e, e ∈ (serve_stream regs se p first w).1.2 → acts e = true →
         ∃ req, first = Some (ControlFrame req) ∧ terminal_for (caps (body t)) (rb_user req)).
Proof.
  intros (offer & terminal & chain & Hof & Hac & Hcaps & _ & Hk)%handshake_acceptable. exists offer, terminal, chain.
  split_and!; [done | apply Hac | apply Hac | |].
  - by apply (acceptable_chain _ _ _ terminal _ Hac); [apply elem_of_app; right; by apply list_elem_of_singleton |].
  - intros t Ht. destruct (acceptable_chain _ _ _ t _ Hac Ht Hk) as (_ & Hs & Hb & Ha & Hr & Hat). rewrite <- Hcaps in Hat. split_and!; try done.
    + intros e st p fr evs res st' ev Hst%serve_stream_effects Hev. rewrite Forall_forall in Hst. destruct (Hst ev Hev) as [Hp _].
      by eapply permits_event_attenuates.
    + intros regs p first w e He Hacts. destruct (stream_acts regs se p first w e He Hacts) as (req & -> & Hp). exists req. split; [done |].
      unfold session_permits in Hp. apply map_err_Ok in Hp. by apply Hat, terminal_permits in Hp.
Qed.

(** With a configured path whose program is tmux, the status of the agent reports the
    zmx it finds by itself, but the requests of the session protocol take the configured
    program for zmx and run that. *)
Theorem configured_tmux_taken_for_zmx w p : session_provider_path = Some p → file_name p = Some "tmux" → path_exists w p = true →
  (installed_path Zmx (c_zmx request_cfgs) w : result string string * list SessionEvent * W).1.1 = Ok p ∧
  ∃ i, i ∈ sp_providers (provider_discovery_info session_provider_path w) ∧ spi_name i = "zmx" ∧
    spi_path i = List.find (path_exists w) (fst <$> candidates "zmx" stable_provider_dirs default_target_home None).
Proof.
  intros Hp Hf He. split.
  - unfold installed_path, mbind, prov_bind, resolve_path, ask. simpl. rewrite Hp. simpl. by rewrite He.
  - eexists. split; [unfold provider_discovery_info; cbn [sp_providers]; apply elem_of_app; right; right; left |].
    split; [done |]. cbn [spi_path provider_info]. rewrite Hp.
    assert (named "tmux" (Some p) = Some p) as -> by (unfold named, mbind, option_bind; by rewrite bool_decide_true).
    rewrite (bool_decide_true (is_Some (Some p))) by done. exact (discovery_first_existing (path_exists w) "zmx" None _ _ None).
Qed.

End theorems.

(** ** A concrete host *)

Module Demo.
Import Params Chain.Demo Agent1.

(** zmx is installed, answers every command, and has one session. *)
Definition zmx_answers (c : Cmd) : ExecOut :=
  {| exit_code := Some 0;
     out_stdout := if bool_decide (args c = ["list"]) then str_bytes ("dev" +:+ Rev.newline) else []; out_stderr := [] |}.

#[export] Instance no_json : SerdeJson := {| json_value := λ _, None; json_show := λ _, EmptyString |}.

#[export] Instance zmx_host : SessionHost unit := {|
  host := {| exec := λ c w, (Ok (zmx_answers c), w); path_exists := λ _ p, bool_decide (p = "/usr/local/bin/zmx");
             agent_env := λ _, None |};
  ghostty := None; euid_home := None; session_provider_path := None;
  resolve_user := λ _ _, Err (uid_lookup_failed "none");
  spawn_process := λ _ _ w, (Ok tt, w); spawn_child := λ _ w, (Ok tt, w); spawn_pty := λ _ _ w, (Ok tt, w);
  draw_id := λ w, ([7], w); send_ack := λ _ w, (Ok tt, w); await_close := λ w, (Ok tt, w); debug_reason := λ _, "" |}.

Definition shell_only : Capabilities := {|
  presence := 1; shell := Some {| user_allowlist := None; pty_allowed := true; exec_allowed := false;
    command_allowlist := None; env_policy := Deny |};
  tcp := None; udp := None; fs := None; vpn := None; meta := None; unix := None |}.

Definition kill_req (se : Session) : SessionReq := {|
  sq_preamble := {| peer_token := se_peer_token se; alpn := ALPN_SESSION_V1 |};
  sq_body := {| rb_op := Kill; rb_provider := Some "zmx"; rb_session_name := Some "dev"; rb_user := None; rb_cwd := None;
                rb_argv := None; rb_pty := None; rb_attach_v2 := None |} |}.

Definition me : Session := Demo2.session_of shell_only.

Lemma session_effects_authorised_witness :
  ∃ e, e ∈ (serve_control_stream me (kill_req me) tt).1.2 ∧ acts e = true ∧ allowed_effect me (sq_body (kill_req me)) e.
Proof.
  assert (existsb acts (serve_control_stream me (kill_req me) tt).1.2 = true) as He by (vm_compute; reflexivity).
  apply existsb_exists in He as (e & He & Ha). apply list_elem_of_In in He. exists e. split; [exact He | split; [exact Ha |]].
  apply (session_effects_authorised me (kill_req me) tt e He Ha).
Defined.

Lemma session_answered_once_witness : acks (serve_control_stream me (kill_req me) tt).1.2 = 1%nat.
Proof. refine (proj1 (proj2 (session_answered_once me (kill_req me) tt ∅)) _). vm_compute. reflexivity. Defined.

Lemma resolve_provider_exact_witness :
  (resolve_provider_for_session request_cfgs None "dev" Kill false tt).1.1 = Ok SZmx.
Proof.
  destruct (aggregate_session_entries request_cfgs tt) as [[r l] w1] eqn:Ha.
  assert (r = Ok [{| e_provider := "zmx"; e_name := "dev" |}]) as ->
    by (change r with ((r, l, w1).1.1); rewrite <- Ha; vm_compute; reflexivity).
  refine (proj2 (resolve_provider_exact request_cfgs "dev" Kill false tt _ l w1 SZmx Ha (or_introl eq_refl)) _).
  clear. split.
  - split; [exact zmx_persistent |]. exists {| e_provider := "zmx"; e_name := "dev" |}.
    split; [apply list_elem_of_here | split; vm_compute; reflexivity].
  - intros s' (Hin & e & He & _ & Hn). apply list_elem_of_singleton in He as ->.
    apply (providers_by_name s' SZmx Hin zmx_persistent). symmetry. exact Hn.
Defined.

Lemma report_matches_operations_witness :
  (select_provider request_cfgs (Some "raw") Kill tt).1.1 = Err (CapabilityUnsupported "raw" "kill").
Proof.
  destruct (report_has_raw request_cfgs tt) as (report & Hy & Hin).
  - vm_compute. reflexivity.
  - apply (report_matches_operations request_cfgs report raw_status Kill tt Hy Hin); [by right; right | reflexivity].
Defined.

#[local] Instance any_record : Json Rev.RevocationRecord := {| to_json := λ _, Some "{}"; from_json := λ _, None |}.
#[local] Existing Instance Rev.Demo.raw_hex.

(** An offer of a ticket and its parent, and a stream that connects *)
Lemma end_to_end_authority_witness : ∃ offer terminal chain, from_bytes offer_bytes = Some offer ∧
  Codec.decode (of_ticket offer) = Ok terminal ∧ Forall2 (λ bs t, Codec.decode bs = Ok t) (of_chain offer) chain ∧ length (of_chain offer) = 1%nat ∧
  ∀ t, t ∈ chain ++ [terminal] → tcp_permits (caps (body t)) {| tr_preamble := Demo2.pre; tr_host := "localhost"; tr_port := 22 |} = Ok tt.
Proof.
  destruct (handshake offer_bytes [4] trusted no_revocations (λ _, true) Listener 150 151)
    as [ack [se|]] eqn:Hh; [|vm_compute in Hh; discriminate].
  assert (se_caps se = narrow_caps) as Hc by (vm_compute in Hh; injection Hh as _ <-; reflexivity).
  destruct (end_to_end_authority offer_bytes [4] trusted no_revocations (λ _, true) Listener 150 151 ack se Hh)
    as (offer & terminal & chain & Hof & Ht & Hch & _ & Hall).
  exists offer, terminal, chain. split_and!; [exact Hof | exact Ht | exact Hch | vm_compute in Hof; injection Hof as <-; reflexivity |].
  intros t Hin. destruct (Hall t Hin) as (_ & _ & _ & _ & Hs & _).
  apply (Hs Demo2.env Demo2.state {| peer_token := se_peer_token se; alpn := ALPN_TCP_V1 |} Demo2.frames
    [TcpConnect "localhost" 22; WriteTcpAck true None; Relay] (Ok tt) Demo2.state (TcpConnect "localhost" 22)).
  - unfold Streams.serve_stream. simpl. unfold tcp_serve_stream. rewrite bool_decide_eq_false_2 by (intros Hn; by apply Hn).
    simpl. unfold tcp_serve_connect. by rewrite Hc.
  - by left.
Defined.

(** The same host with a configured path, and tmux there. *)
Definition tmux_host : SessionHost unit := {|
  host := {| exec := λ c w, (Ok (zmx_answers c), w);
             path_exists := λ _ p, bool_decide (p = "/usr/local/bin/zmx") || bool_decide (p = "/opt/tmux"); agent_env := λ _, None |};
  ghostty := None; euid_home := None; session_provider_path := Some "/opt/tmux";
  resolve_user := λ _ _, Err (uid_lookup_failed "none");
  spawn_process := λ _ _ w, (Ok tt, w); spawn_child := λ _ w, (Ok tt, w); spawn_pty := λ _ _ w, (Ok tt, w);
  draw_id := λ w, ([7], w); send_ack := λ _ w, (Ok tt, w); await_close := λ w, (Ok tt, w); debug_reason := λ _, "" |}.

Lemma configured_tmux_taken_for_zmx_witness :
  (installed_path (HW := @host _ tmux_host) Zmx (c_zmx (@request_cfgs _ tmux_host)) tt
     : result string string * list SessionEvent * unit).1.1 = Ok "/opt/tmux" ∧
  ∃ i, i ∈ sp_providers (@provider_discovery_info _ tmux_host (Some "/opt/tmux") tt) ∧ spi_name i = "zmx" ∧
    spi_path i = Some "/usr/local/bin/zmx".
Proof.
  destruct (@configured_tmux_taken_for_zmx _ tmux_host tt "/opt/tmux") as [Hi (i & Hin & Hn & Hp)]; try (vm_compute; reflexivity).
  split; [exact Hi |]. exists i. split; [exact Hin |]. split; [exact Hn |]. rewrite Hp. vm_compute. reflexivity.
Defined.

End Demo.
