(* ===== verification/HerdrLanes.v ===== *)
(** * Lanes of an attached herdr session

    crates/portl-agent/src/session_handler/herdr.rs: the frames of the client arrive on
    four streams and are written to one bridge process by a weighted round robin; the
    frames of the bridge are put on three streams.

    The scheduler is a function of the queues; the senders of the lanes put frames in them
    between its turns, in any order.  A channel is a queue that may be closed. *)

From S2P Require Import Prelude Bytes HerdrWire.

(** ** Frames: herdr_wire.rs *)

(** The integer decoder of the bincode crate; on a canonical tag it agrees with
    [decode_tag_prefix], whose format is that of bincode. *)
Class Bincode := { bincode_u32 : bytes → result string (Z * nat) }.
Class BincodeLaws `{Bincode} := {
  bincode_tag payload tag w : decode_tag_prefix payload = Ok (tag, w) → bincode_u32 payload = Ok (tag, w);
}.

Definition frame_payload (l : bytes) : result HerdrFrameError bytes :=
  ensure (LENGTH_PREFIX_BYTES <=? length l)%nat (UnexpectedEof 4 (Z.of_nat (length l)));;
  let claimed := le_decode (take 4 l) in
  ensure (claimed <=? MAX_GRAPHICS_FRAME_SIZE) (Oversized claimed MAX_GRAPHICS_FRAME_SIZE);;
  let needed := 4 + claimed in
  ensure (needed <=? Z.of_nat (length l)) (UnexpectedEof needed (Z.of_nat (length l)));;
  ensure (Z.of_nat (length l) <=? needed) (HerdrWire.Bincode "frame contains trailing bytes");;
  Ok (drop 4 l).

#[export] Instance ClientLane_eq_dec : EqDecision ClientLane.
Proof. solve_decision. Defined.
#[export] Instance ServerLane_eq_dec : EqDecision ServerLane.
Proof. solve_decision. Defined.

Section frames.
Context `{Bincode}.

Definition frame_variant_tag (l : bytes) : result HerdrFrameError Z :=
  payload ← frame_payload l;
  '(tag, consumed) ← map_err HerdrWire.Bincode (bincode_u32 payload);
  ensure (negb (consumed =? 0)%nat) (HerdrWire.Bincode "decoded empty Herdr variant tag");;
  Ok tag.

Definition variant_tag (d : FrameDirection) (f : RawHerdrFrame) : result HerdrFrameError Z :=
  ensure (bool_decide (direction f = d)) (HerdrWire.Bincode "wrong Herdr frame direction");;
  frame_variant_tag (framed f).

Definition is_client_hello (f : RawHerdrFrame) : result HerdrFrameError bool :=
  tag ← variant_tag ClientToServer f; Ok (tag =? 0).

Definition frame_client_lane (f : RawHerdrFrame) : result HerdrFrameError ClientLane :=
  tag ← variant_tag ClientToServer f; Ok (client_lane_from_variant_tag tag).

Definition frame_server_lane (f : RawHerdrFrame) : result HerdrFrameError ServerLane :=
  tag ← variant_tag ServerToClient f; Ok (server_lane_from_variant_tag tag).

Definition is_hello (f : RawHerdrFrame) : bool :=
  match is_client_hello f with Ok b => b | Err _ => false end.

(** ** Reading streams *)

(** The loops that read frames of a stream, pass each through [check] and send it on.
    [avail n] are the permits that are free when the [n]-th frame is read and [alive n] tells
    whether its receiver is still there.  The result are the frames sent on with what
    [check] gave, and how the loop ended; [fuel] bounds the frames. *)
Fixpoint pump_frames {B} (fuel : nat) (avail : nat → HerdrFrameBudget) (alive : nat → bool) (d : FrameDirection)
    (check : RawHerdrFrame → result HerdrFrameError B) (input : bytes)
    : list (RawHerdrFrame * B) * option (result HerdrFrameError unit) :=
  match fuel with
  | O => ([], None)
  | S fuel' =>
      match read_herdr_frame input d (avail O) default_limits with
      | Err e => ([], Some (Err e))
      | Ok None => ([], Some (Ok tt))
      | Ok (Some (f, rest, _)) =>
          match check f with
          | Err e => ([], Some (Err e))
          | Ok b =>
              if alive O then
                let '(l, r) := pump_frames fuel' (λ n, avail (S n)) (λ n, alive (S n)) d check rest in ((f, b) :: l, r)
              else ([], Some (Err (HerdrWire.Bincode "send herdr frame")))
          end
      end
  end.

Definition expect_lane (expected : ClientLane) (f : RawHerdrFrame) : result HerdrFrameError ClientLane :=
  lane ← frame_client_lane f;
  ensure (bool_decide (lane = expected)) (HerdrWire.Bincode "Herdr frame received on another client stream");;
  Ok lane.

Definition pump_herdr_client_frames fuel avail alive expected (input : bytes) :=
  pump_frames fuel avail alive ClientToServer (expect_lane expected) input.

(** The coalescer takes every frame. *)
Definition pump_herdr_resize_frames fuel avail (input : bytes) :=
  pump_frames fuel avail (λ _, true) ClientToServer
    (λ f, lane ← frame_client_lane f;
          ensure (bool_decide (lane = ClientResize)) (HerdrWire.Bincode "non-resize Herdr frame received on resize client stream");;
          Ok lane) input.

Definition pump_bridge_stdout_to_server_lanes fuel avail alive (input : bytes) :=
  pump_frames fuel avail alive ServerToClient frame_server_lane input.

(** [pump_herdr_server_frames]: the bytes written for the frames of a lane. *)
Definition pump_herdr_server_frames (l : list RawHerdrFrame) : bytes := concat (framed <$> l).

End frames.

(** ** Channels and lanes *)

Record Chan (A : Type) := { queue : list A; closed : bool }.
Arguments queue {A}. Arguments closed {A}.

Definition push_back {A} (c : Chan A) (a : A) : Chan A := {| queue := queue c ++ [a]; closed := closed c |}.
Definition close {A} (c : Chan A) : Chan A := {| queue := queue c; closed := true |}.

Inductive TryRecv (A : Type) := Got (a : A) (c : Chan A) | Empty | Disconnected.
Arguments Got {A}. Arguments Empty {A}. Arguments Disconnected {A}.

Definition try_recv {A} (c : Chan A) : TryRecv A :=
  match queue c with
  | a :: q => Got a {| queue := q; closed := closed c |}
  | [] => if closed c then Disconnected else Empty
  end.

(** The receivers by the number of their lane: control, input, resize, bulk. *)
Definition Lanes (A : Type) : Type := nat → Chan A.
Definition set_at {B} (i : nat) (b : B) (f : nat → B) : nat → B := λ j, if (j =? i)%nat then b else f j.

Definition HERDR_CLIENT_LANE_WEIGHTS : list Z := [4; 8; 1; 1].
Definition lane_weight (i : nat) : Z := nth i HERDR_CLIENT_LANE_WEIGHTS 0.

Record Sched := { open : nat → bool; cursor : nat; remaining : Z }.

Definition any_open (s : Sched) : bool := open s 0%nat || open s 1%nat || open s 2%nat || open s 3%nat.

Definition move_to (s : Sched) (i : nat) : Sched := {| open := open s; cursor := i; remaining := lane_weight i |}.
Definition advance (s : Sched) : Sched := move_to s ((cursor s + 1) mod 4)%nat.
Definition close_lane (s : Sched) (i : nat) : Sched :=
  {| open := set_at i false (open s); cursor := cursor s; remaining := remaining s |}.

Section scheduler.
Context {A : Type}.

(** The [for] loop: [n] of its rounds. *)
Fixpoint scan (n : nat) (s : Sched) (lanes : Lanes A) : option (A * nat) * Sched * Lanes A :=
  match n with
  | O => (None, s, lanes)
  | S n' =>
      let s := if (remaining s =? 0) || negb (open s (cursor s)) then advance s else s in
      match try_recv (lanes (cursor s)) with
      | Got a c => (Some (a, cursor s), s, set_at (cursor s) c lanes)
      | Disconnected => scan n' (advance (close_lane s (cursor s))) lanes
      | Empty => scan n' (advance s) lanes
      end
  end.

(** The biased [select!] over the open lanes, once one of them is ready. *)
Definition ready (s : Sched) (lanes : Lanes A) (i : nat) : bool :=
  open s i && (negb (bool_decide (queue (lanes i) = [])) || closed (lanes i)).

Definition select (s : Sched) (lanes : Lanes A) : option (option (A * nat) * Sched * Lanes A) :=
  i ← List.find (ready s lanes) [0; 1; 2; 3]%nat;
  match try_recv (lanes i) with
  | Got a c => Some (Some (a, i), s, set_at i c lanes)
  | _ => Some (None, close_lane s i, lanes)
  end.

(** The accounting after a frame of [lane] was selected. *)
Definition account (s : Sched) (lane : nat) : Sched :=
  let s := if (lane =? cursor s)%nat then s else move_to s lane in
  let r := saturating_sub (remaining s) 1 in
  if r =? 0 then advance s else {| open := open s; cursor := cursor s; remaining := r |}.

(** [AwaitHello]: before the first frame of the control lane. *)
Inductive Pc := AwaitHello | Top | Waiting | Finished.

(** [written] and [sent] record the frames written to the bridge and put in the lanes, [lost] one that was taken from its lane
    and is not a hello or could not be written. *)
Record Pump := { sched : Sched; lanes : Lanes A; pc : Pc; written : list (A * nat); lost : list (A * nat); sent : list (A * nat) }.

Definition write (p : Pump) (s : Sched) (ls : Lanes A) (a : A) (lane : nat) : Pump :=
  {| sched := account s lane; lanes := ls; pc := Top; written := written p ++ [(a, lane)]; lost := lost p; sent := sent p |}.
Definition goto (p : Pump) (s : Sched) (ls : Lanes A) (q : Pc) : Pump :=
  {| sched := s; lanes := ls; pc := q; written := written p; lost := lost p; sent := sent p |}.
(** The pump returns with a frame in its hands: the receivers are dropped. *)
Definition lose (p : Pump) (s : Sched) (ls : Lanes A) (l : list (A * nat)) : Pump :=
  {| sched := s; lanes := ls; pc := Finished; written := written p; lost := lost p ++ l; sent := sent p |}.

(** One turn of the [while] loop after the hello, up to its write or to its wait. *)
Definition pump_turn (p : Pump) : Pump :=
  if negb (any_open (sched p)) then goto p (sched p) (lanes p) Finished
  else
    match scan 4 (sched p) (lanes p) with
    | (Some (a, lane), s, ls) => write p s ls a lane
    | (None, s, ls) => goto p s ls (if any_open s then Waiting else Finished)
    end.

(** The wait is over. *)
Definition pump_wake (p : Pump) : option Pump :=
  '(sel, s, ls) ← select (sched p) (lanes p);
  Some (match sel with Some (a, lane) => write p s ls a lane | None => goto p s ls Top end).

Definition pump_start : Pump :=
  {| sched := {| open := λ _, true; cursor := 0; remaining := lane_weight 0 |};
     lanes := λ _, {| queue := []; closed := false |}; pc := AwaitHello; written := []; lost := []; sent := [] |}.

(** The first frame of the control lane has to be a hello. *)
Definition pump_hello (is_hello : A → bool) (p : Pump) : option Pump :=
  match try_recv (lanes p 0%nat) with
  | Empty => None
  | Disconnected => Some (goto p (sched p) (lanes p) Finished)
  | Got a c =>
      let ls := set_at 0%nat c (lanes p) in
      Some (if is_hello a
            then {| sched := sched p; lanes := ls; pc := Top; written := written p ++ [(a, 0%nat)]; lost := lost p; sent := sent p |}
            else lose p (sched p) ls [(a, 0%nat)])
  end.

Definition pump_put (p : Pump) (i : nat) (a : A) : Pump :=
  {| sched := sched p; lanes := set_at i (push_back (lanes p i) a) (lanes p); pc := pc p; written := written p;
     lost := lost p; sent := sent p ++ [(a, i)] |}.

(** What the pump itself does *)
Inductive pump_act (is_hello : A → bool) : Pump → Pump → Prop :=
  | step_turn p : pc p = Top → pump_act is_hello p (pump_turn p)
  | step_wake p p' : pc p = Waiting → pump_wake p = Some p' → pump_act is_hello p p'
  | step_hello p p' : pc p = AwaitHello → pump_hello is_hello p = Some p' → pump_act is_hello p p'.

(** The senders of the lanes put frames in them and go away, at any time.  A write that
    fails ends the pump with the frame it has taken; its task may be aborted. *)
Inductive pump_step (is_hello : A → bool) : Pump → Pump → Prop :=
  | step_act p p' : pump_act is_hello p p' → pump_step is_hello p p'
  | step_write_failed p p' a i : pump_act is_hello p p' → written p' = written p ++ [(a, i)] →
      pump_step is_hello p (lose p (sched p') (lanes p') [(a, i)])
  | step_send p i a : (i < 4)%nat → closed (lanes p i) = false → pump_step is_hello p (pump_put p i a)
  | step_close p i : (i < 4)%nat → pump_step is_hello p (goto p (sched p) (set_at i (close (lanes p i)) (lanes p)) (pc p))
  | step_aborted p : pump_step is_hello p (goto p (sched p) (lanes p) Finished).

End scheduler.
Arguments Pump : clear implicits.

(** ** Lemmas: the scheduler *)

Section scheduler_lemmas.
Context {A : Type}.
Implicit Types (s : Sched) (ls : Lanes A) (p : Pump A).

Lemma set_at_eq {B} i (b : B) f : set_at i b f i = b.
Proof. unfold set_at. by rewrite Nat.eqb_refl. Qed.
Lemma set_at_ne {B} i j (b : B) f : j ≠ i → set_at i b f j = f j.
Proof. intros Hj. unfold set_at. by rewrite (proj2 (Nat.eqb_neq j i)). Qed.

Lemma lane_cases i : (i < 4)%nat → i = 0%nat ∨ i = 1%nat ∨ i = 2%nat ∨ i = 3%nat.
Proof. lia. Qed.

Lemma lane_weight_pos i : (i < 4)%nat → 1 ≤ lane_weight i ≤ 8.
Proof. intros [->|[->|[->| ->]]]%lane_cases; vm_compute; split; congruence. Qed.

(** The cursor is on a lane with turns left, and a lane that is marked closed is closed and
    empty. *)
Record sched_inv s ls : Prop := {
  si_cursor : (cursor s < 4)%nat;
  si_remaining : 1 ≤ remaining s ≤ 8;
  si_open i : (i < 4)%nat → open s i = false → closed (ls i) = true ∧ queue (ls i) = [];
}.

Lemma next_lane c : (c < 4 → (c + 1) mod 4 < 4)%nat.
Proof. intros [->|[->|[->| ->]]]%lane_cases; vm_compute; lia. Qed.

Lemma move_to_inv s ls i : (i < 4)%nat → sched_inv s ls → sched_inv (move_to s i) ls.
Proof. intros Hi [_ _ Ho]. split; simpl; [done | by apply lane_weight_pos | done]. Qed.

Lemma advance_inv s ls : sched_inv s ls → sched_inv (advance s) ls.
Proof. intros Hs. apply move_to_inv; [apply next_lane, Hs | done]. Qed.

Lemma close_lane_inv s ls i : sched_inv s ls → try_recv (ls i) = Disconnected → sched_inv (close_lane s i) ls.
Proof.
  intros [Hc Hr Ho] Hd. split; [done | done |]. intros j Hj. cbn [open close_lane].
  destruct (decide (j = i)) as [->|Hne]; [| rewrite set_at_ne by done; by apply Ho].
  intros _. unfold try_recv in Hd. by destruct (queue (ls i)), (closed (ls i)).
Qed.

(** Taking a frame from a lane that has one. *)
Lemma take_inv s ls i a c : sched_inv s ls → try_recv (ls i) = Got a c → sched_inv s (set_at i c ls).
Proof.
  intros [Hc Hr Ho] Hg. split; [done | done |]. intros j Hj Hoj. destruct (decide (j = i)) as [->|Hne].
  - apply Ho in Hoj as [_ Hq]; [| done]. unfold try_recv in Hg. by rewrite Hq in Hg; destruct (closed (ls i)).
  - rewrite set_at_ne by done. by apply Ho.
Qed.

Lemma account_inv s ls i : (i < 4)%nat → sched_inv s ls → sched_inv (account s i) ls.
Proof.
  intros Hi Hs. unfold account. set (s' := if (i =? cursor s)%nat then s else move_to s i).
  assert (sched_inv s' ls) as Hs' by (unfold s'; destruct (i =? cursor s)%nat; [done | by apply move_to_inv]).
  pose proof (si_remaining _ _ Hs') as Hr. destruct (Z.eqb_spec (saturating_sub (remaining s') 1) 0) as [|Hne].
  - by apply advance_inv.
  - destruct Hs' as [Hc _ Ho]. split; [done | | done]. simpl. unfold saturating_sub in *. lia.
Qed.

(** How many frames of other lanes can come before lane [i]. *)
Definition ahead (s : Sched) (i : nat) : Z :=
  let c := cursor s in
  match ((i + 4 - c) mod 4)%nat with
  | O => 0
  | S O => remaining s
  | S (S O) => remaining s + lane_weight ((c + 1) mod 4)%nat
  | _ => remaining s + lane_weight ((c + 1) mod 4)%nat + lane_weight ((c + 2) mod 4)%nat
  end.

Definition hops (s : Sched) (i : nat) : nat := ((i + 4 - cursor s) mod 4)%nat.

Lemma advance_ahead s i : (i < 4)%nat → (cursor s < 4)%nat → cursor s ≠ i →
  ahead (advance s) i = ahead s i - remaining s ∧ hops s i = S (hops (advance s) i).
Proof.
  destruct s as [o c r]. unfold ahead, hops, advance, move_to. cbn [cursor remaining].
  intros [->|[->|[->| ->]]]%lane_cases [->|[->|[->| ->]]]%lane_cases Hne; try done; cbn; lia.
Qed.

Lemma ahead_bound s i : (i < 4)%nat → (cursor s < 4)%nat → 1 ≤ remaining s → remaining s ≤ lane_weight (cursor s) →
  0 ≤ ahead s i ≤ 14 - lane_weight i.
Proof.
  destruct s as [o c r]. unfold ahead. cbn [cursor remaining].
  intros [->|[->|[->| ->]]]%lane_cases [->|[->|[->| ->]]]%lane_cases; cbn; lia.
Qed.

Lemma ahead_pos s i : (i < 4)%nat → (cursor s < 4)%nat → 1 ≤ remaining s → cursor s ≠ i → 1 ≤ ahead s i.
Proof.
  destruct s as [o c r]. unfold ahead. cbn [cursor remaining].
  intros [->|[->|[->| ->]]]%lane_cases [->|[->|[->| ->]]]%lane_cases; cbn; lia.
Qed.

(** The outcome of a scan while lane [i] holds a frame: it takes one from a lane, and lane
    [i] has not come to stand further behind. *)
Definition served (s : Sched) (ls : Lanes A) (i : nat) (o : option (A * nat) * Sched * Lanes A) : Prop :=
  ∃ a c s', o = (Some (a, cursor s'), s', set_at (cursor s') c ls) ∧ try_recv (ls (cursor s')) = Got a c ∧
    sched_inv s' ls ∧ ahead s' i ≤ ahead s i ∧ remaining s' ≤ lane_weight (cursor s').

Lemma served_mono s s' ls i o : ahead s' i ≤ ahead s i → served s' ls i o → served s ls i o.
Proof. intros Ha (a & c & s2 & ? & ? & ? & ? & ?). exists a, c, s2. split_and!; try done. lia. Qed.

Lemma has_frame_got (c : Chan A) : queue c ≠ [] → ∃ a c', try_recv c = Got a c'.
Proof. unfold try_recv. destruct (queue c); [done | eauto]. Qed.

(** A lane that holds a frame is open, and a scan of four rounds comes to it. *)
Lemma scan_serves n s ls i : (i < 4)%nat → sched_inv s ls → remaining s ≤ lane_weight (cursor s) → queue (ls i) ≠ [] →
  (hops s i < n)%nat → served s ls i (scan n s ls).
Proof.
  intros Hi. revert s. induction n as [|n IH]; intros s Hinv Hw Hq Hh; [lia |]. cbn [scan].
  rewrite (proj2 (Z.eqb_neq (remaining s) 0)) by (pose proof (si_remaining _ _ Hinv); lia). cbn [orb].
  set (s1 := if negb (open s (cursor s)) then advance s else s).
  assert (sched_inv s1 ls ∧ remaining s1 ≤ lane_weight (cursor s1) ∧ ahead s1 i ≤ ahead s i ∧ (hops s1 i ≤ hops s i)%nat)
    as (Hinv1 & Hw1 & Ha1 & Hh1).
  { unfold s1. destruct (open s (cursor s)) eqn:Ho; [done |]. cbn [negb].
    assert (cursor s ≠ i) as Hne by (intros <-; by apply (si_open _ _ Hinv) in Ho as [_ ?]).
    destruct (advance_ahead s i Hi (si_cursor _ _ Hinv) Hne) as [-> ->]. pose proof (si_remaining _ _ Hinv).
    split_and!; [by apply advance_inv | done | lia | lia]. }
  destruct (decide (cursor s1 = i)) as [Heq|Hne].
  - destruct (has_frame_got (ls (cursor s1))) as (a & c & Hg); [by rewrite Heq |]. rewrite Hg.
    exists a, c, s1. done.
  - destruct (advance_ahead s1 i Hi (si_cursor _ _ Hinv1) Hne) as [Ha2 Hh2]. pose proof (si_remaining _ _ Hinv1) as Hr1.
    destruct (try_recv (ls (cursor s1))) as [a c| |] eqn:Hg.
    + exists a, c, s1. done.
    + apply (served_mono _ (advance s1)); [lia |]. apply IH; [by apply advance_inv | done | done | lia].
    + change (ahead (advance s1) i) with (ahead (advance (close_lane s1 (cursor s1))) i) in Ha2.
      change (hops (advance s1) i) with (hops (advance (close_lane s1 (cursor s1))) i) in Hh2.
      apply (served_mono _ (advance (close_lane s1 (cursor s1)))); [lia |].
      apply IH; [by apply advance_inv, close_lane_inv | done | done | lia].
Qed.

Lemma hops_lt s i : (hops s i < 4)%nat.
Proof. unfold hops. by apply Nat.mod_upper_bound. Qed.

(** Serving another lane brings lane [i] nearer. *)
Lemma account_ahead s ls i : (i < 4)%nat → sched_inv s ls → cursor s ≠ i → ahead (account s (cursor s)) i = ahead s i - 1.
Proof.
  intros Hi Hinv Hne. unfold account. rewrite Nat.eqb_refl. unfold saturating_sub.
  pose proof (si_remaining _ _ Hinv) as Hr. destruct (Z.eqb_spec (Z.max 0 (remaining s - 1)) 0) as [H0|H0].
  - destruct (advance_ahead s i Hi (si_cursor _ _ Hinv) Hne) as [-> _]. lia.
  - destruct s as [o c r]. unfold ahead. cbn [cursor remaining] in *. revert Hne H0. generalize (si_cursor _ _ Hinv). cbn [cursor].
    intros Hc. revert Hi Hc. intros [->|[->|[->| ->]]]%lane_cases [->|[->|[->| ->]]]%lane_cases; cbn; lia.
Qed.

Record pump_inv p : Prop := {
  pi_sched : sched_inv (sched p) (lanes p);
  pi_weight : remaining (sched p) ≤ lane_weight (cursor (sched p));
}.

Lemma account_weight s i : remaining s ≤ lane_weight (cursor s) → remaining (account s i) ≤ lane_weight (cursor (account s i)).
Proof.
  intros Hs. unfold account. destruct (i =? cursor s)%nat; cbv zeta; destruct (_ =? 0) eqn:Hz; simpl;
    try reflexivity; unfold saturating_sub in *; simpl in *; lia.
Qed.

Lemma scan_spec n s ls r s' ls' : scan n s ls = (r, s', ls') → sched_inv s ls → remaining s ≤ lane_weight (cursor s) →
  sched_inv s' ls' ∧ remaining s' ≤ lane_weight (cursor s') ∧
  match r with
  | None => ls' = ls
  | Some (a, lane) => lane = cursor s' ∧ ∃ c, try_recv (ls lane) = Got a c ∧ ls' = set_at lane c ls
  end.
Proof.
  revert s. induction n as [|n IH]; intros s; cbn [scan]; [by intros [= <- <- <-] |].
  set (s1 := if (remaining s =? 0) || negb (open s (cursor s)) then advance s else s). intros Hscan Hinv Hw.
  assert (sched_inv s1 ls ∧ remaining s1 ≤ lane_weight (cursor s1)) as [Hinv1 Hw1]
    by (unfold s1; destruct (_ || _); [by split; [apply advance_inv |] | done]).
  destruct (try_recv (ls (cursor s1))) as [a c| |] eqn:Hg.
  - injection Hscan as <- <- <-. split; [by apply (take_inv _ _ _ a) | split; [done |]]. eauto.
  - apply (IH _ Hscan); [by apply advance_inv | done].
  - apply (IH _ Hscan); [by apply advance_inv, close_lane_inv | done].
Qed.

Lemma select_spec s ls r s' ls' : select s ls = Some (r, s', ls') → sched_inv s ls → remaining s ≤ lane_weight (cursor s) →
  sched_inv s' ls' ∧ remaining s' ≤ lane_weight (cursor s') ∧
  match r with
  | None => ls' = ls
  | Some (a, lane) => (lane < 4)%nat ∧ ∃ c, try_recv (ls lane) = Got a c ∧ ls' = set_at lane c ls
  end.
Proof.
  intros Hsel Hinv Hw. unfold select in Hsel. destruct (List.find (ready s ls) _) as [i|] eqn:Hf; [| done].
  apply List.find_some in Hf as [Hi Hr]. assert (i < 4)%nat as Hi4 by (simpl in Hi; lia). simpl in Hsel.
  unfold ready in Hr. destruct (try_recv (ls i)) as [a c| |] eqn:Hg; injection Hsel as <- <- <-.
  - split; [by apply (take_inv _ _ _ a) | split; [done |]]. eauto.
  - unfold try_recv in Hg. destruct (queue (ls i)), (closed (ls i)); try done. by rewrite andb_false_r in Hr.
  - split; [by apply close_lane_inv | done].
Qed.

(** The frames of one lane. *)
Definition of_lane (i : nat) (l : list (A * nat)) : list A := fst <$> List.filter (λ x, (x.2 =? i)%nat) l.

Lemma of_lane_snoc i l a j : of_lane i (l ++ [(a, j)]) = of_lane i l ++ (if (j =? i)%nat then [a] else []).
Proof. unfold of_lane. rewrite List.filter_app, fmap_app. simpl. by destruct (j =? i)%nat. Qed.

(** What was written of a lane, what was lost of it and what is in it are what was sent on it. *)
Definition ordered p : Prop := ∀ i, of_lane i (written p) ++ of_lane i (lost p) ++ queue (lanes p i) = of_lane i (sent p).

(** A frame is lost only when the pump returns. *)
Record in_order p : Prop := {
  io_ordered : ordered p;
  io_lost : pc p ≠ Finished → lost p = [];
  io_one : (length (lost p) ≤ 1)%nat;
}.

Lemma taken_order p lane a c : in_order p → pc p ≠ Finished → try_recv (lanes p lane) = Got a c →
  ∀ i, of_lane i (written p ++ [(a, lane)]) ++ queue (set_at lane c (lanes p) i) = of_lane i (sent p).
Proof.
  intros [Ho Hl _] Hpc Hg i. specialize (Ho i). rewrite (Hl Hpc) in Ho. rewrite <- Ho, of_lane_snoc. cbn [of_lane List.filter fmap list_fmap app].
  unfold try_recv in Hg. destruct (queue (lanes p lane)) as [|x q] eqn:Hq; [by destruct (closed _) |]. injection Hg as <- <-.
  destruct (decide (i = lane)) as [->|Hne].
  - by rewrite Nat.eqb_refl, set_at_eq, Hq, <- app_assoc.
  - by rewrite set_at_ne, (proj2 (Nat.eqb_neq lane i)), app_nil_r by done.
Qed.

Lemma write_order p s a lane c : in_order p → pc p ≠ Finished → try_recv (lanes p lane) = Got a c →
  in_order (write p s (set_at lane c (lanes p)) a lane).
Proof.
  intros Ho Hpc Hg. pose proof (io_lost _ Ho Hpc) as Hl. split; cbn [written lanes lost sent write pc]; [| done | rewrite Hl; cbn; lia].
  intros i. cbn [written lanes lost sent write]. rewrite Hl. by apply taken_order.
Qed.

Lemma lose_order p s ls a lane : in_order p → pc p ≠ Finished →
  (∀ i, of_lane i (written p ++ [(a, lane)]) ++ queue (ls i) = of_lane i (sent p)) → in_order (lose p s ls [(a, lane)]).
Proof.
  intros Ho Hpc Hq. pose proof (io_lost _ Ho Hpc) as Hl. split; cbn [written lanes lost sent lose pc]; [| done | by rewrite Hl].
  intros i. cbn [written lanes lost sent lose]. by rewrite Hl, <- Hq, !of_lane_snoc, <- !app_assoc.
Qed.

Lemma goto_order p s q : in_order p → pc p ≠ Finished → in_order (goto p s (lanes p) q).
Proof. intros [Ho Hl Hn] Hpc. split; [exact Ho | by intros _; apply Hl | done]. Qed.

Lemma write_inv p s ls a lane : (lane < 4)%nat → sched_inv s ls → remaining s ≤ lane_weight (cursor s) →
  pump_inv (write p s ls a lane).
Proof. intros Hl Hs Hw. split; simpl; [by apply account_inv | by apply account_weight]. Qed.

Lemma turn_inv p : pc p = Top → pump_inv p → in_order p → pump_inv (pump_turn p) ∧ in_order (pump_turn p).
Proof.
  intros Hpc [Hi Hw] Ho. assert (pc p ≠ Finished) by congruence. unfold pump_turn. destruct (negb _); [split; [by split | by apply goto_order] |].
  destruct (scan 4 (sched p) (lanes p)) as [[[[a lane]|] s] ls] eqn:Hs;
    destruct (scan_spec _ _ _ _ _ _ Hs Hi Hw) as (Hi' & Hw' & Hr).
  - destruct Hr as (-> & c & Hg & ->). split; [apply write_inv; [by apply Hi' | done | done] | by apply write_order].
  - subst ls. split; [by split | by apply goto_order].
Qed.

Lemma wake_inv p p' : pc p = Waiting → pump_wake p = Some p' → pump_inv p → in_order p → pump_inv p' ∧ in_order p'.
Proof.
  intros Hpc Hk [Hi Hw] Ho. assert (pc p ≠ Finished) by congruence.
  unfold pump_wake in Hk. destruct (select (sched p) (lanes p)) as [[[r s] ls]|] eqn:Hs; [| done].
  injection Hk as <-. destruct (select_spec _ _ _ _ _ Hs Hi Hw) as (Hi' & Hw' & Hr).
  destruct r as [[a lane]|]; [destruct Hr as (Hl & c & Hg & ->) | subst ls].
  - split; [by apply write_inv | by apply write_order].
  - split; [by split | by apply goto_order].
Qed.

Lemma put_inv p i a : closed (lanes p i) = false → pump_inv p → in_order p → pump_inv (pump_put p i a) ∧ in_order (pump_put p i a).
Proof.
  intros Hc [[Hcur Hr Hop] Hw] Ho. split.
  - split; [split; [done | done |] | done]. intros j Hj Hoj. cbn [lanes pump_put sched] in *.
    destruct (decide (j = i)) as [->|Hne]; [by apply Hop in Hoj as [? _]; [congruence |] |].
    rewrite set_at_ne by done. by apply Hop.
  - destruct Ho as [Ho Hl Hn]. split; [| done | done].
    intros j. cbn [lanes pump_put written lost sent]. rewrite of_lane_snoc, <- (Ho j), <- !app_assoc. do 2 f_equal.
    destruct (decide (j = i)) as [->|Hne]; [by rewrite Nat.eqb_refl, set_at_eq |].
    by rewrite set_at_ne, (proj2 (Nat.eqb_neq i j)), app_nil_r by done.
Qed.

Lemma close_inv p i : pump_inv p → in_order p →
  let p' := goto p (sched p) (set_at i (close (lanes p i)) (lanes p)) (pc p) in pump_inv p' ∧ in_order p'.
Proof.
  intros [[Hcur Hr Hop] Hw] Ho. split.
  - split; [split; [done | done |] | done]. intros j Hj Hoj. cbn [lanes goto sched] in *.
    destruct (decide (j = i)) as [->|Hne]; [rewrite set_at_eq; split; [done | by apply Hop] |].
    rewrite set_at_ne by done. by apply Hop.
  - destruct Ho as [Ho Hl Hn]. split; [| done | done].
    intros j. cbn [lanes goto written lost sent]. rewrite <- (Ho j). do 2 f_equal.
    destruct (decide (j = i)) as [->|Hne]; [by rewrite set_at_eq | by rewrite set_at_ne].
Qed.

Lemma hello_inv hello p p' : pc p = AwaitHello → pump_hello hello p = Some p' → pump_inv p → in_order p → pump_inv p' ∧ in_order p'.
Proof.
  intros Hpc Hh [Hi Hw] Ho. assert (pc p ≠ Finished) by congruence.
  unfold pump_hello in Hh. destruct (try_recv (lanes p 0%nat)) as [a c| |] eqn:Hg; [| done |].
  - injection Hh as <-. assert (sched_inv (sched p) (set_at 0%nat c (lanes p))) by by apply (take_inv _ _ _ a). destruct (hello a).
    + split; [by split |]. destruct (write_order p (sched p) a 0%nat c) as [H1 H2 H3]; [done.. |]. by split.
    + split; [by split |]. apply lose_order; [done | done |]. by apply taken_order.
  - injection Hh as <-. split; [by split | by apply goto_order].
Qed.

Lemma pump_act_inv hello p p' : pump_act hello p p' → pump_inv p → in_order p → pump_inv p' ∧ in_order p'.
Proof. intros []; eauto using turn_inv, wake_inv, hello_inv. Qed.

(** An act writes at most the frame it has taken, and takes no other. *)
Lemma pump_act_sent hello p p' : pump_act hello p p' → pc p ≠ Finished ∧ sent p' = sent p.
Proof.
  intros [q Hpc|q q' Hpc Hk|q q' Hpc Hk]; (split; [congruence |]).
  - unfold pump_turn. destruct (negb _); [done |]. by destruct (scan _ _ _) as [[[[]|] ?] ?].
  - unfold pump_wake in Hk. destruct (select _ _) as [[[[[]|] ?] ?]|]; by simplify_eq/=.
  - unfold pump_hello in Hk. destruct (try_recv _) as [a c| |]; simplify_eq/=; [by destruct (hello a) | done].
Qed.

(** What is written is not lost. *)
Lemma pump_act_written hello p p' : pump_act hello p p' → written p' ≠ written p → lost p' = lost p.
Proof.
  intros [q Hpc|q q' Hpc Hk|q q' Hpc Hk].
  - unfold pump_turn. destruct (negb _); [done |]. by destruct (scan _ _ _) as [[[[]|] ?] ?].
  - unfold pump_wake in Hk. destruct (select _ _) as [[[[[]|] ?] ?]|]; by simplify_eq/=.
  - unfold pump_hello in Hk. destruct (try_recv _) as [a c| |]; simplify_eq/=; [by destruct (hello a) | done].
Qed.

Lemma write_failed_inv hello p p' a i : pump_act hello p p' → written p' = written p ++ [(a, i)] → pump_inv p → in_order p →
  pump_inv (lose p (sched p') (lanes p') [(a, i)]) ∧ in_order (lose p (sched p') (lanes p') [(a, i)]).
Proof.
  intros Ha Hw Hi Ho. destruct (pump_act_sent _ _ _ Ha) as [Hpc Hs]. destruct (pump_act_inv _ _ _ Ha Hi Ho) as [[] [Ho' _ _]]. split; [by split |].
  assert (lost p' = []) as Hl.
  { rewrite (pump_act_written _ _ _ Ha); [by apply Ho |]. rewrite Hw. intros E%(f_equal length). rewrite length_app in E. cbn in E. lia. }
  apply lose_order; [done | done |]. intros j. specialize (Ho' j). by rewrite Hw, Hl, Hs in Ho'.
Qed.

Lemma pump_step_inv hello p p' : pump_step hello p p' → pump_inv p → in_order p → pump_inv p' ∧ in_order p'.
Proof.
  intros []; eauto using pump_act_inv, write_failed_inv, put_inv, close_inv. intros [] []. by split; split.
Qed.

Lemma start_inv : pump_inv (pump_start : Pump A) ∧ in_order pump_start.
Proof. split; [split; [split |]; simpl; (lia || done) |]. split; [by intros i | done | cbn; lia]. Qed.

Lemma pump_reachable_inv hello p : rtc (pump_step hello) pump_start p → pump_inv p ∧ in_order p.
Proof.
  apply (rtc_ind_r (λ p, pump_inv p ∧ in_order p) pump_start); [exact start_inv |].
  intros q q' _ Hs [??]. by apply (pump_step_inv hello q).
Qed.

(** Lane [i] holds a frame, or the pump has returned, and at most so many frames are written before one of it. *)
Record awaits (i : nat) (n : Z) p : Prop := {
  aw_pc : pc p = Top ∧ queue (lanes p i) ≠ [] ∧ Z.of_nat (length (written p)) + ahead (sched p) i ≤ n ∨ pc p = Finished;
  aw_count : Z.of_nat (length (written p)) ≤ n;
}.

Lemma turn_serves p i : (i < 4)%nat → pump_inv p → queue (lanes p i) ≠ [] →
  ∃ a lane c s, pump_turn p = write p s (set_at lane c (lanes p)) a lane ∧ try_recv (lanes p lane) = Got a c ∧
    lane = cursor s ∧ sched_inv s (lanes p) ∧ ahead s i ≤ ahead (sched p) i.
Proof.
  intros Hi [Hinv Hw] Hq. unfold pump_turn. destruct (scan_serves 4 (sched p) (lanes p) i Hi Hinv Hw Hq (hops_lt _ _))
    as (a & c & s & -> & Hg & Hs & Ha & _).
  assert (any_open (sched p) = true) as ->.
  { destruct (open (sched p) i) eqn:Ho; [| by apply (si_open _ _ Hinv) in Ho as [_ ?]].
    unfold any_open. revert Hi Ho. intros [->|[->|[->| ->]]]%lane_cases ->; by rewrite ?orb_true_r. }
  exists a, (cursor s), c, s. done.
Qed.

Lemma awaits_turn i n p : (i < 4)%nat → pump_inv p → awaits i n p → pc p = Top →
  awaits i n (pump_turn p) ∨ (length (of_lane i (written p)) < length (of_lane i (written (pump_turn p))))%nat.
Proof.
  intros Hi Hinv [[(_ & Hq & Hn)|] _] Hpc; [| congruence].
  destruct (turn_serves p i Hi Hinv Hq) as (a & lane & c & s & -> & Hg & -> & Hs & Ha).
  cbn [write written]. destruct (decide (cursor s = i)) as [Heq|Hne].
  - right. rewrite of_lane_snoc, Heq, Nat.eqb_refl, length_app. simpl. lia.
  - left. assert (1 ≤ ahead s i) as H1.
    { destruct Hs as [Hc Hr _]. apply ahead_pos; (done || lia). }
    split; cbn [pc lanes write written sched].
    + left. split; [done |]. split; [by rewrite set_at_ne |].
      rewrite (account_ahead s (lanes p) i) by done. rewrite length_app. simpl. lia.
    + rewrite length_app. simpl. lia.
Qed.

Lemma awaits_act hello i n p p' : (i < 4)%nat → pump_inv p → awaits i n p → pump_act hello p p' →
  awaits i n p' ∨ (length (of_lane i (written p)) < length (of_lane i (written p')))%nat.
Proof.
  intros Hi Hinv Ha Hs. destruct Hs as [p Hpc|p p' Hpc Hk|p p' Hpc Hk]; [by apply awaits_turn | ..];
    destruct Ha as [[(? & _)|?] _]; congruence.
Qed.

Lemma awaits_step hello i n p p' : (i < 4)%nat → pump_inv p → awaits i n p → pump_step hello p p' →
  awaits i n p' ∨ (length (of_lane i (written p)) < length (of_lane i (written p')))%nat.
Proof.
  intros Hi Hinv Ha Hs. destruct Hs as [p p' Hk|p p' b k Hk _|p j a Hj Hc|p j Hj|p]; [by eapply awaits_act | ..];
    destruct Ha as [Hpc Hn]; left; split; cbn [pc lanes goto lose pump_put written sched]; auto.
  - destruct Hpc as [(Hpc & Hq & Hw)|]; [left | by right]. split_and!; [done | | done].
    destruct (decide (i = j)) as [->|Hne]; [rewrite set_at_eq; simpl; by destruct (queue (lanes p j)) | by rewrite set_at_ne].
  - destruct Hpc as [(Hpc & Hq & Hw)|]; [left | by right]. split_and!; [done | | done].
    destruct (decide (i = j)) as [->|Hne]; [by rewrite set_at_eq | by rewrite set_at_ne].
Qed.

Lemma act_prefix hello p p' : pump_act hello p p' → written p `prefix_of` written p'.
Proof.
  intros [q Hpc|q q' Hpc Hk|q q' Hpc Hk].
  - unfold pump_turn. destruct (negb _); [done |]. destruct (scan _ _ _) as [[[[a l]|] s] ls]; [by apply prefix_app_r | done].
  - unfold pump_wake in Hk. destruct (select _ _) as [[[r s] ls]|]; [| done]. injection Hk as <-.
    destruct r as [[a l]|]; [by apply prefix_app_r | done].
  - unfold pump_hello in Hk. destruct (try_recv _) as [a c| |]; [| done | by injection Hk as <-]. injection Hk as <-.
    destruct (hello a); [by apply prefix_app_r | done].
Qed.

Lemma written_prefix hello p p' : pump_step hello p p' → written p `prefix_of` written p'.
Proof. intros []; eauto using act_prefix. Qed.

Lemma written_grows hello p p' : pump_step hello p p' → ∀ i, (length (of_lane i (written p)) ≤ length (of_lane i (written p')))%nat.
Proof.
  intros [k ->]%written_prefix i. unfold of_lane. rewrite List.filter_app, fmap_app, length_app. lia.
Qed.

Lemma awaits_run hello i n p p' : (i < 4)%nat → pump_inv p → in_order p → awaits i n p → rtc (pump_step hello) p p' →
  awaits i n p' ∨ (length (of_lane i (written p)) < length (of_lane i (written p')))%nat.
Proof.
  intros Hi Hinv Ho Ha Hr.
  assert (∀ q, rtc (pump_step hello) p q → (pump_inv q ∧ in_order q) ∧
    (length (of_lane i (written p)) ≤ length (of_lane i (written q)))%nat ∧
    (awaits i n q ∨ (length (of_lane i (written p)) < length (of_lane i (written q)))%nat)) as H; [| by apply H].
  apply (rtc_ind_r (λ q, _) p); [split_and!; auto |].
  intros q q' _ Hs ([Hq Hoq] & Hlen & Hcase). split; [by apply (pump_step_inv hello q) |].
  pose proof (written_grows hello q q' Hs i). split; [lia |]. destruct Hcase as [Hw|]; [| right; lia].
  destruct (awaits_step hello i n q q' Hi Hq Hw Hs); [by left | right; lia].
Qed.

End scheduler_lemmas.

(** ** Theorems: the scheduler *)

(** C13: whatever the senders do, the frames of a lane that were written to the bridge, and
    then those in the lane, are exactly the frames sent on it, in order: none is lost,
    duplicated or overtaken by one of its own lane.  The exception is the one frame the pump has in its hands when it returns
    with an error, because it is not a hello where one has to come first or cannot be written. *)
Theorem lanes_in_order {A} (hello : A → bool) (p : Pump A) i : rtc (pump_step hello) pump_start p →
  of_lane i (written p) ++ of_lane i (lost p) ++ queue (lanes p i) = of_lane i (sent p) ∧
  (length (lost p) ≤ 1)%nat ∧ (pc p ≠ Finished → of_lane i (written p) ++ queue (lanes p i) = of_lane i (sent p)).
Proof.
  intros [_ [Ho Hl Hn]]%pump_reachable_inv. split; [apply Ho |]. split; [done |]. intros Hpc. rewrite <- (Ho i). by rewrite (Hl Hpc).
Qed.

(** No lane starves: when a lane has a frame and the pump is at the top of its loop, the
    next turn writes a frame; and however many frames arrive on the other lanes, at most 14
    less its own weight are written before one of the lane. *)
Theorem lane_wait_bounded {A} (hello : A → bool) (p p' : Pump A) i : rtc (pump_step hello) pump_start p → (i < 4)%nat → pc p = Top →
  queue (lanes p i) ≠ [] →
  length (written (pump_turn p)) = S (length (written p)) ∧
  (rtc (pump_step hello) p p' → of_lane i (written p') = of_lane i (written p) →
   Z.of_nat (length (written p')) ≤ Z.of_nat (length (written p)) + (14 - lane_weight i)).
Proof.
  intros Hp Hi Hpc Hq. pose proof Hp as [Hinv Ho]%pump_reachable_inv. split.
  - destruct (turn_serves p i Hi Hinv Hq) as (a & lane & c & s & -> & _). cbn [written write]. rewrite length_app. simpl. lia.
  - intros Hr Hsame. assert (pump_inv p') as [[Hc' Hr' _] Hw'] by (apply (pump_reachable_inv hello); by transitivity p).
    pose proof (ahead_bound (sched p') i Hi Hc') as Hb'. destruct Hinv as [[Hc Hr1 Hop] Hw].
    pose proof (ahead_bound (sched p) i Hi Hc) as Hb.
    destruct (awaits_run hello i (Z.of_nat (length (written p)) + ahead (sched p) i) p p') as [[_ Hn]|Hlt]; try done.
    + split; [left; by split_and! | lia].
    + lia.
    + rewrite Hsame in Hlt. lia.
Qed.

(** Nothing reaches the bridge before a hello: the first frame that is written is a hello
    of the control lane, and the loop starts only after it. *)
Theorem hello_written_first {A} (hello : A → bool) (p : Pump A) : rtc (pump_step hello) pump_start p →
  (written p = [] ∧ (pc p = AwaitHello ∨ pc p = Finished)) ∨
  ∃ h rest, written p = (h, 0%nat) :: rest ∧ hello h = true.
Proof.
  revert p. apply (rtc_ind_r (λ p, (written p = [] ∧ (pc p = AwaitHello ∨ pc p = Finished)) ∨
    ∃ h rest, written p = (h, 0%nat) :: rest ∧ hello h = true) pump_start); [left; split; [done | by left] |]. intros q q' _ Hs [[Hw Hpc]|(h & rest & Hw & Hh)].
  - destruct Hs as [q q' Ha|q q' a i _ _|q j a Hj Hc|q j Hj|q]; [| left; simpl; tauto..].
    destruct Ha as [q Hp|q q' Hp Hk|q q' Hp Hk]; [destruct Hpc; congruence.. |]. unfold pump_hello in Hk. destruct (try_recv _) as [a c| |]; [| done | injection Hk as <-; left; simpl; tauto].
    injection Hk as <-. destruct (hello a) eqn:Hh; [right | left; simpl; tauto]. exists a, []. simpl. by rewrite Hw.
  - right. exists h. destruct (written_prefix hello q q' Hs) as [k ->]. rewrite Hw. by exists (rest ++ k).
Qed.

(** ** Theorems: the streams *)

Section streams.
Context `{BincodeLaws}.

Lemma frame_tag d payload tag perm : wf_payload d default_limits payload tag →
  variant_tag d {| direction := d; framed := frame_of payload; permit := perm |} = Ok tag.
Proof.
  intros [[w Hw] Hlim Hu _]. unfold variant_tag. cbn [direction framed]. rewrite bool_decide_true by done.
  cbn [ensure mbind result_bind]. unfold frame_variant_tag.
  assert (frame_payload (frame_of payload) = Ok payload) as ->.
  { unfold frame_payload. rewrite frame_of_length. unfold LENGTH_PREFIX_BYTES, frame_of.
    rewrite take_app_length', drop_app_length' by by rewrite le_encode_length.
    rewrite le_decode_encode by (unfold U32_MAX in Hu; lia).
    rewrite (proj2 (Nat.leb_le 4 _)), (proj2 (Z.leb_le (Z.of_nat (length payload)) MAX_GRAPHICS_FRAME_SIZE)),
      (proj2 (Z.leb_le (4 + _) _)), (proj2 (Z.leb_le _ (4 + _))); [done | lia.. | | lia].
    etransitivity; [exact Hlim |]. unfold frame_payload_limit. by destruct (is_large_frame d tag). }
  cbn [mbind result_bind]. rewrite (bincode_tag _ _ _ Hw). cbn [map_err mbind result_bind].
  apply decode_tag_prefix_inv in Hw as (? & ? & ? & _ & _ & Hw%tag_width_pos & _).
  by rewrite (proj2 (Nat.eqb_neq w 0)) by lia.
Qed.

Lemma read_frame_none d input b limits : read_herdr_frame input d b limits = Ok None → input = [].
Proof.
  destruct input as [|b0 input]; [done |]. cbn [read_herdr_frame]. intros Hr.
  repeat match goal with
         | H : _ ≫= _ = Ok _ |- _ => apply bind_Ok in H as (? & _ & H)
         | H : (let '(_, _) := ?x in _) = Ok _ |- _ => destruct x
         end. done.
Qed.

(** What the pump passes on is a part of the stream, frame by frame, and it ends. *)
Lemma pump_frames_sound {B} fuel d (check : RawHerdrFrame → result HerdrFrameError B) avail alive input l r :
  Forall u8_range input → pump_frames fuel avail alive d check input = (l, r) →
  (∃ rest, input = pump_herdr_server_frames l.*1 ++ rest ∧ (r = Some (Ok tt) → rest = [])) ∧
  Forall (λ '(f, b), direction f = d ∧ check f = Ok b) l ∧ ((length input < fuel)%nat → is_Some r).
Proof.
  revert avail alive input l r. induction fuel as [|fuel IH]; intros avail alive input l r Hr; cbn [pump_frames].
  { intros [= <- <-]. split_and!; [by exists input | done | lia]. }
  destruct (read_herdr_frame _ _ _ _) as [[[[f rest] b']|]|e] eqn:Hread.
  - destruct (read_frame_fwd _ _ _ _ _ _ _ Hr Hread) as (payload & tag & _ & Hin & Hf & _).
    assert (framed f = frame_of payload ∧ direction f = d) as [Hfr Hdir] by by rewrite Hf.
    destruct (check f) as [b|e] eqn:Hc; [| intros [= <- <-]; split_and!; [by exists input | done | eauto]].
    destruct (alive O); [| intros [= <- <-]; split_and!; [by exists input | done | eauto]].
    destruct (pump_frames fuel _ _ d check rest) as [l' r'] eqn:Hp. intros [= <- <-].
    assert (Forall u8_range rest) as Hr' by (rewrite Hin, Forall_app in Hr; tauto).
    destruct (IH _ _ _ _ _ Hr' Hp) as ((rest' & -> & Hend) & Hall & Htot). split_and!.
    + exists rest'. split; [| done]. rewrite Hin, <- Hfr. unfold pump_herdr_server_frames. simpl. by rewrite <- app_assoc.
    + by constructor.
    + intros Hfuel. apply Htot. rewrite Hin, length_app, frame_of_length in Hfuel. lia.
  - intros [= <- <-]. split_and!; [| done | eauto]. exists []. split; [| done].
    by apply read_frame_none in Hread as ->.
  - intros [= <- <-]. split_and!; [by exists input | done | eauto].
Qed.

Lemma pump_frames_exact {B} d (check : RawHerdrFrame → result HerdrFrameError B) (lane : Z → B) items fuel avail :
  (∀ payload tag perm, wf_payload d default_limits payload tag →
     check {| direction := d; framed := frame_of payload; permit := perm |} = Ok (lane tag)) →
  Forall (λ '(payload, tag), wf_payload d default_limits payload tag) items →
  (∀ n payload tag, items !! n = Some (payload, tag) →
     is_Some (acquire (avail n) (is_large_frame d tag) (Z.of_nat (length (frame_of payload))))) →
  (length items < fuel)%nat →
  pump_frames fuel avail (λ _, true) d check (concat ((λ x, frame_of x.1) <$> items)) =
    ((λ x, ({| direction := d; framed := frame_of x.1; permit := Some (is_large_frame d x.2) |}, lane x.2)) <$> items,
     Some (Ok tt)).
Proof.
  intros Hcheck. revert fuel avail. induction items as [|[payload tag] items IH]; intros fuel avail Hwf Hbud Hfuel;
    (destruct fuel as [|fuel]; [simpl in Hfuel; lia |]); cbn [pump_frames]; [done |].
  apply Forall_cons in Hwf as [Hwf1 Hwf]. destruct (Hbud O payload tag eq_refl) as [b' Hb].
  cbn [fmap list_fmap concat fst snd].
  rewrite (read_frame_bwd _ _ _ _ _ _ _ Hwf1 Hb), (Hcheck _ _ _ Hwf1). rewrite IH; [done | done | | simpl in Hfuel; lia].
  intros n p t Hn. by apply (Hbud (S n)).
Qed.

End streams.

(** What the client of a session receives: of a stream of well-formed frames the bridge
    writes, with permits for each, every frame is put on the lane of its tag, and the bytes
    written to the stream of a lane are those of its frames, in the order of the bridge. *)
Theorem server_frames_routed `{BincodeLaws} items avail :
  Forall (λ '(payload, tag), wf_payload ServerToClient default_limits payload tag) items →
  (∀ n payload tag, items !! n = Some (payload, tag) →
     is_Some (acquire (avail n) (is_large_frame ServerToClient tag) (Z.of_nat (length (frame_of payload))))) →
  let '(l, r) := pump_bridge_stdout_to_server_lanes (S (length items)) avail (λ _, true)
                   (concat ((λ x, frame_of x.1) <$> items)) in
  r = Some (Ok tt) ∧
  ∀ lane, pump_herdr_server_frames (fst <$> filter (λ x, x.2 = lane) l) =
          concat ((λ x, frame_of x.1) <$> filter (λ x, server_lane_from_variant_tag x.2 = lane) items).
Proof.
  intros Hwf Hbud. unfold pump_bridge_stdout_to_server_lanes.
  rewrite (pump_frames_exact _ _ server_lane_from_variant_tag); [| | done | done | lia].
  2:{ intros payload tag perm Hp. unfold frame_server_lane. by rewrite (frame_tag _ _ _ _ Hp). }
  split; [done |]. intros lane. unfold pump_herdr_server_frames. clear Hwf Hbud.
  induction items as [|[payload tag] items IH]; [done |]. cbn [fmap list_fmap]. rewrite !filter_cons. cbn [snd].
  destruct (decide (server_lane_from_variant_tag tag = lane)) as [Hl|Hl]; [| done].
  cbn [fmap list_fmap concat fst framed]. by rewrite <- IH.
Qed.

(** What a client can put in a lane of the bridge: the frames that are taken from one of
    its streams are a part of the stream, byte for byte and in order; all of them belong to the
    lane of the stream; when the stream ends well they are all of it; and the pump ends. *)
Theorem client_stream_checked `{BincodeLaws} expected fuel avail alive input :
  Forall u8_range input → (length input < fuel)%nat →
  let '(l, r) := pump_herdr_client_frames fuel avail alive expected input in
  is_Some r ∧
  (∃ rest, input = concat (framed <$> l.*1) ++ rest ∧ (r = Some (Ok tt) → rest = [])) ∧
  Forall (λ x, frame_client_lane x.1 = Ok expected) l.
Proof.
  intros Hr Hfuel. destruct (pump_herdr_client_frames fuel avail alive expected input) as [l r] eqn:Hp.
  destruct (pump_frames_sound _ _ _ _ _ _ _ _ Hr Hp) as (Hrest & Hall & Htot). split_and!; [by apply Htot | done |].
  eapply Forall_impl; [exact Hall |]. intros [f b] [_ Hc]. unfold expect_lane in Hc.
  apply bind_Ok in Hc as (lane & Hl & Hc). apply bind_tt in Hc as [He%ensure_Ok _]. reflect_bool. cbn. by rewrite Hl, He.
Qed.

(** ** Examples *)

Module Demo.

(** bincode as [decode_tag_prefix] reads it. *)
#[export] Instance demo_bincode : Bincode := {|
  bincode_u32 payload := match decode_tag_prefix payload with Ok x => Ok x | Err _ => Err "bincode" end;
|}.
#[export] Instance demo_bincode_laws : BincodeLaws.
Proof. constructor. intros payload tag w Hd. unfold bincode_u32. simpl. by rewrite Hd. Qed.

(** A hello of one byte, then an input frame. *)
Definition started : Pump Z := pump_put (pump_put pump_start 0%nat 7) 1%nat 8.
Definition greeted : Pump Z := default started (pump_hello (λ a, a =? 7) started).

Lemma greeted_reachable : rtc (pump_step (λ a, a =? 7)) pump_start greeted.
Proof.
  eapply rtc_l; [by apply (step_send _ _ 0%nat 7); [lia |] |]. eapply rtc_l; [by apply (step_send _ _ 1%nat 8); [lia |] |].
  apply rtc_once. by apply step_act, step_hello.
Qed.

Lemma lanes_in_order_witness : of_lane 1%nat (written greeted) ++ queue (lanes greeted 1%nat) = of_lane 1%nat (sent greeted).
Proof. apply (lanes_in_order (λ a, a =? 7) greeted 1%nat greeted_reachable). discriminate. Defined.

Lemma lane_wait_bounded_witness : length (written (pump_turn greeted)) = 2%nat.
Proof. refine (proj1 (lane_wait_bounded (λ a, a =? 7) greeted greeted 1%nat greeted_reachable _ _ _)); [lia | done | done]. Defined.

Lemma hello_written_first_witness : (written greeted = [] ∧ (pc greeted = AwaitHello ∨ pc greeted = Finished)) ∨
  ∃ h rest, written greeted = (h, 0%nat) :: rest ∧ (h =? 7) = true.
Proof. apply (hello_written_first (λ a, a =? 7)). exact greeted_reachable. Defined.

(** A frame of tag 1, which is rendered, and one of tag 0. *)
Definition demo_items : list (bytes * Z) := [([1; 5], 1); ([0; 6], 0)].

Lemma demo_items_wf : Forall (λ '(payload, tag), wf_payload ServerToClient default_limits payload tag) demo_items.
Proof. repeat constructor; try (by exists 1%nat); try (by vm_compute); try done. Qed.

Lemma server_frames_routed_witness :
  let '(l, r) := pump_bridge_stdout_to_server_lanes 3 (λ _, default_budget) (λ _, true)
                   (concat ((λ x, frame_of x.1) <$> demo_items)) in
  r = Some (Ok tt) ∧
  ∀ lane, pump_herdr_server_frames (fst <$> filter (λ x, x.2 = lane) l) =
          concat ((λ x, frame_of x.1) <$> filter (λ x, server_lane_from_variant_tag x.2 = lane) demo_items).
Proof.
  refine (server_frames_routed demo_items (λ _, default_budget) demo_items_wf _).
  intros [|[|n]] payload tag Hi; [injection Hi as <- <-; by eexists.. | done].
Defined.

Lemma client_stream_checked_witness :
  let '(l, r) := pump_herdr_client_frames 10 (λ _, default_budget) (λ _, true) ClientControl [1; 0; 0; 0; 4] in
  is_Some r ∧
  (∃ rest, [1; 0; 0; 0; 4] = concat (framed <$> l.*1) ++ rest ∧ (r = Some (Ok tt) → rest = [])) ∧
  Forall (λ x, frame_client_lane x.1 = Ok ClientControl) l.
Proof.
  apply (client_stream_checked ClientControl 10 (λ _, default_budget) (λ _, true) [1; 0; 0; 0; 4]).
  - repeat (constructor; [unfold u8_range, U8_MAX; lia |]). constructor.
  - simpl. lia.
Defined.

End Demo.
