(* ===== verification/HerdrResize.v ===== *)
(** * Resizes of an attached session

    The [ResizeCoalescer] of crates/portl-agent/src/session_handler/herdr.rs and the one of
    crates/portl-agent/src/shell_handler/pumps.rs: the last resize is kept in a cell, a flag says
    whether a task drains it, and whoever sets the flag starts the task.  A step of the relation
    below is one access to the shared data, under its lock or atomic, so that every interleaving
    of the senders, the tasks and the receiver is a run.

    The two differ in the channel ([reserves]): herdr's is bounded, and the task reserves a place
    before it takes the frame; the one of the shell is not, and the task sends what it took.

    The tasks after they cleared the flag are counted: several can be there at a time. *)

From S2P Require Import Prelude HerdrWire HerdrLanes.

(** ** Resizes *)

Module Resize.

(** The task that holds the flag: before the reservation, with a permit, with a frame taken,
    after the send, and before it clears the flag. *)
Inductive Drain (A : Type) := Reserve | Take | Send (a : A) | Post | Clear.
Arguments Reserve {A}. Arguments Take {A}. Arguments Send {A}. Arguments Post {A}. Arguments Clear {A}.

Record State (A : Type) := {
  latest : option A;
  scheduled : bool;
  chan : Chan A;
  swaps : nat;          (** senders that have stored their frame and not looked at the flag *)
  drain : option (Drain A);
  checking : nat;       (** tasks that have cleared the flag and not looked at [latest] *)
  swapping : nat;       (** tasks that have seen a frame there and not looked at the flag *)
  sent : list A;
  delivered : list A;
}.
Arguments latest {A}. Arguments scheduled {A}. Arguments chan {A}. Arguments swaps {A}. Arguments drain {A}.
Arguments checking {A}. Arguments swapping {A}. Arguments sent {A}. Arguments delivered {A}.

Definition HERDR_RESIZE_BUFFER : nat := 1.

Section resize.
Context {A : Type}.
Implicit Types s : State A.
Variable reserves : bool.

(** Where a task begins. *)
Definition first : Drain A := if reserves then Reserve else Take.

Definition new : State A :=
  {| latest := None; scheduled := false; chan := {| queue := []; closed := false |}; swaps := 0; drain := None;
     checking := 0; swapping := 0; sent := []; delivered := [] |}.

(** [ResizeCoalescer::send]: the frame is stored, then the flag is swapped. *)
Definition store (s : State A) (a : A) : State A :=
  {| latest := Some a; scheduled := scheduled s; chan := chan s; swaps := S (swaps s); drain := drain s;
     checking := checking s; swapping := swapping s; sent := sent s ++ [a]; delivered := delivered s |}.

(** [scheduled.swap(true)] and, if it was not set, the task started or resumed. *)
Definition swap (s : State A) (sw cs ss : nat) : State A :=
  {| latest := latest s; scheduled := true; chan := chan s; swaps := sw;
     drain := if scheduled s then drain s else Some first; checking := cs; swapping := ss; sent := sent s;
     delivered := delivered s |}.

Definition set_drain (s : State A) (l : option A) (d : option (Drain A)) : State A :=
  {| latest := l; scheduled := scheduled s; chan := chan s; swaps := swaps s; drain := d; checking := checking s;
     swapping := swapping s; sent := sent s; delivered := delivered s |}.

(** [permit.send] *)
Definition deliver (s : State A) (a : A) : State A :=
  {| latest := latest s; scheduled := scheduled s; chan := push_back (chan s) a; swaps := swaps s; drain := Some Post;
     checking := checking s; swapping := swapping s; sent := sent s; delivered := delivered s ++ [a] |}.

(** [scheduled.store(false)] by the task that holds the flag; [cs] tasks look at [latest] then. *)
Definition clear (s : State A) (cs : nat) : State A :=
  {| latest := latest s; scheduled := false; chan := chan s; swaps := swaps s; drain := None; checking := cs;
     swapping := swapping s; sent := sent s; delivered := delivered s |}.

Definition set_chan (s : State A) (c : Chan A) : State A :=
  {| latest := latest s; scheduled := scheduled s; chan := c; swaps := swaps s; drain := drain s; checking := checking s;
     swapping := swapping s; sent := sent s; delivered := delivered s |}.

Definition set_tails (s : State A) (cs ss : nat) : State A :=
  {| latest := latest s; scheduled := scheduled s; chan := chan s; swaps := swaps s; drain := drain s; checking := cs;
     swapping := ss; sent := sent s; delivered := delivered s |}.

(** The steps of the senders after the store, of the tasks and of the receiver. *)
Inductive task_step : State A → State A → Prop :=
  | sender_swap s n : swaps s = S n → task_step s (swap s n (checking s) (swapping s))
  | reserved s : drain s = Some Reserve → closed (chan s) = false →
      (length (queue (chan s)) < HERDR_RESIZE_BUFFER)%nat → task_step s (set_drain s (latest s) (Some Take))
  | reserve_failed s : drain s = Some Reserve → closed (chan s) = true → task_step s (clear s (checking s))
  | took s a : drain s = Some Take → latest s = Some a → task_step s (set_drain s None (Some (Send a)))
  | took_none s : drain s = Some Take → latest s = None → task_step s (set_drain s None (Some Clear))
  | sent_on s a : drain s = Some (Send a) → reserves = true ∨ closed (chan s) = false → task_step s (deliver s a)
  | send_failed s a : drain s = Some (Send a) → reserves = false → closed (chan s) = true → task_step s (clear s (checking s))
  | more s a : drain s = Some Post → latest s = Some a → task_step s (set_drain s (latest s) (Some first))
  | no_more s : drain s = Some Post → latest s = None → task_step s (set_drain s None (Some Clear))
  | cleared s : drain s = Some Clear → task_step s (clear s (S (checking s)))
  | checked_none s n : checking s = S n → latest s = None → task_step s (set_tails s n (swapping s))
  | checked_some s n a : checking s = S n → latest s = Some a → task_step s (set_tails s n (S (swapping s)))
  | task_swap s n : swapping s = S n → task_step s (swap s (swaps s) (checking s) n)
  | received s a c : try_recv (chan s) = Got a c → task_step s (set_chan s c).

Inductive step : State A → State A → Prop :=
  | step_store s a : step s (store s a)
  | step_close s : step s (set_chan s (close (chan s)))
  | step_task s s' : task_step s s' → step s s'.

(** ** Invariant *)

(** The last resize is where it should be. *)
Definition holds_last (s : State A) : Prop :=
  last (sent s) = match latest s with
                  | Some a => Some a
                  | None => match drain s with Some (Send a) => Some a | _ => last (delivered s) end
                  end.

Definition taken (s : State A) : list A := match drain s with Some (Send a) => [a] | _ => [] end.

Record inv (s : State A) : Prop := {
  i_flag : scheduled s = true ↔ is_Some (drain s);
  i_awake : is_Some (latest s) →
    scheduled s = true ∨ (0 < swaps s)%nat ∨ (0 < checking s)%nat ∨ (0 < swapping s)%nat ∨ closed (chan s) = true;
  i_last : closed (chan s) = false → holds_last s;
  i_sublist : sublist (delivered s ++ taken s ++ option_list (latest s)) (sent s);
}.

Lemma resize_inv_new : inv (new : State A).
Proof. split; cbn; [split; [done | by intros []] | by intros [] | done | done]. Qed.

Lemma resize_inv_store s a : inv s → inv (store s a).
Proof.
  intros [Hf Ha Hl Hs]. split; cbn [scheduled drain latest swaps checking swapping chan store delivered].
  - done.
  - intros _. right. left. lia.
  - intros _. unfold holds_last. simpl. by rewrite last_snoc.
  - unfold taken. cbn [drain store sent]. fold (taken s). rewrite app_assoc in *. apply sublist_app; [| done].
    etransitivity; [| exact Hs]. by apply sublist_inserts_r.
Qed.

Lemma resize_unscheduled s : inv s → scheduled s = false → drain s = None.
Proof. intros [Hf _ _ _] Hsch. destruct (drain s) eqn:Hd; [| done]. rewrite (proj2 Hf) in Hsch; [done | eauto]. Qed.

Lemma resize_inv_swap s sw cs ss : inv s → inv (swap s sw cs ss).
Proof.
  intros Hi. pose proof (resize_unscheduled s Hi) as Hu. destruct Hi as [Hf Ha Hl Hs].
  split; unfold holds_last, taken in *; cbn [scheduled drain latest swap sent delivered].
  - split; [intros _ | done]. destruct (scheduled s); [by apply Hf | done].
  - intros _. by left.
  - intros Hc. specialize (Hl Hc). destruct (scheduled s); [done |]. rewrite Hl, Hu by done. unfold first. by destruct reserves.
  - destruct (scheduled s); [done |]. rewrite Hu in Hs by done. unfold first. by destruct reserves.
Qed.

(** The task that holds the flag goes on; a frame it takes is the latest. *)
Lemma resize_inv_drain s l d d' : drain s = Some d → inv s → inv (set_drain s l (Some d')) ↔
  (closed (chan s) = false → holds_last (set_drain s l (Some d'))) ∧ sublist (delivered s ++ taken (set_drain s l (Some d')) ++ option_list l) (sent s).
Proof.
  intros Hd [Hf Ha Hl Hs]. split; [by intros [] |]. intros [Hl' Hs']. split; try done; cbn [scheduled drain set_drain latest].
  - split; [done |]. intros _. apply Hf. by rewrite Hd.
  - intros _. left. apply Hf. by rewrite Hd.
Qed.

Lemma resize_inv_clear s d cs : drain s = Some d → (∀ a, d = Send a → closed (chan s) = true) → (closed (chan s) = true ∨ (0 < cs)%nat) → inv s → inv (clear s cs).
Proof.
  intros Hd Hns Hcs [Hf Ha Hl Hs]. split; cbn [scheduled drain latest clear checking chan swaps swapping].
  - split; [done | by intros []].
  - intros _. destruct Hcs; auto 6.
  - intros Hc. unfold holds_last in *. simpl. rewrite Hd in Hl. rewrite (Hl Hc). destruct (latest s); [done |]. destruct d; try done.
    by rewrite (Hns a) in Hc.
  - unfold taken in *. simpl. rewrite Hd in Hs. etransitivity; [| exact Hs]. destruct d; try done. cbn.
    apply sublist_app; [done |]. by apply sublist_cons.
Qed.

Lemma resize_inv_tails s cs ss : (is_Some (latest s) → (0 < ss)%nat) → inv s → inv (set_tails s cs ss).
Proof. intros Hss [Hf Ha Hl Hs]. split; [done | | done | done]. intros Hla. specialize (Hss Hla). cbn. auto 6. Qed.

Lemma resize_inv_chan s c : (closed (chan s) = true → closed c = true) → inv s → inv (set_chan s c).
Proof.
  intros Hc [Hf Ha Hl Hs]. split; [done | | | done].
  - intros Hla. cbn. destruct (Ha Hla) as [|[|[|[|]]]]; auto 6.
  - cbn. intros Hc'. apply Hl. destruct (closed (chan s)); [| done]. rewrite Hc in Hc'; done.
Qed.

Lemma try_recv_closed (c c' : Chan A) a : try_recv c = Got a c' → closed c' = closed c.
Proof. unfold try_recv. destruct (queue c); [by destruct (closed c) |]. by intros [= <- <-]. Qed.


Lemma resize_inv_task s s' : task_step s s' → inv s → inv s'.
Proof.
  intros Hstep Hinv. pose proof Hinv as [Hf Ha Hl Hs]. unfold holds_last, taken in Hl, Hs.
  destruct Hstep as [s n Hn|s Hd Hc Hq|s Hd Hc|s a Hd Hla|s Hd Hla|s a Hd Ho|s a Hd Hr Hc|s a Hd Hla|s Hd Hla|s Hd|s n Hn Hla
                    |s n a Hn Hla|s n Hn|s a c Hr]; try rewrite Hd in Hl, Hs; try rewrite Hla in Hl, Hs.
  - by apply resize_inv_swap.
  - by apply (resize_inv_drain s (latest s) Reserve).
  - by apply (resize_inv_clear s Reserve); [| | left |].
  - by apply (resize_inv_drain s None Take).
  - by apply (resize_inv_drain s None Take).
  - split; try done.
    + cbn [scheduled drain deliver]. split; [done |]. intros _. apply Hf. by rewrite Hd.
    + intros Hc. unfold holds_last. cbn [sent latest drain deliver delivered]. rewrite (Hl Hc).
      destruct (latest s); [done | by rewrite last_snoc].
    + unfold taken. cbn [sent latest drain deliver delivered]. by rewrite <- app_assoc.
  - by apply (resize_inv_clear s (Send a)); [| | left |].
  - rewrite Hla. apply (resize_inv_drain s (Some a) Post); [done.. |]. unfold first, taken, holds_last. by destruct reserves.
  - by apply (resize_inv_drain s None Post).
  - by apply (resize_inv_clear s Clear); [| | right; lia |].
  - apply resize_inv_tails; [| done]. rewrite Hla. by intros [].
  - apply resize_inv_tails; [lia | done].
  - by apply resize_inv_swap.
  - apply resize_inv_chan; [| done]. by rewrite (try_recv_closed _ _ _ Hr).
Qed.

Lemma resize_inv_step s s' : step s s' → inv s → inv s'.
Proof.
  intros [s1 a|s1|s1 s2 Ht] Hi; [by apply resize_inv_store | | by apply (resize_inv_task s1)].
  by apply resize_inv_chan.
Qed.

Lemma resize_inv_reachable s : rtc step new s → inv s.
Proof. apply (rtc_ind_r inv new resize_inv_new). eauto using resize_inv_step. Qed.

(** ** Termination *)








(** The bridge sees the resizes of a session in the order they were sent, each at most once,
    whatever the interleaving of the senders, the tasks and the receiver. *)
Theorem resize_in_order s : rtc step new s → sublist (delivered s) (sent s).
Proof.
  intros [_ _ _ Hs]%resize_inv_reachable. etransitivity; [| exact Hs]. by apply sublist_inserts_r.
Qed.


End resize.
End Resize.

(** ** Examples *)

Module Demo.

Lemma stored_reachable : rtc (Resize.step true) Resize.new (Resize.store Resize.new 7%nat).
Proof. apply rtc_once, Resize.step_store. Qed.

Lemma resize_in_order_witness :
  sublist (Resize.delivered (Resize.store Resize.new 7%nat)) (Resize.sent (Resize.store Resize.new 7%nat)).
Proof. apply (Resize.resize_in_order true). exact stored_reachable. Defined.





End Demo.
