(* ===== verification/HerdrRender.v ===== *)
(** * Renders of an attached herdr session

    The render queue of crates/portl-agent/src/session_handler/herdr.rs: [HerdrRenderSender]
    puts frames in a bounded queue, waits for room when it is full, and starts a task that
    moves the frames to the channel of the client unless the flag says that one runs.  A step
    is one access to the shared data, as for the resizes. *)

From S2P Require Import Prelude HerdrWire HerdrLanes.

(** ** Renders *)

Module Render.

Definition HERDR_LANE_BUFFER : nat := 64.
Definition HERDR_RENDER_PENDING_LIMIT : nat := 16.

(** The one caller of [HerdrRenderSender::send]: between two calls, at the top of the loop, before
    the push, before [ensure_drain_task] with what the push returned, before the first poll of
    [notified], registered there, and after an error, with the frame it did not send. *)
Inductive Sender (A : Type) :=
  | Idle
  | Loop (a : A)
  | Push (a : A)
  | Ensure (returned : option A)
  | Poll (a : A)
  | Parked (a : A)
  | Stopped (a : A).
Arguments Idle {A}. Arguments Loop {A}. Arguments Push {A}. Arguments Ensure {A}. Arguments Poll {A}.
Arguments Parked {A}. Arguments Stopped {A}.

(** The task that holds the flag: before the pop, with a frame, after a failed send, and after a
    pop that found nothing. *)
Inductive Drain (A : Type) := Pop | Send (a : A) | Abort | Clear.
Arguments Pop {A}. Arguments Send {A}. Arguments Abort {A}. Arguments Clear {A}.

(** Tasks that have cleared the flag: those that notify and end, that notify and look at the
    queue, that look at the queue, that swap the flag. *)
Record Tails := { leaving : nat; notifying : nat; checking : nat; swapping : nat }.

Record State (A : Type) := {
  sender : Sender A;
  permit : bool;        (** of [notify_space] *)
  pending : list A;
  scheduled : bool;
  drain : option (Drain A);
  tails : Tails;
  chan : Chan A;
  given : list A;
  delivered : list A;
}.
Arguments sender {A}. Arguments permit {A}. Arguments pending {A}. Arguments scheduled {A}. Arguments drain {A}.
Arguments tails {A}. Arguments chan {A}. Arguments given {A}. Arguments delivered {A}.

(** [HerdrRenderPendingFrames::push_or_return]: the frames after it and what is returned. *)
Definition push_or_return `{Bincode} (max : nat) (frames : list RawHerdrFrame) (f : RawHerdrFrame)
    : result HerdrFrameError (list RawHerdrFrame * option RawHerdrFrame) :=
  lane ← frame_server_lane f;
  ensure (match lane with ServerRender => true | _ => false end)
    (HerdrWire.Bincode "non-render Herdr frame sent through render queue");;
  if (max <=? length frames)%nat then Ok (frames, Some f) else Ok (frames ++ [f], None).

Section render.
Context `{Bincode}.
Abbreviation St := (State RawHerdrFrame).
Implicit Types s : St.

Definition no_tails : Tails := {| leaving := 0; notifying := 0; checking := 0; swapping := 0 |}.

Definition new : St :=
  {| sender := Idle; permit := false; pending := []; scheduled := false; drain := None; tails := no_tails;
     chan := {| queue := []; closed := false |}; given := []; delivered := [] |}.

Definition set_sender s x : St :=
  {| sender := x; permit := permit s; pending := pending s; scheduled := scheduled s; drain := drain s;
     tails := tails s; chan := chan s; given := given s; delivered := delivered s |}.
Definition set_pending s p : St :=
  {| sender := sender s; permit := permit s; pending := p; scheduled := scheduled s; drain := drain s;
     tails := tails s; chan := chan s; given := given s; delivered := delivered s |}.
Definition set_drain s (sch : bool) d : St :=
  {| sender := sender s; permit := permit s; pending := pending s; scheduled := sch; drain := d;
     tails := tails s; chan := chan s; given := given s; delivered := delivered s |}.
Definition set_tails s t : St :=
  {| sender := sender s; permit := permit s; pending := pending s; scheduled := scheduled s; drain := drain s;
     tails := t; chan := chan s; given := given s; delivered := delivered s |}.
Definition set_chan s c : St :=
  {| sender := sender s; permit := permit s; pending := pending s; scheduled := scheduled s; drain := drain s;
     tails := tails s; chan := c; given := given s; delivered := delivered s |}.
Definition set_permit s b : St :=
  {| sender := sender s; permit := b; pending := pending s; scheduled := scheduled s; drain := drain s;
     tails := tails s; chan := chan s; given := given s; delivered := delivered s |}.

(** [send] is called. *)
Definition give s f : St :=
  {| sender := Loop f; permit := permit s; pending := pending s; scheduled := scheduled s; drain := drain s;
     tails := tails s; chan := chan s; given := given s ++ [f]; delivered := delivered s |}.

Definition deliver s f : St :=
  {| sender := sender s; permit := permit s; pending := pending s; scheduled := scheduled s; drain := Some Pop;
     tails := tails s; chan := push_back (chan s) f; given := given s; delivered := delivered s ++ [f] |}.

(** [Notify::notify_one]: the registered waiter is woken, or the permit is stored. *)
Definition notify_one s : St :=
  match sender s with
  | Parked f => set_sender s (Loop f)
  | _ => set_permit s true
  end.

(** [scheduled.swap(true)] and, if it was not set, the task started or resumed. *)
Definition swap s : St := set_drain s true (if scheduled s then drain s else Some Pop).

(** The steps of a call of [send]. *)
Definition send_loop s f : St := set_sender s (if closed (chan s) then Stopped f else Push f).

Definition send_push s f : St :=
  match push_or_return HERDR_RENDER_PENDING_LIMIT (pending s) f with
  | Err _ => set_sender s (Stopped f)
  | Ok (p, returned) => set_sender (set_pending s p) (Ensure returned)
  end.

Definition send_ensure s (returned : option RawHerdrFrame) : St :=
  set_sender (swap s) (match returned with Some f => Poll f | None => Idle end).

Definition send_poll s f : St :=
  if permit s then set_sender (set_permit s false) (Loop f) else set_sender s (Parked f).

(** The steps of the task that holds the flag; [None] where it waits for room in the channel. *)
Definition drain_pop s : St :=
  match pending s with
  | f :: p => notify_one (set_drain (set_pending s p) (scheduled s) (Some (Send f)))
  | [] => set_drain s (scheduled s) (Some Clear)
  end.

Definition drain_send s f : option St :=
  if closed (chan s) then Some (set_drain s (scheduled s) (Some Abort))
  else if (length (queue (chan s)) <? HERDR_LANE_BUFFER)%nat then Some (deliver s f)
  else None.

Definition add_leaving t : Tails :=
  {| leaving := S (leaving t); notifying := notifying t; checking := checking t; swapping := swapping t |}.
Definition add_notifying t : Tails :=
  {| leaving := leaving t; notifying := S (notifying t); checking := checking t; swapping := swapping t |}.

Definition drain_step s : option St :=
  match drain s with
  | None => None
  | Some Pop => Some (drain_pop s)
  | Some (Send f) => drain_send s f
  | Some Abort => Some (set_tails (set_drain s false None) (add_leaving (tails s)))
  | Some Clear => Some (set_tails (set_drain s false None) (add_notifying (tails s)))
  end.

(** What follows the clearing of the flag. *)
Definition tail_check s n : St :=
  let t := tails s in
  set_tails s {| leaving := leaving t; notifying := notifying t; checking := n;
                 swapping := match pending s with [] => swapping t | _ => S (swapping t) end |}.

Inductive tail_step : St → St → Prop :=
  | tail_leave s n : leaving (tails s) = S n →
      let t := tails s in
      tail_step s (notify_one (set_tails s
        {| leaving := n; notifying := notifying t; checking := checking t; swapping := swapping t |}))
  | tail_notify s n : notifying (tails s) = S n →
      let t := tails s in
      tail_step s (notify_one (set_tails s
        {| leaving := leaving t; notifying := n; checking := S (checking t); swapping := swapping t |}))
  | tail_checked s n : checking (tails s) = S n → tail_step s (tail_check s n)
  | tail_swap s n : swapping (tails s) = S n →
      let t := tails s in
      tail_step s (swap (set_tails s
        {| leaving := leaving t; notifying := notifying t; checking := checking t; swapping := n |})).

Definition send_step s : option St :=
  match sender s with
  | Loop f => Some (send_loop s f)
  | Push f => Some (send_push s f)
  | Ensure r => Some (send_ensure s r)
  | Poll f => Some (send_poll s f)
  | _ => None
  end.

Inductive task_step : St → St → Prop :=
  | step_send s s' : send_step s = Some s' → task_step s s'
  | step_drain s s' : drain_step s = Some s' → task_step s s'
  | step_tail s s' : tail_step s s' → task_step s s'
  | step_receive s f c : try_recv (chan s) = Got f c → task_step s (set_chan s c).

Inductive step : St → St → Prop :=
  | step_give s f : sender s = Idle → step s (give s f)
  | step_close s : step s (set_chan s (close (chan s)))
  | step_task s s' : task_step s s' → step s s'.

(** ** Invariant *)

Definition held s : list RawHerdrFrame :=
  match sender s with
  | Loop f | Push f | Ensure (Some f) | Poll f | Parked f | Stopped f => [f]
  | Idle | Ensure None => []
  end.

Definition taken s : list RawHerdrFrame := match drain s with Some (Send f) => [f] | _ => [] end.

(** The caller waits for a notification that is yet to come. *)
Definition blocked s : bool :=
  match sender s with
  | Parked _ => true
  | Poll _ | Ensure (Some _) => negb (permit s)
  | _ => false
  end.

Definition looking (t : Tails) : nat := (notifying t + checking t + swapping t)%nat.

(** Somebody will look at the queue; [n] tasks that have cleared the flag do. *)
Definition awake s (n : nat) : Prop := scheduled s = true ∨ (∃ r, sender s = Ensure r) ∨ (0 < n)%nat.

(** What holds even between a pop and its notification. *)
Record weak s : Prop := {
  w_flag : scheduled s = true ↔ is_Some (drain s);
  w_awake : pending s ≠ [] → closed (chan s) = false → awake s (looking (tails s));
  w_size : (length (pending s) ≤ HERDR_RENDER_PENDING_LIMIT)%nat ∧ (length (queue (chan s)) ≤ HERDR_LANE_BUFFER)%nat;
  w_order : closed (chan s) = false → given s = delivered s ++ taken s ++ pending s ++ held s;
  w_prefix : delivered s `prefix_of` given s;
  w_abort : drain s = Some Abort → closed (chan s) = true;
}.

Record inv s : Prop := {
  i_weak : weak s;
  i_blocked : blocked s = true →
    length (pending s) = HERDR_RENDER_PENDING_LIMIT ∧ awake s (leaving (tails s) + looking (tails s));
}.

Lemma render_inv_new : inv new.
Proof. split; [split |]; try done; [| split; simpl; lia]. by split; [| intros []]. Qed.

Lemma render_inv_notify s : weak s → inv (notify_one s).
Proof.
  intros [Hf Ha Hs Ho Hp Hab]. unfold notify_one. destruct (sender s) eqn:E; split; try split; try done;
    unfold held, awake, blocked in *; cbn [sender set_sender set_permit permit] in *; rewrite ?E in *; try done.
  all: try by destruct returned.
  all: intros Hne Hc; destruct (Ha Hne Hc) as [|[[? [=]]|]]; eauto.
Qed.

Lemma push_or_return_spec max frames f p r : push_or_return max frames f = Ok (p, r) →
  (p = frames ∧ r = Some f ∧ (max ≤ length frames)%nat) ∨ (p = frames ++ [f] ∧ r = None ∧ (length frames < max)%nat).
Proof.
  intros Hp. unfold push_or_return in Hp. inv_result. destruct (Nat.leb_spec max (length frames)); inv_result; auto.
Qed.

Ltac expose := unfold blocked, held, awake, taken, looking, swap in *;
  cbn [sender permit pending scheduled drain tails chan given delivered set_sender set_pending set_drain set_tails set_chan
       set_permit give deliver leaving notifying checking swapping add_leaving add_notifying push_back queue closed] in *.

Lemma render_unscheduled s : weak s → scheduled s = false → drain s = None.
Proof. intros [Hf _ _ _ _ _] Hsch. destruct (drain s) eqn:Hd; [| done]. rewrite (proj2 Hf) in Hsch; [done | eauto]. Qed.

Lemma swap_drain s : weak s → is_Some (drain (swap s)) ∧ taken (swap s) = taken s.
Proof.
  intros Hw. pose proof (render_unscheduled s Hw) as Hu. destruct Hw as [Hf _ _ _ _ _]. expose.
  destruct (scheduled s); [split; [by apply Hf | done] | by rewrite Hu].
Qed.

Lemma render_inv_send s s' : send_step s = Some s' → inv s → inv s'.
Proof.
  intros Hs [Hw Hb]. pose proof Hw as [Hf Ha Hsz Ho Hp Hab]. unfold send_step in Hs.
  destruct (sender s) as [|f|f|r|f|f|f] eqn:E; try done; injection Hs as <-.
  - unfold send_loop. destruct (closed (chan s)) eqn:Hc; split; try split; try done; expose; rewrite ?E, ?Hc in *; try done.
    intros Hne _. destruct (Ha Hne eq_refl) as [|[[? [=]]|]]; auto.
  - unfold send_push. destruct (push_or_return _ _ _) as [[p r]|e] eqn:Hpush.
    + apply push_or_return_spec in Hpush as [(-> & -> & Hlen)|(-> & -> & Hlen)]; split; [split | | split |]; try done; expose;
        rewrite ?E in *; try done; [by eauto | | by eauto | |].
      * intros _. split; [lia | eauto].
      * rewrite length_app. simpl. lia.
      * intros Hc. by rewrite (Ho Hc), app_nil_r.
    + split; [split |]; try done; expose; rewrite ?E in *; try done.
      intros Hne Hc. destruct (Ha Hne Hc) as [|[[? [=]]|]]; auto.
  - destruct (swap_drain s Hw) as [Hd Ht]. unfold send_ensure. split; [split |]; try done; expose.
    + auto.
    + intros Hc. rewrite Ht, (Ho Hc), E. by destruct r.
    + destruct (scheduled s); [done | by intros [=]].
    + destruct r as [f|]; [| done]. rewrite E in Hb. intros Hpm. split; [by apply Hb | auto].
  - unfold send_poll. destruct (permit s) eqn:Hpm; split; [split| |split|]; try done; expose; rewrite ?E, ?Hpm in *; try done.
    + intros Hne Hc. destruct (Ha Hne Hc) as [|[[? [=]]|]]; auto.
    + intros Hne Hc. destruct (Ha Hne Hc) as [|[[? [=]]|]]; auto.
    + intros _. destruct (Hb eq_refl) as [Hl [|[[? [=]]|]]]; auto.
Qed.

Lemma render_inv_drain s s' : drain_step s = Some s' → inv s → inv s'.
Proof.
  intros Hs [Hw Hb]. pose proof Hw as [Hf Ha Hsz Ho Hp Hab]. unfold drain_step in Hs.
  destruct (drain s) as [d|] eqn:E; [| done]. assert (Hsch : scheduled s = true) by (apply Hf; eauto).
  destruct d as [|f| |].
  - injection Hs as <-. unfold drain_pop. destruct (pending s) as [|f p] eqn:Hpe.
    + split; [split |]; try done; expose; rewrite ?E, ?Hpe in *; try done.
    + apply render_inv_notify. split; try done; expose; rewrite ?E, ?Hpe in *; try done; [auto |].
      simpl in Hsz. lia.
  - unfold drain_send in Hs. destruct (closed (chan s)) eqn:Hc;
      [| destruct (Nat.ltb_spec (length (queue (chan s))) HERDR_LANE_BUFFER); [| done]];
      injection Hs as <-; split; [split| |split|]; try done; expose; rewrite ?E, ?Hc, ?Hsch in *; try done.
    + rewrite length_app. simpl. lia.
    + intros _. rewrite (Ho eq_refl), <- app_assoc. done.
    + rewrite (Ho eq_refl). apply prefix_app. by eexists.
  - injection Hs as <-. split; [split |]; try done; expose; rewrite ?E in *.
    + by split; [| intros []].
    + rewrite (Hab eq_refl). done.
    + done.
    + intros Hbl. split; [by apply Hb | right; right; lia].
  - injection Hs as <-. split; [split |]; try done; expose; rewrite ?E in *.
    + by split; [| intros []].
    + intros Hne Hc. right; right; lia.
    + done.
    + intros Hbl. split; [by apply Hb | right; right; lia].
Qed.

Lemma render_inv_tail s s' : tail_step s s' → inv s → inv s'.
Proof.
  intros Hs [Hw Hb]. pose proof Hw as [Hf Ha Hsz Ho Hp Hab].
  destruct Hs as [s n Hn t|s n Hn t|s n Hn|s n Hn t].
  - apply render_inv_notify. by split.
  - apply render_inv_notify. split; try done. intros Hne Hc. right. right. expose. lia.
  - unfold tail_check. destruct (pending s) as [|f p] eqn:Hpe; split; [split| |split|]; try done; expose; rewrite ?Hpe in *; try done.
    + intros Hbl. by destruct (Hb Hbl) as [[=] _].
    + intros _ _. right. right. lia.
    + intros Hbl. split; [by apply Hb |]. right. right. lia.
  - destruct (swap_drain s Hw) as [Hd Ht]. subst t. split; [split |]; try done; expose.
    + auto.
    + intros Hc. by rewrite Ht, (Ho Hc).
    + destruct (scheduled s); [done | by intros [=]].
    + intros Hbl. split; [by apply Hb | auto].
Qed.

Lemma try_recv_got (c c' : Chan RawHerdrFrame) a : try_recv c = Got a c' → queue c = a :: queue c' ∧ closed c' = closed c.
Proof. unfold try_recv. destruct (queue c); [by destruct (closed c) |]. by intros [= <- <-]. Qed.

Lemma render_inv_task s s' : task_step s s' → inv s → inv s'.
Proof.
  intros [s1 s2 Hs|s1 s2 Hs|s1 s2 Hs|s1 f c [Hq Hc]%try_recv_got];
    [eauto using render_inv_send, render_inv_drain, render_inv_tail.. |].
  intros [[Hf Ha Hsz Ho Hp Hab] Hb]. split; [split |]; try done; expose; rewrite ?Hc; try done.
  rewrite Hq in Hsz. simpl in Hsz. lia.
Qed.

Lemma render_inv_step s s' : step s s' → inv s → inv s'.
Proof.
  intros [s1 f E|s1|s1 s2 Ht] Hi; [..| by apply (render_inv_task s1)]; destruct Hi as [[Hf Ha Hsz Ho Hp Hab] Hb];
    split; [split| |split|]; try done; expose; rewrite ?E in *; try done.
  - intros Hne Hc. destruct (Ha Hne Hc) as [|[[? [=]]|]]; auto.
  - intros Hc. rewrite (Ho Hc), app_nil_r, <- !app_assoc. done.
  - by apply prefix_app_r.
Qed.

Lemma render_inv_reachable s : rtc step new s → inv s.
Proof. apply (rtc_ind_r inv new render_inv_new). eauto using render_inv_step. Qed.

(** ** Termination *)

(** The moves of frames that are left: into the queue and out of it. *)
Definition owed s : nat :=
  ((match sender s with Stopped _ => 0 | _ => 2 * length (held s) end) + length (pending s))%nat.

(** How far the parties are from their end while no frame moves, with an empty queue ([e]) and
    with frames in it. *)
Definition sender_rank (e : bool) (x : Sender RawHerdrFrame) : nat :=
  match x with
  | Idle | Stopped _ => 0
  | Loop _ => if e then 11 else 9
  | Push _ => if e then 10 else 8
  | Ensure _ => if e then 20 else 7
  | Poll _ => if e then 13 else 6
  | Parked _ => if e then 12 else 5
  end.

Definition drain_rank (e : bool) (d : option (Drain RawHerdrFrame)) : nat :=
  match d with
  | None => if e then 0 else 2
  | Some Pop => if e then 6 else 1
  | Some (Send _) => if e then 8 else 16
  | Some Abort => if e then 7 else 14
  | Some Clear => if e then 5 else 16
  end.

Definition tails_rank (e : bool) (t : Tails) : nat :=
  (if e then 6 * leaving t + 4 * notifying t + 3 * checking t + 7 * swapping t
   else 11 * leaving t + 13 * notifying t + 2 * checking t + swapping t)%nat.

Definition rank s : nat :=
  let e := bool_decide (pending s = []) in
  (sender_rank e (sender s) + (if e then 0 else if permit s then 10 else 0) + drain_rank e (drain s) +
   tails_rank e (tails s) + length (queue (chan s)))%nat.

Definition progress s s' : Prop := (owed s' < owed s)%nat ∨ (owed s' = owed s ∧ (rank s' < rank s)%nat).

Ltac measure := unfold progress, owed, rank, tails_rank; expose; cbn [sender_rank drain_rank length].

Lemma notify_progress s s0 : sender s = sender s0 → permit s = permit s0 → pending s = pending s0 → drain s = drain s0 →
  chan s = chan s0 →
  (tails_rank (bool_decide (pending s = [])) (tails s) + (if bool_decide (pending s = []) then 0 else 10)
    < tails_rank (bool_decide (pending s = [])) (tails s0))%nat →
  progress s0 (notify_one s).
Proof.
  unfold progress, owed, rank, notify_one. intros E1 E2 E3 E4 E5. right. destruct (sender s) eqn:E; expose;
    rewrite <- ?E1, <- ?E2, <- ?E3, <- ?E4, <- ?E5, ?E; cbn [sender_rank length]; split; try done;
    destruct (bool_decide _), (permit s); lia.
Qed.

Lemma send_progress s s' : send_step s = Some s' → inv s → progress s s'.
Proof.
  intros Hs [Hw _]. pose proof (render_unscheduled s Hw) as Hu. unfold send_step in Hs.
  destruct (sender s) as [|f|f|r|f|f|f] eqn:E; try done; injection Hs as <-.
  - unfold send_loop. destruct (closed (chan s)); measure; rewrite E; cbn [sender_rank length]; [left; lia | right].
    split; [done |]. destruct (bool_decide _); lia.
  - unfold send_push. destruct (push_or_return _ _ _) as [[p r]|e] eqn:Hpush; [| measure; rewrite E; simpl; left; lia].
    apply push_or_return_spec in Hpush as [(-> & -> & Hlen)|(-> & -> & Hlen)]; measure; rewrite E; cbn [sender_rank length].
    + right. split; [done |]. rewrite bool_decide_false; [lia |]. intros Hp. rewrite Hp in Hlen. by apply Nat.nle_succ_0 in Hlen.
    + left. rewrite length_app. simpl. lia.
  - unfold send_ensure. measure. right. rewrite E. split; [by destruct r |].
    destruct (scheduled s); [| rewrite Hu by done; cbn [drain_rank]]; destruct r, (bool_decide _); simpl; lia.
  - unfold send_poll. destruct (permit s) eqn:Hpm; measure; rewrite E; right; (split; [done |]); rewrite ?Hpm;
      cbn [sender_rank]; destruct (bool_decide _); lia.
Qed.

Lemma drain_progress s s' : drain_step s = Some s' → progress s s'.
Proof.
  intros Hs. unfold drain_step in Hs. destruct (drain s) as [[|f| |]|] eqn:E; [..| done].
  - injection Hs as <-. unfold drain_pop. destruct (pending s) as [|f p] eqn:Hp.
    + right. measure. rewrite E, Hp. split; [done |]. simpl. lia.
    + left. unfold notify_one. expose. measure. rewrite Hp. destruct (sender s) eqn:Es; expose; rewrite ?Es; simpl; lia.
  - right. unfold drain_send in Hs. destruct (closed (chan s)); [| destruct (_ <? _)%nat; [| done]]; injection Hs as <-; measure;
      rewrite ?length_app; (split; [done |]); rewrite E; cbn [drain_rank length]; destruct (bool_decide _); lia.
  - right. injection Hs as <-. measure. split; [done |]. rewrite E. cbn [drain_rank]. destruct (bool_decide _); lia.
  - right. injection Hs as <-. measure. split; [done |]. rewrite E. cbn [drain_rank]. destruct (bool_decide _); lia.
Qed.

Lemma tail_progress s s' : tail_step s s' → weak s → progress s s'.
Proof.
  intros Hs Hw. pose proof (render_unscheduled s Hw) as Hu. destruct Hs as [s n Hn t|s n Hn t|s n Hn|s n Hn t].
  - apply notify_progress; try done. unfold tails_rank. subst t. expose. rewrite Hn. destruct (bool_decide _); lia.
  - apply notify_progress; try done. unfold tails_rank. subst t. expose. rewrite Hn. destruct (bool_decide _); lia.
  - right. unfold tail_check. measure. split; [done |]. rewrite Hn. destruct (pending s); simpl; lia.
  - right. subst t. measure. split; [done |]. rewrite Hn.
    destruct (scheduled s); [| rewrite Hu by done; cbn [drain_rank]]; destruct (bool_decide _); simpl; lia.
Qed.

Lemma task_progress s s' : task_step s s' → inv s → progress s s'.
Proof.
  intros [s1 s2 Hs|s1 s2 Hs|s1 s2 Hs|s1 f c [Hq Hc]%try_recv_got] Hi;
    [by apply send_progress | by apply drain_progress | by apply tail_progress; destruct Hi |].
  right. measure. split; [done |]. rewrite Hq. simpl. lia.
Qed.

Lemma render_task_sn s : inv s → sn task_step s.
Proof.
  remember (owed s) as n eqn:Hn. revert s Hn. induction (lt_wf n) as [n _ IHn]. intros s.
  remember (rank s) as m eqn:Hm. revert s Hm. induction (lt_wf m) as [m _ IHm]. intros s -> -> Hi.
  constructor. intros s' Hstep. pose proof (render_inv_task _ _ Hstep Hi). destruct (task_progress _ _ Hstep Hi) as [Hlt|[He Hlt]].
  - by apply (IHn (owed s')).
  - by apply (IHm (rank s')).
Qed.

Lemma render_stuck_settled s : inv s → nf task_step s →
  drain s = None ∧ tails s = no_tails ∧ queue (chan s) = [] ∧ (sender s = Idle ∨ ∃ f, sender s = Stopped f).
Proof.
  intros [Hw Hb] Hnf. unfold nf, red in Hnf.
  assert (Hq : queue (chan s) = []).
  { destruct (queue (chan s)) as [|a q] eqn:Hq; [done |]. destruct Hnf. eexists. apply (step_receive _ a).
    unfold try_recv. by rewrite Hq. }
  assert (Hd : drain s = None).
  { destruct (drain_step s) as [s'|] eqn:Hds; [destruct Hnf; eexists; by apply step_drain |].
    unfold drain_step in Hds. destruct (drain s) as [[|f| |]|]; try done. unfold drain_send in Hds. rewrite Hq in Hds.
    by destruct (closed (chan s)). }
  assert (Ht : tails s = no_tails).
  { destruct (tails s) as [n1 n2 n3 n4] eqn:Ht.
    destruct n1; [| destruct Hnf; eexists; eapply step_tail, tail_leave; by rewrite Ht].
    destruct n2; [| destruct Hnf; eexists; eapply step_tail, tail_notify; by rewrite Ht].
    destruct n3; [| destruct Hnf; eexists; eapply step_tail, tail_checked; by rewrite Ht].
    destruct n4; [done | destruct Hnf; eexists; eapply step_tail, tail_swap; by rewrite Ht]. }
  split_and!; [done.. |]. destruct (send_step s) as [s'|] eqn:Hss; [destruct Hnf; eexists; by apply step_send |].
  unfold send_step in Hss. destruct (sender s) as [| | | | |f|] eqn:E; try done; eauto.
  unfold blocked in Hb. rewrite E in Hb. destruct (Hb eq_refl) as [_ [Hsch|[[? ?]|Hl]]]; [| congruence |].
  - apply (w_flag s Hw) in Hsch. rewrite Hd in Hsch. by destruct Hsch.
  - rewrite Ht in Hl. unfold looking in Hl. simpl in Hl. lia.
Qed.

Lemma task_given s s' : task_step s s' → given s' = given s.
Proof.
  assert (Hn : ∀ t : St, given (notify_one t) = given t) by (intros t; unfold notify_one; by destruct (sender t)).
  intros [s1 s2 Hs|s1 s2 Hs|s1 s2 Hs|]; [.. | done].
  - unfold send_step, send_loop, send_push, send_ensure, send_poll in Hs.
    destruct (sender s1); try done; injection Hs as <-; try done; [| by destruct (permit s1)].
    by destruct (push_or_return _ _ _) as [[? ?]|].
  - unfold drain_step, drain_pop, drain_send in Hs. destruct (drain s1) as [[|f| |]|]; try done; try (by injection Hs as <-).
    + injection Hs as <-. destruct (pending s1); [done | by rewrite Hn].
    + destruct (closed (chan s1)); [by injection Hs as <- |]. destruct (_ <? _)%nat; [by injection Hs as <- | done].
  - destruct Hs; rewrite ?Hn; done.
Qed.

Lemma task_rtc s s' : rtc task_step s s' → inv s → inv s' ∧ given s' = given s.
Proof.
  induction 1 as [|s s1 s' Hstep _ IH]; [done |]. intros Hi. destruct (IH (render_inv_task _ _ Hstep Hi)) as [Hi' ->].
  split; [done | by apply task_given].
Qed.

(** The client sees the render frames in the order the bridge wrote them: while the channel is
    open, what was delivered, then the frame in flight, the queue and the frame of the caller are
    exactly what was given; after it closed, what was delivered is still a prefix of it.  The queue
    and the channel never exceed their limits. *)
Theorem render_in_order s : rtc step new s →
  delivered s `prefix_of` given s ∧
  (closed (chan s) = false → given s = delivered s ++ taken s ++ pending s ++ held s) ∧
  (length (pending s) ≤ HERDR_RENDER_PENDING_LIMIT)%nat ∧ (length (queue (chan s)) ≤ HERDR_LANE_BUFFER)%nat.
Proof. by intros [[_ _ [] ? ? _] _]%render_inv_reachable. Qed.

(** No render frame is left behind and the caller is never left asleep: from every reachable
    state the caller, the tasks and the receiver come to a halt; where they halt, no task is left
    and the caller has returned; and if the channel is open and the caller has not failed, every
    frame that was given has been received. *)
Theorem render_settles s : rtc step new s →
  sn task_step s ∧
  ∀ s', rtc task_step s s' → nf task_step s' →
    scheduled s' = false ∧ queue (chan s') = [] ∧ (sender s' = Idle ∨ ∃ f, sender s' = Stopped f) ∧
    (closed (chan s') = false → given s = delivered s' ++ held s').
Proof.
  intros Hi%render_inv_reachable. split; [by apply render_task_sn |]. intros s' [Hi' <-]%task_rtc Hnf; [| done].
  destruct (render_stuck_settled s' Hi' Hnf) as (Hd & Ht & Hq & Hs). destruct Hi' as [[Hf Ha _ Ho _ _] _].
  assert (Hsch : scheduled s' = false).
  { destruct (scheduled s'); [| done]. rewrite Hd in Hf. by destruct (proj1 Hf eq_refl). }
  split_and!; [done.. |]. intros Hopen. rewrite (Ho Hopen). unfold taken. rewrite Hd. destruct (pending s') eqn:Hp; [done |].
  destruct (Ha (ltac:(done)) Hopen) as [|[[r' Hr]|Hl]]; [congruence | destruct Hs as [|[]]; congruence |].
  rewrite Ht in Hl. unfold looking in Hl. simpl in Hl. lia.
Qed.

End render.
End Render.

(** ** Examples *)

Module Demo.
Import HerdrLanes.Demo.

Definition demo_frame : RawHerdrFrame := {| direction := ServerToClient; framed := [1; 0; 0; 0; 1]; permit := None |}.

Lemma given_reachable : rtc Render.step Render.new (Render.give Render.new demo_frame).
Proof. by apply rtc_once, Render.step_give. Qed.

Lemma render_in_order_witness :
  Render.delivered (Render.give Render.new demo_frame) `prefix_of` Render.given (Render.give Render.new demo_frame).
Proof. refine (proj1 (Render.render_in_order (Render.give Render.new demo_frame) given_reachable)). Defined.

Lemma render_settles_witness : sn Render.task_step (Render.give Render.new demo_frame).
Proof. refine (proj1 (Render.render_settles (Render.give Render.new demo_frame) given_reachable)). Defined.

End Demo.
