(* ===== verification/Socks.v ===== *)
(** * The SOCKS5 proxy of dynamic forwards

    crates/portl-cli/src/commands/socks.rs: the [-D] spec, the handshake with a local client,
    and the forwarding of its connection through the peer.

    The client is what it sends and whether it then closes or stalls; a stalled handshake is
    ended by the deadline of [network_lifecycle::setup].  An [anyhow] error is the chain of
    its causes, the outermost first. *)

From S2P Require Import Prelude Bytes Text.

Definition SUCCESS : Z := 0.
Definition GENERAL_FAILURE : Z := 1.
Definition NETWORK_UNREACHABLE : Z := 3.
Definition HOST_UNREACHABLE : Z := 4.
Definition CONNECTION_REFUSED : Z := 5.
Definition COMMAND_UNSUPPORTED : Z := 7.
Definition ADDRESS_UNSUPPORTED : Z := 8.

(** ** The spec *)

Record DynamicForwardSpec := { dyn_bind : string; dyn_local_port : Z }.

Definition dyn_local_addr (s : DynamicForwardSpec) : string := dyn_bind s +:+ ":" +:+ dec (dyn_local_port s).

(** [split_once] at two characters *)
Fixpoint cut2 (a b : Z) (s : string) : option (string * string) :=
  match s with
  | String c (String d s' as rest) =>
      if (char_code c =? a) && (char_code d =? b) then Some (EmptyString, s')
      else '(x, y) ← cut2 a b rest; Some (String c x, y)
  | _ => None
  end.

Definition parse_dynamic_spec (spec : string) : result string DynamicForwardSpec :=
  '(bind, port) ←
    match strip_prefix "[" spec with
    | Some ipv6 =>
        '(host, port) ← ok_or (cut2 93 58 ipv6) ("invalid -D spec: " +:+ spec);
        _ ← ok_or (parse_ipv6 host) "parse -D IPv6 bind address";
        Ok ("[" +:+ host +:+ "]", port)
    | None =>
        match cut 58 spec with
        | Some (bind, port) =>
            ensure (negb (bool_decide (bind = "") || str_contains_byte 58 port))
              ("invalid -D spec: " +:+ spec +:+ "; bracket IPv6 bind addresses");;
            Ok (bind, port)
        | None => Ok ("127.0.0.1", spec)
        end
    end;
  local_port ← ok_or (parse_unsigned U16_MAX port) "parse -D local port";
  Ok {| dyn_bind := bind; dyn_local_port := local_port |}.

(** ** Errors *)

Inductive IoKind := KindRefused | KindHostUnreachable | KindNetworkUnreachable | KindUnexpectedEof | KindOther.

Inductive Cause :=
  | Rejected (reply : Z) (message : string)
  | Io (kind : IoKind) (text : string)
  | Msg (text : string).

Definition cause_text (c : Cause) : string :=
  match c with Rejected _ m => m | Io _ t => t | Msg t => t end.

Definition context (text : string) (e : list Cause) : list Cause := Msg text :: e.

(** The code a cause decides, if any. *)
Definition cause_reply (c : Cause) : option Z :=
  match c with
  | Rejected r _ => Some r
  | Io KindRefused _ => Some CONNECTION_REFUSED
  | Io KindHostUnreachable _ | Io KindNetworkUnreachable _ => Some HOST_UNREACHABLE
  | _ => None
  end.

Definition remote_text (message : string) : option string :=
  match strip_prefix "tcp request rejected: " message with
  | Some r => Some r
  | None => strip_prefix "tcp v2 request rejected: " message
  end.

Fixpoint first_reply (e : list Cause) : option Z :=
  match e with
  | [] => None
  | c :: e' => match cause_reply c with Some r => Some r | None => first_reply e' end
  end.

Definition reply_for_error (e : list Cause) : Z :=
  match first_reply e with
  | Some r => r
  | None =>
      match remote_text (from_option cause_text "" (last e)) with
      | None => GENERAL_FAILURE
      | Some remote =>
          if starts_with "Connection refused" remote || starts_with "connection refused" remote then CONNECTION_REFUSED
          else if starts_with "No route to host" remote || starts_with "Network is unreachable" remote
                  || starts_with "Host is unreachable" remote
                  || starts_with "failed to lookup address information:" remote then HOST_UNREACHABLE
          else GENERAL_FAILURE
      end
  end.

(** ** Reading *)

(** The client stalls, or an error. *)
Inductive Failure := Stall | Fail (e : list Cause).

Section Handshake.
Context (eof : bool).

Definition read_exact (what : string) (n : nat) (l : bytes) : result Failure (bytes * bytes) :=
  if (n <=? length l)%nat then Ok (take n l, drop n l)
  else Err (if eof then Fail (context what [Io KindUnexpectedEof "early eof"]) else Stall).

Record ConnectRequest := { cr_host : string; cr_port : Z }.

Definition reject_with {A} (reply : Z) (message : string) : result Failure A := Err (Fail [Rejected reply message]).

Definition read_host (atyp : Z) (l : bytes) : result Failure (string * bytes) :=
  if atyp =? 1 then
    '(octets, l) ← read_exact "read SOCKS5 IPv4 address" 4 l; Ok (ipv4_text octets, l)
  else if atyp =? 3 then
    '(len, l) ← read_exact "read SOCKS5 domain length" 1 l;
    let length := Z.to_nat (nth 0 len 0) in
    (if (length =? 0)%nat then reject_with GENERAL_FAILURE "SOCKS5 domain must not be empty" else Ok tt);;
    '(domain, l) ← read_exact "read SOCKS5 domain" length l;
    if is_utf8 domain then Ok (str_of_bytes domain, l)
    else Err (Fail (context "invalid SOCKS5 domain encoding" [Msg "invalid utf-8 sequence"]))
  else if atyp =? 4 then
    '(octets, l) ← read_exact "read SOCKS5 IPv6 address" 16 l; Ok (ipv6_text octets, l)
  else reject_with ADDRESS_UNSUPPORTED "unsupported SOCKS5 address type".

Definition read_connect_request (l : bytes) : result Failure (ConnectRequest * bytes) :=
  '(header, l) ← read_exact "read SOCKS5 request" 4 l;
  (if negb (nth 0 header 0 =? 5) || negb (nth 2 header 0 =? 0)
   then reject_with GENERAL_FAILURE "invalid SOCKS5 request header" else Ok tt);;
  (if negb (nth 1 header 0 =? 1) then reject_with COMMAND_UNSUPPORTED "SOCKS5 supports CONNECT only" else Ok tt);;
  '(host, l) ← read_host (nth 3 header 0) l;
  '(port, l) ← read_exact "read SOCKS5 destination port" 2 l;
  Ok ({| cr_host := host; cr_port := be_decode port |}, l).

(** ** The client connection *)

Inductive Event :=
  | Wrote (b : bytes)
  | Opened (host : string) (port : Z)
  | Forwarded.

(** [write_ok n]: the [n]-th write to the client succeeds. *)
Context (write_ok : nat → bool).

Definition write_all (what : string) (n : nat) (b : bytes) : list Event * result Failure unit :=
  if write_ok n then ([Wrote b], Ok tt) else ([], Err (Fail (context what [Io KindOther "write failed"]))).

Definition write_reply (n : nat) (reply : Z) : list Event * result Failure unit :=
  write_all "write SOCKS5 reply" n [5; reply; 0; 1; 0; 0; 0; 0; 0; 0].

Definition negotiate_no_auth (l : bytes) : list Event * result Failure bytes :=
  match ('(header, l) ← read_exact "read SOCKS5 greeting" 2 l;
         (if negb (nth 0 header 0 =? 5) then Err (Fail [Msg "unsupported SOCKS version"]) else Ok tt);;
         read_exact "read SOCKS5 methods" (Z.to_nat (nth 1 header 0)) l) with
  | Err e => ([], Err e)
  | Ok (methods, l) =>
      let method := if existsb (λ b, b =? 0) methods then 0 else 255 in
      let '(tr, r) := write_all "write SOCKS5 method" 0 [5; method] in
      (tr, r;; (if method =? 255 then Err (Fail [Msg "SOCKS5 client did not offer no-auth authentication"]) else Ok tt);; Ok l)
  end.

(** The peer when the connection was accepted, and what opening the stream gives. *)
Inductive OpenResult := OpenOk | OpenErr (e : list Cause) | OpenTimeout.

Definition socks_handshake (l : bytes) : list Event * result Failure ConnectRequest :=
  match negotiate_no_auth l with
  | (tr, Err e) => (tr, Err e)
  | (tr, Ok l) =>
      match read_connect_request l with
      | Ok (request, _) => (tr, Ok request)
      | Err Stall => (tr, Err Stall)
      | Err (Fail e) =>
          let '(tr', r) := write_reply 1 (reply_for_error e) in
          (tr ++ tr', r;; Err (Fail e))
      end
  end.

(** A stall ends at the deadline of the handshake. *)
Definition setup {A} (stage : string) (r : result Failure A) : result (list Cause) A :=
  match r with
  | Ok a => Ok a
  | Err (Fail e) => Err e
  | Err Stall => Err (context (stage +:+ " deadline exceeded") [Msg "deadline has elapsed"])
  end.

Definition answer (tr : list Event) (reply : Z) (e : list Cause) : list Event * result (list Cause) unit :=
  let '(tr', r) := write_reply 1 reply in
  (tr ++ tr', match r with Ok _ | Err Stall => Err e | Err (Fail w) => Err w end).

Definition forward_client (peer_open : bool) (open : string → Z → OpenResult) (l : bytes)
    : list Event * result (list Cause) unit :=
  let '(tr, r) := socks_handshake l in
  match setup "SOCKS5 handshake" r with
  | Err e => (tr, Err e)
  | Ok request =>
      if negb peer_open then answer tr NETWORK_UNREACHABLE [Msg "forward unavailable while peer reconnects"]
      else
        match open (cr_host request) (cr_port request) with
        | OpenErr e => answer tr (reply_for_error e) e
        | OpenTimeout => answer tr NETWORK_UNREACHABLE [Msg "SOCKS5 TCP forward setup deadline exceeded"]
        | OpenOk =>
            let tr := tr ++ [Opened (cr_host request) (cr_port request)] in
            match write_reply 1 SUCCESS with
            | (tr', Ok _) => (tr ++ tr' ++ [Forwarded], Ok tt)
            | (tr', Err Stall) => (tr ++ tr', Err [])
            | (tr', Err (Fail e)) => (tr ++ tr', Err e)
            end
        end
  end.

End Handshake.

(** ** Requests *)

Inductive Addr := V4 (octets : bytes) | Name (domain : bytes) | V6 (octets : bytes).

Definition addr_wf (a : Addr) : Prop :=
  match a with
  | V4 o => length o = 4%nat
  | Name d => (1 ≤ length d)%nat ∧ Z.of_nat (length d) ≤ U8_MAX ∧ is_utf8 d = true
  | V6 o => length o = 16%nat
  end.

Definition addr_bytes (a : Addr) : bytes :=
  match a with
  | V4 o => 1 :: o
  | Name d => 3 :: Z.of_nat (length d) :: d
  | V6 o => 4 :: o
  end.

Definition addr_host (a : Addr) : string :=
  match a with V4 o => ipv4_text o | Name d => str_of_bytes d | V6 o => ipv6_text o end.

(** A CONNECT request of RFC 1928. *)
Definition connect_bytes (a : Addr) (port : Z) : bytes := [5; 1; 0] ++ addr_bytes a ++ be_encode 2 port.

Lemma socks_read_exact_Ok eof what n l a r : read_exact eof what n l = Ok (a, r) ↔ l = a ++ r ∧ length a = n.
Proof.
  unfold read_exact. destruct (Nat.leb_spec n (length l)) as [Hn|Hn]; split.
  - intros [= <- <-]. rewrite take_drop, length_take. split; [done | lia].
  - intros [-> <-]. by rewrite take_app_length, drop_app_length.
  - by destruct eof.
  - intros [-> <-]. rewrite length_app in Hn. lia.
Qed.

Lemma reject_Ok {A} (b : bool) r m (k : result Failure A) a :
  ((if b then reject_with r m else Ok tt);; k) = Ok a ↔ b = false ∧ k = Ok a.
Proof. destruct b; simpl; naive_solver. Qed.

Lemma reject_inv {A} (b : bool) r m (k : result Failure A) a :
  ((if b then reject_with r m else Ok tt);; k) = Ok a → b = false ∧ k = Ok a.
Proof. apply reject_Ok. Qed.

Lemma read_host_Ok eof atyp l host rest : Forall u8_range (atyp :: l) →
  read_host eof atyp l = Ok (host, rest) ↔ ∃ a, addr_wf a ∧ atyp :: l = addr_bytes a ++ rest ∧ host = addr_host a.
Proof.
  intros Hr. unfold read_host. split.
  - destruct (Z.eqb_spec atyp 1) as [->|H1]; [| destruct (Z.eqb_spec atyp 3) as [->|H3];
      [| destruct (Z.eqb_spec atyp 4) as [->|H4]; [| done]]].
    + intros ([o l'] & [-> Ho]%socks_read_exact_Ok & [= <- <-])%bind_Ok. by exists (V4 o).
    + intros ([len l'] & [-> Hlen]%socks_read_exact_Ok & H)%bind_Ok. apply reject_inv in H as [Hz H].
      apply bind_Ok in H as ([d l''] & [-> Hd]%socks_read_exact_Ok & H). destruct (is_utf8 d) eqn:Hu; [| done]. injection H as <- <-.
      destruct len as [|n [|]]; try done. simpl in Hz, Hd. apply Nat.eqb_neq in Hz.
      cbn [app] in Hr. rewrite !Forall_cons in Hr. destruct Hr as (_ & Hn & _). unfold u8_range, U8_MAX in Hn.
      exists (Name d). simpl. rewrite Hd, Z2Nat.id by lia. unfold U8_MAX. split; [split; [lia | split; [lia | done]] | done].
    + intros ([o l'] & [-> Ho]%socks_read_exact_Ok & [= <- <-])%bind_Ok. by exists (V6 o).
  - intros (a & Hwf & Hl & ->). destruct a as [o|d|o]; cbn [addr_bytes app] in Hl; injection Hl as -> ->; cbn [Z.eqb Pos.eqb].
    + apply bind_Ok. exists (o, rest). by rewrite socks_read_exact_Ok.
    + destruct Hwf as (H1 & H255 & Hu). apply bind_Ok. exists ([Z.of_nat (length d)], d ++ rest). rewrite socks_read_exact_Ok. split; [done |].
      apply reject_Ok. cbn [nth]. rewrite Nat2Z.id. split; [apply Nat.eqb_neq; lia |]. apply bind_Ok. exists (d, rest).
      by rewrite socks_read_exact_Ok, Hu.
    + apply bind_Ok. exists (o, rest). by rewrite socks_read_exact_Ok.
Qed.

(** A request of a client is accepted exactly when it is a CONNECT request of RFC 1928, with an
    IPv4 or IPv6 address or a UTF-8 name of 1 to 255 bytes; the host is the text of the
    address, the port is its own, and not a byte after the request is taken. *)
Theorem socks_request_exact eof input r rest : Forall u8_range input →
  read_connect_request eof input = Ok (r, rest) ↔
  ∃ a port, addr_wf a ∧ 0 ≤ port ≤ U16_MAX ∧ input = connect_bytes a port ++ rest ∧
            r = {| cr_host := addr_host a; cr_port := port |}.
Proof.
  intros Hr. unfold read_connect_request. split.
  - intros ([header l] & [-> Hh]%socks_read_exact_Ok & H)%bind_Ok. destruct header as [|v [|cmd [|rsv [|atyp [|]]]]]; try done.
    cbn [nth] in H. apply reject_inv in H as [H05 H]. apply reject_inv in H as [H1 H]. reflect_bool. subst v cmd rsv.
    apply bind_Ok in H as ([host l2] & Hhost & H). apply bind_Ok in H as ([port l3] & [-> Hp]%socks_read_exact_Ok & [= <- <-]).
    cbn [app] in Hr. do 3 apply Forall_cons in Hr as [_ Hr].
    apply read_host_Ok in Hhost as (a & Hwf & Hl & ->); [| done]. rewrite Hl in Hr.
    assert (Forall u8_range port) as Hport by (rewrite !Forall_app in Hr; tauto).
    pose proof (be_decode_bound port Hport) as Hb. rewrite Hp in Hb. pose proof (be_encode_decode port Hport) as He. rewrite Hp in He.
    exists a, (be_decode port). split_and!; [done | lia | unfold U16_MAX; lia | | done].
    unfold connect_bytes. cbn [app]. rewrite Hl, He. by rewrite <- app_assoc.
  - intros (a & port & Hwf & Hp & -> & ->). apply bind_Ok.
    destruct (addr_bytes a) as [|atyp la] eqn:Ha; [by destruct a |].
    exists ([5; 1; 0; atyp], la ++ be_encode 2 port ++ rest). unfold connect_bytes in *. rewrite Ha in *. rewrite socks_read_exact_Ok.
    split; [by rewrite (app_assoc la) |].
    apply reject_Ok. split; [done |]. apply reject_Ok. split; [done |]. cbn [nth]. apply bind_Ok.
    exists (addr_host a, be_encode 2 port ++ rest). split.
    + apply read_host_Ok; [| exists a; by rewrite Ha].
      cbn [app] in Hr. do 3 apply Forall_cons in Hr as [_ Hr]. by rewrite <- app_assoc in Hr.
    + apply bind_Ok. exists (be_encode 2 port, rest). rewrite socks_read_exact_Ok. split; [by rewrite be_encode_length |].
      by rewrite be_decode_encode by (unfold U16_MAX in Hp; lia).
Qed.

(** ** The protocol *)

Definition reply_bytes (code : Z) : bytes := [5; code; 0; 1; 0; 0; 0; 0; 0; 0].

Lemma read_exact_fail eof what n l e : read_exact eof what n l = Err (Fail e) → first_reply e = None.
Proof. unfold read_exact. destruct (n <=? length l)%nat, eof; by intros [= <-]. Qed.

(** Every refusal of a request has a code that is not that of success. *)
Lemma request_error_reply eof l e : read_connect_request eof l = Err (Fail e) →
  first_reply e = None ∨ ∃ c, first_reply e = Some c ∧ c ≠ SUCCESS.
Proof.
  assert (∀ {A} r m (e : list Cause), (reject_with r m : result Failure A) = Err (Fail e) → r ≠ SUCCESS →
    ∃ c, first_reply e = Some c ∧ c ≠ SUCCESS) as Hrej by (intros A r m e' [= <-] Hr; by exists r).
  unfold read_connect_request, read_host. intros H. repeat first
    [ progress simplify_eq
    | match goal with
      | H : read_exact _ _ _ _ = Err (Fail _) |- _ => left; exact (read_exact_fail _ _ _ _ _ H)
      | H : reject_with _ _ = Err (Fail _) |- _ => right; exact (Hrej _ _ _ _ H ltac:(done))
      | H : (match ?x with _ => _ end) = _ |- _ => destruct x eqn:?
      | H : ?m ≫= _ = Err _ |- _ => apply bind_Err in H as [H|(? & ? & H)]
      end ].
  by left.
Qed.

Lemma reply_for_error_ne e : first_reply e ≠ Some SUCCESS → reply_for_error e ≠ SUCCESS.
Proof.
  intros He. unfold reply_for_error. destruct (first_reply e); [congruence |].
  destruct (remote_text _); [| done]. by repeat case_match.
Qed.

Lemma request_reply_ne eof l e : read_connect_request eof l = Err (Fail e) → reply_for_error e ≠ SUCCESS.
Proof. intros He%request_error_reply. apply reply_for_error_ne. destruct He as [|(c & -> & ?)]; congruence. Qed.

(** What the greeting leaves in the trace. *)
Lemma negotiate_trace eof write_ok l tr r : negotiate_no_auth eof write_ok l = (tr, r) →
  match r with
  | Ok _ => tr = [Wrote [5; 0]]
  | Err _ => tr = [] ∨ tr = [Wrote [5; 255]]
  end.
Proof.
  unfold negotiate_no_auth, write_all. intros H. repeat case_match; simplify_eq/=; auto.
Qed.


Definition is_reply (e : Event) : bool := match e with Wrote b => (length b =? 10)%nat | _ => false end.

(** Events that neither forward nor report success. *)
Lemma quiet_trace tr : Forall (λ e, e ≠ Forwarded ∧ e ≠ Wrote (reply_bytes SUCCESS)) tr →
  (Forwarded ∉ tr) ∧ (Wrote (reply_bytes SUCCESS) ∉ tr).
Proof. rewrite Forall_forall. intros H. split; intros Hin; by destruct (H _ Hin). Qed.

Ltac quiet := apply quiet_trace; repeat constructor; try done; intros [= ?]; done.

(** The client is told of success exactly when its connection is forwarded, which happens
    only after the peer has opened the destination it asked for; a failure is never reported
    as a success; and once the client and the proxy agreed on a method, a client that
    completes its request, well formed or not, gets exactly one reply. *)
Theorem socks_protocol eof write_ok peer_open open l :
  (∀ h p e, open h p = OpenErr e → Forall (λ c, ∀ r m, c ≠ Rejected r m) e) →
  let '(tr, r) := forward_client eof write_ok peer_open open l in
  (r = Ok tt → ∃ req, socks_handshake eof write_ok l = ([Wrote [5; 0]], Ok req) ∧ peer_open = true ∧
     open (cr_host req) (cr_port req) = OpenOk ∧
     tr = [Wrote [5; 0]; Opened (cr_host req) (cr_port req); Wrote (reply_bytes SUCCESS); Forwarded]) ∧
  (r ≠ Ok tt → (Forwarded ∉ tr) ∧ (Wrote (reply_bytes SUCCESS) ∉ tr)) ∧
  (write_ok 1%nat = true → (∃ rest, (negotiate_no_auth eof write_ok l).2 = Ok rest ∧ read_connect_request eof rest ≠ Err Stall) →
   length (List.filter is_reply tr) = 1%nat).
Proof.
  intros Hopen.
  assert (Hne : ∀ h p e, open h p = OpenErr e → reply_for_error e ≠ SUCCESS).
  { intros h p e He%Hopen. apply reply_for_error_ne. induction He as [|c e Hc _ IH]; [done |]. simpl.
    destruct c as [r m|[]|]; try done. by destruct (Hc r m). }
  unfold forward_client, socks_handshake, answer, write_reply, write_all.
  destruct (negotiate_no_auth eof write_ok l) as [tr0 [rest|f]] eqn:Hneg; pose proof (negotiate_trace _ _ _ _ _ Hneg) as Htr;
    simpl in Htr.
  2:{ destruct f; simpl; (split_and!; [done | | by intros _ (? & [=] & _)]); intros _;
        destruct Htr as [-> | ->]; quiet. }
  subst tr0. cbn [snd].
  destruct (read_connect_request eof rest) as [[req l']|[|e]] eqn:Hreq; cbn [setup].
  - destruct peer_open; cbn [negb]; [destruct (open (cr_host req) (cr_port req)) as [|e|] eqn:Ho |];
      destruct (write_ok 1%nat) eqn:Hw; cbn [app]; split_and!; try done; try (apply Hne in Ho); try (intros _; quiet). by eauto.
  - split_and!; try done; [intros _; quiet |]. by intros _ (? & [= <-] & Hs).
  - pose proof (request_reply_ne _ _ _ Hreq) as Hr. destruct (write_ok 1%nat) eqn:Hw; simpl; split_and!; try done;
      intros _; quiet.
Qed.

(** ** The spec *)

Lemma cut2_cons a b c d s : cut2 a b (String c (String d s)) =
  if (char_code c =? a) && (char_code d =? b) then Some ("", s)
  else '(x, y) ← cut2 a b (String d s); Some (String c x, y).
Proof. done. Qed.

(** The cut depends on what comes before it. *)
Lemma cut2_replace c d s x y z : cut2 (char_code c) (char_code d) s = Some (x, y) →
  s = x +:+ String c (String d y) ∧ cut2 (char_code c) (char_code d) (x +:+ String c (String d z)) = Some (x, z).
Proof.
  revert x. induction s as [|e s IH]; intros x; [done |]. destruct s as [|f s]; [done |]. rewrite cut2_cons.
  destruct ((char_code e =? char_code c) && (char_code f =? char_code d)) eqn:Hm.
  - intros [= <- <-]. change ("" +:+ ?t) with t. rewrite cut2_cons, !Z.eqb_refl. reflect_bool.
    split; [| done]. by rewrite (char_code_inj e c), (char_code_inj f d).
  - intros ([x' y'] & Hc & [= <- <-])%bind_Some. destruct (IH x' Hc) as [Hs Hx]. rewrite !str_app_cons, <- Hs.
    split; [done |]. destruct x' as [|g x'].
    + change ("" +:+ ?t) with t in *. injection Hs as -> ->. by rewrite cut2_cons, Hm, Hx.
    + rewrite str_app_cons in *. injection Hs as -> _. by rewrite cut2_cons, Hm, Hx.
Qed.

(** A [-D] spec that is accepted names its listener canonically: the text of the address it
    stands for is accepted too, as the same spec. *)
Theorem dynamic_spec_canonical spec s : parse_dynamic_spec spec = Ok s → parse_dynamic_spec (dyn_local_addr s) = Ok s.
Proof.
  intros ([bind port] & Hb & H)%bind_Ok. apply bind_Ok in H as (n & Hn%ok_or_Ok & [= <-]).
  assert (0 ≤ n ≤ U16_MAX) as Hrange by by apply parse_unsigned_range in Hn.
  unfold dyn_local_addr, parse_dynamic_spec. cbn [dyn_bind dyn_local_port].
  destruct (strip_prefix "[" spec) as [ipv6|] eqn:Hs.
  - apply bind_Ok in Hb as ([host port'] & Hc%ok_or_Ok & H). apply bind_Ok in H as (g & Hg & [= <- <-]).
    rewrite (proj2 (strip_prefix_spec "[" _ (host +:+ "]:" +:+ dec n))) by (by rewrite <- !str_app_assoc).
    rewrite (proj2 (cut2_replace (Ascii.ascii_of_N 93) (Ascii.ascii_of_N 58) _ _ _ (dec n) Hc) : cut2 93 58 (host +:+ "]:" +:+ dec n) = _).
    cbn [ok_or mbind result_bind]. rewrite Hg. cbn [mbind result_bind]. by rewrite parse_unsigned_dec.
  - assert (strip_prefix "[" (bind +:+ ":" +:+ dec n) = None ∧ bind ≠ "" ∧ str_contains_byte 58 bind = false) as (Hp & He & Hc).
    { destruct (cut 58 spec) as [[b p]|] eqn:Hcut; [| by injection Hb as <- <-].
      apply bind_tt in Hb as [Hok%ensure_Ok [= -> ->]]. apply negb_true_iff, orb_false_iff in Hok as [He Hok].
      apply (cut_spec (Ascii.ascii_of_N 58)) in Hcut as [-> Hnc]. reflect_bool. split_and!; [| done | done].
      destruct bind as [|c bind]; [done |]. rewrite str_app_cons in *. cbn [strip_prefix] in *. by case_match. }
    rewrite Hp. assert (cut 58 (bind +:+ ":" +:+ dec n) = Some (bind, dec n)) as ->
      by by apply (cut_spec (Ascii.ascii_of_N 58)).
    rewrite bool_decide_false, dec_clean by done. cbn. by rewrite parse_unsigned_dec.
Qed.

(** ** Examples *)

Module Demo.

(** CONNECT to 10.5.1.8, port 443, and a byte of payload. *)
Definition demo_request : bytes := [5; 1; 0; 1; 10; 5; 1; 8; 1; 187; 42].

Lemma socks_request_exact_witness :
  read_connect_request true demo_request = Ok ({| cr_host := "10.5.1.8"; cr_port := 443 |}, [42]).
Proof.
  apply (socks_request_exact true demo_request).
  - repeat (constructor; [unfold u8_range, U8_MAX; lia |]). constructor.
  - exists (V4 [10; 5; 1; 8]), 443. split_and!; [done | done | done | by vm_compute | by vm_compute].
Defined.

Definition demo_open (h : string) (p : Z) : OpenResult := if p =? 443 then OpenOk else OpenErr [Msg "closed"].

Lemma socks_protocol_witness :
  length (List.filter is_reply (forward_client true (λ _, true) true demo_open ([5; 1; 0] ++ demo_request)).1) = 1%nat.
Proof.
  assert (∀ h p e, demo_open h p = OpenErr e → Forall (λ c, ∀ r m, c ≠ Rejected r m) e) as Ho.
  { intros h p e. unfold demo_open. destruct (p =? 443); intros [= <-]. by repeat constructor. }
  pose proof (socks_protocol true (λ _, true) true demo_open ([5; 1; 0] ++ demo_request) Ho) as H.
  destruct (forward_client true (λ _, true) true demo_open ([5; 1; 0] ++ demo_request)) as [tr r].
  refine (proj2 (proj2 H) eq_refl _). exists demo_request. split; [done | by vm_compute].
Defined.

Lemma dynamic_spec_canonical_witness : parse_dynamic_spec "127.0.0.1:1080" = Ok {| dyn_bind := "127.0.0.1"; dyn_local_port := 1080 |}.
Proof. refine (dynamic_spec_canonical "1080" {| dyn_bind := "127.0.0.1"; dyn_local_port := 1080 |} _). by vm_compute. Defined.

End Demo.
