(* ===== verification/Forwarding.v ===== *)
(** * Forwarding specs and plans of the command line

    crates/portl-cli/src/commands/tcp.rs, udp.rs, socket.rs and forwarding.rs: what a user
    writes after [-L], [-R] and [-D], the plan that is made of it, the capabilities the plan
    asks for, and what it prints.  The digest of generated names is a parameter. *)

From stdpp Require Import pretty.
From S2P Require Import Prelude Bytes Text Schema Canonical Codec Enforce Revocations UnixFs Labels Peers HexDemo Socks.

(** ** tcp.rs and udp.rs *)

Record LocalForwardSpec := { bind : string; local_port : Z; remote_host : string; remote_port : Z }.

Definition local_addr (s : LocalForwardSpec) : string := bind s +:+ ":" +:+ dec (local_port s).
Definition remote_addr (s : LocalForwardSpec) : string := remote_host s +:+ ":" +:+ dec (remote_port s).

(** The two commands differ in the suffix they take. *)
Inductive Proto := Tcp | Udp.

Definition proto_name (p : Proto) : string := match p with Tcp => "tcp" | Udp => "udp" end.
Definition other_name (p : Proto) : string := match p with Tcp => "udp" | Udp => "tcp" end.

Definition strip_protocol_suffix (p : Proto) (spec : string) : result string string :=
  match rcut 47 spec with
  | None => Ok spec
  | Some (base, proto) =>
      if decide (proto = proto_name p) then Ok base
      else if decide (proto = other_name p ∨ proto = "both")
      then Err ("protocol /" +:+ proto +:+ " is not supported by portl " +:+ proto_name p)
      else Ok spec
  end.

Definition parse_port (what s : string) : result string Z := ok_or (parse_unsigned U16_MAX s) what.

Definition parse_local_spec (p : Proto) (spec : string) : result string LocalForwardSpec :=
  spec ← strip_protocol_suffix p spec;
  match str_split 58 spec with
  | [lp] =>
      lp ← parse_port "parse local port" lp;
      Ok {| bind := "127.0.0.1"; local_port := lp; remote_host := "localhost"; remote_port := lp |}
  | [lp; rp] =>
      lp ← parse_port "parse local port" lp;
      rp ← parse_port "parse remote port" rp;
      Ok {| bind := "127.0.0.1"; local_port := lp; remote_host := "localhost"; remote_port := rp |}
  | [lp; rh; rp] =>
      lp ← parse_port "parse local port" lp;
      rp ← parse_port "parse remote port" rp;
      Ok {| bind := "127.0.0.1"; local_port := lp; remote_host := rh; remote_port := rp |}
  | [b; lp; rh; rp] =>
      lp ← parse_port "parse local port" lp;
      rp ← parse_port "parse remote port" rp;
      Ok {| bind := b; local_port := lp; remote_host := rh; remote_port := rp |}
  | _ => Err ("invalid -L spec: " +:+ spec)
  end.

Definition parse_tcp_spec := parse_local_spec Tcp.
Definition parse_udp_spec := parse_local_spec Udp.

Definition any_port_rule : PortRule := {| host_glob := "*"; port_min := 1; port_max := U16_MAX |}.

Definition tcp_caps : Capabilities :=
  {| presence := 2; shell := None; tcp := Some [any_port_rule]; udp := None; fs := None; vpn := None; meta := None; unix := None |}.
Definition udp_caps : Capabilities :=
  {| presence := 4; shell := None; tcp := None; udp := Some [any_port_rule]; fs := None; vpn := None; meta := None; unix := None |}.

Definition max_length (l : list string) : nat := foldr (λ s m, Nat.max (String.length s) m) 0%nat l.

Definition NL : string := String (Ascii.ascii_of_N 10) "".

Definition spec_line (peer : string) (width : nat) (s : LocalForwardSpec) : string :=
  "  -L  " +:+ pad_right width (local_addr s) +:+ " -> " +:+ peer +:+ ":" +:+ remote_addr s +:+ NL.

Definition spec_lines (peer : string) (specs : list LocalForwardSpec) : string :=
  String.concat "" (spec_line peer (max_length (local_addr <$> specs)) <$> specs).

Definition dynamic_line (peer : string) (s : DynamicForwardSpec) : string :=
  "  -D  " +:+ dyn_local_addr s +:+ " -> " +:+ peer +:+ ":requested destination (remote DNS)" +:+ NL.

Definition tcp_startup_summary (peer : string) (specs : list LocalForwardSpec) (dynamic : list DynamicForwardSpec) : string :=
  "Forwarding through " +:+ peer +:+ NL +:+
  (if bool_decide (specs = []) then "" else NL +:+ "TCP ports:" +:+ NL) +:+
  spec_lines peer specs +:+
  (if bool_decide (dynamic = []) then ""
   else NL +:+ "SOCKS5 proxies (no auth, CONNECT only):" +:+ NL +:+ String.concat "" (dynamic_line peer <$> dynamic)) +:+
  NL +:+ "Waiting for connections. Press Ctrl-C to stop." +:+ NL.

Definition udp_startup_summary (peer : string) (specs : list LocalForwardSpec) : string :=
  "Forwarding through " +:+ peer +:+ NL +:+ NL +:+ "UDP ports:" +:+ NL +:+
  spec_lines peer specs +:+
  NL +:+ "Waiting for datagrams. Press Ctrl-C to stop." +:+ NL.

Definition format_open_line (s : LocalForwardSpec) : string :=
  "[udp -L " +:+ local_addr s +:+ "] opened -> remote " +:+ remote_addr s.

Definition KIB : Z := 1024.
Definition MIB : Z := 1024 * KIB.

(** The number of tenths, rounded. *)
Definition decimal_unit (bytes unit : Z) : Z * Z :=
  let whole := bytes / unit in
  let tenths := ((bytes `mod` unit) * 10 + unit / 2) / unit in
  if tenths =? 10 then (whole + 1, 0) else (whole, tenths).

Definition format_decimal_unit (bytes unit : Z) (suffix : string) : string :=
  let '(whole, tenths) := decimal_unit bytes unit in dec whole +:+ "." +:+ dec tenths +:+ " " +:+ suffix.

Definition format_bytes (bytes : Z) : string :=
  if MIB <=? bytes then format_decimal_unit bytes MIB "MiB"
  else if KIB <=? bytes then format_decimal_unit bytes KIB "KiB"
  else dec bytes +:+ " B".

Record UdpForwardStats := { upstream_bytes : Z; upstream_datagrams : Z; downstream_bytes : Z; downstream_datagrams : Z }.

(** [elapsed] is the text of the duration. *)
Definition format_close_line (s : LocalForwardSpec) (elapsed : string) (st : UdpForwardStats) : string :=
  "[udp -L " +:+ local_addr s +:+ "] closed after " +:+ elapsed +:+
  ", up=" +:+ format_bytes (upstream_bytes st) +:+ "/" +:+ dec (upstream_datagrams st) +:+
  " datagrams down=" +:+ format_bytes (downstream_bytes st) +:+ "/" +:+ dec (downstream_datagrams st) +:+ " datagrams".

(** ** socket.rs *)

Inductive SocketMode :=
  | Connect (local remote : string) (cleanup generated : bool)
  | Listen (remote local : string) (cleanup generated : bool).

Definition validate_socket_remote_path (p : string) : result string unit := UnixPath.validate_unix_path_rule p false.

(** Characters outside of ASCII are one dash each; their continuation bytes go with them. *)
Definition sanitize_component (value : string) : string :=
  let l := List.filter (λ b, negb (in_range 128 191 b)) (str_bytes value) in
  let l := (λ b, if is_ascii_alphanumeric b || (b =? 46) || (b =? 95) || (b =? 45) then b else 45) <$> l in
  let sanitized := trim_matches_dash (str_of_bytes l) in
  if decide (sanitized = "") then "default" else sanitized.

Definition sanitized_basename (p : string) : string :=
  let name := default "socket.sock" (Fs.path_file_name p) in
  let sanitized := sanitize_component name in
  if decide (sanitized = "" ∨ sanitized = "." ∨ sanitized = "..") then "socket.sock" else sanitized.

Definition generated_target_from_spec (spec : string) : option string :=
  match strip_prefix ":" spec with
  | Some target => Some target
  | None => match cut 58 spec with Some _ => None | None => Some spec end
  end.

Definition count_name (counts : gmap string nat) (spec : string) : gmap string nat :=
  match generated_target_from_spec spec with
  | Some target => let k := sanitized_basename target in <[k := S (default 0%nat (counts !! k))]> counts
  | None => counts
  end.

Definition generated_name_counts (specs : list string) : gmap string nat := foldl count_name ∅ specs.

Definition generated_socket_filename (base hash : string) (needs_hash : bool) : string :=
  if negb needs_hash then base
  else
    let hash := str_of_bytes (take 6 (str_bytes hash)) in
    match strip_suffix ".sock" base with
    | Some stem => if decide (stem = "") then base +:+ "-" +:+ hash else stem +:+ "-" +:+ hash +:+ ".sock"
    | None => base +:+ "-" +:+ hash
    end.

(** [Path::join] *)
Definition path_join (p q : string) : string :=
  if Fs.is_absolute q then q
  else if decide (p = "") then q
  else if ends_with "/" p then p +:+ q
  else p +:+ "/" +:+ q.

Definition MAX_UNIX_SOCKET_PATH_LEN : nat := 104.

Definition validate_generated_socket_path (p : string) : result string unit :=
  ensure (String.length p <? MAX_UNIX_SOCKET_PATH_LEN)%nat ("generated socket path is too long for this platform: " +:+ p).

Section socket.
Context `{Sha256, Hex}.

Definition short_hash (parts : list string) : string :=
  str_of_bytes (take 10 (str_bytes (hex_encode (sha256 (concat ((λ p, str_bytes p ++ [0]) <$> parts)))))).

Definition generated_socket_path (direction label hash_direction target : string) (counts : gmap string nat)
    : result string string :=
  let base := sanitized_basename target in
  let hash := short_hash ["portl-socket-v1"; hash_direction; label; target] in
  let filename := generated_socket_filename base hash (1 <? default 0 (counts !! base))%nat in
  let p := path_join (path_join "/tmp" ("portl-" +:+ direction +:+ "-" +:+ sanitize_component label)) filename in
  validate_generated_socket_path p;;
  Ok p.

Definition generated_local_socket_path (peer remote : string) (counts : gmap string nat) :=
  generated_socket_path "to" peer "L" remote counts.
Definition generated_remote_socket_path (source_label local : string) (counts : gmap string nat) :=
  generated_socket_path "from" source_label "R" local counts.

Definition parse_local_socket_forward (peer spec : string) (cleanup : bool) (counts : gmap string nat)
    : result string SocketMode :=
  '(local, remote, generated) ←
    match strip_prefix ":" spec with
    | Some remote =>
        ensure (negb (bool_decide (remote = ""))) "-L socket spec with generated local path requires a remote socket path";;
        local ← generated_local_socket_path peer remote counts; Ok (local, remote, true)
    | None =>
        match cut 58 spec with
        | Some (local, remote) =>
            ensure (negb (bool_decide (local = "") || bool_decide (remote = "")))
              "-L socket spec must be LOCAL_SOCKET:REMOTE_SOCKET or :REMOTE_SOCKET";;
            Ok (local, remote, false)
        | None => local ← generated_local_socket_path peer spec counts; Ok (local, spec, true)
        end
    end;
  validate_socket_remote_path remote;;
  Ok (Connect local remote (cleanup || generated) generated).

Definition parse_remote_socket_forward (source_label spec : string) (cleanup : bool) (counts : gmap string nat)
    : result string SocketMode :=
  '(remote, local, generated) ←
    match strip_prefix ":" spec with
    | Some local =>
        ensure (negb (bool_decide (local = ""))) "-R socket spec with generated remote path requires a local socket path";;
        remote ← generated_remote_socket_path source_label local counts; Ok (remote, local, true)
    | None =>
        match cut 58 spec with
        | Some (remote, local) =>
            ensure (negb (bool_decide (remote = "") || bool_decide (local = "")))
              "-R socket spec must be REMOTE_SOCKET:LOCAL_SOCKET or :LOCAL_SOCKET";;
            Ok (remote, local, false)
        | None => remote ← generated_remote_socket_path source_label spec counts; Ok (remote, spec, true)
        end
    end;
  validate_socket_remote_path remote;;
  Ok (Listen remote local (cleanup || generated) generated).

Definition generated_listener_path (m : SocketMode) : option string :=
  match m with
  | Connect local _ _ true => Some local
  | Listen remote _ _ true => Some remote
  | _ => None
  end.

Fixpoint reject_duplicates (seen : list string) (modes : list SocketMode) : result string unit :=
  match modes with
  | [] => Ok tt
  | m :: modes' =>
      match generated_listener_path m with
      | None => reject_duplicates seen modes'
      | Some p =>
          ensure (negb (bool_decide (p ∈ seen))) ("duplicate generated socket path " +:+ p);;
          reject_duplicates (p :: seen) modes'
      end
  end.

Definition reject_duplicate_generated_paths (modes : list SocketMode) : result string unit := reject_duplicates [] modes.

Definition parse_new_socket_modes (peer source_label : string) (local_forwards remote_forwards : list string) (cleanup : bool)
    : result string (list SocketMode) :=
  let local_name_counts := generated_name_counts local_forwards in
  let remote_name_counts := generated_name_counts remote_forwards in
  l ← try_map (λ spec, parse_local_socket_forward peer spec cleanup local_name_counts) local_forwards;
  r ← try_map (λ spec, parse_remote_socket_forward source_label spec cleanup remote_name_counts) remote_forwards;
  let modes := l ++ r in
  reject_duplicate_generated_paths modes;;
  ensure (negb (bool_decide (modes = []))) "at least one --connect/--listen, -L, or -R socket forward is required";;
  Ok modes.

Definition from_legacy_args (local : string) (conn lstn : option string) (cleanup : bool) : result string SocketMode :=
  match conn, lstn with
  | Some remote, None => validate_socket_remote_path remote;; Ok (Connect local remote cleanup false)
  | None, Some remote => validate_socket_remote_path remote;; Ok (Listen remote local cleanup false)
  | None, None => Err "one of --connect, --listen, -L, or -R is required"
  | Some _, Some _ => Err "--connect and --listen are mutually exclusive"
  end.

Definition parse_socket_modes (peer source_label : string) (local conn lstn : option string)
    (local_forwards remote_forwards : list string) (cleanup : bool) : result string (list SocketMode) :=
  if is_some local || is_some conn || is_some lstn then
    ensure (bool_decide (local_forwards = []) && bool_decide (remote_forwards = []))
      "legacy --local/--connect/--listen options cannot be combined with -L/-R";;
    local ← ok_or local "--local is required with --connect or --listen";
    m ← from_legacy_args local conn lstn cleanup;
    Ok [m]
  else parse_new_socket_modes peer source_label local_forwards remote_forwards cleanup.

End socket.

(** *** Capabilities of the sockets *)

Definition rule_cmp (a b : UnixPathRule) : comparison := String.compare (path a) (path b).

Definition sort_dedup_rules (l : list UnixPathRule) : list UnixPathRule :=
  dedup_by (λ a b, bool_decide (path a = path b)) (sort_by rule_cmp l).

Definition connect_rules (modes : list SocketMode) : list UnixPathRule :=
  omap (λ m, match m with Connect _ remote _ _ => Some {| path := remote |} | _ => None end) modes.
Definition listen_rules (modes : list SocketMode) : list UnixPathRule :=
  omap (λ m, match m with Listen remote _ _ _ => Some {| path := remote |} | _ => None end) modes.

Definition socket_unix_caps (modes : list SocketMode) : UnixCaps :=
  {| connect := sort_dedup_rules (connect_rules modes); listen := sort_dedup_rules (listen_rules modes) |}.

Definition socket_caps_for_modes (modes : list SocketMode) : Capabilities :=
  {| presence := 64; shell := None; tcp := None; udp := None; fs := None; vpn := None; meta := None;
     unix := Some (socket_unix_caps modes) |}.

(** ** forwarding.rs *)

Record ForwardingArgs := { args_local : list string; args_remote : list string }.

Record ForwardPlan := {
  plan_tcp : list LocalForwardSpec;
  plan_dynamic : list DynamicForwardSpec;
  plan_udp : list LocalForwardSpec;
  plan_unix : list SocketMode;
}.

Definition plan_is_empty (p : ForwardPlan) : bool :=
  bool_decide (plan_tcp p = []) && bool_decide (plan_dynamic p = []) && bool_decide (plan_udp p = []) && bool_decide (plan_unix p = []).

Definition looks_like_unix_socket_spec (spec : string) : bool :=
  starts_with "/" spec || starts_with ":" spec
  || match cut 58 spec with Some (l, r) => starts_with "/" l || starts_with "/" r | None => false end.

(** What the first loop does with one [-L] spec. *)
Definition sort_local (acc : list LocalForwardSpec * list LocalForwardSpec * list string) (spec : string)
    : result string (list LocalForwardSpec * list LocalForwardSpec * list string) :=
  let '(t, u, x) := acc in
  if looks_like_unix_socket_spec spec then Ok (t, u, x ++ [spec])
  else if ends_with "/udp" spec then s ← parse_udp_spec spec; Ok (t, u ++ [s], x)
  else s ← parse_tcp_spec spec; Ok (t ++ [s], u, x).

Fixpoint sort_locals acc (specs : list string) :=
  match specs with
  | [] => Ok acc
  | spec :: specs' => acc ← sort_local acc spec; sort_locals acc specs'
  end.

Definition parse_args `{Sha256, Hex} (a : ForwardingArgs) (peer source_label : string) : result string ForwardPlan :=
  '(t, u, unix_l) ← sort_locals ([], [], []) (args_local a);
  for_each (λ spec, ensure (looks_like_unix_socket_spec spec) "TCP/UDP -R forwarding is not supported yet; use Unix socket -R or an explicit portl socket command") (args_remote a);;
  x ← (if bool_decide (unix_l = []) && bool_decide (args_remote a = []) then Ok []
       else parse_new_socket_modes peer source_label unix_l (args_remote a) false);
  Ok {| plan_tcp := t; plan_dynamic := []; plan_udp := u; plan_unix := x |}.

(** *** Capabilities of a plan *)

Definition sort_dedup_port_rules (rules : list PortRule) : list PortRule :=
  dedup_by (λ a b, bool_decide (host_glob a = host_glob b) && (port_min a =? port_min b) && (port_max a =? port_max b))
    (sort_by portrule_ord rules).

Definition add_tcp (c : Capabilities) : Capabilities :=
  {| presence := Z.lor (presence c) 2; shell := shell c;
     tcp := Some (sort_dedup_port_rules (default [] (tcp c) ++ [any_port_rule]));
     udp := udp c; fs := fs c; vpn := vpn c; meta := meta c; unix := unix c |}.

Definition add_udp (c : Capabilities) : Capabilities :=
  {| presence := Z.lor (presence c) 4; shell := shell c; tcp := tcp c;
     udp := Some (sort_dedup_port_rules (default [] (udp c) ++ [any_port_rule]));
     fs := fs c; vpn := vpn c; meta := meta c; unix := unix c |}.

Definition add_unix (modes : list SocketMode) (c : Capabilities) : Capabilities :=
  let unix_caps := socket_unix_caps modes in
  let target := default {| connect := []; listen := [] |} (unix c) in
  {| presence := Z.lor (presence c) 64; shell := shell c; tcp := tcp c; udp := udp c; fs := fs c; vpn := vpn c;
     meta := meta c;
     unix := Some {| connect := sort_dedup_rules (connect target ++ connect unix_caps);
                     listen := sort_dedup_rules (listen target ++ listen unix_caps) |} |}.

Definition augment_caps (p : ForwardPlan) (c : Capabilities) : Capabilities :=
  let c := if bool_decide (plan_tcp p = []) && bool_decide (plan_dynamic p = []) then c else add_tcp c in
  let c := if bool_decide (plan_udp p = []) then c else add_udp c in
  if bool_decide (plan_unix p = []) then c else add_unix (plan_unix p) c.

(** *** The summary *)

Definition mode_text (peer source_label : string) (m : SocketMode) : string :=
  match m with
  | Connect local remote _ generated =>
      "  -L  " +:+ source_label +:+ ":" +:+ local +:+ NL +:+ "      -> " +:+ peer +:+ ":" +:+ remote +:+ NL +:+
      "      " +:+ (if generated then "generated local socket" else "explicit local socket") +:+ NL
  | Listen remote local _ generated =>
      "  -R  " +:+ peer +:+ ":" +:+ remote +:+ NL +:+ "      -> " +:+ source_label +:+ ":" +:+ local +:+ NL +:+
      "      " +:+ (if generated then "generated remote socket" else "explicit remote socket") +:+ NL
  end.

Definition socket_startup_summary (peer source_label : string) (modes : list SocketMode) : string :=
  "Forwarding through " +:+ peer +:+ NL +:+ NL +:+ "Unix sockets:" +:+ NL +:+
  String.concat NL (mode_text peer source_label <$> modes) +:+
  NL +:+ "Waiting for socket connections. Press Ctrl-C to stop." +:+ NL.

Definition section_text {A} (l : list A) (title body : string) : string :=
  if bool_decide (length l = 0%nat) then "" else NL +:+ title +:+ NL +:+ body.

Definition render_summary (p : ForwardPlan) (peer source_label : string) : string :=
  if plan_is_empty p then ""
  else
    "Forwarding through " +:+ peer +:+ NL +:+
    section_text (plan_tcp p) "TCP ports:" (spec_lines peer (plan_tcp p)) +:+
    section_text (plan_dynamic p) "SOCKS5 proxies (no auth, CONNECT only):" (String.concat "" (dynamic_line peer <$> plan_dynamic p)) +:+
    section_text (plan_udp p) "UDP ports:" (spec_lines peer (plan_udp p)) +:+
    section_text (plan_unix p) "Unix sockets:" (String.concat NL (mode_text peer source_label <$> plan_unix p)) +:+
    NL +:+ "Waiting for forwarded connections. Press Ctrl-C to stop." +:+ NL.

(** ** Lemmas: rules *)

#[export] Instance portrule_ord_anti : AntiCmp portrule_ord.
Proof.
  intros x y. unfold portrule_ord. rewrite !cmp_then_opp.
  by rewrite <- (cmp_opp (host_glob x)), <- (cmp_opp (port_min x)), <- (cmp_opp (port_max x)).
Qed.

#[export] Instance rule_cmp_lawful : LawfulCmp rule_cmp.
Proof.
  split; unfold rule_cmp.
  - intros [x] [y] Hc. apply cmp_eq in Hc. simpl in Hc. by subst.
  - intros x. apply cmp_refl.
  - intros x y z. apply cmp_lt_trans.
Qed.
#[export] Instance rule_cmp_anti : AntiCmp rule_cmp.
Proof. intros x y. apply (cmp_opp (path x)). Qed.

Lemma dedup_by_ext {A} (f g : A → A → bool) l : (∀ x y, f x y = g x y) → dedup_by f l = dedup_by g l.
Proof. intros Hfg. induction l as [|x l IH]; simpl; [done |]. rewrite IH. destruct (dedup_by g l); [done |]. by rewrite Hfg. Qed.

Lemma sort_dedup_port_rules_eq l : sort_dedup_port_rules l = dedup_by (same_cmp portrule_ord) (sort_by portrule_ord l).
Proof.
  apply dedup_by_ext. intros [h a b] [h' a' b']. unfold same_cmp, portrule_ord, cmp_then. simpl.
  destruct (String.compare h h') eqn:Hh.
  - apply cmp_eq in Hh as ->. rewrite bool_decide_true by done. simpl.
    destruct (Z.compare_spec a a'), (Z.compare_spec b b'); subst; rewrite ?Z.eqb_refl; simpl; try done;
      rewrite ?(proj2 (Z.eqb_neq _ _)) by lia; by rewrite ?andb_false_r.
  - rewrite bool_decide_false; [done |]. intros ->. by rewrite cmp_refl in Hh.
  - rewrite bool_decide_false; [done |]. intros ->. by rewrite cmp_refl in Hh.
Qed.

Lemma sort_dedup_rules_eq l : sort_dedup_rules l = dedup_by (same_cmp rule_cmp) (sort_by rule_cmp l).
Proof.
  apply dedup_by_ext. intros [x] [y]. unfold same_cmp, rule_cmp. simpl. destruct (String.compare x y) eqn:Hc.
  - apply cmp_eq in Hc as ->. by rewrite bool_decide_true.
  - rewrite bool_decide_false; [done |]. intros ->. by rewrite cmp_refl in Hc.
  - rewrite bool_decide_false; [done |]. intros ->. by rewrite cmp_refl in Hc.
Qed.

Lemma port_rules_sorted l : Sorted port_rule_lt (sort_dedup_port_rules l).
Proof. rewrite sort_dedup_port_rules_eq. apply sort_dedup_sorted; apply _. Qed.
Lemma port_rules_elem x l : x ∈ sort_dedup_port_rules l ↔ x ∈ l.
Proof. rewrite sort_dedup_port_rules_eq. apply sort_dedup_elem; apply _. Qed.
Lemma unix_rules_sorted l : Sorted unix_rule_lt (sort_dedup_rules l).
Proof. rewrite sort_dedup_rules_eq. apply (sort_dedup_sorted rule_cmp). Qed.
Lemma unix_rules_elem x l : x ∈ sort_dedup_rules l ↔ x ∈ l.
Proof. rewrite sort_dedup_rules_eq. apply sort_dedup_elem; apply _. Qed.

(** ** Lemmas: paths of rules *)

Lemma split_snoc s c : char_code c ≠ 47 → ∃ l x, str_split 47 s = l ++ [x] ∧ str_split 47 (s +:+ String c "") = l ++ [x +:+ String c ""].
Proof.
  intros Hc. induction s as [|d s (l & x & Hs & Hx)].
  - exists [], "". simpl. by rewrite (proj2 (Z.eqb_neq _ _) Hc).
  - rewrite str_app_cons. cbn [str_split]. rewrite Hs, Hx. destruct (char_code d =? 47); [by exists ("" :: l), x |].
    destruct l as [|y l]; [by exists [], (String d x) | by exists (String d y :: l), x].
Qed.

Lemma safe_snoc p : UnixPath.unix_socket_path_is_safe p = true → UnixPath.unix_socket_path_is_safe (p +:+ "*") = true.
Proof.
  unfold UnixPath.unix_socket_path_is_safe. destruct (decide (p = "")) as [->|Hp]; [done |].
  rewrite decide_False by (by destruct p). rewrite str_contains_app. destruct (str_contains_byte 0 p); [done |].
  destruct (starts_with "/" p) eqn:Hs; [| done]. rewrite (starts_with_app _ _ "*" Hs). cbn [negb orb].
  unfold UnixPath.components. rewrite Hs, (starts_with_app _ _ "*" Hs).
  destruct (split_snoc p (Ascii.ascii_of_N 42)) as (l & x & -> & Hx); [by vm_compute |]. change (String (Ascii.ascii_of_N 42) "") with "*" in Hx. rewrite Hx.
  rewrite !omap_app. simpl. rewrite !forallb_app. intros [Hl _]%andb_true_iff. rewrite Hl. simpl.
  unfold UnixPath.segment_component.
  assert (x +:+ "*" ≠ "" ∧ x +:+ "*" ≠ "." ∧ x +:+ "*" ≠ "..") as (H1 & H2 & H3)
    by (destruct x as [|c [|d [|e x]]]; split_and!; intros Hx'; by inversion Hx').
  by rewrite !decide_False.
Qed.

Lemma valid_rule_broad p : validate_socket_remote_path p = Ok tt → UnixPath.is_valid_rule {| path := p |} true = true.
Proof.
  unfold validate_socket_remote_path, UnixPath.is_valid_rule, UnixPath.validate_unix_path_rule. simpl. by repeat case_match.
Qed.

(** A path that may be asked for is one its own rule permits. *)
Lemma valid_rule_self p : validate_socket_remote_path p = Ok tt → UnixPath.matches_path {| path := p |} p = true.
Proof.
  unfold validate_socket_remote_path, UnixPath.validate_unix_path_rule, UnixPath.matches_path. cbn [path].
  destruct (decide (p = "")); [done |]. destruct (decide (p = "*")); [done |].
  destruct (strip_suffix "*" p) as [prefix|] eqn:Hs.
  - apply strip_suffix_spec in Hs as ->. destruct (_ && _) eqn:Hg; [| done]. intros _. apply andb_true_iff in Hg as [Hsafe Hn].
    rewrite safe_snoc by done. cbn [negb]. rewrite Hn. apply starts_with_spec. by exists "*".
  - destruct (UnixPath.unix_socket_path_is_safe p); [| done]. intros _. cbn [negb]. by rewrite bool_decide_true.
Qed.

(** ** Lemmas: the capabilities of a plan *)

Definition mode_remote (m : SocketMode) : string := match m with Connect _ r _ _ => r | Listen r _ _ _ => r end.
Definition mode_ok (m : SocketMode) : Prop := validate_socket_remote_path (mode_remote m) = Ok tt.

Lemma connect_rules_elem r modes : r ∈ connect_rules modes ↔ ∃ l c g, Connect l (path r) c g ∈ modes.
Proof.
  unfold connect_rules. rewrite list_elem_of_omap. split.
  - intros ([l p c g|] & Hin & H); [| done]. injection H as <-. simpl. eauto.
  - intros (l & c & g & Hin). exists (Connect l (path r) c g). by destruct r.
Qed.

Lemma listen_rules_elem r modes : r ∈ listen_rules modes ↔ ∃ l c g, Listen (path r) l c g ∈ modes.
Proof.
  unfold listen_rules. rewrite list_elem_of_omap. split.
  - intros ([|p l c g] & Hin & H); [done |]. injection H as <-. simpl. eauto.
  - intros (l & c & g & Hin). exists (Listen (path r) l c g). by destruct r.
Qed.

Abbreviation valid_rules := (Forall (λ r, UnixPath.is_valid_rule r true = true)).

Lemma socket_caps_valid modes : Forall mode_ok modes →
  valid_rules (connect (socket_unix_caps modes)) ∧ valid_rules (listen (socket_unix_caps modes)).
Proof.
  rewrite Forall_forall. intros Hok. cbn [socket_unix_caps connect listen]. split; apply Forall_forall; intros [p].
  - rewrite unix_rules_elem, connect_rules_elem. intros (l & c & g & Hin). by apply valid_rule_broad, (Hok _ Hin).
  - rewrite unix_rules_elem, listen_rules_elem. intros (l & c & g & Hin). by apply valid_rule_broad, (Hok _ Hin).
Qed.

Lemma merged_valid l k : valid_rules l → valid_rules k → valid_unix_rules (sort_dedup_rules (l ++ k)).
Proof.
  rewrite !Forall_forall. intros Hl Hk. split; [| apply unix_rules_sorted]. apply Forall_forall. intros r.
  rewrite unix_rules_elem, elem_of_app. intros [|]; auto.
Qed.

Lemma testbit_lor b k i : 0 ≤ i → 0 ≤ k → Z.testbit (Z.lor b (2 ^ k)) i = Z.testbit b i || (i =? k).
Proof. intros Hi Hk. rewrite Z.lor_spec, Z.pow2_bits_eqb by done. by rewrite (Z.eqb_sym k). Qed.

Lemma lor_range b k : 0 ≤ k < 8 → 0 ≤ b < 256 → 0 ≤ Z.lor b (2 ^ k) < 256.
Proof.
  intros Hk Hb. split; [apply Z.lor_nonneg; lia |]. destruct (Z.eq_dec (Z.lor b (2 ^ k)) 0) as [->|Hne]; [lia |].
  change 256 with (2 ^ 8). apply Z.log2_lt_pow2; [pose proof (proj2 (Z.lor_nonneg b (2 ^ k))); lia |].
  rewrite Z.log2_lor by lia. apply Z.max_lub_lt; [| rewrite Z.log2_pow2; lia].
  destruct (Z.eq_dec b 0) as [->|]; [done |]. apply Z.log2_lt_pow2; lia.
Qed.

Lemma add_tcp_canonical c : canonical_caps c → canonical_caps (add_tcp c).
Proof.
  intros [[Hr H0 H1 H2 H3 H4 H5 H6 H7] Ht Hu Hf Hs Hx]. split; try done.
  - split; cbn [add_tcp presence shell tcp udp fs vpn meta unix]; change 2 with (2 ^ 1);
      [by apply (lor_range _ 1) | rewrite testbit_lor by lia..]; rewrite ?orb_false_r, ?orb_true_r; try done.
  - intros l [= <-]. apply port_rules_sorted.
Qed.

Lemma add_udp_canonical c : canonical_caps c → canonical_caps (add_udp c).
Proof.
  intros [[Hr H0 H1 H2 H3 H4 H5 H6 H7] Ht Hu Hf Hs Hx]. split; try done.
  - split; cbn [add_udp presence shell tcp udp fs vpn meta unix]; change 4 with (2 ^ 2);
      [by apply (lor_range _ 2) | rewrite testbit_lor by lia..]; rewrite ?orb_false_r, ?orb_true_r; try done.
  - intros l [= <-]. apply port_rules_sorted.
Qed.

Lemma add_unix_canonical modes c : Forall mode_ok modes → canonical_caps c → canonical_caps (add_unix modes c).
Proof.
  intros Hok [[Hr H0 H1 H2 H3 H4 H5 H6 H7] Ht Hu Hf Hs Hx]. split; try done.
  - split; cbn [add_unix presence shell tcp udp fs vpn meta unix]; change 64 with (2 ^ 6);
      [by apply (lor_range _ 6) | rewrite testbit_lor by lia..]; rewrite ?orb_false_r, ?orb_true_r; try done.
  - intros u [= <-]. cbn [connect listen]. set (old := default _ (unix c)).
    assert (valid_unix_rules (connect old) ∧ valid_unix_rules (listen old)) as [[Hc _] [Hl _]].
    { unfold old. destruct (unix c) as [u|]; [by apply Hx | by repeat constructor]. }
    destruct (socket_caps_valid modes Hok). split; by apply merged_valid.
Qed.

Lemma augment_canonical p c : Forall mode_ok (plan_unix p) → canonical_caps c → canonical_caps (augment_caps p c).
Proof.
  intros Hok Hc. unfold augment_caps. repeat case_match; eauto using add_tcp_canonical, add_udp_canonical, add_unix_canonical.
Qed.

(** ** Lemmas: what a plan is permitted *)

Lemma any_or_elem {A E} (f : A → bool) l (e : E) x : x ∈ l → f x = true → any_or f l e = Ok tt.
Proof.
  intros Hin Hf. unfold any_or. rewrite (proj2 (existsb_exists f l)); [done |]. exists x. by rewrite <- list_elem_of_In.
Qed.

Lemma elem_nonempty {A} (x : A) l : x ∈ l → l ≠ [].
Proof. intros Hx ->. by apply not_elem_of_nil in Hx. Qed.

Lemma any_or_incl {A E} (f : A → bool) l k (e : E) : (∀ x, x ∈ l → x ∈ k) → any_or f l e = Ok tt → any_or f k e = Ok tt.
Proof.
  unfold any_or. intros Hlk Hl%ensure_Ok. apply existsb_exists in Hl as (x & Hx & Hf). apply list_elem_of_In in Hx.
  exact (any_or_elem f k e x (Hlk _ Hx) Hf).
Qed.

(** [d] has all the forwarding rules of [c], the other capabilities as [c] has them, and its presence bits. *)
Record grows (c d : Capabilities) : Prop := {
  gr_shell : shell d = shell c;
  gr_fs : fs d = fs c;
  gr_vpn : vpn d = vpn c;
  gr_meta : meta d = meta c;
  gr_presence i : 0 ≤ i → Z.testbit (presence c) i = true → Z.testbit (presence d) i = true;
  gr_tcp l : tcp c = Some l → ∃ k, tcp d = Some k ∧ ∀ x, x ∈ l → x ∈ k;
  gr_udp l : udp c = Some l → ∃ k, udp d = Some k ∧ ∀ x, x ∈ l → x ∈ k;
  gr_unix u : unix c = Some u →
    ∃ w, unix d = Some w ∧ (∀ x, x ∈ connect u → x ∈ connect w) ∧ (∀ x, x ∈ listen u → x ∈ listen w);
}.

#[export] Instance grows_preorder : PreOrder grows.
Proof.
  split.
  - intros c. by split; eauto.
  - intros c d e [S1 F1 V1 M1 P1 H1 H2 H3] [S2 F2 V2 M2 P2 K1 K2 K3]. split; [congruence.. | by auto | | |].
    + intros l (k & Hk & Hlk)%H1. apply K1 in Hk as (m & Hm & Hkm). eauto.
    + intros l (k & Hk & Hlk)%H2. apply K2 in Hk as (m & Hm & Hkm). eauto.
    + intros u (w & Hw & Hc & Hl)%H3. apply K3 in Hw as (x & Hx & Hc' & Hl'). exists x. split; [done |]. auto.
Qed.

Lemma presence_grows n k i : Z.testbit n i = true → Z.testbit (Z.lor n k) i = true.
Proof. intros H. by rewrite Z.lor_spec, H. Qed.

Lemma add_tcp_grows c : grows c (add_tcp c).
Proof.
  split; cbn [add_tcp presence shell fs vpn meta tcp udp unix]; [done | done | done | done | by auto using presence_grows | | by eauto..]. intros l ->. eexists. split; [done |]. intros x Hx.
  rewrite port_rules_elem, elem_of_app. by left.
Qed.
Lemma add_udp_grows c : grows c (add_udp c).
Proof.
  split; cbn [add_udp presence shell fs vpn meta tcp udp unix]; [done.. | by auto using presence_grows | by eauto | | by eauto]. intros l ->. eexists. split; [done |]. intros x Hx.
  rewrite port_rules_elem, elem_of_app. by left.
Qed.
Lemma add_unix_grows modes c : grows c (add_unix modes c).
Proof.
  split; cbn [add_unix presence shell fs vpn meta tcp udp unix]; [done | done | done | done | by auto using presence_grows | by eauto.. |]. intros u ->. eexists. split; [done |]. cbn [connect listen default].
  split; intros x Hx; rewrite unix_rules_elem, elem_of_app; by left.
Qed.

Lemma augment_grows p c : grows c (augment_caps p c).
Proof.
  unfold augment_caps. repeat case_match; repeat first [reflexivity | apply add_tcp_grows | apply add_udp_grows | apply add_unix_grows
    | etransitivity; [| apply add_unix_grows] | etransitivity; [| apply add_udp_grows] ].
Qed.

(** Whatever [c] permits, [d] permits. *)
Record permits_no_less (c d : Capabilities) : Prop := {
  pn_shell req : shell_permits c req = Ok tt → shell_permits d req = Ok tt;
  pn_tcp req : tcp_permits c req = Ok tt → tcp_permits d req = Ok tt;
  pn_listen host port : tcp_listen_permits c host port = Ok tt → tcp_listen_permits d host port = Ok tt;
  pn_udp req : udp_permits c req = Ok tt → udp_permits d req = Ok tt;
  pn_unix req : unix_permits c req = Ok tt → unix_permits d req = Ok tt;
  pn_others : fs d = fs c ∧ vpn d = vpn c ∧ meta d = meta c;
}.

Lemma listen_bit n : (Z.land n TCP_LISTEN_CAP_BIT =? 0) = negb (Z.testbit n 7).
Proof.
  change TCP_LISTEN_CAP_BIT with (2 ^ 7). destruct (Z.testbit n 7) eqn:Hb; cbn [negb].
  - apply Z.eqb_neq. intros H0. apply (f_equal (λ z, Z.testbit z 7)) in H0. by rewrite Z.land_spec, Hb, Z.pow2_bits_true in H0.
  - apply Z.eqb_eq, Z.bits_inj'. intros i Hi. rewrite Z.land_spec, Z.bits_0, Z.pow2_bits_eqb by done.
    case (Z.eqb_spec 7 i); [intros <-; by rewrite Hb | by rewrite andb_false_r].
Qed.

Lemma grows_permits c d : grows c d → permits_no_less c d.
Proof.
  intros [Hs Hf Hv Hm Hp Ht Hu Hx]. split; [| | | | | done].
  - unfold shell_permits. by rewrite Hs.
  - intros req. unfold tcp_permits. destruct (tcp c) as [l|]; [| done]. destruct (Ht l eq_refl) as (k & -> & Hlk). by apply any_or_incl.
  - intros host port. unfold tcp_listen_permits. rewrite !listen_bit. destruct (Z.testbit (presence c) 7) eqn:Hb; cbn [negb]; [| done].
    rewrite (Hp 7) by done. cbn [negb]. destruct (tcp c) as [l|]; [| done]. destruct (Ht l eq_refl) as (k & -> & Hlk). by apply any_or_incl.
  - intros req. unfold udp_permits. destruct (udp c) as [l|]; [| done]. destruct (Hu l eq_refl) as (k & -> & Hlk). by apply any_or_incl.
  - intros req. unfold unix_permits. destruct (unix c) as [u|]; [| done]. destruct (Hx u eq_refl) as (w & -> & Hc & Hl).
    destruct (ur_op req); by apply any_or_incl.
Qed.

Definition connection_of (pre : StreamPreamble) (h : string) (port : Z) : TcpReq :=
  {| tr_preamble := pre; tr_host := h; tr_port := port |}.

Lemma any_port_permits c pre h port rules : tcp c = Some rules → any_port_rule ∈ rules → 1 ≤ port ≤ U16_MAX →
  tcp_permits c (connection_of pre h port) = Ok tt.
Proof.
  intros Ht Hin Hp. unfold tcp_permits. rewrite Ht. apply (any_or_elem _ _ _ any_port_rule); [done |].
  cbn [any_port_rule host_glob port_min port_max connection_of tr_host tr_port].
  rewrite (proj2 (Z.leb_le 1 port)), (proj2 (Z.leb_le port U16_MAX)) by lia. done.
Qed.

Lemma augment_tcp p c : plan_tcp p ≠ [] ∨ plan_dynamic p ≠ [] → ∃ rules, tcp (augment_caps p c) = Some rules ∧ any_port_rule ∈ rules.
Proof.
  intros Hp. assert (bool_decide (plan_tcp p = []) && bool_decide (plan_dynamic p = []) = false) as Hb.
  { apply andb_false_iff. rewrite !bool_decide_eq_false. tauto. }
  exists (sort_dedup_port_rules (default [] (tcp c) ++ [any_port_rule])). split; [| rewrite port_rules_elem; set_solver].
  unfold augment_caps. rewrite Hb. by repeat case_match.
Qed.

Lemma augment_udp p c : plan_udp p ≠ [] → ∃ rules, udp (augment_caps p c) = Some rules ∧ any_port_rule ∈ rules.
Proof.
  intros Hp. unfold augment_caps. rewrite (bool_decide_false (plan_udp p = [])) by done. set (c' := if _ && _ then _ else _).
  exists (sort_dedup_port_rules (default [] (udp c') ++ [any_port_rule])). split; [| rewrite port_rules_elem; set_solver].
  by case_match.
Qed.

Lemma augment_unix p c : plan_unix p ≠ [] → ∃ u, unix (augment_caps p c) = Some u ∧
  (∀ r, r ∈ connect_rules (plan_unix p) → r ∈ connect u) ∧ (∀ r, r ∈ listen_rules (plan_unix p) → r ∈ listen u).
Proof.
  intros Hp. unfold augment_caps. rewrite (bool_decide_false (plan_unix p = [])) by done. eexists. split; [done |].
  cbn [connect listen socket_unix_caps]. split; intros r Hr; rewrite unix_rules_elem, elem_of_app, unix_rules_elem; by right.
Qed.

(** ** Lemmas: parsing *)

Section parsing.
Context `{Sha256, Hex}.

Lemma parse_local_ok peer spec cleanup counts m : parse_local_socket_forward peer spec cleanup counts = Ok m → mode_ok m.
Proof.
  unfold parse_local_socket_forward. intros ([[l r] g] & _ & Hv)%bind_Ok. by apply bind_tt in Hv as [Hv [= <-]].
Qed.
Lemma parse_remote_ok label spec cleanup counts m : parse_remote_socket_forward label spec cleanup counts = Ok m → mode_ok m.
Proof.
  unfold parse_remote_socket_forward. intros ([[l r] g] & _ & Hv)%bind_Ok. by apply bind_tt in Hv as [Hv [= <-]].
Qed.

Lemma parse_modes_ok peer label ls rs cleanup modes : parse_new_socket_modes peer label ls rs cleanup = Ok modes → Forall mode_ok modes.
Proof.
  unfold parse_new_socket_modes. intros (l & Hl%try_map_Ok & H')%bind_Ok. apply bind_Ok in H' as (r & Hr%try_map_Ok & H').
  apply bind_tt in H' as [_ H']. apply bind_tt in H' as [_ [= <-]]. apply Forall_app. split.
  - induction Hl; constructor; eauto using parse_local_ok.
  - induction Hr; constructor; eauto using parse_remote_ok.
Qed.

Lemma parse_args_ok a peer label p : parse_args a peer label = Ok p → Forall mode_ok (plan_unix p).
Proof.
  unfold parse_args. intros ([[t u] x] & _ & H')%bind_Ok. apply bind_tt in H' as [_ H'].
  apply bind_Ok in H' as (modes & Hm & [= <-]). cbn [plan_unix].
  destruct (_ && _); [by injection Hm as <- | by eapply parse_modes_ok].
Qed.

End parsing.

(** ** Theorems *)

(** C29: what a user asks to forward, the ticket the command mints lets through: the capabilities
    of a plan are canonical when those before it are, whatever they permitted before they permit, and the
    agent permits every TCP and UDP destination of the plan with a port other than 0, every
    destination of a SOCKS5 proxy with such a port, and every socket the plan connects to or listens on. *)
Theorem plan_permitted `{Sha256, Hex} a peer label p c pre : parse_args a peer label = Ok p → canonical_caps c →
  let c' := augment_caps p c in
  canonical_caps c' ∧ permits_no_less c c' ∧
  (∀ s, s ∈ plan_tcp p → 1 ≤ remote_port s ≤ U16_MAX → tcp_permits c' (connection_of pre (remote_host s) (remote_port s)) = Ok tt) ∧
  (∀ d host port, d ∈ plan_dynamic p → 1 ≤ port ≤ U16_MAX → tcp_permits c' (connection_of pre host port) = Ok tt) ∧
  (∀ s, s ∈ plan_udp p → 1 ≤ remote_port s ≤ U16_MAX →
     udp_permits c' {| local_port_range := (local_port s, local_port s); target_host := remote_host s;
                       target_port_range := (remote_port s, remote_port s) |} = Ok tt) ∧
  (∀ l r cl g, Connect l r cl g ∈ plan_unix p → unix_permits c' {| ur_preamble := pre; ur_op := UnixConnect r |} = Ok tt) ∧
  (∀ l r cl g, Listen r l cl g ∈ plan_unix p → unix_permits c' {| ur_preamble := pre; ur_op := UnixListen r cl false |} = Ok tt).
Proof.
  intros Hok%parse_args_ok Hc. cbv zeta. split; [by apply augment_canonical |]. split; [apply grows_permits, augment_grows |].
  rewrite Forall_forall in Hok. split_and!.
  - intros s Hs Hp. destruct (augment_tcp p c) as (rules & Ht & Hin); [left; by eapply elem_nonempty |].
    by eapply any_port_permits.
  - intros d host port Hd Hp. destruct (augment_tcp p c) as (rules & Ht & Hin); [right; by eapply elem_nonempty |].
    by eapply any_port_permits.
  - intros s Hs Hp. destruct (augment_udp p c) as (rules & Hu & Hin); [by eapply elem_nonempty |].
    unfold udp_permits. rewrite Hu. apply (any_or_elem _ _ _ any_port_rule); [done |].
    cbn [any_port_rule host_glob port_min port_max target_host target_port_range fst snd].
    rewrite (proj2 (Z.leb_le 1 _)), (proj2 (Z.leb_le _ U16_MAX)) by lia. done.
  - intros l r cl g Hm. destruct (augment_unix p c) as (u & Hu & Hin & _); [by eapply elem_nonempty |].
    unfold unix_permits. rewrite Hu. cbn [ur_op]. apply (any_or_elem _ _ _ {| path := r |}).
    + apply Hin, connect_rules_elem. eauto.
    + apply valid_rule_self, (Hok _ Hm).
  - intros l r cl g Hm. destruct (augment_unix p c) as (u & Hu & _ & Hin); [by eapply elem_nonempty |].
    unfold unix_permits. rewrite Hu. cbn [ur_op]. apply (any_or_elem _ _ _ {| path := r |}).
    + apply Hin, listen_rules_elem. eauto.
    + apply valid_rule_self, (Hok _ Hm).
Qed.

(** ** Generated paths *)

Definition name_byte (b : Z) : bool := is_ascii_alphanumeric b || (b =? 46) || (b =? 95) || (b =? 45).

Definition name_ok (s : string) : Prop := s ≠ "" ∧ Forall (λ b, name_byte b = true) (str_bytes s).

Lemma drop_dashes_forall P l : Forall P l → Forall P (drop_dashes l).
Proof. induction 1 as [|b l Hb Hl IH]; simpl; [done |]. destruct (b =? DASH); [done | by constructor]. Qed.

Lemma trim_dash_forall P s : Forall P (str_bytes s) → Forall P (str_bytes (trim_matches_dash s)).
Proof.
  intros Hs. unfold trim_matches_dash, trim_end_dashes.
  assert (Forall (λ b, P b ∧ u8_range b) (rev (drop_dashes (rev (drop_dashes (str_bytes s)))))) as Hr.
  { apply Forall_rev, drop_dashes_forall, Forall_rev, drop_dashes_forall. apply Forall_and. split; [done | apply str_bytes_range]. }
  apply Forall_and in Hr as [Hp Hr]. by rewrite str_bytes_of_bytes.
Qed.

Lemma List_filter_forall {A} (P : A → Prop) f l : Forall P l → Forall P (List.filter f l).
Proof. induction 1 as [|x l Hx Hl IH]; simpl; [done |]. destruct (f x); [by constructor | done]. Qed.

Lemma sanitize_component_ok s : name_ok (sanitize_component s).
Proof.
  unfold sanitize_component. set (l := List.filter _ _). set (m := _ <$> l). cbv zeta.
  destruct (decide (trim_matches_dash (str_of_bytes m) = "")); [by split; [| repeat constructor] |]. split; [done |].
  apply trim_dash_forall. assert (Forall (λ b, name_byte b = true ∧ u8_range b) m) as Hm.
  { apply Forall_fmap. assert (Forall u8_range l) as Hl by (apply List_filter_forall, str_bytes_range).
    eapply Forall_impl; [exact Hl |]. intros b Hb. simpl. fold (name_byte b). destruct (name_byte b) eqn:E; [by rewrite E |].
    split; [done | unfold u8_range, U8_MAX; lia]. }
  apply Forall_and in Hm as [Hn Hr]. by rewrite str_bytes_of_bytes.
Qed.

Lemma sanitized_basename_ok p : name_ok (sanitized_basename p) ∧ sanitized_basename p ≠ "." ∧ sanitized_basename p ≠ "..".
Proof.
  unfold sanitized_basename. destruct (decide _) as [|Hn]; [split_and!; [by split; [| repeat constructor] | done | done] |].
  split; [apply sanitize_component_ok |]. tauto.
Qed.

Lemma name_ok_app s t : name_ok s → Forall (λ b, name_byte b = true) (str_bytes t) → name_ok (s +:+ t).
Proof. intros [Hs Hb] Ht. split; [by destruct s |]. rewrite str_bytes_app. by apply Forall_app. Qed.

Lemma name_ok_app_r s t : Forall (λ b, name_byte b = true) (str_bytes s) → name_ok t → name_ok (s +:+ t).
Proof. intros Hs [Ht Hb]. split; [by destruct s |]. rewrite str_bytes_app. by apply Forall_app. Qed.

Lemma name_no_byte s b : name_ok s → name_byte b = false → str_contains_byte b s = false.
Proof. intros [_ Hs] Hb. apply (forallb_no_byte name_byte); [done |]. apply forallb_forall. intros x Hx. rewrite Forall_forall in Hs.
  apply Hs. by apply list_elem_of_In.
Qed.

Lemma dashed_name s : str_contains_byte 45 s = true → s ≠ "." ∧ s ≠ "..".
Proof. intros Hs. by split; intros ->. Qed.

Lemma contains_elem b s : str_contains_byte b s = true ↔ b ∈ str_bytes s.
Proof.
  induction s as [|c s IH]; simpl; [set_solver |]. rewrite orb_true_iff, IH, elem_of_cons, Z.eqb_eq. naive_solver.
Qed.

Lemma join_name p q : p ≠ "" → name_ok q → ends_with "/" p = false → path_join p q = p +:+ "/" +:+ q.
Proof.
  intros Hp Hq He. unfold path_join. assert (Fs.is_absolute q = false) as ->.
  { unfold Fs.is_absolute. destruct (starts_with "/" q) eqn:Hs; [| done]. apply starts_with_spec in Hs as [t ->].
    pose proof (name_no_byte _ 47 Hq eq_refl) as Hn. done. }
  by rewrite decide_False, He.
Qed.

Lemma name_no_slash_end p q : name_ok q → ends_with "/" (p +:+ q) = false.
Proof.
  intros Hq. destruct (ends_with "/" (p +:+ q)) eqn:He; [| done]. apply ends_with_spec in He as [t Ht]. exfalso.
  apply (f_equal str_bytes) in Ht. rewrite !str_bytes_app in Ht.
  assert (str_contains_byte 47 q = true); [| by rewrite (name_no_byte q 47) in *].
  apply contains_elem. destruct Hq as [Hq _]. destruct (str_bytes q) as [|x l _] eqn:Hl using rev_ind.
  - destruct Hq. by apply str_bytes_inj.
  - rewrite app_assoc in Ht. apply app_inj_tail in Ht as [_ ->]. change (char_code _) with 47. set_solver.
Qed.

(** A path of two names in /tmp. *)
Lemma two_names_path d f : name_ok d → name_ok f → d ≠ "." → d ≠ ".." → f ≠ "." → f ≠ ".." →
  let p := path_join (path_join "/tmp" d) f in
  Fs.path_parent p = Some ("/tmp/" +:+ d) ∧ Fs.path_parent ("/tmp/" +:+ d) = Some "/tmp" ∧
  Fs.path_file_name ("/tmp/" +:+ d) = Some d ∧ UnixPath.unix_socket_path_is_safe p = true.
Proof.
  intros Hd Hf Hd1 Hd2 Hf1 Hf2. cbv zeta.
  rewrite (join_name "/tmp" d), join_name by first [done | apply (name_no_slash_end "/tmp/"), Hd].
  assert (Hnd : d ≠ "") by apply Hd. assert (Hnf : f ≠ "") by apply Hf.
  pose proof (name_no_byte d 47 Hd eq_refl) as Hsd. pose proof (name_no_byte f 47 Hf eq_refl) as Hsf.
  assert (Hseg : Fs.segments ("/tmp/" +:+ d) = ("", ["tmp"; d])).
  { unfold Fs.segments. assert (str_split 47 ("/tmp/" +:+ d) = [""; "tmp"; d]) as ->; [| done].
    apply (Fs.split_concat "" ["tmp"; d]). by repeat constructor. }
  assert (Hsegp : Fs.segments (("/tmp" +:+ "/" +:+ d) +:+ "/" +:+ f) = ("", ["tmp"; d; f])).
  { unfold Fs.segments. rewrite <- str_app_assoc.
    assert (str_split 47 ("/tmp" +:+ ("/" +:+ d) +:+ "/" +:+ f) = [""; "tmp"; d; f]) as ->; [| done].
    apply (Fs.split_concat "" ["tmp"; d; f]). by repeat constructor. }
  assert (Hrd : Fs.redundant d = false) by (unfold Fs.redundant; by rewrite !bool_decide_false).
  assert (Hrf : Fs.redundant f = false) by (unfold Fs.redundant; by rewrite !bool_decide_false).
  split_and!.
  - unfold Fs.path_parent. rewrite Hsegp. cbn [rev app Fs.drop_redundant]. rewrite Hrf. cbn [Fs.drop_redundant]. by rewrite Hrd.
  - unfold Fs.path_parent. rewrite Hseg. cbn [rev app Fs.drop_redundant]. by rewrite Hrd.
  - unfold Fs.path_file_name. rewrite Hseg. cbn [rev app Fs.drop_redundant]. rewrite Hrd. rewrite decide_False; [done | tauto].
  - unfold UnixPath.unix_socket_path_is_safe. rewrite decide_False by done.
    rewrite !str_contains_app, (name_no_byte d 0), (name_no_byte f 0) by done. cbn [orb str_contains_byte].
    unfold UnixPath.components. unfold Fs.segments in Hsegp.
    destruct (str_split 47 (("/tmp" +:+ "/" +:+ d) +:+ "/" +:+ f)) as [|x l]; [done |]. injection Hsegp as -> ->.
    assert (Hcd : UnixPath.segment_component d = Some (UnixPath.Normal d)) by (unfold UnixPath.segment_component; by rewrite !decide_False).
    assert (Hcf : UnixPath.segment_component f = Some (UnixPath.Normal f)) by (unfold UnixPath.segment_component; by rewrite !decide_False).
    assert (omap UnixPath.segment_component [""; "tmp"; d; f] = [UnixPath.Normal "tmp"; UnixPath.Normal d; UnixPath.Normal f]) as ->
      by (cbn [omap list_omap]; by rewrite Hcd, Hcf).
    done.
Qed.

Section generated.
Context `{Sha256, HexDigits}.

Lemma short_hash_chars parts n : Forall (λ b, name_byte b = true) (str_bytes (str_of_bytes (take n (str_bytes (short_hash parts))))).
Proof.
  assert (Hh : ∀ k l, Forall (λ b, is_label_char b = true ∧ u8_range b) l →
    Forall (λ b, is_label_char b = true ∧ u8_range b) (str_bytes (str_of_bytes (take k l)))).
  { intros k l Hl. assert (Forall (λ b, is_label_char b = true ∧ u8_range b) (take k l)) as Ht by by apply Forall_take.
    rewrite str_bytes_of_bytes; [done |]. eapply Forall_impl; [exact Ht |]. by intros ? []. }
  eapply Forall_impl; [apply Hh; unfold short_hash; apply Hh; apply Forall_and; split; [apply hex_encode_chars | apply str_bytes_range] |].
  intros b [Hb _]. unfold name_byte, is_label_char, is_ascii_alphanumeric in *. apply orb_true_iff in Hb as [->|Hb]; [done |].
  rewrite Hb. by rewrite ?orb_true_r.
Qed.

Lemma filename_ok base hash b : name_ok base → base ≠ "." → base ≠ ".." →
  Forall (λ b, name_byte b = true) (str_bytes (str_of_bytes (take 6 (str_bytes hash)))) →
  let f := generated_socket_filename base hash b in name_ok f ∧ f ≠ "." ∧ f ≠ "..".
Proof.
  intros Hn Hn1 Hn2 Hh. unfold generated_socket_filename. destruct b; cbn [negb]; [| done]. cbv zeta.
  set (h := str_of_bytes _) in *.
  assert (Hd : Forall (λ b, name_byte b = true) (str_bytes ("-" +:+ h))) by (rewrite str_bytes_app; by repeat constructor).
  assert (Hlong : name_ok (base +:+ "-" +:+ h) ∧ base +:+ "-" +:+ h ≠ "." ∧ base +:+ "-" +:+ h ≠ "..").
  { split; [by apply name_ok_app |]. apply dashed_name. by rewrite str_contains_app, orb_true_r. }
  destruct (strip_suffix ".sock" base) as [stem|] eqn:Hs; [| done]. destruct (decide (stem = "")) as [|Hst]; [done |].
  apply strip_suffix_spec in Hs as ->. destruct Hn as [_ Hn]. rewrite str_bytes_app, Forall_app in Hn. split.
  - apply name_ok_app; [split; [done | apply Hn] |]. rewrite str_app_assoc, str_bytes_app, Forall_app. by split; [| repeat constructor].
  - apply dashed_name. by rewrite str_contains_app, orb_true_r.
Qed.

(** The path of a remote socket that the command generates is one the agent accepts: it is a
    safe path of bounded length, and its directory is one the agent creates and keeps private. *)
Theorem generated_remote_path_accepted label target counts p : generated_remote_socket_path label target counts = Ok p →
  UnixPath.unix_socket_path_is_safe p = true ∧ (String.length p < MAX_UNIX_SOCKET_PATH_LEN)%nat ∧
  ∃ d, Fs.path_parent p = Some d ∧ Fs.is_generated_forward_parent d = true.
Proof.
  unfold generated_remote_socket_path, generated_socket_path. intros [Hlen%ensure_Ok [= <-]]%bind_tt.
  destruct (sanitized_basename_ok target) as (Hb & Hb1 & Hb2).
  pose proof (filename_ok _ (short_hash ["portl-socket-v1"; "R"; label; target])
    (1 <? default 0 (counts !! sanitized_basename target))%nat Hb Hb1 Hb2 (short_hash_chars _ 6)) as (Hf & Hf1 & Hf2).
  assert (Hd : name_ok ("portl-from-" +:+ sanitize_component label)).
  { apply name_ok_app_r; [by repeat constructor | apply sanitize_component_ok]. }
  destruct (dashed_name ("portl-from-" +:+ sanitize_component label)) as [Hd1 Hd2]; [done |].
  destruct (two_names_path _ _ Hd Hf Hd1 Hd2 Hf1 Hf2) as (Hp1 & Hp2 & Hp3 & Hp4).
  split_and!; [exact Hp4 | by apply Nat.ltb_lt in Hlen |]. eexists. split; [exact Hp1 |].
  unfold Fs.is_generated_forward_parent, Fs.in_tmp. rewrite Hp3, Hp2. apply andb_true_iff.
  split; [by vm_compute | apply starts_with_spec; by eexists].
Qed.

End generated.

(** Sizes are printed rounded to the nearest tenth of their unit, without overflow. *)
Theorem decimal_unit_nearest bytes unit : 0 ≤ bytes ≤ U64_MAX → unit = KIB ∨ unit = MIB →
  let '(whole, tenths) := decimal_unit bytes unit in
  0 ≤ tenths ≤ 9 ∧ 2 * Z.abs (10 * bytes - (10 * whole + tenths) * unit) ≤ unit ∧
  (bytes `mod` unit) * 10 + unit / 2 ≤ U64_MAX.
Proof.
  intros Hb Hu. assert (Hpos : 0 < unit) by (destruct Hu as [-> | ->]; done).
  assert (He : unit = 2 * (unit / 2) ∧ unit ≤ 1048576) by (destruct Hu as [-> | ->]; by vm_compute).
  unfold decimal_unit. pose proof (Z.div_mod bytes unit ltac:(lia)) as Hdm. pose proof (Z.mod_pos_bound bytes unit Hpos) as Hm.
  set (w := bytes / unit) in *. set (m := bytes `mod` unit) in *. set (h := unit / 2) in *. clearbody w m h.
  pose proof (Z.div_mod (m * 10 + h) unit ltac:(lia)) as Hdm'. pose proof (Z.mod_pos_bound (m * 10 + h) unit Hpos) as Hm'.
  set (t := (m * 10 + h) / unit) in *. set (r := (m * 10 + h) `mod` unit) in *. clearbody t r.
  assert (0 ≤ t ≤ 10) by nia.
  destruct (Z.eqb_spec t 10) as [->|Ht]; (split_and!; [lia | lia | | unfold U64_MAX; lia]); nia.
Qed.

Lemma last_digit p n : ∃ b, last (str_bytes (p +:+ dec n)) = Some b ∧ is_ascii_digit b = true.
Proof.
  rewrite str_bytes_app, last_app. destruct (last (str_bytes (dec n))) as [b|] eqn:Hl.
  - exists b. split; [done |]. apply last_Some_elem_of in Hl. pose proof (dec_digits n) as Hd. rewrite Forall_forall in Hd. by apply Hd.
  - apply last_None in Hl. destruct (dec_nonempty n). by apply str_bytes_inj.
Qed.

(** The text of a forward, written out, is read back as the same forward. *)
Theorem local_spec_roundtrip proto s : 0 ≤ local_port s ≤ U16_MAX → 0 ≤ remote_port s ≤ U16_MAX →
  str_contains_byte 58 (bind s) = false → str_contains_byte 58 (remote_host s) = false →
  parse_local_spec proto (local_addr s +:+ ":" +:+ remote_addr s) = Ok s.
Proof.
  intros Hl Hr Hb Hh. unfold parse_local_spec, local_addr, remote_addr.
  assert (Hs : str_split 58 ((bind s +:+ ":" +:+ dec (local_port s)) +:+ ":" +:+ remote_host s +:+ ":" +:+ dec (remote_port s))
               = [bind s; dec (local_port s); remote_host s; dec (remote_port s)]).
  { rewrite <- !str_app_assoc. apply (str_split_concat (Ascii.ascii_of_N 58) (bind s) [dec (local_port s); remote_host s; dec (remote_port s)]).
    repeat constructor; [done | by apply dec_clean | done | by apply dec_clean]. }
  set (text := (bind s +:+ ":" +:+ dec (local_port s)) +:+ ":" +:+ remote_host s +:+ ":" +:+ dec (remote_port s)) in *.
  assert (strip_protocol_suffix proto text = Ok text) as ->.
  { unfold strip_protocol_suffix. destruct (rcut 47 text) as [[base suf]|] eqn:Hc; [| done].
    apply (rcut_spec (Ascii.ascii_of_N 47)) in Hc as [Ht _].
    assert (Hne : ∀ w b, last (str_bytes w) = Some b → is_ascii_digit b = false → suf ≠ w).
    { intros w b Hw Hb' ->. destruct (last_digit ((bind s +:+ ":" +:+ dec (local_port s)) +:+ ":" +:+ remote_host s +:+ ":") (remote_port s))
        as (b' & Hl' & Hd'). rewrite <- !str_app_assoc in Hl'. unfold text in Ht. rewrite <- !str_app_assoc in Ht.
      rewrite Ht, str_bytes_app in Hl'. cbn [str_bytes] in Hl'. rewrite last_app, last_cons, Hw in Hl'. congruence. }
    assert (suf ≠ "tcp" ∧ suf ≠ "udp" ∧ suf ≠ "both") as (H1 & H2 & H3) by (split_and!; by eapply Hne).
    destruct proto; rewrite !decide_False; first [done | tauto]. }
  cbn [mbind result_bind]. rewrite Hs. unfold parse_port. rewrite !parse_unsigned_dec by done. by destruct s.
Qed.

(** ** Examples *)

Module Demo.
Import HexDemo.HexDemo.

(** A digest for the example only. *)
#[local] Instance demo_sha256 : Sha256 := {| sha256 := λ _, replicate 32 0 |}.

Definition demo_args : ForwardingArgs := {| args_local := ["8080:3000"; "/tmp/l.sock:/run/app/r.sock"]; args_remote := [] |}.
Definition demo_plan : ForwardPlan :=
  {| plan_tcp := [{| bind := "127.0.0.1"; local_port := 8080; remote_host := "localhost"; remote_port := 3000 |}];
     plan_dynamic := []; plan_udp := []; plan_unix := [Connect "/tmp/l.sock" "/run/app/r.sock" false false] |}.
Definition demo_caps : Capabilities :=
  {| presence := 0; shell := None; tcp := None; udp := None; fs := None; vpn := None; meta := None; unix := None |}.
Definition demo_preamble : StreamPreamble := {| peer_token := []; alpn := "" |}.

Lemma demo_caps_canonical : canonical_caps demo_caps.
Proof. split; [split | ..]; done. Qed.

Lemma demo_parse : parse_args demo_args "peer" "me" = Ok demo_plan.
Proof. by vm_compute. Qed.

Lemma plan_permitted_witness :
  unix_permits (augment_caps demo_plan demo_caps) {| ur_preamble := demo_preamble; ur_op := UnixConnect "/run/app/r.sock" |} = Ok tt.
Proof.
  pose proof (plan_permitted demo_args "peer" "me" demo_plan demo_caps demo_preamble demo_parse demo_caps_canonical) as H.
  refine (proj1 (proj2 (proj2 (proj2 (proj2 (proj2 H))))) "/tmp/l.sock" "/run/app/r.sock" false false _). simpl. left.
Defined.

Lemma generated_remote_path_accepted_witness :
  UnixPath.unix_socket_path_is_safe "/tmp/portl-from-me/agent.sock" = true.
Proof. refine (proj1 (generated_remote_path_accepted "me" "/run/agent.sock" ∅ "/tmp/portl-from-me/agent.sock" _)). by vm_compute. Defined.

Lemma decimal_unit_nearest_witness : let '(whole, tenths) := decimal_unit 2047 KIB in
  0 ≤ tenths ≤ 9 ∧ 2 * Z.abs (10 * 2047 - (10 * whole + tenths) * KIB) ≤ KIB ∧ (2047 `mod` KIB) * 10 + KIB / 2 ≤ U64_MAX.
Proof. apply (decimal_unit_nearest 2047 KIB); [done | by left]. Defined.

Lemma local_spec_roundtrip_witness : parse_local_spec Tcp "0.0.0.0:8080:db:5432" =
  Ok {| bind := "0.0.0.0"; local_port := 8080; remote_host := "db"; remote_port := 5432 |}.
Proof.
  refine (local_spec_roundtrip Tcp {| bind := "0.0.0.0"; local_port := 8080; remote_host := "db"; remote_port := 5432 |} _ _ _ _); done.
Defined.

End Demo.
