(* ===== verification/Redial.v ===== *)
(** * Keeping a persistent forward connected

    crates/portl-cli/src/commands/network_lifecycle.rs (what is retried, the backoff, network
    changes), the supervisor of persistent_forward.rs, and the part of ForwardRuntime in
    forwarding.rs that tells the workers which connection to use.

    Times are milliseconds of a monotonic clock.  A step of the supervisor is one [select!]
    that completes; what completes, and when, is up to the surroundings. *)

From S2P Require Import Prelude.

(** ** network_lifecycle.rs *)

Inductive RetryClass := Permanent | Transient.

Inductive RejectReason := RateLimited | InternalError | OtherReason.

(** What [retryable] looks for in an error: the first [RetryClass], a refused UDP request, the
    reason of a refused ticket. *)
Record ErrorInfo := {
  e_class : option RetryClass;
  e_udp_rejected : bool;
  e_ticket : option (option RejectReason);
}.

Definition retryable (e : ErrorInfo) : bool :=
  match e_class e with
  | Some Transient => true
  | Some Permanent => false
  | None =>
      if e_udp_rejected e then false
      else match e_ticket e with
           | Some (Some RateLimited) | Some (Some InternalError) => true
           | Some _ => false
           | None => true
           end
  end.

Definition BACKOFF_START : Z := 100.
Definition BACKOFF_MAX : Z := 5000.
Definition NETWORK_REDIAL_INTERVAL : Z := 1000.
Definition CONNECT_HEDGE_INTERVAL : Z := 5000.

(** [Backoff::next]: the delay, with a random factor of a half to one, and the next ceiling. *)
Definition backoff_delay (ceiling delay : Z) : Prop := ceiling ≤ 2 * delay ∧ delay ≤ ceiling.
Definition backoff_next (ceiling : Z) : Z := Z.min (ceiling * 2) BACKOFF_MAX.

(** ** The runtime of the forwards *)

Record ForwardPeer := { stable_id : Z; generation : Z }.

(** [peer] is the value of the watch channel, [gen] the counter. *)
Record Forwards := { peer : option ForwardPeer; gen : Z }.

Definition reconnect (f : Forwards) (id : Z) : Forwards :=
  if match peer f with Some p => stable_id p =? id | None => false end then f
  else let g := saturating_add U64_MAX (gen f) 1 in
       {| peer := Some {| stable_id := id; generation := g |}; gen := g |}.

Definition disconnected (f : Forwards) : Forwards := {| peer := None; gen := gen f |}.

(** ** The supervisor *)

Inductive Phase :=
  | Connecting (since : Z)
  | Connected (since : Z)
  | Sleeping (since delay : Z)
  | Ended (r : result ErrorInfo unit).

(** How a connection ended, as far as the loop tells. *)
Inductive Closed := Transport | Other.

(** The counters say how often the loop went back to dialling, and why. *)
Record Sup := {
  phase : Phase;
  ceiling : Z;
  next_redial : Z;
  forwards : Forwards;
  after_sleep : Z;
  after_change : Z;
  after_session : Z;
}.

Definition start (now : Z) : Sup :=
  {| phase := Connecting now; ceiling := BACKOFF_START; next_redial := now; forwards := {| peer := None; gen := 0 |};
     after_sleep := 0; after_change := 0; after_session := 0 |}.

Definition go (s : Sup) (p : Phase) (c : Z) (f : Forwards) : Sup :=
  {| phase := p; ceiling := c; next_redial := next_redial s; forwards := f; after_sleep := after_sleep s;
     after_change := after_change s; after_session := after_session s |}.

Definition finish (s : Sup) (r : result ErrorInfo unit) (f : Forwards) : Sup := go s (Ended r) (ceiling s) f.

(** [changes.changed()] completes: the backoff is reset and the loop dials again. *)
Definition changed (s : Sup) (now : Z) : Sup :=
  {| phase := Connecting now; ceiling := BACKOFF_START; next_redial := now + NETWORK_REDIAL_INTERVAL; forwards := forwards s;
     after_sleep := after_sleep s; after_change := after_change s + 1; after_session := after_session s |}.

Definition slept (s : Sup) (now : Z) : Sup :=
  {| phase := Connecting now; ceiling := ceiling s; next_redial := next_redial s; forwards := forwards s;
     after_sleep := after_sleep s + 1; after_change := after_change s; after_session := after_session s |}.

(** A working session was lost: redial now. *)
Definition lost (s : Sup) (now : Z) : Sup :=
  {| phase := Connecting now; ceiling := BACKOFF_START; next_redial := next_redial s; forwards := disconnected (forwards s);
     after_sleep := after_sleep s; after_change := after_change s; after_session := after_session s + 1 |}.

(** The steps at time [now].  [worker_failed] is also the step of a failing network source and of
    a failing refresh of the endpoint. *)
Inductive sup_step (now : Z) : Sup → Sup → Prop :=
  | shutdown s t r : phase s = Connecting t ∨ (∃ d, phase s = Sleeping t d) →
      sup_step now s (finish s r (forwards s))
  | worker_failed s t e : phase s = Connecting t ∨ (∃ d, phase s = Sleeping t d) →
      sup_step now s (finish s (Err e) (forwards s))
  | network_changed s t : phase s = Connecting t ∨ (∃ d, phase s = Sleeping t d) → next_redial s ≤ now →
      sup_step now s (changed s now)
  | connected s t id : phase s = Connecting t → sup_step now s (go s (Connected now) (ceiling s) (reconnect (forwards s) id))
  | refused s t e : phase s = Connecting t → retryable e = false → sup_step now s (finish s (Err e) (forwards s))
  | failed s t e d : phase s = Connecting t → retryable e = true → backoff_delay (ceiling s) d →
      sup_step now s (go s (Sleeping now d) (backoff_next (ceiling s)) (forwards s))
  | session_stopped s t r : phase s = Connected t → sup_step now s (finish s r (disconnected (forwards s)))
  | session_lost s t : phase s = Connected t → 5000 ≤ now - t → sup_step now s (lost s now)
  | session_closed s t k d : phase s = Connected t → (now - t < 5000 ∨ k = Other) →
      let c := if 30000 <=? now - t then BACKOFF_START else ceiling s in
      backoff_delay c d →
      sup_step now s (go s (Sleeping now d) (backoff_next c) (disconnected (forwards s)))
  | woke s t d : phase s = Sleeping t d → t + d ≤ now → sup_step now s (slept s now).

(** A run from [t0]: the times of the steps do not go back. *)
Inductive run (t0 : Z) : Z → Sup → Prop :=
  | run_start : run t0 t0 (start t0)
  | run_step t s now s' : run t0 t s → t ≤ now → sup_step now s s' → run t0 now s'.

(** ** Invariant *)

Definition since (now : Z) (p : Phase) : Z :=
  match p with Connecting t | Connected t | Sleeping t _ => t | Ended _ => now end.

Record inv (t0 now : Z) (s : Sup) : Prop := {
  v_since : since now (phase s) ≤ now;
  v_ceiling : BACKOFF_START ≤ ceiling s ≤ BACKOFF_MAX;
  v_delay t d : phase s = Sleeping t d → 50 ≤ d ≤ BACKOFF_MAX;
  v_dials : 50 * after_sleep s + 5000 * after_session s ≤ since now (phase s) - t0;
  v_changes : 1000 * after_change s ≤ next_redial s - t0 ∧ next_redial s ≤ now + NETWORK_REDIAL_INTERVAL;
  v_peer : is_Some (peer (forwards s)) ↔ ∃ t, phase s = Connected t;
  v_gen p : peer (forwards s) = Some p → generation p = gen (forwards s);
  v_gen_max : gen (forwards s) ≤ U64_MAX;
}.

Lemma backoff_next_range c : BACKOFF_START ≤ c ≤ BACKOFF_MAX → BACKOFF_START ≤ backoff_next c ≤ BACKOFF_MAX.
Proof. unfold backoff_next, BACKOFF_START, BACKOFF_MAX. lia. Qed.

Lemma no_peer (s : Sup) : (is_Some (peer (forwards s)) ↔ ∃ t, phase s = Connected t) → (∀ t, phase s ≠ Connected t) → peer (forwards s) = None.
Proof. intros Hp Hn. destruct (peer (forwards s)) as [p|]; [| done]. destruct (proj1 Hp) as [t Ht]; [eauto |]. by destruct (Hn t). Qed.

Ltac waiting := match goal with H : _ ∨ _ |- _ => destruct H as [H|[? H]] end.

Lemma redial_inv_step t0 t now s s' : inv t0 t s → t ≤ now → sup_step now s s' → inv t0 now s'.
Proof.
  intros [Hs Hc Hd Hn [Hch1 Hch2] Hp Hg Hm] Ht Hstep.
  assert (Hidle : ∀ p, (∀ t, phase s ≠ Connected t) → (∀ t, p ≠ Connected t) → is_Some (peer (forwards s)) ↔ ∃ t, p = Connected t).
  { intros p Hw Hpn. rewrite (no_peer s Hp Hw). split; [by intros [] | by intros [? ?%Hpn]]. }
  pose proof (no_peer s Hp) as Hnone.
  destruct Hstep; try waiting; repeat match goal with H : phase s = _ |- _ => rewrite H in *; cbn [since] in * end;
    split; cbn [phase ceiling next_redial forwards after_sleep after_change after_session go finish changed slept lost since];
    try done; try (by apply backoff_next_range); try (by apply Hidle); try (split; [by intros [] | by intros [? [=]]]);
    unfold backoff_delay, BACKOFF_START, BACKOFF_MAX, NETWORK_REDIAL_INTERVAL in *;
    try lia; try (intros ?? [= <- <-]; lia).
  - unfold reconnect. rewrite Hnone by done. simpl. split; eauto.
  - unfold reconnect. rewrite Hnone by done. by intros p [= <-].
  - unfold reconnect, saturating_add. rewrite Hnone by done. simpl. lia.
  - destruct (30000 <=? now - t1); apply backoff_next_range; done.
  - intros ?? [= <- <-]. subst c. destruct (30000 <=? now - t1); lia.
  - specialize (Hd _ _ eq_refl). lia.
Qed.

Lemma redial_inv t0 now s : run t0 now s → inv t0 now s.
Proof.
  induction 1 as [|t s now s' _ IH Ht Hs]; [| by eapply redial_inv_step].
  split; cbn; unfold BACKOFF_START, BACKOFF_MAX, NETWORK_REDIAL_INTERVAL; try lia; try done.
  by split; [intros [] | intros [? [=]]].
Qed.

(** C33: dialling never spins: each wait before a redial is between 50 milliseconds and 5 seconds;
    in a run of [now - t0] milliseconds the redials after a wait take 50 milliseconds each and
    those after a lost session 5 seconds, and network changes cause one per second at most. *)
Theorem redial_bounded t0 now s : run t0 now s →
  50 * after_sleep s + 5000 * after_session s ≤ now - t0 ∧ 1000 * after_change s ≤ now - t0 + 1000 ∧
  (∀ t d, phase s = Sleeping t d → 50 ≤ d ≤ 5000).
Proof.
  intros [Hs _ Hd Hn [Hc1 Hc2] _ _ _]%redial_inv. unfold BACKOFF_MAX, NETWORK_REDIAL_INTERVAL in *. split_and!; [lia | lia | done].
Qed.

(** The workers use a connection exactly while the supervisor holds it: between sessions, and
    after the end, they have none; and a connection has a larger generation than all before it,
    until the counter is exhausted. *)
Theorem workers_follow_connection t0 now s now' s' : run t0 now s → now ≤ now' → sup_step now' s s' →
  (is_Some (peer (forwards s')) ↔ ∃ t, phase s' = Connected t) ∧
  gen (forwards s) ≤ gen (forwards s') ∧
  (∀ p, peer (forwards s') = Some p → generation p = gen (forwards s') ∧
        (gen (forwards s) < U64_MAX → gen (forwards s) < generation p)).
Proof.
  intros Hi%redial_inv Hn Hs. pose proof (redial_inv_step _ _ _ _ _ Hi Hn Hs) as [_ _ _ _ _ Hp' Hg' _]. split; [done |].
  pose proof (no_peer s (v_peer _ _ _ Hi)) as Hnone. pose proof (v_gen_max _ _ _ Hi) as Hm.
  assert ((∃ t id, phase s = Connecting t ∧ forwards s' = reconnect (forwards s) id) ∨
          (∀ t, phase s' ≠ Connected t) ∧ gen (forwards s') = gen (forwards s)) as [(t & id & Hc & He)|[Hc He]]
    by (destruct Hs; eauto).
  - rewrite He in *. unfold reconnect, saturating_add in *. rewrite Hnone in * by congruence.
    cbn [peer gen] in *. split; [lia |]. intros p [= <-]. cbn [generation]. split; [done | lia].
  - split; [lia |]. intros p Hp. destruct (proj1 Hp') as [t Ht]; [eauto |]. by destruct (Hc t).
Qed.

(** ** Examples *)

Module Demo.

(** A first dial fails; the wait after it ends. *)
Definition no_info : ErrorInfo := {| e_class := None; e_udp_rejected := false; e_ticket := None |}.
Definition waiting_state : Sup := go (start 0) (Sleeping 10 60) 200 (forwards (start 0)).

Lemma waiting_run : run 0 10 waiting_state.
Proof.
  eapply run_step; [apply run_start | | apply (failed 10 (start 0) 0 no_info 60)]; done.
Qed.

Lemma redial_bounded_witness : 50 * after_sleep (slept waiting_state 70) + 5000 * after_session (slept waiting_state 70) ≤ 70 - 0.
Proof.
  refine (proj1 (redial_bounded 0 70 (slept waiting_state 70) _)).
  eapply run_step; [exact waiting_run | done | by apply (woke 70 waiting_state 10 60)].
Defined.

Lemma workers_follow_connection_witness : gen (forwards (start 0)) ≤ gen (forwards (go (start 0) (Connected 5) 100 (reconnect (forwards (start 0)) 3))).
Proof.
  refine (proj1 (proj2 (workers_follow_connection 0 0 (start 0) 5 _ (run_start 0) _ (connected 5 (start 0) 0 3 eq_refl)))). done.
Defined.

End Demo.
