(* ===== verification/ShellSpawn.v ===== *)
(** * The processes of shell and exec requests

    crates/portl-agent/src/shell_handler/{spawn,user,shutdown}.rs: the command of a request, what
    the forked child does before it executes it, the record the agent keeps, and the reaper that
    ends a session's process group.

    The operating system is a record of answers: the pid of the child, the errors of the calls.
    What a call does to the child ([apply]) is its documented effect on the process credentials,
    group and descriptors. *)

From S2P Require Import Prelude Schema Canonical Enforce Streams.

(** ** The child between [fork] and [exec] *)

Inductive Resource := RLIMIT_NOFILE | RLIMIT_CORE | RLIMIT_CPU | RLIMIT_FSIZE.
#[export] Instance Resource_eq_dec : EqDecision Resource.
Proof. solve_decision. Defined.

(** What a descriptor refers to. *)
Inductive Open := PtyMaster | PtySlave | OtherFile.
#[export] Instance Open_eq_dec : EqDecision Open.
Proof. solve_decision. Defined.

(** [c_fds] gives the file of a descriptor and whether it is closed on [exec]. *)
Record Child := {
  c_pid : Z;
  c_pgid : Z;
  c_sid : Z;
  c_uid : Z;
  c_gid : Z;
  c_groups : list Z;
  c_limits : Resource → option Z;
  c_tty : option Open;
  c_fds : gmap Z (Open * bool);
}.

Inductive Syscall :=
  | Setrlimit (r : Resource) (v : Z)
  | Setpgid
  | Setsid
  | Tiocsctty (fd : Z)
  | Dup2 (fd target : Z)
  | Close (fd : Z)
  | Setgroups (l : list Z)
  | Setgid (g : Z)
  | Setuid (u : Z).

Definition set_ids (c : Child) (u g : Z) (l : list Z) : Child :=
  {| c_pid := c_pid c; c_pgid := c_pgid c; c_sid := c_sid c; c_uid := u; c_gid := g; c_groups := l; c_limits := c_limits c;
     c_tty := c_tty c; c_fds := c_fds c |}.
Definition set_group (c : Child) (pgid sid : Z) (tty : option Open) : Child :=
  {| c_pid := c_pid c; c_pgid := pgid; c_sid := sid; c_uid := c_uid c; c_gid := c_gid c; c_groups := c_groups c;
     c_limits := c_limits c; c_tty := tty; c_fds := c_fds c |}.
Definition set_fds (c : Child) (fds : gmap Z (Open * bool)) : Child :=
  {| c_pid := c_pid c; c_pgid := c_pgid c; c_sid := c_sid c; c_uid := c_uid c; c_gid := c_gid c; c_groups := c_groups c;
     c_limits := c_limits c; c_tty := c_tty c; c_fds := fds |}.
Definition set_limit (c : Child) (r : Resource) (v : Z) : Child :=
  {| c_pid := c_pid c; c_pgid := c_pgid c; c_sid := c_sid c; c_uid := c_uid c; c_gid := c_gid c; c_groups := c_groups c;
     c_limits := λ r', if decide (r' = r) then Some v else c_limits c r'; c_tty := c_tty c; c_fds := c_fds c |}.

(** Only root changes its ids; a duplicated descriptor is not closed on [exec], unless it is
    duplicated onto itself. *)
Definition apply (c : Child) (call : Syscall) : result string Child :=
  match call with
  | Setrlimit r v => Ok (set_limit c r v)
  | Setpgid => Ok (set_group c (c_pid c) (c_sid c) (c_tty c))
  | Setsid => if c_pgid c =? c_pid c then Err "EPERM" else Ok (set_group c (c_pid c) (c_pid c) None)
  | Tiocsctty fd => f ← ok_or (c_fds c !! fd) "EBADF"; Ok (set_group c (c_pgid c) (c_sid c) (Some f.1))
  | Dup2 fd t =>
      f ← ok_or (c_fds c !! fd) "EBADF";
      Ok (if fd =? t then c else set_fds c (<[t := (f.1, false)]> (c_fds c)))
  | Close fd => Ok (set_fds c (delete fd (c_fds c)))
  | Setgroups l => if c_uid c =? 0 then Ok (set_ids c (c_uid c) (c_gid c) l) else Err "EPERM"
  | Setgid g => if (c_uid c =? 0) || (c_gid c =? g) then Ok (set_ids c (c_uid c) g (c_groups c)) else Err "EPERM"
  | Setuid u => if (c_uid c =? 0) || (c_uid c =? u) then Ok (set_ids c u (c_gid c) (c_groups c)) else Err "EPERM"
  end.

(** ** Commands *)

Record Command := {
  program : string;
  args : list string;
  cwd : option string;
  env : gmap string string;
  hooks : list Syscall;
}.

(** The answers of the system. [os_self] is the child just after [fork], with the ids of the
    agent; a call fails where [os_call] says so. *)
Record SpawnOs := {
  os_self : Child;
  os_fork : result string unit;
  os_openpty : result string (Z * Z);
  os_cloexec : result string unit;
  os_call : Syscall → option string;
  os_exec : string → list string → option string → Child → option string;
  os_id : option Z;
  os_pipe : string → bool;
}.

Fixpoint run_hooks (os : SpawnOs) (c : Child) (l : list Syscall) : result string Child :=
  match l with
  | [] => Ok c
  | call :: l' =>
      (if os_call os call is Some e then Err e else Ok tt);;
      c ← apply c call;
      run_hooks os c l'
  end.

Definition close_on_exec (c : Child) : Child := set_fds c (filter (λ kv, kv.2.2 = false) (c_fds c)).

(** [Command::spawn]: the child that runs the program, or the error the child reports. *)
Definition command_spawn (os : SpawnOs) (cmd : Command) : result string Child :=
  os_fork os;;
  c ← run_hooks os (os_self os) (hooks cmd);
  (if os_exec os (program cmd) (args cmd) (cwd cmd) c is Some e then Err e else Ok tt);;
  Ok (close_on_exec c).

(** ** spawn.rs and user.rs *)

Definition apply_rlimits : list Syscall :=
  [Setrlimit RLIMIT_NOFILE 4096; Setrlimit RLIMIT_CORE 0; Setrlimit RLIMIT_CPU 86400;
   Setrlimit RLIMIT_FSIZE (10 * 1024 * 1024 * 1024)].

Definition install_exec_session_pre_exec : list Syscall := apply_rlimits ++ [Setpgid].

Definition install_exec_user_switch (user : RequestedUser) : list Syscall :=
  if ru_switch_required user then [Setgroups []; Setgid (ru_gid user); Setuid (ru_uid user)] else [].

Definition pty_pre_exec (slave_fd : Z) : list Syscall :=
  apply_rlimits ++ [Setsid; Tiocsctty slave_fd] ++ (Dup2 slave_fd <$> [0; 1; 2])
  ++ (if 2 <? slave_fd then [Close slave_fd] else []).

(** A request that stops: with a rejection, or with a panic of the task that serves it. *)
Inductive Stop := Panic | Reject (r : SpawnReject).

(** [sp_command] and [sp_child] are what runs. *)
Record ShellProcess := {
  sp_pid : Z;
  sp_signal_target : option Z;
  sp_pty : bool;
  sp_command : Command;
  sp_child : Child;
}.

Definition I32_MAX : Z := 2 ^ 31 - 1.

Definition process_group_signal_target_from_pid (pid : Z) : result SpawnReject Z :=
  if pid <=? I32_MAX then Ok (- pid) else Err (path_probe_failed "child pid out of range").

Definition exec_command (caps : Capabilities) (req : ShellReq) (user : RequestedUser) (prog : string) (argv : list string) :
    Command :=
  {| program := prog; args := argv; cwd := requested_cwd req (Some user); env := effective_env (shell caps) req (Some user);
     hooks := install_exec_session_pre_exec ++ install_exec_user_switch user |}.

(** What [spawn_exec_process] and [spawn_raw_shell_process] do with their command. *)
Definition spawn_piped (os : SpawnOs) (cmd : Command) : result SpawnReject ShellProcess :=
  child ← map_err path_probe_failed (command_spawn os cmd);
  pid ← ok_or (os_id os) (path_probe_failed "missing child pid");
  ensure (os_pipe os "stdin") (path_probe_failed "missing child stdin");;
  ensure (os_pipe os "stdout") (path_probe_failed "missing child stdout");;
  ensure (os_pipe os "stderr") (path_probe_failed "missing child stderr");;
  target ← process_group_signal_target_from_pid pid;
  Ok {| sp_pid := pid; sp_signal_target := Some target; sp_pty := false; sp_command := cmd; sp_child := child |}.

Definition spawn_exec_process (os : SpawnOs) (caps : Capabilities) (req : ShellReq) (user : RequestedUser) :
    result SpawnReject ShellProcess :=
  match sr_argv req with
  | Some (prog :: argv) => spawn_piped os (exec_command caps req user prog argv)
  | _ => Err argv_empty
  end.

Definition spawn_raw_shell_process (os : SpawnOs) (caps : Capabilities) (req : ShellReq) (user : RequestedUser) :
    result SpawnReject ShellProcess :=
  spawn_piped os (exec_command caps req user (ru_shell user) ["-l"]).

(** The child of [openpty]'s process has both descriptors; the master is closed on [exec]. *)
Definition with_pty (os : SpawnOs) (master slave : Z) : SpawnOs :=
  {| os_self := set_fds (os_self os) (<[slave := (PtySlave, false)]> (<[master := (PtyMaster, true)]> (c_fds (os_self os))));
     os_fork := os_fork os; os_openpty := os_openpty os; os_cloexec := os_cloexec os;
     os_call := λ call, if call is Close _ then None else os_call os call;
     os_exec := os_exec os; os_id := os_id os; os_pipe := os_pipe os |}.

Definition spawn_pty_blocking (os : SpawnOs) (prog : string) (argv : list string) (e : gmap string string) (dir : option string) :
    result string (Command * Child) :=
  '(master, slave) ← os_openpty os;
  os_cloexec os;;
  let cmd := {| program := prog; args := argv; cwd := dir; env := e; hooks := pty_pre_exec slave |} in
  child ← command_spawn (with_pty os master slave) cmd;
  Ok (cmd, child).

Definition pty_failed (msg : string) : Stop := Reject (pty_allocation_failed (SpawnFailed msg)).

(** [args.remove(0)] panics on an empty list. *)
Definition pty_program (req : ShellReq) (user : RequestedUser) : result Stop (string * list string) :=
  match sr_argv req with
  | None => Ok (ru_shell user, ["-l"])
  | Some [] => Err Panic
  | Some (prog :: argv) => Ok (prog, argv)
  end.

Definition spawn_pty_process (os : SpawnOs) (caps : Capabilities) (req : ShellReq) (user : RequestedUser) :
    result Stop ShellProcess :=
  ensure (negb (ru_switch_required user))
    (Reject (user_switch_refused
       "pty mode does not support --user; use `portl exec --user <name>` or run the agent as the target user"));;
  ensure (is_some (sr_pty req)) (Reject (pty_allocation_failed InvalidPty));;
  '(prog, argv) ← pty_program req user;
  '(cmd, child) ← map_err pty_failed
    (spawn_pty_blocking os prog argv (effective_env (shell caps) req (Some user)) (requested_cwd req (Some user)));
  pid ← ok_or (os_id os) (pty_failed "missing child pid");
  ensure (pid <=? I32_MAX) (pty_failed "child pid out of range");;
  Ok {| sp_pid := pid; sp_signal_target := Some (- pid); sp_pty := true; sp_command := cmd; sp_child := child |}.

Definition spawn_process (os : SpawnOs) (caps : Capabilities) (req : ShellReq) (user : RequestedUser) :
    result Stop ShellProcess :=
  match sr_mode req, sr_pty req with
  | Exec, None => map_err Reject (spawn_exec_process os caps req user)
  | Shell, None => map_err Reject (spawn_raw_shell_process os caps req user)
  | _, Some _ => spawn_pty_process os caps req user
  end.

(** ** shutdown.rs *)

(** The first draw that is at least 2 with its high bit set. *)
Fixpoint fresh_session_id (draws : list bytes) : option bytes :=
  match draws with
  | [] => None
  | [] :: draws' => fresh_session_id draws'
  | (b :: id) :: draws' => let b := Z.lor b 128 in if 2 <=? b then Some (b :: id) else fresh_session_id draws'
  end.

(** [send_signal]: the signals of Linux are 1 to 31. *)
Definition send_signal (target : option Z) (sig : Z) : list (Z * Z) :=
  match target with
  | Some t => if (1 <=? sig) && (sig <=? 31) then [(t, sig)] else []
  | None => []
  end.

Inductive Signal := SIGHUP | SIGTERM | SIGKILL.
#[export] Instance Signal_eq_dec : EqDecision Signal.
Proof. solve_decision. Defined.

(** The answer of [killpg]. *)
Inductive Killed := Delivered | NoGroup | KillFailed.

(** What the exit watch does after the last signal if no other follows: it gets the exit code,
    or loses its sender, after so many milliseconds, or nothing happens. *)
Inductive Watch := Exits (after : Z) | Closes (after : Z) | Silent.

Definition SESSION_REAPER_GRACE : Z := 5000.

Definition wait_for_reap_with_timeout (w : Watch) (timeout : Z) : bool * Z :=
  match w with
  | Exits d => if d <=? timeout then (true, d) else (false, timeout)
  | Closes d => if d <=? timeout then (false, d) else (false, timeout)
  | Silent => (false, timeout)
  end.

Record Reaped := { reaped : bool; signals : list Signal; elapsed : Z }.

Section reaper.
Variable killpg : list Signal → Signal → Killed.
Variable watch : list Signal → Watch.
Variable skip_observation : bool.

(** The loop, at a signal: [past] are the signals before it. *)
Definition reap_signal (sig : Signal) (past : list Signal) (t : Z) (next : list Signal → Z → Reaped) : Reaped :=
  match killpg past sig with
  | NoGroup => {| reaped := true; signals := past; elapsed := t |}
  | _ =>
      let now := past ++ [sig] in
      if decide (sig = SIGKILL) then next now t
      else match wait_for_reap_with_timeout (watch now) SESSION_REAPER_GRACE with
           | (true, d) => {| reaped := true; signals := now; elapsed := t + d |}
           | (false, d) => next now (t + d)
           end
  end.

Fixpoint reap_signals (l : list Signal) (past : list Signal) (t : Z) : Reaped :=
  match l with
  | [] =>
      if skip_observation then {| reaped := false; signals := past; elapsed := t |}
      else let '(r, d) := wait_for_reap_with_timeout (watch past) 100 in
           {| reaped := r; signals := past; elapsed := t + d |}
  | sig :: l' => reap_signal sig past t (reap_signals l')
  end.

(** [already]: the exit code is there before the first signal. *)
Definition reap (pgid : option Z) (already : bool) : Reaped :=
  match pgid with
  | None => {| reaped := true; signals := []; elapsed := 0 |}
  | Some _ =>
      if already then {| reaped := true; signals := []; elapsed := 0 |}
      else reap_signals [SIGHUP; SIGTERM; SIGKILL] [] 0
  end.

(** The group the reaper signals: [signal_target.and_then(i32::checked_abs)]. *)
Definition reaper_pgid (p : ShellProcess) : option Z :=
  t ← sp_signal_target p; if t =? - 2 ^ 31 then None else Some (Z.abs t).

End reaper.

(** ** What the hooks do *)

Lemma run_hooks_cons os c call l c' : run_hooks os c (call :: l) = Ok c' ↔
  os_call os call = None ∧ ∃ c1, apply c call = Ok c1 ∧ run_hooks os c1 l = Ok c'.
Proof.
  cbn [run_hooks]. destruct (os_call os call); [naive_solver |]. rewrite bind_tt, bind_Ok. naive_solver.
Qed.

Lemma run_hooks_app os c l1 l2 c' : run_hooks os c (l1 ++ l2) = Ok c' ↔
  ∃ c1, run_hooks os c l1 = Ok c1 ∧ run_hooks os c1 l2 = Ok c'.
Proof.
  revert c. induction l1 as [|call l1 IH]; intros c; [simpl; naive_solver |].
  rewrite <- app_comm_cons, run_hooks_cons. setoid_rewrite run_hooks_cons. setoid_rewrite IH. naive_solver.
Qed.

(** One call of a sequence that went through. *)
Ltac hook_step H :=
  let E := fresh "E" in
  apply run_hooks_cons in H as (_ & ? & E & H); cbn [apply] in E; try (injection E as <-).

(** The ids, the group and the descriptors are left alone. *)
Record same_but_limits (c c' : Child) : Prop := {
  sl_pid : c_pid c' = c_pid c;
  sl_pgid : c_pgid c' = c_pgid c;
  sl_uid : c_uid c' = c_uid c;
  sl_gid : c_gid c' = c_gid c;
  sl_groups : c_groups c' = c_groups c;
  sl_fds : c_fds c' = c_fds c;
}.

(** 4096 files, no core dumps, a day of processor time and files of 10 GiB *)
Definition limited (c : Child) : Prop :=
  c_limits c RLIMIT_NOFILE = Some 4096 ∧ c_limits c RLIMIT_CORE = Some 0 ∧ c_limits c RLIMIT_CPU = Some (24 * 60 * 60) ∧
  c_limits c RLIMIT_FSIZE = Some (10 * 2 ^ 30).

Lemma rlimits_run os c c' : run_hooks os c apply_rlimits = Ok c' → same_but_limits c c' ∧ limited c'.
Proof.
  unfold apply_rlimits. intros Hr. do 4 hook_step Hr. injection Hr as <-. split; [done |]. by vm_compute.
Qed.

(** After the hooks of the piped paths. *)
Lemma exec_hooks_run os c user c' :
  run_hooks os c (install_exec_session_pre_exec ++ install_exec_user_switch user) = Ok c' →
  limited c' ∧ c_pid c' = c_pid c ∧ c_pgid c' = c_pid c ∧
  if ru_switch_required user then c_uid c' = ru_uid user ∧ c_gid c' = ru_gid user ∧ c_groups c' = []
  else c_uid c' = c_uid c ∧ c_gid c' = c_gid c ∧ c_groups c' = c_groups c.
Proof.
  unfold install_exec_session_pre_exec, install_exec_user_switch.
  rewrite run_hooks_app. setoid_rewrite run_hooks_app. intros (c2 & (c1 & [Hs Hl]%rlimits_run & Hp) & Hu).
  hook_step Hp. injection Hp as <-. destruct Hs as [Hpid _ Huid Hgid Hgr _].
  destruct (ru_switch_required user).
  - apply run_hooks_cons in Hu as (_ & c3 & H3 & Hu). cbn in H3.
    destruct (c_uid c1 =? 0) eqn:Hroot; [| done]. injection H3 as <-.
    do 2 (apply run_hooks_cons in Hu as (_ & ? & H3 & Hu); cbn in H3; rewrite Hroot in H3; injection H3 as <-).
    injection Hu as <-. cbn. by rewrite Hpid.
  - injection Hu as <-. cbn. rewrite Hpid. done.
Qed.

Lemma dup_slave c s t : c_fds c !! s = Some (PtySlave, false) →
  apply c (Dup2 s t) = Ok (set_fds c (<[t := (PtySlave, false)]> (c_fds c))).
Proof.
  intros Hs. cbn [apply]. rewrite Hs. cbn. destruct (Z.eqb_spec s t) as [<-|]; [| done].
  rewrite insert_id by done. by destruct c.
Qed.

Lemma insert_slave (m : gmap Z (Open * bool)) s t : m !! s = Some (PtySlave, false) →
  <[t := (PtySlave, false)]> m !! s = Some (PtySlave, false).
Proof. intros. destruct (decide (t = s)) as [->|]; simplify_map_eq; done. Qed.

(** After the hook of the pty path: the descriptors are those before it with the slave at 0, 1
    and 2, and nowhere else. *)
Lemma pty_hooks_run os c s c' :
  c_fds c !! s = Some (PtySlave, false) →
  run_hooks os c (pty_pre_exec s) = Ok c' →
  limited c' ∧ c_pid c' = c_pid c ∧ c_pgid c' = c_pid c ∧ c_uid c' = c_uid c ∧ c_gid c' = c_gid c ∧
  c_groups c' = c_groups c ∧ c_tty c' = Some PtySlave ∧
  c_fds c' = (let m := <[2 := (PtySlave, false)]> (<[1 := (PtySlave, false)]> (<[0 := (PtySlave, false)]> (c_fds c))) in
              if 2 <? s then delete s m else m).
Proof.
  intros Hfd. unfold pty_pre_exec. rewrite run_hooks_app. intros (c1 & [[Hpid Hpg Huid Hgid Hgr Hf] Hl]%rlimits_run & Hr).
  cbn [app fmap list_fmap] in Hr. rewrite <- Hf in *. clear Hf.
  apply run_hooks_cons in Hr as (_ & c2 & H2 & Hr). cbn in H2. destruct (c_pgid c1 =? c_pid c1); [done |]. injection H2 as <-.
  apply run_hooks_cons in Hr as (_ & c2 & H2 & Hr). cbn in H2. rewrite Hfd in H2. injection H2 as <-.
  do 3 (apply run_hooks_cons in Hr as (_ & ? & Hd & Hr);
        rewrite dup_slave in Hd by (cbn; by repeat apply insert_slave); injection Hd as <-).
  destruct (2 <? s).
  - hook_step Hr. injection Hr as <-. cbn. rewrite Hpid. done.
  - injection Hr as <-. cbn. rewrite Hpid. done.
Qed.

Lemma command_spawn_Ok os cmd child : command_spawn os cmd = Ok child →
  ∃ c, run_hooks os (os_self os) (hooks cmd) = Ok c ∧ child = close_on_exec c.
Proof. unfold command_spawn. intros Hs. inv_result. eauto. Qed.

(** A process of the piped paths, and one of the pty path. *)
Definition piped (os : SpawnOs) (caps : Capabilities) (req : ShellReq) (user : RequestedUser) (p : ShellProcess) : Prop :=
  sp_pty p = false ∧ sr_pty req = None ∧
  ∃ prog argv c, sp_command p = exec_command caps req user prog argv ∧
    (sr_mode req = Exec → sr_argv req = Some (prog :: argv)) ∧
    run_hooks os (os_self os) (install_exec_session_pre_exec ++ install_exec_user_switch user) = Ok c ∧
    sp_child p = close_on_exec c.

Definition on_pty (os : SpawnOs) (caps : Capabilities) (req : ShellReq) (user : RequestedUser) (p : ShellProcess) : Prop :=
  sp_pty p = true ∧ is_Some (sr_pty req) ∧ ru_switch_required user = false ∧
  env (sp_command p) = effective_env (shell caps) req (Some user) ∧
  ∃ m s c, os_openpty os = Ok (m, s) ∧ pty_program req user = Ok (program (sp_command p), args (sp_command p)) ∧
    run_hooks (with_pty os m s) (os_self (with_pty os m s)) (pty_pre_exec s) = Ok c ∧ sp_child p = close_on_exec c.

Lemma spawn_piped_Ok os cmd p : spawn_piped os cmd = Ok p →
  os_id os = Some (sp_pid p) ∧ sp_pid p ≤ I32_MAX ∧ sp_signal_target p = Some (- sp_pid p) ∧ sp_pty p = false ∧
  sp_command p = cmd ∧ ∃ c, run_hooks os (os_self os) (hooks cmd) = Ok c ∧ sp_child p = close_on_exec c.
Proof.
  unfold spawn_piped, process_group_signal_target_from_pid. intros Hs. inv_result. subst p. cbn.
  destruct (Z.leb_spec x0 I32_MAX); simplify_eq. eauto 10 using command_spawn_Ok.
Qed.

Lemma spawn_pty_Ok os caps req user p : spawn_pty_process os caps req user = Ok p →
  os_id os = Some (sp_pid p) ∧ sp_pid p ≤ I32_MAX ∧ sp_signal_target p = Some (- sp_pid p) ∧ on_pty os caps req user p.
Proof.
  unfold spawn_pty_process. intros Hs. inv_result.
  repeat (match goal with x : _ * _ |- _ => destruct x end; inv_result; try unfold spawn_pty_blocking in *; inv_result). subst p.
  match goal with Hc : command_spawn _ _ = _ |- _ => apply command_spawn_Ok in Hc as (? & ? & ?) end.
  simplify_eq. unfold on_pty. cbn [sp_pid sp_signal_target sp_pty sp_command sp_child program args env].
  reflect_bool. destruct (sr_pty req); [| done].
  destruct (ru_switch_required user); [done |].
  split_and!; [done | lia | done.. |]. by eexists _, _, _.
Qed.

Lemma spawn_process_Ok os caps req user p : spawn_process os caps req user = Ok p →
  os_id os = Some (sp_pid p) ∧ sp_pid p ≤ I32_MAX ∧ sp_signal_target p = Some (- sp_pid p) ∧
  (piped os caps req user p ∨ on_pty os caps req user p).
Proof.
  unfold spawn_process. destruct (sr_mode req) eqn:Hm, (sr_pty req) eqn:Hp; intros Hs.
  - apply spawn_pty_Ok in Hs. naive_solver.
  - apply map_err_Ok, spawn_piped_Ok in Hs as (? & ? & ? & ? & ? & c & ? & ?). unfold piped.
    split_and!; [done.. |]. left. split_and!; [done.. |]. eexists _, _, c. by rewrite Hm.
  - apply spawn_pty_Ok in Hs. naive_solver.
  - apply map_err_Ok in Hs. unfold spawn_exec_process in Hs. destruct (sr_argv req) as [[|prog argv]|] eqn:Ha; [done | | done].
    apply spawn_piped_Ok in Hs as (? & ? & ? & ? & ? & c & ? & ?). unfold piped.
    split_and!; [done.. |]. left. split_and!; [done.. |]. by exists prog, argv, c.
Qed.

(** The process leads the group that is signalled. *)
Lemma spawned_group os caps req user p pid :
  spawn_process os caps req user = Ok p → os_id os = Some pid → c_pid (os_self os) = pid →
  c_pgid (sp_child p) = pid ∧ c_pid (sp_child p) = pid ∧ sp_pid p = pid ∧ sp_signal_target p = Some (- pid) ∧ limited (sp_child p).
Proof.
  intros (Hpid & _ & Htgt & Hp)%spawn_process_Ok Hid Hself. rewrite Hid in Hpid. injection Hpid as ->.
  destruct Hp as [(_ & _ & prog & argv & c & _ & _ & Hrun & ->)|(_ & _ & Hsw & _ & m & s & c & _ & _ & Hrun & ->)];
    cbn [close_on_exec set_fds c_pid c_pgid].
  - apply exec_hooks_run in Hrun as (Hl & Hcp & Hcg & _). split_and!; congruence || done.
  - apply pty_hooks_run in Hrun as (Hl & Hcp & Hcg & _); [| by cbn; simplify_map_eq].
    cbn [with_pty os_self set_fds c_pid] in *. split_and!; congruence || done.
Qed.

Lemma resolved_switch euid from_uid from_name user u :
  resolve_requested_user euid from_uid from_name user = Ok u →
  if ru_switch_required u then euid = 0 else ru_uid u = euid.
Proof.
  unfold resolve_requested_user. intros Hr. inv_result. subst u. cbn [ru_switch_required ru_uid].
  destruct (Z.eqb_spec euid 0), (Z.eqb_spec (pw_uid x1) euid); cbn in *; congruence.
Qed.

(** C18: a process that was started for a request is confined.  It runs under the user id the
    password database gives for the requested user; where that is not the agent's own user it
    also has that user's group and no other groups.  It leads a process group of its own, which
    is the group that signals and the reaper address, and it has the resource limits. *)
Theorem spawn_confined os caps req from_uid from_name user p :
  resolve_requested_user (c_uid (os_self os)) from_uid from_name (sr_user req) = Ok user →
  os_id os = Some (c_pid (os_self os)) → 0 < c_pid (os_self os) →
  spawn_process os caps req user = Ok p →
  c_uid (sp_child p) = ru_uid user ∧
  (if ru_switch_required user then c_gid (sp_child p) = ru_gid user ∧ c_groups (sp_child p) = []
   else c_gid (sp_child p) = c_gid (os_self os) ∧ c_groups (sp_child p) = c_groups (os_self os)) ∧
  c_pgid (sp_child p) = c_pid (sp_child p) ∧ c_pid (sp_child p) = sp_pid p ∧
  sp_signal_target p = Some (- sp_pid p) ∧ reaper_pgid p = Some (c_pgid (sp_child p)) ∧ limited (sp_child p).
Proof.
  intros Hres%resolved_switch Hid Hpos (Hpid & Hmax & Htgt & Hp)%spawn_process_Ok. rewrite Hid in Hpid. injection Hpid as Hpid.
  unfold reaper_pgid. rewrite Htgt. cbn [mbind option_bind]. unfold I32_MAX in Hmax.
  rewrite (proj2 (Z.eqb_neq _ _)) by lia. rewrite Z.abs_opp, Z.abs_eq by lia.
  destruct Hp as [(_ & _ & prog & argv & c & _ & _ & Hrun & ->)|(_ & _ & Hsw & _ & m & s & c & _ & _ & Hrun & ->)];
    cbn [close_on_exec set_fds c_uid c_gid c_groups c_pid c_pgid].
  - apply exec_hooks_run in Hrun as (Hl & Hcp & Hcg & Hids).
    destruct (ru_switch_required user); split_and!; naive_solver congruence.
  - apply pty_hooks_run in Hrun as (Hl & Hcp & Hcg & Hu & Hg & Hgr & _); [| by cbn; simplify_map_eq].
    rewrite Hsw in *. cbn [with_pty os_self set_fds c_pid c_uid c_gid c_groups] in *. split_and!; congruence || done.
Qed.

(** An exec request runs a command only where the capabilities allow exec requests, and then
    one of the allowed commands; it gets a terminal only where they allow terminals.  The
    environment is the one of the policy, and nothing of the agent's. *)
Theorem exec_within_allowlist os caps req user p :
  shell_permits caps req = Ok tt → spawn_process os caps req user = Ok p → sr_mode req = Exec →
  env (sp_command p) = effective_env (shell caps) req (Some user) ∧
  ∃ sc, shell caps = Some sc ∧ exec_allowed sc = true ∧ (sp_pty p = true → pty_allowed sc = true) ∧
    ∀ l, command_allowlist sc = Some l → program (sp_command p) ∈ l ∧
      sr_argv req = Some (program (sp_command p) :: args (sp_command p)).
Proof.
  unfold shell_permits. intros Hperm (_ & _ & _ & Hp)%spawn_process_Ok Hm. rewrite Hm in Hperm. split.
  { destruct Hp as [(_ & _ & prog & argv & c & -> & _)|(_ & _ & _ & -> & _)]; done. }
  destruct (shell caps) as [sc|]; [| done]. exists sc. inv_result. split; [done |]. split; [done |]. split.
  - destruct Hp as [(-> & _)|(_ & [? Hpty] & _)]; [done |]. intros _. rewrite Hpty in *. by destruct (pty_allowed sc).
  - intros l Hl. rewrite Hl in *. inv_result.
    match goal with Ha : any_or _ _ _ = _, Hx : _ ≫= head = Some ?x |- _ =>
      apply any_or_Ok in Ha as (y & Hin & ->%bool_decide_eq_true); rename Hx into Hhead end.
    destruct (sr_argv req) as [[|a argv]|] eqn:Ha; [done | | done]. injection Hhead as ->.
    destruct Hp as [(_ & _ & prog & argv' & c & -> & Harg & _)|(_ & _ & _ & _ & m & s & c & _ & Hprog & _)].
    + specialize (Harg Hm). rewrite Ha in Harg. by injection Harg as -> ->.
    + unfold pty_program in Hprog. rewrite Ha in Hprog. by injection Hprog as -> ->.
Qed.

(** Of the pseudoterminal a process is started on, it has the slave as its standard streams
    and as its controlling terminal, and no other descriptor: in particular not the master. *)
Theorem pty_child_descriptors os caps req user p master slave :
  spawn_process os caps req user = Ok p → sp_pty p = true → os_openpty os = Ok (master, slave) → master ≠ slave → 0 ≤ slave →
  (∀ fd f b, c_fds (os_self os) !! fd = Some (f, b) → f = OtherFile) →
  c_tty (sp_child p) = Some PtySlave ∧
  (∀ fd, fd ∈ [0; 1; 2] → c_fds (sp_child p) !! fd = Some (PtySlave, false)) ∧
  ∀ fd f b, c_fds (sp_child p) !! fd = Some (f, b) → f ≠ PtyMaster ∧ (f = PtySlave → fd ∈ [0; 1; 2]).
Proof.
  intros (_ & _ & _ & Hp)%spawn_process_Ok Hpty Hopen Hne Hpos Hother.
  destruct Hp as [(Hf & _)|(_ & _ & _ & _ & m & s & c & Hopen' & _ & Hrun & ->)]; [congruence |].
  rewrite Hopen in Hopen'. injection Hopen' as <- <-.
  apply pty_hooks_run in Hrun as (_ & _ & _ & _ & _ & _ & Htty & Hfds); [| by cbn; simplify_map_eq].
  cbn [close_on_exec set_fds c_tty c_fds with_pty os_self] in *. split; [done |]. rewrite Hfds. clear Hfds Htty. split.
  - intros fd Hfd. apply map_lookup_filter_Some. split; [| done].
    destruct (Z.ltb_spec 2 slave) as [Hs|Hs].
    + rewrite lookup_delete_ne by (set_unfold in Hfd; lia). set_unfold in Hfd. destruct_or?; subst; try done; by simplify_map_eq.
    + set_unfold in Hfd. destruct_or?; subst; try done; by simplify_map_eq.
  - intros fd f b [Hl Hb]%map_lookup_filter_Some. cbn in Hb. subst b.
    assert (Hstd : fd ∈ [0; 1; 2] ∨ (0 ≠ fd ∧ 1 ≠ fd ∧ 2 ≠ fd)).
    { destruct (decide (fd ∈ [0; 1; 2])) as [|Hn]; [by left | right]. set_unfold in Hn. lia. }
    destruct Hstd as [Hin|(H0 & H1 & H2)].
    + split; [| done]. destruct (2 <? slave); [apply lookup_delete_Some in Hl as [_ Hl] |];
        set_unfold in Hin; destruct_or?; subst; by simplify_map_eq.
    + assert (Hlook : fd ≠ slave ∧ <[slave := (PtySlave, false)]> (<[master := (PtyMaster, true)]> (c_fds (os_self os))) !! fd
                      = Some (f, false)).
      { destruct (Z.ltb_spec 2 slave); [apply lookup_delete_Some in Hl as [? Hl]; split; [done |]|split; [lia |]];
          by rewrite (lookup_insert_ne _ 2), (lookup_insert_ne _ 1), (lookup_insert_ne _ 0) in Hl by done. }
      destruct Hlook as [Hs Hlook]. rewrite lookup_insert_ne in Hlook by done.
      apply lookup_insert_Some in Hlook as [[_ [=]]|[_ ->%Hother]]. done.
Qed.

Lemma pty_stop os caps req user : spawn_pty_process os caps req user = Err Panic → sr_argv req = Some [] ∧ ru_switch_required user = false.
Proof.
  unfold spawn_pty_process, pty_program. destruct (ru_switch_required user); [done |].
  destruct (is_some (sr_pty req)); [| done]. destruct (sr_argv req) as [[|prog argv]|]; [done | |];
    cbn [negb ensure mbind result_bind];
    (destruct (spawn_pty_blocking _ _ _ _ _) as [[cmd child]|]; [| done]); cbn [map_err mbind result_bind];
    (destruct (os_id os) as [pid|]; [| done]); cbn [ok_or mbind result_bind]; by destruct (pid <=? I32_MAX).
Qed.

(** Serving a request panics exactly when it asks for a terminal without a change of user and
    carries an empty argument vector; every other failure is a rejection the client is told. *)
Theorem spawn_panics_iff os caps req user :
  spawn_process os caps req user = Err Panic ↔
  is_Some (sr_pty req) ∧ ru_switch_required user = false ∧ sr_argv req = Some [].
Proof.
  unfold spawn_process. split.
  - destruct (sr_mode req), (sr_pty req); intros Hs;
      first [apply pty_stop in Hs; naive_solver | by destruct (spawn_raw_shell_process _ _ _ _) | by destruct (spawn_exec_process _ _ _ _)].
  - intros ([pty Hp] & Hsw & Ha). unfold spawn_pty_process, pty_program.
    destruct (sr_mode req); by rewrite Hp, Hsw, Ha.
Qed.

(** Such a request passes the check of the capabilities. *)
Lemma empty_argv_permitted caps sc req :
  shell caps = Some sc → pty_allowed sc = true → user_allowlist sc = None → sr_mode req = Shell →
  shell_permits caps req = Ok tt.
Proof.
  intros Hsc Hp Hu Hm. unfold shell_permits. rewrite Hsc, Hm, Hp, Hu. cbn. by rewrite andb_false_r.
Qed.

(** ** The reaper *)

Section reaping.
Variable killpg : list Signal → Signal → Killed.
Variable watch : list Signal → Watch.
Variable skip : bool.

Definition watch_wf : Prop := ∀ l, match watch l with Exits d | Closes d => 0 ≤ d | Silent => True end.

Definition exits_within (l : list Signal) (timeout : Z) : Prop := ∃ d, watch l = Exits d ∧ d ≤ timeout.

Lemma wait_spec l timeout r d : watch_wf → 0 ≤ timeout → wait_for_reap_with_timeout (watch l) timeout = (r, d) →
  0 ≤ d ≤ timeout ∧ (r = true ↔ exits_within l timeout).
Proof.
  intros Hwf Ht. specialize (Hwf l). unfold exits_within. destruct (watch l) as [a|a|]; cbn; [destruct (Z.leb_spec a timeout).. |];
    intros [= <- <-]; (split; [lia |]); naive_solver lia.
Qed.

Definition escalation : list Signal := [SIGHUP; SIGTERM; SIGKILL].

Ltac stage := cbn [signals elapsed reaped app]; split_and!; first [done | lia | by eexists | set_solver].

Lemma reap_signal_ind sig past t next (P : Reaped → Prop) :
  watch_wf →
  P {| reaped := true; signals := past; elapsed := t |} →
  (∀ d, sig ≠ SIGKILL → 0 ≤ d ≤ SESSION_REAPER_GRACE → P {| reaped := true; signals := past ++ [sig]; elapsed := t + d |}) →
  (∀ d, sig ≠ SIGKILL → 0 ≤ d ≤ SESSION_REAPER_GRACE → ~ exits_within (past ++ [sig]) SESSION_REAPER_GRACE →
     P (next (past ++ [sig]) (t + d))) →
  (sig = SIGKILL → P (next (past ++ [sig]) t)) →
  P (reap_signal killpg watch sig past t next).
Proof.
  intros Hwf Hgone Hseen Hnext Hkill. unfold reap_signal.
  destruct (decide (sig = SIGKILL)) as [->|Hne]; [destruct (killpg past SIGKILL); eauto |].
  destruct (wait_for_reap_with_timeout (watch (past ++ [sig])) SESSION_REAPER_GRACE) as [r d] eqn:Hw.
  apply wait_spec in Hw as [Hd Hr]; [| done | by vm_compute].
  destruct (killpg past sig), r; [by apply Hseen | | done | done | by apply Hseen |]; apply Hnext; try done;
    by intros Hx%Hr.
Qed.

(** Ending a session escalates: the group gets SIGHUP, then SIGTERM, then SIGKILL, each only
    after the group did not exit within the five seconds of the one before; it is over within
    10.1 seconds; it is reported as not ended only after SIGKILL, and not if the exit is seen
    within 100 ms of that. *)
Theorem reap_escalates g :
  watch_wf →
  let r := reap killpg watch skip (Some g) false in
  signals r `prefix_of` escalation ∧ 0 ≤ elapsed r ≤ 10100 ∧ (reaped r = false → signals r = escalation) ∧
  (SIGTERM ∈ signals r → ~ exits_within [SIGHUP] SESSION_REAPER_GRACE) ∧
  (SIGKILL ∈ signals r → ~ exits_within [SIGHUP; SIGTERM] SESSION_REAPER_GRACE) ∧
  (skip = false → exits_within escalation 100 → reaped r = true).
Proof.
  intros Hwf. unfold reap. cbn [reap_signals].
  pose proof (eq_refl : SESSION_REAPER_GRACE = 5000) as Hg.
  apply reap_signal_ind; [done | | intros d1 _ Hd1 | intros d1 _ Hd1 Hx1 | done]; [stage.. |].
  apply reap_signal_ind; [done | | intros d2 _ Hd2 | intros d2 _ Hd2 Hx2 | done]; [stage.. |].
  apply reap_signal_ind; [done | | done | done | intros _]; [stage |].
  cbn [app]. change [SIGHUP; SIGTERM; SIGKILL] with escalation. destruct skip; [stage |].
  destruct (wait_for_reap_with_timeout (watch escalation) 100) as [r d] eqn:Hw. apply wait_spec in Hw as [Hd Hr]; [| done | lia].
  cbn [signals elapsed reaped]. split_and!; try done; [lia.. |]. intros _. apply Hr.
Qed.

End reaping.

(** ** Examples *)

Module Demo.

(** An agent that runs as root, and a user of its machine. *)
Definition demo_self : Child :=
  {| c_pid := 200; c_pgid := 100; c_sid := 100; c_uid := 0; c_gid := 0; c_groups := [0]; c_limits := λ _, None; c_tty := None;
     c_fds := {[0 := (OtherFile, false)]} |}.
Definition demo_os : SpawnOs :=
  {| os_self := demo_self; os_fork := Ok tt; os_openpty := Ok (7, 8); os_cloexec := Ok tt; os_call := λ _, None;
     os_exec := λ _ _ _ _, None; os_id := Some 200; os_pipe := λ _, true |}.
Definition root : Passwd := {| pw_uid := 0; pw_gid := 0; pw_name := "root"; pw_dir := "/root"; pw_shell := "" |}.
Definition alice : Passwd := {| pw_uid := 1000; pw_gid := 1000; pw_name := "alice"; pw_dir := "/home/alice"; pw_shell := "" |}.
Definition user_of (pw : Passwd) (switch : bool) : RequestedUser :=
  {| ru_uid := pw_uid pw; ru_gid := pw_gid pw; ru_name := pw_name pw; ru_home_dir := pw_dir pw; ru_shell := "/bin/sh";
     ru_switch_required := switch |}.
Definition demo_caps : Capabilities :=
  {| presence := 1; shell := Some {| user_allowlist := None; pty_allowed := true; exec_allowed := true;
                                    command_allowlist := Some ["/bin/ls"]; env_policy := Deny |};
     tcp := None; udp := None; fs := None; vpn := None; meta := None; unix := None |}.
Definition demo_req (pty : option PtyCfg) (user : option string) : ShellReq :=
  {| sr_preamble := {| peer_token := []; alpn := "" |}; sr_mode := Exec; sr_argv := Some ["/bin/ls"; "-l"]; sr_env_patch := [];
     sr_cwd := None; sr_pty := pty; sr_user := user |}.
Definition demo_pty : option PtyCfg := Some {| term := "xterm"; cols := 80; rows := 24 |}.

Abbreviation as_alice := (spawn_process demo_os demo_caps (demo_req None (Some "alice")) (user_of alice true)).
Abbreviation in_pty := (spawn_process demo_os demo_caps (demo_req demo_pty None) (user_of root false)).

Lemma started {E A} (r : result E A) : is_ok r = true → ∃ a, r = Ok a.
Proof. destruct r; [eauto | done]. Qed.

Lemma spawn_confined_witness : ∃ p, as_alice = Ok p ∧ c_uid (sp_child p) = 1000 ∧ c_pgid (sp_child p) = c_pid (sp_child p).
Proof.
  destruct (started as_alice eq_refl) as [p Hp]. exists p. split; [exact Hp |].
  assert (Hc := spawn_confined demo_os demo_caps (demo_req None (Some "alice")) (λ _, Ok (Some root)) (λ _, Ok (Some alice))
    (user_of alice true) p eq_refl eq_refl eq_refl Hp).
  exact (conj (proj1 Hc) (proj1 (proj2 (proj2 Hc)))).
Defined.

Lemma exec_within_allowlist_witness : ∃ p, as_alice = Ok p ∧
  env (sp_command p) = effective_env (shell demo_caps) (demo_req None (Some "alice")) (Some (user_of alice true)).
Proof.
  destruct (started as_alice eq_refl) as [p Hp]. exists p. split; [exact Hp |].
  exact (proj1 (exec_within_allowlist demo_os demo_caps (demo_req None (Some "alice")) (user_of alice true) p eq_refl Hp eq_refl)).
Defined.

Lemma demo_self_other fd f b : c_fds (os_self demo_os) !! fd = Some (f, b) → f = OtherFile.
Proof. cbn. by intros [_ [= <- _]]%lookup_singleton_Some. Qed.

Lemma in_pty_flag p : in_pty = Ok p → sp_pty p = true.
Proof. by intros (_ & _ & _ & [(_ & [=] & _)|[-> _]])%spawn_process_Ok. Qed.

Lemma pty_child_descriptors_witness : ∃ p, in_pty = Ok p ∧ c_tty (sp_child p) = Some PtySlave.
Proof.
  destruct (started in_pty eq_refl) as [p Hp]. exists p. split; [exact Hp |].
  refine (proj1 (pty_child_descriptors demo_os demo_caps (demo_req demo_pty None) (user_of root false) p 7 8
    Hp (in_pty_flag p Hp) eq_refl _ _ demo_self_other)); lia.
Defined.

Lemma reap_escalates_witness :
  signals (reap (λ _ _, Delivered) (λ l, if decide (SIGTERM ∈ l) then Exits 20 else Silent) false (Some 200) false)
  `prefix_of` escalation.
Proof.
  refine (proj1 (reap_escalates (λ _ _, Delivered) (λ l, if decide (SIGTERM ∈ l) then Exits 20 else Silent) false 200 _)).
  intros l. case_decide; [lia | done].
Defined.

End Demo.
