(* ===== verification/ShellPumps.v ===== *)
(** * The streams of a shell session

    crates/portl-agent/src/shell_handler/{pumps,exec_capture}.rs: the tasks that carry the bytes
    between a process and the client.  A direction is a reader that takes chunks from its source,
    a bounded channel, and a consumer that writes them on; a step of the relation is one read, one
    send, one receive, so that every interleaving is a run.

    The output of a process is read by [output_reader_task] and written to the client by
    [pump_output]; the end is the dropped sender, which takes no place in the channel.  Its input
    is read by [pump_stdin] and written by [exec_stdin_task]; the end is a [Close] message. *)

From S2P Require Import Prelude Text Terminal QueryStripper Pty Tmux HerdrLanes HerdrResize ShellSpawn.

Definition IO_CHUNK : nat := 16 * 1024.
Definition CHANNEL : nat := 32.

(** The stripper of the stream, if it has one, and what is written of a chunk. *)
Definition output_chunk_for_wire (st : option Stripper.QueryStripper) (chunk : bytes) : option Stripper.QueryStripper * bytes :=
  match st with
  | Some q => let '(q', out) := Stripper.feed q chunk in (Some q', out)
  | None => (None, chunk)
  end.

(** What the stripper still has at the end of the stream *)
Definition output_tail (st : option Stripper.QueryStripper) : bytes := match st with Some q => (Stripper.finish q).2 | None => [] end.

(** A stream of which the terminal queries are stripped, or not, starts with this. *)
Definition stripper_for (strip : bool) : option Stripper.QueryStripper := if strip then Some Stripper.new else None.

(** What is written of all of [l]: the bytes, or the bytes without the terminal queries *)
Definition on_wire (strip : bool) (l : bytes) : bytes := if strip then (Stripper.feed Stripper.new l).2 else l.

Lemma wire_app strip l b st : (output_chunk_for_wire (stripper_for strip) l).1 = st →
  (output_chunk_for_wire (stripper_for strip) (l ++ b)).1 = (output_chunk_for_wire st b).1 ∧
  on_wire strip (l ++ b) = on_wire strip l ++ (output_chunk_for_wire st b).2.
Proof.
  intros <-. destruct strip; cbn; [| done]. rewrite Stripper.feed_app. destruct (Stripper.feed Stripper.new l) as [q o]. cbn.
  by destruct (Stripper.feed q b).
Qed.

Lemma wire_prefix strip l b : on_wire strip l `prefix_of` on_wire strip (l ++ b).
Proof. destruct (wire_app strip l b _ eq_refl) as [_ ->]. by apply prefix_app_r. Qed.

Lemma output_tail_nil st : output_tail st = [].
Proof. by destruct st. Qed.

Module Relay.

Inductive Message := Data (b : bytes) | End.

Inductive Reader := Reading | Holding (m : Message) | Gone.

(** [given] is all the source got, [taken] what the consumer has received and [sink] what it has written;
    [failed] is set where a read or a write fails. *)
Record State := {
  given : bytes;
  source : bytes;
  source_open : bool;
  reader : Reader;
  chan : list Message;
  attached : bool;
  stripper : option Stripper.QueryStripper;
  taken : bytes;
  sink : bytes;
  ended : bool;
  dropped : bool;
  failed : bool;
}.

Definition set_source (s : State) (g src : bytes) (o : bool) : State :=
  {| given := g; source := src; source_open := o; reader := reader s; chan := chan s; attached := attached s; stripper := stripper s;
     taken := taken s; sink := sink s; ended := ended s; dropped := dropped s; failed := failed s |}.
Definition set_reader (s : State) (src : bytes) (r : Reader) (c : list Message) (f : bool) : State :=
  {| given := given s; source := src; source_open := source_open s; reader := r; chan := c; attached := attached s; stripper := stripper s;
     taken := taken s; sink := sink s; ended := ended s; dropped := dropped s; failed := f |}.
Definition attach_consumer (s : State) : State :=
  {| given := given s; source := source s; source_open := source_open s; reader := reader s; chan := chan s; attached := true; stripper := stripper s;
     taken := taken s; sink := sink s; ended := ended s; dropped := dropped s; failed := failed s |}.

(** The consumer takes a chunk and writes what is left of it without the queries. *)
Definition write_chunk (s : State) (b : bytes) (c : list Message) : State :=
  let '(st, out) := output_chunk_for_wire (stripper s) b in
  {| given := given s; source := source s; source_open := source_open s; reader := reader s; chan := c; attached := attached s; stripper := st;
     taken := taken s ++ b; sink := sink s ++ out; ended := false; dropped := false; failed := failed s |}.

(** At the end of the channel it writes the rest. *)
Definition write_tail (s : State) (c : list Message) : State :=
  {| given := given s; source := source s; source_open := source_open s; reader := reader s; chan := c; attached := attached s; stripper := stripper s;
     taken := taken s; sink := sink s ++ output_tail (stripper s); ended := true; dropped := false; failed := failed s |}.

(** A write of a chunk fails after [w]: the consumer returns and drops the channel. *)
Definition write_part (s : State) (b w : bytes) (c : list Message) : State :=
  {| given := given s; source := source s; source_open := source_open s; reader := reader s; chan := c; attached := attached s; stripper := stripper s;
     taken := taken s ++ b; sink := sink s ++ w; ended := false; dropped := true; failed := true |}.

Section relay.
(** Whether the end is a message of its own, and whether the consumer strips the terminal queries: it does for the output of a session
    shell and of the zmx and tmux providers *)
Variable marker : bool.
Variable strip : bool.

Definition idle_relay (att : bool) : State :=
  {| given := []; source := []; source_open := true; reader := Reading; chan := []; attached := att; stripper := stripper_for strip; taken := []; sink := [];
     ended := false; dropped := false; failed := false |}.

(** The reader at the end of its source. *)
Definition at_end (s : State) : State :=
  if marker then set_reader s [] (Holding End) (chan s) (failed s) else set_reader s [] Gone (chan s ++ [End]) (failed s).

(** The reader after a failed read: it goes away. *)
Definition read_error (s : State) : State :=
  set_reader s (source s) Gone (if marker then chan s else chan s ++ [End]) true.

(** The steps of the tasks. *)
Inductive task_step : State → State → Prop :=
  | read s b rest : reader s = Reading → source s = b ++ rest → b ≠ [] → (length b ≤ IO_CHUNK)%nat →
      task_step s (set_reader s rest (Holding (Data b)) (chan s) (failed s))
  | read_end s : reader s = Reading → source s = [] → source_open s = false → task_step s (at_end s)
  | send s m : reader s = Holding m → dropped s = false → ended s = false → (length (chan s) < CHANNEL)%nat →
      task_step s (set_reader s (source s) (if m is Data _ then Reading else Gone) (chan s ++ [m]) (failed s))
  | send_failed s m : reader s = Holding m → dropped s || ended s = true →
      task_step s (set_reader s (source s) Gone (chan s) true)
  | receive s b c : attached s = true → dropped s = false → ended s = false → chan s = Data b :: c →
      task_step s (write_chunk s b c)
  | receive_end s c : attached s = true → dropped s = false → ended s = false → chan s = End :: c →
      task_step s (write_tail s c).

(** The steps of the surroundings: the source grows and ends, the consumer is attached, a read or
    a write fails. *)
Inductive env_step : State → State → Prop :=
  | give s b : source_open s = true → env_step s (set_source s (given s ++ b) (source s ++ b) true)
  | give_end s : env_step s (set_source s (given s) (source s) false)
  | attached_once s : attached s = false → env_step s (attach_consumer s)
  | read_failed s : reader s = Reading → env_step s (read_error s)
  | write_failed s b w c : attached s = true → dropped s = false → ended s = false → chan s = Data b :: c →
      w `prefix_of` (output_chunk_for_wire (stripper s) b).2 → env_step s (write_part s b w c).

Definition step (s s' : State) : Prop := task_step s s' ∨ env_step s s'.

(** ** Invariant *)

Definition held (s : State) : bytes := if reader s is Holding (Data b) then b else [].

(** The channel has chunks, then the end if the reader is gone. *)
Record shape (s : State) (ds : list bytes) : Prop := {
  sh_chan : chan s = (Data <$> ds) ∨ (chan s = (Data <$> ds) ++ [End] ∧ reader s = Gone);
  sh_room : (length ds ≤ CHANNEL)%nat;
  sh_small : Forall (λ b, length b ≤ IO_CHUNK)%nat ds ∧ (length (held s) ≤ IO_CHUNK)%nat;
  sh_bytes : dropped s = false → taken s ++ concat ds ++ held s ++ source s = given s;
}.

Record inv (s : State) : Prop := {
  i_shape : ∃ ds, shape s ds;
  i_prefix : taken s `prefix_of` given s;
  i_written : if dropped s then sink s `prefix_of` on_wire strip (taken s) else sink s = on_wire strip (taken s);
  i_stripper : dropped s = false → stripper s = (output_chunk_for_wire (stripper_for strip) (taken s)).1;
  i_gone : failed s = false → reader s = Gone ∨ reader s = Holding End → source s = [] ∧ source_open s = false;
  i_ended : ended s = true → chan s = [] ∧ reader s = Gone;
  i_dropped : dropped s = true → failed s = true;
  i_marked : failed s = false → reader s = Gone → ended s = true ∨ End ∈ chan s;
}.

Lemma relay_inv_new att : inv (idle_relay att).
Proof.
  split; [| done | | | by intros _ [|] | done | done | done]; [| cbn; by destruct strip..].
  exists []. split; [by left | apply Nat.le_0_l | split; [done | apply Nat.le_0_l] | done].
Qed.

Lemma shape_chan_Data s ds b c : shape s ds → chan s = Data b :: c → ∃ ds', ds = b :: ds'.
Proof.
  intros [[->|[-> _]] _ _ _]; destruct ds as [|d ds']; try done; cbn; intros [= -> _]; eauto.
Qed.

Lemma shape_chan_End s ds c : shape s ds → chan s = End :: c → ds = [] ∧ c = [] ∧ reader s = Gone.
Proof. intros [[->|[-> Hg]] _ _ _]; destruct ds; try done. by intros [= <-]. Qed.

(** While the reader is there, the channel has chunks only. *)
Lemma shape_reading s ds : shape s ds → reader s ≠ Gone → chan s = Data <$> ds.
Proof. by intros [[->|[_ ?]] _ _ _]. Qed.

Lemma relay_inv_read s b rest : inv s → reader s = Reading → source s = b ++ rest → (length b ≤ IO_CHUNK)%nat →
  inv (set_reader s rest (Holding (Data b)) (chan s) (failed s)).
Proof.
  intros [[ds Hsh] Hp Hw Hst Hg He Hd Hmk] Hr Hsrc Hb. pose proof (shape_reading s ds Hsh ltac:(by rewrite Hr)) as Hc.
  destruct Hsh as [_ Hroom [Hsm _] Hbytes]. split; cbn; [| done | done | done | by intros _ [|] | | done | done].
  - exists ds. split; cbn; [by left | done | done |]. intros Hdr. specialize (Hbytes Hdr).
    unfold held in Hbytes. rewrite Hr, Hsrc in Hbytes. done.
  - intros Hen. destruct (He Hen). congruence.
Qed.

(** The reader goes away, with the end in the channel or without it. *)
Lemma relay_inv_leave s src r c f :
  inv s → (reader s = Reading ∨ reader s = Holding End) → src = source s → (failed s = true → f = true) →
  (r = Gone ∧ ((c = chan s ∧ f = true) ∨ c = chan s ++ [End])) ∨ (r = Holding End ∧ c = chan s) →
  (f = false → source s = [] ∧ source_open s = false) →
  inv (set_reader s src r c f).
Proof.
  intros [[ds Hsh] Hp Hw Hst Hg He Hd Hmk] Hr -> Hf Hrc Hsrc.
  assert (Hheld : held s = []) by (unfold held; by destruct Hr as [-> | ->]).
  pose proof (shape_reading s ds Hsh ltac:(by destruct Hr as [-> | ->])) as Hc.
  destruct Hsh as [_ Hroom [Hsm _] Hbytes]. rewrite Hheld in Hbytes.
  assert (Hheld' : held (set_reader s (source s) r c f) = []) by (unfold held; cbn; by destruct Hrc as [[-> _]|[-> _]]).
  split; cbn; [| done | done | done | | | |].
  - exists ds. split; [| done | rewrite Hheld'; split; [done | apply Nat.le_0_l] | by rewrite Hheld'].
    cbn. rewrite <- Hc. destruct Hrc as [[-> [[-> _] | ->]]|[-> ->]]; auto.
  - intros Hff _. by apply Hsrc.
  - intros Hen. destruct (He Hen) as [_ Hgone]. destruct Hr; congruence.
  - auto.
  - intros Hff Hg'. right. destruct Hrc as [[_ [[_ ?] | ->]]|[? _]]; [congruence | | congruence]. set_solver.
Qed.

Lemma relay_inv_send s b : inv s → reader s = Holding (Data b) → (length (chan s) < CHANNEL)%nat →
  inv (set_reader s (source s) Reading (chan s ++ [Data b]) (failed s)).
Proof.
  intros [[ds Hsh] Hp Hw Hst Hg He Hd Hmk] Hr Hroom. pose proof (shape_reading s ds Hsh ltac:(by rewrite Hr)) as Hc.
  destruct Hsh as [_ _ [Hsm Hh] Hbytes]. unfold held in Hh, Hbytes. rewrite Hr in Hh, Hbytes.
  split; cbn; [| done | done | done | by intros _ [|] | | done | done].
  - exists (ds ++ [b]). split; cbn.
    + left. by rewrite Hc, fmap_app.
    + rewrite Hc, length_fmap in Hroom. rewrite length_app. cbn [length]. lia.
    + split; [| apply Nat.le_0_l]. apply Forall_app. auto.
    + intros Hdr. rewrite <- (Hbytes Hdr), concat_app. cbn. by rewrite app_nil_r, <- !app_assoc.
  - intros Hen. destruct (He Hen). congruence.
Qed.

(** The first chunk is taken. *)
Lemma shape_take s ds b c : shape s ds → dropped s = false → chan s = Data b :: c →
  ∃ ds', (c = (Data <$> ds') ∨ (c = (Data <$> ds') ++ [End] ∧ reader s = Gone)) ∧ (length ds' ≤ CHANNEL)%nat ∧
    Forall (λ b, length b ≤ IO_CHUNK)%nat ds' ∧ (taken s ++ b) ++ concat ds' ++ held s ++ source s = given s.
Proof.
  intros Hsh Hdr Hc. destruct (shape_chan_Data s ds b c Hsh Hc) as [ds' ->]. destruct Hsh as [Hch Hroom [Hsm Hh] Hbytes].
  specialize (Hbytes Hdr). cbn [concat] in Hbytes. apply Forall_cons in Hsm as [_ Hsm]. exists ds'. split_and!; [| cbn in Hroom; lia | done |].
  - rewrite Hc in Hch. destruct Hch as [[= ->]|[[= ->] Hgone]]; auto.
  - rewrite <- Hbytes, <- !app_assoc. done.
Qed.

Lemma relay_inv_receive s b c : inv s → dropped s = false → ended s = false → chan s = Data b :: c → inv (write_chunk s b c).
Proof.
  intros [[ds Hsh] Hp Hw Hst Hg He Hd Hmk] Hdr Hen Hc. rewrite Hdr in Hw. destruct (shape_take s ds b c Hsh Hdr Hc) as (ds' & Hch & Hroom & Hsm & Hbytes).
  destruct (wire_app strip (taken s) b (stripper s)) as [H1 H2]; [by rewrite Hst |].
  unfold write_chunk. destruct (output_chunk_for_wire (stripper s) b) as [st out]. cbn [fst snd] in H1, H2.
  split; cbn; [| | by rewrite Hw, H2 | by rewrite H1 | done | done | done |].
  - exists ds'. split; try done. split; [done | apply Hsh].
  - rewrite <- Hbytes. by apply prefix_app_r.
  - intros Hf Hr. destruct (Hmk Hf Hr) as [|Hin]; [congruence | rewrite Hc in Hin; set_solver].
Qed.

Lemma relay_inv_receive_end s c : inv s → dropped s = false → chan s = End :: c → inv (write_tail s c).
Proof.
  intros [[ds Hsh] Hp Hw Hst Hg He Hd Hmk] Hdr Hc. destruct (shape_chan_End s ds c Hsh Hc) as (-> & -> & Hgone). rewrite Hdr in Hw.
  destruct Hsh as [_ Hroom [Hsm Hh] Hbytes]. split; cbn; rewrite ?output_tail_nil, ?app_nil_r; try done; auto.
  exists []. split; cbn; [by left | done | done |]. intros _. by apply Hbytes.
Qed.

Lemma relay_inv_write_failed s b w c : inv s → dropped s = false → ended s = false → chan s = Data b :: c →
  w `prefix_of` (output_chunk_for_wire (stripper s) b).2 → inv (write_part s b w c).
Proof.
  intros [[ds Hsh] Hp Hw Hst Hg He Hd Hmk] Hdr Hen Hc Hpre. rewrite Hdr in Hw. destruct (shape_take s ds b c Hsh Hdr Hc) as (ds' & Hch & Hroom & Hsm & Hbytes).
  destruct (wire_app strip (taken s) b (stripper s)) as [_ H2]; [by rewrite Hst |].
  split; cbn; try done.
  - exists ds'. split; try done. split; [done | apply Hsh].
  - rewrite <- Hbytes. by apply prefix_app_r.
  - rewrite Hw, H2. by apply prefix_app.
Qed.

Lemma relay_inv_send_failed s m : inv s → reader s = Holding m → dropped s || ended s = true →
  inv (set_reader s (source s) Gone (chan s) true).
Proof.
  intros [[ds Hsh] Hp Hw Hst Hg He Hd Hmk] Hr Hde.
  assert (Hen : ended s = false) by (destruct (ended s); [destruct (He eq_refl); congruence | done]).
  rewrite Hen, orb_false_r in Hde. pose proof (shape_reading s ds Hsh ltac:(by rewrite Hr)) as Hc.
  destruct Hsh as [_ Hroom [Hsm _] _]. split; cbn; [| done | done | done | done | by rewrite Hen | done | done].
  exists ds. split; cbn; [by left | done | split; [done | apply Nat.le_0_l] | by rewrite Hde].
Qed.

(** The source only grows and the flags only change. *)
Lemma relay_inv_source s b o : inv s → (b = [] ∨ source_open s = true) → (source_open s = false → o = false) →
  inv (set_source s (given s ++ b) (source s ++ b) o).
Proof.
  intros [[ds Hsh] Hp Hw Hst Hg He Hd Hmk] Hb Ho. destruct Hsh as [Hch Hroom Hsm Hbytes]. split; cbn; [| | done | done | | done | done | done].
  - exists ds. split; try done. cbn. intros Hdr. rewrite <- (Hbytes Hdr). by rewrite <- !app_assoc.
  - by apply prefix_app_r.
  - intros Hf Hr. destruct (Hg Hf Hr) as [-> Hso]. destruct Hb as [-> | Hb]; [auto | congruence].
Qed.

Lemma relay_inv_task s s' : task_step s s' → inv s → inv s'.
Proof.
  intros Hstep Hi. destruct Hstep as [s b rest Hr Hs _ Hb|s Hr Hs Ho|s [b|] Hr Hd He Hl|s m Hr Hde|s b c Ha Hd He Hc|s c Ha Hd He Hc].
  - by apply relay_inv_read.
  - unfold at_end. destruct marker; apply relay_inv_leave; auto.
  - by apply relay_inv_send.
  - apply relay_inv_leave; auto. intros Hf. by apply (i_gone s Hi); [| right].
  - by eapply relay_inv_send_failed.
  - by apply relay_inv_receive.
  - by apply relay_inv_receive_end.
Qed.

Lemma relay_inv_env s s' : env_step s s' → inv s → inv s'.
Proof.
  intros Hstep Hi. destruct Hstep as [s b Ho|s|s Ha|s Hr|s b b' c Ha Hd He Hc].
  - apply relay_inv_source; auto. congruence.
  - pose proof (relay_inv_source s [] false Hi) as Hx. rewrite !app_nil_r in Hx. auto.
  - destruct Hi as [[ds []] ? ? ? ? ? ? ?]. by split; [exists ds; split | ..].
  - unfold read_error. apply relay_inv_leave; auto; [| done]. left. destruct marker; auto.
  - by eapply relay_inv_write_failed.
Qed.

Lemma relay_inv_reachable att s : rtc step (idle_relay att) s → inv s.
Proof.
  apply (rtc_ind_r inv (idle_relay att) (relay_inv_new att)). intros x y _ [Hs|Hs] Hi; eauto using relay_inv_task, relay_inv_env.
Qed.

(** ** Termination *)

Definition reader_rank (r : Reader) : nat := match r with Reading => 3 | Holding (Data _) => 5 | Holding End => 2 | Gone => 0 end.

Definition relay_rank (s : State) : nat := (3 * length (source s) + reader_rank (reader s) + length (chan s))%nat.

Lemma relay_rank_decreases s s' : task_step s s' → (relay_rank s' < relay_rank s)%nat.
Proof.
  unfold relay_rank. intros Hstep.
  destruct Hstep as [s b rest Hr Hs Hne Hb|s Hr Hs Ho|s m Hr Hd He Hl|s m Hr Hde|s b c Ha Hd He Hc|s c Ha Hd He Hc].
  - cbn. rewrite Hr, Hs, length_app. destruct b; [done |]. cbn. lia.
  - unfold at_end. rewrite Hr, Hs. destruct marker; cbn; rewrite ?length_app; cbn; lia.
  - cbn. rewrite Hr, length_app. destruct m; cbn; lia.
  - cbn. rewrite Hr. destruct m; cbn; lia.
  - unfold write_chunk. destruct (output_chunk_for_wire _ _). cbn. rewrite Hc. cbn. lia.
  - cbn. rewrite Hc. cbn. lia.
Qed.

Lemma relay_sn s : sn task_step s.
Proof.
  remember (relay_rank s) as n eqn:Hn. revert s Hn. induction (lt_wf n) as [n _ IH]. intros s ->. constructor.
  intros s' Hs. by eapply IH; [apply relay_rank_decreases |].
Qed.

(** Where the tasks rest with a consumer attached and nothing failed, nothing is under way. *)
Lemma relay_rest s : inv s → nf task_step s → attached s = true → failed s = false →
  chan s = [] ∧ source s = [] ∧ held s = [] ∧ (source_open s = false → ended s = true).
Proof.
  intros [[ds Hsh] Hp Hw Hst Hg He Hd Hmk] Hnf Hatt Hf. unfold nf, red in Hnf.
  assert (Hdr : dropped s = false) by (destruct (dropped s); [by rewrite Hd in Hf | done]).
  assert (Hc : chan s = []).
  { destruct (ended s) eqn:Hen; [by apply He |]. destruct (chan s) as [|[b|] c] eqn:Hc; [done |..];
      destruct Hnf; eexists; [by eapply receive | by eapply receive_end]. }
  rewrite Hc in Hmk. destruct (reader s) as [|m|] eqn:Hr.
  - destruct (source s) as [|b0 rest] eqn:Hs.
    + unfold held. rewrite Hr. split_and!; try done. intros Ho. destruct Hnf. eexists. by apply read_end.
    + destruct Hnf. eexists. apply (read s [b0] rest); try done. cbn. unfold IO_CHUNK. lia.
  - destruct Hnf. eexists. eapply send; [done | done | | rewrite Hc; unfold CHANNEL; cbn; lia].
    destruct (ended s); [by destruct (He eq_refl) |done].
  - unfold held. rewrite Hr. destruct (Hg Hf (or_introl eq_refl)) as [-> _]. split_and!; try done. intros _.
    destruct (Hmk Hf eq_refl) as [|Hin]; [done |]. by apply elem_of_nil in Hin.
Qed.

Lemma task_fixed s s' : rtc task_step s s' → given s' = given s ∧ attached s' = attached s ∧ source_open s' = source_open s.
Proof.
  induction 1 as [|s s1 s' Hstep _ IH]; [done |]. destruct IH as (-> & -> & ->).
  destruct Hstep; try done; [unfold at_end; by destruct marker | unfold write_chunk; by destruct (output_chunk_for_wire _ _)].
Qed.

Lemma task_inv_reached s s' : rtc task_step s s' → inv s → inv s'.
Proof. induction 1; eauto using relay_inv_task. Qed.

(** Bytes are carried in order and none is invented: what the consumer has written is at any
    time a prefix of what the source was given, without the terminal queries where they are stripped, and all of it when the
    consumer has seen the end and no read or write failed.  At most 32 chunks and the one in the hands of the reader are
    buffered. *)
Theorem relay_in_order att s : rtc step (idle_relay att) s →
  sink s `prefix_of` on_wire strip (given s) ∧
  (ended s = true → failed s = false → sink s = on_wire strip (given s) ∧ source_open s = false) ∧
  ∃ ds, (chan s = Data <$> ds ∨ chan s = (Data <$> ds) ++ [End]) ∧
    (length (concat ds) + length (held s) ≤ 33 * IO_CHUNK)%nat.
Proof.
  intros [[ds [Hch Hroom [Hsm Hh] Hbytes]] [rest Hp] Hw _ Hg He Hd _]%relay_inv_reachable. split.
  { rewrite Hp. transitivity (on_wire strip (taken s)); [| apply wire_prefix]. destruct (dropped s); [done | by rewrite Hw]. }
  split.
  { intros Hen Hf. destruct (He Hen) as [Hc Hr]. destruct (Hg Hf (or_introl Hr)) as [Hs Ho]. split; [| done].
    assert (Hdr : dropped s = false) by (destruct (dropped s); [by rewrite Hd in Hf | done]). rewrite Hdr in Hw.
    rewrite <- Hbytes by done. unfold held. rewrite Hr, Hs. rewrite Hc in Hch. destruct ds, Hch as [Hch|[Hch _]]; try done. cbn. by rewrite app_nil_r. }
  exists ds. split; [naive_solver |].
  enough (length (concat ds) ≤ length ds * IO_CHUNK)%nat by (unfold CHANNEL in Hroom; nia).
  clear -Hsm. induction Hsm as [|d ds Hd _ IH]; [done |]. cbn [concat length]. rewrite length_app. lia.
Qed.

(** C22: nothing is left behind: from every reachable state the tasks come to rest, and where they
    rest with a consumer attached and no failed read or write, all that the source was given has
    been written, without the terminal queries where the consumer strips them; if the source has ended, so has the consumer. *)
Theorem relay_delivers att s : rtc step (idle_relay att) s →
  sn task_step s ∧
  ∀ s', rtc task_step s s' → nf task_step s' → attached s = true → failed s' = false →
    sink s' = on_wire strip (given s) ∧ (source_open s = false → ended s' = true).
Proof.
  intros Hi%relay_inv_reachable. split; [apply relay_sn |]. intros s' Hrun Hnf Hatt Hf.
  destruct (task_fixed s s' Hrun) as (Hgiv & Ha & Ho). pose proof (task_inv_reached s s' Hrun Hi) as Hi'.
  destruct (relay_rest s' Hi' Hnf) as (Hc & Hs & Hh & Hend); [congruence | done |]. split; [| by rewrite <- Ho].
  destruct Hi' as [[ds [Hch _ _ Hbytes]] _ Hw _ _ _ Hd _]. rewrite Hc in Hch. rewrite <- Hgiv.
  assert (ds = []) as -> by (destruct ds, Hch as [Hch|[Hch _]]; done).
  assert (Hdr : dropped s' = false) by (destruct (dropped s'); [by rewrite Hd in Hf | done]). rewrite Hdr in Hw.
  rewrite <- Hbytes, Hs, Hh by done. cbn. by rewrite app_nil_r.
Qed.

End relay.
End Relay.

(** ** The output, as the client gets it *)

Fixpoint pump_chunks (st : option Stripper.QueryStripper) (chunks : list bytes) : option Stripper.QueryStripper * bytes :=
  match chunks with
  | [] => (st, [])
  | chunk :: rest =>
      let '(st, out) := output_chunk_for_wire st chunk in
      let '(st, outs) := pump_chunks st rest in (st, out ++ outs)
  end.

(** [pump_output] up to the end of the channel: chunks, then what the stripper still has. *)
Definition pump_output (strip : bool) (chunks : list bytes) : bytes :=
  let '(st, out) := pump_chunks (stripper_for strip) chunks in
  out ++ output_tail st.

(** [ShellOutput]: the channel, or [None] once it is taken; a pty has no stderr of its own. *)
Inductive ShellOutput := Channel (rx : bool) | EmptyUntilClosed.

Definition take_channel (o : ShellOutput) : result string bool * ShellOutput :=
  match o with
  | Channel true => (Ok true, Channel false)
  | Channel false => (Err "stream already attached", o)
  | EmptyUntilClosed => (Ok false, o)
  end.

(** ** Signals, resizes and the exit code *)

Inductive SignalEffect := Kill (target sig : Z) | Interrupt.

Definition pump_signal (target : option Z) (sig : Z) : list SignalEffect :=
  match target with
  | Some _ => (λ ts, Kill ts.1 ts.2) <$> send_signal target sig
  | None => if sig =? 2 then [Interrupt] else []
  end.

Definition pump_signals (target : option Z) (frames : list Z) : list SignalEffect := frames ≫= pump_signal target.

(** The resizes of a shell session go through an unbounded channel. *)
Definition shell_resize_step : Resize.State (Z * Z) → Resize.State (Z * Z) → Prop := Resize.step false.

Definition code_of_status (code : option Z) : Z := default 1 code.

(** [wait_process_exit]: the stored code, the value of the watch, then its changes. *)
Fixpoint first_code (l : list (option Z)) : option Z :=
  match l with
  | [] => None
  | Some code :: _ => Some code
  | None :: l' => first_code l'
  end.

Definition wait_process_exit (stored current : option Z) (changes : list (option Z)) : result string Z :=
  ok_or (first_code (stored :: current :: changes)) "wait for shell exit".

Lemma pump_chunks_feed q chunks :
  pump_chunks (Some q) chunks = (Some (Stripper.feed q (concat chunks)).1, (Stripper.feed q (concat chunks)).2).
Proof.
  revert q. induction chunks as [|c chunks IH]; intros q; [done |]. cbn [pump_chunks output_chunk_for_wire concat].
  rewrite Stripper.feed_app. destruct (Stripper.feed q c) as [q1 o1]. rewrite IH. cbn.
  by destruct (Stripper.feed q1 (concat chunks)).
Qed.

Lemma pump_chunks_plain chunks : pump_chunks None chunks = (None, concat chunks).
Proof. induction chunks as [|c chunks IH]; [done |]. cbn [pump_chunks output_chunk_for_wire concat]. by rewrite IH. Qed.

(** How the output of a process is cut into chunks makes no difference to the client: it gets
    all bytes, or all bytes without the terminal queries. *)
Lemma pump_output_wire strip chunks : pump_output strip chunks = on_wire strip (concat chunks).
Proof.
  unfold pump_output, on_wire. destruct strip; cbn [stripper_for]; [rewrite pump_chunks_feed | rewrite pump_chunks_plain]; by rewrite output_tail_nil, app_nil_r.
Qed.

(** What the task of a tmux session gives the channel of the output *)
Definition stdout_chunks (outs : list TmuxOut) : list bytes := outs ≫= λ o, match o with ToStdout b => [b] | ToStderr _ => [] end.

(** C31: what panes write reaches the client: the notifications of tmux, in either form, with the bytes of the
    panes in them, read in chunks cut anywhere, make the task send exactly those bytes, in order and each once,
    provided that the lines are UTF-8; and the client is written these bytes without the terminal queries in them. *)
Theorem tmux_output_exact io t datas lines cs : decoder t = Normal → line_buf t = [] → pending_initial_commands t = None →
  Forall2 notification datas lines → concat cs = concat lines →
  ∃ t', read_chunks io t cs = Ok t' ∧ tmux_out t' = tmux_out t ++ (ToStdout <$> datas) ∧ line_buf t' = [] ∧ decoder t' = Normal ∧
    pump_output true (stdout_chunks (tmux_out t')) = on_wire true (concat (stdout_chunks (tmux_out t)) ++ concat datas).
Proof.
  intros Hdec Hbuf Hi Hn Hcs. destruct (notifications_read io t datas lines cs Hdec Hbuf Hi Hn Hcs) as (t' & Hr & Ho & Hb & Hd).
  exists t'. split_and!; try done. rewrite pump_output_wire, Ho. unfold stdout_chunks. rewrite bind_app, concat_app. do 2 f_equal.
  clear. induction datas as [|d datas IH]; [done |]. cbn. by rewrite IH.
Qed.

(** The signals a client sends reach the process group of its own process and no other. *)
Theorem signals_confined os caps req user p frames e :
  spawn_process os caps req user = Ok p → os_id os = Some (c_pid (os_self os)) → 1 < c_pid (os_self os) →
  e ∈ pump_signals (sp_signal_target p) frames →
  ∃ sig, e = Kill (- c_pgid (sp_child p)) sig ∧ 1 < c_pgid (sp_child p) ∧ 1 ≤ sig ≤ 31 ∧ sig ∈ frames.
Proof.
  intros Hp Hid Hpid He. eapply spawned_group in Hp as (-> & _ & _ & Hs & _); [| done | done].
  apply list_elem_of_bind in He as (sig & He & Hin). unfold pump_signal, send_signal in He. rewrite Hs in He.
  destruct (1 <=? sig) eqn:H1, (sig <=? 31) eqn:H2; cbn in He; try by apply elem_of_nil in He.
  apply list_elem_of_singleton in He as ->. exists sig. split_and!; [done | done | lia | lia | done].
Qed.

(** ** Examples *)

Module Demo.
Import Relay ShellSpawn.Demo.

(** The process asked for the cursor's position, wrote two bytes and exited: the query is not written. *)
Definition said : bytes := [27; 91; 54; 110; 104; 105].
Definition idle : State := Eval vm_compute in idle_relay true true.
Definition wrote : State := Eval vm_compute in set_source (set_source idle said said true) said said false.

Lemma wrote_reachable : rtc (step false) idle wrote.
Proof.
  eapply rtc_l; [right; by apply (give false idle said) |]. eapply rtc_l; [right; by apply give_end |]. done.
Qed.

Definition held_all : State := Eval vm_compute in set_reader wrote [] (Holding (Data said)) [] false.
Definition sent : State := Eval vm_compute in set_reader wrote [] Reading [Data said] false.
Definition read_all : State := Eval vm_compute in set_reader wrote [] Gone [Data said; End] false.
Definition written : State := Eval vm_compute in write_chunk read_all said [End].
Definition carried : State := Eval vm_compute in write_tail written [].

Lemma wrote_carried : rtc (task_step false) wrote carried.
Proof.
  eapply rtc_l; [apply (read false wrote said []); try done; unfold IO_CHUNK; cbn; lia |].
  eapply rtc_l; [eapply (send false held_all); try done; unfold CHANNEL; cbn; lia |].
  eapply rtc_l; [by apply (read_end false sent) |]. eapply rtc_l; [by apply (receive false read_all said [End]) |].
  eapply rtc_l; [by apply (receive_end false written []) |]. done.
Qed.

Lemma carried_nf : nf (task_step false) carried.
Proof. intros [s Hs]. by inversion Hs. Qed.

Lemma relay_in_order_witness : sink wrote `prefix_of` on_wire true (given wrote).
Proof. exact (proj1 (relay_in_order false true true wrote wrote_reachable)). Defined.

Lemma relay_delivers_witness : sink carried = on_wire true (given wrote) ∧ sink carried = [104; 105].
Proof.
  split; [| reflexivity].
  exact (proj1 (proj2 (relay_delivers false true true wrote wrote_reachable) carried wrote_carried carried_nf eq_refl eq_refl)).
Defined.

(** A query for the cursor, [hé] and a newline, cut in the middle of a line *)
Definition query_line : bytes := str_bytes "%output %1 \033[6n" ++ [10].

Lemma tmux_output_exact_witness : ∃ t', read_chunks (Tmux.Demo.ready WouldBlock) Tmux.Demo.attached [take 30 (query_line ++ concat Tmux.Demo.lines); drop 30 (query_line ++ concat Tmux.Demo.lines)] = Ok t' ∧
  tmux_out t' = [] ++ [ToStdout [27; 91; 54; 110]; ToStdout [104; 195; 169]; ToStdout [10]] ∧ line_buf t' = [] ∧ decoder t' = Normal ∧
  pump_output true (stdout_chunks (tmux_out t')) = [104; 195; 169; 10].
Proof.
  apply (tmux_output_exact (Tmux.Demo.ready WouldBlock) Tmux.Demo.attached [[27; 91; 54; 110]; [104; 195; 169]; [10]] (query_line :: Tmux.Demo.lines));
    [done | done | done | constructor; [| exact Tmux.Demo.lines_notify] | reflexivity].
  apply (plain_output (str_bytes "%1") [27; 91; 54; 110] (str_bytes "\033[6n") [10]); [by repeat constructor | | done | by left].
  apply (encodes_octal 27); [done |]. do 3 (apply encodes_raw; [done | done |]). constructor.
Defined.

Lemma alice_target p : as_alice = Ok p → Kill (-200) 15 ∈ pump_signals (sp_signal_target p) [15].
Proof. intros Hp. eapply spawned_group in Hp as (_ & _ & _ & -> & _); [| done..]. by left. Qed.

Lemma signals_confined_witness : ∃ p sig, as_alice = Ok p ∧ Kill (-200) 15 = Kill (- c_pgid (sp_child p)) sig.
Proof.
  destruct (started as_alice eq_refl) as [p Hp].
  destruct (signals_confined demo_os demo_caps (demo_req None (Some "alice")) (user_of alice true) p [15] (Kill (-200) 15)
    Hp eq_refl eq_refl (alice_target p Hp)) as (sig & He & _).
  exists p, sig. split; [exact Hp | exact He].
Defined.

End Demo.
