(* ===== verification/AttachDisplay.v ===== *)
(** * The terminal of an attached client

    What crates/portl-cli/src/commands/session.rs puts between a session and the user's terminal:
    the sanitizer that removes queries and answers to queries from the output, the tracker that
    resets keyboard modes a program leaves behind, the gate that holds output back while the
    control bar is drawn, and the sequences written when raw mode ends.  The bar itself is from
    crates/portl-core/src/attach_control.rs.

    A Rust [String] is here the list of its characters. *)

From stdpp Require Import pretty.
From S2P Require Import Prelude Bytes Text Steps Terminal ModeTracker.

(** ** The control bar *)

Module Bar.

Definition text (s : string) : list Z := str_bytes s.

Record RenderBarOptions := {
  canonical_ref : list Z;
  supports_kick_others : bool;
  supports_reload : bool;
  paste_cancellable : bool;
  remaining_ms : Z;
  unicode : bool;
  color : bool;
}.

Definition RESET : list Z := [ESC; 91; 48; 109].

Definition styled (t sgr : list Z) (color : bool) : list Z := if color then sgr ++ t ++ RESET else t.

Fixpoint join (sep : list Z) (parts : list (list Z)) : list Z :=
  match parts with
  | [] => []
  | [p] => p
  | p :: parts' => p ++ sep ++ join sep parts'
  end.

Definition div_ceil (a b : Z) : Z := (a + b - 1) / b.

Definition DIM : list Z := [ESC; 91; 50; 109].

Definition render_bar (o : RenderBarOptions) : list Z :=
  let tenths := Z.min (div_ceil (remaining_ms o) 100) 99 in
  let time := text (dec (tenths / 10)) ++ text "." ++ text (dec (tenths `mod` 10)) ++ text "s" in
  let '(lead, arrow, sep) := if unicode o then ([9612], [8250], [183]) else (text "|", text ">", text "|") in
  let prefix := styled (lead ++ text " Portl " ++ arrow) ([ESC] ++ text "[1;36m") (color o) in
  let sep := styled sep DIM (color o) in
  let key v := styled v ([ESC] ++ text "[1;33m") (color o) in
  let label v := styled v DIM (color o) in
  let timer := styled time DIM (color o) in
  let item k l := sep ++ text " " ++ key (text k) ++ text " " ++ label (text l) in
  join (text " ") (
    [prefix ++ text " " ++ canonical_ref o ++ text "  " ++ sep ++ text "  " ++ key (text "d") ++ text " " ++ label (text "detach")]
    ++ (if supports_kick_others o then [item "k" "kick"] else [])
    ++ (if supports_reload o then [item "r" "reload"] else [])
    ++ [item "^\" "send"]
    ++ (if paste_cancellable o then [item "c" "cancel paste"] else [])
    ++ [item "Esc" "cancel"]
    ++ [sep ++ text " " ++ timer]).

(** An escape sequence goes up to its [m], or to the end. *)
Fixpoint visible_width_from (in_escape : bool) (t : list Z) : nat :=
  match t with
  | [] => 0
  | ch :: t' =>
      if in_escape then visible_width_from (negb (ch =? 109)) t'
      else if ch =? ESC then visible_width_from true t'
      else S (visible_width_from false t')
  end.

Definition visible_width (t : list Z) : nat := visible_width_from false t.

(** The loop of [fit_visible], with room for [room] characters *)
Fixpoint fit_from (in_escape : bool) (room : nat) (t : list Z) : list Z :=
  match t with
  | [] => []
  | ch :: t' =>
      if in_escape then ch :: fit_from (negb (ch =? 109)) room t'
      else if ch =? ESC then ch :: fit_from true room t'
      else match room with O => [] | S room' => ch :: fit_from false room' t' end
  end.

Definition ELLIPSIS : Z := 8230.

Definition fit_visible (t : list Z) (cols : Z) : list Z :=
  let max := Z.to_nat (Z.max cols 1) in
  if (visible_width t <=? max)%nat then t
  else if (max <=? 1)%nat then [ELLIPSIS]
  else fit_from false (max - 1) t ++ [ELLIPSIS] ++ RESET.

(** [draw_attach_control_bar_to]: the characters written at once *)
Definition draw_attach_control_bar_to (row cols : Z) (t : list Z) : list Z :=
  let place := [ESC] ++ text "[0m" ++ [ESC] ++ text "7" ++ [ESC] ++ text "[" ++ text (dec (Z.max row 1)) ++ text ";1H" ++ [ESC] ++ text "[2K" in
  match t with
  | [] => place ++ [ESC] ++ text "8" ++ RESET
  | _ => place ++ fit_visible t cols ++ RESET ++ [ESC] ++ text "8" ++ RESET
  end.

Lemma fit_width room t : (room < visible_width t)%nat →
  ∀ rest, visible_width_from false (fit_from false room t ++ rest) = (room + visible_width rest)%nat.
Proof.
  unfold visible_width. cut (∀ e, (room < visible_width_from e t)%nat →
    ∀ rest, visible_width_from e (fit_from e room t ++ rest) = (room + visible_width_from false rest)%nat); [auto |].
  revert room. induction t as [|ch t IH]; intros room e Hw rest; cbn [visible_width_from] in Hw; [lia |].
  cbn [fit_from]. destruct e.
  - cbn [app visible_width_from]. by apply IH.
  - destruct (ch =? ESC) eqn:He; [cbn [app visible_width_from]; rewrite He; by apply IH |].
    destruct room as [|room]; [done |]. cbn [app visible_width_from]. rewrite He. cbn [Nat.add]. f_equal. apply IH. cbn in Hw. lia.
Qed.

(** A bar that does not fit is cut to exactly the width of the terminal, counting the characters outside
    escape sequences. *)
Theorem bar_fits t cols : visible_width (fit_visible t cols) = Nat.min (visible_width t) (Z.to_nat (Z.max cols 1)).
Proof.
  unfold fit_visible. cbv zeta. set (max := Z.to_nat (Z.max cols 1)). assert (1 ≤ max)%nat as Hmax by lia. clearbody max.
  destruct (Nat.leb_spec (visible_width t) max); [lia |]. destruct (Nat.leb_spec max 1).
  { assert (max = 1%nat) as -> by lia. unfold visible_width in *. cbn. lia. }
  unfold visible_width at 1. rewrite fit_width by lia. unfold visible_width in *. cbn. lia.
Qed.

End Bar.

(** ** The sanitizer *)

Module Sanitizer.

Definition HOST_OUTPUT_SANITIZER_BUFFER_CAPACITY : Z := 128.

Inductive HostOutputSanitizerState := Ground | Escape | Csi.

Record HostOutputSanitizer := { state : HostOutputSanitizerState; buffer : bytes }.

Definition fresh : HostOutputSanitizer := {| state := Ground; buffer := [] |}.

(** Without the feature that turns it off in tests *)
Definition client_query_strip_enabled_for_tests : bool := true.

Fixpoint params_match (params separators : bytes) (saw_digit : bool) : option bool :=
  match params with
  | [] => Some saw_digit
  | b :: params' =>
      if is_ascii_digit b then params_match params' separators true
      else if bool_decide (b ∈ separators) then params_match params' separators saw_digit
      else None
  end.

Definition host_output_params_match (params separators : bytes) (require_digit : bool) : bool :=
  match params_match params separators false with Some saw => negb require_digit || saw | None => false end.

Definition host_output_is_stripped_query (params : bytes) (final_byte : Z) : bool :=
  if final_byte =? 99 then bool_decide (params = [] ∨ params = [62])
  else if final_byte =? 110 then bool_decide (params = [54])
  else if final_byte =? 117 then
    if decide (params = [63] ∨ params = [60]) then true
    else match params with
         | b :: rest =>
             ((b =? 62) || (b =? 61)) && negb (bool_decide (rest = [])) && forallb (λ c, is_ascii_digit c || (c =? 59)) rest
         | [] => false
         end
  else false.

Definition host_output_is_stripped_response_or_query (csi : bytes) : bool :=
  match last csi with
  | None => false
  | Some final_byte =>
      match slice_strip_prefix [ESC; 91] (removelast csi) with
      | None => false
      | Some params =>
          if client_query_strip_enabled_for_tests && host_output_is_stripped_query params final_byte then true
          else
            let first c := bool_decide (head params = Some c) in
            if first 63 && (final_byte =? 117) then host_output_params_match (tail params) [59; 58] true
            else if ((first 63 || first 62) && (final_byte =? 99)) || (first 63 && (final_byte =? 82))
            then host_output_params_match (tail params) [59] true
            else if final_byte =? 82 then host_output_params_match params [59] true
            else false
      end
  end.

Definition feed_byte (s : HostOutputSanitizer) (b : Z) : HostOutputSanitizer * bytes :=
  match state s with
  | Ground => if b =? ESC then ({| state := Escape; buffer := buffer s ++ [b] |}, []) else (s, [b])
  | Escape =>
      if b =? 91 then ({| state := Csi; buffer := buffer s ++ [b] |}, [])
      else if b =? ESC then ({| state := Escape; buffer := [b] |}, buffer s)
      else ({| state := Ground; buffer := [] |}, buffer s ++ [b])
  | Csi =>
      if b =? ESC then ({| state := Escape; buffer := [b] |}, buffer s)
      else
        let buf := buffer s ++ [b] in
        if HOST_OUTPUT_SANITIZER_BUFFER_CAPACITY <? Z.of_nat (length buf) then ({| state := Ground; buffer := [] |}, buf)
        else if is_csi_final b then
          ({| state := Ground; buffer := [] |}, if host_output_is_stripped_response_or_query buf then [] else buf)
        else ({| state := Csi; buffer := buf |}, [])
  end.

Definition feed (s : HostOutputSanitizer) (l : bytes) : HostOutputSanitizer * bytes := feed_with feed_byte s l.

Definition finish (s : HostOutputSanitizer) : HostOutputSanitizer * bytes := (fresh, buffer s).

Abbreviation stripped := (λ d, host_output_is_stripped_response_or_query d = true).

Record wf (s : HostOutputSanitizer) : Prop := {
  wf_len : Z.of_nat (length (buffer s)) ≤ HOST_OUTPUT_SANITIZER_BUFFER_CAPACITY;
  wf_shape : match state s with Ground => buffer s = [] | Escape => buffer s = [ESC] | Csi => ∃ ps, buffer s = [ESC; 91] ++ ps end;
}.

Lemma fresh_wf : wf fresh.
Proof. by split. Qed.

Lemma sanitizer_byte_spec s b s' o : wf s → feed_byte s b = (s', o) → wf s' ∧
  (buffer s ++ [b] = o ++ buffer s' ∨ o = [] ∧ buffer s' = [] ∧ stripped (buffer s ++ [b])).
Proof.
  intros [Hl Hs]. unfold feed_byte. destruct (state s) eqn:Hm.
  - rewrite Hs. destruct (b =? ESC) eqn:Hb; intros [= <- <-]; [| rewrite Hs; split; [| by left]].
    + apply Z.eqb_eq in Hb as ->. split; [by split | by left].
    + split; rewrite ?Hm, Hs; done.
  - rewrite Hs. destruct (Z.eqb_spec b 91) as [->|]; [intros [= <- <-]; split; [split; [done | by exists []] | by left] |].
    destruct (Z.eqb_spec b ESC) as [->|]; intros [= <- <-]; (split; [by split | by left]).
  - destruct (Z.eqb_spec b ESC) as [->|]; [intros [= <- <-]; split; [by split | by left] |]. cbv zeta.
    destruct (Z.ltb_spec HOST_OUTPUT_SANITIZER_BUFFER_CAPACITY (Z.of_nat (length (buffer s ++ [b])))) as [|Hroom];
      [intros [= <- <-]; split; [by split | left; by rewrite app_nil_r] |].
    destruct (is_csi_final b).
    + destruct (host_output_is_stripped_response_or_query (buffer s ++ [b])) eqn:Hst; intros [= <- <-];
        (split; [by split |]); [by right | left; by rewrite app_nil_r].
    + intros [= <- <-]. split; [| by left]. split; [exact Hroom |]. destruct Hs as [ps ->]. cbn. by exists (ps ++ [b]).
Qed.

(** However the output is cut, what the terminal gets is the output with nothing removed but complete
    queries and answers, no byte is added or moved, none is kept back once the stream ends, and at
    most 128 are meanwhile. *)
Theorem sanitizer_sound l s o : feed fresh l = (s, o) →
  Z.of_nat (length (buffer s)) ≤ HOST_OUTPUT_SANITIZER_BUFFER_CAPACITY ∧ erases stripped l (o ++ (finish s).2).
Proof.
  intros Hf. destruct (feed_erases feed_byte stripped buffer wf sanitizer_byte_spec l fresh s o [] [] fresh_wf (erases_nil _) Hf)
    as (Hwf & i & Hi & He).
  split; [apply Hwf |]. cbn in Hi, He. subst l. by apply erases_keep.
Qed.

(** Removing a query can put another one together. *)
Theorem sanitizer_reassembles : ∃ l, (feed fresh l).2 = [ESC; 91; 99] ∧ stripped [ESC; 91; 99].
Proof. exists [ESC; ESC; 91; 99; 91; 99]. by vm_compute. Qed.

Lemma sanitizer_sound_witness : erases stripped [97; ESC; 91; 99; 98; ESC] [97; 98; ESC].
Proof. exact (proj2 (sanitizer_sound [97; ESC; 91; 99; 98; ESC] _ _ eq_refl)). Defined.

End Sanitizer.

(** ** The mode tracker *)

Definition DEFERRED_DEFENSIVE_KITTY_RESET_WINDOW_BYTES : Z := 256.

Inductive AttachOutputStream := Stdout | Stderr.

#[export] Instance stream_eq_dec : EqDecision AttachOutputStream.
Proof. solve_decision. Defined.

Record HostBoundModeTracker := {
  tracker : Tracker.TerminalModeTracker;
  stdout_sanitizer : Sanitizer.HostOutputSanitizer;
  stderr_sanitizer : Sanitizer.HostOutputSanitizer;
  deferred_alt_screen_kitty_reset : bool;
  deferred_bytes_seen : Z;
}.

Definition new_host_tracker : HostBoundModeTracker := {|
  tracker := Tracker.new; stdout_sanitizer := Sanitizer.fresh; stderr_sanitizer := Sanitizer.fresh;
  deferred_alt_screen_kitty_reset := false; deferred_bytes_seen := 0 |}.

Definition with_tracker (t : Tracker.TerminalModeTracker) (deferred : bool) (seen : Z) (h : HostBoundModeTracker) : HostBoundModeTracker := {|
  tracker := t; stdout_sanitizer := stdout_sanitizer h; stderr_sanitizer := stderr_sanitizer h;
  deferred_alt_screen_kitty_reset := deferred; deferred_bytes_seen := seen |}.

Definition has_pending_alt_screen_leave_kitty_reset (t : Tracker.TerminalModeTracker) : bool := Tracker.pending_alt_screen_kitty_reset t.

(** The rest of a chunk is fed, and a leave in it starts a window of its own. *)
Definition feed_rest (h : HostBoundModeTracker) (l : bytes) : HostBoundModeTracker :=
  let t := Tracker.feed (tracker h) l in
  if has_pending_alt_screen_leave_kitty_reset t then with_tracker t true 0 h
  else with_tracker t (deferred_alt_screen_kitty_reset h) (deferred_bytes_seen h) h.

Definition take_deferred_reset (h : HostBoundModeTracker) : HostBoundModeTracker * bytes :=
  let '(reset, t) := Tracker.take_alt_screen_leave_kitty_reset (tracker h) in (with_tracker t false 0 h, reset).

Fixpoint track_deferred (h : HostBoundModeTracker) (l : bytes) : HostBoundModeTracker * bytes :=
  match l with
  | [] => take_deferred_reset h
  | b :: l' =>
      let t := Tracker.feed_byte (tracker h) b in
      if negb (has_pending_alt_screen_leave_kitty_reset t) then (feed_rest (with_tracker t false 0 h) l', [])
      else
        let seen := saturating_add U64_MAX (deferred_bytes_seen h) 1 in
        let h := with_tracker t (deferred_alt_screen_kitty_reset h) seen h in
        if DEFERRED_DEFENSIVE_KITTY_RESET_WINDOW_BYTES <=? seen then
          let (h', reset) := take_deferred_reset h in (feed_rest h' l', reset)
        else track_deferred h l'
  end.

Definition track (h : HostBoundModeTracker) (l : bytes) : HostBoundModeTracker * bytes :=
  if deferred_alt_screen_kitty_reset h || has_pending_alt_screen_leave_kitty_reset (tracker h)
  then track_deferred h l
  else (feed_rest h l, []).

Definition has_deferred_reset (h : HostBoundModeTracker) : bool :=
  deferred_alt_screen_kitty_reset h && has_pending_alt_screen_leave_kitty_reset (tracker h).

Definition flush_deferred_reset (h : HostBoundModeTracker) : HostBoundModeTracker * bytes :=
  if has_deferred_reset h then take_deferred_reset h else (h, []).

Definition with_sanitizer (stream : AttachOutputStream) (s : Sanitizer.HostOutputSanitizer) (h : HostBoundModeTracker) : HostBoundModeTracker := {|
  tracker := tracker h;
  stdout_sanitizer := if decide (stream = Stdout) then s else stdout_sanitizer h;
  stderr_sanitizer := if decide (stream = Stdout) then stderr_sanitizer h else s;
  deferred_alt_screen_kitty_reset := deferred_alt_screen_kitty_reset h; deferred_bytes_seen := deferred_bytes_seen h |}.

Definition sanitizer_for (stream : AttachOutputStream) (h : HostBoundModeTracker) : Sanitizer.HostOutputSanitizer :=
  match stream with Stdout => stdout_sanitizer h | Stderr => stderr_sanitizer h end.

Definition sanitize (stream : AttachOutputStream) (l : bytes) (h : HostBoundModeTracker) : HostBoundModeTracker * bytes :=
  let (s, o) := Sanitizer.feed (sanitizer_for stream h) l in (with_sanitizer stream s h, o).

Definition finish_sanitizer (stream : AttachOutputStream) (h : HostBoundModeTracker) : HostBoundModeTracker * bytes :=
  let (s, o) := Sanitizer.finish (sanitizer_for stream h) in (with_sanitizer stream s h, o).

Abbreviation pending := has_pending_alt_screen_leave_kitty_reset.

Lemma cleanup_mouse_pending l acc : Tracker.pending_alt_screen_kitty_reset (foldl Tracker.cleanup_mouse acc l).2 =
  Tracker.pending_alt_screen_kitty_reset acc.2.
Proof.
  revert acc. induction l as [|mode l IH]; intros [p t]; [done |]. cbn [foldl]. rewrite IH. unfold Tracker.cleanup_mouse. cbn [snd].
  destruct (Tracker.is_mouse_mode_enabled t mode); [| done]. cbn [snd]. unfold Tracker.set_mouse_mode. by case_match.
Qed.

Lemma take_clears t : pending (Tracker.take_alt_screen_leave_kitty_reset t).2 = false.
Proof.
  unfold Tracker.take_alt_screen_leave_kitty_reset, pending. destruct (Tracker.pending_alt_screen_kitty_reset t) eqn:Hp; cbn [negb]; [| done].
  unfold Tracker.cleanup_plan. cbv zeta. destruct (foldl Tracker.cleanup_mouse _ _) as [p t'] eqn:Hf.
  apply (f_equal (λ x, Tracker.pending_alt_screen_kitty_reset x.2)) in Hf. rewrite cleanup_mouse_pending in Hf. cbn in Hf |- *. by rewrite <- Hf.
Qed.

(** A reset is due exactly when its flag is set. *)
Definition flagged (h : HostBoundModeTracker) : Prop := deferred_alt_screen_kitty_reset h = pending (tracker h).

Lemma feed_rest_flagged h l : deferred_alt_screen_kitty_reset h = false → flagged (feed_rest h l).
Proof. intros Hd. unfold flagged, feed_rest. cbv zeta. destruct (pending _) eqn:Hp; cbn; by rewrite ?Hd, Hp. Qed.

Lemma take_deferred_flagged h : flagged (take_deferred_reset h).1.
Proof.
  unfold take_deferred_reset, flagged. pose proof (take_clears (tracker h)) as Ht.
  destruct (Tracker.take_alt_screen_leave_kitty_reset (tracker h)) as [r t]. cbn in *. by rewrite Ht.
Qed.

Lemma take_deferred_unflagged h : deferred_alt_screen_kitty_reset (take_deferred_reset h).1 = false.
Proof. unfold take_deferred_reset. by destruct (Tracker.take_alt_screen_leave_kitty_reset (tracker h)). Qed.

Lemma track_deferred_flagged h l : flagged (track_deferred h l).1.
Proof.
  revert h. induction l as [|b l IH]; intros h; cbn [track_deferred]; [apply take_deferred_flagged |]. cbv zeta.
  destruct (pending _); cbn [negb]; [| by apply feed_rest_flagged]. case_match; [| apply IH].
  match goal with |- context [take_deferred_reset ?h] => pose proof (take_deferred_unflagged h); destruct (take_deferred_reset h) end.
  by apply feed_rest_flagged.
Qed.

Lemma track_flagged h l : flagged h → flagged (track h l).1.
Proof.
  intros Hh. unfold track. destruct (_ || _) eqn:Hb; [apply track_deferred_flagged |]. apply feed_rest_flagged.
  by apply orb_false_iff in Hb as [-> _].
Qed.

Lemma track_deferred_resolved h l h' r : track_deferred h l = (h', r) → 0 ≤ deferred_bytes_seen h < DEFERRED_DEFENSIVE_KITTY_RESET_WINDOW_BYTES →
  ∃ k, (k ≤ length l)%nat ∧
    let t := Tracker.feed (tracker h) (take k l) in
    pending t = false ∧ r = [] ∨
    r = (Tracker.take_alt_screen_leave_kitty_reset t).1 ∧
      (k = length l ∨ deferred_bytes_seen h + Z.of_nat k = DEFERRED_DEFENSIVE_KITTY_RESET_WINDOW_BYTES).
Proof.
  revert h. induction l as [|b l IH]; intros h; cbn [track_deferred].
  { intros Ht _. exists 0%nat. split; [done |]. right. split; [| by left]. unfold take_deferred_reset in Ht. cbn.
    destruct (Tracker.take_alt_screen_leave_kitty_reset (tracker h)). by injection Ht as _ <-. }
  cbv zeta. intros Ht Hs. destruct (pending (Tracker.feed_byte (tracker h) b)) eqn:Hp; cbn [negb] in Ht.
  2: { injection Ht as _ <-. exists 1%nat. split; [cbn; lia |]. left. split; [| done]. exact Hp. }
  assert (saturating_add U64_MAX (deferred_bytes_seen h) 1 = deferred_bytes_seen h + 1) as Hsat.
  { unfold saturating_add, U64_MAX, DEFERRED_DEFENSIVE_KITTY_RESET_WINDOW_BYTES in *. lia. }
  rewrite Hsat in Ht. case_match eqn:Hw.
  - exists 1%nat. split; [cbn; lia |]. right. split.
    + unfold take_deferred_reset in Ht. cbn in Ht |- *. destruct (Tracker.take_alt_screen_leave_kitty_reset _). by injection Ht as _ <-.
    + right. apply Z.leb_le in Hw. lia.
  - apply Z.leb_gt in Hw. apply IH in Ht as (k & Hk & Ht); [| cbn; lia]. exists (S k). split; [cbn; lia |].
    cbn in Ht |- *. destruct Ht as [Ht | [Ht [-> | Hk']]]; [by left | right; split; [done | by left] |].
    right. split; [done |]. right. lia.
Qed.

(** When a program has left the alternate screen with a keyboard mode on, the next chunk of output settles it: the program
    itself leaves the mode in it, or the reset is written, after at most 256 bytes; nothing stays due. *)
Theorem leave_reset_settled h l h' r : flagged h → has_deferred_reset h = true →
  0 ≤ deferred_bytes_seen h < DEFERRED_DEFENSIVE_KITTY_RESET_WINDOW_BYTES → track h l = (h', r) →
  flagged h' ∧ ∃ k, (k ≤ length l)%nat ∧
    let t := Tracker.feed (tracker h) (take k l) in
    pending t = false ∧ r = [] ∨
    r = (Tracker.take_alt_screen_leave_kitty_reset t).1 ∧
      (k = length l ∨ deferred_bytes_seen h + Z.of_nat k = DEFERRED_DEFENSIVE_KITTY_RESET_WINDOW_BYTES).
Proof.
  intros Hf Hd Hs Ht. pose proof (track_flagged h l Hf) as Hf'. rewrite Ht in Hf'. split; [exact Hf' |].
  unfold track in Ht. apply andb_true_iff in Hd as [Hd _]. rewrite Hd in Ht. by apply (track_deferred_resolved h l h').
Qed.

(** ** The display *)

Module Display.

Definition ATTACH_OUTPUT_GATE_LIMIT : Z := 64 * 1024.

Inductive AttachOutputGateDecision := NotHolding | Held | Overflow.

Record AttachOutputGate := { holding : bool; held_stdout : bytes; held_stderr : bytes }.

Definition set_holding (b : bool) (g : AttachOutputGate) : AttachOutputGate :=
  {| holding := b; held_stdout := held_stdout g; held_stderr := held_stderr g |}.

Definition held (stream : AttachOutputStream) (g : AttachOutputGate) : bytes :=
  match stream with Stdout => held_stdout g | Stderr => held_stderr g end.

Definition with_held (stream : AttachOutputStream) (l : bytes) (g : AttachOutputGate) : AttachOutputGate :=
  match stream with
  | Stdout => {| holding := holding g; held_stdout := l; held_stderr := held_stderr g |}
  | Stderr => {| holding := holding g; held_stdout := held_stdout g; held_stderr := l |}
  end.

Definition hold (stream : AttachOutputStream) (l : bytes) (g : AttachOutputGate) : AttachOutputGate * AttachOutputGateDecision :=
  if negb (holding g) then (g, NotHolding)
  else if ATTACH_OUTPUT_GATE_LIMIT <? Z.of_nat (length (held stream g)) + Z.of_nat (length l) then (g, Overflow)
  else (with_held stream (held stream g ++ l) g, Held).

(** What has been written to a stream: output of the session, and characters of the bar and of
    messages *)
Inductive Written := Output (l : bytes) | Drawn (t : list Z).

Record AttachDisplayState := {
  cols : Z;
  rows : Z;
  bar : option (list Z);
  gate : AttachOutputGate;
  stdout : list Written;
  stderr : list Written;
  ios : nat;
}.

Definition with_bar (b : option (list Z)) (d : AttachDisplayState) : AttachDisplayState :=
  {| cols := cols d; rows := rows d; bar := b; gate := gate d; stdout := stdout d; stderr := stderr d; ios := ios d |}.
Definition with_gate (g : AttachOutputGate) (d : AttachDisplayState) : AttachDisplayState :=
  {| cols := cols d; rows := rows d; bar := bar d; gate := g; stdout := stdout d; stderr := stderr d; ios := ios d |}.
Definition with_size (c r : Z) (d : AttachDisplayState) : AttachDisplayState :=
  {| cols := c; rows := r; bar := bar d; gate := gate d; stdout := stdout d; stderr := stderr d; ios := ios d |}.
Definition wrote (stream : AttachOutputStream) (w : list Written) (d : AttachDisplayState) : AttachDisplayState :=
  {| cols := cols d; rows := rows d; bar := bar d; gate := gate d;
     stdout := match stream with Stdout => stdout d ++ w | Stderr => stdout d end;
     stderr := match stream with Stdout => stderr d | Stderr => stderr d ++ w end; ios := S (ios d) |}.

Definition new_display (c r : Z) : AttachDisplayState :=
  {| cols := c; rows := r; bar := None; gate := {| holding := false; held_stdout := []; held_stderr := [] |};
     stdout := []; stderr := []; ios := 0 |}.

Abbreviation Show := (Step AttachDisplayState unit).

Section display.
(** The n-th access to a stream: it succeeds, or it fails after some part of the data *)
Variable io : nat → option nat.

Definition cut_written (n : nat) (w : Written) : Written :=
  match w with Output l => Output (take n l) | Drawn t => Drawn (take n t) end.

Definition write_all (stream : AttachOutputStream) (w : Written) : Show unit := λ d,
  match io (ios d) with
  | None => (wrote stream [w] d, Ok tt)
  | Some n => (wrote stream [cut_written n w] d, Err tt)
  end.

Definition state_flush (stream : AttachOutputStream) : Show unit := λ d,
  (wrote stream [] d, match io (ios d) with None => Ok tt | Some _ => Err tt end).

Definition draw (t : list Z) : Show unit :=
  d ← get id;
  write_all Stderr (Drawn (Bar.draw_attach_control_bar_to (rows d) (cols d) t));;
  state_flush Stderr.

Definition state_clear_bar : Show unit := draw [].

Definition redraw_bar : Show unit :=
  d ← get id;
  match bar d with Some t => draw t | None => skip end.

(** One of the two halves of [flush_held_output]; the bytes are taken before they are written. *)
Definition flush_held (stream : AttachOutputStream) : Show unit :=
  d ← get id;
  let l := held stream (gate d) in
  assign (λ d, with_gate (with_held stream [] (gate d)) d);;
  match l with
  | [] => skip
  | _ => write_all stream (Output l);; state_flush stream
  end.

Definition flush_held_output : Show unit := flush_held Stdout;; flush_held Stderr.

Definition write_through (stream : AttachOutputStream) (l : bytes) : Show unit :=
  d ← get id;
  let had_bar := bool_decide (is_Some (bar d)) in
  (if had_bar then state_clear_bar else skip);;
  write_all stream (Output l);;
  state_flush stream;;
  (if had_bar then redraw_bar else skip).

Definition write_output (stream : AttachOutputStream) (l : bytes) : Show unit :=
  d ← get id;
  let '(g, decision) := hold stream l (gate d) in
  assign (with_gate g);;
  match decision with
  | Held => redraw_bar
  | Overflow => state_clear_bar;; flush_held_output;; write_through stream l
  | NotHolding => write_through stream l
  end.

Definition flush (stream : AttachOutputStream) : Show unit := state_flush stream.

Definition update_size (c r : Z) : Show unit :=
  d ← get id;
  if (cols d =? c) && (rows d =? r) then skip
  else
    let had_bar := bool_decide (is_Some (bar d)) in
    (if had_bar then state_clear_bar else skip);;
    assign (with_size c r);;
    (if had_bar then redraw_bar else skip).

Definition set_bar (t : list Z) : Show unit :=
  assign (λ d, with_gate (set_holding true (gate d)) d);;
  assign (with_bar (Some t));;
  redraw_bar.

Definition clear_bar : Show unit :=
  d ← get id;
  match bar d with
  | None => skip
  | Some _ =>
      assign (with_bar None);;
      state_clear_bar;;
      assign (λ d, with_gate (set_holding false (gate d)) d);;
      flush_held_output
  end.

Definition print_message (message : list Z) : Show unit :=
  state_clear_bar;;
  write_all Stderr (Drawn ([13; 10] ++ message ++ [13; 10]));;
  state_flush Stderr;;
  redraw_bar.

(** The calls made on a display, in the order in which they lock it *)
Inductive Call :=
  | CallWrite (stream : AttachOutputStream) (l : bytes) | CallFlush (stream : AttachOutputStream) | CallSize (c r : Z)
  | CallSetBar (t : list Z) | CallClearBar | CallMessage (t : list Z).

Definition call (c : Call) : Show unit :=
  match c with
  | CallWrite s l => write_output s l
  | CallFlush s => flush s
  | CallSize c r => update_size c r
  | CallSetBar t => set_bar t
  | CallClearBar => clear_bar
  | CallMessage t => print_message t
  end.

Fixpoint calls (cs : list Call) : Show unit :=
  match cs with [] => skip | c :: cs' => call c;; calls cs' end.

(** *** Order *)

Definition output_of (w : Written) : bytes := match w with Output l => l | Drawn _ => [] end.
Definition shown_on (stream : AttachOutputStream) (d : AttachDisplayState) : bytes :=
  concat (output_of <$> match stream with Stdout => stdout d | Stderr => stderr d end).
Definition given (stream : AttachOutputStream) (c : Call) : bytes :=
  match c with CallWrite s l => if decide (s = stream) then l else [] | _ => [] end.

(** Output is held only under a bar, within the limit. *)
Record in_order (out err : bytes) (d : AttachDisplayState) : Prop := {
  order_out : shown_on Stdout d ++ held_stdout (gate d) = out;
  order_err : shown_on Stderr d ++ held_stderr (gate d) = err;
  order_bar : holding (gate d) = bool_decide (is_Some (bar d));
  order_held : holding (gate d) = false → held_stdout (gate d) = [] ∧ held_stderr (gate d) = [];
  order_limit : Z.of_nat (length (held_stdout (gate d))) ≤ ATTACH_OUTPUT_GATE_LIMIT ∧
                Z.of_nat (length (held_stderr (gate d))) ≤ ATTACH_OUTPUT_GATE_LIMIT;
}.

(** On an error the terminal has been given a part of the output, in order. *)
Definition partial (out err : bytes) (d : AttachDisplayState) : Prop :=
  shown_on Stdout d `prefix_of` out ∧ shown_on Stderr d `prefix_of` err.

(** Only the bar has been drawn. *)
Record same (d d' : AttachDisplayState) : Prop := {
  same_bar : bar d' = bar d;
  same_gate : gate d' = gate d;
  same_shown s : shown_on s d' = shown_on s d;
}.

Lemma same_trans d d' d'' : same d d' → same d' d'' → same d d''.
Proof. intros [] []. split; [congruence | congruence | intros s; congruence]. Qed.

Lemma shown_wrote stream w d s : shown_on s (wrote stream w d) = shown_on s d ++ (if decide (s = stream) then concat (output_of <$> w) else []).
Proof. unfold shown_on. destruct s, stream; cbn; by rewrite ?fmap_app, ?concat_app, ?app_nil_r. Qed.

Lemma wrote_same stream w d : concat (output_of <$> w) = [] → same d (wrote stream w d).
Proof. intros Hw. split; [done.. |]. intros s. rewrite shown_wrote, Hw. case_match; apply app_nil_r. Qed.

Section rules.
Variable I : AttachDisplayState → Prop.

Lemma wp_drawn stream t Q d : (∀ d', same d d' → I d' ∧ Q tt d') → wp I (write_all stream (Drawn t)) Q d.
Proof. intros H. unfold wp, write_all. destruct (io (ios d)); cbn; by apply H, wrote_same. Qed.

Lemma wp_output stream l Q d : (∀ n, I (wrote stream [Output (take n l)] d)) → Q tt (wrote stream [Output l] d) →
  wp I (write_all stream (Output l)) Q d.
Proof. intros HI HQ. unfold wp, write_all. destruct (io (ios d)); cbn; [apply HI | apply HQ]. Qed.

Lemma wp_flushed stream Q d : (∀ d', same d d' → I d' ∧ Q tt d') → wp I (state_flush stream) Q d.
Proof. intros H. unfold wp, state_flush. destruct (io (ios d)); cbn; by apply H, wrote_same. Qed.

Lemma wp_draw t Q d : (∀ d', same d d' → I d' ∧ Q tt d') → wp I (draw t) Q d.
Proof.
  intros H. apply wp_bind, wp_get, wp_bind, wp_drawn. intros d1 H1. split; [by apply H |].
  apply wp_flushed. intros d2 H2. by apply H, (same_trans d d1).
Qed.

Lemma wp_redraw Q d : (∀ d', same d d' → I d' ∧ Q tt d') → wp I redraw_bar Q d.
Proof. intros H. apply wp_bind, wp_get. unfold id. destruct (bar d); [by apply wp_draw |]. by apply H. Qed.

Lemma wp_if_drawn (b : bool) (m : Show unit) Q d : (∀ Q, (∀ d', same d d' → I d' ∧ Q tt d') → wp I m Q d) →
  (∀ d', same d d' → I d' ∧ Q tt d') → wp I (if b then m else skip) Q d.
Proof. intros Hm H. destruct b; [by apply Hm |]. by apply H. Qed.
End rules.

Lemma in_order_same out err d d' : same d d' → in_order out err d → in_order out err d'.
Proof. intros [Hb Hg Hs] []. split; rewrite ?Hs, ?Hg, ?Hb; done. Qed.

Lemma in_order_partial out err d : in_order out err d → partial out err d.
Proof. intros [<- <- _ _ _]. split; by eexists. Qed.

Lemma partial_app out err out' err' d : partial out err d → partial (out ++ out') (err ++ err') d.
Proof. intros [H1 H2]. split; by apply prefix_app_r. Qed.

(** What the gate held goes out first. *)
Lemma flush_held_wp stream out err d (Q : unit → AttachDisplayState → Prop) :
  shown_on Stdout d ++ held_stdout (gate d) = out → shown_on Stderr d ++ held_stderr (gate d) = err →
  (∀ d', bar d' = bar d → gate d' = with_held stream [] (gate d) →
     shown_on Stdout d' ++ held_stdout (gate d') = out → shown_on Stderr d' ++ held_stderr (gate d') = err → Q tt d') →
  wp (partial out err) (flush_held stream) Q d.
Proof.
  intros Ho He HQ. apply wp_bind, wp_get, wp_bind, wp_assign. unfold id. set (d1 := with_gate _ d).
  assert (∀ s, shown_on s d1 = shown_on s d) as Hs1 by done.
  destruct (held stream (gate d)) as [|x l] eqn:Hh.
  { apply wp_ret, HQ; try done; rewrite Hs1; [rewrite <- Ho | rewrite <- He]; unfold d1, held in *; destruct stream; cbn; by rewrite ?Hh. }
  apply wp_bind, wp_output.
  - intros n. split; rewrite shown_wrote, Hs1, <- ?Ho, <- ?He; apply prefix_app; unfold held in Hh; destruct stream; cbn;
      rewrite ?app_nil_r, ?Hh; try apply prefix_nil; apply prefix_take.
  - apply wp_flushed. intros d' [Hb Hg Hs]. assert (∀ s, shown_on s d' = shown_on s d ++ if decide (s = stream) then x :: l else []) as Hs'.
    { intros s. rewrite Hs, shown_wrote, Hs1. cbn. by rewrite app_nil_r. }
    assert (shown_on Stdout d' ++ held_stdout (gate d') = out ∧ shown_on Stderr d' ++ held_stderr (gate d') = err) as [Ho' He'].
    { rewrite !Hs', Hg, <- Ho, <- He. unfold d1, held in *. destruct stream; cbn; rewrite ?Hh, ?app_nil_r; done. }
    split; [split; [rewrite <- Ho' | rewrite <- He']; by eexists |]. apply HQ; [by rewrite Hb | by rewrite Hg | done | done].
Qed.

Lemma write_through_in_order stream l out err d : in_order out err d → held_stdout (gate d) = [] → held_stderr (gate d) = [] →
  let out' := out ++ given Stdout (CallWrite stream l) in let err' := err ++ given Stderr (CallWrite stream l) in
  wp (partial out' err') (write_through stream l) (λ _, in_order out' err') d.
Proof.
  intros Hd Hho Hhe out' err'. apply wp_bind, wp_get, wp_bind. unfold id. apply wp_if_drawn; [intros; by apply wp_draw |].
  intros d1 H1. pose proof (in_order_same _ _ _ _ H1 Hd) as Hd1. split; [by apply partial_app, in_order_partial |].
  destruct Hd1 as [Ho He Hb Hf Hlim]. destruct H1 as [_ Hg _]. rewrite Hg, Hho, app_nil_r in Ho. rewrite Hg, Hhe, app_nil_r in He.
  apply wp_bind, wp_output.
  { intros n. split; rewrite shown_wrote, ?Ho, ?He; apply prefix_app; destruct stream; cbn; rewrite ?app_nil_r; try apply prefix_nil; apply prefix_take. }
  assert (in_order out' err' (wrote stream [Output l] d1)) as Hd2.
  { split; rewrite ?shown_wrote; [| | done..].
    - cbn [gate wrote]. rewrite Hg, Hho, app_nil_r, Ho. unfold out'. f_equal. cbn. rewrite app_nil_r. by destruct stream.
    - cbn [gate wrote]. rewrite Hg, Hhe, app_nil_r, He. unfold err'. f_equal. cbn. rewrite app_nil_r. by destruct stream. }
  apply wp_bind, wp_flushed. intros d3 H3. pose proof (in_order_same _ _ _ _ H3 Hd2) as Hd3. split; [by apply in_order_partial |].
  apply wp_if_drawn; [intros; by apply wp_redraw |]. intros d4 H4. pose proof (in_order_same _ _ _ _ H4 Hd3) as Hd4.
  split; [by apply in_order_partial | done].
Qed.

(** What is held goes out, and the bar with its flag stays as it is. *)
Lemma flush_held_output_in_order out err d (Q : unit → AttachDisplayState → Prop) : 
  shown_on Stdout d ++ held_stdout (gate d) = out → shown_on Stderr d ++ held_stderr (gate d) = err →
  holding (gate d) = bool_decide (is_Some (bar d)) →
  (∀ d', in_order out err d' → held_stdout (gate d') = [] → held_stderr (gate d') = [] → Q tt d') →
  wp (partial out err) flush_held_output Q d.
Proof.
  intros Ho He Hb HQ. apply wp_bind, (flush_held_wp Stdout out err); [done.. |]. intros d1 Hb1 Hg1 Ho1 He1.
  apply (flush_held_wp Stderr out err); [done.. |]. intros d2 Hb2 Hg2 Ho2 He2. rewrite Hg1 in Hg2.
  apply HQ; [| by rewrite Hg2..]. split; rewrite ?Hg2; try done; [by rewrite Hg2 in Ho2 | by rewrite Hg2 in He2 | by rewrite Hb2, Hb1].
Qed.

Lemma write_output_in_order stream l out err d : in_order out err d →
  let out' := out ++ given Stdout (CallWrite stream l) in let err' := err ++ given Stderr (CallWrite stream l) in
  wp (partial out' err') (write_output stream l) (λ _, in_order out' err') d.
Proof.
  intros Hd out' err'. pose proof Hd as [Ho He Hb Hf [Hlo Hle]]. apply wp_bind, wp_get. unfold id, hold. destruct (holding (gate d)) eqn:Hh; cbn [negb].
  2: { destruct (Hf eq_refl) as [Hso Hse]. apply wp_bind, wp_assign. apply write_through_in_order; [| done..]. split; try done; cbn; by rewrite Hh. }
  destruct (Z.ltb_spec ATTACH_OUTPUT_GATE_LIMIT (Z.of_nat (length (held stream (gate d))) + Z.of_nat (length l))).
  - apply wp_bind, wp_assign, wp_bind, wp_draw. intros d1 H1.
    assert (in_order out err d1) as Hd1 by (apply (in_order_same _ _ (with_gate (gate d) d)); [done |]; split; try done; cbn; by rewrite Hh).
    split; [by apply partial_app, in_order_partial |]. destruct Hd1 as [Ho1 He1 Hb1 _ _]. apply wp_bind.
    apply (wp_weaken _ (partial out err)); [intros; by apply partial_app |].
    apply flush_held_output_in_order; [done.. |]. intros d2 Hd2 Hs2 He2. by apply write_through_in_order.
  - apply wp_bind, wp_assign.
    assert (in_order out' err' (with_gate (with_held stream (held stream (gate d) ++ l) (gate d)) d)) as Hd1.
    { unfold out', err'. rewrite <- Ho, <- He. split; destruct stream; cbn; rewrite ?app_nil_r, ?Hh, <- ?app_assoc; try done;
        split; cbn in *; rewrite ?length_app; lia. }
    apply wp_redraw. intros d2 H2. pose proof (in_order_same _ _ _ _ H2 Hd1) as Hd2. split; [by apply in_order_partial | done].
Qed.

Lemma call_in_order c out err d : in_order out err d →
  let out' := out ++ given Stdout c in let err' := err ++ given Stderr c in wp (partial out' err') (call c) (λ _, in_order out' err') d.
Proof.
  intros Hd out' err'. assert (∀ d', same d d' → in_order out err d') as Hs by (intros; by eapply in_order_same).
  destruct c as [s l|s|c r|t| |t]; [by apply write_output_in_order | ..]; unfold out', err'; cbn [given]; rewrite !app_nil_r; cbn [call].
  - apply wp_flushed. intros d' ?%Hs. split; [by apply in_order_partial | done].
  - apply wp_bind, wp_get. unfold id. destruct (_ && _); [done |]. apply wp_bind, wp_if_drawn; [intros; by apply wp_draw |].
    intros d1 H1%Hs. split; [by apply in_order_partial |]. apply wp_bind, wp_assign.
    assert (in_order out err (with_size c r d1)) as H2 by (destruct H1; by split).
    apply wp_if_drawn; [intros; by apply wp_redraw |]. intros d2 Hd2. pose proof (in_order_same _ _ _ _ Hd2 H2). split; [by apply in_order_partial | done].
  - apply wp_bind, wp_assign, wp_bind, wp_assign, wp_redraw. intros d1 H1.
    assert (in_order out err d1) as Hd1 by (eapply in_order_same; [done |]; destruct Hd; by split). split; [by apply in_order_partial | done].
  - apply wp_bind, wp_get. unfold id. destruct (bar d) as [t|] eqn:Hb; [| done]. apply wp_bind, wp_assign, wp_bind, wp_draw.
    intros d1 [Hb1 Hg1 Hs1]. destruct Hd as [Ho He Hbar Hf Hlim]. cbn in Hb1, Hg1, Hs1.
    assert (shown_on Stdout d1 ++ held_stdout (gate d1) = out) as Ho1 by (by rewrite Hs1, Hg1).
    assert (shown_on Stderr d1 ++ held_stderr (gate d1) = err) as He1 by (by rewrite Hs1, Hg1).
    split; [split; [rewrite <- Ho1 | rewrite <- He1]; by eexists |]. apply wp_bind, wp_assign.
    apply flush_held_output_in_order; [done | done | cbn; by rewrite Hb1 |]. done.
  - apply wp_bind, wp_draw. intros d1 H1. pose proof (Hs _ H1). split; [by apply in_order_partial |]. apply wp_bind, wp_drawn.
    intros d2 H2. pose proof (same_trans _ _ _ H1 H2) as H02. split; [by apply in_order_partial, Hs |]. apply wp_bind, wp_flushed.
    intros d3 H3. pose proof (same_trans _ _ _ H02 H3) as H03. split; [by apply in_order_partial, Hs |]. apply wp_redraw.
    intros d4 H4. pose proof (same_trans _ _ _ H03 H4) as H04. split; [by apply in_order_partial, Hs | by apply Hs].
Qed.

Lemma calls_in_order cs out err d : in_order out err d →
  let out' := out ++ concat (given Stdout <$> cs) in let err' := err ++ concat (given Stderr <$> cs) in
  wp (partial out' err') (calls cs) (λ _, in_order out' err') d.
Proof.
  revert out err d. induction cs as [|c cs IH]; intros out err d Hd out' err'; cbn [calls].
  { unfold out', err'. cbn. by rewrite !app_nil_r. }
  apply wp_bind. eapply (wp_weaken _ (partial (out ++ given Stdout c) (err ++ given Stderr c))).
  { intros d' Hp. unfold out', err'. cbn. rewrite !app_assoc. by apply partial_app. }
  eapply wp_mono; [by apply call_in_order |]. intros [] d' Hd'. apply IH in Hd'. unfold out', err'. cbn. rewrite !app_assoc. exact Hd'.
Qed.

(** Whatever is drawn, the output given for each stream reaches the terminal in order, whole when no bar is shown and
    up to 64 KiB of its end held back under a bar; when the terminal fails it has got a prefix. *)
Theorem display_in_order c r cs :
  let '(d, res) := calls cs (new_display c r) in
  let out := concat (given Stdout <$> cs) in let err := concat (given Stderr <$> cs) in
  match res with
  | Ok _ =>
      shown_on Stdout d ++ held_stdout (gate d) = out ∧ shown_on Stderr d ++ held_stderr (gate d) = err ∧
      (bar d = None → held_stdout (gate d) = [] ∧ held_stderr (gate d) = []) ∧
      Z.of_nat (length (held_stdout (gate d))) ≤ ATTACH_OUTPUT_GATE_LIMIT ∧ Z.of_nat (length (held_stderr (gate d))) ≤ ATTACH_OUTPUT_GATE_LIMIT
  | Err _ => shown_on Stdout d `prefix_of` out ∧ shown_on Stderr d `prefix_of` err
  end.
Proof.
  pose proof (calls_in_order cs [] [] (new_display c r)) as H. cbn zeta in H. unfold wp in H.
  destruct (calls cs (new_display c r)) as [d [[]|[]]]; [| apply H; by split].
  destruct H as [Ho He Hb Hf Hlim]; [by split |]. split_and!; try done; try apply Hlim.
  intros Hn. apply Hf. by rewrite Hb, Hn.
Qed.
End display.
End Display.

(** ** Output on its way to the terminal *)

Module Host.
Import Display.

Record Terminal := { host : HostBoundModeTracker; screen : AttachDisplayState; scheduled : list AttachOutputStream }.

Definition new_terminal (c r : Z) : Terminal := {| host := new_host_tracker; screen := new_display c r; scheduled := [] |}.

Abbreviation Task := (Step Terminal unit).

Section host.
Variable io : nat → option nat.

Definition on_screen (m : Show unit) : Task unit := λ t,
  let (d, r) := m (screen t) in ({| host := host t; screen := d; scheduled := scheduled t |}, r).

(** The tracker under its lock *)
Definition locked (f : HostBoundModeTracker → HostBoundModeTracker * bytes) : Task bytes := λ t,
  let (h, l) := f (host t) in ({| host := h; screen := screen t; scheduled := scheduled t |}, Ok l).

Definition write_nonempty (stream : AttachOutputStream) (l : bytes) : Task unit :=
  match l with [] => skip | _ => on_screen (write_output io stream l) end.

(** The flush after a pause is spawned. *)
Definition schedule_deferred_mode_reset_flush (stream : AttachOutputStream) : Task unit :=
  assign (λ t, {| host := host t; screen := screen t; scheduled := scheduled t ++ [stream] |}).

Definition write_tracked_output (stream : AttachOutputStream) (l : bytes) : Task unit :=
  defensive_reset ← locked (λ h, track h l);
  sanitized ← locked (sanitize stream l);
  write_nonempty stream sanitized;;
  match defensive_reset with
  | [] => t ← get id; if has_deferred_reset (host t) then schedule_deferred_mode_reset_flush stream else skip
  | _ => on_screen (write_output io stream defensive_reset)
  end.

Definition flush_deferred_mode_reset_output (stream : AttachOutputStream) : Task unit :=
  defensive_reset ← locked flush_deferred_reset;
  write_nonempty stream defensive_reset;;
  on_screen (flush io stream).

Definition flush_tracked_output (stream : AttachOutputStream) : Task unit :=
  sanitized ← locked (finish_sanitizer stream);
  write_nonempty stream sanitized;;
  flush_deferred_mode_reset_output stream.

(** What happens to a terminal: output of the session and its end, a flush after a pause, the bar *)
Inductive Event :=
  | OnOutput (stream : AttachOutputStream) (l : bytes) | OnIdle (stream : AttachOutputStream) | OnEnd (stream : AttachOutputStream)
  | OnSetBar (b : list Z) | OnClearBar | OnMessage (m : list Z) | OnSize (c r : Z).

Definition event_task (e : Event) : Task unit :=
  match e with
  | OnOutput s l => write_tracked_output s l
  | OnIdle s => flush_deferred_mode_reset_output s
  | OnEnd s => flush_tracked_output s
  | OnSetBar b => on_screen (set_bar io b)
  | OnClearBar => on_screen (clear_bar io)
  | OnMessage m => on_screen (print_message io m)
  | OnSize c r => on_screen (update_size io c r)
  end.

Fixpoint events_task (es : list Event) : Task unit :=
  match es with [] => skip | e :: es' => event_task e;; events_task es' end.

Definition input_of (s : AttachOutputStream) (e : Event) : bytes :=
  match e with OnOutput s' l => if decide (s' = s) then l else [] | _ => [] end.

(** A piece of output and the reset written after it *)
Definition pieces_text (ps : list (bytes * bytes)) : bytes := concat ((λ p, p.1 ++ p.2) <$> ps).
Definition a_reset (r : bytes) : Prop := r = [] ∨ ∃ t, Tracker.pending_alt_screen_kitty_reset t = true ∧ r = (Tracker.take_alt_screen_leave_kitty_reset t).1.

(** [given] has gone to the display for a session output [input]. *)
Definition carried (s : Sanitizer.HostOutputSanitizer) (input given : bytes) : Prop :=
  Sanitizer.wf s ∧ ∃ i ps, input = i ++ Sanitizer.buffer s ∧ given = pieces_text ps ∧
    erases Sanitizer.stripped i (concat (fst <$> ps)) ∧ Forall (λ p, a_reset p.2) ps.

Lemma carried_feed s input given l s' o : carried s input given → Sanitizer.feed s l = (s', o) → carried s' (input ++ l) (given ++ o).
Proof.
  intros (Hwf & i & ps & -> & -> & He & Hr) Hf.
  destruct (feed_erases Sanitizer.feed_byte _ Sanitizer.buffer Sanitizer.wf Sanitizer.sanitizer_byte_spec l s s' o i _ Hwf He Hf) as (Hwf' & i' & Hi' & He').
  split; [done |]. exists i', (ps ++ [(o, [])]). rewrite <- app_assoc, Hi'. unfold pieces_text. rewrite !fmap_app, !concat_app. cbn. rewrite !app_nil_r.
  split_and!; [done | done | done |]. apply Forall_app_2; [done |]. apply Forall_singleton. by left.
Qed.

Lemma carried_finish s input given : carried s input given → carried Sanitizer.fresh input (given ++ Sanitizer.buffer s).
Proof.
  intros (Hwf & i & ps & -> & -> & He & Hr). split; [apply Sanitizer.fresh_wf |].
  exists (i ++ Sanitizer.buffer s), (ps ++ [(Sanitizer.buffer s, [])]). unfold pieces_text. rewrite !fmap_app, !concat_app. cbn. rewrite !app_nil_r.
  split_and!; [done | done | by apply erases_keep |]. apply Forall_app_2; [done |]. apply Forall_singleton. by left.
Qed.

Lemma carried_reset s input given r : carried s input given → a_reset r → carried s input (given ++ r).
Proof.
  intros (Hwf & i & ps & -> & -> & He & Hr) Ha. split; [done |].
  exists i, (ps ++ [([], r)]). unfold pieces_text. rewrite !fmap_app, !concat_app. cbn. rewrite !app_nil_r.
  split_and!; [done | done | done |]. by apply Forall_app_2, Forall_singleton.
Qed.

Definition carries (out err gout gerr : bytes) (t : Terminal) : Prop :=
  in_order gout gerr (screen t) ∧ carried (stdout_sanitizer (host t)) out gout ∧ carried (stderr_sanitizer (host t)) err gerr.

Abbreviation Any := (λ _ : Terminal, True).

Lemma wp_on_screen c gout gerr t (Q : unit → Terminal → Prop) : in_order gout gerr (screen t) →
  (∀ d, in_order (gout ++ given Stdout c) (gerr ++ given Stderr c) d → Q tt {| host := host t; screen := d; scheduled := scheduled t |}) →
  wp Any (on_screen (call io c)) Q t.
Proof.
  intros Hd HQ. pose proof (call_in_order io c gout gerr (screen t) Hd) as H. unfold wp, on_screen in *. cbv zeta in H.
  destruct (call io c (screen t)) as [d [[]|]]; [by apply HQ | done].
Qed.

Lemma wp_write s l gout gerr t (Q : unit → Terminal → Prop) : in_order gout gerr (screen t) →
  (∀ d, in_order (gout ++ given Stdout (CallWrite s l)) (gerr ++ given Stderr (CallWrite s l)) d →
     Q tt {| host := host t; screen := d; scheduled := scheduled t |}) → wp Any (write_nonempty s l) Q t.
Proof.
  intros Hd HQ. destruct l as [|b l]; [| by apply (wp_on_screen (CallWrite s (b :: l)) gout gerr)].
  destruct s; cbn in HQ; rewrite !app_nil_r in HQ; destruct t; by apply HQ.
Qed.

Lemma wp_tracker_locked f (Q : bytes → Terminal → Prop) t :
  Q (f (host t)).2 {| host := (f (host t)).1; screen := screen t; scheduled := scheduled t |} → wp Any (locked f) Q t.
Proof. unfold wp, locked. by destruct (f (host t)). Qed.

Lemma take_is_reset h : a_reset (take_deferred_reset h).2.
Proof.
  unfold take_deferred_reset. destruct (Tracker.pending_alt_screen_kitty_reset (tracker h)) eqn:Hp.
  - right. exists (tracker h). split; [done |]. by destruct (Tracker.take_alt_screen_leave_kitty_reset (tracker h)).
  - left. unfold Tracker.take_alt_screen_leave_kitty_reset. by rewrite Hp.
Qed.

Lemma track_is_reset h l : a_reset (track h l).2.
Proof.
  unfold track. destruct (_ || _); [| by left]. revert h. induction l as [|b l IH]; intros h; cbn [track_deferred]; [apply take_is_reset |].
  cbv zeta. case_match; [by left |]. case_match; [| apply IH].
  match goal with |- context [take_deferred_reset ?h] => pose proof (take_is_reset h); by destruct (take_deferred_reset h) end.
Qed.

Lemma track_sanitizers h l : stdout_sanitizer (track h l).1 = stdout_sanitizer h ∧ stderr_sanitizer (track h l).1 = stderr_sanitizer h.
Proof.
  assert (∀ h l, stdout_sanitizer (feed_rest h l) = stdout_sanitizer h ∧ stderr_sanitizer (feed_rest h l) = stderr_sanitizer h) as Hfeed.
  { intros. unfold feed_rest. cbv zeta. by case_match. }
  assert (∀ h, stdout_sanitizer (take_deferred_reset h).1 = stdout_sanitizer h ∧ stderr_sanitizer (take_deferred_reset h).1 = stderr_sanitizer h) as Htake.
  { intros. unfold take_deferred_reset. by case_match. }
  unfold track. destruct (_ || _); [| apply Hfeed]. revert h. induction l as [|b l IH]; intros h; cbn [track_deferred]; [apply Htake |].
  cbv zeta. case_match; [exact (Hfeed (with_tracker _ false 0 h) l) |].
  case_match; [| match goal with |- context [track_deferred ?h l] => exact (IH h) end].
  match goal with |- context [take_deferred_reset ?h] => pose proof (Htake h) as Ht; destruct (take_deferred_reset h) as [h' r] end.
  cbn in Ht |- *. destruct (Hfeed h' l) as [-> ->]. exact Ht.
Qed.

Definition good (input : AttachOutputStream → bytes) (t : Terminal) : Prop :=
  ∃ gout gerr, carries (input Stdout) (input Stderr) gout gerr t.

(** A reset that is due goes to a stream. *)
Lemma good_reset s r input t : good input t → a_reset r → wp Any (write_nonempty s r) (λ _, good input) t.
Proof.
  intros (gout & gerr & Hd & Ho & He) Hr. eapply wp_write; [exact Hd |]. intros d Hd'. eexists _, _. split; [exact Hd' |].
  destruct s; cbn; rewrite ?app_nil_r; (split; [|]); try done; by apply carried_reset.
Qed.

Lemma good_flush s input t : good input t → wp Any (flush_deferred_mode_reset_output s) (λ _, good input) t.
Proof.
  intros Hg. apply wp_bind, wp_tracker_locked, wp_bind.
  assert (a_reset (flush_deferred_reset (host t)).2 ∧ stdout_sanitizer (flush_deferred_reset (host t)).1 = stdout_sanitizer (host t) ∧
    stderr_sanitizer (flush_deferred_reset (host t)).1 = stderr_sanitizer (host t)) as (Hr & Hs1 & Hs2).
  { unfold flush_deferred_reset. destruct (has_deferred_reset (host t)); [| by split; [left |]]. split; [apply take_is_reset |].
    unfold take_deferred_reset. by case_match. }
  eapply wp_mono; [apply good_reset; [| exact Hr] |].
  { destruct Hg as (gout & gerr & Hd & Ho & He). exists gout, gerr. split; cbn [host screen]; [done |]. rewrite Hs1, Hs2. done. }
  intros [] t' (gout & gerr & Hd & Ho & He). apply (wp_on_screen (CallFlush s) gout gerr); [done |]. intros d Hd'. cbn in Hd'. rewrite !app_nil_r in Hd'.
  by exists gout, gerr.
Qed.

Lemma event_good e input t : good input t → wp Any (event_task e) (λ _, good (λ s, input s ++ input_of s e)) t.
Proof.
  intros Hg. assert (∀ c, given Stdout c = [] → given Stderr c = [] → wp Any (on_screen (call io c)) (λ _, good input) t) as Hcall.
  { intros c H1 H2. destruct Hg as (gout & gerr & Hd & Ho & He). apply (wp_on_screen c gout gerr); [done |]. intros d Hd'.
    rewrite H1, H2, !app_nil_r in Hd'. by exists gout, gerr. }
  assert (∀ t', good input t' → input_of Stdout e = [] → input_of Stderr e = [] → good (λ s, input s ++ input_of s e) t') as Hnil.
  { intros t' Hg' H1 H2. unfold good. by rewrite H1, H2, !app_nil_r. }
  destruct e as [s l|s|s|b| |m|c r]; cbn [event_task].
  - destruct Hg as (gout & gerr & Hd & Ho & He). apply wp_bind, wp_tracker_locked, wp_bind, wp_tracker_locked, wp_bind. cbn [host screen].
    destruct (track_sanitizers (host t) l) as [Hs1 Hs2]. pose proof (track_is_reset (host t) l) as Hr.
    destruct (track (host t) l) as [h r]. cbn [fst snd] in *. unfold sanitize. destruct (Sanitizer.feed (sanitizer_for s h) l) as [sz o] eqn:Hf.
    cbn [fst snd]. eapply wp_write; [exact Hd |]. intros d Hd'. cbn [host screen scheduled].
    assert (good (λ s', input s' ++ input_of s' (OnOutput s l)) {| host := with_sanitizer s sz h; screen := d; scheduled := scheduled t |}) as Hg.
    { eexists _, _. split; [exact Hd' |]. destruct s; cbn in *; rewrite ?Hs1, ?Hs2 in *; rewrite ?app_nil_r; (split; [|]); try done; by eapply carried_feed. }
    destruct r as [|x r]; [| by apply (good_reset s (x :: r))]. apply wp_bind, wp_get. by case_match.
  - eapply wp_mono; [by apply good_flush |]. intros ? ??. by apply Hnil.
  - apply wp_bind, wp_tracker_locked, wp_bind. destruct Hg as (gout & gerr & Hd & Ho & He). eapply wp_write; [exact Hd |]. intros d Hd'.
    eapply wp_mono; [apply (good_flush s input) | intros ? ??; by apply Hnil]. eexists _, _. split; [exact Hd' |].
    destruct s; cbn in *; rewrite ?app_nil_r; (split; [|]); try done; by apply carried_finish.
  - eapply wp_mono; [by apply (Hcall (CallSetBar b)) |]. intros ? ??. by apply Hnil.
  - eapply wp_mono; [by apply (Hcall CallClearBar) |]. intros ? ??. by apply Hnil.
  - eapply wp_mono; [by apply (Hcall (CallMessage m)) |]. intros ? ??. by apply Hnil.
  - eapply wp_mono; [by apply (Hcall (CallSize c r)) |]. intros ? ??. by apply Hnil.
Qed.

Lemma events_good es input t : good input t → wp Any (events_task es) (λ _, good (λ s, input s ++ concat (input_of s <$> es))) t.
Proof.
  revert input t. induction es as [|e es IH]; intros input t Hg; cbn [events_task].
  { unfold good. cbn. rewrite !app_nil_r. done. }
  apply wp_bind. eapply wp_mono; [by apply event_good |]. intros ? t' Ht'. apply IH in Ht'. eapply wp_mono; [exact Ht' |].
  intros ? t'' (gout & gerr & H). exists gout, gerr. cbn. rewrite !app_assoc. exact H.
Qed.

(** C11: what the terminal has been given of a stream, with what the gate holds, is the output of the session in order, with whole
    queries and answers taken out and whole mode resets put between pieces; at most 128 bytes at its
    end wait for the rest of an escape sequence. *)
Theorem host_output_faithful c r es t : events_task es (new_terminal c r) = (t, Ok tt) →
  ∀ s, ∃ i ps,
    concat (input_of s <$> es) = i ++ Sanitizer.buffer (sanitizer_for s (host t)) ∧
    shown_on s (screen t) ++ held s (gate (screen t)) = pieces_text ps ∧
    erases Sanitizer.stripped i (concat (fst <$> ps)) ∧ Forall (λ p, a_reset p.2) ps ∧
    Z.of_nat (length (Sanitizer.buffer (sanitizer_for s (host t)))) ≤ Sanitizer.HOST_OUTPUT_SANITIZER_BUFFER_CAPACITY.
Proof.
  intros Ht. assert (good (λ _, []) (new_terminal c r)) as H0.
  { assert (carried Sanitizer.fresh [] []) as Hc. { split; [apply Sanitizer.fresh_wf |]. exists [], []. split_and!; try done. apply erases_nil. }
    exists [], []. by split; [split |]. }
  pose proof (events_good es _ _ H0) as H. unfold wp in H. rewrite Ht in H. destruct H as (gout & gerr & [Ho He _ _ _] & (Hw1 & i1 & p1 & ? & ? & ? & ?) & (Hw2 & i2 & p2 & ? & ? & ? & ?)).
  intros [|]; [exists i1, p1 | exists i2, p2]; cbn [sanitizer_for held]; split_and!; try done; try congruence; [apply Hw1 | apply Hw2].
Qed.
End host.

Module Demo.
Definition fine (n : nat) : option nat := None.
(** A program that leaves the alternate screen with a pushed keyboard mode *)
Definition leave : bytes := [ESC; 91; 63; 49; 48; 52; 57; 104; ESC; 91; 62; 49; 117; ESC; 91; 63; 49; 48; 52; 57; 108].
Definition story : list Event := [OnOutput Stdout [104; ESC; 91; 99; 105]; OnIdle Stdout; OnOutput Stdout [ESC]].
Definition after : Terminal := Eval vm_compute in (events_task fine story (new_terminal 80 24)).1.

Lemma host_output_faithful_witness :
  ∃ i ps, concat (input_of Stdout <$> story) = i ++ [ESC] ∧ [104; 105] ++ [] = pieces_text ps ∧
    erases Sanitizer.stripped i (concat (fst <$> ps)) ∧ Forall (λ p, a_reset p.2) ps ∧ 1 ≤ 128.
Proof. exact (host_output_faithful fine 80 24 story after eq_refl Stdout). Defined.

Definition behind : HostBoundModeTracker := Eval vm_compute in (track new_host_tracker leave).1.

Lemma leave_reset_settled_witness : flagged (track behind [104; 105]).1.
Proof.
  destruct (track behind [104; 105]) as [h r] eqn:Ht. exact (proj1 (leave_reset_settled behind [104; 105] h r eq_refl eq_refl (conj (Z.le_refl 0) eq_refl) Ht)).
Defined.
End Demo.
End Host.

(** ** The end of raw mode *)

Module RawMode.

Inductive RawModeExitVariant := Normal | ReconnectExhausted | Sighup | Sigterm | Sigint | Panic.

Definition is_emergency (v : RawModeExitVariant) : bool :=
  match v with Sighup | Sigterm | Sigint | Panic => true | Normal | ReconnectExhausted => false end.

Definition csi (s : string) : bytes := [ESC; 91] ++ str_bytes s.

Definition RAW_MODE_CLEANUP_NORMAL : bytes :=
  csi "0m" ++ csi "?1049l" ++ csi "r" ++ csi "?7h" ++ csi "!p" ++ csi "?25h" ++ csi "<u" ++ csi "=0u" ++ csi ">4;0m" ++ csi "?2004l"
  ++ csi "?1000l" ++ csi "?1002l" ++ csi "?1003l" ++ csi "?1006l" ++ [13; 10].
Definition RAW_MODE_CLEANUP_EMERGENCY : bytes := RAW_MODE_CLEANUP_NORMAL ++ [ESC; 99].

Definition raw_mode_cleanup_sequence (v : RawModeExitVariant) : bytes :=
  if is_emergency v then RAW_MODE_CLEANUP_EMERGENCY else RAW_MODE_CLEANUP_NORMAL.

(** [RawModeCleanupWriter], with what it has written *)
Record RawModeCleanupWriter := { written : bool; cleanup_out : bytes }.

Definition write_to (v : RawModeExitVariant) (w : RawModeCleanupWriter) : RawModeCleanupWriter :=
  if written w then w else {| written := true; cleanup_out := cleanup_out w ++ raw_mode_cleanup_sequence v |}.

(** The guard and the flag of the panic hook: [finish] is followed by [drop]. *)
Record RawModeGuard := { cleanup : RawModeCleanupWriter; raw_mode : bool; panic_hook_armed : bool; hook_out : bytes }.

Definition guard_new : RawModeGuard :=
  {| cleanup := {| written := false; cleanup_out := [] |}; raw_mode := true; panic_hook_armed := true; hook_out := [] |}.

Definition guard_finish (v : RawModeExitVariant) (g : RawModeGuard) : RawModeGuard :=
  {| cleanup := write_to v (cleanup g); raw_mode := false; panic_hook_armed := false; hook_out := hook_out g |}.

Definition guard_drop (g : RawModeGuard) : RawModeGuard := guard_finish Normal g.

Definition write_panic_cleanup_to_fd_if_armed (g : RawModeGuard) : RawModeGuard :=
  if panic_hook_armed g
  then {| cleanup := cleanup g; raw_mode := raw_mode g; panic_hook_armed := true; hook_out := hook_out g ++ raw_mode_cleanup_sequence Panic |}
  else g.

(** What happens between the start of raw mode and the end of the guard *)
Definition guard_ends (finish : option RawModeExitVariant) (g : RawModeGuard) : RawModeGuard :=
  guard_drop (match finish with Some v => guard_finish v g | None => g end).

(** *** The modes afterwards *)

Lemma acts_ignored ps f : forallb Tracker.is_param ps = true → Z.of_nat (length ps) ≤ Tracker.CSI_BUFFER_CAPACITY → is_csi_final f = true →
  (∀ t, Tracker.modes (Tracker.handle_csi (Tracker.csi_at t ps) f) = Tracker.modes t) → Tracker.acts ([ESC; 91] ++ ps ++ [f]) id.
Proof. intros. by apply Tracker.acts_csi. Qed.

Lemma acts_newline : Tracker.acts [13; 10] id.
Proof. intros [m p c o r] Ht. cbn in Ht. by subst. Qed.

Lemma acts_final_reset : Tracker.acts [ESC; 99] id.
Proof. intros [m p c o r] Ht. cbn in Ht. by subst. Qed.

Definition cleaned (m : Tracker.TerminalModeState) : Tracker.TerminalModeState :=
  Tracker.set_kitty Tracker.default_modes (Z.max 0 (Tracker.kitty_keyboard_depth m - 1)) 0.

Lemma acts_runs l F m m' : Tracker.acts l F → F m = m' → Tracker.runs l m m'.
Proof. intros H <- t Ht <-. by apply H. Qed.

(** The next sequence, with the modes after it in normal form *)
Ltac act H := eapply Tracker.runs_app; [eapply acts_runs; [by apply H | cbn; reflexivity] |].

Lemma cleanup_runs m : length (Tracker.mouse_modes m) = 4%nat → Tracker.runs RAW_MODE_CLEANUP_NORMAL m (cleaned m).
Proof.
  intros Hm. destruct m as [d fl a bp mo mk wr sc]. cbn in Hm. destruct mo as [|? [|? [|? [|? [|]]]]]; try discriminate Hm.
  unfold RAW_MODE_CLEANUP_NORMAL. act (acts_ignored [48] 109).
  act (Tracker.acts_alt_leave Tracker.Mode1049).
  act Tracker.acts_scroll_reset.
  act Tracker.acts_wrap_on.
  act (acts_ignored [33] 112).
  act (acts_ignored [63; 50; 53] 104).
  act Tracker.acts_pop.
  act Tracker.acts_flags_clear.
  act Tracker.acts_mok_clear.
  act Tracker.acts_paste_off.
  act (Tracker.acts_mouse_off 1000 0).
  act (Tracker.acts_mouse_off 1002 1).
  act (Tracker.acts_mouse_off 1003 2).
  act (Tracker.acts_mouse_off 1006 3).
  by apply (acts_runs _ id); [apply acts_newline |].
Qed.

Lemma cleanup_head v : raw_mode_cleanup_sequence v = ESC :: 91 :: drop 2 (raw_mode_cleanup_sequence v).
Proof. by destruct v. Qed.

(** Unless the session stopped inside an operating system command, the sequence written at the end turns off every mode
    a program can have left on, whatever the exit: the alternate screen, mouse and paste reports, a scroll
    region, the extended keyboard, with one level of its stack taken off; it is written once. *)
Theorem raw_cleanup_restores v finish t : Tracker.wf t →
  Tracker.parser t ≠ Tracker.Osc → Tracker.parser t ≠ Tracker.OscEscape →
  let g := guard_ends finish guard_new in
  Tracker.modes (Tracker.feed t (raw_mode_cleanup_sequence v)) = cleaned (Tracker.modes t) ∧
  cleanup_out (cleanup g) = raw_mode_cleanup_sequence (default Normal finish) ∧ raw_mode g = false ∧ panic_hook_armed g = false.
Proof.
  intros Hwf H1 H2. split; [| by destruct finish].
  assert (∃ t', Tracker.parser t' = Tracker.Ground ∧ Tracker.modes t' = Tracker.modes t ∧
    ∀ l, Tracker.modes (Tracker.feed t (ESC :: 91 :: l)) = Tracker.modes (Tracker.feed t' (ESC :: 91 :: l))) as (t' & Hp & Hm & Hf).
  { exists (Tracker.with_parser (Tracker.reset_csi t) Tracker.Ground). split_and!; [done | done |]. intros l. unfold Tracker.feed. cbn [foldl].
    do 2 f_equal. destruct t as [m p c o r]. by destruct p. }
  assert (length (Tracker.mouse_modes (Tracker.modes t)) = 4%nat) as Hlen by apply Hwf.
  rewrite cleanup_head, Hf, <- cleanup_head. unfold raw_mode_cleanup_sequence. destruct (is_emergency v).
  - refine (proj2 (Tracker.runs_app _ _ _ _ _ (cleanup_runs _ Hlen) (acts_runs _ _ _ _ acts_final_reset eq_refl) t' Hp Hm)).
  - exact (proj2 (cleanup_runs _ Hlen t' Hp Hm)).
Qed.

Lemma raw_cleanup_restores_witness :
  let g := guard_ends (Some Sighup) guard_new in
  Tracker.modes (Tracker.feed Tracker.new (raw_mode_cleanup_sequence Sighup)) = cleaned (Tracker.modes Tracker.new) ∧
  cleanup_out (cleanup g) = raw_mode_cleanup_sequence Sighup ∧ raw_mode g = false ∧ panic_hook_armed g = false.
Proof. exact (raw_cleanup_restores Sighup (Some Sighup) Tracker.new Tracker.tracker_new_wf ltac:(discriminate) ltac:(discriminate)). Defined.
End RawMode.
