(* ===== verification/AttachV2.v ===== *)
(** * The client of a second-version attach

    crates/portl-cli/src/commands/session.rs, [run_remote_attach_v2_once]: the client of a ghostty
    session reads frames from four streams, one for control, one for viewport snapshots, one for
    history and one for live output, and decides what it writes to the terminal.  The streams
    are independent; what relates their frames is the position in the session's output that a
    live frame starts and ends at and that a snapshot covers.

    A step of the loop is one branch of its [select!].  The task that reads the keyboard runs
    beside the loop and shares two mutexes with it, the size and the reload; what it does to
    them while the loop waits for the terminal is an argument of the model, as is the outcome of
    each write and each reading of the clock.  A mutex is never poisoned: no code that holds one
    panics. *)

From stdpp Require Import pretty.
From S2P Require Import Prelude Bytes Text Framing Steps.
Import Framing.Payload.

(** ** Frames, from wire/session.rs *)

Record AttachV2Progress := {
  loaded_bytes : Z;
  total_bytes : option Z;
  retained_history_truncated : bool;
  complete : bool;
}.

Inductive AttachV2ServerFrame :=
  | AttachReady (attach_id : bytes) (provider : string)
  | Heartbeat (attach_id : bytes) (sent_at_ms : Z)
  | PreludeChunk (attach_id : bytes) (seq : Z) (progress : AttachV2Progress) (payload : AttachV2Payload)
  | ViewportSnapshot (attach_id : bytes) (generation covers_live_seq cols rows resize_id : Z) (payload : AttachV2Payload)
  | LiveOutput (attach_id : bytes) (start_seq end_seq : Z) (payload : AttachV2Payload)
  | ReloadStarted (attach_id : bytes) (reload_id : Z) (total_bytes : option Z)
  | ReloadChunk (attach_id : bytes) (reload_id seq : Z) (progress : AttachV2Progress) (payload : AttachV2Payload)
  | ReloadDone (attach_id : bytes) (reload_id final_generation : Z)
  | ReloadCancelled (attach_id : bytes) (reload_id : Z)
  | BackpressureNotice (attach_id : bytes) (reason : string) (from_seq : Z)
  | ResyncRequired (attach_id : bytes) (reason : string) (from_seq : Z)
  | Exit (attach_id : bytes) (code : Z)
  | Error (attach_id : bytes) (message : string) (recoverable : bool).

Inductive AttachV2ClientFrame :=
  | CInput (attach_id : bytes) (input : bytes)
  | CResize (attach_id : bytes) (resize_id cols rows : Z)
  | CSignal (attach_id : bytes) (sig : Z)
  | CDetach (attach_id : bytes)
  | CHeartbeatAck (attach_id : bytes) (sent_at_ms : Z)
  | CReload (attach_id : bytes) (reload_id : Z)
  | CCancelReload (attach_id : bytes) (reload_id : Z)
  | CRequestViewport (attach_id : bytes) (reason : string) (resize_id : Z).

Definition frame_attach_id (f : AttachV2ServerFrame) : bytes :=
  match f with
  | AttachReady a _ | Heartbeat a _ | PreludeChunk a _ _ _ | ViewportSnapshot a _ _ _ _ _ _ | LiveOutput a _ _ _
  | ReloadStarted a _ _ | ReloadChunk a _ _ _ _ | ReloadDone a _ _ | ReloadCancelled a _ | BackpressureNotice a _ _
  | ResyncRequired a _ _ | Exit a _ | Error a _ _ => a
  end.

Definition attach_v2_frame_matches (f : AttachV2ServerFrame) (attach_id : bytes) : bool :=
  bool_decide (frame_attach_id f = attach_id).

(** ** The reload *)

Inductive AttachV2ReloadState := Idle | Loading (reload_id : Z) | AwaitingViewport (reload_id : Z).

Definition active_reload_id (s : AttachV2ReloadState) : option Z :=
  match s with Idle => None | Loading i | AwaitingViewport i => Some i end.

Definition cancellable_reload_id (s : AttachV2ReloadState) : option Z :=
  match s with Loading i => Some i | Idle | AwaitingViewport _ => None end.

Definition accepts_chunk (s : AttachV2ReloadState) (reload_id : Z) : bool :=
  match s with Loading i => i =? reload_id | _ => false end.

Definition state_mark_done (s : AttachV2ReloadState) (reload_id : Z) : AttachV2ReloadState * bool :=
  match s with
  | Loading i => if i =? reload_id then (AwaitingViewport reload_id, true) else (s, false)
  | AwaitingViewport i => (s, i =? reload_id)
  | Idle => (s, false)
  end.

Definition state_mark_cancelled (s : AttachV2ReloadState) (reload_id : Z) : AttachV2ReloadState * bool :=
  match s with
  | Loading i | AwaitingViewport i => if i =? reload_id then (AwaitingViewport reload_id, true) else (s, false)
  | Idle => (s, false)
  end.

Definition clear_after_viewport (s : AttachV2ReloadState) : AttachV2ReloadState :=
  match s with AwaitingViewport _ => Idle | _ => s end.

Definition allows_viewport_render (s : AttachV2ReloadState) : bool :=
  match s with Loading _ => false | _ => true end.

Record QueuedLiveOutput := { start_seq : Z; end_seq : Z; live_bytes : bytes }.

(** [post_reload_viewport] keeps the position it covers and its bytes, which nothing reads. *)
Record ReloadCoordinator := {
  state : AttachV2ReloadState;
  queued_live : list QueuedLiveOutput;
  post_reload_viewport : option (Z * bytes);
}.

Definition no_reload : ReloadCoordinator := {| state := Idle; queued_live := []; post_reload_viewport := None |}.

Definition with_state (s : AttachV2ReloadState) (r : ReloadCoordinator) : ReloadCoordinator :=
  {| state := s; queued_live := queued_live r; post_reload_viewport := post_reload_viewport r |}.

Definition reload_start (reload_id : Z) (r : ReloadCoordinator) : ReloadCoordinator :=
  if decide (active_reload_id (state r) = Some reload_id) then r
  else {| state := Loading reload_id; queued_live := []; post_reload_viewport := None |}.

Definition mark_done (reload_id : Z) (r : ReloadCoordinator) : ReloadCoordinator * bool :=
  let '(s, b) := state_mark_done (state r) reload_id in (with_state s r, b).

(** The queue is emptied whatever reload is cancelled. *)
Definition mark_cancelled (reload_id : Z) (r : ReloadCoordinator) : ReloadCoordinator * bool :=
  let '(s, b) := state_mark_cancelled (state r) reload_id in
  ({| state := s; queued_live := []; post_reload_viewport := post_reload_viewport r |}, b).

Definition handle_live_output (s e : Z) (l : bytes) (r : ReloadCoordinator) : ReloadCoordinator :=
  match active_reload_id (state r) with
  | None => r
  | Some _ => {| state := state r; queued_live := queued_live r ++ [{| start_seq := s; end_seq := e; live_bytes := l |}];
                 post_reload_viewport := post_reload_viewport r |}
  end.

Definition record_post_reload_viewport (covers : Z) (l : bytes) (r : ReloadCoordinator) : ReloadCoordinator :=
  match state r with
  | AwaitingViewport _ => {| state := state r; queued_live := queued_live r; post_reload_viewport := Some (covers, l) |}
  | _ => r
  end.

(** [&l\[n..\]] with [n] the smaller of a sequence difference and the length *)
Definition skip_bytes (covered start : Z) (l : bytes) : bytes :=
  drop (Nat.min (Z.to_nat (saturating_sub covered start)) (length l)) l.

(** The loop of [drain_queued_live] *)
Fixpoint drained (covered : Z) (q : list QueuedLiveOutput) : list QueuedLiveOutput :=
  match q with
  | [] => []
  | live :: q' =>
      if end_seq live <=? covered then drained covered q'
      else
        let live' := if start_seq live <? covered
                     then {| start_seq := covered; end_seq := end_seq live;
                             live_bytes := skip_bytes covered (start_seq live) (live_bytes live) |}
                     else live in
        let rest := drained (end_seq live') q' in
        match live_bytes live' with [] => rest | _ => live' :: rest end
  end.

Definition drain_queued_live (covered : Z) (r : ReloadCoordinator) : ReloadCoordinator * list QueuedLiveOutput :=
  let covered := match post_reload_viewport r with Some (c, _) => Z.max covered c | None => covered end in
  ({| state := clear_after_viewport (state r); queued_live := []; post_reload_viewport := post_reload_viewport r |},
   drained covered (queued_live r)).

Definition finish_reload_after_viewport (covers : Z) (l : bytes) (r : ReloadCoordinator)
    : ReloadCoordinator * list QueuedLiveOutput :=
  drain_queued_live covers (record_post_reload_viewport covers l r).

(** ** The viewport *)

Record AttachV2ResizeState := { resize_id : Z; rs_cols : Z; rs_rows : Z }.

Definition attach_v2_viewport_matches_resize_state (id cols rows : Z) (current : AttachV2ResizeState) : bool :=
  (id =? resize_id current) && (cols =? rs_cols current) && (rows =? rs_rows current).

Inductive AttachV2ViewportDecision := Render | DeferForReload | Stale.

Definition attach_v2_viewport_decision (generation last_viewport_generation id cols rows : Z)
    (current_resize : AttachV2ResizeState) (reload_state : AttachV2ReloadState) : AttachV2ViewportDecision :=
  if (generation <=? last_viewport_generation) || negb (attach_v2_viewport_matches_resize_state id cols rows current_resize)
  then Stale
  else if negb (allows_viewport_render reload_state) then DeferForReload
  else Render.

(** ESC \[?1049h ESC \[2J ESC \[H *)
Definition ALT_SCREEN_CLEAR : bytes := [27; 91; 63; 49; 48; 52; 57; 104; 27; 91; 50; 74; 27; 91; 72].

Definition live_output_overlaps_viewport (l : bytes) : bool :=
  bool_decide (take (length ALT_SCREEN_CLEAR) l = ALT_SCREEN_CLEAR).

(** ** The loop *)

Inductive Cause :=
  | ControlEnded | ReadFailed | DecodeFailed (e : PayloadError) | WriteFailed | RequestFailed | SinkRefused
  | Remote (message : string) | SinkError | CoordinatorStopped.

Inductive AttachEnd := Exited (code : Z) | Detached | QuitReconnect | Disconnected (c : Cause) | Signalled (variant : nat).

Inductive AttachInputEvent := EvClosed | EvDetached | EvQuitReconnect | EvRetryNow | EvBufferFull | EvSinkFailed.

(** What is written to the terminal, as [record_attach_paint_event_for_test] has it, with the
    status bar; and, not written, the live output that is left out, with the time, and the times at which a snapshot
    ended a reload. *)
Inductive Paint :=
  | PaintViewport (generation covers_live_seq : Z) (l : bytes)
  | PaintLive (queued : bool) (start_seq end_seq : Z) (l : bytes)
  | PaintPrelude (l : bytes)
  | PaintReset
  | PaintBar (text : string)
  | PaintClearBar
  | Elided (now : Z) (queued : bool) (start_seq end_seq : Z) (l : bytes)
  | Reloaded (now : Z).

(** The two shared mutexes and the counters of the sink *)
Record Shared := {
  reload : ReloadCoordinator;
  resize_state : AttachV2ResizeState;
  next_resize_id : Z;
  next_reload_id : Z;
  sent : list AttachV2ClientFrame;
}.

Record Client := {
  shared : Shared;
  covered_live_seq : Z;
  last_viewport_generation : Z;
  viewport_seen : bool;
  viewport_open : bool;
  history_open : bool;
  live_open : bool;
  resync_pending : bool;
  post_reload_dedup_until : option Z;
  viewport_deferred : bool;
  log : list Paint;
  ios : nat;
  ticks : nat;
}.

(** What the keyboard task does to the shared state: [AttachInputSink::resize] and [reload] *)
Inductive Key := KeyResize (cols rows : Z) | KeyReload.

Definition sink_resize (attach_id : bytes) (cols rows : Z) (s : Shared) : Shared :=
  let id := saturating_add U64_MAX (next_resize_id s) 1 in
  {| reload := reload s; resize_state := {| resize_id := id; rs_cols := cols; rs_rows := rows |};
     next_resize_id := id; next_reload_id := next_reload_id s;
     sent := sent s ++ [CResize attach_id id cols rows] |}.

Definition sink_reload (attach_id : bytes) (s : Shared) : Shared :=
  let id := saturating_add U64_MAX (next_reload_id s) 1 in
  {| reload := reload_start id (reload s); resize_state := resize_state s;
     next_resize_id := next_resize_id s; next_reload_id := id;
     sent := sent s ++ [CReload attach_id id] |}.

Definition sink_request_viewport (attach_id : bytes) (reason : string) (s : Shared) : Shared :=
  {| reload := reload s; resize_state := resize_state s; next_resize_id := next_resize_id s;
     next_reload_id := next_reload_id s;
     sent := sent s ++ [CRequestViewport attach_id reason (resize_id (resize_state s))] |}.

Definition press (attach_id : bytes) (s : Shared) (k : Key) : Shared :=
  match k with KeyResize c r => sink_resize attach_id c r s | KeyReload => sink_reload attach_id s end.

Definition on_reload (f : ReloadCoordinator → ReloadCoordinator) (s : Shared) : Shared :=
  {| reload := f (reload s); resize_state := resize_state s; next_resize_id := next_resize_id s;
     next_reload_id := next_reload_id s; sent := sent s |}.

(** Assignments to the variables of the loop *)
Definition set_shared f c := {| shared := f (shared c); covered_live_seq := covered_live_seq c;
  last_viewport_generation := last_viewport_generation c; viewport_seen := viewport_seen c; viewport_open := viewport_open c;
  history_open := history_open c; live_open := live_open c; resync_pending := resync_pending c;
  post_reload_dedup_until := post_reload_dedup_until c; viewport_deferred := viewport_deferred c; log := log c;
  ios := ios c; ticks := ticks c |}.
Definition set_covered v c := {| shared := shared c; covered_live_seq := v;
  last_viewport_generation := last_viewport_generation c; viewport_seen := viewport_seen c; viewport_open := viewport_open c;
  history_open := history_open c; live_open := live_open c; resync_pending := resync_pending c;
  post_reload_dedup_until := post_reload_dedup_until c; viewport_deferred := viewport_deferred c; log := log c;
  ios := ios c; ticks := ticks c |}.
Definition set_generation v c := {| shared := shared c; covered_live_seq := covered_live_seq c;
  last_viewport_generation := v; viewport_seen := viewport_seen c; viewport_open := viewport_open c;
  history_open := history_open c; live_open := live_open c; resync_pending := resync_pending c;
  post_reload_dedup_until := post_reload_dedup_until c; viewport_deferred := viewport_deferred c; log := log c;
  ios := ios c; ticks := ticks c |}.
Definition mark_viewport_seen c := {| shared := shared c; covered_live_seq := covered_live_seq c;
  last_viewport_generation := last_viewport_generation c; viewport_seen := true; viewport_open := viewport_open c;
  history_open := history_open c; live_open := live_open c; resync_pending := resync_pending c;
  post_reload_dedup_until := post_reload_dedup_until c; viewport_deferred := viewport_deferred c; log := log c;
  ios := ios c; ticks := ticks c |}.
Definition close_streams (v h l : bool) c := {| shared := shared c; covered_live_seq := covered_live_seq c;
  last_viewport_generation := last_viewport_generation c; viewport_seen := viewport_seen c;
  viewport_open := viewport_open c && negb v; history_open := history_open c && negb h; live_open := live_open c && negb l;
  resync_pending := resync_pending c; post_reload_dedup_until := post_reload_dedup_until c;
  viewport_deferred := viewport_deferred c; log := log c; ios := ios c; ticks := ticks c |}.
Definition set_resync v c := {| shared := shared c; covered_live_seq := covered_live_seq c;
  last_viewport_generation := last_viewport_generation c; viewport_seen := viewport_seen c; viewport_open := viewport_open c;
  history_open := history_open c; live_open := live_open c; resync_pending := v;
  post_reload_dedup_until := post_reload_dedup_until c; viewport_deferred := viewport_deferred c; log := log c;
  ios := ios c; ticks := ticks c |}.
Definition set_dedup v c := {| shared := shared c; covered_live_seq := covered_live_seq c;
  last_viewport_generation := last_viewport_generation c; viewport_seen := viewport_seen c; viewport_open := viewport_open c;
  history_open := history_open c; live_open := live_open c; resync_pending := resync_pending c;
  post_reload_dedup_until := v; viewport_deferred := viewport_deferred c; log := log c; ios := ios c; ticks := ticks c |}.
Definition set_deferred v c := {| shared := shared c; covered_live_seq := covered_live_seq c;
  last_viewport_generation := last_viewport_generation c; viewport_seen := viewport_seen c; viewport_open := viewport_open c;
  history_open := history_open c; live_open := live_open c; resync_pending := resync_pending c;
  post_reload_dedup_until := post_reload_dedup_until c; viewport_deferred := v; log := log c; ios := ios c;
  ticks := ticks c |}.
(** One exchange with the terminal or the keyboard task: it is logged, and the keys pressed while it
    lasts have their effect. *)
Definition exchanged (f : Shared → Shared) (p : list Paint) c := {| shared := f (shared c); covered_live_seq := covered_live_seq c;
  last_viewport_generation := last_viewport_generation c; viewport_seen := viewport_seen c; viewport_open := viewport_open c;
  history_open := history_open c; live_open := live_open c; resync_pending := resync_pending c;
  post_reload_dedup_until := post_reload_dedup_until c; viewport_deferred := viewport_deferred c; log := log c ++ p;
  ios := S (ios c); ticks := ticks c |}.
Definition ticked c := {| shared := shared c; covered_live_seq := covered_live_seq c;
  last_viewport_generation := last_viewport_generation c; viewport_seen := viewport_seen c; viewport_open := viewport_open c;
  history_open := history_open c; live_open := live_open c; resync_pending := resync_pending c;
  post_reload_dedup_until := post_reload_dedup_until c; viewport_deferred := viewport_deferred c; log := log c;
  ios := ios c; ticks := S (ticks c) |}.

(** A part of the loop's body: it leaves with [break] and the end of the attach, or goes on. *)
Abbreviation Loop := (Step Client AttachEnd).

(** [lock()], a change and a result *)
Definition locked {A} (f : ReloadCoordinator → ReloadCoordinator * A) : Loop A := λ c,
  (set_shared (on_reload (λ r, fst (f r))) c, Ok (snd (f (reload (shared c))))).

Definition note (p : Paint) (c : Client) : Client :=
  {| shared := shared c; covered_live_seq := covered_live_seq c; last_viewport_generation := last_viewport_generation c;
     viewport_seen := viewport_seen c; viewport_open := viewport_open c; history_open := history_open c;
     live_open := live_open c; resync_pending := resync_pending c; post_reload_dedup_until := post_reload_dedup_until c;
     viewport_deferred := viewport_deferred c; log := log c ++ [p]; ios := ios c; ticks := ticks c |}.

Inductive Read := Frame (f : AttachV2ServerFrame) | Eof | ReadError.

(** The branches of the [select!], and keys between two of them *)
Inductive Event :=
  | OnControl (r : Read) | OnViewport (r : Read) | OnHistory (r : Read) | OnLive (r : Read)
  | OnInput (e : option AttachInputEvent) | OnSignal (variant : nat) | OnKey (k : Key).

Section client.
Context {ZS : Zstd}.
Variable attach_id : bytes.
(** Of the n-th exchange: the keys pressed while it lasts, and whether it succeeds *)
Variable io : nat → list Key * bool.
(** The n-th reading of the clock, in milliseconds *)
Variable clock : nat → Z.

Definition exchange (f : Shared → Shared) (p : list Paint) : Loop bool := λ c,
  let '(keys, ok) := io (ios c) in
  (exchanged (λ s, foldl (press attach_id) (f s) keys) p c, Ok ok).

(** [display.…().await?], or [break] on an error *)
Definition paint (p : Paint) : Loop unit :=
  ok ← exchange id [p]; if (ok : bool) then skip else break (Disconnected WriteFailed).
(** [let _ = display.…().await] *)
Definition paint_anyway (p : Paint) : Loop unit := _ ← exchange id [p]; skip.

Definition request_viewport (reason : string) : Loop unit :=
  ok ← exchange (sink_request_viewport attach_id reason) [];
  if (ok : bool) then skip else break (Disconnected RequestFailed).

Definition now : Loop Z := λ c, (ticked c, Ok (clock (ticks c))).

Definition decode_or_break (p : AttachV2Payload) : Loop bytes :=
  match decode p ATTACH_V2_MAX_DECODED_PAYLOAD with
  | Ok l => mret l
  | Err e => break (Disconnected (DecodeFailed e))
  end.

Definition reload_of (c : Client) : AttachV2ReloadState := state (reload (shared c)).

Definition take_deferred_viewport_request : Loop bool :=
  c ← get id;
  if viewport_deferred c && allows_viewport_render (reload_of c) then assign (set_deferred false);; mret true
  else mret false.

Definition handle_attach_v2_control_frame (f : AttachV2ServerFrame) : Loop (option AttachEnd) :=
  match f with
  | ReloadStarted _ id total =>
      locked (λ r, (reload_start id r, tt));;
      paint PaintReset;;
      paint (PaintBar (match total with
        | None => "▌ Portl › reloading · Esc cancel"
        | Some t => "▌ Portl › reloading 0 / " +:+ dec t +:+ " bytes · Esc cancel" end));;
      mret None
  | ReloadDone _ id _ =>
      done ← locked (mark_done id);
      (if (done : bool) then paint PaintReset;; paint (PaintBar "▌ Portl › reload complete · refreshing viewport") else skip);;
      mret None
  | ReloadCancelled _ id =>
      done ← locked (mark_cancelled id);
      (if (done : bool)
       then assign (set_resync true);; paint (PaintBar "▌ Portl › reload cancelled · refreshing viewport") else skip);;
      mret None
  | BackpressureNotice _ reason _ | ResyncRequired _ reason _ =>
      assign (set_resync true);;
      paint (PaintBar ("▌ Portl › resyncing after " +:+ reason));;
      mret None
  | Exit _ code => mret (Some (Exited code))
  | Error _ message _ => mret (Some (Disconnected (Remote message)))
  | Heartbeat _ _ | AttachReady _ _ | PreludeChunk _ _ _ _ | ViewportSnapshot _ _ _ _ _ _ _ | LiveOutput _ _ _ _
  | ReloadChunk _ _ _ _ _ => mret None
  end.

Definition control_step (r : Read) : Loop unit :=
  match r with
  | Frame f =>
      if attach_v2_frame_matches f attach_id then
        e ← handle_attach_v2_control_frame f;
        match e with
        | Some e => break e
        | None =>
            deferred ← take_deferred_viewport_request;
            if (deferred : bool) then request_viewport "deferred_reload_viewport" else skip
        end
      else skip
  | Eof => break (Disconnected ControlEnded)
  | ReadError => break (Disconnected ReadFailed)
  end.

(** [post_reload_dedup_until.is_some_and(|deadline| Instant::now() <= deadline)]: the clock is read
    when there is a deadline, and is the result when it is true *)
Definition dedup_now : Loop (option Z) :=
  c ← get id;
  match post_reload_dedup_until c with
  | Some deadline => n ← now; mret (if n <=? deadline then Some n else None)
  | None => mret None
  end.

(** The live output queued during a reload *)
Fixpoint paint_queued (q : list QueuedLiveOutput) : Loop unit :=
  match q with
  | [] => skip
  | live :: q' =>
      c ← get id;
      if covered_live_seq c <? start_seq live then
        paint_anyway (PaintBar "▌ Portl › resyncing after reload live sequence gap");;
        assign (set_resync true);;
        request_viewport "reload_live_seq_gap"
      else
        assign (set_covered (end_seq live));;
        recent ← dedup_now;
        let show := paint (PaintLive true (start_seq live) (end_seq live) (live_bytes live));; paint_queued q' in
        match (recent : option Z) with
        | Some n =>
            if live_output_overlaps_viewport (live_bytes live) then
              assign (note (Elided n true (start_seq live) (end_seq live) (live_bytes live)));;
              paint_queued q'
            else show
        | None => show
        end
  end.

Definition render_viewport (generation covers : Z) (l : bytes) : Loop unit :=
  assign (set_deferred false);;
  assign (set_generation generation);;
  assign (λ c, set_covered (Z.max (covered_live_seq c) covers) c);;
  assign (set_resync false);;
  assign mark_viewport_seen;;
  paint (PaintViewport generation covers l);;
  after_reload ← get (λ c, match reload_of c with AwaitingViewport _ => true | _ => false end);
  queued ← locked (finish_reload_after_viewport covers l);
  (if (after_reload : bool) then n ← now; assign (set_dedup (Some (n + 1000)));; assign (note (Reloaded n)) else skip);;
  paint_queued queued;;
  paint_anyway PaintClearBar.

Definition viewport_step (r : Read) : Loop unit :=
  match r with
  | Frame (ViewportSnapshot a generation covers cols rows id payload) =>
      if bool_decide (a = attach_id) then
        c ← get Datatypes.id;
        match attach_v2_viewport_decision generation (last_viewport_generation c) id cols rows
                (resize_state (shared c)) (reload_of c) with
        | Render => l ← decode_or_break payload; render_viewport generation covers l
        | DeferForReload => assign (set_deferred true)
        | Stale => if last_viewport_generation c <? generation then assign mark_viewport_seen else skip
        end
      else skip
  | Frame _ => skip
  | Eof => assign (close_streams true false false)
  | ReadError => break (Disconnected ReadFailed)
  end.

Definition handle_attach_v2_reload_chunk_frame (id : Z) (progress : AttachV2Progress) (payload : AttachV2Payload) : Loop unit :=
  c ← get Datatypes.id;
  if accepts_chunk (reload_of c) id then
    paint_anyway (PaintBar (match total_bytes progress with
      | Some total => "▌ Portl › reloading " +:+ dec (loaded_bytes progress) +:+ " / " +:+ dec total +:+ " bytes · Esc cancel"
      | None => "▌ Portl › reloading " +:+ dec (loaded_bytes progress) +:+ " bytes · Esc cancel" end));;
    _ ← decode_or_break payload; skip
  else skip.

Definition history_step (r : Read) : Loop unit :=
  match r with
  | Frame (PreludeChunk a _ _ payload) =>
      if bool_decide (a = attach_id) then
        c ← get id;
        if viewport_seen c then skip else l ← decode_or_break payload; paint (PaintPrelude l)
      else skip
  | Frame (ReloadChunk a id _ progress payload) =>
      if bool_decide (a = attach_id) then handle_attach_v2_reload_chunk_frame id progress payload else skip
  | Frame _ => skip
  | Eof => assign (close_streams false true false)
  | ReadError => break (Disconnected ReadFailed)
  end.

Definition live_output (s e : Z) (payload : AttachV2Payload) : Loop unit :=
  c ← get id;
  match active_reload_id (reload_of c) with
  | Some _ => l ← decode_or_break payload; locked (λ r, (handle_live_output s e l r, tt))
  | None =>
      if covered_live_seq c <? s then
        paint_anyway (PaintBar "▌ Portl › resyncing after live sequence gap");;
        assign (set_resync true);;
        request_viewport "live_seq_gap"
      else
        l ← decode_or_break payload;
        let l := skip_bytes (covered_live_seq c) s l in
        let show :=
          assign (set_covered e);;
          paint (PaintLive false s e l) in
        match post_reload_dedup_until c with
        | None => show
        | Some deadline =>
            n ← now;
            if (n <=? deadline) && live_output_overlaps_viewport l then
              assign (set_covered e);; assign (note (Elided n false s e l))
            else
              n' ← now;
              (if deadline <? n' then assign (set_dedup None) else skip);;
              show
        end
  end.

Definition live_step (r : Read) : Loop unit :=
  match r with
  | Frame (LiveOutput a s e payload) =>
      c ← get id;
      if bool_decide (a = attach_id) && negb (resync_pending c) && (covered_live_seq c <? e) then live_output s e payload
      else skip
  | Frame _ => skip
  | Eof => assign (close_streams false false true)
  | ReadError => break (Disconnected ReadFailed)
  end.

Definition input_step (e : option AttachInputEvent) : Loop unit :=
  match e with
  | Some (EvDetached | EvClosed) => break Detached
  | Some EvQuitReconnect => break QuitReconnect
  | Some EvSinkFailed => break (Disconnected SinkError)
  | Some (EvRetryNow | EvBufferFull) => skip
  | None => break (Disconnected CoordinatorStopped)
  end.

(** A stream that has ended is not polled. *)
Definition loop_step (e : Event) : Loop unit :=
  c ← get id;
  match e with
  | OnControl r => control_step r
  | OnViewport r => if viewport_open c then viewport_step r else skip
  | OnHistory r => if history_open c then history_step r else skip
  | OnLive r => if live_open c then live_step r else skip
  | OnInput e => input_step e
  | OnSignal v => break (Signalled v)
  | OnKey k => assign (set_shared (λ s, press attach_id s k))
  end.

Fixpoint run_loop (evs : list Event) : Loop unit :=
  match evs with
  | [] => skip
  | e :: evs' => loop_step e;; run_loop evs'
  end.

Definition init (cols rows : Z) : Client := {|
  shared := {| reload := no_reload; resize_state := {| resize_id := 0; rs_cols := cols; rs_rows := rows |};
               next_resize_id := 0; next_reload_id := 0; sent := [] |};
  covered_live_seq := 0; last_viewport_generation := 0; viewport_seen := false;
  viewport_open := true; history_open := true; live_open := true;
  resync_pending := false; post_reload_dedup_until := None; viewport_deferred := false;
  log := []; ios := 0; ticks := 0 |}.

(** [drained] is what [drain_before_attach] gives; the sink is given away with what the keyboard
    task sends at once, and the bar is cleared; after the loop the sink is taken back. *)
Definition run_remote_attach_v2_once (drained : option AttachEnd) (cols rows : Z) (evs : list Event) : Client * result AttachEnd unit :=
  match drained with
  | Some e => (init cols rows, Err e)
  | None =>
      (ok ← exchange id [];
       (if (ok : bool) then skip else break (Disconnected SinkRefused));;
       paint PaintClearBar;;
       run_loop evs) (init cols rows)
  end.

(** ** Parts of the loop *)

Section logic.
Variable I : Client → Prop.

Lemma wp_locked {A} f (Q : A → Client → Prop) c :
  Q (snd (f (reload (shared c)))) (set_shared (on_reload (λ r, fst (f r))) c) → wp I (locked f) Q c.
Proof. done. Qed.

Lemma wp_now (Q : Z → Client → Prop) c : Q (clock (ticks c)) (ticked c) → wp I now Q c.
Proof. done. Qed.

Lemma wp_decode p (Q : bytes → Client → Prop) c :
  I c → (∀ l, decode p ATTACH_V2_MAX_DECODED_PAYLOAD = Ok l → Q l c) → wp I (decode_or_break p) Q c.
Proof. intros HI HQ. unfold decode_or_break. destruct (decode p _) as [l|e]; [by apply HQ | done]. Qed.

Lemma wp_exchange f p (Q : bool → Client → Prop) c :
  (∀ keys ok, Q ok (exchanged (λ s, foldl (press attach_id) (f s) keys) p c)) → wp I (exchange f p) Q c.
Proof. unfold wp, exchange. destruct (io (ios c)) as [keys ok]. auto. Qed.

Lemma wp_paint p (Q : unit → Client → Prop) c :
  (∀ keys, let c' := exchanged (λ s, foldl (press attach_id) s keys) [p] c in I c' ∧ Q tt c') → wp I (paint p) Q c.
Proof. intros H. apply wp_bind, wp_exchange. intros keys [|]; apply (H keys). Qed.

Lemma wp_paint_anyway p (Q : unit → Client → Prop) c :
  (∀ keys, Q tt (exchanged (λ s, foldl (press attach_id) s keys) [p] c)) → wp I (paint_anyway p) Q c.
Proof. intros H. apply wp_bind, wp_exchange. intros keys ok. apply (H keys). Qed.

Lemma wp_request reason (Q : unit → Client → Prop) c :
  (∀ keys, let c' := exchanged (λ s, foldl (press attach_id) (sink_request_viewport attach_id reason s) keys) [] c in
           I c' ∧ Q tt c') → wp I (request_viewport reason) Q c.
Proof. intros H. apply wp_bind, wp_exchange. intros keys [|]; apply (H keys). Qed.

Lemma wp_dedup_now (Q : option Z → Client → Prop) c : Q None c → Q None (ticked c) →
  (∀ n d, post_reload_dedup_until c = Some d → n ≤ d → Q (Some n) (ticked c)) → wp I dedup_now Q c.
Proof.
  intros H1 H2 H3. unfold dedup_now. apply wp_bind, wp_get. unfold id. destruct (post_reload_dedup_until c) as [d|] eqn:Hd; [| done].
  apply wp_bind, wp_now, wp_ret. case (Z.leb_spec (clock (ticks c)) d); [| done]. intros Hle. by apply (H3 _ d).
Qed.

End logic.

(** Keys start reloads, and change the size. *)
Lemma foldl_press keys s : let s' := foldl (press attach_id) s keys in
  reload s' = reload s ∨ queued_live (reload s') = [] ∧ post_reload_viewport (reload s') = None
    ∧ is_Some (active_reload_id (state (reload s'))).
Proof.
  induction keys as [|k keys IH] using rev_ind; [by left |]. cbn. rewrite foldl_app. cbn.
  destruct k; cbn; [exact IH |]. unfold reload_start. case_decide as Ha; [| right; eauto].
  destruct IH as [-> | IH]; auto.
Qed.

(** ** What the terminal shows

    [out] is the output of the session.  What a log has put on the terminal: a snapshot moves it to
    what it covers, not backwards, and live output is the output from there.  Live output may be left out only when it
    starts a full-screen program and a snapshot has ended a reload no more than a second ago: it is missing
    from the terminal until the next snapshot. *)

Record Screen := { upto : Z; missing : list (Z * Z); reloaded_until : option Z }.

(** ESC \[?1049h ESC \[2J ESC \[H: the alternate screen, cleared, with the cursor in its corner *)
Definition FULL_SCREEN_START : bytes := [27; 91; 63; 49; 48; 52; 57; 104] ++ [27; 91; 50; 74] ++ [27; 91; 72].

Definition slice (out : bytes) (s e : Z) : bytes := take (Z.to_nat (e - s)) (drop (Z.to_nat s) out).

Definition may_leave_out (n : Z) (l : bytes) (s : Screen) : bool :=
  bool_decide (FULL_SCREEN_START `prefix_of` l) && match reloaded_until s with Some until => n <=? until | None => false end.

Definition shows (out : bytes) (s : option Screen) (p : Paint) : option Screen :=
  s ← s;
  match p with
  | PaintViewport _ c _ => if upto s <=? c then Some {| upto := c; missing := []; reloaded_until := reloaded_until s |} else None
  | PaintLive _ _ e l =>
      if decide (upto s ≤ e ∧ l = slice out (upto s) e)
      then Some {| upto := e; missing := missing s; reloaded_until := reloaded_until s |} else None
  | Elided n _ _ e l =>
      if decide (upto s ≤ e ∧ l = slice out (upto s) e ∧ may_leave_out n l s = true)
      then Some {| upto := e; missing := missing s ++ [(upto s, e)]; reloaded_until := reloaded_until s |} else None
  | Reloaded n => Some {| upto := upto s; missing := missing s; reloaded_until := Some (n + 1000) |}
  | PaintPrelude _ | PaintReset | PaintBar _ | PaintClearBar => Some s
  end.

Definition shown (out : bytes) (l : list Paint) : option Screen := foldl (shows out) (Some {| upto := 0; missing := []; reloaded_until := None |}) l.

(** A live frame carries the output between its positions. *)
Definition true_live (out : bytes) (s e : Z) (l : bytes) : Prop :=
  0 ≤ s ≤ e ∧ e ≤ Z.of_nat (length out) ∧ l = slice out s e.

Definition true_event (out : bytes) (ev : Event) : Prop :=
  match ev with
  | OnLive (Frame (LiveOutput a s e payload)) =>
      a = attach_id → ∀ l, decode payload ATTACH_V2_MAX_DECODED_PAYLOAD = Ok l → true_live out s e l
  | _ => True
  end.

(** The snapshot that is rendered now, if the event is one *)
Definition renders (c : Client) (ev : Event) : option Z :=
  match ev with
  | OnViewport (Frame (ViewportSnapshot a generation covers cols rows id _)) =>
      if bool_decide (a = attach_id) && viewport_open c then
        match attach_v2_viewport_decision generation (last_viewport_generation c) id cols rows (resize_state (shared c)) (reload_of c) with
        | Render => Some covers
        | _ => None
        end
      else None
  | _ => None
  end.

(** The position up to which live frames have arrived, after an event and after a run *)
Definition arrived (seen : Z) (c : Client) (ev : Event) : Z :=
  match ev with
  | OnLive (Frame (LiveOutput a _ e _)) => if live_open c && bool_decide (a = attach_id) then Z.max seen e else seen
  | _ => seen
  end.

Fixpoint received (seen : Z) (c : Client) (evs : list Event) : Z :=
  match evs with
  | [] => seen
  | ev :: evs' => match loop_step ev c with
                  | (c', Ok _) => received (arrived seen c ev) c' evs'
                  | (_, Err _) => arrived seen c ev
                  end
  end.

(** [P c seen covers] of every snapshot rendered in a run *)

Fixpoint rendered_when (P : Client → Z → Z → Prop) (seen : Z) (c : Client) (evs : list Event) : Prop :=
  match evs with
  | [] => True
  | ev :: evs' =>
      (∀ covers, renders c ev = Some covers → P c seen covers) ∧
      match loop_step ev c with
      | (c', Ok _) => rendered_when P (arrived seen c ev) c' evs'
      | (_, Err _) => True
      end
  end.

(** The state in which the loop starts *)
Definition opened (cols rows : Z) : Client * result AttachEnd unit := run_remote_attach_v2_once None cols rows [].

(** *** The log has no holes *)

Section seamless.
Variable out : bytes.

Definition true_queued (q : QueuedLiveOutput) : Prop := true_live out (start_seq q) (end_seq q) (live_bytes q).

(** The screen after a log, and after one more paint: it is at a position, and knows the deadline of the client. *)
Definition screen_at (s : option Screen) (pos : Z) (c : Client) : Prop :=
  ∃ scr, s = Some scr ∧ upto scr = pos ∧ ∀ d, post_reload_dedup_until c = Some d → reloaded_until scr = Some d.
Definition displayed (c : Client) : Prop := screen_at (shown out (log c)) (covered_live_seq c) c.
Definition paints_to (c : Client) (p : Paint) (pos : Z) : Prop := screen_at (shows out (shown out (log c)) p) pos c.

Definition seamless (c : Client) : Prop :=
  displayed c ∧ 0 ≤ covered_live_seq c ∧
  Forall true_queued (queued_live (reload (shared c))) ∧
  match post_reload_viewport (reload (shared c)) with Some (v, _) => v ≤ covered_live_seq c | None => True end.

Lemma slice_skip s c e l : true_live out s e l → s ≤ c ≤ e → skip_bytes c s l = slice out c e.
Proof.
  intros (Hs & He & ->) Hc. unfold skip_bytes, slice, saturating_sub. rewrite Z.max_r by lia.
  rewrite length_take, length_drop, Nat.min_l by lia. rewrite skipn_firstn_comm, drop_drop. f_equal; [| f_equal]; lia.
Qed.

Lemma slice_nil s e l : true_live out s e l → l = [] → s = e.
Proof. intros (Hs & He & ->) Hl%(f_equal length). unfold slice in Hl. rewrite length_take, length_drop in Hl. cbn in Hl. lia. Qed.

(** The drained output starts where the output before it ends, or later. *)
Fixpoint chained (covered : Z) (q : list QueuedLiveOutput) : Prop :=
  match q with
  | [] => True
  | live :: q' => covered ≤ start_seq live ∧ true_queued live ∧ chained (end_seq live) q'
  end.

Lemma chained_le c c' q : c ≤ c' → chained c' q → chained c q.
Proof. intros Hc. destruct q; cbn; [done |]. intros (? & ? & ?). split_and!; [lia | done..]. Qed.

Lemma drained_chained c q : 0 ≤ c → Forall true_queued q → chained c (drained c q).
Proof.
  intros Hc Hq. revert c Hc. induction Hq as [|live q Hl Hq IH]; intros c Hc; cbn [drained]; [done |].
  destruct (Z.leb_spec (end_seq live) c) as [Hle|Hgt]; [by apply IH |].
  destruct (Z.ltb_spec (start_seq live) c) as [Hlt|Hge]; cbn [live_bytes start_seq end_seq].
  - rewrite (slice_skip _ c _ _ Hl) by lia.
    assert (true_queued {| start_seq := c; end_seq := end_seq live; live_bytes := slice out c (end_seq live) |}) as Ht.
    { destruct Hl as (? & ? & _). repeat split; cbn; lia. }
    destruct (slice out c (end_seq live)) as [|b l] eqn:E; cbn.
    + apply (chained_le c (end_seq live)); [lia |]. apply IH. lia.
    + split_and!; [lia | exact Ht | apply IH; lia].
  - destruct (live_bytes live) as [|b l] eqn:E; cbn.
    + apply (chained_le c (end_seq live)); [lia |]. apply IH. lia.
    + split_and!; [lia | done | apply IH; destruct Hl; lia].
Qed.

Lemma shown_snoc l p : shown out (l ++ [p]) = shows out (shown out l) p.
Proof. unfold shown. by rewrite foldl_app. Qed.

(** Keys and what is not output leave it so. *)
Lemma seamless_exchanged f keys p c : (∀ s, reload (f s) = reload s) →
  seamless c → match p with [] | [PaintReset] | [PaintBar _] | [PaintClearBar] | [PaintPrelude _] => True | _ => False end →
  seamless (exchanged (λ s, foldl (press attach_id) (f s) keys) p c).
Proof.
  intros Hf (Hl & H0 & Hq & Hv) Hp. split; [| split; [exact H0 |]].
  - unfold displayed, exchanged; cbn [log covered_live_seq]. destruct p as [|p [|]]; [by rewrite app_nil_r | | by destruct p].
    rewrite shown_snoc. destruct Hl as (scr & -> & Hu & Hd). destruct p; try done; by exists scr.
  - unfold exchanged; cbn [shared covered_live_seq]. destruct (foldl_press keys (f (shared c))) as [-> | (-> & -> & _)]; [by rewrite Hf | by split].
Qed.

(** The same with a snapshot or live output that is shown up to [pos], where the loop is now *)
Lemma seamless_painted keys p c pos : paints_to c p pos → covered_live_seq c = pos → 0 ≤ pos →
  Forall true_queued (queued_live (reload (shared c))) →
  match post_reload_viewport (reload (shared c)) with Some (v, _) => v ≤ pos | None => True end →
  seamless (exchanged (λ s, foldl (press attach_id) s keys) [p] c).
Proof.
  intros Hl <- H0 Hq Hv. split; [| split; [exact H0 |]].
  - unfold displayed, exchanged; cbn [log covered_live_seq]. by rewrite shown_snoc.
  - unfold exchanged; cbn [shared covered_live_seq]. destruct (foldl_press keys (shared c)) as [-> | (-> & -> & _)]; by split.
Qed.

Lemma paints_live c q s e : displayed c → covered_live_seq c ≤ e → paints_to c (PaintLive q s e (slice out (covered_live_seq c) e)) e.
Proof.
  intros (scr & Hs & Hu & Hd) He. unfold paints_to, screen_at. rewrite Hs. cbn. rewrite Hu, decide_True by done. eexists. by split.
Qed.

Lemma overlaps_prefix l : live_output_overlaps_viewport l = true → FULL_SCREEN_START `prefix_of` l.
Proof. intros H%bool_decide_eq_true. exists (drop (length ALT_SCREEN_CLEAR) l). rewrite <- (take_drop (length ALT_SCREEN_CLEAR) l) at 1. by rewrite H. Qed.

Lemma paints_elided c n d q s e : displayed c → covered_live_seq c ≤ e → post_reload_dedup_until c = Some d → n ≤ d →
  live_output_overlaps_viewport (slice out (covered_live_seq c) e) = true → paints_to c (Elided n q s e (slice out (covered_live_seq c) e)) e.
Proof.
  intros (scr & Hs & Hu & Hd) He Hp Hn Hov%overlaps_prefix. unfold paints_to, screen_at. rewrite Hs. cbn.
  assert (Hm : may_leave_out n (slice out (covered_live_seq c) e) scr = true).
  { unfold may_leave_out. rewrite bool_decide_true, (Hd d Hp) by done. by apply Z.leb_le. }
  rewrite Hu, decide_True by done. eexists. by split.
Qed.

Lemma seamless_noted p c pos : paints_to c p pos → covered_live_seq c = pos → 0 ≤ pos →
  Forall true_queued (queued_live (reload (shared c))) →
  match post_reload_viewport (reload (shared c)) with Some (v, _) => v ≤ pos | None => True end →
  seamless (note p c).
Proof. intros Hl <- H0 Hq Hv. split; [| done]. unfold displayed, note; cbn [log covered_live_seq]. by rewrite shown_snoc. Qed.

Lemma seamless_reloaded n c : seamless c → seamless (note (Reloaded n) (set_dedup (Some (n + 1000)) (ticked c))).
Proof.
  intros ((scr & Hs & Hu & Hd) & H0 & Hq & Hv). apply (seamless_noted _ _ (covered_live_seq c)); [| done..].
  unfold paints_to, screen_at. cbn [log set_dedup ticked]. rewrite Hs. eexists. split; [done |]. split; [done |]. by intros ? [= <-].
Qed.

Lemma post_le v c c' : c ≤ c' → match v : option (Z * bytes) with Some (v, _) => v ≤ c | None => True end →
  match v with Some (v, _) => v ≤ c' | None => True end.
Proof. destruct v as [[v l]|]; [lia | done]. Qed.

Lemma seamless_gap text reason c : seamless c →
  wp seamless (paint_anyway (PaintBar text);; assign (set_resync true);; request_viewport reason) (λ _, seamless) c.
Proof.
  intros Hc. apply wp_bind, wp_paint_anyway. intros keys. apply wp_bind, wp_assign, wp_request. intros keys'.
  split; apply seamless_exchanged; try done; by apply (seamless_exchanged id).
Qed.

Lemma paint_queued_seamless q c : seamless c → chained (covered_live_seq c) q → wp seamless (paint_queued q) (λ _, seamless) c.
Proof.
  revert c. induction q as [|live q IH]; intros c Hc Hq; cbn [paint_queued]; [done |].
  apply wp_bind, wp_get. unfold id. destruct Hq as (Hs & Ht & Hq). destruct (Z.ltb_spec (covered_live_seq c) (start_seq live)) as [|Hge].
  { by apply seamless_gap. }
  assert (covered_live_seq c = start_seq live) as Hcs by lia. destruct Hc as (Hl & H0 & Hqq & Hv).
  pose proof Ht as (? & ? & ->). rewrite <- Hcs in *. pose proof (paints_live c true (covered_live_seq c) (end_seq live) Hl ltac:(lia)) as Hp.
  apply (post_le _ _ (end_seq live)) in Hv; [| lia].
  assert (∀ c', log c' = log c → post_reload_dedup_until c' = post_reload_dedup_until c → shared c' = shared c → covered_live_seq c' = end_seq live →
    wp seamless (paint (PaintLive true (covered_live_seq c) (end_seq live) (slice out (covered_live_seq c) (end_seq live)));; paint_queued q)
      (λ _, seamless) c') as Hshow.
  { intros c' Hlog Hd Hsh Hco. apply wp_bind, wp_paint. intros keys.
    apply and_use; [| intros Hc'; apply IH; [exact Hc' | cbn; by rewrite Hco]].
    apply (seamless_painted _ _ _ (end_seq live)); unfold paints_to, screen_at; rewrite ?Hlog, ?Hd, ?Hsh; try done; lia. }
  apply wp_bind, wp_assign, wp_bind, wp_dedup_now; [by apply Hshow.. |]. intros n d Hd Hn. cbv zeta.
  destruct (live_output_overlaps_viewport _) eqn:Hov; [| by apply Hshow].
  apply wp_bind, wp_assign, IH; [| done]. apply (seamless_noted _ _ (end_seq live)); [| done | lia | done..].
  apply (paints_elided c n d); try done. lia.
Qed.

Lemma finish_seamless covers l c : seamless c → covered_live_seq c = covers →
  seamless (set_shared (on_reload (λ r, fst (finish_reload_after_viewport covers l r))) c) ∧
  chained covers (snd (finish_reload_after_viewport covers l (reload (shared c)))).
Proof.
  intros (Hl & H0 & Hq & Hv) Hcov. unfold finish_reload_after_viewport, drain_queued_live. cbv zeta. cbn [fst snd].
  assert (∀ r, queued_live (record_post_reload_viewport covers l r) = queued_live r) as Hr.
  { intros r. unfold record_post_reload_viewport. by destruct (state r). }
  assert (match post_reload_viewport (record_post_reload_viewport covers l (reload (shared c))) with
          | Some (v, _) => v ≤ covers | None => True end) as Hv'.
  { unfold record_post_reload_viewport. subst. destruct (state (reload (shared c))); [done.. | cbn; lia]. }
  rewrite Hr. split.
  - split; [exact Hl |]. split; [exact H0 |]. split; [apply Forall_nil_2 |]. subst. exact Hv'.
  - destruct (post_reload_viewport (record_post_reload_viewport covers l (reload (shared c)))) as [[v ?]|]; [rewrite Z.max_l by lia |]; apply drained_chained; [lia | done | lia | done].
Qed.

Lemma after_viewport_seamless covers l c : seamless c → covered_live_seq c = covers →
  wp seamless (after_reload ← get (λ c, match reload_of c with AwaitingViewport _ => true | _ => false end);
    queued ← locked (finish_reload_after_viewport covers l);
    (if (after_reload : bool) then n ← now; assign (set_dedup (Some (n + 1000)));; assign (note (Reloaded n)) else skip);;
    paint_queued queued;;
    paint_anyway PaintClearBar) (λ _, seamless) c.
Proof.
  intros Hc Hcov. apply wp_bind, wp_get, wp_bind, wp_locked. destruct (finish_seamless covers l c Hc Hcov) as [Hc' Hch].
  revert Hch. generalize (finish_reload_after_viewport covers l (reload (shared c))).2. intros q Hch.
  assert (∀ c', seamless c' → covered_live_seq c' = covers →
    wp seamless (paint_queued q;; paint_anyway PaintClearBar) (λ _, seamless) c') as HQ.
  { intros c' Hs <-. apply wp_bind. eapply wp_mono; [by apply paint_queued_seamless |]. intros ? c'' Hc''.
    apply wp_paint_anyway. intros keys'. by apply (seamless_exchanged id). }
  apply wp_bind. destruct (match reload_of c with AwaitingViewport _ => true | _ => false end).
  - apply wp_bind, wp_now, wp_bind, wp_assign, wp_assign. apply HQ; [| done]. by apply seamless_reloaded.
  - apply wp_ret. by apply HQ.
Qed.

Lemma render_viewport_seamless generation covers l c : seamless c → covered_live_seq c ≤ covers →
  wp seamless (render_viewport generation covers l) (λ _, seamless) c.
Proof.
  intros (Hl & H0 & Hq & Hv) Hcov. unfold render_viewport. do 5 apply wp_bind, wp_assign.
  apply wp_bind, wp_paint. intros keys. cbv zeta. apply and_use; [| intros Hc; apply after_viewport_seamless; [exact Hc | cbn; lia]].
  apply (seamless_painted _ _ _ covers); [| cbn; lia | lia | done |].
  - unfold paints_to. cbn [log set_resync set_covered set_generation set_deferred mark_viewport_seen]. destruct Hl as (scr & -> & Hu & Hd).
    cbn. rewrite Hu, (proj2 (Z.leb_le _ _)) by done. eexists. by split.
  - by apply (post_le _ (covered_live_seq c)).
Qed.

Lemma seamless_reload f c : seamless c →
  (∀ r, queued_live (f r) = queued_live r ∧ post_reload_viewport (f r) = post_reload_viewport r ∨ queued_live (f r) = [] ∧
        (post_reload_viewport (f r) = post_reload_viewport r ∨ post_reload_viewport (f r) = None)) →
  seamless (set_shared (on_reload f) c).
Proof.
  intros (Hl & H0 & Hq & Hv) Hf. split; [exact Hl |]. split; [exact H0 |]. cbn.
  destruct (Hf (reload (shared c))) as [[-> ->] | [-> [-> | ->]]]; by split.
Qed.

Lemma reload_start_calm i r : let r' := reload_start i r in
  queued_live r' = queued_live r ∧ post_reload_viewport r' = post_reload_viewport r ∨ queued_live r' = [] ∧
  (post_reload_viewport r' = post_reload_viewport r ∨ post_reload_viewport r' = None).
Proof. unfold reload_start. case_decide; cbn; auto. Qed.

Lemma mark_done_calm i r : queued_live (fst (mark_done i r)) = queued_live r ∧
  post_reload_viewport (fst (mark_done i r)) = post_reload_viewport r.
Proof. unfold mark_done. by destruct (state_mark_done _ _). Qed.

Lemma mark_cancelled_calm i r : queued_live (fst (mark_cancelled i r)) = [] ∧
  post_reload_viewport (fst (mark_cancelled i r)) = post_reload_viewport r.
Proof. unfold mark_cancelled. by destruct (state_mark_cancelled _ _). Qed.

Lemma seamless_paint p c : match p with PaintReset | PaintBar _ | PaintClearBar | PaintPrelude _ => True | _ => False end →
  seamless c → wp seamless (paint p) (λ _, seamless) c.
Proof. intros Hp Hc. apply wp_paint. intros keys. split; apply (seamless_exchanged id); try done; by destruct p. Qed.

Lemma control_frame_seamless f c : seamless c → wp seamless (handle_attach_v2_control_frame f) (λ _, seamless) c.
Proof.
  intros Hc. destruct f as [| | | | |? i total| |? i ?|? i|? reason ?|? reason ?| |]; try done; cbn [handle_attach_v2_control_frame].
  - apply wp_bind, wp_locked, wp_bind. cbn [fst]. eapply wp_mono.
    { apply seamless_paint; [done |]. apply seamless_reload; [done |]. intros r. apply reload_start_calm. }
    intros ? c' Hc'. apply wp_bind. eapply wp_mono; [by apply seamless_paint |]. done.
  - apply wp_bind, wp_locked, wp_bind.
    assert (seamless (set_shared (on_reload (λ r, fst (mark_done i r))) c)) as Hc' by (apply seamless_reload; auto using mark_done_calm).
    destruct (snd _); [| done]. apply wp_bind. eapply wp_mono; [by apply seamless_paint |]. intros ? c'' Hc''. by apply seamless_paint.
  - apply wp_bind, wp_locked, wp_bind.
    assert (seamless (set_shared (on_reload (λ r, fst (mark_cancelled i r))) c)) as Hc'.
    { apply seamless_reload; [done |]. intros r. destruct (mark_cancelled_calm i r) as [-> ->]. auto. }
    destruct (snd _); [| done]. apply wp_bind, wp_assign. by apply seamless_paint.
  - apply wp_bind, wp_assign, wp_bind. eapply wp_mono; [by apply seamless_paint |]. done.
  - apply wp_bind, wp_assign, wp_bind. eapply wp_mono; [by apply seamless_paint |]. done.
Qed.

Lemma control_step_seamless r c : seamless c → wp seamless (control_step r) (λ _, seamless) c.
Proof.
  intros Hc. destruct r as [f| |]; [| done..]. cbn [control_step]. destruct (attach_v2_frame_matches f attach_id); [| done].
  apply wp_bind. eapply wp_mono; [by apply control_frame_seamless |]. intros [e|] c' Hc'; [done |].
  apply wp_bind, wp_bind, wp_get. unfold id. destruct (viewport_deferred c' && _); [| done].
  apply wp_bind, wp_assign, wp_ret, wp_request. intros keys. split; by apply seamless_exchanged.
Qed.

Lemma viewport_step_seamless r c : seamless c → viewport_open c = true →
  (∀ covers, renders c (OnViewport r) = Some covers → covered_live_seq c ≤ covers) →
  wp seamless (viewport_step r) (λ _, seamless) c.
Proof.
  intros Hc Ho Hr. destruct r as [f| |]; [| done..]. destruct f as [| | |a g v cols rows i payload| | | | | | | | |]; try done.
  cbn [viewport_step renders] in *. rewrite Ho, andb_true_r in Hr. destruct (bool_decide _); [| done]. apply wp_bind, wp_get. unfold Datatypes.id.
  destruct (attach_v2_viewport_decision _ _ _ _ _ _ _); [| done | by case_match].
  apply wp_bind, wp_decode; [done |]. intros l _. apply render_viewport_seamless; auto.
Qed.

Lemma history_step_seamless r c : seamless c → wp seamless (history_step r) (λ _, seamless) c.
Proof.
  intros Hc. destruct r as [f| |]; [| done..]. destruct f; try done; cbn [history_step]; (case_bool_decide; [| done]).
  - apply wp_bind, wp_get. unfold id. destruct (viewport_seen c); [done |]. apply wp_bind, wp_decode; [done |]. intros l _.
    by apply seamless_paint.
  - apply wp_bind, wp_get. unfold Datatypes.id. destruct (accepts_chunk _ _); [| done]. apply wp_bind, wp_paint_anyway.
    intros keys. apply wp_bind, wp_decode; [| intros l _]; by apply (seamless_exchanged Datatypes.id).
Qed.

Lemma live_output_seamless s e payload c : seamless c → covered_live_seq c < e →
  (∀ l, decode payload ATTACH_V2_MAX_DECODED_PAYLOAD = Ok l → true_live out s e l) →
  wp seamless (live_output s e payload) (λ _, seamless) c.
Proof.
  intros Hc Hlt Ht. unfold live_output. apply wp_bind, wp_get. unfold id. destruct (active_reload_id (reload_of c)) as [i|] eqn:Ha.
  { apply wp_bind, wp_decode; [done |]. intros l Hl%Ht. apply wp_locked. destruct Hc as (Hl0 & H0 & Hq & Hv).
    split; [exact Hl0 |]. split; [exact H0 |]. cbn. unfold handle_live_output. fold (reload_of c). rewrite Ha.
    split; [by apply Forall_app_2, Forall_singleton | done]. }
  destruct (Z.ltb_spec (covered_live_seq c) s) as [|Hge]; [by apply seamless_gap |].
  apply wp_bind, wp_decode; [done |]. intros l Hl%Ht. rewrite (slice_skip _ _ _ _ Hl) by lia.
  destruct Hc as (Hl0 & H0 & Hq & Hv). apply (post_le _ _ e) in Hv; [| lia]. pose proof (paints_live c false s e Hl0 ltac:(lia)) as Hp.
  destruct (post_reload_dedup_until c) as [d|] eqn:Hd.
  2: { apply wp_bind, wp_assign, wp_paint. intros keys. split; apply (seamless_painted _ _ _ e); try done; lia. }
  apply wp_bind, wp_now. destruct ((_ <=? _) && _) eqn:Hb.
  { apply andb_true_iff in Hb as [Hn%Z.leb_le Hov]. apply wp_bind, wp_assign, wp_assign, (seamless_noted _ _ e); try done; [| lia].
    apply (paints_elided c _ d); try done. lia. }
  apply wp_bind, wp_now, wp_bind. match goal with |- wp _ (if ?b then _ else _) _ _ => destruct b end.
  - destruct Hp as (scr & Hsc & Hu & _). apply wp_assign, wp_bind, wp_assign, wp_paint. intros keys.
    split; apply (seamless_painted _ _ _ e); try done; try lia; by exists scr.
  - apply wp_ret, wp_bind, wp_assign, wp_paint. intros keys. split; apply (seamless_painted _ _ _ e); try done; lia.
Qed.

Lemma loop_step_seamless ev c : seamless c → true_event out ev →
  (∀ covers, renders c ev = Some covers → covered_live_seq c ≤ covers) → wp seamless (loop_step ev) (λ _, seamless) c.
Proof.
  intros Hc Ht Hr. apply wp_bind, wp_get. unfold id. destruct ev as [r|r|r|r|e|v|k].
  - by apply control_step_seamless.
  - destruct (viewport_open c) eqn:?; [by apply viewport_step_seamless | done].
  - destruct (history_open c); [by apply history_step_seamless | done].
  - destruct (live_open c); [| done]. destruct r as [f| |]; [| done..]. destruct f; try done. cbn [live_step true_event] in *.
    apply wp_bind, wp_get. unfold id. case_bool_decide; [| done]. destruct (resync_pending c); [done |]. cbn [negb andb].
    case (Z.ltb_spec _ _); [| done]. intros Hlt. apply live_output_seamless; auto.
  - by destruct e as [[]|].
  - done.
  - apply (seamless_exchanged id [k] [] c) in Hc as (Hl & H0 & Hq & Hv); [| done..].
    unfold displayed, exchanged in Hl; cbn [log covered_live_seq] in Hl. rewrite app_nil_r in Hl. done.
Qed.

Lemma run_loop_seamless evs seen c : seamless c → Forall (true_event out) evs →
  rendered_when (λ c _ covers, covered_live_seq c ≤ covers) seen c evs → wp seamless (run_loop evs) (λ _, seamless) c.
Proof.
  revert seen c. induction evs as [|ev evs IH]; intros seen c Hc Ht Hr; cbn [run_loop]; [done |].
  inversion Ht; subst. destruct Hr as [Hr Hn]. apply wp_bind. pose proof (loop_step_seamless ev c Hc ltac:(done) Hr) as Hs.
  unfold wp in Hs |- *. destruct (loop_step ev c) as [c' [[]|e]]; [| done]. by apply (IH (arrived seen c ev)).
Qed.
End seamless.

Lemma opened_run cols rows evs c0 : opened cols rows = (c0, Ok tt) → run_remote_attach_v2_once None cols rows evs = run_loop evs c0.
Proof.
  unfold opened, run_remote_attach_v2_once, paint, exchange, mbind, step_bind. cbn. destruct (io 0) as [k0 [|]]; cbn; [| done].
  destruct (io 1) as [k1 [|]]; cbn; [| done]. by intros [= <-].
Qed.

Lemma opened_shape cols rows c0 : opened cols rows = (c0, Ok tt) → log c0 = [PaintClearBar] ∧ covered_live_seq c0 = 0 ∧
  resync_pending c0 = false ∧ queued_live (reload (shared c0)) = [] ∧ post_reload_viewport (reload (shared c0)) = None ∧
  post_reload_dedup_until c0 = None.
Proof.
  unfold opened, run_remote_attach_v2_once, paint, exchange, mbind, step_bind. cbn. destruct (io 0) as [k0 [|]]; cbn; [| done].
  destruct (io 1) as [k1 [|]]; cbn; [| done]. intros [= <-]. cbn. split_and!; try done.
  all: set (s0 := Build_Shared _ _ _ _ _); destruct (foldl_press k1 (foldl (press attach_id) s0 k0)) as [-> | (Hq & Hp & _)]; [| done].
  all: by destruct (foldl_press k0 s0) as [-> | (Hq & Hp & _)].
Qed.

Lemma opened_seamless out cols rows c0 : opened cols rows = (c0, Ok tt) → seamless out c0.
Proof.
  intros (Hl & Hc & _ & Hq & Hp & Hd)%opened_shape. unfold seamless, displayed, screen_at. rewrite Hl, Hc, Hq, Hp, Hd.
  split_and!; [| lia | by apply Forall_nil_2 | done]. by eexists.
Qed.

Lemma missing_starts out l scr : shown out l = Some scr → Forall (λ '(s, e), FULL_SCREEN_START `prefix_of` slice out s e) (missing scr).
Proof.
  revert scr. induction l as [|p l IH] using rev_ind; intros scr; [intros [= <-]; apply Forall_nil_2 |].
  rewrite shown_snoc. destruct (shown out l) as [scr0|]; [| done]. specialize (IH scr0 eq_refl). cbn.
  destruct p; cbn; try (by intros [= <-]).
  - destruct (_ <=? _); [| done]. intros [= <-]. apply Forall_nil_2.
  - case_decide; [| done]. by intros [= <-].
  - case_decide as Hd; [| done]. intros [= <-]. destruct Hd as (_ & -> & Hm). apply andb_true_iff in Hm as [Hm%bool_decide_eq_true _].
    by apply Forall_app_2, Forall_singleton.
Qed.

Lemma unreloaded_complete out l scr : shown out l = Some scr → (∀ n, Reloaded n ∉ l) → missing scr = [] ∧ reloaded_until scr = None.
Proof.
  revert scr. induction l as [|p l IH] using rev_ind; intros scr; [by intros [= <-] |].
  rewrite shown_snoc. destruct (shown out l) as [scr0|]; [| done]. intros Hs Hn.
  destruct (IH scr0 eq_refl) as [Hm Hr]; [intros n Hin; apply (Hn n); set_solver |]. cbn in Hs. destruct p; cbn in Hs; try (by simplify_eq).
  - destruct (_ <=? _); by simplify_eq.
  - case_decide; by simplify_eq/=.
  - case_decide as Hd; [| done]. exfalso. destruct Hd as (_ & _ & Hd). unfold may_leave_out in Hd. by rewrite Hr, andb_false_r in Hd.
  - exfalso. eapply Hn, elem_of_app. right. by apply list_elem_of_singleton.
Qed.

(** What the terminal lacks: nothing when no snapshot has ended a reload, and never more than live frames
    that start a full-screen program. *)
Definition lacks_little (out : bytes) (l : list Paint) (scr : Screen) : Prop :=
  Forall (λ '(s, e), FULL_SCREEN_START `prefix_of` slice out s e) (missing scr) ∧ ((∀ n, Reloaded n ∉ l) → missing scr = []).

Lemma shown_lacks_little out l scr : shown out l = Some scr → lacks_little out l scr.
Proof. intros Hs. split; [by apply (missing_starts _ l) |]. intros Hn. by apply (unreloaded_complete out l). Qed.

Lemma run_loop_screen out evs seen c0 : seamless out c0 → Forall (true_event out) evs →
  rendered_when (λ c _ covers, covered_live_seq c ≤ covers) seen c0 evs → let c := fst (run_loop evs c0) in
  ∃ scr, shown out (log c) = Some scr ∧ upto scr = covered_live_seq c ∧ lacks_little out (log c) scr.
Proof.
  intros Hs Ht Hr. pose proof (run_loop_seamless out evs seen c0 Hs Ht Hr) as H. unfold wp in H. cbv zeta.
  assert (displayed out (fst (run_loop evs c0))) as (scr & Hsc & Hu & _) by (destruct (run_loop evs c0) as [c [[]|e]]; apply H).
  exists scr. auto using shown_lacks_little.
Qed.

(** C12: when the live frames carry the session's output and each snapshot that is rendered covers what has been
    rendered before, the terminal is given, whatever the order of the frames and the failures, one
    text without a repetition: each piece of live output starts where the snapshot or the piece before it ends.
    Only live output that starts a full-screen program is left out, and only in the second after the
    snapshot that ends a reload: the terminal lacks no other output, and none at all where nothing was reloaded. *)
Theorem screen_seamless out cols rows evs c0 : opened cols rows = (c0, Ok tt) → Forall (true_event out) evs →
  rendered_when (λ c _ covers, covered_live_seq c ≤ covers) 0 c0 evs →
  let c := fst (run_remote_attach_v2_once None cols rows evs) in
  ∃ scr, shown out (log c) = Some scr ∧ upto scr = covered_live_seq c ∧ lacks_little out (log c) scr.
Proof.
  intros Ho Ht Hr. cbv zeta. rewrite (opened_run _ _ _ _ Ho). apply (run_loop_screen out evs 0 c0); [| done..]. by eapply opened_seamless.
Qed.

(** *** Nothing that has arrived is missing *)

Definition current (seen : Z) (c : Client) : Prop :=
  resync_pending c = true ∨ is_Some (active_reload_id (reload_of c)) ∨ seen ≤ covered_live_seq c.

Abbreviation Any := (λ _ : Client, True).

Lemma current_exchanged f keys p seen c : (∀ s, reload (f s) = reload s) → current seen c →
  current seen (exchanged (λ s, foldl (press attach_id) (f s) keys) p c).
Proof.
  intros Hf [H | [H | H]]; [by left | | by right; right]. right; left. unfold reload_of, exchanged; cbn [shared].
  destruct (foldl_press keys (f (shared c))) as [-> | (_ & _ & Ha)]; [by rewrite Hf | done].
Qed.

Lemma current_paint p seen c : current seen c → wp Any (paint p) (λ _, current seen) c.
Proof. intros Hc. apply wp_paint. intros keys. split; [done |]. by apply (current_exchanged id). Qed.

Lemma current_gap text reason seen c :
  wp Any (paint_anyway (PaintBar text);; assign (set_resync true);; request_viewport reason) (λ _, current seen) c.
Proof.
  apply wp_bind, wp_paint_anyway. intros keys. apply wp_bind, wp_assign, wp_request. intros keys'. split; [done |]. by left.
Qed.

Lemma drained_above seen covered q : seen ≤ covered → Forall (λ live, seen ≤ end_seq live) (drained covered q).
Proof.
  revert covered. induction q as [|live q IH]; intros covered Hs; cbn [drained]; [apply Forall_nil_2 |].
  destruct (Z.leb_spec (end_seq live) covered); [by apply IH |].
  destruct (start_seq live <? covered); case_match; cbn [end_seq]; repeat constructor; cbn [end_seq]; try apply IH; cbn [end_seq]; lia.
Qed.

Lemma paint_queued_current q seen c : seen ≤ covered_live_seq c → Forall (λ live, seen ≤ end_seq live) q →
  wp Any (paint_queued q) (λ _ c', resync_pending c' = true ∨ seen ≤ covered_live_seq c') c.
Proof.
  intros Hc Hq. revert c Hc. induction Hq as [|live q Hl Hq IH]; intros c Hc; cbn [paint_queued]; [by right |].
  apply wp_bind, wp_get. unfold id. destruct (covered_live_seq c <? start_seq live).
  { apply wp_bind, wp_paint_anyway. intros keys. apply wp_bind, wp_assign, wp_request. intros keys'. split; [done |]. by left. }
  assert (∀ p c', covered_live_seq c' = end_seq live →
    wp Any (paint p;; paint_queued q) (λ _ c', resync_pending c' = true ∨ seen ≤ covered_live_seq c') c') as Hshow.
  { intros p c' Hc'. apply wp_bind, wp_paint. intros keys. split; [done |]. apply IH. cbn. lia. }
  apply wp_bind, wp_assign, wp_bind, wp_dedup_now; [by apply Hshow.. |]. intros n d _ _. cbv zeta.
  destruct (live_output_overlaps_viewport _); [by apply wp_bind, wp_assign, IH | by apply Hshow].
Qed.

Lemma render_viewport_current generation covers l seen c : seen ≤ covers →
  wp Any (render_viewport generation covers l) (λ _, current seen) c.
Proof.
  intros Hs. unfold render_viewport. do 5 apply wp_bind, wp_assign. apply wp_bind, wp_paint. intros keys. split; [done |].
  apply wp_bind, wp_get, wp_bind, wp_locked.
  match goal with |- wp _ (?m ≫= λ _, paint_queued ?q ≫= _) _ ?c' =>
    assert (seen ≤ covered_live_seq c') as Hc' by (cbn; lia); assert (Forall (λ live, seen ≤ end_seq live) q) as Hq;
    [| generalize dependent q; generalize dependent c'] end.
  { unfold finish_reload_after_viewport, drain_queued_live. cbv zeta. cbn [snd]. apply drained_above. case_match; [case_match |]; lia. }
  intros c' Hc' q Hq. apply wp_bind.
  assert (∀ c', seen ≤ covered_live_seq c' → wp Any (paint_queued q;; paint_anyway PaintClearBar) (λ _, current seen) c') as HQ.
  { intros c'' Hc''. apply wp_bind. eapply wp_mono; [by apply (paint_queued_current q seen) |]. intros ? c3 Hc3.
    apply wp_paint_anyway. intros keys'. apply (current_exchanged id); [done |]. destruct Hc3; [by left | by right; right]. }
  match goal with |- wp _ (if ?b then _ else _) _ _ => destruct b end.
  - apply wp_bind, wp_now, wp_bind, wp_assign, wp_assign. by apply HQ.
  - apply wp_ret. by apply HQ.
Qed.

Lemma mark_active i r : is_Some (active_reload_id (state r)) →
  is_Some (active_reload_id (state (fst (mark_done i r)))) ∧ is_Some (active_reload_id (state (fst (mark_cancelled i r)))).
Proof.
  unfold mark_done, mark_cancelled. destruct (state r); cbn; [intros [? [=]] | |]; intros _; repeat case_match; simplify_eq/=; eauto.
Qed.

Lemma control_frame_current f seen c : current seen c → wp Any (handle_attach_v2_control_frame f) (λ _, current seen) c.
Proof.
  intros Hc. destruct f as [| | | | |? i total| |? i ?|? i|? reason ?|? reason ?| |]; try done; cbn [handle_attach_v2_control_frame].
  - apply wp_bind, wp_locked, wp_bind. cbn [fst]. eapply wp_mono; [apply (current_paint _ seen) |].
    { right; left. unfold reload_of, set_shared, on_reload, reload_start; cbn [shared reload]. case_decide as H; [by rewrite H | by eexists]. }
    intros ? c' Hc'. apply wp_bind. eapply wp_mono; [by apply (current_paint _ seen) |]. done.
  - apply wp_bind, wp_locked, wp_bind.
    assert (current seen (set_shared (on_reload (λ r, fst (mark_done i r))) c)) as Hc'.
    { destruct Hc as [H | [H | H]]; [by left | right; left; by apply mark_active | by right; right]. }
    destruct (snd _); [| done]. apply wp_bind. eapply wp_mono; [by apply (current_paint _ seen) |]. intros ? c'' Hc''. by apply current_paint.
  - apply wp_bind, wp_locked, wp_bind. destruct (snd _) eqn:E.
    { apply wp_bind, wp_assign, current_paint. by left. }
    destruct Hc as [H | [H | H]]; [by left | right; left; by apply mark_active | by right; right].
  - apply wp_bind, wp_assign, wp_bind. eapply wp_mono; [apply (current_paint _ seen); by left |]. done.
  - apply wp_bind, wp_assign, wp_bind. eapply wp_mono; [apply (current_paint _ seen); by left |]. done.
Qed.

Lemma live_step_current r seen c : current seen c → live_open c = true →
  wp Any (live_step r) (λ _, current (arrived seen c (OnLive r))) c.
Proof.
  intros Hc Ho. destruct r as [f| |]; [| done..]. destruct f as [| | | |a s e payload| | | | | | | |]; try done.
  cbn [live_step arrived]. rewrite Ho. cbn [andb]. apply wp_bind, wp_get. unfold id. case_bool_decide; [| done]. destruct (resync_pending c) eqn:Hp; [by left |]. cbn [negb andb].
  destruct Hc as [Hc | Hc]; [congruence |]. case (Z.ltb_spec (covered_live_seq c) e); intros Hlt.
  2: { destruct Hc; [by right; left |]. right; right. lia. }
  unfold live_output. apply wp_bind, wp_get. unfold id. destruct (active_reload_id (reload_of c)) as [i|] eqn:Ha.
  { apply wp_bind, wp_decode; [done |]. intros l _. apply wp_locked. right; left. cbn. unfold handle_live_output, reload_of in *.
    cbn [shared set_shared on_reload reload]. rewrite Ha. cbn [state]. rewrite Ha. by eexists. }
  destruct Hc as [[? [=]] | Hc]. destruct (covered_live_seq c <? s); [apply current_gap |].
  apply wp_bind, wp_decode; [done |]. intros l _.
  assert (∀ c', covered_live_seq c' = e → current (Z.max seen e) c') as He by (intros c' <-; right; right; lia).
  destruct (post_reload_dedup_until c) as [d|].
  2: { apply wp_bind, wp_assign, current_paint. by apply He. }
  apply wp_bind, wp_now. destruct ((_ <=? _) && _); [apply wp_bind, wp_assign, wp_assign; by apply He |].
  apply wp_bind, wp_now, wp_bind. match goal with |- wp _ (if ?b then _ else _) _ _ => destruct b end.
  - apply wp_assign, wp_bind, wp_assign, current_paint. by apply He.
  - apply wp_ret, wp_bind, wp_assign, current_paint. by apply He.
Qed.

Lemma loop_step_current ev seen c : current seen c → (∀ covers, renders c ev = Some covers → seen ≤ covers) →
  wp Any (loop_step ev) (λ _, current (arrived seen c ev)) c.
Proof.
  intros Hc Hr. apply wp_bind, wp_get. unfold id. destruct ev as [r|r|r|r|e|v|k].
  - destruct r as [f| |]; [| done..]. cbn [control_step]. destruct (attach_v2_frame_matches f attach_id); [| done].
    apply wp_bind. eapply wp_mono; [by apply (control_frame_current f seen) |]. intros [e|] c' Hc'; [done |].
    apply wp_bind, wp_bind, wp_get. unfold id. destruct (viewport_deferred c' && _); [| done].
    apply wp_bind, wp_assign, wp_ret, wp_request. intros keys. split; [done |]. by apply current_exchanged.
  - destruct (viewport_open c) eqn:Ho; [| done]. destruct r as [f| |]; [| done..].
    destruct f as [| | |a g v cols rows i payload| | | | | | | | |]; try done. cbn [viewport_step renders] in *. rewrite Ho, andb_true_r in Hr.
    destruct (bool_decide _); [| done]. apply wp_bind, wp_get. unfold Datatypes.id.
    destruct (attach_v2_viewport_decision _ _ _ _ _ _ _); [| done | by case_match].
    apply wp_bind, wp_decode; [done |]. intros l _. apply render_viewport_current; auto.
  - destruct (history_open c); [| done]. destruct r as [f| |]; [| done..]. destruct f; try done; cbn [history_step]; (case_bool_decide; [| done]).
    + apply wp_bind, wp_get. unfold id. destruct (viewport_seen c); [done |]. apply wp_bind, wp_decode; [done |]. intros l _.
      by apply current_paint.
    + apply wp_bind, wp_get. unfold Datatypes.id. destruct (accepts_chunk _ _); [| done]. apply wp_bind, wp_paint_anyway.
      intros keys. apply wp_bind, wp_decode; [done |]. intros l _. by apply (current_exchanged Datatypes.id).
  - destruct (live_open c) eqn:Ho; [by apply live_step_current |]. apply wp_ret. unfold arrived. rewrite Ho. by repeat case_match.
  - by destruct e as [[]|].
  - done.
  - by apply (current_exchanged id [k] [] seen c) in Hc.
Qed.

Lemma run_loop_current evs seen c : current seen c → rendered_when (λ _ seen covers, seen ≤ covers) seen c evs →
  wp Any (run_loop evs) (λ _, current (received seen c evs)) c.
Proof.
  revert seen c. induction evs as [|ev evs IH]; intros seen c Hc Hr; cbn [run_loop received]; [done |].
  destruct Hr as [Hr Hn]. apply wp_bind. pose proof (loop_step_current ev seen c Hc Hr) as Hs.
  unfold wp in Hs |- *. destruct (loop_step ev c) as [c' [[]|e]]; [| done]. by apply IH.
Qed.

Lemma rendered_mono (P Q : Client → Z → Z → Prop) evs : (∀ c seen v, P c seen v → Q c seen v) →
  ∀ seen c, rendered_when P seen c evs → rendered_when Q seen c evs.
Proof.
  intros HPQ. induction evs as [|ev evs IH]; intros seen c; cbn; [done |]. intros [H1 H2]. split; [auto |].
  destruct (loop_step ev c) as [c' [|]]; auto.
Qed.

(** C21: when moreover each rendered snapshot covers the live frames that have arrived before it, then
    unless the client waits for a snapshot, in a reload or after a gap, the terminal shows all the output that has arrived, but for the
    starts of full-screen programs that are left out in the second after a reload. *)
Theorem screen_current out cols rows evs c0 c : opened cols rows = (c0, Ok tt) → Forall (true_event out) evs →
  rendered_when (λ c seen covers, covered_live_seq c ≤ covers ∧ seen ≤ covers) 0 c0 evs →
  run_remote_attach_v2_once None cols rows evs = (c, Ok tt) →
  resync_pending c = true ∨ is_Some (active_reload_id (reload_of c)) ∨
  ∃ scr, shown out (log c) = Some scr ∧ received 0 c0 evs ≤ upto scr ∧ lacks_little out (log c) scr.
Proof.
  intros Ho Ht Hr. rewrite (opened_run _ _ _ _ Ho). intros Hrun. pose proof (opened_seamless out _ _ _ Ho) as Hs.
  destruct (opened_shape _ _ _ Ho) as (_ & Hc & _). assert (current 0 c0) as Hcur by (right; right; lia).
  assert (seamless out c) as ((scr & Hshown & Hu & _) & _).
  { pose proof (run_loop_seamless out evs 0 c0 Hs Ht) as H. unfold wp in H. rewrite Hrun in H. apply H.
    revert Hr. apply rendered_mono. by intros ??? []. }
  assert (current (received 0 c0 evs) c) as [H | [H | H]]; [| by left | by right; left |].
  - pose proof (run_loop_current evs 0 c0 Hcur) as H. unfold wp in H. rewrite Hrun in H. apply H.
    revert Hr. apply rendered_mono. by intros ??? [].
  - right; right. exists scr. rewrite Hu. auto using shown_lacks_little.
Qed.

(** ** What these hypotheses are for *)

Definition quiet (c : Client) : Prop := ∀ n, (ios c ≤ n)%nat → io n = ([], true).

(** The snapshots and the live output come on streams of their own.  A snapshot that arrives after live
    output it does not cover is rendered: the output after it is wiped from the terminal, the
    client still counts it as shown, and does not ask for another snapshot. *)
Theorem overtaken_viewport_rewinds generation covers cols rows id payload l c : quiet c →
  viewport_open c = true → reload_of c = Idle → queued_live (reload (shared c)) = [] →
  last_viewport_generation c < generation → resize_state (shared c) = {| resize_id := id; rs_cols := cols; rs_rows := rows |} →
  decode payload ATTACH_V2_MAX_DECODED_PAYLOAD = Ok l → covers < covered_live_seq c →
  ∃ c', loop_step (OnViewport (Frame (ViewportSnapshot attach_id generation covers cols rows id payload))) c = (c', Ok tt) ∧
    log c' = log c ++ [PaintViewport generation covers l; PaintClearBar] ∧ sent (shared c') = sent (shared c) ∧
    covered_live_seq c' = covered_live_seq c ∧ resync_pending c' = false.
Proof.
  intros Hio Ho Hr Hq Hg Hs Hd Hc.
  assert (attach_v2_viewport_decision generation (last_viewport_generation c) id cols rows (resize_state (shared c)) (reload_of c) = Render) as Hdec.
  { unfold attach_v2_viewport_decision, attach_v2_viewport_matches_resize_state. rewrite Hs, Hr. cbn.
    rewrite !Z.eqb_refl. by rewrite (proj2 (Z.leb_gt _ _)). }
  unfold loop_step, viewport_step, get, mbind, step_bind. cbn [Datatypes.id]. rewrite Ho, bool_decide_true by done. rewrite Hdec.
  unfold decode_or_break. rewrite Hd. unfold mret, step_ret, render_viewport, paint, paint_anyway, exchange, assign, get, locked, mbind, step_bind.
  cbn -[finish_reload_after_viewport reload_of]. rewrite (Hio (ios c)) by lia. cbn -[finish_reload_after_viewport reload_of].
  unfold finish_reload_after_viewport, drain_queued_live, record_post_reload_viewport. unfold reload_of in *. cbn. rewrite Hr. cbn. rewrite Hq. cbn.
  cbn. rewrite (Hio (S (ios c))) by lia. cbn. eexists. split; [reflexivity |]. cbn. rewrite <- app_assoc. split_and!; [done | done | lia | done].
Qed.

(** For one second after a reload, live output that starts by entering the alternate screen is not
    written, also when it comes after everything the snapshot covers: the first screen of a
    program that starts then is lost. *)
Theorem fullscreen_start_elided s e deadline payload l c :
  live_open c = true → resync_pending c = false → reload_of c = Idle → covered_live_seq c = s → s < e →
  post_reload_dedup_until c = Some deadline → clock (ticks c) ≤ deadline →
  decode payload ATTACH_V2_MAX_DECODED_PAYLOAD = Ok l → live_output_overlaps_viewport l = true →
  ∃ c', loop_step (OnLive (Frame (LiveOutput attach_id s e payload))) c = (c', Ok tt) ∧
    log c' = log c ++ [Elided (clock (ticks c)) false s e l] ∧ ios c' = ios c ∧ covered_live_seq c' = e ∧ resync_pending c' = false.
Proof.
  intros Ho Hp Hr <- He Hdl Hn Hd Hov. unfold loop_step, live_step, live_output, get, mbind, step_bind. cbn [Datatypes.id].
  rewrite Ho, bool_decide_true, Hp by done. cbn [negb andb]. rewrite (proj2 (Z.ltb_lt _ _)), Hr by done. cbn [active_reload_id].
  rewrite Z.ltb_irrefl. unfold decode_or_break. rewrite Hd. cbn [mret step_ret]. rewrite Hdl. unfold now.
  assert (skip_bytes (covered_live_seq c) (covered_live_seq c) l = l) as ->.
  { unfold skip_bytes, saturating_sub. by rewrite Z.sub_diag. }
  rewrite Hov, (proj2 (Z.leb_le _ _)) by done. cbn. eexists. split; [reflexivity |]. done.
Qed.

(** ** A size the server does not have *)

Definition is_resize (k : Key) : bool := match k with KeyResize _ _ => true | KeyReload => false end.
Definition paints_screen (p : Paint) : bool := match p with PaintViewport _ _ _ | PaintLive _ _ _ _ => true | _ => false end.

Section frozen.
Variables cols rows : Z.
Hypothesis no_resize : ∀ n, Forall (λ k, is_resize k = false) (io n).1.

Record frozen (c : Client) : Prop := {
  fz_size : resize_state (shared c) = {| resize_id := 0; rs_cols := cols; rs_rows := rows |};
  fz_covered : covered_live_seq c = 0;
  fz_log : Forall (λ p, paints_screen p = false) (log c);
}.

Lemma press_size keys s : Forall (λ k, is_resize k = false) keys → resize_state (foldl (press attach_id) s keys) = resize_state s.
Proof. intros Hk. revert s. induction Hk as [|k keys Hk _ IH]; intros s; [done |]. cbn. rewrite IH. by destruct k. Qed.

Lemma wp_frozen_exchange f p (Q : bool → Client → Prop) c : (∀ s, resize_state (f s) = resize_state s) →
  Forall (λ p, paints_screen p = false) p → frozen c → (∀ ok c', frozen c' → Q ok c') → wp frozen (exchange f p) Q c.
Proof.
  intros Hf Hp [Hs Hc Hl] HQ. unfold wp, exchange. pose proof (no_resize (ios c)) as Hk. destruct (io (ios c)) as [keys ok].
  apply HQ. split; cbn; [by rewrite press_size, Hf | done | by apply Forall_app].
Qed.

Lemma wp_frozen_paint p (Q : unit → Client → Prop) c : paints_screen p = false → frozen c → (∀ c', frozen c' → Q tt c') → wp frozen (paint p) Q c.
Proof.
  intros Hp Hz HQ. apply wp_bind, wp_frozen_exchange; [done | by constructor | done |]. intros [] c' Hz'; [by apply wp_ret, HQ | by apply wp_break].
Qed.

Lemma wp_frozen_paint_anyway p (Q : unit → Client → Prop) c : paints_screen p = false → frozen c → (∀ c', frozen c' → Q tt c') →
  wp frozen (paint_anyway p) Q c.
Proof. intros Hp Hz HQ. apply wp_bind, wp_frozen_exchange; [done | by constructor | done |]. intros ok c' Hz'. by apply wp_ret, HQ. Qed.

Lemma wp_frozen_request reason c : frozen c → wp frozen (request_viewport reason) (λ _, frozen) c.
Proof. intros Hz. apply wp_bind, wp_frozen_exchange; [done | done | done |]. intros [] c' Hz'; [by apply wp_ret | by apply wp_break]. Qed.

Lemma wp_frozen_locked {A} f (Q : A → Client → Prop) c : frozen c → (∀ a c', frozen c' → Q a c') → wp frozen (locked f) Q c.
Proof. intros [Hs Hc Hl] HQ. apply wp_locked, HQ. by split. Qed.

Lemma frozen_control f c : frozen c → wp frozen (handle_attach_v2_control_frame f) (λ _, frozen) c.
Proof.
  intros Hz. assert (Hr : ∀ c', frozen c' → frozen (set_resync true c')) by (intros c' []; by split).
  destruct f; cbn [handle_attach_v2_control_frame]; try by apply wp_ret.
  - apply wp_bind, wp_frozen_locked; [done |]. intros _ c1 Hz1. apply wp_bind, wp_frozen_paint; [done | done |]. intros c2 Hz2.
    apply wp_bind, wp_frozen_paint; [done | done |]. intros c3 Hz3. by apply wp_ret.
  - apply wp_bind, wp_frozen_locked; [done |]. intros done c1 Hz1. apply wp_bind. destruct done; [| by apply wp_ret, wp_ret].
    apply wp_bind, wp_frozen_paint; [auto | auto |]. intros c2 Hz2. apply wp_frozen_paint; [auto | auto |]. intros c3 Hz3. by apply wp_ret.
  - apply wp_bind, wp_frozen_locked; [done |]. intros done c1 Hz1. apply wp_bind. destruct done; [| by apply wp_ret, wp_ret].
    apply wp_bind, wp_assign, wp_frozen_paint; [auto | auto |]. intros c2 Hz2. by apply wp_ret.
  - apply wp_bind, wp_assign, wp_bind, wp_frozen_paint; [auto | auto |]. intros c2 Hz2. by apply wp_ret.
  - apply wp_bind, wp_assign, wp_bind, wp_frozen_paint; [auto | auto |]. intros c2 Hz2. by apply wp_ret.
Qed.

(** Snapshots of another size, live output from a later position on, and no change of the size here *)
Definition other_size (ev : Event) : Prop :=
  match ev with
  | OnViewport (Frame (ViewportSnapshot _ _ _ cols' rows' _ _)) => (cols', rows') ≠ (cols, rows)
  | OnLive (Frame (LiveOutput _ s _ _)) => 0 < s
  | OnKey k => is_resize k = false
  | _ => True
  end.

Lemma frozen_viewport r c : frozen c → other_size (OnViewport r) → wp frozen (viewport_step r) (λ _, frozen) c.
Proof.
  intros Hz Ho. assert (frozen (mark_viewport_seen c) ∧ frozen (close_streams true false false c)) as [] by (destruct Hz; by repeat split).
  destruct r as [f| |]; [| done | done]. destruct f as [| | |a generation covers cols' rows' id payload| | | | | | | | |]; try by apply wp_ret.
  cbn [viewport_step]. case_bool_decide; [| by apply wp_ret]. apply wp_bind, wp_get. unfold Datatypes.id.
  unfold attach_v2_viewport_decision, attach_v2_viewport_matches_resize_state. rewrite (fz_size c Hz). cbn [resize_id rs_cols rs_rows].
  assert ((id =? 0) && (cols' =? cols) && (rows' =? rows) = false) as ->.
  { cbn in Ho. destruct (Z.eqb_spec cols' cols) as [->|], (Z.eqb_spec rows' rows) as [->|]; by rewrite ?andb_false_r. }
  rewrite orb_true_r. destruct (_ <? _); [by apply wp_assign | by apply wp_ret].
Qed.

Lemma frozen_live r c : frozen c → other_size (OnLive r) → wp frozen (live_step r) (λ _, frozen) c.
Proof.
  intros Hz Ho. assert (frozen (close_streams false false true c)) by (destruct Hz; by split).
  destruct r as [f| |]; [| done | done]. destruct f as [| | | |a s e payload| | | | | | | |]; try by apply wp_ret.
  cbn [live_step]. apply wp_bind, wp_get. unfold id. destruct (_ && _); [| by apply wp_ret]. apply wp_bind, wp_get. unfold id.
  destruct (active_reload_id _).
  - apply wp_bind, wp_decode; [done |]. intros l _. apply wp_frozen_locked; [done |]. by intros _ c'.
  - rewrite (fz_covered c Hz), (proj2 (Z.ltb_lt _ _)) by done. apply wp_bind, wp_frozen_paint_anyway; [done | done |]. intros c1 Hz1.
    apply wp_bind, wp_assign, wp_frozen_request. destruct Hz1; by split.
Qed.

Lemma frozen_history r c : frozen c → wp frozen (history_step r) (λ _, frozen) c.
Proof.
  intros Hz. assert (frozen (close_streams false true false c)) by (destruct Hz; by split).
  destruct r as [f| |]; [| done | done]. destruct f; try by apply wp_ret.
  - cbn [history_step]. case_bool_decide; [| by apply wp_ret]. apply wp_bind, wp_get. unfold id. destruct (viewport_seen c); [by apply wp_ret |].
    apply wp_bind, wp_decode; [done |]. intros l _. by apply wp_frozen_paint.
  - cbn [history_step]. case_bool_decide; [| by apply wp_ret]. apply wp_bind, wp_get. unfold Datatypes.id. destruct (accepts_chunk _ _); [| by apply wp_ret].
    apply wp_bind, wp_frozen_paint_anyway; [done | done |]. intros c1 Hz1. apply wp_bind, wp_decode; [done |]. intros l _. by apply wp_ret.
Qed.

Lemma frozen_step ev c : frozen c → other_size ev → wp frozen (loop_step ev) (λ _, frozen) c.
Proof.
  intros Hz Ho. apply wp_bind, wp_get. unfold id. destruct ev as [r|r|r|r|e|v|k].
  - destruct r as [f| |]; [| by apply wp_break | by apply wp_break]. cbn [control_step]. destruct (attach_v2_frame_matches f attach_id); [| by apply wp_ret].
    apply wp_bind. eapply wp_mono; [by apply frozen_control |]. intros [e|] c1 Hz1; [by apply wp_break |].
    apply wp_bind, wp_bind, wp_get. unfold id. destruct (_ && _); [| by apply wp_ret, wp_ret].
    apply wp_bind, wp_assign, wp_ret, wp_frozen_request. destruct Hz1; by split.
  - destruct (viewport_open c); [by apply frozen_viewport | by apply wp_ret].
  - destruct (history_open c); [by apply frozen_history | by apply wp_ret].
  - destruct (live_open c); [by apply frozen_live | by apply wp_ret].
  - destruct e as [[]|]; by apply wp_break || by apply wp_ret.
  - by apply wp_break.
  - apply wp_assign. destruct Hz as [Hs Hc Hl]. split; cbn; [by destruct k | done | done].
Qed.

(** A client whose size is not the one its session was attached with renders no snapshot and writes no live output:
    every snapshot is of the other size and ignored, and the output waits for a snapshot. *)
Theorem stale_size_freezes evs : Forall other_size evs →
  Forall (λ p, paints_screen p = false) (log (run_remote_attach_v2_once None cols rows evs).1).
Proof.
  intros Ho. assert (Hz0 : frozen (init cols rows)) by by split.
  assert (Hrun : ∀ evs c, Forall other_size evs → frozen c → wp frozen (run_loop evs) (λ _, frozen) c).
  { clear Ho Hz0 evs. intros evs. induction evs as [|ev evs IH]; intros c Ho Hz; cbn [run_loop]; [by apply wp_ret |].
    apply Forall_cons in Ho as [He Ho]. apply wp_bind. eapply wp_mono; [by apply frozen_step |]. intros ? c' Hz'. by apply IH. }
  assert (H : wp frozen (ok ← exchange id []; (if (ok : bool) then skip else break (Disconnected SinkRefused));; paint PaintClearBar;; run_loop evs)
    (λ _, frozen) (init cols rows)).
  { apply wp_bind, wp_frozen_exchange; [done | done | done |]. intros [] c1 Hz1; [| by apply wp_bind, wp_break].
    apply wp_bind, wp_ret, wp_bind, wp_frozen_paint; [done | done |]. intros c2 Hz2. by apply Hrun. }
  unfold run_remote_attach_v2_once. unfold wp in H. revert H. case_match; case_match; intros [_ _ Hq]; subst; exact Hq.
Qed.
End frozen.
End client.

(** ** An attach with a reload *)

Module Demo.
Import Framing.Payload.Demo.

Definition me : bytes := [9].
Definition text : bytes := [104; 101; 108; 108; 111; 33; 33; 33].
Definition calm (n : nat) : list Key * bool := ([], true).
Definition clock (n : nat) : Z := Z.of_nat n.

Definition snapshot (generation covers : Z) : Event :=
  OnViewport (Frame (ViewportSnapshot me generation covers 80 24 0 (raw [27; 91]))).
Definition output (s e : Z) : Event := OnLive (Frame (LiveOutput me s e (raw (slice text s e)))).

(** Output that arrives during a reload is queued, and written after the snapshot. *)
Definition session (covers : Z) : list Event :=
  [snapshot 1 3; output 2 5; OnKey KeyReload; output 5 6; OnControl (Frame (ReloadDone me 1 0)); snapshot 2 covers; output 6 8].

Abbreviation step := (loop_step me calm clock).
Definition c0 : Client := Eval vm_compute in fst (opened me calm clock 80 24).
Definition c1 : Client := Eval vm_compute in fst (step (snapshot 1 3) c0).
Definition c2 : Client := Eval vm_compute in fst (step (output 2 5) c1).
Definition c3 : Client := Eval vm_compute in fst (step (OnKey KeyReload) c2).
Definition c4 : Client := Eval vm_compute in fst (step (output 5 6) c3).
Definition c5 : Client := Eval vm_compute in fst (step (OnControl (Frame (ReloadDone me 1 0))) c4).
Definition c6 (covers : Z) : Client := Eval cbv in fst (step (snapshot 2 covers) c5).
Definition c7 : Client := Eval vm_compute in fst (step (output 6 8) (c6 6)).

Lemma next_rendered P seen c c' ev evs : step ev c = (c', Ok tt) → (∀ covers, renders me c ev = Some covers → P c seen covers) →
  rendered_when me calm clock P (arrived me seen c ev) c' evs → rendered_when me calm clock P seen c (ev :: evs).
Proof. intros Hs Hr Hn. split; [done |]. by rewrite Hs. Qed.

Lemma next_run c c' ev evs r : step ev c = (c', Ok tt) → run_loop me calm clock evs c' = r → run_loop me calm clock (ev :: evs) c = r.
Proof. intros Hs Hn. cbn [run_loop]. unfold mbind, step_bind. by rewrite Hs. Qed.

Lemma true_output s e : 0 ≤ s ≤ e → e ≤ 8 → true_event me text (output s e).
Proof.
  intros Hs He _ l Hl. rewrite decode_raw in Hl. case_match; [| done]. injection Hl as <-. done.
Qed.

Lemma true_session covers : Forall (true_event me text) (session covers).
Proof. unfold session. rewrite !Forall_cons. split_and!; try done; apply true_output; lia. Qed.

Lemma screen_seamless_witness : let c := fst (run_remote_attach_v2_once me calm clock None 80 24 (session 5)) in
  ∃ scr, shown text (log c) = Some scr ∧ upto scr = covered_live_seq c ∧ lacks_little text (log c) scr.
Proof.
  apply (screen_seamless me calm clock text 80 24 (session 5) c0); [reflexivity | apply true_session |].
  apply (next_rendered _ _ c0 c1); [reflexivity | intros ? [= <-]; done |]. apply (next_rendered _ _ c1 c2); [reflexivity | done |].
  apply (next_rendered _ _ c2 c3); [reflexivity | done |]. apply (next_rendered _ _ c3 c4); [reflexivity | done |].
  apply (next_rendered _ _ c4 c5); [reflexivity | done |]. apply (next_rendered _ _ c5 (c6 5)); [reflexivity | intros ? [= <-]; done |].
  split; [done |]. by case_match; case_match.
Defined.

Lemma screen_current_witness : resync_pending c7 = true ∨ is_Some (active_reload_id (reload_of c7)) ∨
  ∃ scr, shown text (log c7) = Some scr ∧ received me calm clock 0 c0 (session 6) ≤ upto scr ∧ lacks_little text (log c7) scr.
Proof.
  apply (screen_current me calm clock text 80 24 (session 6) c0); [reflexivity | apply true_session | |].
  - apply (next_rendered _ _ c0 c1); [reflexivity | intros ? [= <-]; done |]. apply (next_rendered _ _ c1 c2); [reflexivity | done |].
    apply (next_rendered _ _ c2 c3); [reflexivity | done |]. apply (next_rendered _ _ c3 c4); [reflexivity | done |].
    apply (next_rendered _ _ c4 c5); [reflexivity | done |]. apply (next_rendered _ _ c5 (c6 6)); [reflexivity | intros ? [= <-]; done |].
    split; [done |]. by case_match; case_match.
  - rewrite (opened_run me calm clock 80 24 _ c0) by reflexivity.
    apply (next_run c0 c1); [reflexivity |]. apply (next_run c1 c2); [reflexivity |]. apply (next_run c2 c3); [reflexivity |].
    apply (next_run c3 c4); [reflexivity |]. apply (next_run c4 c5); [reflexivity |]. apply (next_run c5 (c6 6)); [reflexivity |].
    by apply (next_run (c6 6) c7).
Defined.

(** Live output up to 5 is shown when a snapshot of 3 comes. *)
Lemma overtaken_viewport_rewinds_witness :
  ∃ c', step (snapshot 2 3) c2 = (c', Ok tt) ∧
    log c' = log c2 ++ [PaintViewport 2 3 [27; 91]; PaintClearBar] ∧ sent (shared c') = sent (shared c2) ∧
    covered_live_seq c' = 5 ∧ resync_pending c' = false.
Proof. by apply (overtaken_viewport_rewinds me calm clock 2 3 80 24 0 (raw [27; 91]) [27; 91] c2). Defined.

Definition fullscreen : bytes := ALT_SCREEN_CLEAR ++ [104; 105].

Lemma fullscreen_start_elided_witness :
  ∃ c', step (OnLive (Frame (LiveOutput me 8 25 (raw fullscreen)))) c7 = (c', Ok tt) ∧
    log c' = log c7 ++ [Elided (clock (ticks c7)) false 8 25 fullscreen] ∧ ios c' = ios c7 ∧ covered_live_seq c' = 25 ∧
    resync_pending c' = false.
Proof. by apply (fullscreen_start_elided me calm clock 8 25 1000 (raw fullscreen) fullscreen c7). Defined.

(** The terminal is of 100 columns, and the session was attached with 80. *)
Lemma stale_size_freezes_witness :
  Forall (λ p, paints_screen p = false) (log (run_remote_attach_v2_once me calm clock None 100 30 [snapshot 1 3; output 3 5; snapshot 2 5]).1).
Proof. apply (stale_size_freezes me calm clock 100 30); [by intros n; constructor |]. by repeat constructor. Defined.
End Demo.
