(* ===== verification/AttachInput.v ===== *)
(** * The keyboard of an attached client

    crates/portl-cli/src/commands/session.rs: what is typed goes through the filter of terminal
    answers to the session, is kept while the session is being reconnected, or is a command to
    the client.  [attach_input_coordinator_loop] does this across connections, [stdin_loop] for
    one; both are lists of turns, a turn being one branch of their [select!].

    What the surroundings answer is the record [World], by the number of exchanges so far:
    whether a write to the session or the terminal succeeds, the clock, the reload that the
    other task has under way, and what is typed while a turn waits for keys.  A read returns at
    most as many bytes as it has room for, which nothing below depends on. *)

From stdpp Require Import pretty.
From S2P Require Import Prelude Bytes Text Terminal ResponseFilter Framing Tmux Steps AttachDisplay AttachV2.
Import Terminal ResponseFilter.

(** ** Pastes *)

Module Paste.

(** Durations are milliseconds. *)
Record PasteConfig := { burst_threshold_bytes : Z; burst_window : Z; detail_after : Z }.

Definition default_config : PasteConfig := {| burst_threshold_bytes := 64 * 1024; burst_window := 250; detail_after := 2000 |}.

Record PasteState := {
  config : PasteConfig;
  active : bool;
  burst_start : option Z;
  burst_bytes : Z;
  pending_bytes : Z;
  backpressured : bool;
  active_since : option Z;
}.

Definition new (c : PasteConfig) : PasteState := {| config := c; active := false; burst_start := None; burst_bytes := 0;
  pending_bytes := 0; backpressured := false; active_since := None |}.

(** [duration_since], which is zero for a later instant *)
Definition duration_since (now start : Z) : Z := Z.max 0 (now - start).

Definition with_burst (start bytes : Z) (p : PasteState) : PasteState := {| config := config p; active := active p;
  burst_start := Some start; burst_bytes := bytes; pending_bytes := pending_bytes p; backpressured := backpressured p;
  active_since := active_since p |}.
Definition with_pending (n : Z) (p : PasteState) : PasteState := {| config := config p; active := active p;
  burst_start := burst_start p; burst_bytes := burst_bytes p; pending_bytes := n; backpressured := backpressured p;
  active_since := active_since p |}.
Definition with_active (a : bool) (since : option Z) (p : PasteState) : PasteState := {| config := config p; active := a;
  burst_start := burst_start p; burst_bytes := burst_bytes p; pending_bytes := pending_bytes p;
  backpressured := backpressured p; active_since := since |}.
Definition with_backpressured (b : bool) (p : PasteState) : PasteState := {| config := config p; active := active p;
  burst_start := burst_start p; burst_bytes := burst_bytes p; pending_bytes := pending_bytes p; backpressured := b;
  active_since := active_since p |}.

Definition activate (now : Z) (p : PasteState) : PasteState :=
  with_active true (Some (default now (active_since p))) p.

Definition observe_read (bytes now : Z) (p : PasteState) : PasteState :=
  let p := match burst_start p with
    | Some start => if duration_since now start <? burst_window (config p) then with_burst start (burst_bytes p + bytes) p
                    else with_burst now bytes p
    | None => with_burst now bytes p
    end in
  if burst_threshold_bytes (config p) <=? burst_bytes p then activate now p else p.

Definition deactivate_if_idle (p : PasteState) : PasteState :=
  if (pending_bytes p =? 0) && negb (backpressured p) then with_active false None p else p.

Definition observe_queued (bytes : Z) (p : PasteState) : PasteState := with_pending (pending_bytes p + bytes) p.

Definition observe_sent (bytes : Z) (p : PasteState) : PasteState :=
  let p := with_pending (saturating_sub (pending_bytes p) bytes) p in
  if pending_bytes p =? 0 then deactivate_if_idle (with_backpressured false p) else p.

Definition set_backpressured (value : bool) (now : Z) (p : PasteState) : PasteState :=
  let p := with_backpressured value p in
  if value then activate now p else deactivate_if_idle p.

Definition cancel_pending (p : PasteState) : PasteState * Z :=
  (with_active false None (with_backpressured false (with_pending 0 p)), pending_bytes p).

Definition should_show_detail (now : Z) (p : PasteState) : bool :=
  match active_since p with Some started => detail_after (config p) <=? duration_since now started | None => false end.

(** ** The markers of a bracketed paste *)

Inductive BracketedPasteEvent := NoMarker | Begin | End_.

Record BracketedPasteScanner := { tail : bytes; in_paste : bool }.

Definition BEGIN : bytes := Filter.BRACKETED_PASTE_BEGIN.
Definition END : bytes := Filter.BRACKETED_PASTE_END.

Definition new_scanner : BracketedPasteScanner := {| tail := []; in_paste := false |}.

Definition force_end (s : BracketedPasteScanner) : BracketedPasteScanner := {| tail := tail s; in_paste := false |}.

(** [windows(pat.len()).enumerate().filter_map(..).next_back()] *)
Definition window_at (pat l : bytes) (i : nat) : bool := bool_decide (take (length pat) (drop i l) = pat).
Definition last_window (pat l : bytes) : option nat :=
  last (filter (λ i, window_at pat l i = true) (seq 0 (S (length l) - length pat))).

Definition scan (s : BracketedPasteScanner) (l : bytes) : BracketedPasteScanner * BracketedPasteEvent :=
  let combined := tail s ++ l in
  let '(in_paste, event) := match last_window BEGIN combined, last_window END combined with
    | None, None => (in_paste s, NoMarker)
    | Some _, None => (true, Begin)
    | Some b, Some e => if (e <? b)%nat then (true, Begin) else (false, End_)
    | None, Some _ => (false, End_)
    end in
  ({| tail := drop (length combined - (Nat.max (length BEGIN) (length END) - 1)) combined; in_paste := in_paste |}, event).

End Paste.

Import Paste.

(** ** Sinks *)

(** From zmx_control.rs *)
Definition TAG_INPUT : Z := 0.
Definition TAG_RESIZE : Z := 2.
Definition TAG_CLOSE : Z := 3.

Inductive AttachInputSink :=
  | Remote
  | RemoteV2 (attach_id : bytes) (next_resize_id next_reload_id : Z) (resize_state : AttachV2ResizeState)
  | Zmx
  | TmuxPty
  | Ghostty.

Inductive V2Stream := InputStream | ResizeStream | ControlStream.

(** What is handed to a stream, a process or a task; a postcard message is its value. *)
Inductive Write :=
  | WriteRemote (l : bytes) | FinishRemote | WriteRemoteResize (cols rows : Z) | WriteKickOthers
  | WriteV2 (stream : V2Stream) (f : AttachV2ClientFrame) | FinishV2
  | WriteChild (l : bytes) | ShutdownChild
  | TmuxLine (l : bytes)
  | GhosttyData (l : bytes) | GhosttyClose | GhosttyResize (rows cols : Z).

Inductive AttachInputMode := Connected | Offline (visible : bool).

(** [ReconnectInputBuffer]; its limit is that of the coordinator. *)
Record ReconnectInputBuffer := { buffered : bytes; limit : Z }.
Inductive ReconnectBufferPush := Accepted | Full.

Definition new_buffer (limit : Z) : ReconnectInputBuffer := {| buffered := []; limit := limit |}.
Definition push (l : bytes) (b : ReconnectInputBuffer) : ReconnectInputBuffer * ReconnectBufferPush :=
  let remaining := saturating_sub (limit b) (Z.of_nat (length (buffered b))) in
  if remaining <? Z.of_nat (length l)
  then ({| buffered := buffered b ++ take (Z.to_nat remaining) l; limit := limit b |}, Full)
  else ({| buffered := buffered b ++ l; limit := limit b |}, Accepted).
Definition is_full (b : ReconnectInputBuffer) : bool := limit b <=? Z.of_nat (length (buffered b)).
Definition take_buffer (b : ReconnectInputBuffer) : ReconnectInputBuffer * bytes :=
  ({| buffered := []; limit := limit b |}, buffered b).
(** What [push] does not take of [l] *)
Definition rejected (l : bytes) (b : ReconnectInputBuffer) : bytes :=
  drop (Z.to_nat (saturating_sub (limit b) (Z.of_nat (length (buffered b))))) l.

Inductive ReconnectControl := RetryNow | DetachNow | Quit.
Definition from_visible_input (l : bytes) : option ReconnectControl :=
  if bool_decide (3 ∈ l) then Some Quit
  else if bool_decide (13 ∈ l) || bool_decide (10 ∈ l) then Some RetryNow
  else if bool_decide (l = [100]) then Some DetachNow
  else None.

(** ** State and surroundings *)

(** What happened: writes with the typed bytes they carry, events for the main loop, answers to
    commands, calls on the display; and what the code does not record, the typed bytes that are
    dropped and the count that a cancelled paste returns. *)
Inductive Entry :=
  | Wrote (input : option bytes) (w : Write) (ok : bool)
  | Emitted (e : AttachInputEvent)
  | Acked (ok : bool)
  | StartedReload (reload_id : Z)
  | Showed (c : Display.Call)
  | Dropped (l : bytes)
  | Cancelled (dropped : Z).

(** What the filter was given, in order: typed bytes, a pause, or bytes that go past it. *)
Inductive Item := Fed (l : bytes) | Paused | Literal (l : bytes).

Record Input := {
  sink : option AttachInputSink;
  imode : AttachInputMode;
  buffer : ReconnectInputBuffer;
  last_size : Z * Z;
  pending_size : option (Z * Z);
  paste : PasteState;
  bracketed : BracketedPasteScanner;
  response_filter : Filter.QueryResponseFilter;
  ilog : list Entry;
  taken : list Item;
  ios : nat;
}.

Definition put_sink v s := {| sink := v; imode := imode s; buffer := buffer s; last_size := last_size s;
  pending_size := pending_size s; paste := paste s; bracketed := bracketed s; response_filter := response_filter s;
  ilog := ilog s; taken := taken s; ios := ios s |}.
Definition set_mode v s := {| sink := sink s; imode := v; buffer := buffer s; last_size := last_size s;
  pending_size := pending_size s; paste := paste s; bracketed := bracketed s; response_filter := response_filter s;
  ilog := ilog s; taken := taken s; ios := ios s |}.
Definition set_buffer v s := {| sink := sink s; imode := imode s; buffer := v; last_size := last_size s;
  pending_size := pending_size s; paste := paste s; bracketed := bracketed s; response_filter := response_filter s;
  ilog := ilog s; taken := taken s; ios := ios s |}.
Definition set_last_size v s := {| sink := sink s; imode := imode s; buffer := buffer s; last_size := v;
  pending_size := pending_size s; paste := paste s; bracketed := bracketed s; response_filter := response_filter s;
  ilog := ilog s; taken := taken s; ios := ios s |}.
Definition set_pending_size v s := {| sink := sink s; imode := imode s; buffer := buffer s; last_size := last_size s;
  pending_size := v; paste := paste s; bracketed := bracketed s; response_filter := response_filter s;
  ilog := ilog s; taken := taken s; ios := ios s |}.
Definition on_paste f s := {| sink := sink s; imode := imode s; buffer := buffer s; last_size := last_size s;
  pending_size := pending_size s; paste := f (paste s); bracketed := bracketed s; response_filter := response_filter s;
  ilog := ilog s; taken := taken s; ios := ios s |}.
Definition set_bracketed v s := {| sink := sink s; imode := imode s; buffer := buffer s; last_size := last_size s;
  pending_size := pending_size s; paste := paste s; bracketed := v; response_filter := response_filter s;
  ilog := ilog s; taken := taken s; ios := ios s |}.
(** The filter takes an item. *)
Definition took (i : Item) v s := {| sink := sink s; imode := imode s; buffer := buffer s; last_size := last_size s;
  pending_size := pending_size s; paste := paste s; bracketed := bracketed s; response_filter := v;
  ilog := ilog s; taken := taken s ++ [i]; ios := ios s |}.
Definition noted (e : Entry) s := {| sink := sink s; imode := imode s; buffer := buffer s; last_size := last_size s;
  pending_size := pending_size s; paste := paste s; bracketed := bracketed s; response_filter := response_filter s;
  ilog := ilog s ++ [e]; taken := taken s; ios := ios s |}.
Definition asked s := {| sink := sink s; imode := imode s; buffer := buffer s; last_size := last_size s;
  pending_size := pending_size s; paste := paste s; bracketed := bracketed s; response_filter := response_filter s;
  ilog := ilog s; taken := taken s; ios := S (ios s) |}.

Inductive KeyRead := TimedOut | KeyError | Keys (l : bytes).

Record World := {
  sends : nat → bool;
  shows : nat → bool;
  clock : nat → Z;
  reloads : nat → option Z;
  control_reads : nat → KeyRead;
  escape_reads : nat → KeyRead;
}.

Inductive StdinTaskResult := Closed | DetachedByKey.

(** How a loop ends: [return Ok], an error, or [OutOfFuel], which [control_mode_ends] excludes *)
Inductive InputEnd := Finished | Failed | OutOfFuel | Result (r : StdinTaskResult).

Abbreviation Task := (Step Input InputEnd).

Definition note (e : Entry) : Task unit := assign (noted e).
Definition emit (e : AttachInputEvent) : Task unit := note (Emitted e).

(** [AttachControlUi] and the environment of the terminal *)
Record AttachControlUi := { ui_ref : list Z; ui_supports_kick_others : bool; ui_unicode : bool; ui_color : bool }.

Section input.
Variable w : World.
Variable ui : AttachControlUi.

Definition ask {A} (f : World → nat → A) : Task A := λ s, (asked s, Ok (f w (ios s))).

Definition display (c : Display.Call) : Task unit :=
  ok ← ask shows;
  note (Showed c);;
  if (ok : bool) then skip else break Failed.

Definition put (input : option bytes) (x : Write) : Task bool :=
  ok ← ask sends;
  note (Wrote input x ok);;
  mret ok.

(** [zmx_control::write_frame] on the input of a child; a payload that has no frame is an error
    before anything is written. *)
Definition put_zmx (input : option bytes) (tag : Z) (payload : bytes) : Task bool :=
  match Zmx.write_frame tag payload with
  | Ok f => put input (WriteChild f)
  | Err _ => note (Wrote input (WriteChild []) false);; mret false
  end.

(** ** Operations of a sink: whether they succeed, and the sink after those that change it *)

Definition has_active_reload (k : AttachInputSink) : Task bool :=
  match k with RemoteV2 _ _ _ _ => r ← ask reloads; mret (bool_decide (is_Some r)) | _ => mret false end.

Definition send_stdin (k : AttachInputSink) (l : bytes) : Task bool :=
  match k with
  | Remote => put (Some l) (WriteRemote l)
  | RemoteV2 attach_id _ _ _ =>
      let forward := put (Some l) (WriteV2 InputStream (CInput attach_id l)) in
      if bool_decide (l = [ESC]) then
        r ← ask reloads;
        match r with
        | Some reload_id => put (Some l) (WriteV2 ControlStream (CCancelReload attach_id reload_id))
        | None => forward
        end
      else forward
  | Zmx => put_zmx (Some l) TAG_INPUT l
  | TmuxPty => put (Some l) (TmuxLine (Tmux.send_keys_command l))
  | Ghostty => put (Some l) (GhosttyData l)
  end.

Definition close_stdin (k : AttachInputSink) : Task bool :=
  match k with
  | Remote => put None FinishRemote
  | RemoteV2 attach_id _ _ _ =>
      ok ← put None (WriteV2 ControlStream (CDetach attach_id));
      if (ok : bool) then put None FinishV2 else mret false
  | Zmx => _ ← put_zmx None TAG_CLOSE []; put None ShutdownChild
  | TmuxPty => put None (TmuxLine (str_bytes "detach-client" ++ [10]))
  | Ghostty => put None GhosttyClose
  end.

Definition resize (k : AttachInputSink) (cols rows : Z) : Task (AttachInputSink * bool) :=
  match k with
  | Remote => ok ← put None (WriteRemoteResize cols rows); mret (k, ok)
  | RemoteV2 attach_id next_resize_id next_reload_id _ =>
      let id := saturating_add U64_MAX next_resize_id 1 in
      ok ← put None (WriteV2 ResizeStream (CResize attach_id id cols rows));
      mret (RemoteV2 attach_id id next_reload_id {| resize_id := id; rs_cols := cols; rs_rows := rows |}, ok)
  | Zmx => ok ← put_zmx None TAG_RESIZE (Zmx.resize_payload rows cols); mret (k, ok)
  | TmuxPty => ok ← put None (TmuxLine (Tmux.resize_commands rows cols)); mret (k, ok)
  | Ghostty => ok ← put None (GhosttyResize rows cols); mret (k, ok)
  end.

Definition reload (k : AttachInputSink) : Task (AttachInputSink * bool) :=
  match k with
  | RemoteV2 attach_id next_resize_id next_reload_id resize_state =>
      let id := saturating_add U64_MAX next_reload_id 1 in
      note (StartedReload id);;
      ok ← put None (WriteV2 ControlStream (CReload attach_id id));
      mret (RemoteV2 attach_id next_resize_id id resize_state, ok)
  | _ => mret (k, true)
  end.

Definition request_viewport (k : AttachInputSink) (reason : string) : Task bool :=
  match k with
  | RemoteV2 attach_id _ _ resize_state =>
      put None (WriteV2 ControlStream (CRequestViewport attach_id reason (resize_id resize_state)))
  | _ => mret true
  end.

Definition supports_reload (k : AttachInputSink) : bool := match k with RemoteV2 _ _ _ _ => true | _ => false end.

Definition kick_others (k : AttachInputSink) : Task bool :=
  match k with
  | Remote => put None WriteKickOthers
  | TmuxPty => put None (TmuxLine (str_bytes "detach-client -a" ++ [10]))
  | RemoteV2 _ _ _ _ | Zmx | Ghostty => mret true
  end.

(** ** The filter *)

(** [client_query_strip_enabled_for_tests()] holds in every build but a test one. *)
Definition filter_attach_stdin_outbound (k : AttachInputSink) (l : bytes) : Task bytes :=
  bypass ← (if bool_decide (l = [ESC]) then has_active_reload k else mret false);
  if (bypass : bool) then s ← get id; assign (took (Literal l) (response_filter s));; mret l
  else
    s ← get id;
    let '(f, o) := Filter.feed (response_filter s) l in
    assign (took (Fed l) f);; mret o.

Definition flush_attach_stdin_filter_timeout : Task bytes :=
  s ← get id;
  let '(f, o) := Filter.flush_timeout (response_filter s) in
  assign (took Paused f);; mret o.

(** Bytes that are sent as they are *)
Definition send_literal (k : AttachInputSink) (l : bytes) : Task bool :=
  s ← get id; assign (took (Literal l) (response_filter s));; send_stdin k l.

(** ** Bars *)

Definition bar_prefix (t : list Z) : list Z :=
  (if ui_unicode ui then [9612] else Bar.text "|") ++ Bar.text " Portl " ++
  (if ui_unicode ui then [8250] else Bar.text ">") ++ Bar.text " " ++ ui_ref ui ++ Bar.text " " ++
  (if ui_unicode ui then [183] else Bar.text "|") ++ Bar.text " " ++ t.

Definition update_paste_bar : Task unit :=
  s ← get id;
  if negb (active (paste s)) then display Display.CallClearBar
  else
    now ← ask clock;
    if negb (should_show_detail now (paste s)) then display (Display.CallSetBar (bar_prefix (Bar.text "Esc cancel paste")))
    else
      let pending := pending_bytes (paste s) in
      if 0 <? pending then
        display (Display.CallSetBar (bar_prefix (Bar.text "pasting " ++ Bar.text (dec pending) ++ Bar.text " bytes " ++
          (if ui_unicode ui then [183] else Bar.text "|") ++ Bar.text " Esc cancel")))
      else display Display.CallClearBar.

Definition render_attach_control_bar (k : AttachInputSink) (remaining : Z) : Task unit :=
  s ← get id;
  display (Display.CallSetBar (Bar.render_bar {|
    Bar.canonical_ref := ui_ref ui; Bar.supports_kick_others := ui_supports_kick_others ui;
    Bar.supports_reload := supports_reload k; Bar.paste_cancellable := active (paste s);
    Bar.remaining_ms := remaining; Bar.unicode := ui_unicode ui; Bar.color := ui_color ui |})).

(** ** Control mode *)

Inductive AttachControlOutcome := Continue | ControlDetached | CancelPaste.

Definition CONTROL_TIMEOUT : Z := 2000.
Definition CONTROL_TICK : Z := 100.
(** A round that reads nothing takes [CONTROL_TICK], so the next of these finds the time over. *)
Definition CONTROL_ROUNDS : nat := 21.

(** [.await?] on an operation of the sink *)
Definition or_fail (t : Task bool) : Task unit := ok ← t; if (ok : bool) then skip else break Failed.

Definition control_command (k : AttachInputSink) (command : bytes) : Task AttachControlOutcome :=
  display Display.CallClearBar;;
  s ← get id;
  if bool_decide (command = [100]) then _ ← close_stdin k; mret ControlDetached
  else if bool_decide (command = [107]) && ui_supports_kick_others ui then
    or_fail (kick_others k);;
    display (Display.CallMessage (Bar.text "portl: detached other clients from session " ++ [34] ++ ui_ref ui ++ [34]));;
    mret Continue
  else if bool_decide (command = [114]) && supports_reload k then
    '(k', ok) ← reload k;
    assign (put_sink (Some k'));;
    (if (ok : bool) then skip else break Failed);;
    display (Display.CallSetBar ([9612] ++ Bar.text " Portl " ++ [8250; 32] ++ ui_ref ui ++ [32; 183] ++
      Bar.text " reload requested " ++ [183] ++ Bar.text " Esc cancel"));;
    mret Continue
  else if bool_decide (command = [99]) && active (paste s) then mret CancelPaste
  else if bool_decide (command = [ESC]) then mret Continue
  else or_fail (send_literal k command);; mret Continue.

Fixpoint control_rounds (fuel : nat) (started : Z) (k : AttachInputSink) : Task AttachControlOutcome :=
  match fuel with
  | O => break OutOfFuel
  | S fuel =>
      now ← ask clock;
      let elapsed := duration_since now started in
      if CONTROL_TIMEOUT <=? elapsed then display Display.CallClearBar;; mret Continue
      else
        render_attach_control_bar k (saturating_sub CONTROL_TIMEOUT elapsed);;
        read ← ask control_reads;
        match read with
        | TimedOut => control_rounds fuel started k
        | KeyError => break Failed
        | Keys [] => display Display.CallClearBar;; _ ← close_stdin k; mret Continue
        | Keys command => control_command k command
        end
  end.

Definition run_attach_control_mode (k : AttachInputSink) : Task AttachControlOutcome :=
  started ← ask clock; control_rounds CONTROL_ROUNDS started k.

(** ** Typed bytes *)

(** [paste.cancel_pending()] and the end of a bracketed paste *)
Definition cancel_paste (k : AttachInputSink) : Task unit :=
  s ← get id;
  note (Cancelled (cancel_pending (paste s)).2);;
  assign (on_paste (λ p, (cancel_pending p).1));;
  (if in_paste (bracketed s)
   then assign (set_bracketed (force_end (bracketed s)));; _ ← send_literal k END; skip
   else skip);;
  display Display.CallClearBar.

(** The paste state sees a chunk. *)
Definition observe_chunk (chunk : bytes) : Task unit :=
  now ← ask clock;
  assign (on_paste (observe_read (Z.of_nat (length chunk)) now));;
  s ← get id;
  let '(b, event) := scan (bracketed s) chunk in
  assign (set_bracketed b);;
  match event with
  | Begin => assign (on_paste (activate now))
  | End_ => assign (on_paste deactivate_if_idle)
  | NoMarker => skip
  end.

(** The queued bytes are sent; whether they were. *)
Definition send_queued (k : AttachInputSink) (l : bytes) : Task bool :=
  assign (on_paste (observe_queued (Z.of_nat (length l))));;
  update_paste_bar;;
  send_started ← ask clock;
  ok ← match l with [] => mret true | _ => send_stdin k l end;
  if (ok : bool) then
    now ← ask clock;
    assign (on_paste (set_backpressured (100 <=? duration_since now send_started) now));;
    assign (on_paste (observe_sent (Z.of_nat (length l))));;
    update_paste_bar;;
    mret true
  else mret false.

Definition disconnect : Task unit := assign (put_sink None);; assign (set_mode (Offline false)).

(** An [ESC] during a reload waits for the rest of an escape sequence. *)
Definition escape_tail (k : AttachInputSink) (chunk : bytes) : Task bytes :=
  wait ← (if bool_decide (chunk = [ESC]) then has_active_reload k else mret false);
  if (wait : bool) then
    read ← ask escape_reads;
    mret (match read with Keys l => chunk ++ l | TimedOut | KeyError => chunk end)
  else mret chunk.

Definition connected_bytes (k : AttachInputSink) (chunk : bytes) : Task unit :=
  observe_chunk chunk;;
  outcome ← (if Tmux.is_ctrl_backslash_sequence chunk
             then o ← run_attach_control_mode k; mret (Some o) else mret None);
  match outcome with
  | Some Continue => skip
  | Some ControlDetached => emit EvDetached
  | Some CancelPaste => cancel_paste k
  | None =>
      s ← get id;
      if active (paste s) && bool_decide (chunk = [ESC]) then cancel_paste k
      else
        outbound ← escape_tail k chunk;
        outbound ← filter_attach_stdin_outbound k outbound;
        ok ← send_queued k outbound;
        if (ok : bool) then skip else disconnect;; emit EvSinkFailed
  end.

Definition push_buffer (l : bytes) : Task ReconnectBufferPush :=
  s ← get id;
  let '(b, r) := push l (buffer s) in
  (match r with Full => note (Dropped (rejected l (buffer s))) | Accepted => skip end);;
  assign (set_buffer b);; mret r.

Definition offline_bytes (chunk : bytes) : Task unit :=
  s ← get id;
  let '(f, filtered) := Filter.feed (response_filter s) chunk in
  assign (took (Fed chunk) f);;
  match filtered with
  | [] => skip
  | _ =>
      r ← push_buffer filtered;
      s ← get id;
      if (match r with Full => true | Accepted => is_full (buffer s) end)
      then assign (set_mode (Offline true));; emit EvBufferFull
      else skip
  end.

Definition handle_attach_input_bytes (chunk : bytes) : Task unit :=
  s ← get id;
  match imode s with
  | Connected =>
      match sink s with
      | None => assign (set_mode (Offline false))
      | Some k => connected_bytes k chunk
      end
  | Offline true =>
      match from_visible_input chunk with
      | Some RetryNow => emit EvRetryNow
      | Some DetachNow => emit EvDetached
      | Some Quit => emit EvQuitReconnect
      | None => skip
      end
  | Offline false => offline_bytes chunk
  end.

(** ** Commands *)

Inductive AttachInputCommand :=
  | SetSink (k : AttachInputSink) | ClearSink | SetReconnectVisible (visible : bool)
  | RequestViewport (reason : string) | StopInput.

(** A sink that fails while it is set is given up, and the caller and the main loop are told. *)
Definition refuse_sink : Task bool :=
  emit EvSinkFailed;; assign (set_mode (Offline false));; note (Acked false);; mret false.

Definition set_sink_command (k : AttachInputSink) : Task bool :=
  assign (set_mode Connected);;
  s ← get id;
  '(k, ok) ← match pending_size s with Some (cols, rows) => resize k cols rows | None => mret (k, true) end;
  if negb ok then refuse_sink
  else
    s ← get id;
    let '(b, l) := take_buffer (buffer s) in
    assign (set_buffer b);;
    ok ← match l with [] => mret true | _ => send_stdin k l end;
    if negb ok then refuse_sink
    else assign (put_sink (Some k));; note (Acked true);; mret false.

(** Whether the loop is to stop *)
Definition handle_attach_input_command (c : AttachInputCommand) : Task bool :=
  match c with
  | SetSink k => set_sink_command k
  | ClearSink => disconnect;; note (Acked true);; mret false
  | SetReconnectVisible visible =>
      s ← get id;
      (match sink s with None => assign (set_mode (Offline visible)) | Some _ => skip end);;
      note (Acked true);; mret false
  | RequestViewport reason =>
      s ← get id;
      ok ← match sink s with Some k => request_viewport k reason | None => mret false end;
      note (Acked ok);; mret false
  | StopInput => mret true
  end.

(** ** The coordinator *)

Inductive Turn :=
  | OnCommand (c : option AttachInputCommand)
  | OnStdin (r : KeyRead)
  | OnPause (size : option (Z * Z)).

Definition close_and_finish : Task unit :=
  s ← get id;
  (match sink s with Some k => _ ← close_stdin k; skip | None => skip end);;
  emit EvClosed;; break Finished.

Definition flush_filter : Task unit :=
  flushed ← flush_attach_stdin_filter_timeout;
  match flushed with
  | [] => skip
  | _ =>
      s ← get id;
      match imode s with
      | Connected =>
          match sink s with
          | Some k => ok ← send_stdin k flushed; if (ok : bool) then skip else emit EvSinkFailed;; disconnect
          | None => skip
          end
      | Offline false => _ ← push_buffer flushed; skip
      | Offline true => note (Dropped flushed)
      end
  end.

Definition follow_size (now : Z * Z) : Task unit :=
  s ← get id;
  if bool_decide (now = last_size s) then skip
  else
    display (Display.CallSize now.1 now.2);;
    assign (set_pending_size (Some now));;
    (match sink s with
     | Some k =>
         '(k', ok) ← resize k now.1 now.2;
         if (ok : bool) then assign (put_sink (Some k'));; assign (set_pending_size None)
         else emit EvSinkFailed;; disconnect
     | None => skip
     end);;
    assign (set_last_size now).

Definition coordinator_turn (t : Turn) : Task unit :=
  match t with
  | OnCommand None => break Finished
  | OnCommand (Some c) =>
      stop ← handle_attach_input_command c;
      if (stop : bool) then break Finished
      else s ← get id; match sink s with Some _ => assign (set_pending_size None) | None => skip end
  | OnStdin (TimedOut | KeyError) => break Failed
  | OnStdin (Keys []) => close_and_finish
  | OnStdin (Keys chunk) => handle_attach_input_bytes chunk
  | OnPause size => flush_filter;; match size with Some now => follow_size now | None => skip end
  end.

Fixpoint attach_input_coordinator_loop (ts : list Turn) : Task unit :=
  match ts with [] => skip | t :: ts => coordinator_turn t;; attach_input_coordinator_loop ts end.

Definition initial_pending_attach_size (initial_size : Z * Z) : option (Z * Z) := None.

Definition coordinator_start (initial_size : Z * Z) : Input := {|
  sink := None; imode := Offline false; buffer := new_buffer (256 * 1024); last_size := initial_size;
  pending_size := initial_pending_attach_size initial_size; paste := Paste.new default_config; bracketed := new_scanner;
  response_filter := Filter.new; ilog := []; taken := []; ios := 0 |}.

(** ** One connection *)

Definition stdin_bytes (k : AttachInputSink) (chunk : bytes) : Task unit :=
  observe_chunk chunk;;
  outcome ← (if Tmux.is_ctrl_backslash_sequence chunk
             then o ← run_attach_control_mode k; mret (Some o) else mret None);
  match outcome with
  | Some Continue => skip
  | Some ControlDetached => break (Result DetachedByKey)
  | Some CancelPaste => cancel_paste k
  | None =>
      s ← get id;
      if active (paste s) && bool_decide (chunk = [ESC]) then cancel_paste k
      else
        filtered ← filter_attach_stdin_outbound k chunk;
        ok ← send_queued k filtered;
        if (ok : bool) then skip else break (Result Closed)
  end.

Definition stdin_pause (k : AttachInputSink) (size : option (Z * Z)) : Task unit :=
  flushed ← flush_attach_stdin_filter_timeout;
  ok ← match flushed with [] => mret true | _ => send_stdin k flushed end;
  if negb ok then break (Result Closed)
  else
    s ← get id;
    match size with
    | None => skip
    | Some now =>
        if bool_decide (now = last_size s) then skip
        else
          display (Display.CallSize now.1 now.2);;
          '(k', ok) ← resize k now.1 now.2;
          assign (put_sink (Some k'));;
          if (ok : bool) then assign (set_last_size now) else break (Result Closed)
    end.

(** The sink of the loop is always there; commands do not occur. *)
Definition stdin_turn (t : Turn) : Task unit :=
  s ← get id;
  match sink s, t with
  | None, _ | _, OnCommand _ => skip
  | Some k, OnStdin (TimedOut | KeyError) => break Failed
  | Some k, OnStdin (Keys []) => _ ← close_stdin k; break (Result Closed)
  | Some k, OnStdin (Keys chunk) => stdin_bytes k chunk
  | Some k, OnPause size => stdin_pause k size
  end.

Fixpoint stdin_loop (ts : list Turn) : Task unit :=
  match ts with [] => skip | t :: ts => stdin_turn t;; stdin_loop ts end.

Definition stdin_start (k : AttachInputSink) (size : option (Z * Z)) : Input := {|
  sink := Some k; imode := Connected; buffer := new_buffer 0; last_size := default (80, 24) size;
  pending_size := None; paste := Paste.new default_config; bracketed := new_scanner;
  response_filter := Filter.new; ilog := []; taken := []; ios := 0 |}.

End input.

(** ** Accounting

    What was handed to sessions, and then what waits in the buffer, is in order what the filter let
    through, without the bytes that were dropped. *)

Definition pass (acc : Filter.QueryResponseFilter * bytes) (i : Item) : Filter.QueryResponseFilter * bytes :=
  match i with
  | Fed l => let (f, o) := Filter.feed acc.1 l in (f, acc.2 ++ o)
  | Paused => let (f, o) := Filter.flush_timeout acc.1 in (f, acc.2 ++ o)
  | Literal l => (acc.1, acc.2 ++ l)
  end.

Definition passed (items : list Item) : Filter.QueryResponseFilter * bytes := foldl pass (Filter.new, []) items.

(** The bytes of an entry, whether or not they arrived *)
Definition carried (e : Entry) : bytes := match e with Wrote (Some l) _ _ => l | _ => [] end.
Definition carried_all (es : list Entry) : bytes := concat (carried <$> es).
Definition dropped_all (es : list Entry) : bytes := concat ((λ e, match e with Dropped l => l | _ => [] end) <$> es).

(** An escape that cancels a reload is not input of the session. *)
Definition cancels_reload (x : Write) : bool := match x with WriteV2 _ (CCancelReload _ _) => true | _ => false end.

(** The bytes that sessions accepted as input, and how many writes cancelled a reload instead *)
Definition delivered (es : list Entry) : bytes :=
  concat ((λ e, match e with Wrote (Some l) x true => if cancels_reload x then [] else l | _ => [] end) <$> es).
Definition cancels (es : list Entry) : nat :=
  sum_list ((λ e, match e with Wrote (Some _) x true => if cancels_reload x then 1%nat else 0%nat | _ => 0%nat end) <$> es).

(** No write failed and no typed byte was dropped. *)
Definition clean_entry (e : Entry) : bool :=
  match e with Wrote _ _ ok => ok | Dropped _ | Emitted EvBufferFull => false | _ => true end.
Definition clean (es : list Entry) : bool := forallb clean_entry es.

(** A cancelled paste had nothing left to drop, and only an escape cancels a reload. *)
Definition regular (e : Entry) : Prop :=
  match e with
  | Cancelled n => n = 0
  | Wrote (Some l) x _ => cancels_reload x = true → l = [ESC]
  | _ => True
  end.

Record accounts (x : bytes) (d : nat) (p : Filter.QueryResponseFilter * bytes) (f : Filter.QueryResponseFilter) : Prop := {
  acc_filter : p.1 = f;
  acc_order : x `sublist_of` p.2;
  acc_count : length p.2 = (length x + d)%nat;
}.

Definition owes (l : bytes) (s : Input) : Prop :=
  accounts (carried_all (ilog s) ++ buffered (buffer s) ++ l) (length (dropped_all (ilog s))) (passed (taken s)) (response_filter s).
Definition settled (n : Z) (s : Input) : Prop :=
  clean (ilog s) = true → pending_bytes (paste s) = n ∧ Forall regular (ilog s).

(** Between two turns *)
Record ready (s : Input) : Prop := {
  ready_owes : owes [] s;
  ready_mode : imode s = Connected → buffered (buffer s) = [] ∧ is_Some (sink s);
  ready_settled : settled 0 s;
}.

(** While a turn has [l] in hand and a session to send it to, and the paste state counts [n] bytes *)
Record busy (n : Z) (l : bytes) (s : Input) : Prop := {
  busy_owes : owes l s;
  busy_buffer : buffered (buffer s) = [];
  busy_settled : settled n s;
}.

(** After an error some bytes in hand may be lost. *)
Definition stopped (s : Input) : Prop := (∃ l, owes l s) ∧ (clean (ilog s) = true → Forall regular (ilog s)).

Definition moved (es : list Entry) (n : nat) (s : Input) : Input := {|
  sink := sink s; imode := imode s; buffer := buffer s; last_size := last_size s; pending_size := pending_size s;
  paste := paste s; bracketed := bracketed s; response_filter := response_filter s; ilog := ilog s ++ es;
  taken := taken s; ios := n |}.

Lemma moved_moved es n es' n' s : moved es' n' (moved es n s) = moved (es ++ es') n' s.
Proof. unfold moved. cbn [sink imode buffer last_size pending_size paste bracketed response_filter ilog taken]. by rewrite <- app_assoc. Qed.

Lemma asked_moved s : asked s = moved [] (S (ios s)) s.
Proof. unfold asked, moved. by rewrite app_nil_r. Qed.

Lemma noted_moved e n es s : noted e (moved es n s) = moved (es ++ [e]) n s.
Proof. unfold noted, moved. cbn [sink imode buffer last_size pending_size paste bracketed response_filter ilog taken ios]. by rewrite <- app_assoc. Qed.

Lemma noted_here e s : noted e s = moved [e] (ios s) s.
Proof. done. Qed.

Lemma carried_app es es' : carried_all (es ++ es') = carried_all es ++ carried_all es'.
Proof. unfold carried_all. by rewrite fmap_app, concat_app. Qed.

Lemma dropped_app es es' : dropped_all (es ++ es') = dropped_all es ++ dropped_all es'.
Proof. unfold dropped_all. by rewrite fmap_app, concat_app. Qed.

Lemma clean_app es es' : clean (es ++ es') = clean es && clean es'.
Proof. apply forallb_app. Qed.

(** Entries that carry nothing typed *)
Definition silent (e : Entry) : Prop :=
  match e with Wrote None _ _ | Showed _ | StartedReload _ | Acked _ | Emitted _ => True | _ => False end.

Lemma silent_carries es : Forall silent es → carried_all es = [].
Proof. induction 1 as [|e es He _ IH]; [done |]. unfold carried_all in *. cbn. rewrite IH. by destruct e as [[]| | | | | |]. Qed.

Lemma silent_drops es : Forall silent es → dropped_all es = [].
Proof. induction 1 as [|e es He _ IH]; [done |]. unfold dropped_all in *. cbn. rewrite IH. by destruct e as [[]| | | | | |]. Qed.

Lemma clean_drops es : clean es = true → dropped_all es = [].
Proof.
  induction es as [|e es IH]; [done |]. unfold clean, dropped_all in *. cbn. intros [He Hs]%andb_true_iff. rewrite IH by done.
  by destruct e.
Qed.

Lemma silent_regular es : Forall silent es → Forall regular es.
Proof. intros H. eapply Forall_impl; [exact H |]. by intros [[]| | | | | |]. Qed.

Lemma settled_moved es n c s : settled c s → Forall regular es → settled c (moved es n s).
Proof.
  intros Hs He. unfold settled. cbn [ilog paste moved]. rewrite clean_app. intros [Hc _]%andb_true_iff.
  destruct (Hs Hc). split; [done |]. by apply Forall_app.
Qed.

Lemma busy_moved es n c l s : busy c (carried_all es ++ l) s → Forall regular es → dropped_all es = [] → busy c l (moved es n s).
Proof.
  intros [Ho Hb Hs] He Hd. split; [| done | by apply settled_moved]. unfold owes in *. cbn [taken response_filter ilog buffer moved].
  rewrite carried_app, dropped_app, Hd, app_nil_r, Hb. rewrite Hb in Ho. cbn [app] in *. by rewrite <- app_assoc.
Qed.

Lemma busy_silent es n c l s : busy c l s → Forall silent es → busy c l (moved es n s).
Proof. intros Hb He. apply busy_moved; [by rewrite silent_carries | by apply silent_regular | by apply silent_drops]. Qed.

Lemma ready_silent es n s : ready s → Forall silent es → ready (moved es n s).
Proof.
  intros [Ho Hm Hs] He. split; [| done | by apply settled_moved, silent_regular].
  unfold owes in *. cbn [taken response_filter ilog buffer moved]. rewrite carried_app, dropped_app, (silent_carries es He), (silent_drops es He), !app_nil_r.
  by rewrite app_nil_r in Ho.
Qed.

Lemma busy_stopped c l s : busy c l s → stopped s.
Proof. intros [Ho _ Hs]. split; [by exists l |]. intros Hc. by apply Hs. Qed.

Lemma busy_ready s : busy 0 [] s → is_Some (sink s) → ready s.
Proof. intros [Ho Hb Hs] Hk. by split. Qed.

Lemma ready_busy s : ready s → imode s = Connected → busy 0 [] s.
Proof. intros [Ho Hm Hs] Hc. split; [done | by apply Hm | done]. Qed.

Lemma ready_stopped s : ready s → stopped s.
Proof. intros [Ho _ Hs]. split; [by exists [] |]. intros Hc. by apply Hs. Qed.

Lemma pass_app f x i : pass (f, x) i = ((pass (f, []) i).1, x ++ (pass (f, []) i).2).
Proof. destruct i; cbn; [by destruct (Filter.feed f l) | by destruct (Filter.flush_timeout f) | done]. Qed.

Lemma took_owes i f o l s : pass (response_filter s, []) i = (f, o) → owes l s → owes (l ++ o) (took i f s).
Proof.
  intros Hp [Hf Ho Hc]. unfold owes, passed in *. cbn [taken response_filter ilog buffer took].
  rewrite foldl_app. cbn [foldl]. destruct (foldl pass (Filter.new, []) (taken s)) as [f0 x]. cbn [fst snd] in *. subst f0.
  rewrite pass_app, Hp. cbn [fst snd]. rewrite !app_assoc. rewrite !app_assoc in Ho, Hc. split; cbn [fst snd]; [done | by apply sublist_app |].
  rewrite !length_app in *. lia.
Qed.

Lemma took_busy i f o c s : pass (response_filter s, []) i = (f, o) → busy c [] s → busy c o (took i f s).
Proof. intros Hp [Ho Hb Hs]. split; [by apply (took_owes i f o []) | done | done]. Qed.

Lemma on_paste_busy g c c' l s : (∀ p, pending_bytes p = c → pending_bytes (g p) = c') → busy c l s → busy c' l (on_paste g s).
Proof.
  intros Hg [Ho Hb Hs]. split; [done | done |]. intros Hc. cbn [ilog on_paste] in *. destruct (Hs Hc) as [Hp ?].
  split; [by apply Hg | done].
Qed.

Lemma deactivate_pending p : pending_bytes (deactivate_if_idle p) = pending_bytes p.
Proof. unfold deactivate_if_idle. by destruct (_ && _). Qed.
Lemma backpressured_pending v now p : pending_bytes (set_backpressured v now p) = pending_bytes p.
Proof. unfold set_backpressured. cbv zeta. destruct v; [done |]. by rewrite deactivate_pending. Qed.
Lemma sent_pending n p : 0 ≤ n → pending_bytes p = n → pending_bytes (observe_sent n p) = 0.
Proof.
  intros Hn Hp. unfold observe_sent. cbv zeta. cbn [pending_bytes with_pending]. unfold saturating_sub. rewrite Hp, Z.sub_diag, Z.max_id.
  rewrite Z.eqb_refl. by rewrite deactivate_pending.
Qed.
Lemma read_pending n now p : pending_bytes (observe_read n now p) = pending_bytes p.
Proof. unfold observe_read. cbv zeta. by repeat case_match. Qed.

(** A failed write leaves nothing to show about the paste. *)
Lemma unclean_busy c c' l s : clean (ilog s) = false → busy c l s → busy c' l s.
Proof. intros Hc [Ho Hb Hs]. split; [done | done |]. intros Ht. congruence. Qed.

(** What a turn leaves alone unless it says so *)
Record frame (s s' : Input) : Prop := {
  frame_sink : sink s' = sink s;
  frame_mode : imode s' = imode s;
  frame_taken : taken s' = taken s;
  frame_filter : response_filter s' = response_filter s;
  frame_log : ilog s `prefix_of` ilog s';
}.

Lemma frame_refl s : frame s s.
Proof. by split. Qed.
Lemma frame_trans s s' s'' : frame s s' → frame s' s'' → frame s s''.
Proof. intros [] []. split; [congruence .. | by etrans]. Qed.
Lemma frame_moved es n s : frame s (moved es n s).
Proof. split; [done .. |]. by apply prefix_app_r. Qed.
Lemma frame_on_paste g s : frame s (on_paste g s).
Proof. by split. Qed.
Lemma frame_set_bracketed b s : frame s (set_bracketed b s).
Proof. by split. Qed.

Lemma clean_prefix es es' : es `prefix_of` es' → clean es' = true → clean es = true.
Proof. intros [k ->]. rewrite clean_app. by intros [? _]%andb_true_iff. Qed.

Section accounting.
Variable w : World.
Variable ui : AttachControlUi.

Lemma wp_ask {A} I (f : World → nat → A) (Q : A → Input → Prop) s :
  (∀ n, Q (f w (ios s)) (moved [] n s)) → wp I (ask w f) Q s.
Proof. intros H. unfold wp, ask. rewrite asked_moved. apply H. Qed.

Lemma wp_note I e (Q : unit → Input → Prop) s : (∀ n, Q tt (moved [e] n s)) → wp I (note e) Q s.
Proof. intros H. apply wp_assign. rewrite noted_here. apply H. Qed.

Lemma wp_display I c (Q : unit → Input → Prop) s :
  (∀ n, I (moved [Showed c] n s)) → (∀ n, Q tt (moved [Showed c] n s)) → wp I (display w c) Q s.
Proof.
  intros HI HQ. apply wp_bind, wp_ask. intros n. apply wp_bind, wp_note. intros n'. rewrite moved_moved. cbn [app].
  destruct (shows w (ios s)); [by apply wp_ret | by apply wp_break].
Qed.

Lemma wp_put I input x (Q : bool → Input → Prop) s : (∀ n ok, Q ok (moved [Wrote input x ok] n s)) → wp I (put w input x) Q s.
Proof.
  intros HQ. apply wp_bind, wp_ask. intros n. apply wp_bind, wp_note. intros n'. rewrite moved_moved. apply wp_ret, HQ.
Qed.

Lemma wp_put_zmx I input tag payload (Q : bool → Input → Prop) s :
  (∀ n x ok, cancels_reload x = false → Q ok (moved [Wrote input x ok] n s)) → wp I (put_zmx w input tag payload) Q s.
Proof.
  intros HQ. unfold put_zmx. case_match; [apply wp_put; intros; by apply HQ |]. apply wp_bind, wp_note. intros n. by apply wp_ret, HQ.
Qed.

Lemma wp_has_active_reload I k (Q : bool → Input → Prop) s : (∀ b n, Q b (moved [] n s)) → wp I (has_active_reload w k) Q s.
Proof.
  intros HQ. assert (∀ b, Q b s) as Hs. { intros b. specialize (HQ b (ios s)). unfold moved in HQ. rewrite app_nil_r in HQ. by destruct s. }
  destruct k; try apply wp_ret, Hs. apply wp_bind, wp_ask. intros n. by apply wp_ret.
Qed.

Lemma wp_send_stdin I k l (Q : bool → Input → Prop) s :
  (∀ n x ok, regular (Wrote (Some l) x ok) → Q ok (moved [Wrote (Some l) x ok] n s)) → wp I (send_stdin w k l) Q s.
Proof.
  intros HQ. destruct k; cbn [send_stdin]; cbv zeta; try (apply wp_put; intros; apply HQ; by cbn).
  2: { apply wp_put_zmx. intros n x ok Hx. apply HQ. cbn. congruence. }
  case_bool_decide; [| apply wp_put; intros; apply HQ; by cbn]. apply wp_bind, wp_ask. intros n.
  case_match; apply wp_put; intros n' ok; rewrite moved_moved; apply HQ; by cbn.
Qed.

Lemma wp_close_stdin I k (Q : bool → Input → Prop) s :
  (∀ es n ok, Forall silent es → Q ok (moved es n s)) → wp I (close_stdin w k) Q s.
Proof.
  intros HQ. destruct k; cbn [close_stdin].
  2: { apply wp_bind, wp_put. intros n []; [| by apply wp_ret, HQ; repeat constructor].
       apply wp_put. intros n' ok. rewrite moved_moved. apply HQ. by repeat constructor. }
  2: { apply wp_bind, wp_put_zmx. intros n x ok _. apply wp_put. intros n' ok'. rewrite moved_moved. apply HQ. by repeat constructor. }
  all: apply wp_put; intros n ok; apply HQ; by repeat constructor.
Qed.

Lemma wp_resize I k cols rows (Q : AttachInputSink * bool → Input → Prop) s :
  (∀ k' es n ok, Forall silent es → Q (k', ok) (moved es n s)) → wp I (resize w k cols rows) Q s.
Proof.
  intros HQ. destruct k; cbn [resize]; cbv zeta; apply wp_bind; (apply wp_put || apply wp_put_zmx); intros;
    apply wp_ret, HQ; by repeat constructor.
Qed.

Lemma moved_nil s : moved [] (ios s) s = s.
Proof. unfold moved. rewrite app_nil_r. by destruct s. Qed.

Lemma wp_reload I k (Q : AttachInputSink * bool → Input → Prop) s :
  (∀ k' es n ok, Forall silent es → Q (k', ok) (moved es n s)) → wp I (reload w k) Q s.
Proof.
  intros HQ. destruct k; cbn [reload]; cbv zeta; try (apply wp_ret; rewrite <- (moved_nil s); by apply HQ).
  apply wp_bind, wp_note. intros n. apply wp_bind, wp_put. intros n' ok. rewrite moved_moved. apply wp_ret, HQ.
  by repeat constructor.
Qed.

Lemma wp_request_viewport I k reason (Q : bool → Input → Prop) s :
  (∀ es n ok, Forall silent es → Q ok (moved es n s)) → wp I (request_viewport w k reason) Q s.
Proof.
  intros HQ. destruct k; cbn [request_viewport]; try (apply wp_ret; rewrite <- (moved_nil s); by apply HQ).
  apply wp_put. intros n ok. apply HQ. by repeat constructor.
Qed.

Lemma wp_kick_others I k (Q : bool → Input → Prop) s :
  (∀ es n ok, Forall silent es → Q ok (moved es n s)) → wp I (kick_others w k) Q s.
Proof.
  intros HQ. destruct k; cbn [kick_others]; try (apply wp_ret; rewrite <- (moved_nil s); by apply HQ);
    apply wp_put; intros n ok; apply HQ; by repeat constructor.
Qed.

(** Bars leave only entries of the display. *)
Lemma wp_update_paste_bar (I : Input → Prop) (Q : unit → Input → Prop) s :
  (∀ es n, Forall silent es → I (moved es n s) ∧ Q tt (moved es n s)) → wp I (update_paste_bar w ui) Q s.
Proof.
  intros H. assert (Hd : ∀ c s', (∃ n, s' = moved [] n s) ∨ s' = s → wp I (display w c) Q s').
  { intros c s' Hs. apply wp_display; intros n; (destruct Hs as [[n' ->]| ->]; [rewrite moved_moved |]); apply H; by repeat constructor. }
  apply wp_bind, wp_get. unfold id. destruct (negb (active (paste s))); [apply Hd; by right |].
  apply wp_bind, wp_ask. intros n. destruct (negb (should_show_detail _ _)); [apply Hd; left; by exists n |].
  cbv zeta. destruct (0 <? _); apply Hd; left; by exists n.
Qed.

Lemma wp_render_bar (I : Input → Prop) k remaining (Q : unit → Input → Prop) s :
  (∀ es n, Forall silent es → I (moved es n s) ∧ Q tt (moved es n s)) → wp I (render_attach_control_bar w ui k remaining) Q s.
Proof. intros H. apply wp_bind, wp_get. apply wp_display; intros n; apply H; by repeat constructor. Qed.

Lemma wp_send_queued k l s : busy 0 l s →
  wp stopped (send_queued w ui k l) (λ ok s', busy 0 [] s' ∧ frame s s' ∧ (ok = false → clean (ilog s') = false)) s.
Proof.
  intros Hb. apply wp_bind, wp_assign.
  apply (on_paste_busy (observe_queued (Z.of_nat (length l))) 0 (Z.of_nat (length l))) in Hb; [| cbn; lia].
  set (s1 := on_paste _ s) in *. assert (frame s s1) as Hf by apply frame_on_paste. clearbody s1.
  apply wp_bind, wp_update_paste_bar. intros es n He. assert (Hb1 := busy_silent es n _ _ _ Hb He).
  split; [by eapply busy_stopped |]. apply (λ H, frame_trans _ _ _ H (frame_moved es n s1)) in Hf.
  apply wp_bind, wp_ask. intros n1. apply wp_bind.
  assert (Hgood : ∀ s2, busy (Z.of_nat (length l)) [] s2 → frame s s2 → wp stopped
    (now ← ask w clock;
     assign (on_paste (set_backpressured (100 <=? duration_since now (clock w (ios (moved es n s1)))) now));;
     assign (on_paste (observe_sent (Z.of_nat (length l))));; update_paste_bar w ui;; mret true)
    (λ ok s', busy 0 [] s' ∧ frame s s' ∧ (ok = false → clean (ilog s') = false)) s2).
  { intros s2 Hb2 Hf2. apply wp_bind, wp_ask. intros n2. apply wp_bind, wp_assign, wp_bind, wp_assign, wp_bind.
    match goal with |- wp _ _ _ ?t => assert (Hb3 : busy 0 [] t) end.
    { eapply on_paste_busy; [intros p; apply sent_pending; lia |].
      eapply on_paste_busy; [intros p Hp; rewrite backpressured_pending; exact Hp |]. by apply busy_silent. }
    match goal with |- wp _ _ _ ?t => assert (Hf3 : frame s t) end.
    { eapply frame_trans; [exact Hf2 |]. eapply frame_trans; [apply (frame_moved [] n2) |].
      eapply frame_trans; [apply frame_on_paste | apply frame_on_paste]. }
    apply wp_update_paste_bar. intros es' n' He'.
    pose proof (busy_silent es' n' _ _ _ Hb3 He') as Hb4. split; [by eapply busy_stopped |].
    apply wp_ret. split_and!; [done | | done]. eapply frame_trans; [exact Hf3 | apply frame_moved]. }
  pose proof (λ H, busy_silent [] n1 _ _ _ Hb1 H) as Hb2. specialize (Hb2 (Forall_nil_2 _)).
  assert (Hf2 : frame s (moved [] n1 (moved es n s1))) by (eapply frame_trans; [exact Hf | apply frame_moved]).
  destruct l as [|b l']; [apply wp_ret; by apply Hgood |].
  apply wp_send_stdin. intros n2 x ok Hx. set (l := b :: l') in *.
  match goal with |- wp _ _ _ ?t => assert (Hb3 : busy (Z.of_nat (length l)) [] t) end.
  { apply busy_moved; [by rewrite app_nil_r; unfold carried_all; cbn; rewrite app_nil_r | by repeat constructor | done]. }
  match goal with |- wp _ _ _ ?t => assert (Hf3 : frame s t) by (eapply frame_trans; [exact Hf2 | apply frame_moved]) end.
  destruct ok; [by apply Hgood |]. apply wp_ret.
  match goal with |- _ ∧ frame _ ?t ∧ _ => assert (clean (ilog t) = false) as Hc end.
  { cbn [ilog moved]. rewrite clean_app. apply andb_false_r. }
  split_and!; [by eapply unclean_busy | done | done].
Qed.

Lemma wp_observe_chunk chunk s (Q : unit → Input → Prop) : busy 0 [] s → (∀ s', busy 0 [] s' → frame s s' → Q tt s') →
  wp stopped (observe_chunk w chunk) Q s.
Proof.
  intros Hb HQ. apply wp_bind, wp_ask. intros n. apply wp_bind, wp_assign, wp_bind, wp_get. unfold id.
  match goal with |- context [on_paste ?g ?t] => assert (Hb1 : busy 0 [] (on_paste g t)) end.
  { eapply on_paste_busy; [intros p Hp; rewrite read_pending; exact Hp |]. by apply busy_silent. }
  match goal with |- context [on_paste ?g ?t] => assert (Hf1 : frame s (on_paste g t)) end.
  { eapply frame_trans; [apply (frame_moved [] n) | apply frame_on_paste]. }
  destruct (scan _ _) as [b event]. apply wp_bind, wp_assign.
  match goal with |- wp _ _ _ (set_bracketed b ?t) => set (s1 := t) in * end. clearbody s1.
  assert (Hb2 : busy 0 [] (set_bracketed b s1)) by (destruct Hb1; by split).
  assert (Hf2 : frame s (set_bracketed b s1)) by (eapply frame_trans; [exact Hf1 | apply frame_set_bracketed]).
  destruct event; [by apply wp_ret, HQ | |]; apply wp_assign, HQ.
  - eapply on_paste_busy; [| exact Hb2]. done.
  - eapply frame_trans; [exact Hf2 | apply frame_on_paste].
  - eapply on_paste_busy; [| exact Hb2]. intros p Hp. by rewrite deactivate_pending.
  - eapply frame_trans; [exact Hf2 | apply frame_on_paste].
Qed.

(** A turn that still has its session and nothing in hand *)
Record still (s s' : Input) : Prop := {
  still_busy : busy 0 [] s';
  still_mode : imode s' = imode s;
  still_sink : is_Some (sink s) → is_Some (sink s');
  still_log : ilog s `prefix_of` ilog s';
}.

Lemma still_refl s : busy 0 [] s → still s s.
Proof. by split. Qed.
Lemma still_trans s s' s'' : still s s' → still s' s'' → still s s''.
Proof. intros [] []. split; [done | congruence | auto | by etrans]. Qed.
Lemma still_stopped s s' : still s s' → stopped s'.
Proof. intros []. by eapply busy_stopped. Qed.
Lemma still_silent es n s s' : still s s' → Forall silent es → still s (moved es n s').
Proof. intros [Hb Hm Hk Hl] He. split; [by apply busy_silent | done | done |]. etrans; [exact Hl | by apply prefix_app_r]. Qed.
Lemma still_frame s s' : busy 0 [] s' → frame s s' → still s s'.
Proof. intros Hb [Hk]. split; [done | done | by rewrite Hk | done]. Qed.

Lemma wp_display_still c s s' (Q : unit → Input → Prop) : still s s' → (∀ s'', still s s'' → Q tt s'') → wp stopped (display w c) Q s'.
Proof.
  intros Hs HQ. assert (∀ n, still s (moved [Showed c] n s')) by (intros n; apply still_silent; [done | by repeat constructor]).
  apply wp_display; intros n; [by eapply still_stopped | by apply HQ].
Qed.

Lemma wp_or_fail t s s' (Q : unit → Input → Prop) : wp stopped t (λ _, still s) s' → (∀ s'', still s s'' → Q tt s'') →
  wp stopped (or_fail t) Q s'.
Proof.
  intros Ht HQ. apply wp_bind. eapply wp_mono; [exact Ht |]. intros [] s'' Hs; [by apply wp_ret, HQ |].
  apply wp_break. by eapply still_stopped.
Qed.

Lemma wp_send_literal k l s : busy 0 [] s → wp stopped (send_literal w k l) (λ _, still s) s.
Proof.
  intros Hb. apply wp_bind, wp_get, wp_bind, wp_assign, wp_send_stdin. unfold id. intros n x ok Hx. split; [| done | done |].
  - apply busy_moved; [| by repeat constructor | done]. unfold carried_all. cbn. rewrite !app_nil_r.
    by apply (took_busy (Literal l) _ l).
  - by apply prefix_app_r.
Qed.

Lemma cancelled_busy n s : busy 0 [] s →
  busy 0 [] (on_paste (λ p, (cancel_pending p).1) (moved [Cancelled (cancel_pending (paste s)).2] n s)).
Proof.
  intros [Ho Hb Hs]. split; [| done |].
  - unfold owes in *. cbn [taken response_filter ilog buffer moved on_paste]. rewrite carried_app, dropped_app. cbn [carried_all dropped_all].
    by rewrite !app_nil_r in *.
  - intros Hc. cbn [ilog moved on_paste paste] in *. rewrite clean_app in Hc. apply andb_true_iff in Hc as [Hc _].
    destruct (Hs Hc) as [Hp He]. split; [done |]. apply Forall_app_2; [done |]. by repeat constructor.
Qed.

Lemma wp_cancel_paste k s : busy 0 [] s → wp stopped (cancel_paste w k) (λ _, still s) s.
Proof.
  intros Hb. apply wp_bind, wp_get. unfold id. apply wp_bind, wp_note. intros n. apply wp_bind, wp_assign.
  assert (Hs1 : still s (on_paste (λ p, (cancel_pending p).1) (moved [Cancelled (cancel_pending (paste s)).2] n s))).
  { split; [by apply cancelled_busy | done | done | by apply prefix_app_r]. }
  set (s1 := on_paste _ _) in *. clearbody s1.
  apply wp_bind. destruct (in_paste (bracketed s)); [| apply wp_ret; by eapply wp_display_still].
  apply wp_bind, wp_assign, wp_bind. eapply wp_mono; [apply wp_send_literal; destruct Hs1 as [[]]; by split |].
  intros ok s2 Hs2. apply wp_ret. eapply wp_display_still; [| done]. eapply still_trans; [exact Hs1 |]. by destruct Hs2.
Qed.

Lemma wp_control_command k command s : busy 0 [] s → wp stopped (control_command w ui k command) (λ _, still s) s.
Proof.
  intros Hb. apply wp_bind. eapply wp_display_still; [by apply still_refl |]. intros s1 Hs1. apply wp_bind, wp_get. unfold id.
  destruct (bool_decide (command = [100])).
  { apply wp_bind, wp_close_stdin. intros es n1 ok He. by apply wp_ret, still_silent. }
  destruct (_ && ui_supports_kick_others ui).
  { apply wp_bind. eapply wp_or_fail.
    { apply wp_kick_others. intros es n1 ok He. by apply still_silent. }
    intros s2 Hs2. apply wp_bind. by eapply wp_display_still. }
  destruct (_ && supports_reload k).
  { apply wp_bind, wp_reload. intros k' es n1 ok He. apply wp_bind, wp_assign.
    assert (Hs2 : still s (put_sink (Some k') (moved es n1 s1))) 
      by (destruct (still_silent es n1 s s1 Hs1 He) as [[]]; by split; [split | | eauto |]).
    apply wp_bind. destruct ok; [apply wp_ret | by apply wp_break; eapply still_stopped]. apply wp_bind. by eapply wp_display_still. }
  destruct (_ && active _); [by apply wp_ret |]. destruct (bool_decide (command = [ESC])); [by apply wp_ret |].
  apply wp_bind. eapply wp_or_fail; [| by intros s2 Hs2; apply wp_ret].
  eapply wp_mono; [apply wp_send_literal, Hs1 |]. intros ok s2 Hs2. by eapply still_trans.
Qed.

Lemma wp_control_rounds fuel started k s s' : still s s' → wp stopped (control_rounds w ui fuel started k) (λ _, still s) s'.
Proof.
  revert s'. induction fuel as [|fuel IH]; intros s' Hs; cbn [control_rounds]; [by apply wp_break; eapply still_stopped |].
  apply wp_bind, wp_ask. intros n. assert (Hs1 := still_silent [] n s s' Hs (Forall_nil_2 _)).
  destruct (_ <=? _); [apply wp_bind; by eapply wp_display_still |].
  apply wp_bind, wp_render_bar. intros es n1 He. assert (Hs2 := still_silent es n1 s _ Hs1 He).
  split; [by eapply still_stopped |]. apply wp_bind, wp_ask. intros n2. assert (Hs3 := still_silent [] n2 s _ Hs2 (Forall_nil_2 _)).
  destruct (control_reads w _) as [| |[|b command]]; [by apply IH | by apply wp_break; eapply still_stopped | |].
  - apply wp_bind. eapply wp_display_still; [exact Hs3 |]. intros s4 Hs4. apply wp_bind, wp_close_stdin. intros es' n4 ok He'.
    by apply wp_ret, still_silent.
  - eapply wp_mono; [apply wp_control_command, Hs3 |]. intros o s4 Hs4. by eapply still_trans.
Qed.

(** Turns in which keys are only typed: no command key, no lone escape, no dialogue while offline *)
Definition plain_turn (t : Turn) : bool :=
  match t with
  | OnCommand (Some (SetReconnectVisible visible)) => negb visible
  | OnStdin (Keys chunk) => negb (Tmux.is_ctrl_backslash_sequence chunk) && negb (bool_decide (chunk = [ESC]))
  | _ => true
  end.

Definition items_of (t : Turn) : list Item :=
  match t with OnStdin (Keys (b :: l)) => [Fed (b :: l)] | OnPause _ => [Paused] | _ => [] end.

Definition live (s : Input) : Prop := imode s ≠ Offline true.

Record after (t : Turn) (s s' : Input) : Prop := {
  after_ready : ready s';
  after_log : ilog s `prefix_of` ilog s';
  after_plain : plain_turn t = true → clean (ilog s') = true → live s → live s' ∧ taken s' = taken s ++ items_of t;
}.

Lemma wp_filter_outbound k l s (Q : bytes → Input → Prop) : busy 0 [] s →
  (∀ o s', busy 0 o s' → sink s' = sink s → imode s' = imode s → ilog s' = ilog s →
     (l ≠ [ESC] → taken s' = taken s ++ [Fed l]) → Q o s') →
  wp stopped (filter_attach_stdin_outbound w k l) Q s.
Proof.
  intros Hb HQ.
  assert (Hfeed : ∀ s1 f o, frame s s1 → ilog s1 = ilog s → busy 0 [] s1 → Filter.feed (response_filter s1) l = (f, o) → Q o (took (Fed l) f s1)).
  { intros s1 f o [] Hl Hb1 Hf. apply HQ; cbn [sink imode ilog took taken]; [| congruence .. |].
    - apply (took_busy (Fed l) f o); [| done]. cbn. by rewrite Hf.
    - intros _. congruence. }
  apply wp_bind. case_bool_decide as Hl.
  - apply wp_has_active_reload. intros b n. assert (Hb1 := busy_silent [] n _ _ _ Hb (Forall_nil_2 _)).
    destruct b; apply wp_bind, wp_get; unfold id.
    + apply wp_bind, wp_assign, wp_ret, HQ; try done; [by apply (took_busy (Literal l) _ l) | by cbn; rewrite app_nil_r].
    + destruct (Filter.feed _ l) as [f o] eqn:Hf. apply wp_bind, wp_assign, wp_ret, Hfeed; [apply frame_moved | apply app_nil_r | done | done].
  - apply wp_ret, wp_bind, wp_get. unfold id. destruct (Filter.feed _ l) as [f o] eqn:Hf.
    by apply wp_bind, wp_assign, wp_ret, Hfeed.
Qed.

Lemma wp_escape_tail k chunk s (Q : bytes → Input → Prop) : busy 0 [] s →
  (∀ l s', busy 0 [] s' → frame s s' → (chunk ≠ [ESC] → l = chunk) → Q l s') → wp stopped (escape_tail w k chunk) Q s.
Proof.
  intros Hb HQ. apply wp_bind. case_bool_decide as Hc; [| by apply wp_ret, wp_ret, HQ].
  apply wp_has_active_reload. intros [] n.
  - apply wp_bind, wp_ask. intros n'. rewrite moved_moved. apply wp_ret, HQ; [by apply busy_silent | apply frame_moved | done].
  - apply wp_ret, HQ; [by apply busy_silent | apply frame_moved | done].
Qed.

Lemma disconnected_ready s : busy 0 [] s → ready (set_mode (Offline false) (put_sink None s)).
Proof. intros [Ho Hb Hs]. by split. Qed.

Lemma still_after t s s' : still s s' → is_Some (sink s) → plain_turn t = false → after t s s'.
Proof. intros [Hb Hm Hk Hl] Hc Ht. split; [by apply busy_ready, Hk | done | congruence]. Qed.

Lemma wp_connected_bytes k b l s : busy 0 [] s → imode s = Connected → is_Some (sink s) →
  wp stopped (connected_bytes w ui k (b :: l)) (λ _, after (OnStdin (Keys (b :: l))) s) s.
Proof.
  set (chunk := b :: l). intros Hb Hm Hsome. apply wp_bind, wp_observe_chunk; [done |]. intros s1 Hb1 Hf1.
  apply wp_bind. destruct (Tmux.is_ctrl_backslash_sequence chunk) eqn:Hk.
  { assert (Hp : plain_turn (OnStdin (Keys chunk)) = false) by (cbn [plain_turn]; by rewrite Hk).
    apply wp_bind, wp_bind, wp_ask. intros n.
    eapply wp_mono; [apply (wp_control_rounds _ _ _ s), still_silent; [by apply still_frame | done] |].
    intros o s2 Hs2. apply wp_ret. destruct o; [by apply wp_ret, still_after | |].
    - apply wp_note. intros n2. apply still_after; [by apply still_silent, Forall_singleton | done | done].
    - eapply wp_mono; [apply wp_cancel_paste, Hs2 |]. intros ? s3 Hs3. apply still_after; [by eapply still_trans | done | done]. }
  apply wp_ret, wp_bind, wp_get. unfold id. destruct (active (paste s1) && bool_decide (chunk = [ESC])) eqn:He.
  { apply andb_true_iff in He as [_ He]. eapply wp_mono; [by apply wp_cancel_paste |]. intros ? s2 Hs2.
    apply still_after; [| done |]; [| cbn [plain_turn]; by rewrite He, andb_false_r].
    eapply still_trans; [by apply still_frame | done]. }
  apply wp_bind, wp_escape_tail; [done |]. intros l1 s2 Hb2 Hf2 Hl1. apply wp_bind, wp_filter_outbound; [done |].
  intros o s3 Hb3 Hs3 Hm3 Hg3 Ht3. apply wp_bind. eapply wp_mono; [by apply wp_send_queued |].
  intros ok s4 (Hb4 & Hf4 & Hok). pose proof (frame_trans _ _ _ Hf1 Hf2) as [Hs12 Hm12 Ht12 _ Hl12].
  assert (Hl : ilog s `prefix_of` ilog s4). { etrans; [exact Hl12 |]. rewrite <- Hg3. apply Hf4. }
  destruct ok.
  - destruct Hf4 as [H1 H2 H3 H4 H5]. apply wp_ret. split; [by apply busy_ready; [| rewrite H1, Hs3, Hs12] | done |].
    cbn [plain_turn items_of]. rewrite Hk. cbn. intros Hne%negb_true_iff%bool_decide_eq_false Hc Hv. split.
    + unfold live. by rewrite H2, Hm3, Hm12.
    + rewrite H3, Ht3, Hl1, Ht12; [done | done |]. by rewrite Hl1.
  - apply wp_bind, wp_bind, wp_assign, wp_assign, wp_note. intros n. specialize (Hok eq_refl).
    split; [by apply ready_silent, Forall_singleton; [apply disconnected_ready |] | by etrans; [exact Hl | apply prefix_app_r] |].
    intros _ Hc. cbn [ilog moved set_mode put_sink] in Hc. rewrite clean_app, Hok in Hc. done.
Qed.

(** Of what does not fit in the buffer the end is dropped. *)
Lemma pushed_owes l es n s : owes l s → carried_all es = [] →
  dropped_all es = match (push l (buffer s)).2 with Full => rejected l (buffer s) | Accepted => [] end →
  owes [] (set_buffer (push l (buffer s)).1 (moved es n s)).
Proof.
  intros [Hf Ho Hc] He Hd. unfold owes. cbn [ilog moved set_buffer buffer taken response_filter]. rewrite carried_app, dropped_app, He, Hd, !app_nil_r.
  unfold push, rejected in *. cbv zeta in *. destruct (_ <? _); cbn [fst snd buffered].
  - split; [done | |].
    + etrans; [| exact Ho]. apply sublist_app; [done |]. apply sublist_app; [done |]. apply sublist_take.
    + rewrite Hc, !length_app, length_take, length_drop. lia.
  - rewrite app_nil_r. by split.
Qed.

Lemma wp_push_buffer I l s (Q : ReconnectBufferPush → Input → Prop) : owes l s → settled 0 s →
  (∀ r s', owes [] s' → settled 0 s' → frame s s' → (r = Full → clean (ilog s') = false) → Q r s') → wp I (push_buffer l) Q s.
Proof.
  intros Ho Hs HQ. apply wp_bind, wp_get. unfold id. pose proof (λ es n, pushed_owes l es n s Ho) as Hp.
  destruct (push l (buffer s)) as [b r]. cbn [fst snd] in Hp.
  apply wp_bind. destruct r.
  - apply wp_ret, wp_bind, wp_assign, wp_ret. rewrite <- (moved_nil s). apply HQ; [by apply Hp | | | done].
    + rewrite moved_nil. exact Hs.
    + rewrite moved_nil. by split.
  - apply wp_note. intros n. apply wp_bind, wp_assign, wp_ret, HQ.
    + apply Hp; [done |]. unfold dropped_all. cbn. by rewrite app_nil_r.
    + apply (settled_moved [Dropped (rejected l (buffer s))] n); [exact Hs | by repeat constructor].
    + split; try done. by apply prefix_app_r.
    + intros _. cbn [ilog moved set_buffer]. rewrite clean_app. apply andb_false_r.
Qed.

Lemma wp_offline_bytes b l s : ready s → imode s = Offline false →
  wp stopped (offline_bytes (b :: l)) (λ _, after (OnStdin (Keys (b :: l))) s) s.
Proof.
  intros [Ho Hm Hs] Hoff. apply wp_bind, wp_get. unfold id. destruct (Filter.feed (response_filter s) (b :: l)) as [f o] eqn:Hf.
  apply wp_bind, wp_assign. assert (Ho1 : owes o (took (Fed (b :: l)) f s)) by (apply (took_owes _ f o []); [cbn [pass fst]; by rewrite Hf | done]).
  assert (Hend : ∀ s', owes [] s' → settled 0 s' → frame (took (Fed (b :: l)) f s) s' → after (OnStdin (Keys (b :: l))) s s').
  { intros s' Ho' Hs' [H1 H2 H3 H4 H5]. cbn [imode took] in H2. split; [split; [done | congruence | done] | done |].
    intros _ _ Hv. split; [| done]. unfold live. by rewrite H2. }
  destruct o as [|c o]; [apply wp_ret, Hend; [done | done | apply frame_refl] |].
  apply wp_bind, wp_push_buffer; [done | done |]. intros r s1 Ho2 Hs2 Hf2 Hr. apply wp_bind, wp_get. unfold id.
  destruct (match r with Full => true | Accepted => is_full (buffer s1) end); [| apply wp_ret; by apply Hend].
  apply wp_bind, wp_assign, wp_note. intros n. destruct (Hend s1 Ho2 Hs2 Hf2) as [[_ Hm2 _] Hl2 _].
  split; [apply ready_silent; [by split | by repeat constructor] | by etrans; [exact Hl2 | apply prefix_app_r] |].
  intros _ Hc. cbn [ilog moved set_mode] in Hc. rewrite clean_app, andb_false_r in Hc. done.
Qed.

Lemma wp_handle_bytes b l s : ready s →
  wp stopped (handle_attach_input_bytes w ui (b :: l)) (λ _, after (OnStdin (Keys (b :: l))) s) s.
Proof.
  intros Hr. apply wp_bind, wp_get. unfold id. destruct (imode s) as [|[]] eqn:Hm; [| | by apply wp_offline_bytes].
  - destruct (ready_mode s Hr Hm) as [_ Hsome]. destruct (sink s) as [k|] eqn:Hk; [| by destruct Hsome].
    apply wp_connected_bytes; [by apply ready_busy | done | by rewrite Hk].
  - assert (Hend : ∀ s', (∃ es n, Forall silent es ∧ s' = moved es n s) → after (OnStdin (Keys (b :: l))) s s').
    { intros s' (es & n & He & ->). split; [by apply ready_silent | by apply prefix_app_r |]. intros _ _ Hv. by destruct Hv. }
    assert (Hemit : ∀ e, wp stopped (emit e) (λ _, after (OnStdin (Keys (b :: l))) s) s).
    { intros e. apply wp_note. intros n. apply Hend. exists [Emitted e], n. split; [by repeat constructor | done]. }
    destruct (from_visible_input (b :: l)) as [[]|]; try apply Hemit. apply wp_ret, Hend. exists [], (ios s). by rewrite moved_nil.
Qed.

(** A pause: between its two halves the filter has been flushed. *)
Record paused (items : list Item) (s s' : Input) : Prop := {
  paused_ready : ready s';
  paused_log : ilog s `prefix_of` ilog s';
  paused_taken : taken s' = taken s ++ items;
  paused_live : live s → live s';
}.

Lemma dropped_ready n l s : owes l s → settled 0 s → imode s ≠ Connected → ready (moved [Dropped l] n s).
Proof.
  intros [Hf Ho Hc] Hs Hm. split; [| done | by apply settled_moved; [| by repeat constructor]].
  unfold owes. cbn [ilog moved buffer taken response_filter]. rewrite carried_app, dropped_app.
  change (carried_all [Dropped l]) with (@nil Z). rewrite !app_nil_r. split; [done | |].
  - etrans; [| exact Ho]. rewrite app_assoc. by apply sublist_inserts_r.
  - rewrite Hc, !length_app. cbn. rewrite !length_app. cbn. lia.
Qed.

Lemma disconnect_any s : ready s → ready (set_mode (Offline false) (put_sink None s)).
Proof. intros [Ho Hm Hs]. by split. Qed.

Lemma wp_flush_filter s : ready s → wp stopped (flush_filter w) (λ _, paused [Paused] s) s.
Proof.
  intros [Ho Hm Hs]. apply wp_bind, wp_bind, wp_get. unfold id.
  destruct (Filter.flush_timeout (response_filter s)) as [f o] eqn:Hf. apply wp_bind, wp_assign, wp_ret.
  assert (Ho1 : owes o (took Paused f s)) by (apply (took_owes _ f o []); [cbn [pass fst]; by rewrite Hf | done]).
  destruct o as [|c o]; [apply wp_ret; by split; [split | ..] |].
  apply wp_bind, wp_get. unfold id. destruct (imode (took Paused f s)) as [|[]] eqn:Hm1; cbn [imode took] in Hm1.
  - destruct (Hm Hm1) as [Hbuf Hsome]. cbn [sink took]. destruct (sink s) as [k|] eqn:Hk; [| by destruct Hsome].
    apply wp_bind, wp_send_stdin. intros n x ok Hx.
    assert (Hb : busy 0 [] (moved [Wrote (Some (c :: o)) x ok] n (took Paused f s))).
    { apply busy_moved; [| by repeat constructor | done]. unfold carried_all. cbn. rewrite !app_nil_r. by split. }
    destruct ok.
    + apply wp_ret. split; [| by apply prefix_app_r | done | done]. apply busy_ready; [done |]. cbn. by rewrite Hk.
    + apply wp_bind, wp_note. intros n1. apply wp_bind, wp_assign, wp_assign. split; [| | done | done].
      * apply disconnected_ready, busy_silent; [done | by repeat constructor].
      * cbn. rewrite <- app_assoc. by apply prefix_app_r.
  - apply wp_note. intros n. split; [| by apply prefix_app_r | done | done]. apply dropped_ready; [done | done | cbn; congruence].
  - apply wp_bind, wp_push_buffer; [done | done |]. intros r s1 Ho2 Hs2 [H1 H2 H3 H4 H5] Hc. apply wp_ret. cbn [imode took taken] in *.
    split; [split; [done | congruence | done] | done | done |]. unfold live. congruence.
Qed.

Lemma paused_trans i i' s s' s'' : paused i s s' → paused i' s' s'' → paused (i ++ i') s s''.
Proof. intros [] [? ? Ht ?]. split; [done | by etrans | rewrite Ht, paused_taken0; by rewrite app_assoc | auto]. Qed.

Lemma paused_silent es n s : ready s → Forall silent es → paused [] s (moved es n s).
Proof. intros Hr He. split; [by apply ready_silent | by apply prefix_app_r | by cbn; rewrite app_nil_r | done]. Qed.

Lemma wp_follow_size size s : ready s → wp stopped (follow_size w size) (λ _, paused [] s) s.
Proof.
  intros Hr. apply wp_bind, wp_get. unfold id. case_bool_decide; [apply wp_ret; split; try done; by rewrite app_nil_r |].
  apply wp_bind. assert (Hp1 : ∀ n, paused [] s (moved [Showed (Display.CallSize size.1 size.2)] n s))
    by (intros n; apply paused_silent; [done | by repeat constructor]).
  apply wp_display; intros n; [by eapply ready_stopped, paused_ready |]. specialize (Hp1 n). apply wp_bind, wp_assign, wp_bind.
  set (s1 := moved _ n s) in *. clearbody s1.
  assert (Hp2 : paused [] s (set_pending_size (Some size) s1)) by (destruct Hp1 as [[]]; by split; [split | ..]).
  assert (Hend : ∀ s2, paused [] s s2 → wp (E := InputEnd) stopped (assign (set_last_size size)) (λ _, paused [] s) s2).
  { intros s2 [[]]. apply wp_assign. by split; [split | ..]. }
  destruct (sink s) as [k|]; [| by apply wp_ret, Hend].
  apply wp_bind, wp_resize. intros k' es n2 ok He.
  assert (Hp3 := paused_trans _ _ _ _ _ Hp2 (paused_silent es n2 _ (paused_ready _ _ _ Hp2) He)). destruct ok.
  - apply wp_bind, wp_assign, wp_assign, Hend. destruct Hp3 as [[Ho Hm Hs] ? ? ?]. split; try done. split; try done.
    intros Hc. split; [by apply Hm | eauto].
  - apply wp_bind, wp_note. intros n3. apply wp_bind, wp_assign, wp_assign, Hend.
    destruct (paused_trans _ _ _ _ _ Hp3 (paused_silent [Emitted EvSinkFailed] n3 _ (paused_ready _ _ _ Hp3) ltac:(by repeat constructor)))
      as [Hr4 ? ? ?]. split; [by apply disconnect_any | done | done | done].
Qed.

Lemma refused_ready es n s : owes [] s → settled 0 s → Forall silent es → ready (set_mode (Offline false) (moved es n s)).
Proof.
  intros Ho Hs He. destruct (ready_silent es n (set_mode (Offline false) s)) as [? ? ?]; [by split | done |]. by split.
Qed.

Lemma wp_refuse_sink s s' : owes [] s' → settled 0 s' → taken s' = taken s → ilog s `prefix_of` ilog s' →
  wp stopped refuse_sink (λ _, paused [] s) s'.
Proof.
  intros Ho Hs Ht Hl. apply wp_bind, wp_note. intros n. apply wp_bind, wp_assign, wp_bind, wp_note. intros n'. apply wp_ret.
  split; [| | by cbn; rewrite app_nil_r | done].
  - apply ready_silent; [apply refused_ready | by repeat constructor]; [done | done | by repeat constructor].
  - cbn. rewrite <- app_assoc. etrans; [exact Hl | by apply prefix_app_r].
Qed.

Lemma wp_set_sink k s : ready s → wp stopped (set_sink_command w k) (λ _, paused [] s) s.
Proof.
  intros [Ho Hm Hs]. apply wp_bind, wp_assign, wp_bind, wp_get. unfold id. apply wp_bind.
  assert (Hgo : ∀ k' es n ok, Forall silent es → wp stopped
    (if negb ok then refuse_sink
     else s ← get id; let '(b, l) := take_buffer (buffer s) in assign (set_buffer b);;
       ok ← match l with [] => mret true | _ => send_stdin w k' l end;
       if negb ok then refuse_sink else assign (put_sink (Some k'));; note (Acked true);; mret false)
    (λ _, paused [] s) (moved es n (set_mode Connected s))).
  { intros k' es n ok He. destruct (ready_silent es n (set_mode (Offline false) s)) as [Ho1 _ Hs1]; [by split | done |].
    assert (Hl1 : ilog s `prefix_of` ilog s ++ es) by (by apply prefix_app_r).
    destruct ok; cbn [negb]; [| by apply wp_refuse_sink]. apply wp_bind, wp_get. unfold id, take_buffer.
    apply wp_bind, wp_assign, wp_bind. set (l := buffered _).
    assert (Hend : ∀ (ok : bool) s', busy 0 [] s' → imode s' = Connected → taken s' = taken s → ilog s `prefix_of` ilog s' →
      wp stopped (if negb ok then refuse_sink else assign (put_sink (Some k'));; note (Acked true);; mret false) (λ _, paused [] s) s').
    { intros ok s' [Ho' Hb' Hs'] Hm' Ht' Hl'. destruct ok; cbn [negb]; [| by apply wp_refuse_sink].
      apply wp_bind, wp_assign, wp_bind, wp_note. intros n'. apply wp_ret. split; [| | by cbn; rewrite app_nil_r |].
      - apply ready_silent; [split; [done | by eauto | done] | by repeat constructor].
      - etrans; [exact Hl' | by apply prefix_app_r].
      - intros _. unfold live. cbn. by rewrite Hm'. }
    match goal with |- wp _ _ _ ?t => assert (Hb : busy 0 l t) end.
    { unfold l. split; [| done | done]. unfold owes in *. cbn [ilog set_buffer buffer moved set_mode buffered taken response_filter] in *.
      by rewrite app_nil_r in Ho1. }
    clearbody l. destruct l as [|c l]; [by apply wp_ret, Hend |]. apply wp_send_stdin. intros n' x ok Hx. apply Hend; [| done | done |].
    - apply busy_moved; [| by repeat constructor | done]. unfold carried_all. cbn [fmap list_fmap concat carried]. by rewrite !app_nil_r.
    - etrans; [exact Hl1 | by apply prefix_app_r]. }
  destruct (pending_size _) as [[cols rows]|]; [apply wp_resize; intros k' es n ok He; by apply Hgo |].
  apply wp_ret. rewrite <- (moved_nil (set_mode Connected s)). by apply Hgo.
Qed.

Lemma wp_ack ok s s' (Q : bool → Input → Prop) : ready s' → ilog s `prefix_of` ilog s' → taken s' = taken s →
  (∀ n, paused [] s' (moved [Acked ok] n s') → Q false (moved [Acked ok] n s')) → wp stopped (note (Acked ok);; mret false) Q s'.
Proof. intros Hr Hl Ht HQ. apply wp_bind, wp_note. intros n. apply wp_ret, HQ, paused_silent; [done | by repeat constructor]. Qed.

(** A command and its answer *)
Record answered (c : AttachInputCommand) (s s' : Input) : Prop := {
  ans_ready : ready s';
  ans_log : ilog s `prefix_of` ilog s';
  ans_taken : taken s' = taken s;
  ans_live : plain_turn (OnCommand (Some c)) = true → live s → live s';
}.

Lemma paused_answered c s s' : paused [] s s' → answered c s s'.
Proof. intros [? ? Ht ?]. rewrite app_nil_r in Ht. by split. Qed.

Lemma answered_ack c ok s s' : answered c s s' → wp stopped (note (Acked ok);; mret false) (λ _, answered c s) s'.
Proof.
  intros [Hr Hl Ht Hv]. apply (wp_ack ok s); try done. intros n [? ? Ht' ?]. rewrite app_nil_r in Ht'.
  split; [done | by etrans | congruence | auto].
Qed.

Lemma wp_command c s : ready s → wp stopped (handle_attach_input_command w c) (λ _, answered c s) s.
Proof.
  intros Hr. assert (H0 : answered c s s) by done.
  destruct c as [k| |visible|reason|]; cbn [handle_attach_input_command].
  - eapply wp_mono; [by apply wp_set_sink |]. intros ? s' Hp. by apply paused_answered.
  - apply wp_bind, wp_bind, wp_assign, wp_assign, answered_ack. split; [by apply disconnect_any | done | done | done].
  - apply wp_bind, wp_get, wp_bind. unfold id. destruct (sink s) as [k|] eqn:Hk; [by apply wp_ret, answered_ack |].
    apply wp_assign, answered_ack. destruct Hr. split; [by split | done | done |]. cbn [plain_turn]. by intros ->%negb_true_iff.
  - apply wp_bind, wp_get, wp_bind. unfold id. destruct (sink s) as [k|]; [| by apply wp_ret, answered_ack].
    apply wp_request_viewport. intros es n ok He. by apply answered_ack, paused_answered, paused_silent.
  - by apply wp_ret.
Qed.

Lemma wp_turn t s : ready s → wp stopped (coordinator_turn w ui t) (λ _, after t s) s.
Proof.
  intros Hr. destruct t as [[c|]|[| |[|b l]]|size]; cbn [coordinator_turn]; try by apply wp_break, ready_stopped.
  - apply wp_bind. eapply wp_mono; [by apply wp_command |]. intros stop s1 [Hr1 Hl1 Ht1 Hv1].
    destruct stop; [by apply wp_break, ready_stopped |]. apply wp_bind, wp_get. unfold id.
    assert (Ha : after (OnCommand (Some c)) s s1) by (split; [done | done |]; intros; split; [by apply Hv1 | cbn; by rewrite app_nil_r]).
    destruct (sink s1); [apply wp_assign; destruct Ha as [[]]; by split; [split | ..] | by apply wp_ret].
  - apply wp_bind, wp_get, wp_bind. unfold id.
    assert (Hend : ∀ es n, Forall silent es → wp stopped (emit EvClosed;; break Finished) (λ _ : unit, after (OnStdin (Keys [])) s) (moved es n s)).
    { intros es n He. apply wp_bind, wp_note. intros n'. apply wp_break, ready_stopped, ready_silent; [by apply ready_silent | by repeat constructor]. }
    destruct (sink s) as [k|]; [apply wp_bind, wp_close_stdin; intros es n ok He; by apply wp_ret, Hend |].
    apply wp_ret. pose proof (Hend [] (ios s) (Forall_nil_2 _)) as H. by rewrite moved_nil in H.
  - by apply wp_handle_bytes.
  - apply wp_bind. eapply wp_mono; [by apply wp_flush_filter |]. intros ? s1 Hp1.
    assert (Hend : ∀ s', paused [] s1 s' → after (OnPause size) s s').
    { intros s' Hp. destruct (paused_trans _ _ _ _ _ Hp1 Hp) as [? ? ? ?]. by split; [| | auto]. }
    destruct size as [now|]; [| apply wp_ret, Hend; destruct Hp1; split; try done; by rewrite app_nil_r].
    eapply wp_mono; [apply wp_follow_size, Hp1 |]. intros ? s' Hp. by apply Hend.
Qed.

Lemma wp_loop ts s : ready s → wp stopped (attach_input_coordinator_loop w ui ts) (λ _ s', ready s' ∧ ilog s `prefix_of` ilog s' ∧
  (forallb plain_turn ts = true → clean (ilog s') = true → live s → taken s' = taken s ++ concat (items_of <$> ts))) s.
Proof.
  revert s. induction ts as [|t ts IH]; intros s Hr; cbn [attach_input_coordinator_loop].
  { apply wp_ret. split_and!; [done | done |]. intros. by rewrite app_nil_r. }
  apply wp_bind. eapply wp_mono; [by apply wp_turn |]. intros ? s1 [Hr1 Hl1 Hp1].
  eapply wp_mono; [by apply IH |]. intros ? s2 (Hr2 & Hl2 & Hp2). split_and!; [done | by etrans |].
  cbn. intros [Ht Hts]%andb_true_iff Hc Hv. destruct (Hp1 Ht (clean_prefix _ _ Hl2 Hc) Hv) as [Hv1 Ht1].
  rewrite Hp2, Ht1 by done. by rewrite app_assoc.
Qed.

Lemma start_ready size : ready (coordinator_start size).
Proof. split; [by split | done | done]. Qed.

(** One connection: the same turns without commands *)
Record kept (t : Turn) (s s' : Input) : Prop := {
  kept_busy : busy 0 [] s';
  kept_sink : is_Some (sink s');
  kept_log : ilog s `prefix_of` ilog s';
  kept_plain : plain_turn t = true → taken s' = taken s ++ items_of t;
}.

Lemma still_kept t s s' : still s s' → is_Some (sink s) → plain_turn t = false → kept t s s'.
Proof. intros [Hb Hm Hk Hl] Hc Ht. split; [done | by apply Hk | done | congruence]. Qed.

Lemma wp_stdin_bytes k b l s : busy 0 [] s → is_Some (sink s) → wp stopped (stdin_bytes w ui k (b :: l)) (λ _, kept (OnStdin (Keys (b :: l))) s) s.
Proof.
  set (chunk := b :: l). intros Hb Hsome. apply wp_bind, wp_observe_chunk; [done |]. intros s1 Hb1 Hf1.
  apply wp_bind. destruct (Tmux.is_ctrl_backslash_sequence chunk) eqn:Hk.
  { assert (Hp : plain_turn (OnStdin (Keys chunk)) = false) by (cbn [plain_turn]; by rewrite Hk).
    apply wp_bind, wp_bind, wp_ask. intros n.
    eapply wp_mono; [apply (wp_control_rounds _ _ _ s), still_silent; [by apply still_frame | done] |].
    intros o s2 Hs2. apply wp_ret. destruct o; [by apply wp_ret, still_kept | by apply wp_break; eapply still_stopped |].
    eapply wp_mono; [apply wp_cancel_paste, Hs2 |]. intros ? s3 Hs3. apply still_kept; [by eapply still_trans | done | done]. }
  apply wp_ret, wp_bind, wp_get. unfold id. destruct (active (paste s1) && bool_decide (chunk = [ESC])) eqn:He.
  { apply andb_true_iff in He as [_ He]. eapply wp_mono; [by apply wp_cancel_paste |]. intros ? s2 Hs2.
    apply still_kept; [| done |]; [| cbn [plain_turn]; by rewrite He, andb_false_r].
    eapply still_trans; [by apply still_frame | done]. }
  apply wp_bind, wp_filter_outbound; [done |]. intros o s3 Hb3 Hs3 Hm3 Hg3 Ht3. apply wp_bind.
  eapply wp_mono; [by apply wp_send_queued |]. intros ok s4 (Hb4 & [H1 H2 H3 H4 H5] & Hok). destruct Hf1 as [K1 K2 K3 K4 K5].
  destruct ok; [apply wp_ret | by apply wp_break; eapply busy_stopped].
  split; [done | by rewrite H1, Hs3, K1 | by etrans; [exact K5 | rewrite <- Hg3] |].
  cbn [plain_turn items_of]. rewrite Hk. cbn. intros Hne%negb_true_iff%bool_decide_eq_false. by rewrite H3, Ht3, K3.
Qed.

Lemma wp_stdin_pause k size s : busy 0 [] s → is_Some (sink s) → wp stopped (stdin_pause w k size) (λ _, kept (OnPause size) s) s.
Proof.
  intros Hb Hsome. apply wp_bind, wp_bind, wp_get. unfold id.
  destruct (Filter.flush_timeout (response_filter s)) as [f o] eqn:Hf. apply wp_bind, wp_assign, wp_ret, wp_bind.
  assert (Hb1 : busy 0 o (took Paused f s)) by (apply (took_busy _ f o); [cbn [pass fst]; by rewrite Hf | done]).
  assert (Hend : ∀ (ok : bool) s1, busy 0 [] s1 → sink s1 = sink s → taken s1 = taken s ++ [Paused] → ilog s `prefix_of` ilog s1 →
    wp stopped (if negb ok then break (Result Closed) else s ← get id;
      match size with None => skip | Some now => if bool_decide (now = last_size s) then skip
        else display w (Display.CallSize now.1 now.2);; '(k', ok) ← resize w k now.1 now.2; assign (put_sink (Some k'));;
             if (ok : bool) then assign (set_last_size now) else break (Result Closed) end) (λ _, kept (OnPause size) s) s1).
  { intros ok s1 Hb2 Hk2 Ht2 Hl2. destruct ok; cbn [negb]; [| by apply wp_break; eapply busy_stopped].
    apply wp_bind, wp_get. unfold id. assert (kept (OnPause size) s s1) by (split; [done | by rewrite Hk2 | done | done]).
    destruct size as [now|]; [| by apply wp_ret]. case_bool_decide; [by apply wp_ret |].
    assert (Hd : ∀ n, busy 0 [] (moved [Showed (Display.CallSize now.1 now.2)] n s1)) by (intros; apply busy_silent; [done | by repeat constructor]).
    apply wp_bind, wp_display; intros n; [by eapply busy_stopped |].
    apply wp_bind, wp_resize. intros k' es n' ok He. rewrite moved_moved. apply wp_bind, wp_assign.
    match goal with |- wp _ _ _ ?t => assert (Hb3 : busy 0 [] t) end.
    { destruct (busy_silent es n' _ _ _ (Hd n) He) as [Ho Hbb Hss]. rewrite moved_moved in *. by split. }
    destruct ok; [| by apply wp_break; eapply busy_stopped]. apply wp_assign. split; [destruct Hb3; by split | eauto | | done].
    cbn. etrans; [exact Hl2 | by apply prefix_app_r]. }
  destruct o as [|c o]; [by apply wp_ret, Hend |]. apply wp_send_stdin. intros n x ok Hx. apply Hend; [| done | done | by apply prefix_app_r].
  apply busy_moved; [| by repeat constructor | done]. unfold carried_all. cbn. by rewrite !app_nil_r.
Qed.

Lemma wp_stdin_loop ts s : busy 0 [] s → is_Some (sink s) → wp stopped (stdin_loop w ui ts) (λ _ s', busy 0 [] s' ∧ is_Some (sink s') ∧
  ilog s `prefix_of` ilog s' ∧ (forallb plain_turn ts = true → taken s' = taken s ++ concat (items_of <$> ts))) s.
Proof.
  revert s. induction ts as [|t ts IH]; intros s Hb Hs; cbn [stdin_loop].
  { apply wp_ret. split_and!; [done | done | done |]. intros. by rewrite app_nil_r. }
  apply wp_bind. eapply (wp_mono _ _ _ (λ _, kept t s)).
  - apply wp_bind, wp_get. unfold id. destruct (sink s) as [k|] eqn:Hk; [| by destruct Hs]. rewrite <- Hk in Hs.
    destruct t as [c|[| |[|b l]]|size]; try by apply wp_break; eapply busy_stopped.
    + apply wp_ret. split; try done. intros _. destruct c; by rewrite app_nil_r.
    + apply wp_bind, wp_close_stdin. intros es n ok He. apply wp_break. by eapply busy_stopped, busy_silent.
    + by apply wp_stdin_bytes.
    + by apply wp_stdin_pause.
  - intros ? s1 [Hb1 Hs1 Hl1 Hp1]. eapply wp_mono; [by apply IH |]. intros ? s2 (Hb2 & Hs2 & Hl2 & Hp2).
    split_and!; [done | done | by etrans |]. cbn. intros [Ht Hts]%andb_true_iff. by rewrite Hp2, Hp1, app_assoc.
Qed.
End accounting.

(** ** What was typed *)

Definition typed_of (i : Item) : bytes := match i with Fed l => l | Paused | Literal _ => [] end.
Definition typed (items : list Item) : bytes := concat (typed_of <$> items).

Abbreviation answer := (λ d, Filter.is_response d = true).

(** Typed bytes are let through, are answers of the terminal, or wait in the filter. *)
Definition erased (t : bytes) (p : Filter.QueryResponseFilter * bytes) : Prop :=
  Filter.wf p.1 ∧ ∃ i, t = i ++ Filter.pending p.1 ∧ erases answer i p.2.

Lemma pass_erased t p i : erased t p → (∀ l, i ≠ Literal l) → erased (t ++ typed_of i) (pass p i).
Proof.
  destruct p as [f x]. intros (Hwf & j & -> & He) Hi. cbn [fst snd] in *. destruct i as [l| |l]; [| | by destruct (Hi l)].
  - cbn [pass typed_of fst snd]. destruct (Filter.feed f l) as [f' o] eqn:Hf.
    destruct (feed_erases Filter.feed_byte answer Filter.pending Filter.wf Filter.filter_feed_byte_spec l f f' o j x Hwf He Hf)
      as (Hwf' & j' & Hj & He'). split; [done |]. exists j'. cbn [fst snd]. by rewrite <- app_assoc.
  - cbn [pass typed_of]. rewrite app_nil_r. unfold Filter.flush_timeout. cbn [fst snd].
    pose proof Hwf as [_ Hs Hp]. destruct (Filter.mode f) eqn:Hm; cbn [fst snd]; rewrite ?app_nil_r; try by split; [done | exists j].
    rewrite Hs. cbn. rewrite Hs. split; [by split |]. exists (j ++ [ESC]). cbn. rewrite app_nil_r. split; [done | by apply erases_keep].
Qed.

Lemma passed_erased items : Forall (λ i, ∀ l, i ≠ Literal l) items → erased (typed items) (passed items).
Proof.
  unfold passed, typed. induction items as [|i items IH] using rev_ind; intros Hi.
  - split; [apply Filter.filter_new_wf |]. exists []. split; [done | constructor].
  - apply Forall_app in Hi as [Hi Hl]. rewrite fmap_app, concat_app, foldl_app. cbn [foldl fmap list_fmap concat]. rewrite app_nil_r.
    apply pass_erased; [by apply IH | by inversion Hl].
Qed.

Lemma turns_not_literal ts : Forall (λ i, ∀ l, i ≠ Literal l) (concat (items_of <$> ts)).
Proof.
  induction ts as [|t ts IH]; [constructor |]. cbn. apply Forall_app. split; [| done].
  destruct t as [|[| |[]]|]; repeat constructor; done.
Qed.

Lemma clean_delivered es : clean es = true → Forall regular es →
  erases (λ d, d = [ESC]) (carried_all es) (delivered es) ∧ length (carried_all es) = (length (delivered es) + cancels es)%nat.
Proof.
  induction es as [|e es IH] using rev_ind; [split; constructor |]. rewrite clean_app. intros [Hc He]%andb_true_iff [Hr Hre]%Forall_app. apply Forall_cons in Hre as [Hre _].
  destruct (IH Hc Hr) as [IHe IHl]. rewrite carried_app. unfold delivered, cancels in *. rewrite !fmap_app, concat_app, sum_list_with_app.
  rewrite !length_app, IHl. cbn in He. destruct e as [[l|] x []| | | | | |]; try done; cbn in *; rewrite ?app_nil_r; try by split; [| lia].
  destruct (cancels_reload x) eqn:Hx; cbn; rewrite ?app_nil_r.
  - rewrite (Hre eq_refl). split; [by apply erases_drop | cbn; lia].
  - split; [by apply erases_keep | lia].
Qed.

Lemma sublist_whole {A} (l k : list A) : l `sublist_of` k → (length k ≤ length l)%nat → l = k.
Proof.
  induction 1 as [|x l k _ IH|x l k Hs _]; cbn; intros Hl; [done | f_equal; apply IH; lia |].
  apply sublist_length in Hs. lia.
Qed.

(** Without drops nothing is missing. *)
Lemma owes_clean l s : owes l s → clean (ilog s) = true →
  (passed (taken s)).2 = carried_all (ilog s) ++ buffered (buffer s) ++ l ∧ (passed (taken s)).1 = response_filter s.
Proof.
  intros [Hf Ho Hc] Hcl. rewrite clean_drops, Nat.add_0_r in Hc by done. split; [| done].
  symmetry. apply sublist_whole; [done | lia].
Qed.

(** [kept] is what was typed without the answers of the terminal, [given] is that without the [n] escapes that cancelled a reload. *)
Definition passes (keys : bytes) (n : nat) (given : bytes) : Prop :=
  ∃ kept, erases answer keys kept ∧ erases (λ d, d = [ESC]) kept given ∧ length kept = (length given + n)%nat.

Lemma typed_kept l s ts : owes l s → settled 0 s → clean (ilog s) = true → taken s = concat (items_of <$> ts) →
  passes (typed (concat (items_of <$> ts))) (cancels (ilog s)) (delivered (ilog s) ++ buffered (buffer s) ++ l ++ Filter.pending (response_filter s)).
Proof.
  intros Ho Hs Hc Ht. destruct (owes_clean l s Ho Hc) as [Ho' Hf].
  destruct (clean_delivered (ilog s) Hc) as [He Hl]; [by apply Hs |].
  exists (carried_all (ilog s) ++ buffered (buffer s) ++ l ++ Filter.pending (response_filter s)). split_and!.
  - destruct (passed_erased (concat (items_of <$> ts)) (turns_not_literal ts)) as (_ & i & Hi & He').
    rewrite <- Ht in *. rewrite Ho', Hf in *. rewrite Hi. rewrite !app_assoc. rewrite !app_assoc in He'. by apply erases_keep.
  - by apply erases_keep.
  - rewrite !length_app, Hl. lia.
Qed.

(** ** Control mode ends *)

Definition fuelled {A} (m : Task A) : Prop := ∀ s, (m s).2 ≠ Err OutOfFuel.

Lemma fuelled_bind {A B} (m : Task A) (k : A → Task B) : fuelled m → (∀ a, fuelled (k a)) → fuelled (m ≫= k).
Proof. intros Hm Hk s. unfold mbind, step_bind. specialize (Hm s). destruct (m s) as [s' [a|e]]; [apply Hk | by intros [= ->]]. Qed.

Create HintDb fuel.

Ltac fuel := repeat first
  [ solve [eauto 2 with fuel nocore] | progress intros | progress cbv zeta | apply fuelled_bind | (intros ?; done)
  | match goal with |- fuelled (match ?x with _ => _ end) => destruct x end ].

(** A wait for a key that reads nothing takes its 100 ms. *)
Record ticking (w : World) : Prop := {
  tick_mono : ∀ n, clock w n ≤ clock w (S n);
  tick_wait : ∀ n, control_reads w n = TimedOut → clock w n + CONTROL_TICK ≤ clock w (S n);
}.

Section fuel.
Variable w : World.
Variable ui : AttachControlUi.

Lemma fuelled_display c : fuelled (display w c).
Proof. unfold display. fuel. Qed.
Lemma fuelled_put i x : fuelled (put w i x).
Proof. unfold put. fuel. Qed.
Lemma fuelled_put_zmx i tag l : fuelled (put_zmx w i tag l).
Proof. unfold put_zmx. destruct (Zmx.write_frame tag l); [apply fuelled_put | fuel]. Qed.

#[local] Hint Resolve fuelled_display fuelled_put fuelled_put_zmx : fuel.

Lemma fuelled_send k l : fuelled (send_stdin w k l).
Proof. unfold send_stdin. fuel. Qed.
Lemma fuelled_close k : fuelled (close_stdin w k).
Proof. unfold close_stdin. fuel. Qed.
Lemma fuelled_resize k c r : fuelled (resize w k c r).
Proof. unfold resize. fuel. Qed.
Lemma fuelled_bar : fuelled (update_paste_bar w ui).
Proof. unfold update_paste_bar. fuel. Qed.
#[local] Hint Resolve fuelled_send fuelled_close fuelled_resize fuelled_bar : fuel.

Lemma fuelled_literal k l : fuelled (send_literal w k l).
Proof. unfold send_literal. fuel. Qed.
#[local] Hint Resolve fuelled_literal : fuel.
Lemma fuelled_command k l : fuelled (control_command w ui k l).
Proof. unfold control_command, or_fail, kick_others, reload. fuel. Qed.
#[local] Hint Resolve fuelled_command : fuel.

Hypothesis Hw : ticking w.

Lemma clock_mono n m : (n ≤ m)%nat → clock w n ≤ clock w m.
Proof. induction 1 as [|m _ IH]; [done |]. etrans; [exact IH | apply Hw]. Qed.

Lemma render_bar_run k remaining s s' r : render_attach_control_bar w ui k remaining s = (s', r) → ios s' = S (ios s) ∧ r ≠ Err OutOfFuel.
Proof.
  unfold render_attach_control_bar, display, note, ask, get, assign, break, skip, mbind, step_bind, mret, step_ret.
  destruct (shows w _); cbn; by intros [= <- <-].
Qed.

Lemma fuelled_rounds fuel started k s : CONTROL_TIMEOUT ≤ clock w (ios s) - started + CONTROL_TICK * Z.of_nat fuel →
  (control_rounds w ui (S fuel) started k s).2 ≠ Err OutOfFuel.
Proof.
  revert s. induction fuel as [|fuel IH]; intros s Ht; remember (S _) as f eqn:Hf; rewrite Hf; cbn [control_rounds];
    unfold mbind at 1, step_bind at 1, ask at 1; cbv beta iota zeta; unfold duration_since;
    destruct (Z.leb_spec CONTROL_TIMEOUT (Z.max 0 (clock w (ios s) - started))) as [Hle|Hlt];
    try (by apply fuelled_bind; [apply fuelled_display | done]).
  { unfold CONTROL_TIMEOUT, CONTROL_TICK in *. lia. }
  unfold mbind at 1, step_bind at 1. destruct (render_attach_control_bar _ _ _ _ _) as [s1 r1] eqn:Hr.
  apply render_bar_run in Hr as [Hi Hr]. destruct r1 as [[]|e]; [| cbn; by intros [= ->]].
  unfold mbind at 1, step_bind at 1, ask at 1. destruct (control_reads w (ios s1)) as [| |[|b l]] eqn:Hc; [| done | |].
  - subst f. refine (IH (asked s1) _). pose proof (tick_wait w Hw _ Hc) as Hk. pose proof (clock_mono (ios s) (ios s1) ltac:(rewrite Hi; cbn; lia)).
    cbn [ios asked]. unfold CONTROL_TICK in *. lia.
  - apply fuelled_bind; [apply fuelled_display |]. intros _. apply fuelled_bind; [apply fuelled_close | done].
  - apply fuelled_command.
Qed.

Lemma fuelled_control k : fuelled (run_attach_control_mode w ui k).
Proof.
  intros s. unfold run_attach_control_mode, mbind, step_bind, ask, CONTROL_ROUNDS. apply fuelled_rounds. cbn [ios asked].
  pose proof (tick_mono w Hw (ios s)). unfold CONTROL_TIMEOUT, CONTROL_TICK. lia.
Qed.
#[local] Hint Resolve fuelled_control : fuel.

Lemma fuelled_cancel k : fuelled (cancel_paste w k).
Proof. unfold cancel_paste. fuel. Qed.
Lemma fuelled_queued k l : fuelled (send_queued w ui k l).
Proof. unfold send_queued. fuel. Qed.
Lemma fuelled_outbound k l : fuelled (filter_attach_stdin_outbound w k l).
Proof. unfold filter_attach_stdin_outbound, has_active_reload. fuel. Qed.
Lemma fuelled_observe l : fuelled (observe_chunk w l).
Proof. unfold observe_chunk. fuel. Qed.
Lemma fuelled_tail k l : fuelled (escape_tail w k l).
Proof. unfold escape_tail, has_active_reload. fuel. Qed.
#[local] Hint Resolve fuelled_cancel fuelled_queued fuelled_outbound fuelled_observe fuelled_tail : fuel.

Lemma fuelled_bytes l : fuelled (handle_attach_input_bytes w ui l).
Proof. unfold handle_attach_input_bytes, connected_bytes, offline_bytes, push_buffer, disconnect, emit. fuel. Qed.
Lemma fuelled_turn t : fuelled (coordinator_turn w ui t).
Proof.
  unfold coordinator_turn, handle_attach_input_command, set_sink_command, refuse_sink, disconnect, request_viewport, close_and_finish,
    flush_filter, flush_attach_stdin_filter_timeout, push_buffer, follow_size, emit.
  pose proof fuelled_bytes. fuel.
Qed.
Lemma fuelled_stdin_turn t : fuelled (stdin_turn w ui t).
Proof. unfold stdin_turn, stdin_bytes, stdin_pause, flush_attach_stdin_filter_timeout. fuel. Qed.
End fuel.

(** ** Markers in chunks *)

(** Whether the last marker of a stream begins a paste *)
Definition ends_in_paste (l : bytes) : bool :=
  match last_window BEGIN l, last_window END l with
  | Some b, Some e => (e <? b)%nat
  | Some _, None => true
  | None, _ => false
  end.

Definition scan_all (chunks : list bytes) : BracketedPasteScanner := foldl (λ s l, (scan s l).1) new_scanner chunks.

Definition last_at (P : nat → bool) (o : option nat) : Prop :=
  match o with
  | Some i => P i = true ∧ ∀ j, (i < j)%nat → P j = false
  | None => ∀ j, P j = false
  end.

Lemma last_at_unique P o o' : last_at P o → last_at P o' → o = o'.
Proof.
  destruct o as [i|], o' as [j|]; cbn; [| | | done].
  - intros [Hi Ui] [Hj Uj]. f_equal. destruct (Nat.lt_trichotomy i j) as [H|[H|H]]; [| done |].
    + specialize (Ui j H). congruence.
    + specialize (Uj i H). congruence.
  - intros [Hi _] H. specialize (H i). congruence.
  - intros H [Hi _]. specialize (H j). congruence.
Qed.

Lemma last_filter_seq (P : nat → bool) n : (∀ j, (n ≤ j)%nat → P j = false) → last_at P (last (filter (λ i, P i = true) (seq 0 n))).
Proof.
  induction n as [|n IH]; intros HP; [cbn; intros j; apply HP; lia |].
  rewrite seq_S, filter_app. cbn [Nat.add]. destruct (P n) eqn:Hn.
  - rewrite filter_cons_True, filter_nil, last_snoc by done. split; [done |]. intros j Hj. apply HP. lia.
  - rewrite filter_cons_False, filter_nil, app_nil_r by congruence. apply IH. intros j Hj.
    destruct (decide (j = n)) as [->|]; [done | apply HP; lia].
Qed.

Lemma window_bound pat l i : pat ≠ [] → window_at pat l i = true → (i + length pat ≤ length l)%nat.
Proof.
  intros Hp Hw%bool_decide_eq_true. apply (f_equal length) in Hw. rewrite length_take, length_drop in Hw.
  destruct pat; [done |]. cbn [length] in *. lia.
Qed.

Lemma last_window_spec pat l : pat ≠ [] → last_at (window_at pat l) (last_window pat l).
Proof.
  intros Hp. apply last_filter_seq. intros j Hj. destruct (window_at pat l j) eqn:Hw; [| done]. apply window_bound in Hw; [lia | done].
Qed.

(** A window of the stream is one of what came before, or one of the new chunk with the kept tail. *)
Lemma window_shift pat pre t l j : length pat = 6%nat → (pre = [] ∨ length t = 5%nat) →
  window_at pat (pre ++ t ++ l) j = if (j <? length pre)%nat then window_at pat (pre ++ t) j else window_at pat (t ++ l) (j - length pre).
Proof.
  intros Hp Ht. unfold window_at. destruct (Nat.ltb_spec j (length pre)) as [Hj|Hj].
  - destruct Ht as [->|Ht]; [cbn in Hj; lia |]. rewrite !drop_app_le, app_assoc by lia. rewrite take_app_le; [done |].
    rewrite length_app, length_drop. lia.
  - by rewrite drop_app_ge.
Qed.

Lemma last_window_shift pat pre t l : length pat = 6%nat → (pre = [] ∨ length t = 5%nat) → (length t ≤ 5)%nat →
  last_window pat (pre ++ t ++ l)
  = match last_window pat (t ++ l) with Some i => Some (length pre + i)%nat | None => last_window pat (pre ++ t) end ∧
  (∀ i, last_window pat (pre ++ t) = Some i → (i < length pre)%nat).
Proof.
  intros Hp Ht Hlen. assert (Hne : pat ≠ []) by (by destruct pat).
  pose proof (last_window_spec pat (t ++ l) Hne) as Hnew. pose proof (last_window_spec pat (pre ++ t) Hne) as Hold.
  assert (Hin : ∀ i, window_at pat (pre ++ t) i = true → (i < length pre)%nat).
  { intros i Hi%window_bound; [| done]. rewrite length_app in Hi. lia. }
  split; [| intros i Hi; rewrite Hi in Hold; apply Hin, Hold].
  apply (last_at_unique (window_at pat (pre ++ t ++ l))); [by apply last_window_spec |].
  destruct (last_window pat (t ++ l)) as [i|].
  - destruct Hnew as [Hi Ui]. split.
    + rewrite window_shift by done. rewrite (proj2 (Nat.ltb_ge _ _)) by lia. by replace (length pre + i - length pre)%nat with i by lia.
    + intros j Hj. rewrite window_shift by done. rewrite (proj2 (Nat.ltb_ge _ _)) by lia. apply Ui. lia.
  - assert (Heq : ∀ j, window_at pat (pre ++ t ++ l) j = window_at pat (pre ++ t) j).
    { intros j. rewrite window_shift by done. destruct (Nat.ltb_spec j (length pre)) as [Hj|Hj]; [done |]. rewrite Hnew.
      destruct (window_at pat (pre ++ t) j) eqn:Hw; [| done]. apply Hin in Hw. lia. }
    destruct (last_window pat (pre ++ t)) as [i|]; cbn in *; [| intros j; by rewrite Heq].
    destruct Hold as [Hi Ui]. rewrite Heq. split; [done |]. intros j Hj. rewrite Heq. by apply Ui.
Qed.

(** The scanner knows the last five bytes. *)
Definition scanned (l : bytes) (s : BracketedPasteScanner) : Prop :=
  in_paste s = ends_in_paste l ∧ (length (tail s) ≤ 5)%nat ∧ ∃ pre, l = pre ++ tail s ∧ (pre = [] ∨ length (tail s) = 5%nat).

Lemma scan_scanned l s c : scanned l s → scanned (l ++ c) (scan s c).1.
Proof.
  intros (Hin & Hlen & pre & -> & Hpre). unfold scan, ends_in_paste in *. rewrite <- app_assoc. change (Nat.max (length BEGIN) (length END) - 1)%nat with 5%nat.
  destruct (last_window_shift BEGIN pre (tail s) c) as [HB HBo]; [done .. |].
  destruct (last_window_shift END pre (tail s) c) as [HE HEo]; [done .. |].
  split_and!.
  - unfold ends_in_paste. rewrite HB, HE. destruct (last_window BEGIN (tail s ++ c)) as [b|], (last_window END (tail s ++ c)) as [e|]; cbn [fst in_paste].
    + destruct (Nat.ltb_spec e b), (Nat.ltb_spec (length pre + e) (length pre + b)); cbn [fst in_paste]; lia || done.
    + destruct (last_window END (pre ++ tail s)) as [e|]; [| done]. specialize (HEo e eq_refl). symmetry. apply Nat.ltb_lt. lia.
    + destruct (last_window BEGIN (pre ++ tail s)) as [b|]; [| done]. specialize (HBo b eq_refl). symmetry. apply Nat.ltb_ge. lia.
    + done.
  - repeat case_match; cbn [fst tail]; rewrite length_drop; lia.
  - exists (pre ++ take (length (tail s ++ c) - 5) (tail s ++ c)). rewrite <- app_assoc. repeat case_match; cbn [fst tail];
      (split; [f_equal; symmetry; apply take_drop |]; rewrite length_drop; destruct (Nat.le_gt_cases 5 (length (tail s ++ c))) as [Hl|Hl];
       [right; lia | left; rewrite (proj2 (Nat.sub_0_le _ _)) by lia; rewrite take_0, app_nil_r; destruct Hpre as [->|H5]; [done |];
        rewrite length_app in Hl; lia]).
Qed.

(** However the input is cut into chunks, the scanner is inside a bracketed paste exactly when the last
    marker of all of the input begins one. *)
Theorem scan_chunks chunks : in_paste (scan_all chunks) = ends_in_paste (concat chunks).
Proof.
  unfold scan_all. enough (H : ∀ s l, scanned l s → scanned (l ++ concat chunks) (foldl (λ s l, (scan s l).1) s chunks)).
  { apply (H new_scanner []). split_and!; [done | cbn; lia |]. exists []. by split; [| left]. }
  induction chunks as [|c chunks IH]; intros s l Hs; cbn; [by rewrite app_nil_r |].
  rewrite app_assoc. by apply IH, scan_scanned.
Qed.

(** ** Theorems *)

Definition typed_turns (ts : list Turn) : bytes := typed (concat (items_of <$> ts)).


(** Whatever fails, what was handed to sessions and then what is buffered is, in order, a part of what the
    filter let through; the bytes missing are those dropped from a full buffer or during a dialogue, and, once
    the loop has stopped with an error, those it had in hand. *)
Theorem input_accounted w ui size ts s r : attach_input_coordinator_loop w ui ts (coordinator_start size) = (s, r) →
  ∃ l, (r = Ok tt → l = []) ∧ (passed (taken s)).1 = response_filter s ∧
  carried_all (ilog s) ++ buffered (buffer s) ++ l `sublist_of` (passed (taken s)).2 ∧
  length (passed (taken s)).2 = (length (carried_all (ilog s) ++ buffered (buffer s) ++ l) + length (dropped_all (ilog s)))%nat.
Proof.
  intros Hrun. pose proof (wp_loop w ui ts _ (start_ready size)) as H. unfold wp in H. rewrite Hrun in H. destruct r as [[]|e].
  - destruct H as ([[Hf Ho Hc] _ _] & _ & _). by exists [].
  - destruct H as [(l & [Hf Ho Hc]) _]. by exists l.
Qed.

(** A paste that is cancelled never has bytes left to drop, unless a write to the session had failed before:
    every chunk is sent before the next key is read. *)
Theorem paste_cancel_drops_nothing w ui size ts s r n : attach_input_coordinator_loop w ui ts (coordinator_start size) = (s, r) →
  clean (ilog s) = true → Cancelled n ∈ ilog s → n = 0.
Proof.
  intros Hrun Hc Hn. pose proof (wp_loop w ui ts _ (start_ready size)) as H. unfold wp in H. rewrite Hrun in H.
  assert (He : Forall regular (ilog s)).
  { destruct r as [[]|e]; [destruct H as ([_ _ Hs] & _ & _); by apply Hs | by apply H]. }
  rewrite Forall_forall in He. exact (He _ Hn).
Qed.

(** The same for a session attached without reconnection. *)
Theorem stdin_loop_transparent w ui k size ts s : stdin_loop w ui ts (stdin_start k size) = (s, Ok tt) →
  forallb plain_turn ts = true → clean (ilog s) = true →
  passes (typed_turns ts) (cancels (ilog s)) (delivered (ilog s) ++ Filter.pending (response_filter s)).
Proof.
  intros Hrun Hp Hc. pose proof (wp_stdin_loop w ui ts (stdin_start k size)) as H. unfold wp in H. rewrite Hrun in H.
  destruct H as ([Ho Hb Hs] & _ & _ & Ht); [by split; [split | ..] | by eexists |].
  pose proof (typed_kept [] s ts Ho Hs Hc (Ht Hp)) as He. by rewrite Hb in He.
Qed.

(** The wait for a command key ends within 21 rounds, so the coordinator never runs out of fuel: a round in which
    nothing is typed takes 100 ms, and the mode is left after two seconds. *)
Theorem coordinator_fuelled w ui ts s : ticking w → (attach_input_coordinator_loop w ui ts s).2 ≠ Err OutOfFuel.
Proof.
  intros Hw. revert s. change (fuelled (attach_input_coordinator_loop w ui ts)).
  induction ts as [|t ts IH]; cbn [attach_input_coordinator_loop]; [done |]. apply fuelled_bind; [by apply fuelled_turn | done].
Qed.

(** ** Witnesses *)

Module Demo.

Definition calm : World := {| sends := λ _, true; shows := λ _, true; clock := λ n, 1000 * Z.of_nat n; reloads := λ _, None;
  control_reads := λ _, TimedOut; escape_reads := λ _, TimedOut |}.
Definition plain_ui : AttachControlUi := {| ui_ref := []; ui_supports_kick_others := false; ui_unicode := false; ui_color := false |}.

(** Two letters are typed while offline, one with an answer of the terminal after the connection, and an escape that waits in the filter while
    a reload runs *)
Definition reloading : World := {| sends := λ _, true; shows := λ _, true; clock := λ n, 1000 * Z.of_nat n; reloads := λ _, Some 1;
  control_reads := λ _, TimedOut; escape_reads := λ _, TimedOut |}.
Definition remote : AttachInputSink := RemoteV2 [9] 0 0 {| resize_id := 0; rs_cols := 80; rs_rows := 24 |}.
Definition turns : list Turn :=
  [OnStdin (Keys [97]); OnPause None; OnStdin (Keys [98]); OnCommand (Some (SetSink remote)); OnStdin (Keys [99; ESC; 91; 63; 49; 99]);
   OnStdin (Keys [101; ESC]); OnPause None; OnCommand (Some ClearSink); OnStdin (Keys [100])].

Definition typed_end : Input := Eval vm_compute in (attach_input_coordinator_loop reloading plain_ui turns (coordinator_start (80, 24))).1.

Lemma turns_run : attach_input_coordinator_loop reloading plain_ui turns (coordinator_start (80, 24)) = (typed_end, Ok tt).
Proof. by vm_compute. Qed.


Lemma input_accounted_witness : [97; 98; 99; 101; ESC] ++ [100] `sublist_of` (passed (taken typed_end)).2.
Proof.
  destruct (input_accounted reloading plain_ui (80, 24) turns typed_end (Ok tt) turns_run) as (l & Hl & _ & H & _).
  rewrite (Hl eq_refl) in H. exact H.
Defined.

(** The marker of a paste and the command key in one chunk, then the key that cancels the paste *)
Definition cancelling : World := {| sends := λ _, true; shows := λ _, true; clock := λ n, Z.of_nat n; reloads := λ _, None;
  control_reads := λ _, Keys [99]; escape_reads := λ _, TimedOut |}.
Definition pasting : list Turn := [OnCommand (Some (SetSink Remote)); OnStdin (Keys (BEGIN ++ [ESC; 91; 57; 50; 59; 53; 117]))].
Definition paste_run : Input * result InputEnd unit := attach_input_coordinator_loop cancelling plain_ui pasting (coordinator_start (80, 24)).

Lemma paste_run_eq : attach_input_coordinator_loop cancelling plain_ui pasting (coordinator_start (80, 24)) = (paste_run.1, paste_run.2).
Proof. unfold paste_run. by destruct (attach_input_coordinator_loop _ _ _ _). Qed.

Lemma paste_cancel_drops_nothing_witness : ∃ n, Cancelled n ∈ ilog paste_run.1 ∧ n = 0.
Proof.
  assert (Hc : clean (ilog paste_run.1) = true) by (vm_compute; reflexivity).
  assert (Hin : Cancelled 0 ∈ ilog paste_run.1) by (apply (list_elem_of_lookup_2 _ 3); vm_compute; reflexivity).
  exists 0. split; [exact Hin |].
  exact (paste_cancel_drops_nothing cancelling plain_ui (80, 24) pasting paste_run.1 paste_run.2 0 paste_run_eq Hc Hin).
Defined.

(** One connection *)
Definition one_turns : list Turn := [OnStdin (Keys [97; ESC]); OnPause (Some (100, 30)); OnStdin (Keys [98])].
Definition one_end : Input := Eval vm_compute in (stdin_loop calm plain_ui one_turns (stdin_start Ghostty None)).1.

Lemma one_run : stdin_loop calm plain_ui one_turns (stdin_start Ghostty None) = (one_end, Ok tt).
Proof. by vm_compute. Qed.

Lemma stdin_loop_transparent_witness : passes [97; ESC; 98] 0 ([97; ESC; 98] ++ []).
Proof. exact (stdin_loop_transparent calm plain_ui Ghostty None one_turns one_end one_run eq_refl eq_refl). Defined.

(** Input kept during a disconnection is lost when the first write of the next connection fails: the buffer is
    emptied before the write, and nothing tells the user. *)
Definition refusing : World := {| sends := λ _, false; shows := λ _, true; clock := λ n, Z.of_nat n; reloads := λ _, None;
  control_reads := λ _, TimedOut; escape_reads := λ _, TimedOut |}.

Theorem buffered_input_lost : ∃ s,
  attach_input_coordinator_loop refusing plain_ui [OnStdin (Keys [97]); OnCommand (Some (SetSink Remote))] (coordinator_start (80, 24)) = (s, Ok tt) ∧
  delivered (ilog s) = [] ∧ buffered (buffer s) = [] ∧ imode s = Offline false.
Proof. eexists. split; [vm_compute; reflexivity | done]. Qed.

Lemma coordinator_fuelled_witness : (attach_input_coordinator_loop calm plain_ui turns (coordinator_start (80, 24))).2 ≠ Err OutOfFuel.
Proof. apply coordinator_fuelled. split; intros; cbn; unfold CONTROL_TICK; lia. Defined.

End Demo.
