(* ===== verification/AttachReconnect.v ===== *)
(** * Reattaching to a session

    crates/portl-cli/src/commands/session.rs: how long a client waits between attempts
    ([ReconnectPolicy]), the attempts themselves ([reconnect_remote_session]), and the loop around
    them ([remote_session_attach_with_reconnect_on_endpoint]).

    Times and durations are nanoseconds.  The state of a task has the clock, and each exchange
    with the surroundings takes the time [takes] says; a sleep takes at least its delay.  Answers
    are those of the record [Env], by the number of exchanges so far.  The request has no forwards:
    [supervise_forwarding] then only waits for the session.  A signal while the old connection is
    being closed is not modelled. *)

From stdpp Require Import strings.
From S2P Require Import Prelude Text Steps Providers SessionHandler Redial AttachDisplay AttachV2 AttachInput.

Definition ms (n : Z) : Z := n * 1000000.
Definition secs (n : Z) : Z := n * 1000000000.

(** ** The policy *)

Record ReconnectPolicy := {
  base_delay : Z;
  max_delay : Z;
  max_elapsed : Z;
  delay_floor : Z;
  transparent_grace : Z;
}.

(** [reconnect_policy_for_environment] changes nothing outside test builds. *)
Definition default_interactive : ReconnectPolicy := {| base_delay := ms 500; max_delay := secs 10; max_elapsed := secs 120;
  delay_floor := ms 100; transparent_grace := ms 1500 |}.

Definition with_observed_rtt (rtt : option Z) (p : ReconnectPolicy) : ReconnectPolicy :=
  match rtt with
  | Some r => if r =? 0 then p else
      {| base_delay := base_delay p; max_delay := max_delay p; max_elapsed := max_elapsed p;
         delay_floor := Z.min (Z.max (delay_floor p) r) (secs 1);
         transparent_grace := Z.min (Z.max (transparent_grace p) (r * 8)) (secs 4) |}
  | None => p
  end.

Definition visible_delay (p : ReconnectPolicy) (attempt jitter : Z) : Z :=
  let multiplier := Z.shiftl 1 (Z.min (saturating_sub attempt 1) 16) in
  let capped := Z.min (base_delay p * multiplier) (max_delay p) in
  Z.min (Z.max (Z.min jitter capped) (delay_floor p)) (max_delay p).

Definition retry_budget_remaining (p : ReconnectPolicy) (elapsed : Z) : bool := elapsed <? max_elapsed p.

(** [as_millis] rounds down; every number is the draw of some [gen_range]. *)
Definition random_duration_between (draw lo hi : Z) : Z :=
  if hi <=? lo then lo
  else let lo_ms := lo / 1000000 in let hi_ms := hi / 1000000 in ms (lo_ms + draw `mod` (hi_ms - lo_ms + 1)).

Definition reconnect_attempt_delay (draw attempt : Z) (p : ReconnectPolicy) : Z :=
  if attempt =? 1 then 0
  else if attempt =? 2 then random_duration_between draw (ms 150) (ms 300)
  else
    let capped := Z.min (base_delay p * Z.shiftl 1 (Z.min (saturating_sub attempt 3) 12)) (max_delay p) in
    visible_delay p (saturating_sub attempt 2) (random_duration_between draw 0 capped).

(** ** The flight recorder *)

Definition ATTACH_FLIGHT_RECORDER_CAPACITY : nat := 12.

Record AttachPathSnapshot := { path_label : string; path_rtt : option Z }.

(** The messages before they are formatted; [None] is the attempt on the old connection. *)
Inductive FlightMessage :=
  | InitialAttachOpened
  | StreamDisconnected
  | SameConnectionPreflight
  | ReconnectExpired (elapsed : Z)
  | BudgetExpired (attempts : Z)
  | AttemptScheduled (attempt delay : Z) (visible : bool)
  | ConnectFailedAt (attempt : Z)
  | PreflightFailed (attempt : option Z)
  | SessionGone (attempt : option Z) (session : string)
  | AttachFailedAt (attempt : option Z)
  | ReattachedAt (attempt : option Z)
  | ExchangeExceededBudget.

Record AttachFlightEvent := { fe_elapsed : Z; fe_message : FlightMessage; fe_path : option AttachPathSnapshot }.
Record AttachFlightRecorder := { fr_started : Z; fr_events : list AttachFlightEvent }.

Definition new_recorder (now : Z) : AttachFlightRecorder := {| fr_started := now; fr_events := [] |}.

Definition record_at (elapsed : Z) (message : FlightMessage) (path : option AttachPathSnapshot) (r : AttachFlightRecorder) : AttachFlightRecorder :=
  let events := if (length (fr_events r) =? ATTACH_FLIGHT_RECORDER_CAPACITY)%nat then List.tl (fr_events r) else fr_events r in
  {| fr_started := fr_started r; fr_events := events ++ [{| fe_elapsed := elapsed; fe_message := message; fe_path := path |}] |}.

Definition rtt_if_sampled (rtt : Z) : option Z := if rtt =? 0 then None else Some rtt.

(** ** Attempts *)

Record ReconnectAttemptState := { started : Z; attempt : Z; last_rtt : option Z }.

Definition new_attempts (now : Z) : ReconnectAttemptState := {| started := now; attempt := 0; last_rtt := None |}.

Definition next_attempt (s : ReconnectAttemptState) : ReconnectAttemptState :=
  {| started := started s; attempt := saturating_add U32_MAX (attempt s) 1; last_rtt := last_rtt s |}.

Definition observe_path (path : option AttachPathSnapshot) (s : ReconnectAttemptState) : ReconnectAttemptState :=
  match path with
  | Some p => match path_rtt p with
              | Some r => if r =? 0 then s else {| started := started s; attempt := attempt s; last_rtt := Some r |}
              | None => s
              end
  | None => s
  end.

Definition session_exists_for_reconnect (groups : list SessionProviderSessions) (provider session_name : string) : bool :=
  let lookup := if bool_decide (provider = "tmux")
                then match cut 58 session_name with Some (name, _) => name | None => session_name end
                else session_name in
  existsb (λ g, g_available g && bool_decide (g_provider g = provider) && existsb (λ s, bool_decide (si_name s = lookup)) (g_sessions g)) groups.

(** ** Surroundings *)

(** A request without forwards *)
Record RemoteSessionAttachRequest := {
  rq_target : string; rq_provider : option string; rq_session_name : string; rq_user : option string; rq_cwd : option string;
  rq_argv : list string; rq_requested_term : option string; rq_term : option string; rq_cols : Z; rq_rows : Z;
}.

(** [remote_attach_pty]: the size is the one the command started with. *)
Definition remote_attach_pty (r : RemoteSessionAttachRequest) : option (string * Z * Z) :=
  match rq_term r with Some term => Some (term, rq_cols r, rq_rows r) | None => None end.

(** A signal comes before the answer of an exchange that [select!]s on one. *)
Inductive ConnectAnswer := ConnectedAs (c : nat) | ConnectFailed (e : ErrorInfo) | ConnectSignal (v : RawMode.RawModeExitVariant).
Inductive OpenAnswer (A : Type) := Opened (a : A) | OpenRejected | OpenTransport | OpenSignal (v : RawMode.RawModeExitVariant).
Arguments Opened {A} a.
Arguments OpenRejected {A}.
Arguments OpenTransport {A}.
Arguments OpenSignal {A} v.

(** How an attach ended *)
Inductive SessionEnd := EndExited (code : Z) | EndDetached | EndQuit | EndDisconnected (err : ErrorInfo) | EndSignal (v : RawMode.RawModeExitVariant).

Inductive WaitEvent := WaitInput (e : option AttachInputEvent) | WaitSignal (v : RawMode.RawModeExitVariant).

Record Env := {
  takes : nat → Z;
  draws : nat → Z;
  connects : nat → ConnectAnswer;
  lists : nat → OpenAnswer (list SessionProviderSessions);
  attaches : nat → OpenAnswer nat;
  paths : nat → option AttachPathSnapshot;
  bars : nat → bool;
  visibles : nat → result unit bool;
  waits : nat → list WaitEvent;
  ends : nat → SessionEnd;
}.

(** [RawModeExitVariant] *)
Inductive RawEnd := RawNormal | RawSignal (v : RawMode.RawModeExitVariant) | RawExhausted.

Inductive ReconnectBar := BarRetryIn (attempt delay : Z) | BarBufferFull | BarReconnectingNow | BarReattached.

(** What was done: connections opened and closed, sessions listed and attached to on a connection,
    the dialogue switched on or off. *)
Inductive Act :=
  | ActOpened (c : nat) | ActClosed (c : nat)
  | ActListed (c : nat) (groups : list SessionProviderSessions)
  | ActAttach (c : nat) (pty : string * Z * Z)
  | ActVisible (visible : bool)
  | ActBar (b : ReconnectBar)
  | ActClearBar | ActStopInput | ActRawFinish (v : RawMode.RawModeExitVariant).

Record Recon := {
  now : Z;
  deadline : Z;
  attempts : ReconnectAttemptState;
  recorder : AttachFlightRecorder;
  acts : list Act;
  rios : nat;
}.

Definition set_now v s := {| now := v; deadline := deadline s; attempts := attempts s; recorder := recorder s; acts := acts s; rios := rios s |}.
Definition set_attempts v s := {| now := now s; deadline := deadline s; attempts := v; recorder := recorder s; acts := acts s; rios := rios s |}.
Definition set_recorder v s := {| now := now s; deadline := deadline s; attempts := attempts s; recorder := v; acts := acts s; rios := rios s |}.
Definition acted a s := {| now := now s; deadline := deadline s; attempts := attempts s; recorder := recorder s; acts := acts s ++ [a]; rios := rios s |}.
Definition exchanged_for d s := {| now := now s + Z.max 0 d; deadline := deadline s; attempts := attempts s; recorder := recorder s; acts := acts s;
  rios := S (rios s) |}.

Inductive ReconnectOutcome := Reattached (c session : nat) | ReconDetached | ReconQuit | Expired | ReconSignal (v : RawMode.RawModeExitVariant).

Inductive ReconnectError := ConnectRefused (e : ErrorInfo) | AttachRejected | SessionDisappeared | PtyUnresolved | BarFailed | VisibleFailed.

(** [None] is a model that ran out of fuel, which [reconnect_ends] excludes. *)
Abbreviation Attempts := (Step Recon (option (result ReconnectError ReconnectOutcome))).

Definition return_ {A} (o : ReconnectOutcome) : Attempts A := break (Some (Ok o)).
Definition fail {A} (e : ReconnectError) : Attempts A := break (Some (Err e)).

Section reconnect.
Variable e : Env.
Variable request : RemoteSessionAttachRequest.
Variable provider : string.

Definition elapsed (s : Recon) : Z := Z.max 0 (now s - started (attempts s)).

Definition record_with_path (message : FlightMessage) (path : option AttachPathSnapshot) : Attempts unit :=
  assign (λ s, set_recorder (record_at (Z.max 0 (now s - fr_started (recorder s))) message path (recorder s)) s).
Definition record (message : FlightMessage) : Attempts unit := record_with_path message None.

(** [tokio::time::timeout]: what is not done by the deadline is dropped. *)
Definition expire_if_late : Attempts unit :=
  s ← get id;
  if deadline s <? now s
  then assign (set_now (deadline s));; record ExchangeExceededBudget;; return_ Expired
  else skip.

Definition exchange_raw {E A} (f : Env → nat → A) : Step Recon E A := λ s, (exchanged_for (takes e (rios s)) s, Ok (f e (rios s))).

Definition exchange_of {A} (f : Env → nat → A) : Attempts A := a ← exchange_raw f; expire_if_late;; mret a.

Definition act (a : Act) : Attempts unit := assign (acted a).

(** [attach_path_snapshot], which is no exchange, and what is kept of it *)
Definition observe_and_record (message : FlightMessage) : Attempts unit :=
  s ← get id;
  let path := paths e (rios s) in
  assign (set_attempts (observe_path path (attempts s)));;
  record_with_path message path.

Definition set_bar (b : ReconnectBar) : Attempts unit :=
  ok ← exchange_of bars; act (ActBar b);; if (ok : bool) then skip else fail BarFailed.

Definition set_reconnect_visible (visible : bool) : Attempts bool :=
  r ← exchange_of visibles;
  act (ActVisible visible);;
  match r with Ok b => mret b | Err _ => fail VisibleFailed end.

Inductive ReconnectDelayOutcome := DelayRetry | DelayDetached | DelayQuit | DelaySignal (v : RawMode.RawModeExitVariant).

(** The events that come before the sleep is over *)
Fixpoint wait_events (until : Z) (evs : list WaitEvent) : Attempts ReconnectDelayOutcome :=
  match evs with
  | [] => assign (λ s, set_now (Z.max (now s) until) s);; expire_if_late;; mret DelayRetry
  | WaitInput (Some EvRetryNow) :: _ => mret DelayRetry
  | WaitInput (Some EvDetached) :: _ => mret DelayDetached
  | WaitInput (Some (EvQuitReconnect | EvClosed)) :: _ | WaitInput None :: _ => mret DelayQuit
  | WaitInput (Some EvBufferFull) :: evs =>
      ok ← set_reconnect_visible true;
      if (ok : bool) then set_bar BarBufferFull;; wait_events until evs else mret DelayQuit
  | WaitInput (Some EvSinkFailed) :: evs => wait_events until evs
  | WaitSignal v :: _ => mret (DelaySignal v)
  end.

Definition wait_reconnect_delay (delay : Z) (visible : bool) : Attempts ReconnectDelayOutcome :=
  if delay =? 0 then mret DelayRetry
  else
    ok ← set_reconnect_visible visible;
    if negb ok then mret DelayQuit
    else
      s ← get id;
      (if visible then set_bar (BarRetryIn (attempt (attempts s)) delay) else skip);;
      s ← get id;
      evs ← exchange_of waits;
      wait_events (now s + delay) evs.

(** [close_connected_connection], which waits for the connection to be closed *)
Definition close (c : nat) : Attempts unit := act (ActClosed c);; exchange_of (λ _ _, tt).

(** The session is listed and attached to on a connection.  [None]: the connection failed and is closed.
    A signal during the attempt on the old connection drops it unclosed. *)
Definition reattach_on (n : option Z) (c : nat) : Attempts (option ReconnectOutcome) :=
  let interrupted v := (match n with Some _ => close c | None => skip end);; return_ (ReconSignal v) in
  answer ← exchange_of lists;
  match answer with
  | OpenRejected => close c;; fail AttachRejected
  | OpenSignal v => interrupted v
  | OpenTransport => observe_and_record (PreflightFailed n);; close c;; mret None
  | Opened groups =>
      act (ActListed c groups);;
      if session_exists_for_reconnect groups provider (rq_session_name request) then
        match remote_attach_pty request with
        | None => fail PtyUnresolved
        | Some pty =>
            act (ActAttach c pty);;
            answer ← exchange_of attaches;
            match answer with
            | Opened session => observe_and_record (ReattachedAt n);; mret (Some (Reattached c session))
            | OpenRejected => close c;; fail AttachRejected
            | OpenSignal v => interrupted v
            | OpenTransport => observe_and_record (AttachFailedAt n);; close c;; mret None
            end
        end
      else observe_and_record (SessionGone n (rq_session_name request));; close c;; fail SessionDisappeared
  end.

Definition try_same_connection_reattach (c : nat) : Attempts (option ReconnectOutcome) :=
  observe_and_record SameConnectionPreflight;; reattach_on None c.

Definition connect_attempt (n : Z) : Attempts (option ReconnectOutcome) :=
  answer ← exchange_of connects;
  match answer with
  | ConnectSignal v => return_ (ReconSignal v)
  | ConnectFailed err => if retryable err then record (ConnectFailedAt n);; mret None else fail (ConnectRefused err)
  | ConnectedAs c => act (ActOpened c);; reattach_on (Some n) c
  end.

Definition policy (s : Recon) : ReconnectPolicy := with_observed_rtt (last_rtt (attempts s)) default_interactive.

Definition one_attempt : Attempts unit :=
  assign (λ s, set_attempts (next_attempt (attempts s)) s);;
  s ← get id;
  let n := attempt (attempts s) in
  if negb (retry_budget_remaining (policy s) (elapsed s)) then record (BudgetExpired (saturating_sub n 1));; return_ Expired
  else
    let visible := transparent_grace (policy s) <=? elapsed s in
    let delay := reconnect_attempt_delay (draws e (rios s)) n (policy s) in
    record (AttemptScheduled n delay visible);;
    d ← wait_reconnect_delay delay visible;
    match d with
    | DelayDetached => return_ ReconDetached
    | DelayQuit => return_ ReconQuit
    | DelaySignal v => return_ (ReconSignal v)
    | DelayRetry =>
        (if visible then ok ← set_reconnect_visible true; if (ok : bool) then set_bar BarReconnectingNow else return_ ReconQuit else skip);;
        r ← connect_attempt n;
        match r with
        | Some o => (if visible then set_bar BarReattached else skip);; return_ o
        | None => skip
        end
    end.

Fixpoint attempt_loop (fuel : nat) : Attempts unit :=
  match fuel with O => break None | S fuel => one_attempt;; attempt_loop fuel end.

Definition reconnect_remote_session_inner (fuel : nat) (current : nat) : Attempts unit :=
  s ← get id;
  if negb (retry_budget_remaining (policy s) (elapsed s)) then record (ReconnectExpired (elapsed s));; return_ Expired
  else
    r ← try_same_connection_reattach current;
    match r with
    | Some o => return_ o
    | None => attempt_loop fuel
    end.

End reconnect.

(** The whole exchange has to end within the budget of the policy. *)
Definition reconnect_remote_session (e : Env) (request : RemoteSessionAttachRequest) (provider : string) (fuel current : nat) (s : Recon) :
    Recon * result (option (result ReconnectError ReconnectOutcome)) unit :=
  let remaining := saturating_sub (max_elapsed default_interactive) (elapsed s) in
  reconnect_remote_session_inner e request provider fuel current
    {| now := now s; deadline := now s + remaining; attempts := attempts s; recorder := recorder s; acts := acts s; rios := rios s |}.

(** ** The attached session *)

(** [ExitCode::from(u8::try_from(code).unwrap_or(1))] *)
Definition exit_code_from_i32 (code : Z) : Z := if (0 <=? code) && (code <=? 255) then code else 1.

(** The exit code or the error of the command; [None] as above *)
Abbreviation Attach := (Step Recon (option (result ReconnectError Z))).

Section attach.
Variable e : Env.
Variable request : RemoteSessionAttachRequest.
Variable provider : string.

Definition did (a : Act) : Attach unit := assign (acted a).

Definition finish_attach (v : RawMode.RawModeExitVariant) : Attach unit :=
  ok ← exchange_raw e bars;
  did ActClearBar;;
  (if (ok : bool) then skip else break (Some (Err BarFailed)));;
  did ActStopInput;;
  did (ActRawFinish v).

Definition exit {A} (code : Z) : Attach A := break (Some (Ok code)).

(** [reconnect_remote_session(..).await?] *)
Definition reconnected (fuel c : nat) : Attach ReconnectOutcome := λ s,
  match reconnect_remote_session e request provider fuel c s with
  | (s', Err (Some (Ok o))) => (s', Ok o)
  | (s', Err (Some (Err err))) => (s', Err (Some (Err err)))
  | (s', Err None) | (s', Ok _) => (s', Err None)
  end.

(** A session that lasted half a minute starts a new count of attempts. *)
Definition note_disconnect (attach_started : Z) : Attach unit :=
  s ← get id;
  let path := paths e (rios s) in
  (if secs 30 <=? now s - attach_started then assign (set_attempts (new_attempts (now s))) else skip);;
  assign (λ s, set_attempts (observe_path path (attempts s)) s);;
  assign (λ s, set_recorder (record_at (Z.max 0 (now s - fr_started (recorder s))) StreamDisconnected path (recorder s)) s).

Fixpoint remote_session_attach_with_reconnect (turns fuel : nat) (attach_started : Z) (c : nat) : Attach unit :=
  match turns with
  | O => break None
  | S turns =>
      attach_end ← exchange_raw e ends;
      match attach_end with
      | EndExited code => finish_attach RawMode.Normal;; did (ActClosed c);; exit (exit_code_from_i32 code)
      | EndDetached | EndQuit => finish_attach RawMode.Normal;; did (ActClosed c);; exit 0
      | EndSignal v => finish_attach v;; did (ActClosed c);; exit 1
      | EndDisconnected err =>
          if negb (retryable err) then finish_attach RawMode.Normal;; break (Some (Err (ConnectRefused err)))
          else
            note_disconnect attach_started;;
            reattached ← reconnected fuel c;
            match reattached with
            | Reattached c' _ => s ← get id; remote_session_attach_with_reconnect turns fuel (now s) c'
            | ReconDetached | ReconQuit => finish_attach RawMode.Normal;; exit 0
            | Expired => finish_attach RawMode.ReconnectExhausted;; exit 1
            | ReconSignal v => finish_attach v;; exit 1
            end
      end
  end.

(** The state when the first attach has been opened *)
Definition attach_begin (t : Z) (path : option AttachPathSnapshot) : Recon := {|
  now := t; deadline := t; attempts := new_attempts t; recorder := record_at 0 InitialAttachOpened path (new_recorder t); acts := []; rios := 0 |}.

End attach.

(** ** Delays *)

(** The policies that occur: the one of the command, with the round trip observed *)
Definition policy_for (rtt : option Z) : ReconnectPolicy := with_observed_rtt rtt default_interactive.

Lemma policy_shape rtt : let p := policy_for rtt in
  base_delay p = ms 500 ∧ max_delay p = secs 10 ∧ max_elapsed p = secs 120 ∧ ms 100 ≤ delay_floor p ≤ secs 1 ∧
  ms 1500 ≤ transparent_grace p ≤ secs 4.
Proof.
  unfold policy_for, with_observed_rtt, default_interactive, ms, secs.
  destruct rtt as [r|]; [case_match |]; cbn [base_delay max_delay max_elapsed delay_floor transparent_grace]; lia.
Qed.

Lemma random_between draw lo hi : lo `mod` 1000000 = 0 → lo ≤ random_duration_between draw lo hi ≤ Z.max lo hi.
Proof.
  intros Hlo. unfold random_duration_between. destruct (Z.leb_spec hi lo); [lia |]. cbv zeta. unfold ms.
  pose proof (Z.div_le_mono lo hi 1000000 ltac:(lia) ltac:(lia)).
  pose proof (Z.mod_pos_bound draw (hi / 1000000 - lo / 1000000 + 1) ltac:(lia)) as Hd.
  pose proof (Z.div_mod lo 1000000 ltac:(lia)) as Hl. rewrite Hlo in Hl. pose proof (Z.mul_div_le hi 1000000 ltac:(lia)).
  set (d := draw `mod` _) in *. clearbody d. set (a := lo / 1000000) in *. set (b := hi / 1000000) in *. clearbody a b. lia.
Qed.

Lemma shift_pow n : 0 ≤ n → Z.shiftl 1 n = 2 ^ n.
Proof. intros Hn. rewrite Z.shiftl_mul_pow2 by done. lia. Qed.

Lemma caps_agree p n : 0 ≤ base_delay p → 3 ≤ n →
  Z.min (base_delay p * Z.shiftl 1 (Z.min (saturating_sub n 3) 12)) (max_delay p)
  ≤ Z.min (base_delay p * Z.shiftl 1 (Z.min (saturating_sub (saturating_sub n 2) 1) 16)) (max_delay p).
Proof.
  intros Hb Hn. apply Z.min_le_compat_r, Z.mul_le_mono_nonneg_l; [done |]. unfold saturating_sub.
  rewrite !shift_pow by lia. apply Z.pow_le_mono_r; lia.
Qed.

(** The first attempt is made at once, the second after 150 to 300 ms, and the later ones after at least the
    floor, which is 100 ms or the round trip but at most a second, and at most ten seconds. *)
Theorem delay_bounds draw n rtt : 1 ≤ n →
  let d := reconnect_attempt_delay draw n (policy_for rtt) in
  (n = 1 → d = 0) ∧ (n = 2 → ms 150 ≤ d ≤ ms 300) ∧ (3 ≤ n → delay_floor (policy_for rtt) ≤ d ≤ secs 10 ∧ ms 100 ≤ d).
Proof.
  intros Hn. destruct (policy_shape rtt) as (Hb & Hm & _ & Hf & _). cbv zeta. unfold reconnect_attempt_delay.
  split_and!; [by intros -> | |].
  - intros ->. cbn [Z.eqb Pos.eqb]. pose proof (random_between draw (ms 150) (ms 300) eq_refl). unfold ms in *. lia.
  - intros H3. rewrite (proj2 (Z.eqb_neq n 1)), (proj2 (Z.eqb_neq n 2)) by lia. unfold visible_delay. cbv zeta. rewrite Hm.
    unfold secs, ms in *. lia.
Qed.

(** The second cap of a delay changes nothing: a delay is its jitter, or the floor when that is larger. *)
Theorem delay_is_jitter draw n p : 0 ≤ base_delay p → delay_floor p ≤ max_delay p → 0 ≤ max_delay p → 3 ≤ n →
  let capped := Z.min (base_delay p * Z.shiftl 1 (Z.min (saturating_sub n 3) 12)) (max_delay p) in
  reconnect_attempt_delay draw n p = Z.max (random_duration_between draw 0 capped) (delay_floor p).
Proof.
  intros Hb Hf Hm Hn. cbv zeta. unfold reconnect_attempt_delay. rewrite (proj2 (Z.eqb_neq n 1)), (proj2 (Z.eqb_neq n 2)) by lia.
  cbv zeta. unfold visible_delay. cbv zeta. pose proof (caps_agree p n Hb Hn) as Hc. set (capped := Z.min _ _) in *.
  assert (0 ≤ capped). { unfold capped. apply Z.min_glb; [| done]. apply Z.mul_nonneg_nonneg; [done |]. apply Z.shiftl_nonneg. lia. }
  pose proof (random_between draw 0 capped eq_refl) as Hj. rewrite (Z.min_l (random_duration_between _ _ _)) by lia.
  apply Z.min_l. unfold capped in *. lia.
Qed.

(** ** The recorder *)

Definition record_all (evs : list (Z * FlightMessage * option AttachPathSnapshot)) (r : AttachFlightRecorder) : AttachFlightRecorder :=
  foldl (λ r '(t, m, p), record_at t m p r) r evs.

Definition event_of (x : Z * FlightMessage * option AttachPathSnapshot) : AttachFlightEvent :=
  {| fe_elapsed := x.1.1; fe_message := x.1.2; fe_path := x.2 |}.

Lemma record_all_app r evs ev : record_all (evs ++ [ev]) r = record_at ev.1.1 ev.1.2 ev.2 (record_all evs r).
Proof. unfold record_all. rewrite foldl_app. by destruct ev as [[t m] q]. Qed.

(** The recorder has the last twelve events, in order. *)
Theorem recorder_keeps_last t evs :
  fr_events (record_all evs (new_recorder t)) = drop (length evs - ATTACH_FLIGHT_RECORDER_CAPACITY) (event_of <$> evs).
Proof.
  induction evs as [|ev evs IH] using rev_ind; [done |]. rewrite record_all_app. unfold record_at. cbv zeta. cbn [fr_events].
  rewrite IH, length_app, fmap_app, length_drop, length_fmap. cbn [fmap list_fmap length]. unfold ATTACH_FLIGHT_RECORDER_CAPACITY.
  change {| fe_elapsed := ev.1.1; fe_message := ev.1.2; fe_path := ev.2 |} with (event_of ev).
  destruct (Nat.eqb_spec (length evs - (length evs - 12)) 12) as [He|He].
  - replace (length evs + 1 - 12)%nat with (S (length evs - 12)) by lia. rewrite drop_app_le by (rewrite length_fmap; lia). f_equal.
    replace (S (length evs - 12)) with (length evs - 12 + 1)%nat by lia. rewrite <- drop_drop. by destruct (drop (length evs - 12) _).
  - replace (length evs + 1 - 12)%nat with 0%nat by lia. by replace (length evs - 12)%nat with 0%nat by lia.
Qed.

(** ** Connections and sessions *)

(** The connections that are open *)
Definition open_of (l : list Act) : gset nat :=
  foldl (λ o a, match a with ActOpened c => o ∪ {[c]} | ActClosed c => o ∖ {[c]} | _ => o end) ∅ l.

(** An attach is asked for right after the sessions of the connection were listed and had the session. *)
Definition attaches_listed (provider name : string) (l : list Act) : Prop :=
  ∀ pre c pty post, l = pre ++ ActAttach c pty :: post →
  ∃ pre' groups, pre = pre' ++ [ActListed c groups] ∧ session_exists_for_reconnect groups provider name = true.

Definition is_attach (a : Act) : bool := match a with ActAttach _ _ => true | _ => false end.

Lemma open_snoc l a : open_of (l ++ [a]) = match a with ActOpened c => open_of l ∪ {[c]} | ActClosed c => open_of l ∖ {[c]} | _ => open_of l end.
Proof. unfold open_of. by rewrite foldl_app. Qed.

Lemma listed_snoc p n l a : attaches_listed p n l → is_attach a = false → attaches_listed p n (l ++ [a]).
Proof.
  intros Hl Ha pre c pty post Heq. destruct post as [|b post _] using rev_ind.
  - apply app_inj_tail in Heq as [_ ->]. done.
  - change (ActAttach c pty :: post ++ [b]) with ((ActAttach c pty :: post) ++ [b]) in Heq. rewrite app_assoc in Heq.
    apply app_inj_tail in Heq as [-> _]. by eapply Hl.
Qed.

Lemma listed_attach p n l c groups pty : attaches_listed p n l → session_exists_for_reconnect groups p n = true →
  attaches_listed p n ((l ++ [ActListed c groups]) ++ [ActAttach c pty]).
Proof.
  intros Hl Hs pre c' pty' post Heq. destruct post as [|b post _] using rev_ind.
  - apply app_inj_tail in Heq as [<- [= <- <-]]. by exists l, groups.
  - change (ActAttach c' pty' :: post ++ [b]) with ((ActAttach c' pty' :: post) ++ [b]) in Heq. rewrite app_assoc in Heq.
    apply app_inj_tail in Heq as [Heq _]. by eapply (listed_snoc p n l (ActListed c groups)).
Qed.

Record calm (s s' : Recon) : Prop := {
  calm_acts : acts s' = acts s;
  calm_started : started (attempts s') = started (attempts s);
  calm_attempt : attempt (attempts s') = attempt (attempts s);
  calm_deadline : deadline s' = deadline s;
  calm_now : now s ≤ now s';
}.

Section steps.
Variable e : Env.
Variable X : option (result ReconnectError ReconnectOutcome) → Recon → Prop.

Lemma wpx_record m p (Q : unit → Recon → Prop) s : (∀ s', calm s s' → now s' = now s → Q tt s') → wpx X (record_with_path m p) Q s.
Proof. intros HQ. apply wpx_assign, HQ; [by split | done]. Qed.

Lemma wpx_late (Q : unit → Recon → Prop) s : (∀ s', acts s' = acts s → X (Some (Ok Expired)) s') →
  (now s ≤ deadline s → Q tt s) → wpx X expire_if_late Q s.
Proof.
  intros HX HQ. apply wpx_bind, wpx_get. unfold id. destruct (Z.ltb_spec (deadline s) (now s)); [| by apply wpx_ret, HQ].
  apply wpx_bind, wpx_assign, wpx_bind, wpx_record. intros s' [Ha _ _ _ _] _. by apply wpx_break, HX.
Qed.

Lemma wpx_exchange {A} (f : Env → nat → A) (Q : A → Recon → Prop) s : (∀ s', acts s' = acts s → X (Some (Ok Expired)) s') →
  (∀ s', calm s s' → now s' ≤ deadline s' → Q (f e (rios s)) s') → wpx X (exchange_of e f) Q s.
Proof.
  intros HX HQ. apply wpx_bind. unfold exchange_raw, wpx at 1. apply wpx_bind, wpx_late; [done |]. intros Hn. apply wpx_ret, HQ; [| done].
  split; cbn; try done. lia.
Qed.

Lemma observe_calm p s : started (observe_path p s) = started s ∧ attempt (observe_path p s) = attempt s.
Proof. unfold observe_path. by repeat case_match. Qed.

Lemma wpx_observe m (Q : unit → Recon → Prop) s : (∀ s', calm s s' → now s' = now s → Q tt s') → wpx X (observe_and_record e m) Q s.
Proof.
  intros HQ. apply wpx_bind, wpx_get, wpx_bind, wpx_assign, wpx_record. unfold id. intros s' [Ha Hs Hn Hd Ht] Ht'.
  destruct (observe_calm (paths e (rios s)) (attempts s)). cbn in *. apply HQ; [split; congruence || lia | done].
Qed.

End steps.

(** *** What is left open *)

Section tidy.
Variable e : Env.
Variable request : RemoteSessionAttachRequest.
Variable provider : string.

Record tidy (o : gset nat) (s : Recon) : Prop := {
  tidy_open : open_of (acts s) = o;
  tidy_listed : attaches_listed provider (rq_session_name request) (acts s);
}.

Definition left_tidy (r : option (result ReconnectError ReconnectOutcome)) (s : Recon) : Prop :=
  attaches_listed provider (rq_session_name request) (acts s) ∧ (∃ c, open_of (acts s) ⊆ {[c]}) ∧
  match r with
  | Some (Ok (Reattached c _)) => open_of (acts s) = {[c]}
  | Some (Ok (ReconDetached | ReconQuit)) | Some (Err (AttachRejected | SessionDisappeared | ConnectRefused _)) => open_of (acts s) = ∅
  | _ => True
  end.

Lemma tidy_left o s r : tidy o s → (∃ c, o ⊆ {[c]}) →
  match r with
  | Some (Ok (Reattached c _)) => o = {[c]}
  | Some (Ok (ReconDetached | ReconQuit)) | Some (Err (AttachRejected | SessionDisappeared | ConnectRefused _)) => o = ∅
  | _ => True
  end → left_tidy r s.
Proof. intros [<- Hl] Hc Hr. by split. Qed.

Lemma tidy_calm o s s' : tidy o s → acts s' = acts s → tidy o s'.
Proof. intros [Ho Hl] Ha. split; by rewrite Ha. Qed.

Lemma tidy_acted o a s : tidy o s → is_attach a = false →
  tidy match a with ActOpened c => o ∪ {[c]} | ActClosed c => o ∖ {[c]} | _ => o end (acted a s).
Proof.
  intros [Ho Hl] Ha. split; cbn [acts acted]; [| by apply listed_snoc]. rewrite open_snoc. destruct a; congruence.
Qed.

Lemma wpx_exchange_tidy {A} o (f : Env → nat → A) (Q : A → Recon → Prop) s : tidy o s → (∃ c, o ⊆ {[c]}) →
  (∀ a s', tidy o s' → Q a s') → wpx left_tidy (exchange_of e f) Q s.
Proof.
  intros Ht Hc HQ. apply wpx_exchange.
  - intros s' Ha. apply (tidy_left o); [by eapply tidy_calm | done | done].
  - intros s' [Ha _ _ _ _] _. apply HQ. by eapply tidy_calm.
Qed.

Lemma small_one (c : nat) : ∃ c', ({[c]} : gset nat) ⊆ {[c']}.
Proof. by exists c. Qed.
Lemma small_none : ∃ c : nat, (∅ : gset nat) ⊆ {[c]}.
Proof. exists 0%nat. set_solver. Qed.
#[local] Hint Resolve small_one small_none : core.

Lemma wpx_close c (Q : unit → Recon → Prop) s : tidy {[c]} s → (∀ s', tidy ∅ s' → Q tt s') → wpx left_tidy (close e c) Q s.
Proof.
  intros Ht HQ. apply wpx_bind, wpx_assign. apply (wpx_exchange_tidy ∅); [| done | by intros [] s' ?; apply HQ].
  pose proof (tidy_acted _ (ActClosed c) _ Ht eq_refl) as H. cbn in H. by rewrite difference_diag_L in H.
Qed.

Lemma wpx_set_bar o b (Q : unit → Recon → Prop) s : tidy o s → (∃ c, o ⊆ {[c]}) → (∀ s', tidy o s' → Q tt s') → wpx left_tidy (set_bar e b) Q s.
Proof.
  intros Ht Hc HQ. apply wpx_bind. eapply wpx_exchange_tidy; [done | done |]. intros ok s1 Ht1. apply wpx_bind, wpx_assign.
  pose proof (tidy_acted _ (ActBar b) _ Ht1 eq_refl). destruct ok; [by apply wpx_ret, HQ |]. by apply wpx_break, (tidy_left o).
Qed.

Lemma wpx_visible o v (Q : bool → Recon → Prop) s : tidy o s → (∃ c, o ⊆ {[c]}) → (∀ b s', tidy o s' → Q b s') →
  wpx left_tidy (set_reconnect_visible e v) Q s.
Proof.
  intros Ht Hc HQ. apply wpx_bind. eapply wpx_exchange_tidy; [done | done |]. intros r s1 Ht1. apply wpx_bind, wpx_assign.
  pose proof (tidy_acted _ (ActVisible v) _ Ht1 eq_refl). destruct r as [b|[]]; [by apply wpx_ret, HQ |]. by apply wpx_break, (tidy_left o).
Qed.

Definition ended_on (c : nat) (r : option ReconnectOutcome) (s : Recon) : Prop :=
  match r with None => tidy ∅ s | Some (Reattached c' _) => c' = c ∧ tidy {[c]} s | Some _ => False end.

Lemma wpx_reattach n c s : tidy {[c]} s → wpx left_tidy (reattach_on e request provider n c) (ended_on c) s.
Proof.
  intros Ht.
  assert (Hrejected : ∀ err s1, match err with AttachRejected | SessionDisappeared => true | _ => false end = true → tidy {[c]} s1 →
    wpx left_tidy (close e c;; fail err) (ended_on c) s1).
  { intros err s1 He Ht1. apply wpx_bind, wpx_close; [done |]. intros s2 Ht2. apply wpx_break, (tidy_left ∅); [done | done | by destruct err]. }
  assert (Hsignal : ∀ v s1, tidy {[c]} s1 → wpx left_tidy
    ((match n with Some _ => close e c | None => skip end);; return_ (ReconSignal v)) (ended_on c) s1).
  { intros v s1 Ht1. apply wpx_bind. destruct n.
    - apply wpx_close; [done |]. intros s2 Ht2. by apply wpx_break, (tidy_left ∅).
    - apply wpx_ret. by apply wpx_break, (tidy_left {[c]}). }
  assert (Hfailed : ∀ m s1, tidy {[c]} s1 → wpx left_tidy (observe_and_record e m;; close e c;; mret None) (ended_on c) s1).
  { intros m s1 Ht1. apply wpx_bind, wpx_observe. intros s2 [Ha _ _ _ _] _. apply wpx_bind, wpx_close; [by eapply tidy_calm |].
    intros s3 Ht3. by apply wpx_ret. }
  apply wpx_bind. eapply wpx_exchange_tidy; [done | done |]. intros answer s1 Ht1.
  destruct answer as [groups| | |v]; [| by apply Hrejected | by apply Hfailed | by apply Hsignal].
  apply wpx_bind, wpx_assign. pose proof (tidy_acted _ (ActListed c groups) _ Ht1 eq_refl) as Ht2.
  destruct (session_exists_for_reconnect _ _ _) eqn:Hs.
  - destruct (remote_attach_pty request) as [pty|]; [| by apply wpx_break, (tidy_left {[c]})].
    apply wpx_bind, wpx_assign. assert (Ht3 : tidy {[c]} (acted (ActAttach c pty) (acted (ActListed c groups) s1))).
    { destruct Ht1 as [Ho Hl]. split; cbn [acts acted]; [by rewrite !open_snoc | by apply listed_attach]. }
    apply wpx_bind. eapply wpx_exchange_tidy; [done | done |]. intros answer s2 Ht4.
    destruct answer as [session| | |v]; [| by apply Hrejected | by apply Hfailed | by apply Hsignal].
    apply wpx_bind, wpx_observe. intros s3 [Ha _ _ _ _] _. apply wpx_ret. split; [done | by eapply tidy_calm].
  - apply wpx_bind, wpx_observe. intros s2 [Ha _ _ _ _] _. apply Hrejected; [done | by eapply tidy_calm].
Qed.

Lemma wpx_wait_events until evs s : tidy ∅ s → wpx left_tidy (wait_events e until evs) (λ _, tidy ∅) s.
Proof.
  revert s. induction evs as [|ev evs IH]; intros s Ht; cbn [wait_events].
  - apply wpx_bind, wpx_assign, wpx_bind, wpx_late; [| intros _; apply wpx_ret; by eapply tidy_calm].
    intros s' Ha. apply (tidy_left ∅); [by eapply tidy_calm | done | done].
  - destruct ev as [[[]|]|v]; try (by apply wpx_ret); [| by apply IH].
    apply wpx_bind, (wpx_visible ∅); [done | done |]. intros [] s1 Ht1; [| by apply wpx_ret].
    apply wpx_bind, (wpx_set_bar ∅); [done | done |]. intros s2 Ht2. by apply IH.
Qed.

Lemma wpx_wait delay v s : tidy ∅ s → wpx left_tidy (wait_reconnect_delay e delay v) (λ _, tidy ∅) s.
Proof.
  intros Ht. unfold wait_reconnect_delay. destruct (delay =? 0); [by apply wpx_ret |].
  apply wpx_bind, (wpx_visible ∅); [done | done |]. intros [] s1 Ht1; cbn [negb]; [| by apply wpx_ret].
  apply wpx_bind, wpx_get, wpx_bind. unfold id.
  assert (Hw : ∀ s2, tidy ∅ s2 → wpx left_tidy (s ← get id; evs ← exchange_of e waits; wait_events e (now s + delay) evs) (λ _, tidy ∅) s2).
  { intros s2 Ht2. apply wpx_bind, wpx_get, wpx_bind. eapply wpx_exchange_tidy; [done | done |]. intros evs s3 Ht3. by apply wpx_wait_events. }
  destruct v; [eapply wpx_set_bar; done | by apply wpx_ret, Hw].
Qed.

Lemma wpx_attempt s : tidy ∅ s → wpx left_tidy (one_attempt e request provider) (λ _, tidy ∅) s.
Proof.
  intros Ht. assert (Hend : ∀ A o s1, match o with ReconDetached | ReconQuit | Expired | ReconSignal _ => true | _ => false end = true →
    tidy ∅ s1 → wpx (A := A) left_tidy (return_ o) (λ _, tidy ∅) s1).
  { intros A o s1 Ho Ht1. apply wpx_break, (tidy_left ∅); [done | done | by destruct o]. }
  apply wpx_bind, wpx_assign, wpx_bind, wpx_get. unfold id. cbv zeta. set (s1 := set_attempts _ s).
  assert (Ht1 : tidy ∅ s1) by by eapply tidy_calm. clearbody s1. destruct (negb _).
  { apply wpx_bind, wpx_record. intros s2 [Ha _ _ _ _] _. apply Hend; [done | by eapply tidy_calm]. }
  apply wpx_bind, wpx_record. intros s2 [Ha _ _ _ _] _. apply wpx_bind. eapply wpx_mono; [apply wpx_wait; by eapply tidy_calm |].
  intros d s3 Ht3. destruct d; [| by apply Hend ..]. set (visible := _ <=? _). clearbody visible. apply wpx_bind.
  assert (Hconnect : ∀ s4, tidy ∅ s4 → wpx left_tidy (r ← connect_attempt e request provider (attempt (attempts s1));
    match r with Some o => (if visible then set_bar e BarReattached else skip);; return_ o | None => skip end) (λ _, tidy ∅) s4).
  { intros s4 Ht4. apply wpx_bind, wpx_bind. eapply wpx_exchange_tidy; [done | done |]. intros answer s5 Ht5. destruct answer as [c|err|v].
    - apply wpx_bind, wpx_assign. pose proof (tidy_acted _ (ActOpened c) _ Ht5 eq_refl) as Ht6. cbn in Ht6. rewrite union_empty_l_L in Ht6.
      eapply wpx_mono; [by apply wpx_reattach |]. intros r s7 Hr. destruct r as [[c' session| | | |]|]; try done.
      destruct Hr as [-> Ht7]. apply wpx_bind. destruct visible.
      + eapply wpx_set_bar; [done | done |]. intros s8 Ht8. by apply wpx_break, (tidy_left {[c]}).
      + apply wpx_ret. by apply wpx_break, (tidy_left {[c]}).
    - destruct (retryable err); [| by apply wpx_break, (tidy_left ∅)].
      apply wpx_bind, wpx_record. intros s6 [Ha' _ _ _ _] _. apply wpx_ret, wpx_ret. by eapply tidy_calm.
    - by apply wpx_break, (tidy_left ∅). }
  destruct visible; [| by apply wpx_ret, Hconnect]. apply wpx_bind, (wpx_visible ∅); [done | done |].
  intros [] s4 Ht4; [| by apply wpx_break, (tidy_left ∅)]. by eapply wpx_set_bar.
Qed.

Lemma wpx_attempts fuel s : tidy ∅ s → wpx left_tidy (attempt_loop e request provider fuel) (λ _ _, False) s.
Proof.
  revert s. induction fuel as [|fuel IH]; intros s Ht; cbn [attempt_loop]; [by apply wpx_break, (tidy_left ∅) |].
  apply wpx_bind. eapply wpx_mono; [by apply wpx_attempt |]. intros [] s' Ht'. by apply IH.
Qed.

Lemma wpx_reconnect fuel current s : tidy {[current]} s →
  wpx left_tidy (reconnect_remote_session_inner e request provider fuel current) (λ _ _, False) s.
Proof.
  intros Ht. apply wpx_bind, wpx_get. unfold id. destruct (negb _).
  { apply wpx_bind, wpx_record. intros s2 [Ha _ _ _ _] _. apply wpx_break, (tidy_left {[current]}); [by eapply tidy_calm | done | done]. }
  apply wpx_bind, wpx_bind, wpx_observe. intros s1 [Ha _ _ _ _] _. eapply wpx_mono; [apply wpx_reattach; by eapply tidy_calm |].
  intros r s2 Hr. destruct r as [[c' session| | | |]|]; try done; [| by apply wpx_attempts].
  destruct Hr as [-> Ht2]. by apply wpx_break, (tidy_left {[current]}).
Qed.

End tidy.

(** *** Facts that no exchange and no act changes *)

Definition of_attempt (a : Act) : bool := match a with ActClearBar | ActStopInput | ActRawFinish _ => false | _ => true end.

Section keeps.
Variable e : Env.
Variable request : RemoteSessionAttachRequest.
Variable provider : string.
Variable X : option (result ReconnectError ReconnectOutcome) → Recon → Prop.
Variable J : Recon → Prop.
Hypothesis keep_calm : ∀ s s', J s → calm s s' → now s' = now s ∨ now s' ≤ deadline s' → J s'.
Hypothesis keep_acted : ∀ a s, of_attempt a = true → J s → J (acted a s).
Hypothesis keep_left : ∀ r s s', J s → acts s' = acts s → r ≠ None → X r s'.

Lemma keep_exchange {A} (f : Env → nat → A) (Q : A → Recon → Prop) s : J s → (∀ s', J s' → Q (f e (rios s)) s') → wpx X (exchange_of e f) Q s.
Proof. intros HJ HQ. apply wpx_exchange; [by intros; eapply keep_left |]. intros s' Hc Hn. apply HQ. eapply keep_calm; [done | done | by right]. Qed.

Lemma keep_break {A} r (Q : A → Recon → Prop) s : J s → r ≠ None → wpx X (break r) Q s.
Proof. intros HJ Hr. apply wpx_break. by eapply keep_left. Qed.

Lemma keep_observe {A} m (k : Attempts A) Q s : J s → (∀ s', J s' → wpx X k Q s') → wpx X (observe_and_record e m;; k) Q s.
Proof. intros HJ Hk. apply wpx_bind, wpx_observe. intros s' Hc Hn. apply Hk. eapply keep_calm; [done | done | by left]. Qed.

Lemma keep_record {A} m p (k : Attempts A) Q s : J s → (∀ s', J s' → wpx X k Q s') → wpx X (record_with_path m p;; k) Q s.
Proof. intros HJ Hk. apply wpx_bind, wpx_record. intros s' Hc Hn. apply Hk. eapply keep_calm; [done | done | by left]. Qed.

Lemma keep_close {A} c (k : Attempts A) Q s : J s → (∀ s', J s' → wpx X k Q s') → wpx X (close e c;; k) Q s.
Proof. intros HJ Hk. apply wpx_bind, wpx_bind, wpx_assign. apply keep_exchange; [by apply keep_acted | by intros s' ?; apply Hk]. Qed.

Lemma keep_bar b s : J s → wpx X (set_bar e b) (λ _, J) s.
Proof.
  intros HJ. apply wpx_bind, keep_exchange; [done |]. intros s' HJ'. apply wpx_bind, wpx_assign.
  apply (keep_acted (ActBar b) _ eq_refl) in HJ'. destruct (bars e _); [by apply wpx_ret | by apply keep_break].
Qed.

Lemma keep_visible v s : J s → wpx X (set_reconnect_visible e v) (λ _, J) s.
Proof.
  intros HJ. apply wpx_bind, keep_exchange; [done |]. intros s' HJ'. apply wpx_bind, wpx_assign.
  apply (keep_acted (ActVisible v) _ eq_refl) in HJ'. destruct (visibles e _); [by apply wpx_ret | by apply keep_break].
Qed.

Lemma keep_reattach n c s : J s → wpx X (reattach_on e request provider n c) (λ _, J) s.
Proof.
  intros HJ. assert (Hsignal : ∀ v s1, J s1 → wpx X
    ((match n with Some _ => close e c | None => skip end);; return_ (ReconSignal v)) (λ _ : option ReconnectOutcome, J) s1).
  { intros v s1 HJ1. destruct n; [apply keep_close; [done |]; intros; by apply keep_break |].
    apply wpx_bind, wpx_ret. by apply keep_break. }
  assert (Hreject : ∀ err s1, J s1 → wpx X (close e c;; fail err) (λ _ : option ReconnectOutcome, J) s1).
  { intros err s1 HJ1. apply keep_close; [done |]. intros. by apply keep_break. }
  assert (Hfail : ∀ m s1, J s1 → wpx X (observe_and_record e m;; close e c;; mret None) (λ _ : option ReconnectOutcome, J) s1).
  { intros m s1 HJ1. apply keep_observe; [done |]. intros s2 HJ2. apply keep_close; [done |]. intros s3 HJ3. by apply wpx_ret. }
  apply wpx_bind, keep_exchange; [done |]. intros s1 HJ1.
  destruct (lists e _) as [groups| | |v]; [| by apply Hreject | by apply Hfail | by apply Hsignal].
  apply wpx_bind, wpx_assign. apply (keep_acted (ActListed c groups) _ eq_refl) in HJ1. destruct (session_exists_for_reconnect _ _ _).
  2: { apply keep_observe; [done |]. intros s2 HJ2. by apply Hreject. }
  destruct (remote_attach_pty request) as [pty|]; [| by apply keep_break]. apply wpx_bind, wpx_assign.
  apply (keep_acted (ActAttach c pty) _ eq_refl) in HJ1. apply wpx_bind, keep_exchange; [done |]. intros s2 HJ2.
  destruct (attaches e _) as [session| | |v]; [| by apply Hreject | by apply Hfail | by apply Hsignal].
  apply keep_observe; [done |]. intros s3 HJ3. by apply wpx_ret.
Qed.

Lemma keep_connect n s : J s → wpx X (connect_attempt e request provider n) (λ _, J) s.
Proof.
  intros HJ. apply wpx_bind, keep_exchange; [done |]. intros s1 HJ1. destruct (connects e _) as [c|err|v]; [| | by apply keep_break].
  - apply wpx_bind, wpx_assign. by apply keep_reattach, keep_acted.
  - destruct (retryable err); [| by apply keep_break]. apply keep_record; [done |]. intros s2 HJ2. by apply wpx_ret.
Qed.

Lemma keep_wait_events until evs s : J s → wpx X (wait_events e until evs) (λ _, J) s.
Proof.
  revert s. induction evs as [|ev evs IH]; intros s HJ; cbn [wait_events].
  - apply wpx_bind, wpx_assign, wpx_bind, wpx_late; [by intros; eapply keep_left |]. intros Hn. apply wpx_ret.
    eapply keep_calm; [exact HJ | | by right]. split; cbn; try done. lia.
  - destruct ev as [[[]|]|v]; try (by apply wpx_ret); [| by apply IH].
    apply wpx_bind. eapply wpx_mono; [by apply keep_visible |]. intros [] s1 HJ1; [| by apply wpx_ret].
    apply wpx_bind. eapply wpx_mono; [by apply keep_bar |]. intros ? s2 HJ2. by apply IH.
Qed.

Lemma keep_wait delay v s : J s → wpx X (wait_reconnect_delay e delay v) (λ _, J) s.
Proof.
  intros HJ. unfold wait_reconnect_delay. destruct (delay =? 0); [by apply wpx_ret |].
  apply wpx_bind. eapply wpx_mono; [by apply keep_visible |]. intros [] s1 HJ1; cbn [negb]; [| by apply wpx_ret].
  apply wpx_bind, wpx_get, wpx_bind. unfold id.
  assert (Hw : ∀ s2, J s2 → wpx X (s ← get id; evs ← exchange_of e waits; wait_events e (now s + delay) evs) (λ _, J) s2).
  { intros s2 HJ2. apply wpx_bind, wpx_get, wpx_bind, keep_exchange; [done |]. intros s3 HJ3. by apply keep_wait_events. }
  destruct v; [eapply wpx_mono; [by apply keep_bar |]; intros ? s2 HJ2; by apply Hw | by apply wpx_ret, Hw].
Qed.

Hypothesis keep_next : ∀ s, J s → J (set_attempts (next_attempt (attempts s)) s).

Lemma keep_attempt s : J s → wpx X (one_attempt e request provider) (λ _, J) s.
Proof.
  intros HJ. apply wpx_bind, wpx_assign, wpx_bind, wpx_get. unfold id. cbv zeta. set (s1 := set_attempts _ s).
  assert (HJ1 : J s1) by by apply keep_next. clearbody s1. destruct (negb _).
  { apply keep_record; [done |]. intros. by apply keep_break. }
  apply keep_record; [done |]. intros s2 HJ2. apply wpx_bind. eapply wpx_mono; [by apply keep_wait |].
  intros d s3 HJ3. destruct d; [| by apply keep_break ..]. set (visible := _ <=? _). clearbody visible. apply wpx_bind.
  assert (Hconnect : ∀ s4, J s4 → wpx X (r ← connect_attempt e request provider (attempt (attempts s1));
    match r with Some o => (if visible then set_bar e BarReattached else skip);; return_ o | None => skip end) (λ _, J) s4).
  { intros s4 HJ4. apply wpx_bind. eapply wpx_mono; [by apply keep_connect |]. intros [o|] s5 HJ5; [| by apply wpx_ret].
    apply wpx_bind. destruct visible; [| apply wpx_ret; by apply keep_break].
    eapply wpx_mono; [by apply keep_bar |]. intros ? s6 HJ6. by apply keep_break. }
  destruct visible; [| by apply wpx_ret, Hconnect]. apply wpx_bind. eapply wpx_mono; [by apply keep_visible |].
  intros [] s4 HJ4; [| by apply keep_break]. eapply wpx_mono; [by apply keep_bar |]. intros ? s5 HJ5. by apply Hconnect.
Qed.

Hypothesis keep_none : ∀ s, J s → X None s.

Lemma keep_reconnect fuel current s : J s → wpx X (reconnect_remote_session_inner e request provider fuel current) (λ _ _, False) s.
Proof.
  intros HJ. assert (Hloop : ∀ s1, J s1 → wpx X (attempt_loop e request provider fuel) (λ _ _, False) s1).
  { induction fuel as [|fuel IH]; intros s1 HJ1; cbn [attempt_loop]; [by apply wpx_break, keep_none |].
    apply wpx_bind. eapply wpx_mono; [by apply keep_attempt |]. intros ? s2 HJ2. by apply IH. }
  apply wpx_bind, wpx_get. unfold id. destruct (negb _); [apply keep_record; [done |]; intros; by apply keep_break |].
  apply wpx_bind, keep_observe; [done |]. intros s1 HJ1. eapply wpx_mono; [by apply keep_reattach |].
  intros [o|] s2 HJ2; [by apply keep_break | by apply Hloop].
Qed.

End keeps.

(** *** The attempts end *)

Section timing.
Variable e : Env.
Variable request : RemoteSessionAttachRequest.
Variable provider : string.
(** The user does not ask for attempts before their time. *)
Hypothesis patient : ∀ n, Forall (λ ev, ev ≠ WaitInput (Some EvRetryNow)) (waits e n).

Definition ends_well (r : option (result ReconnectError ReconnectOutcome)) (s : Recon) : Prop := r ≠ None.

Record later (s s' : Recon) : Prop := {
  later_attempt : attempt (attempts s') = attempt (attempts s);
  later_deadline : deadline s' = deadline s;
  later_now : now s ≤ now s';
  later_within : now s' ≤ deadline s';
}.

Lemma later_refl s : now s ≤ deadline s → later s s.
Proof. by split. Qed.
Lemma later_trans s s' s'' : later s s' → later s' s'' → later s s''.
Proof. intros [] []. split; congruence || lia. Qed.
Lemma later_calm s s' s'' : later s s' → calm s' s'' → now s'' = now s' ∨ now s'' ≤ deadline s'' → later s s''.
Proof. intros [] [] ?. split; congruence || lia. Qed.
Lemma later_acted s a s' : of_attempt a = true → later s s' → later s (acted a s').
Proof. intros _ []. by split. Qed.
Lemma later_left s r s' s'' : later s s' → acts s'' = acts s' → r ≠ None → ends_well r s''.
Proof. done. Qed.

Lemma wpx_bar_later b s : now s ≤ deadline s → wpx ends_well (set_bar e b) (λ _, later s) s.
Proof. intros Hn. apply keep_bar; eauto using later_calm, later_acted, later_left, later_refl. Qed.
Lemma wpx_visible_later v s : now s ≤ deadline s → wpx ends_well (set_reconnect_visible e v) (λ _, later s) s.
Proof. intros Hn. apply keep_visible; eauto using later_calm, later_acted, later_left, later_refl. Qed.
Lemma wpx_reattach_later n c s : now s ≤ deadline s → wpx ends_well (reattach_on e request provider n c) (λ _, later s) s.
Proof. intros Hn. apply keep_reattach; eauto using later_calm, later_acted, later_left, later_refl. Qed.
Lemma wpx_connect_later n s : now s ≤ deadline s → wpx ends_well (connect_attempt e request provider n) (λ _, later s) s.
Proof. intros Hn. apply keep_connect; eauto using later_calm, later_acted, later_left, later_refl. Qed.

(** A wait that is not cut short takes its delay. *)
Definition waited (until : Z) (s : Recon) (d : ReconnectDelayOutcome) (s' : Recon) : Prop :=
  later s s' ∧ (d = DelayRetry → until ≤ now s').

Lemma wpx_wait_events_later until evs s : now s ≤ deadline s → Forall (λ ev, ev ≠ WaitInput (Some EvRetryNow)) evs →
  wpx ends_well (wait_events e until evs) (waited until s) s.
Proof.
  revert s. induction evs as [|ev evs IH]; intros s Hn Hp; cbn [wait_events].
  - apply wpx_bind, wpx_assign, wpx_bind, wpx_late; [done |]. intros Hd. cbn in Hd. apply wpx_ret. split; [split; cbn; lia || done |]. cbn. lia.
  - apply Forall_cons in Hp as [Hev Hp]. pose proof (later_refl s Hn) as Hl.
    destruct ev as [[[]|]|v]; try done; [| by apply IH].
    apply wpx_bind. eapply wpx_mono; [by apply wpx_visible_later |]. intros [] s1 Hl1; [| by apply wpx_ret].
    apply wpx_bind. eapply wpx_mono; [apply wpx_bar_later, Hl1 |]. intros [] s2 Hl2. eapply wpx_mono; [apply IH; [apply Hl2 | done] |].
    intros d s3 [Hl3 Hd]. split; [| done]. eapply later_trans; [done |]. by eapply later_trans.
Qed.

Lemma wpx_wait_later delay v s : now s ≤ deadline s → 0 ≤ delay → wpx ends_well (wait_reconnect_delay e delay v) (waited (now s + delay) s) s.
Proof.
  intros Hn Hd. unfold wait_reconnect_delay. destruct (Z.eqb_spec delay 0) as [->|_]; [apply wpx_ret; split; [by apply later_refl | lia] |].
  apply wpx_bind. eapply wpx_mono; [by apply wpx_visible_later |]. intros [] s1 Hl1; cbn [negb]; [| by apply wpx_ret].
  apply wpx_bind, wpx_get, wpx_bind. unfold id.
  assert (Hw : ∀ s2, later s s2 → wpx ends_well (s ← get id; evs ← exchange_of e waits; wait_events e (now s + delay) evs) (waited (now s + delay) s) s2).
  { intros s2 Hl2. apply wpx_bind, wpx_get, wpx_bind. unfold id.
    apply (keep_exchange e ends_well (later s2)); eauto using later_calm, later_left, later_refl, later_within. intros s3 Hl3.
    eapply wpx_mono; [apply wpx_wait_events_later; [apply Hl3 | apply patient] |]. intros d s4 [Hl4 Hr].
    split; [do 2 (eapply later_trans; [done |]); done |]. intros Hd'. specialize (Hr Hd'). destruct Hl2. lia. }
  destruct v; [| by apply wpx_ret, Hw]. eapply wpx_mono; [apply wpx_bar_later, Hl1 |]. intros [] s2 Hl2. apply Hw. by eapply later_trans.
Qed.

Lemma delay_of_attempt s1 a : 0 ≤ a → attempt (attempts s1) = saturating_add U32_MAX a 1 →
  let delay := reconnect_attempt_delay (draws e (rios s1)) (attempt (attempts s1)) (policy s1) in
  0 ≤ delay ∧ (2 ≤ a → ms 100 ≤ delay).
Proof.
  intros Ha Ha1. cbv zeta. destruct (delay_bounds (draws e (rios s1)) (attempt (attempts s1)) (last_rtt (attempts s1))) as (H1 & H2 & H3).
  { rewrite Ha1. unfold saturating_add, U32_MAX. lia. }
  unfold policy_for in H1, H2, H3. fold (policy s1) in H1, H2, H3. set (d := reconnect_attempt_delay _ _ _) in *. clearbody d.
  rewrite Ha1 in H1, H2, H3. unfold saturating_add, U32_MAX, ms, secs in *. lia.
Qed.

(** After an attempt that failed *)
Record failed_attempt (s s' : Recon) : Prop := {
  fa_attempt : attempt (attempts s') = saturating_add U32_MAX (attempt (attempts s)) 1;
  fa_deadline : deadline s' = deadline s;
  fa_within : now s' ≤ deadline s';
  fa_later : 2 ≤ attempt (attempts s) → now s + ms 100 ≤ now s';
  fa_now : now s ≤ now s';
}.

Lemma wpx_attempt_later s : now s ≤ deadline s → 0 ≤ attempt (attempts s) → wpx ends_well (one_attempt e request provider) (λ _, failed_attempt s) s.
Proof.
  intros Hn Ha0. apply wpx_bind, wpx_assign, wpx_bind, wpx_get. unfold id. cbv zeta. set (s1 := set_attempts _ s).
  assert (Hs1 : attempt (attempts s1) = saturating_add U32_MAX (attempt (attempts s)) 1 ∧ deadline s1 = deadline s ∧ now s1 = now s) by done.
  clearbody s1. destruct Hs1 as (Ha1 & Hd1 & Hn1). destruct (delay_of_attempt s1 _ Ha0 Ha1) as [Hdelay Hlong].
  destruct (negb _); [apply wpx_bind, wpx_record; intros; by apply wpx_break |].
  set (delay := reconnect_attempt_delay _ _ _) in *. clearbody delay. apply wpx_bind, wpx_record. intros s2 Hc2 Hn2.
  assert (Hl2 : later s1 s2) by (apply (later_calm s1 s1); [apply later_refl; lia | done | by left]). apply wpx_bind.
  eapply wpx_mono; [apply wpx_wait_later; [apply Hl2 | done] |]. intros d s3 [Hl3 Hw]. destruct d; [| by apply wpx_break ..].
  specialize (Hw eq_refl). pose proof (later_trans _ _ _ Hl2 Hl3) as Hl.
  set (visible := _ <=? _). clearbody visible. apply wpx_bind.
  assert (Hconnect : ∀ s4, later s3 s4 → wpx ends_well (r ← connect_attempt e request provider (attempt (attempts s1));
    match r with Some o => (if visible then set_bar e BarReattached else skip);; return_ o | None => skip end) (λ _, failed_attempt s) s4).
  { intros s4 Hl4. apply wpx_bind. eapply wpx_mono; [apply wpx_connect_later, Hl4 |]. intros [o|] s5 Hl5.
    - apply wpx_bind. destruct visible; [| by apply wpx_ret, wpx_break].
      eapply wpx_mono; [apply wpx_bar_later, Hl5 |]. intros ? s6 Hl6. by apply wpx_break.
    - apply wpx_ret. pose proof (later_trans _ _ _ Hl4 Hl5) as [_ _ Hn5 _].
      destruct (later_trans _ _ _ Hl (later_trans _ _ _ Hl4 Hl5)) as [? ? ? ?].
      split; [congruence | congruence | done | intros H2; specialize (Hlong H2); lia | lia]. }
  destruct visible; [| apply wpx_ret, Hconnect, later_refl, Hl3]. apply wpx_bind. eapply wpx_mono; [apply wpx_visible_later, Hl3 |].
  intros [] s4 Hl4; [| by apply wpx_break]. eapply wpx_mono; [apply wpx_bar_later, Hl4 |]. intros ? s5 Hl5. apply Hconnect. by eapply later_trans.
Qed.

(** How many attempts are still without a delay *)
Definition quick (s : Recon) : Z := Z.max 0 (2 - attempt (attempts s)).

Lemma wpx_attempts_end fuel s : now s ≤ deadline s → 0 ≤ attempt (attempts s) → deadline s - now s < ms 100 * (Z.of_nat fuel - quick s) →
  wpx ends_well (attempt_loop e request provider fuel) (λ _ _, False) s.
Proof.
  revert s. induction fuel as [|fuel IH]; intros s Hn Ha Hf; cbn [attempt_loop]; [unfold quick, ms in *; lia |].
  apply wpx_bind. eapply wpx_mono; [by apply wpx_attempt_later |]. intros [] s' [Ha' Hd Hw Hlong Hn'].
  unfold quick, saturating_add, U32_MAX, ms in *. apply IH; lia.
Qed.

Definition RECONNECT_ROUNDS : nat := 1203.

Lemma wpx_reconnect_ends current s : now s ≤ deadline s → 0 ≤ attempt (attempts s) → deadline s - now s ≤ secs 120 →
  wpx ends_well (reconnect_remote_session_inner e request provider RECONNECT_ROUNDS current) (λ _ _, False) s.
Proof.
  intros Hn Ha Hd. apply wpx_bind, wpx_get. unfold id. destruct (negb _); [apply wpx_bind, wpx_record; intros; by apply wpx_break |].
  apply wpx_bind, wpx_bind, wpx_observe. intros s1 Hc1 Hn1.
  assert (Hl1 : later s s1) by (apply (later_calm s s); [by apply later_refl | done | by left]).
  eapply wpx_mono; [apply wpx_reattach_later, Hl1 |]. intros [o|] s2 Hl2; [by apply wpx_break |].
  destruct (later_trans _ _ _ Hl1 Hl2) as [Ha2 Hd2 Hn2 Hw2]. apply wpx_attempts_end; [done | lia |].
  unfold quick, ms, secs, RECONNECT_ROUNDS in *. rewrite Ha2. lia.
Qed.

End timing.

(** ** Theorems *)

Definition at_deadline (s : Recon) : Recon := {| now := now s; deadline := now s + saturating_sub (max_elapsed default_interactive) (elapsed s);
  attempts := attempts s; recorder := recorder s; acts := acts s; rios := rios s |}.

(** C26: the attempts leave at most one connection open, the one that is returned when the session was reattached, and
    none when the user gave up or the peer refused; and no attach is asked for on a connection whose list of sessions,
    read just before, does not have the session. *)
Theorem reconnect_tidy e request provider fuel current s : open_of (acts s) = {[current]} →
  attaches_listed provider (rq_session_name request) (acts s) →
  let '(s', r) := reconnect_remote_session e request provider fuel current s in
  ∃ x, r = Err x ∧ left_tidy request provider x s'.
Proof.
  intros Ho Hl. pose proof (wpx_reconnect e request provider fuel current (at_deadline s)) as H. unfold wpx in H.
  unfold reconnect_remote_session. cbv zeta. fold (at_deadline s).
  destruct (reconnect_remote_session_inner _ _ _ _ _ _) as [s' [[]|x]]; [by destruct (H ltac:(by split)) |]. exists x. split; [done | by apply H].
Qed.

(** C27: the attempts come to an end: with a user who does not press the key for the next one, 1203 are more than the
    budget of two minutes has room for, however fast they fail. *)
Theorem reconnect_ends e request provider current s : (∀ n, Forall (λ ev, ev ≠ WaitInput (Some EvRetryNow)) (waits e n)) →
  0 ≤ attempt (attempts s) → ∃ x, (reconnect_remote_session e request provider RECONNECT_ROUNDS current s).2 = Err (Some x).
Proof.
  intros Hp Ha. pose proof (wpx_reconnect_ends e request provider Hp current (at_deadline s)) as H. unfold wpx in H.
  unfold reconnect_remote_session. cbv zeta. fold (at_deadline s).
  destruct (reconnect_remote_session_inner _ _ _ _ _ _) as [s' [[]|[x|]]]; [| by exists x |];
    destruct H; try done; unfold at_deadline, elapsed, saturating_sub, default_interactive, secs; cbn; lia.
Qed.

Lemma wpx_state {S E A} (J : S → Prop) (m : Step S E A) s : wpx (λ _, J) m (λ _, J) s → J (m s).1.
Proof. unfold wpx. by destruct (m s) as [s' [a|e]]. Qed.

Lemma note_disconnect_early e t0 s : attempts s = new_attempts t0 → now s - t0 < secs 30 →
  let s1 := (note_disconnect e t0 s).1 in started (attempts s1) = t0 ∧ attempt (attempts s1) = 0 ∧ now s1 = now s.
Proof.
  intros Ha Hn. unfold note_disconnect, get, assign, mbind, step_bind, id. cbv zeta beta.
  destruct (Z.leb_spec (secs 30) (now s - t0)) as [?|_]; [lia |]. cbn. rewrite Ha.
  by destruct (observe_calm (paths e (rios s)) (new_attempts t0)) as [-> ->].
Qed.

Lemma wpx_exchange_in_time {A} X e (f : Env → nat → A) (Q : A → Recon → Prop) s : now s + Z.max 0 (takes e (rios s)) ≤ deadline s →
  Q (f e (rios s)) (exchanged_for (takes e (rios s)) s) → wpx X (exchange_of e f) Q s.
Proof.
  intros Hd HQ. apply wpx_bind. unfold exchange_raw, wpx at 1. apply wpx_bind, wpx_bind, wpx_get. unfold id.
  rewrite (proj2 (Z.ltb_ge _ _)) by done. by apply wpx_ret, wpx_ret.
Qed.

Lemma first_attempt_visible e request provider s : attempt (attempts s) = 0 → secs 4 ≤ now s - started (attempts s) < secs 120 →
  now s + Z.max 0 (takes e (rios s)) ≤ deadline s →
  acts s ++ [ActVisible true] `prefix_of` acts (one_attempt e request provider s).1.
Proof.
  intros Ha Hel Hd. set (J := λ s', acts s ++ [ActVisible true] `prefix_of` acts s').
  assert (Hcalm : ∀ s1 s2, J s1 → calm s1 s2 → now s2 = now s1 ∨ now s2 ≤ deadline s2 → J s2).
  { intros s1 s2 H1 [Ha' _ _ _ _] _. unfold J in *. by rewrite Ha'. }
  assert (Hacted : ∀ a s1, of_attempt a = true → J s1 → J (acted a s1)) by (intros a s1 _ H1; unfold J in *; cbn; by apply prefix_app_r).
  assert (Hleft : ∀ (r : option (result ReconnectError ReconnectOutcome)) s1 s2, J s1 → acts s2 = acts s1 → r ≠ None → J s2).
  { intros r s1 s2 H1 Ha' _. unfold J in *. by rewrite Ha'. }
  apply (wpx_state J). apply wpx_bind, wpx_assign, wpx_bind, wpx_get. unfold id. cbv zeta. cbn [attempts set_attempts attempt next_attempt rios].
  rewrite Ha. change (saturating_add U32_MAX 0 1) with 1. set (s1 := set_attempts _ s).
  destruct (policy_shape (last_rtt (attempts s1))) as (_ & _ & Hmax & _ & Hgrace). unfold policy_for in Hmax, Hgrace. fold (policy s1) in Hmax, Hgrace.
  assert (He : elapsed s1 = now s - started (attempts s)). { unfold elapsed, s1. cbn. unfold secs in *. lia. }
  unfold retry_budget_remaining. rewrite Hmax, He. rewrite (proj2 (Z.ltb_lt _ _)) by lia. cbn [negb]. rewrite (proj2 (Z.leb_le _ _)) by lia.
  apply wpx_bind, wpx_assign, wpx_bind, wpx_ret, wpx_bind, wpx_bind, wpx_bind, wpx_exchange_in_time; [done |].
  apply wpx_bind, wpx_assign.
  match goal with |- wpx _ _ _ ?t => assert (HJ : J t) by (unfold J; reflexivity) end.
  destruct (visibles e _) as [[]|[]]; [| by apply wpx_ret, wpx_break | by apply wpx_break].
  apply wpx_ret. eapply wpx_mono; [by apply (keep_bar e _ J) |]. intros ? s2 HJ2.
  apply wpx_bind. eapply wpx_mono; [by apply (keep_connect e request provider _ J) |]. intros [o|] s3 HJ3; [| by apply wpx_ret].
  apply wpx_bind. eapply wpx_mono; [by apply (keep_bar e _ J) |]. intros ? s4 HJ4. by apply wpx_break.
Qed.

(** The grace in which a lost connection is replaced without disturbing the user counts from the start of the attach
    and not from the disconnection: of a session that lasted between four and thirty seconds the first attempt already
    opens the dialogue, in which typed keys are commands and not input. *)
Theorem early_disconnect_is_visible e request provider t0 s : attempts s = new_attempts t0 → secs 4 ≤ now s - t0 < secs 30 →
  let s1 := (note_disconnect e t0 s).1 in
  ∀ s2, started (attempts s2) = started (attempts s1) → attempt (attempts s2) = attempt (attempts s1) → now s1 ≤ now s2 →
  now s2 - t0 < secs 120 → now s2 + Z.max 0 (takes e (rios s2)) ≤ deadline s2 →
  acts s2 ++ [ActVisible true] `prefix_of` acts (one_attempt e request provider s2).1.
Proof.
  intros Ha Ht s1 s2 Hs2 Ha2 Hn2 Hl2 Hd2. destruct (note_disconnect_early e t0 s Ha ltac:(lia)) as (H1 & H2 & H3).
  fold s1 in H1, H2, H3. clearbody s1. apply first_attempt_visible; [congruence | | done]. lia.
Qed.

(** *** The end of the command *)

Section cleanup.
Variable e : Env.
Variable request : RemoteSessionAttachRequest.
Variable provider : string.
Variable l0 : list Act.

Definition before_end (s : Recon) : Prop := ∃ pre, acts s = l0 ++ pre ∧ Forall (λ a, of_attempt a = true) pre.

(** The bar is cleared, the keyboard task stopped and raw mode left, once and in this order, before the connection is closed. *)
Definition cleaned_up (s : Recon) : Prop := ∃ pre v post, acts s = l0 ++ pre ++ [ActClearBar; ActStopInput; ActRawFinish v] ++ post ∧
  Forall (λ a, of_attempt a = true) pre ∧ (post = [] ∨ ∃ c, post = [ActClosed c]).

Definition left_clean (r : option (result ReconnectError Z)) (s : Recon) : Prop := match r with Some (Ok _) => cleaned_up s | _ => True end.

Lemma before_acted a s : of_attempt a = true → before_end s → before_end (acted a s).
Proof.
  intros Ha (pre & Hp & Hf). exists (pre ++ [a]). cbn [acts acted]. rewrite Hp, app_assoc. split; [done |].
  apply Forall_app_2; [done | by constructor].
Qed.

Lemma before_same s s' : before_end s → acts s' = acts s → before_end s'.
Proof. intros (pre & Hp & Hf) Ha. exists pre. by rewrite Ha. Qed.

Lemma wpx_finish {A} v (k : Attach A) Q s : before_end s →
  (∀ s' pre, acts s' = l0 ++ pre ++ [ActClearBar; ActStopInput; ActRawFinish v] → Forall (λ a, of_attempt a = true) pre → wpx left_clean k Q s') →
  wpx left_clean (finish_attach e v;; k) Q s.
Proof.
  intros (pre & Hp & Hf) Hk. apply wpx_bind, wpx_bind. unfold exchange_raw, wpx at 1. apply wpx_bind, wpx_assign, wpx_bind.
  destruct (bars e _); [| by apply wpx_break]. apply wpx_ret, wpx_bind, wpx_assign, wpx_assign, (Hk _ pre); [| done].
  cbn [acts acted exchanged_for]. rewrite Hp. by rewrite <- !app_assoc.
Qed.

Lemma wpx_reconnected fuel c s : before_end s → wpx left_clean (reconnected e request provider fuel c) (λ _, before_end) s.
Proof.
  intros Hb. unfold reconnected, wpx, reconnect_remote_session. cbv zeta. fold (at_deadline s).
  pose proof (keep_reconnect e request provider (λ _, before_end) before_end) as Hk.
  specialize (Hk ltac:(intros s1 s2 H1 [H2 _ _ _ _] _; by eapply before_same) before_acted
    ltac:(intros r s1 s2 H1 H2 _; by eapply before_same) ltac:(intros s1 H1; by eapply before_same) ltac:(done) fuel c (at_deadline s)).
  unfold wpx in Hk. destruct (reconnect_remote_session_inner _ _ _ _ _ _) as [s' [[]|[[o|err]|]]]; try done. by apply Hk.
Qed.

Lemma wpx_attach_loop turns fuel t c s : before_end s →
  wpx left_clean (remote_session_attach_with_reconnect e request provider turns fuel t c) (λ _ _, False) s.
Proof.
  revert t c s. induction turns as [|turns IH]; intros t c s Hb; cbn [remote_session_attach_with_reconnect]; [done |].
  assert (Hclose : ∀ v code s1, before_end s1 → wpx left_clean (finish_attach e v;; did (ActClosed c);; exit code) (λ (_ : unit) _, False) s1).
  { intros v code s1 Hb1. apply wpx_finish; [done |]. intros s2 pre Hp Hf. apply wpx_bind, wpx_assign, wpx_break.
    exists pre, v, [ActClosed c]. cbn [acts acted]. rewrite Hp, <- !app_assoc. split_and!; [done | done | right; by exists c]. }
  assert (Hleave : ∀ v code s1, before_end s1 → wpx left_clean (finish_attach e v;; exit code) (λ (_ : unit) _, False) s1).
  { intros v code s1 Hb1. apply wpx_finish; [done |]. intros s2 pre Hp Hf. apply wpx_break. exists pre, v, []. rewrite app_nil_r. by split_and!; [| | left]. }
  apply wpx_bind. unfold exchange_raw, wpx at 1. assert (Hb1 : before_end (exchanged_for (takes e (rios s)) s)) by by eapply before_same.
  destruct (ends e _) as [code| | |err|v]; [by apply Hclose | by apply Hclose | by apply Hclose | | by apply Hclose].
  destruct (negb (retryable err)); [apply wpx_finish; [done |]; intros; by apply wpx_break |].
  apply wpx_bind, wpx_bind, wpx_get. unfold id. cbv zeta. apply wpx_bind.
  match goal with |- wpx _ (if ?b then _ else _) _ _ => destruct b end; [apply wpx_assign | apply wpx_ret];
    (apply wpx_bind, wpx_assign, wpx_assign, wpx_bind; eapply wpx_mono; [apply wpx_reconnected; by eapply before_same |];
     intros o s2 Hb2; destruct o; [apply wpx_bind, wpx_get; by apply IH | by apply Hleave ..]).
Qed.

End cleanup.

(** A command that returns an exit code has cleared the bar, stopped the task that reads the keyboard and left raw mode,
    exactly once and in this order, and after that at most closes its connection. *)
Theorem attach_cleans_up e request provider turns fuel t c s s' code :
  remote_session_attach_with_reconnect e request provider turns fuel t c s = (s', Err (Some (Ok code))) → cleaned_up (acts s) s'.
Proof.
  intros Hrun. pose proof (wpx_attach_loop e request provider (acts s) turns fuel t c s) as H. unfold wpx in H. rewrite Hrun in H.
  apply H. exists []. by rewrite app_nil_r.
Qed.

(** ** A connection that breaks *)

Module Demo.

(** The old connection is dead, the first attempt fails, and the second connection has the session. *)
Definition listing : list SessionProviderSessions :=
  [{| g_provider := "zmx"; g_available := true; g_default := true; g_sessions := [{| si_name := "dev"; si_provider := "zmx"; metadata := [] |}] |}].
Definition dropped : ErrorInfo := {| e_class := Some Transient; e_udp_rejected := false; e_ticket := None |}.
Definition e0 : Env := {| takes := λ _, ms 5; draws := λ _, 1; connects := λ n, if (n <? 4)%nat then ConnectFailed dropped else ConnectedAs 7;
  lists := λ n, if (n <? 3)%nat then OpenTransport else Opened listing; attaches := λ _, Opened 1%nat; paths := λ _, None; bars := λ _, true;
  visibles := λ _, Ok true; waits := λ _, []; ends := λ n, if (n <? 1)%nat then EndDisconnected dropped else EndExited 3 |}.
Definition rq : RemoteSessionAttachRequest := {| rq_target := "host"; rq_provider := None; rq_session_name := "dev"; rq_user := None;
  rq_cwd := None; rq_argv := []; rq_requested_term := None; rq_term := Some "xterm"; rq_cols := 80; rq_rows := 24 |}.
Definition s0 : Recon := acted (ActOpened 0) (attach_begin 0 None).

Lemma delay_bounds_witness : ms 150 ≤ reconnect_attempt_delay 7 2 (policy_for None) ≤ ms 300.
Proof. exact (proj1 (proj2 (delay_bounds 7 2 None ltac:(lia))) eq_refl). Defined.

Lemma nothing_attached l : forallb (λ a, negb (is_attach a)) l = true → attaches_listed "zmx" "dev" l.
Proof. intros Hl pre c pty post ->. rewrite forallb_app in Hl. cbn in Hl. by rewrite andb_false_r in Hl. Qed.

Definition after : Recon := Eval vm_compute in (reconnect_remote_session e0 rq "zmx" 5 0 s0).1.
Lemma reattached_run : reconnect_remote_session e0 rq "zmx" 5 0 s0 = (after, Err (Some (Ok (Reattached 7 1)))).
Proof. by vm_compute. Qed.

Lemma reconnect_tidy_witness : left_tidy rq "zmx" (Some (Ok (Reattached 7 1))) after.
Proof.
  assert (Ho : open_of (acts s0) = {[0%nat]}) by by vm_compute.
  pose proof (reconnect_tidy e0 rq "zmx" 5 0 s0 Ho (nothing_attached (acts s0) eq_refl)) as H. rewrite reattached_run in H.
  destruct H as (x & [= <-] & H). exact H.
Defined.

Lemma reconnect_ends_witness : ∃ x, (reconnect_remote_session e0 rq "zmx" RECONNECT_ROUNDS 0 s0).2 = Err (Some x).
Proof. apply reconnect_ends; [by intros n; constructor | done]. Defined.

(** The connection breaks five seconds after the attach. *)
Definition at_five : Recon := {| now := secs 5; deadline := secs 100; attempts := new_attempts 0; recorder := new_recorder 0; acts := []; rios := 0 |}.
Definition noted_five : Recon := Eval vm_compute in (note_disconnect e0 0 at_five).1.

Lemma early_disconnect_is_visible_witness : [ActVisible true] `prefix_of` acts (one_attempt e0 rq "zmx" noted_five).1.
Proof. apply (early_disconnect_is_visible e0 rq "zmx" 0 at_five); vm_compute; done || by split. Defined.

Definition finished : Recon := Eval vm_compute in (remote_session_attach_with_reconnect e0 rq "zmx" 3 5 0 0 s0).1.
Lemma finished_run : remote_session_attach_with_reconnect e0 rq "zmx" 3 5 0 0 s0 = (finished, Err (Some (Ok 3))).
Proof. by vm_compute. Qed.

Lemma attach_cleans_up_witness : cleaned_up (acts s0) finished.
Proof. exact (attach_cleans_up e0 rq "zmx" 3 5 0 0 s0 finished 3 finished_run). Defined.

(** The user's terminal is resized during a session, and the connection breaks.  The size went to the first connection
    and is not sent again, and the second attach asks for the size the command started with. *)
Definition first_sink : AttachInputSink := RemoteV2 [1] 0 0 {| resize_id := 0; rs_cols := 80; rs_rows := 24 |}.
Definition second_sink : AttachInputSink := RemoteV2 [2] 0 0 {| resize_id := 0; rs_cols := 100; rs_rows := 30 |}.
Definition resized : list Turn := [OnCommand (Some (SetSink first_sink)); OnPause (Some (100, 30)); OnCommand (Some ClearSink); OnCommand (Some (SetSink second_sink))].

Definition writes (es : list Entry) : list Write := omap (λ en, match en with Wrote _ x _ => Some x | _ => None end) es.

Theorem reattach_with_old_size : ∃ s,
  attach_input_coordinator_loop AttachInput.Demo.calm AttachInput.Demo.plain_ui resized (coordinator_start (80, 24)) = (s, Ok tt) ∧
  writes (ilog s) = [WriteV2 ResizeStream (CResize [1] 1 100 30)] ∧ sink s = Some second_sink ∧ pending_size s = None ∧
  ActAttach 7 ("xterm", 80, 24) ∈ acts after.
Proof. eexists. split; [vm_compute; reflexivity |]. split_and!; [done | done | done |]. unfold after. cbn. set_solver. Qed.

End Demo.
