(* ===== verification/GhosttyReplay.v ===== *)
(** * What a ghostty session replays

    crates/portl-agent/src/session_handler/ghostty.rs: the helper process of a session keeps the
    last 64 MiB of its output, and replays a part of them to a client that attaches or asks for a
    reload.  Escape sequences other than those that select colours are removed first
    ([sanitize_terminal_replay]), also when one is cut by the end of a chunk
    ([TerminalReplaySanitizer]).  A loop over an index is a recursion on what follows the index. *)

From S2P Require Import Prelude Bytes Terminal.

(** ** Sanitizing *)

Definition is_control_string (b : Z) : bool := (b =? 93) || (b =? 80) || (b =? 94) || (b =? 95).

(** The loop over a control string: what follows its terminator *)
Fixpoint skip_string (l : bytes) : bytes :=
  match l with
  | [] => []
  | b :: r =>
      if b =? 7 then r
      else if b =? ESC then match r with 92 :: r' => r' | _ => skip_string r end
      else skip_string r
  end.

Definition is_private (l : bytes) : bool := match l with b :: _ => (b =? 63) || (b =? 62) || (b =? 33) || (b =? 32) | [] => false end.

(** [kept] is what the sequence has up to here; the result is what is written and what follows. *)
Fixpoint csi_loop (private : bool) (kept l : bytes) : bytes * bytes :=
  match l with
  | [] => ([], [])
  | b :: r =>
      if in_range 128 159 b then csi_loop private (kept ++ [b]) r
      else if 128 <=? b then ([], l)
      else if is_csi_final b then (if (b =? 109) && negb private then kept ++ [b] else [], r)
      else csi_loop private (kept ++ [b]) r
  end.

Definition sanitize_escape_csi (l : bytes) : bytes * bytes := csi_loop (is_private l) [ESC; 91] l.

Definition is_intermediate (b : Z) : bool := in_range 32 47 b.

Fixpoint skip_intermediates (l : bytes) : bytes :=
  match l with b :: r => if is_intermediate b then skip_intermediates r else l | [] => [] end.

(** What follows an escape sequence, given what follows its first byte *)
Definition sanitize_plain_escape (l : bytes) : bytes :=
  match l with
  | [] => []
  | b :: r =>
      if is_intermediate b
      then match skip_intermediates r with c :: r' => if in_range 48 126 c then r' else c :: r' | [] => [] end
      else r
  end.

(** A turn of the loop at a byte and what follows it *)
Definition replay_turn (b : Z) (r : bytes) : bytes * bytes :=
  if b =? ESC then
    match r with
    | c :: r' =>
        if c =? 91 then sanitize_escape_csi r'
        else if is_control_string c then ([], skip_string r')
        else ([], sanitize_plain_escape r)
    | [] => ([], sanitize_plain_escape r)
    end
  else if (b <? 32) && negb ((b =? 10) || (b =? 13) || (b =? 9)) then ([], r)
  else ([b], r).

Fixpoint replay_loop (fuel : nat) (l : bytes) : bytes :=
  match fuel, l with
  | S fuel, b :: r => let '(out, rest) := replay_turn b r in out ++ replay_loop fuel rest
  | _, _ => []
  end.

Definition sanitize_terminal_replay (l : bytes) : bytes := replay_loop (length l) l.

(** ** Chunks *)

Definition is_continuation (b : Z) : bool := Z.land b 192 =? 128.

(** The last byte at or before an index that is not the continuation of a character, or the first byte *)
Fixpoint last_lead (l : bytes) (start : nat) : nat :=
  match start with
  | O => O
  | S before => if in_range 128 191 (l !!! start) then last_lead l before else start
  end.

Definition utf8_boundary_snap_len (l : bytes) : nat :=
  let len := length l in
  if (len =? 0)%nat then 0%nat
  else
    let start := last_lead l (len - 1) in
    let snap (expected : nat) := if (start + expected <=? len)%nat then len else start in
    let b := l !!! start in
    if in_range 0 127 b then snap 1%nat
    else if in_range 194 223 b then snap 2%nat
    else if in_range 224 239 b then snap 3%nat
    else if in_range 240 244 b then snap 4%nat
    else len.

Definition trailing_incomplete_utf8_start (l : bytes) : option nat :=
  let snap_len := utf8_boundary_snap_len l in if (snap_len <? length l)%nat then Some snap_len else None.

Inductive State :=
  | Ground | Escape (start : nat) | Csi (start : nat) | ControlString (start : nat) (esc : bool) | PlainEscape (start : nat).

Definition scan_byte (index : nat) (b : Z) (s : State) : State :=
  match s with
  | Ground => if b =? ESC then Escape index else Ground
  | Escape start =>
      if b =? 91 then Csi start
      else if is_control_string b then ControlString start false
      else if is_intermediate b then PlainEscape start
      else Ground
  | PlainEscape start => if is_intermediate b then PlainEscape start else Ground
  | Csi start => if b =? ESC then Escape index else if is_csi_final b then Ground else Csi start
  | ControlString start true => if b =? 92 then Ground else ControlString start false
  | ControlString start false => if b =? 7 then Ground else if b =? ESC then ControlString start true else ControlString start false
  end.

Fixpoint scan_from (index : nat) (l : bytes) (s : State) : State :=
  match l with [] => s | b :: r => scan_from (S index) r (scan_byte index b s) end.

Definition open_at (s : State) : option nat :=
  match s with
  | Ground => None
  | Escape start | Csi start | ControlString start _ | PlainEscape start => Some start
  end.

Definition trailing_incomplete_replay_escape_start (l : bytes) : option nat := open_at (scan_from 0 l Ground).

(** [TerminalReplaySanitizer] has only the bytes [pending]. *)
Record TerminalReplaySanitizer := { pending : bytes }.
Definition new_sanitizer : TerminalReplaySanitizer := {| pending := [] |}.

Definition split_of (l : bytes) : option nat :=
  match trailing_incomplete_replay_escape_start l, trailing_incomplete_utf8_start l with
  | Some a, Some b => Some (Nat.min a b)
  | Some a, None | None, Some a => Some a
  | None, None => None
  end.

Definition feed (s : TerminalReplaySanitizer) (l : bytes) (final_chunk : bool) : TerminalReplaySanitizer * bytes :=
  let combined := pending s ++ l in
  if final_chunk then ({| pending := [] |}, sanitize_terminal_replay combined)
  else match split_of combined with
       | Some n => ({| pending := drop n combined |}, sanitize_terminal_replay (take n combined))
       | None => ({| pending := [] |}, sanitize_terminal_replay combined)
       end.

(** ** The history

    A [VecDeque] is the list of its bytes; [as_slices] cuts it at some place, which is an argument. *)

Definition MAX_FRAME_BYTES : Z := 4 * 1024 * 1024.
Definition MAX_HISTORY_BYTES : Z := 64 * 1024 * 1024.
Definition MAX_ATTACH_SNAPSHOT_BYTES : Z := MAX_FRAME_BYTES `div` 2.
Definition GHOSTTY_ATTACH_V2_HISTORY_CHUNK : Z := 64 * 1024.
Definition GHOSTTY_ATTACH_V2_RELOAD_MAX_BYTES : Z := 1024 * 1024.
Definition len (l : bytes) : Z := Z.of_nat (length l).

(** The loop that drops bytes at the front, with their number *)
Fixpoint pop_excess (history : bytes) : bytes * Z :=
  match history with
  | [] => ([], 0)
  | _ :: rest => if MAX_HISTORY_BYTES <? len history then let '(h, n) := pop_excess rest in (h, n + 1) else (history, 0)
  end.

Definition append_bounded (history l : bytes) : bytes * Z := pop_excess (history ++ l).

Definition last_bytes (n : Z) (l : bytes) : bytes := drop (Z.to_nat (saturating_sub (len l) n)) l.

Definition capped_attach_snapshot (history : bytes) : bytes := last_bytes (Z.min (len history) MAX_ATTACH_SNAPSHOT_BYTES) history.

Fixpoint drop_continuations (l : bytes) : bytes :=
  match l with b :: r => if is_continuation b then drop_continuations r else l | [] => [] end.

Fixpoint after_newline (l : bytes) : bytes := match l with b :: r => if b =? 10 then r else after_newline r | [] => [] end.

Definition trim_partial_replay_prefix (l : bytes) : bytes := drop_continuations (after_newline l).

Definition capped_prelude_snapshot (history : bytes) (max_bytes : Z) : bytes :=
  let cap := Z.min max_bytes MAX_ATTACH_SNAPSHOT_BYTES in
  let n := Z.min (len history) cap in
  let raw := last_bytes n history in
  sanitize_terminal_replay (if n <? len history then trim_partial_replay_prefix raw else raw).

Definition bounded_reload_window (history_start_abs : Z) (history : bytes) : Z * Z * bool :=
  let retained_len := len history in
  let reload_len := Z.min retained_len GHOSTTY_ATTACH_V2_RELOAD_MAX_BYTES in
  let window := drop_continuations (last_bytes reload_len history) in
  let skipped_retained := saturating_sub retained_len (len window) in
  (saturating_add U64_MAX history_start_abs skipped_retained, saturating_sub retained_len skipped_retained,
   (0 <? history_start_abs) || (0 <? skipped_retained)).

(** The slice of a range in two slices *)
Definition deque_slice (cut : nat) (history : bytes) (rel_start chunk_len : Z) : bytes :=
  let front := take cut history in
  let back := drop cut history in
  let between (l : bytes) s e := take (Z.to_nat (e - s)) (drop (Z.to_nat s) l) in
  if rel_start <? len front then
    let front_end := Z.min (rel_start + chunk_len) (len front) in
    let remaining := saturating_sub chunk_len (saturating_sub front_end rel_start) in
    between front rel_start front_end ++ (if 0 <? remaining then between back 0 (Z.min remaining (len back)) else [])
  else
    let back_start := Z.min (saturating_sub rel_start (len front)) (len back) in
    between back back_start (Z.min (back_start + chunk_len) (len back)).

Definition vec_deque_chunk (cut : nat) (history : bytes) (rel_start chunk_len : Z) : bytes :=
  let out := deque_slice cut history rel_start chunk_len in
  take (utf8_boundary_snap_len out) out.

(** ** What sanitizing leaves *)

Lemma skip_string_shrinks l : (length (skip_string l) ≤ length l)%nat.
Proof.
  induction l as [|b r IH]; cbn; [done |]. repeat case_match; subst; cbn in *; lia.
Qed.

Lemma skip_intermediates_shrinks l : (length (skip_intermediates l) ≤ length l)%nat.
Proof. induction l as [|b r IH]; cbn; [done |]. case_match; cbn; lia. Qed.

Lemma csi_loop_shrinks private kept l : (length (csi_loop private kept l).2 ≤ length l)%nat.
Proof. revert kept. induction l as [|b r IH]; intros kept; cbn; [done |]. pose proof (IH (kept ++ [b])). repeat case_match; cbn; lia. Qed.

Lemma plain_escape_shrinks l : (length (sanitize_plain_escape l) ≤ length l)%nat.
Proof.
  destruct l as [|b r]; cbn; [done |]. pose proof (skip_intermediates_shrinks r). repeat case_match; cbn in *; lia.
Qed.

Lemma replay_turn_shrinks b r : (length (replay_turn b r).2 ≤ length r)%nat.
Proof.
  unfold replay_turn, sanitize_escape_csi. pose proof (plain_escape_shrinks r). destruct r as [|c r]; [by repeat case_match |].
  pose proof (skip_string_shrinks r). pose proof (csi_loop_shrinks (is_private r) [ESC; 91] r). repeat case_match; cbn in *; lia.
Qed.

Lemma replay_fuel n m l : (length l ≤ n)%nat → (length l ≤ m)%nat → replay_loop n l = replay_loop m l.
Proof.
  revert m l. induction n as [|n IH]; intros m [|b r] Hn Hm; destruct m as [|m]; cbn in Hn, Hm |- *; try done; try lia.
  pose proof (replay_turn_shrinks b r). destruct (replay_turn b r) as [out rest]. cbn in *. f_equal. apply IH; lia.
Qed.

Lemma sanitize_nil : sanitize_terminal_replay [] = [].
Proof. done. Qed.

Lemma sanitize_cons b r : sanitize_terminal_replay (b :: r) = (replay_turn b r).1 ++ sanitize_terminal_replay (replay_turn b r).2.
Proof.
  unfold sanitize_terminal_replay. cbn. pose proof (replay_turn_shrinks b r). destruct (replay_turn b r) as [out rest]. cbn in *.
  f_equal. by apply replay_fuel.
Qed.

(** Text, new lines, tabs, and sequences that select colours *)
Definition sgr_byte (b : Z) : Prop := b < 64 ∨ 127 ≤ b ≤ 159.

Inductive replay_safe : bytes → Prop :=
  | safe_nil : replay_safe []
  | safe_text b l : 32 ≤ b ∨ b = 9 ∨ b = 10 ∨ b = 13 → replay_safe l → replay_safe (b :: l)
  | safe_sgr ps l : is_private ps = false → Forall sgr_byte ps → replay_safe l → replay_safe (ESC :: 91 :: ps ++ 109 :: l).

Lemma safe_app l l' : replay_safe l → replay_safe l' → replay_safe (l ++ l').
Proof.
  induction 1 as [|b l Hb _ IH|ps l Hp Hf _ IH]; intros Hl'; [done | by apply safe_text, IH |].
  rewrite <- !app_comm_cons, <- app_assoc, <- app_comm_cons. by apply safe_sgr, IH.
Qed.

Lemma csi_loop_out private kept l : (csi_loop private kept l).1 = [] ∨
  private = false ∧ ∃ ps, Forall sgr_byte ps ∧ l = ps ++ 109 :: (csi_loop private kept l).2 ∧ (csi_loop private kept l).1 = kept ++ ps ++ [109].
Proof.
  revert kept. induction l as [|b r IH]; intros kept; cbn; [by left |].
  assert (Hrec : sgr_byte b → (csi_loop private (kept ++ [b]) r).1 = [] ∨ private = false ∧ ∃ ps, Forall sgr_byte ps ∧
    b :: r = ps ++ 109 :: (csi_loop private (kept ++ [b]) r).2 ∧ (csi_loop private (kept ++ [b]) r).1 = kept ++ ps ++ [109]).
  { intros Hb. destruct (IH (kept ++ [b])) as [H|[Hp (ps & Hf & Hl & Ho)]]; [by left | right]. split; [done |]. exists (b :: ps).
    split_and!; [by constructor | cbn; by f_equal | rewrite Ho, <- app_assoc; done]. }
  unfold in_range, is_csi_final, sgr_byte in *. destruct (_ && _) eqn:E1; [apply Hrec; lia |]. destruct (128 <=? b) eqn:E2; [by left |].
  destruct ((64 <=? b) && (b <=? 126)) eqn:E3; [| apply Hrec; lia]. cbn. destruct ((b =? 109) && negb private) eqn:E4; [| by left].
  right. destruct private; [by rewrite andb_false_r in E4 |]. split; [done |]. assert (b = 109) as -> by lia.
  exists []. split_and!; [by constructor | done | done].
Qed.

Lemma is_private_snoc ps l : is_private (ps ++ 109 :: l) = is_private ps.
Proof. by destruct ps. Qed.

Lemma turn_safe b r l : replay_safe l → replay_safe ((replay_turn b r).1 ++ l).
Proof.
  intros Hl. unfold replay_turn, sanitize_escape_csi. destruct (Z.eqb_spec b ESC) as [->|Hb].
  - destruct r as [|c r]; [done |]. destruct (c =? 91); [| by case_match].
    destruct (csi_loop_out (is_private r) [ESC; 91] r) as [-> | [Hp (ps & Hf & Hr & ->)]]; [done |].
    rewrite Hr, is_private_snoc in Hp. rewrite <- !app_assoc. by apply (safe_sgr ps l).
  - destruct (_ && _) eqn:E; [done |]. apply safe_text; [lia | done].
Qed.

Lemma csi_loop_sgr kept ps l : Forall sgr_byte ps → csi_loop false kept (ps ++ 109 :: l) = (kept ++ ps ++ [109], l).
Proof.
  intros Hf. revert kept. induction Hf as [|b ps Hb _ IH]; intros kept; [done |]. cbn. unfold sgr_byte in Hb. unfold in_range, is_csi_final.
  rewrite !IH. replace ((kept ++ [b]) ++ ps ++ [109]) with (kept ++ b :: ps ++ [109]) by by rewrite <- app_assoc.
  destruct (_ && _) eqn:E1; [done |]. destruct (128 <=? b) eqn:E2; [lia |]. destruct ((64 <=? b) && _) eqn:E3; [lia | done].
Qed.

Lemma sanitize_safe l : replay_safe (sanitize_terminal_replay l).
Proof.
  revert l. apply (well_founded_ind (well_founded_ltof _ length)). intros [|b r] IH; [constructor |]. rewrite sanitize_cons. apply turn_safe, IH.
  unfold ltof. cbn. pose proof (replay_turn_shrinks b r). lia.
Qed.

(** What is replayed is text, new lines, tabs and sequences that select colours, and such output is
    replayed unchanged. *)
Theorem sanitized_exactly l : replay_safe (sanitize_terminal_replay l) ∧ (replay_safe l ↔ sanitize_terminal_replay l = l).
Proof.
  split; [apply sanitize_safe |]. split; [| intros <-; apply sanitize_safe].
  induction 1 as [|b l Hb _ IH|ps l Hp Hf _ IH]; [done | |].
  - rewrite sanitize_cons. unfold replay_turn. rewrite (proj2 (Z.eqb_neq b ESC)) by (unfold ESC; lia).
    destruct (_ && _) eqn:E; [lia |]. cbn [fst snd app]. by rewrite IH.
  - rewrite sanitize_cons. unfold replay_turn. cbn [Z.eqb Pos.eqb ESC]. unfold sanitize_escape_csi. rewrite is_private_snoc, Hp, csi_loop_sgr by done.
    cbn [fst snd app]. by rewrite IH, <- app_assoc.
Qed.

(** ** Output as a sequence of characters and escape sequences *)

Inductive Token :=
  | Byte (b : Z)
  | CsiSeq (ps : bytes) (final : Z)
  | StringSeq (kind : Z) (body : bytes) (st : bool)
  | EscSeq (inter : bytes) (final : Z).

Definition flat_token (t : Token) : bytes :=
  match t with
  | Byte b => [b]
  | CsiSeq ps final => ESC :: 91 :: ps ++ [final]
  | StringSeq kind body st => ESC :: kind :: body ++ (if st then [ESC; 92] else [7])
  | EscSeq inter final => ESC :: inter ++ [final]
  end.
Definition flat (ts : list Token) : bytes := ts ≫= flat_token.

Definition token_ok (t : Token) : Prop :=
  match t with
  | Byte b => b ≠ ESC
  | CsiSeq ps final => Forall (λ b, 32 ≤ b < 64) ps ∧ 64 ≤ final ≤ 126
  | StringSeq kind body _ => is_control_string kind = true ∧ Forall (λ b, b ≠ ESC ∧ b ≠ 7) body
  | EscSeq inter final => Forall (λ b, 32 ≤ b ≤ 47) inter ∧ 48 ≤ final ≤ 126 ∧ (inter = [] → final ≠ 91 ∧ is_control_string final = false)
  end.

(** What is replayed of a token *)
Definition shown_token (t : Token) : bytes :=
  match t with
  | Byte b => if (b <? 32) && negb ((b =? 10) || (b =? 13) || (b =? 9)) then [] else [b]
  | CsiSeq ps final => if (final =? 109) && negb (is_private (ps ++ [final])) then flat_token t else []
  | StringSeq _ _ _ | EscSeq _ _ => []
  end.
Definition shown_tokens (ts : list Token) : bytes := ts ≫= shown_token.

Lemma flat_app ts ts' : flat (ts ++ ts') = flat ts ++ flat ts'.
Proof. apply bind_app. Qed.

Lemma csi_loop_token private kept ps final l : Forall (λ b, 32 ≤ b < 64) ps → 64 ≤ final ≤ 126 →
  csi_loop private kept (ps ++ final :: l) = (if (final =? 109) && negb private then kept ++ ps ++ [final] else [], l).
Proof.
  intros Hps Hf. revert kept. induction Hps as [|b ps Hb _ IH]; intros kept; cbn; unfold in_range, is_csi_final in *.
  - rewrite (proj2 (Z.leb_gt 128 final)), (proj2 (Z.leb_le 64 final)), (proj2 (Z.leb_le final 126)) by lia. done.
  - rewrite IH, (proj2 (Z.leb_gt 128 b)), (proj2 (Z.leb_gt 64 b)) by lia. cbn. by rewrite <- app_assoc.
Qed.

Lemma skip_string_token body (st : bool) l : Forall (λ b, b ≠ ESC ∧ b ≠ 7) body →
  skip_string (body ++ (if st then [ESC; 92] else [7]) ++ l) = l.
Proof.
  induction 1 as [|b body [H1 H2] _ IH]; [by destruct st |]. cbn -[Z.eqb]. rewrite (proj2 (Z.eqb_neq b 7)), (proj2 (Z.eqb_neq b ESC)) by done. apply IH.
Qed.

Lemma skip_intermediates_token inter final l : Forall (λ b, 32 ≤ b ≤ 47) inter → 48 ≤ final ≤ 126 →
  skip_intermediates (inter ++ final :: l) = final :: l.
Proof.
  intros Hi Hf. induction Hi as [|b inter Hb _ IH]; cbn; unfold is_intermediate, in_range in *.
  - by rewrite (proj2 (Z.leb_gt final 47)), andb_false_r by lia.
  - by rewrite (proj2 (Z.leb_le 32 b)), (proj2 (Z.leb_le b 47)) by lia.
Qed.

Lemma sanitize_token t l : token_ok t → sanitize_terminal_replay (flat_token t ++ l) = shown_token t ++ sanitize_terminal_replay l.
Proof.
  destruct t as [b|ps final|kind body st|inter final]; cbn [flat_token token_ok shown_token]; rewrite <- ?app_comm_cons, sanitize_cons; unfold replay_turn.
  - intros Hb. rewrite (proj2 (Z.eqb_neq b ESC)) by done. by destruct (_ && _).
  - intros [Hps Hf]. rewrite <- app_assoc. cbn [Z.eqb Pos.eqb ESC app]. unfold sanitize_escape_csi. rewrite csi_loop_token by done.
    assert (is_private (ps ++ final :: l) = is_private (ps ++ [final])) as -> by by destruct ps.
    by destruct (_ && _).
  - intros [Hk Hb]. cbn [Z.eqb Pos.eqb ESC app]. rewrite Hk, <- app_assoc, skip_string_token by done.
    assert (kind =? 91 = false) as -> by (unfold is_control_string in Hk; lia). done.
  - intros (Hi & Hf & Hn). cbn [Z.eqb Pos.eqb ESC app]. rewrite <- app_assoc. destruct Hi as [|b inter Hb Hi]; cbn [app].
    + destruct (Hn eq_refl) as [H1 ->]. rewrite (proj2 (Z.eqb_neq final 91)) by done. cbn. unfold is_intermediate, in_range.
      by rewrite (proj2 (Z.leb_gt final 47)), andb_false_r by lia.
    + rewrite (proj2 (Z.eqb_neq b 91)) by lia. assert (is_control_string b = false) as -> by (unfold is_control_string; lia).
      cbn. rewrite skip_intermediates_token by done. unfold is_intermediate, in_range.
      by rewrite (proj2 (Z.leb_le 32 b)), (proj2 (Z.leb_le b 47)), (proj2 (Z.leb_le 48 final)), (proj2 (Z.leb_le final 126)) by lia.
Qed.

Lemma sanitize_tokens ts l : Forall token_ok ts → sanitize_terminal_replay (flat ts ++ l) = shown_tokens ts ++ sanitize_terminal_replay l.
Proof.
  induction 1 as [|t ts Ht _ IH]; [done |]. unfold flat, shown_tokens in *. cbn [mbind list_bind]. by rewrite <- !app_assoc, sanitize_token, IH.
Qed.

(** *** Where a chunk is cut *)

Lemma scan_app i l l' s : scan_from i (l ++ l') s = scan_from (i + length l) l' (scan_from i l s).
Proof.
  revert i s. induction l as [|b l IH]; intros i s; cbn; [by rewrite Nat.add_0_r |]. rewrite IH. f_equal. lia.
Qed.

Lemma scan_params i j ps : Forall (λ b, 32 ≤ b < 64) ps → scan_from i ps (Csi j) = Csi j.
Proof.
  intros H. revert i. induction H as [|b ps Hb _ IH]; intros i; cbn; [done |]. unfold is_csi_final, ESC.
  by rewrite (proj2 (Z.eqb_neq b 27)), (proj2 (Z.leb_gt 64 b)) by lia.
Qed.

Lemma scan_body i j body : Forall (λ b, b ≠ ESC ∧ b ≠ 7) body → scan_from i body (ControlString j false) = ControlString j false.
Proof.
  intros H. revert i. induction H as [|b ps [H1 H2] _ IH]; intros i; cbn -[Z.eqb]; [done |].
  by rewrite (proj2 (Z.eqb_neq b 7)), (proj2 (Z.eqb_neq b ESC)).
Qed.

Lemma scan_inter i j inter : Forall (λ b, 32 ≤ b ≤ 47) inter → scan_from i inter (PlainEscape j) = PlainEscape j.
Proof.
  intros H. revert i. induction H as [|b ps Hb _ IH]; intros i; cbn; [done |]. unfold is_intermediate, in_range.
  by rewrite (proj2 (Z.leb_le 32 b)), (proj2 (Z.leb_le b 47)) by lia.
Qed.

Lemma intermediate_plain b : 32 ≤ b ≤ 47 → (b =? 91) = false ∧ is_control_string b = false ∧ is_intermediate b = true.
Proof. unfold is_control_string, is_intermediate, in_range. lia. Qed.

Lemma scan_token i t : token_ok t → scan_from i (flat_token t) Ground = Ground.
Proof.
  destruct t as [b|ps final|kind body st|inter final]; cbn [flat_token token_ok].
  - intros Hb. cbn. by rewrite (proj2 (Z.eqb_neq b ESC)).
  - intros [Hps Hf]. cbn. rewrite scan_app, scan_params by done. cbn. unfold is_csi_final, ESC.
    by rewrite (proj2 (Z.eqb_neq final 27)), (proj2 (Z.leb_le 64 final)), (proj2 (Z.leb_le final 126)) by lia.
  - intros [Hk Hb]. cbn. rewrite Hk. assert (kind =? 91 = false) as -> by (unfold is_control_string in Hk; lia).
    rewrite scan_app, scan_body by done. by destruct st.
  - intros (Hi & Hf & Hn). cbn. destruct Hi as [|b inter Hb Hi]; cbn.
    + destruct (Hn eq_refl) as [H1 ->]. rewrite (proj2 (Z.eqb_neq final 91)) by done. unfold is_intermediate, in_range.
      by rewrite (proj2 (Z.leb_gt final 47)), andb_false_r by lia.
    + destruct (intermediate_plain b Hb) as (-> & -> & ->). rewrite scan_app, scan_inter by done. cbn. unfold is_intermediate, in_range.
      by rewrite (proj2 (Z.leb_gt final 47)), andb_false_r by lia.
Qed.

Lemma scan_flat i ts : Forall token_ok ts → scan_from i (flat ts) Ground = Ground.
Proof.
  intros H. revert i. induction H as [|t ts Ht _ IH]; intros i; [done |]. unfold flat in *. cbn [mbind list_bind]. by rewrite scan_app, scan_token, IH.
Qed.

Lemma prefix_of_snoc {A} (q r x : list A) a : q ++ r = x ++ [a] → r ≠ [] → ∃ r', x = q ++ r'.
Proof.
  intros H Hr. destruct (exists_last Hr) as (r' & b & ->). exists r'. rewrite app_assoc in H. by apply app_inj_tail in H as [<- _].
Qed.


(** Within an escape sequence the scanner knows where it began. *)
Lemma scan_partial i t q r : token_ok t → q ++ r = flat_token t → q ≠ [] → r ≠ [] → open_at (scan_from i q Ground) = Some i.
Proof.
  intros Ht Hqr Hq Hr. destruct q as [|b0 q]; [done |]. destruct t as [b|ps final|kind body st|inter final]; cbn in Ht, Hqr; injection Hqr as -> Hqr.
  - by destruct q, r.
  - destruct q as [|b1 q]; [done |]. injection Hqr as -> Hqr. destruct (prefix_of_snoc _ _ _ _ Hqr Hr) as [r' ->].
    destruct Ht as [[Hps _]%Forall_app _]. cbn. by rewrite scan_params.
  - destruct q as [|b1 q]; [done |]. injection Hqr as -> Hqr. destruct Ht as [Hk Hb]. cbn. rewrite Hk.
    assert (kind =? 91 = false) as -> by (unfold is_control_string in Hk; lia).
    destruct st; [| destruct (prefix_of_snoc _ _ _ _ Hqr Hr) as [r' ->]; apply Forall_app in Hb as [Hb _]; by rewrite scan_body].
    change [ESC; 92] with ([ESC] ++ [92]) in Hqr. rewrite app_assoc in Hqr. destruct (prefix_of_snoc _ _ _ _ Hqr Hr) as [r' Hx].
    destruct r' as [|c r']; [rewrite app_nil_r in Hx; subst q; by rewrite scan_app, scan_body |].
    destruct (prefix_of_snoc q (c :: r') body ESC ltac:(done) ltac:(done)) as [r'' ->]. apply Forall_app in Hb as [Hb _]. by rewrite scan_body.
  - destruct (prefix_of_snoc _ _ _ _ Hqr Hr) as [r' ->]. destruct Ht as [[Hi _]%Forall_app _]. cbn. destruct Hi as [|b inter Hb Hi]; [done |].
    cbn. destruct (intermediate_plain b Hb) as (-> & -> & ->). by rewrite scan_inter.
Qed.

(** *** Cut characters *)

Lemma last_lead_spec l k : (last_lead l k ≤ k)%nat ∧ ∀ j, (last_lead l k < j ≤ k)%nat → in_range 128 191 (l !!! j) = true.
Proof.
  induction k as [|k [IH1 IH2]]; cbn [last_lead]; [split; intros; lia |]. destruct (in_range 128 191 (l !!! S k)) eqn:E; [| split; intros; lia].
  split; [lia |]. intros j Hj. destruct (decide (j = S k)) as [->|]; [done |]. apply IH2. lia.
Qed.

(** A chunk that ends within a character is cut before its first byte. *)
Lemma utf8_start_spec l n : trailing_incomplete_utf8_start l = Some n →
  (n < length l)%nat ∧ 194 ≤ l !!! n ∧ ∀ j, (n < j < length l)%nat → 128 ≤ l !!! j ≤ 191.
Proof.
  unfold trailing_incomplete_utf8_start. destruct (Nat.ltb_spec (utf8_boundary_snap_len l) (length l)) as [Hl|]; [intros [= <-] | done].
  revert Hl. unfold utf8_boundary_snap_len. destruct (Nat.eqb_spec (length l) 0); [lia |]. destruct (last_lead_spec l (length l - 1)) as [H1 H2].
  set (start := last_lead l (length l - 1)) in *. cbv zeta.
  assert (Hgo : ∀ expected, 194 ≤ l !!! start → let m := if (start + expected <=? length l)%nat then length l else start in
    (m < length l)%nat → (m < length l)%nat ∧ 194 ≤ l !!! m ∧ ∀ j, (m < j < length l)%nat → 128 ≤ l !!! j ≤ 191).
  { intros expected Hb m Hm. subst m. destruct (_ <=? _)%nat; [lia |]. split_and!; [done | done |]. intros j Hj.
    specialize (H2 j ltac:(lia)). unfold in_range in H2. lia. }
  unfold in_range. destruct ((0 <=? _) && _) eqn:E1; [destruct (Nat.leb_spec (start + 1) (length l)); lia |].
  destruct ((194 <=? _) && _) eqn:E2; [apply (Hgo 2%nat); lia |]. destruct ((224 <=? _) && _) eqn:E3; [apply (Hgo 3%nat); lia |].
  destruct ((240 <=? _) && _) eqn:E4; [apply (Hgo 4%nat); lia | lia].
Qed.

(** Case analysis on the comparisons of a goal *)
Ltac leb_cases :=
  repeat case_match;
  repeat match goal with
  | H : (_ <=? _)%nat = true |- _ => apply Nat.leb_le in H
  | H : (_ <=? _)%nat = false |- _ => apply Nat.leb_gt in H
  end; lia.

Lemma snap_le l : (utf8_boundary_snap_len l ≤ length l)%nat.
Proof.
  unfold utf8_boundary_snap_len. destruct (last_lead_spec l (length l - 1)) as [H _]. cbv zeta. repeat case_match; lia.
Qed.

(** Four bytes have the whole of a character. *)
Lemma snap_pos l : (4 ≤ length l)%nat → (0 < utf8_boundary_snap_len l)%nat.
Proof.
  intros Hl. unfold utf8_boundary_snap_len. cbv zeta. destruct (Nat.eqb_spec (length l) 0); [lia |]. set (start := last_lead _ _).
  leb_cases.
Qed.

(** At most three bytes are cut. *)
Lemma snap_close l : (length l ≤ utf8_boundary_snap_len l + 3)%nat.
Proof. unfold utf8_boundary_snap_len. cbv zeta. destruct (Nat.eqb_spec (length l) 0); [lia |]. set (start := last_lead _ _). leb_cases. Qed.

Lemma last_lead_unique l n k : (n ≤ k)%nat → n = 0%nat ∨ in_range 128 191 (l !!! n) = false →
  (∀ j, (n < j ≤ k)%nat → in_range 128 191 (l !!! j) = true) → last_lead l k = n.
Proof.
  intros Hk Hn Hc. induction k as [|k IH]; cbn [last_lead]; [lia |]. destruct (decide (n = S k)) as [->|].
  - destruct Hn as [Hn|Hn]; [lia |]. by rewrite Hn.
  - rewrite Hc by lia. apply IH; [lia |]. intros j Hj. apply Hc. lia.
Qed.

(** The end of a text is cut within a character where the text is. *)
Lemma snap_suffix k l : utf8_boundary_snap_len l = length l → utf8_boundary_snap_len (drop k l) = length (drop k l).
Proof.
  intros Hl. pose proof (snap_le (drop k l)). destruct (decide (utf8_boundary_snap_len (drop k l) = length (drop k l))) as [|Hne]; [done | exfalso].
  destruct (trailing_incomplete_utf8_start (drop k l)) as [n|] eqn:Hn; [| revert Hn; unfold trailing_incomplete_utf8_start;
    destruct (Nat.ltb_spec (utf8_boundary_snap_len (drop k l)) (length (drop k l))); [done | lia]].
  destruct (utf8_start_spec _ _ Hn) as (Hn1 & Hn2 & Hn3). rewrite length_drop in *.
  assert (Hlk : ∀ j, l !!! (k + j)%nat = drop k l !!! j) by (intros j; by rewrite lookup_total_drop).
  assert (Hld : last_lead l (length l - 1) = (k + n)%nat).
  { apply last_lead_unique; [lia | right; rewrite Hlk; unfold in_range; lia |]. intros j Hj. replace j with (k + (j - k))%nat by lia.
    rewrite Hlk. specialize (Hn3 (j - k)%nat ltac:(lia)). unfold in_range. lia. }
  assert (Hld' : last_lead (drop k l) (length (drop k l) - 1) = n).
  { apply last_lead_unique; [rewrite length_drop; lia | right; unfold in_range; lia |]. intros j Hj. rewrite length_drop in Hj.
    specialize (Hn3 j ltac:(lia)). unfold in_range. lia. }
  revert Hne Hl. unfold utf8_boundary_snap_len. rewrite Hld, Hld', Hlk, length_drop. cbv zeta.
  destruct (Nat.eqb_spec (length l - k) 0); [lia |]. destruct (Nat.eqb_spec (length l) 0); [lia |]. leb_cases.
Qed.

Lemma token_last t : token_ok t → (∃ b, t = Byte b) ∨ ∃ x b, flat_token t = x ++ [b] ∧ b < 128.
Proof.
  destruct t as [b|ps final|kind body st|inter final]; cbn; intros Ht; [by left; exists b | right | right | right].
  - exists (ESC :: 91 :: ps), final. split; [done | lia].
  - destruct st; [exists (ESC :: kind :: body ++ [ESC]), 92 | exists (ESC :: kind :: body), 7]; cbn; by rewrite <- ?app_assoc.
  - exists (ESC :: inter), final. split; [done | lia].
Qed.

Lemma char_boundary ts n : Forall token_ok ts → (n < length (flat ts))%nat → 194 ≤ flat ts !!! n →
  (∀ j, (n < j < length (flat ts))%nat → 128 ≤ flat ts !!! j ≤ 191) → ∃ ts1 ts2, ts = ts1 ++ ts2 ∧ length (flat ts1) = n.
Proof.
  induction ts as [|t ts IH] using rev_ind; intros Hts Hn Hb Hc; [cbn in Hn; lia |]. apply Forall_app in Hts as [Hts [Ht _]%Forall_cons].
  rewrite flat_app in *. assert (flat [t] = flat_token t) as Hft by (unfold flat; cbn; by rewrite app_nil_r). rewrite Hft in *.
  destruct (decide (n = length (flat ts))) as [->|Hne]; [by exists ts, [t] |].
  destruct (token_last t Ht) as [[b ->] | (x & b & Hx & Hb128)].
  - cbn in *. rewrite length_app in *. cbn in *. rewrite lookup_total_app_l in Hb by lia.
    destruct (IH Hts ltac:(lia) Hb) as (ts1 & ts2 & -> & Hl); [| exists ts1, (ts2 ++ [Byte b]); by rewrite <- app_assoc].
    intros j Hj. specialize (Hc j ltac:(lia)). by rewrite lookup_total_app_l in Hc by lia.
  - exfalso. rewrite Hx, app_assoc in Hb, Hc, Hn. rewrite length_app in *. cbn in *. set (k := length (flat ts ++ x)) in *.
    assert (((flat ts ++ x) ++ [b]) !!! k = b) as Hk by (unfold k; rewrite lookup_total_app_r, Nat.sub_diag by lia; done).
    destruct (decide (n = k)) as [->|]; [lia |]. specialize (Hc k ltac:(lia)). lia.
Qed.

(** *** The cut is at the start of a token *)

Lemma flat_prefix ts p r : p ++ r = flat ts → ∃ ts1 ts2 q, ts = ts1 ++ ts2 ∧ p = flat ts1 ++ q ∧ q ++ r = flat ts2 ∧
  (q = [] ∨ ∃ t ts' r', ts2 = t :: ts' ∧ q ++ r' = flat_token t ∧ q ≠ [] ∧ r' ≠ []).
Proof.
  revert p. induction ts as [|t ts IH]; intros p Hp.
  - exists [], [], []. cbn in Hp. apply app_nil in Hp as [-> ->]. split_and!; [done | done | done | by left].
  - unfold flat in Hp. cbn [mbind list_bind] in Hp. apply app_eq_app in Hp as (k & [[-> Hk] | [Ht ->]]).
    + destruct (IH k (eq_sym Hk)) as (ts1 & ts2 & q & -> & -> & Hq & Hc). exists (t :: ts1), ts2, q. split_and!; [done | | done | done].
      unfold flat. cbn [mbind list_bind]. by rewrite app_assoc.
    + destruct k as [|b k].
      * rewrite app_nil_r in Ht. exists [t], ts, [].
        unfold flat. cbn [mbind list_bind]. rewrite !app_nil_r. split_and!; [done | done | done | by left].
      * destruct p as [|c p]; [exists [], (t :: ts), []; split_and!; [done | done | unfold flat; cbn [mbind list_bind app]; by rewrite Ht | by left] |].
        exists [], (t :: ts), (c :: p). split_and!; [done | done | unfold flat; cbn [mbind list_bind]; by rewrite Ht, <- app_assoc |].
        right. exists t, ts, (b :: k). done.
Qed.

Lemma token_starts t q r : q ++ r = flat_token t → q ≠ [] → r ≠ [] → ∃ q', q = ESC :: q'.
Proof. intros H Hq Hr. destruct q as [|b q]; [done |]. exists q. destruct t; cbn in H; injection H as -> ?; [by destruct q, r | done | done | done]. Qed.

Lemma cut_at_token ts p r : Forall token_ok ts → p ++ r = flat ts → ∃ ts1 ts2 q, ts = ts1 ++ ts2 ∧ p = flat ts1 ++ q ∧ q ++ r = flat ts2 ∧
  split_of p = match q with [] => None | _ => Some (length (flat ts1)) end.
Proof.
  intros Hts Hp. destruct (flat_prefix ts p r Hp) as (ts1 & ts2 & q & -> & -> & Hq & Hc). apply Forall_app in Hts as [Hts1 Hts2].
  unfold split_of, trailing_incomplete_replay_escape_start. rewrite scan_app, scan_flat by done. cbn [Nat.add].
  destruct Hc as [-> | (t & ts' & r' & -> & Ht & Hne & Hr')].
  - cbn [scan_from open_at]. rewrite app_nil_r in *. destruct (trailing_incomplete_utf8_start (flat ts1)) as [n|] eqn:Hn.
    + destruct (utf8_start_spec _ _ Hn) as (Hn1 & Hn2 & Hn3). destruct (char_boundary ts1 n Hts1 Hn1 Hn2 Hn3) as (ta & tb & -> & Hl).
      exists ta, (tb ++ ts2), (flat tb). rewrite flat_app in *. rewrite length_app in Hn1.
      split_and!; [by rewrite app_assoc | done | by rewrite flat_app, <- Hq |]. rewrite Hl. destruct (flat tb); [cbn in Hn1; lia | done].
    + exists ts1, ts2, []. by rewrite app_nil_r.
  - apply Forall_cons in Hts2 as [Htok _]. rewrite (scan_partial _ t q r') by done. exists ts1, (t :: ts'), q.
    split_and!; [done | done | done |]. destruct (token_starts t q r' Ht Hne Hr') as [q' ->].
    destruct (trailing_incomplete_utf8_start _) as [n|] eqn:Hn; [| done]. destruct (utf8_start_spec _ _ Hn) as (Hn1 & Hn2 & Hn3). f_equal.
    destruct (decide (n < length (flat ts1))%nat) as [Hlt|]; [| lia]. exfalso.
    specialize (Hn3 (length (flat ts1))). rewrite length_app in Hn3. cbn in Hn3. specialize (Hn3 ltac:(lia)).
    rewrite lookup_total_app_r, Nat.sub_diag in Hn3 by lia. unfold ESC in Hn3. cbn in Hn3. lia.
Qed.

(** *** Chunks *)

Fixpoint feed_all (s : TerminalReplaySanitizer) (chunks : list bytes) : TerminalReplaySanitizer * bytes :=
  match chunks with
  | [] => (s, [])
  | l :: chunks => let '(s1, out) := feed s l false in let '(s2, rest) := feed_all s1 chunks in (s2, out ++ rest)
  end.

Lemma feed_all_spec ts chunks : ∀ s r, Forall token_ok ts → pending s ++ concat chunks ++ r = flat ts → ∃ ts1 ts2, ts = ts1 ++ ts2 ∧
  (feed_all s chunks).2 = shown_tokens ts1 ∧ pending s ++ concat chunks = flat ts1 ++ pending (feed_all s chunks).1.
Proof.
  revert ts. induction chunks as [|l chunks IH]; intros ts s r Hts Hr; [exists [], ts; by rewrite app_nil_r |].
  cbn [concat] in Hr |- *. rewrite <- app_assoc, app_assoc in Hr. destruct (cut_at_token _ _ _ Hts Hr) as (ts1 & ts2 & q & -> & Hl & Hq & Hs).
  apply Forall_app in Hts as [Hts1 Hts2]. cbn [feed_all]. unfold feed. rewrite Hs, Hl.
  assert (Hsan : sanitize_terminal_replay (flat ts1) = shown_tokens ts1).
  { rewrite <- (app_nil_r (flat ts1)), sanitize_tokens by done. by rewrite sanitize_nil, app_nil_r. }
  assert (Hgo : ∀ s1, pending s1 = q → ∃ ta tb, ts1 ++ ts2 = ta ++ tb ∧
    (let '(s2, rest) := feed_all s1 chunks in (s2, shown_tokens ts1 ++ rest)).2 = shown_tokens ta ∧
    pending s ++ l ++ concat chunks = flat ta ++ pending (let '(s2, rest) := feed_all s1 chunks in (s2, shown_tokens ts1 ++ rest)).1).
  { intros s1 Hs1. destruct (IH ts2 s1 r Hts2) as (ta & tb & -> & Ho & Hp); [by rewrite Hs1 |].
    exists (ts1 ++ ta), tb. destruct (feed_all s1 chunks) as [s2 rest]. cbn in *. split_and!; [by rewrite app_assoc | |].
    - rewrite Ho. symmetry. apply bind_app.
    - by rewrite app_assoc, Hl, flat_app, <- !app_assoc, <- Hp, Hs1. }
  destruct q as [|b q].
  - rewrite app_nil_r, Hsan. by apply (Hgo {| pending := [] |}).
  - rewrite take_app_length, drop_app_length, Hsan. by apply (Hgo {| pending := b :: q |}).
Qed.

(** C35: output whose escape sequences are complete but for the last is replayed the same however it is cut into
    chunks: in all it is what sanitizing the whole leaves. *)
Theorem replay_chunks ts chunks final r : Forall token_ok ts → concat chunks ++ final ++ r = flat ts →
  let '(s, out) := feed_all new_sanitizer chunks in
  out ++ (feed s final true).2 = sanitize_terminal_replay (concat chunks ++ final).
Proof.
  intros Hts Hr. destruct (feed_all_spec ts chunks new_sanitizer (final ++ r) Hts Hr) as (ts1 & ts2 & -> & Ho & Hp).
  destruct (feed_all new_sanitizer chunks) as [s out]. cbn in Ho, Hp |- *. subst out. apply Forall_app in Hts as [Hts1 _].
  by rewrite Hp, <- app_assoc, sanitize_tokens.
Qed.

(** ** The history *)

Lemma pop_excess_spec h : pop_excess h = (drop (Z.to_nat (len h - MAX_HISTORY_BYTES)) h, Z.max 0 (len h - MAX_HISTORY_BYTES)).
Proof.
  induction h as [|b h IH]; [done |]. cbn [pop_excess]. assert (Hlen : len (b :: h) = len h + 1) by (unfold len; cbn; lia).
  destruct (Z.ltb_spec MAX_HISTORY_BYTES (len (b :: h))) as [H|H].
  - rewrite IH. assert (Z.to_nat (len (b :: h) - MAX_HISTORY_BYTES) = S (Z.to_nat (len h - MAX_HISTORY_BYTES))) as -> by lia.
    cbn [drop]. f_equal. lia.
  - assert (Z.to_nat (len (b :: h) - MAX_HISTORY_BYTES) = 0%nat) as -> by lia. f_equal. lia.
Qed.

Lemma len_nonneg l : 0 ≤ len l.
Proof. unfold len. lia. Qed.

Lemma len_app l l' : len (l ++ l') = len l + len l'.
Proof. unfold len. rewrite length_app. lia. Qed.

Lemma len_take n l : len (take (Z.to_nat n) l) = Z.max 0 (Z.min n (len l)).
Proof. unfold len. rewrite length_take. lia. Qed.

Lemma len_drop n l : len (drop (Z.to_nat n) l) = Z.max 0 (len l - Z.max 0 n).
Proof. unfold len. rewrite length_drop. lia. Qed.

(** The last 64 MiB of all output [out] are kept, and [history_start_abs] is the position of the first of them. *)
Definition keeps_last (out history : bytes) (history_start_abs : Z) : Prop :=
  0 ≤ history_start_abs ∧ history = drop (Z.to_nat history_start_abs) out ∧ history_start_abs = Z.max 0 (len out - MAX_HISTORY_BYTES).

Lemma append_keeps_last out history start l : keeps_last out history start →
  keeps_last (out ++ l) (append_bounded history l).1 (start + (append_bounded history l).2).
Proof.
  intros (H0 & Hh & Hs). unfold append_bounded. rewrite pop_excess_spec. cbn [fst snd]. assert (Hle : start ≤ len out) by (unfold MAX_HISTORY_BYTES in Hs; pose proof (len_nonneg out); lia).
  assert (Hl : len history = len out - start) by (rewrite Hh, len_drop; lia).
  assert (Happ : history ++ l = drop (Z.to_nat start) (out ++ l)) by (unfold len in Hle; rewrite drop_app_le, Hh by lia; done).
  rewrite len_app, Hl, Happ, drop_drop. split_and!; [lia | f_equal; lia |]. rewrite len_app. pose proof (len_nonneg l). lia.
Qed.

Lemma replay_turn_length b r : (length (replay_turn b r).1 + length (replay_turn b r).2 ≤ S (length r))%nat.
Proof.
  pose proof (replay_turn_shrinks b r) as Hs. revert Hs. unfold replay_turn, sanitize_escape_csi.
  destruct (b =? ESC); [| case_match; cbn; lia]. destruct r as [|c r]; [cbn; lia |]. destruct (c =? 91); [| case_match; cbn; lia].
  destruct (csi_loop_out (is_private r) [ESC; 91] r) as [-> | [_ (ps & _ & Hr & ->)]]; [cbn; lia |]. intros _.
  rewrite Hr at 3. cbn. rewrite !length_app. cbn. lia.
Qed.

Lemma sanitize_shrinks l : len (sanitize_terminal_replay l) ≤ len l.
Proof.
  revert l. apply (well_founded_ind (well_founded_ltof _ length)). intros [|b r] IH; [done |]. rewrite sanitize_cons, len_app.
  pose proof (replay_turn_length b r). pose proof (replay_turn_shrinks b r). specialize (IH (replay_turn b r).2). unfold ltof, len in *. cbn in *. lia.
Qed.

Lemma last_bytes_len n l : 0 ≤ n → len (last_bytes n l) = Z.min n (len l).
Proof. intros Hn. unfold last_bytes, saturating_sub. rewrite len_drop. pose proof (len_nonneg l). lia. Qed.

Lemma drop_continuations_suffix l : ∃ n, (n ≤ length l)%nat ∧ drop_continuations l = drop n l.
Proof.
  induction l as [|b l (n & Hn & IH)]; cbn; [by exists 0%nat |]. case_match; [exists (S n); cbn; by split; [lia |] | exists 0%nat; split; [lia | done]].
Qed.

Lemma drop_continuations_start l b : head (drop_continuations l) = Some b → is_continuation b = false.
Proof. induction l as [|c l IH]; cbn; [done |]. destruct (is_continuation c) eqn:E; [done |]. by intros [= ->]. Qed.

Lemma after_newline_suffix l : len (after_newline l) ≤ len l.
Proof. induction l as [|b l IH]; cbn; [done |]. unfold len in *. case_match; cbn; lia. Qed.

(** The prelude of an attach is no longer than asked for and than half a frame, and has only text and colours. *)
Theorem prelude_bounded history max_bytes : 0 ≤ max_bytes →
  replay_safe (capped_prelude_snapshot history max_bytes) ∧
  len (capped_prelude_snapshot history max_bytes) ≤ Z.min max_bytes MAX_ATTACH_SNAPSHOT_BYTES.
Proof.
  intros Hm. unfold capped_prelude_snapshot. cbv zeta. set (n := Z.min (len history) _). split; [apply sanitize_safe |].
  etrans; [apply sanitize_shrinks |]. pose proof (len_nonneg history). assert (0 ≤ MAX_ATTACH_SNAPSHOT_BYTES) by done.
  pose proof (last_bytes_len n history ltac:(lia)) as Hl. case_match; [| lia]. unfold trim_partial_replay_prefix.
  destruct (drop_continuations_suffix (after_newline (last_bytes n history))) as (k & _ & ->). pose proof (after_newline_suffix (last_bytes n history)).
  unfold len in *. rewrite length_drop. lia.
Qed.

Lemma take_min {A} n m (l : list A) : (length l ≤ m)%nat → take (Nat.min n m) l = take n l.
Proof. intros Hm. destruct (Nat.le_ge_cases n m); [by rewrite Nat.min_l |]. rewrite Nat.min_r by done. by rewrite !take_ge by lia. Qed.

(** The slice is the same wherever the deque has its two parts. *)
Lemma deque_slice_spec cut history rel_start chunk_len : 0 ≤ rel_start → 0 ≤ chunk_len →
  deque_slice cut history rel_start chunk_len = take (Z.to_nat chunk_len) (drop (Z.to_nat rel_start) history).
Proof.
  intros Hr Hc. unfold deque_slice. cbv zeta.
  replace (drop (Z.to_nat rel_start) history) with (drop (Z.to_nat rel_start) (take cut history ++ drop cut history)) by by rewrite take_drop.
  set (front := take cut history). set (back := drop cut history). clearbody front back. unfold saturating_sub, len.
  destruct (Z.ltb_spec rel_start (Z.of_nat (length front))) as [Hlt|Hge].
  - rewrite drop_app_le, take_app by lia. f_equal.
    + rewrite <- (take_min (Z.to_nat chunk_len) (length (drop (Z.to_nat rel_start) front))) by done. f_equal. rewrite length_drop. lia.
    + rewrite length_drop. case_match.
      * rewrite <- (take_min (Z.to_nat chunk_len - (length front - Z.to_nat rel_start)) (length back)) by done. rewrite drop_0. f_equal. lia.
      * by assert (Z.to_nat chunk_len - (length front - Z.to_nat rel_start) = 0)%nat as -> by lia.
  - rewrite drop_app_ge by lia. destruct (Z.le_gt_cases (rel_start - Z.of_nat (length front)) (Z.of_nat (length back))) as [Hb|Hb].
    + rewrite <- (take_min (Z.to_nat chunk_len) (length (drop (Z.to_nat rel_start - length front) back))) by done. f_equal; [| f_equal; lia].
      rewrite length_drop. lia.
    + by rewrite !drop_ge, !take_nil by lia.
Qed.

(** ** Examples *)

Module Demo.

(** A coloured word with an accent, a title and a letter, cut within the accent and within the title *)
Definition tokens : list Token := [CsiSeq [51; 49] 109; Byte 104; Byte 195; Byte 169; StringSeq 93 [48; 59; 116] false; CsiSeq [63; 50; 53] 104; Byte 33].
Definition first_chunk : bytes := [27; 91; 51; 49; 109; 104; 195].
Definition second_chunk : bytes := [169; 27; 93; 48; 59].
Definition last_chunk : bytes := [116; 7; 27; 91; 63; 50; 53; 104; 33].

Lemma replay_chunks_witness :
  let '(s, out) := feed_all new_sanitizer [first_chunk; second_chunk] in out ++ (feed s last_chunk true).2 = [27; 91; 51; 49; 109; 104; 195; 169; 33].
Proof.
  assert (Ht : Forall token_ok tokens).
  { unfold tokens. repeat first [apply Forall_nil_2 | apply Forall_cons_2]; cbn; unfold ESC; try lia; split; try lia; try done; repeat constructor; lia. }
  exact (replay_chunks tokens [first_chunk; second_chunk] last_chunk [] Ht eq_refl).
Defined.

Lemma prelude_bounded_witness : len (capped_prelude_snapshot [104; 27; 99; 105] 3) ≤ 3.
Proof. destruct (prelude_bounded [104; 27; 99; 105] 3 ltac:(lia)) as [_ H]. etrans; [exact H |]. apply Z.le_min_l. Defined.

(** An escape sequence hidden in the parameters of a colour is replayed: a terminal aborts the colour at
    the second escape and executes ESC 7, which plain would have been removed. *)
Theorem hidden_escape_replayed : sanitize_terminal_replay [ESC; 91; ESC; 55; 109] = [ESC; 91; ESC; 55; 109] ∧
  sanitize_terminal_replay [ESC; 55] = [].
Proof. done. Qed.

(** Of such output what is replayed depends on where it is cut. *)
Theorem cut_changes_replay : ∃ l l',
  (feed (feed new_sanitizer l false).1 l' true).2 = [ESC; 91; 109] ∧ sanitize_terminal_replay (l ++ l') = [109].
Proof. by exists [ESC; 91; ESC], [91; 109]. Qed.

End Demo.
