(* ===== verification/GhosttyReload.v ===== *)
(** * Reloads of a ghostty session

    crates/portl-agent/src/session_handler/ghostty.rs: a client may ask for the last megabyte of
    the output again.  The helper sends it in chunks, one each time it comes around, while the
    session goes on ([GhosttyReloadJob]).  The deque has its two slices wherever the argument
    [cut] says. *)

From stdpp Require Import strings.
From S2P Require Import Prelude Bytes Terminal Providers AttachV2 GhosttyReplay.

(** ** Channels

    A bounded channel: what was ever put into it, how much of that was received, and whether the
    receiver is still there.  A receiver that is dropped gives the places it had used back. *)

Record Chan (A : Type) := { ch_sent : list A; ch_taken : nat; ch_cap : nat; ch_open : bool }.
Arguments ch_sent {A} _.
Arguments ch_taken {A} _.
Arguments ch_cap {A} _.
Arguments ch_open {A} _.

Definition new_chan {A} (cap : nat) : Chan A := {| ch_sent := []; ch_taken := 0; ch_cap := cap; ch_open := true |}.
Definition queued {A} (c : Chan A) : nat := (length (ch_sent c) - ch_taken c)%nat.
Definition capacity {A} (c : Chan A) : nat := if ch_open c then (ch_cap c - queued c)%nat else ch_cap c.

Inductive TrySend (A : Type) := Sent (c : Chan A) | Full | Closed.
Arguments Sent {A} c.
Arguments Full {A}.
Arguments Closed {A}.

Definition try_send {A} (a : A) (c : Chan A) : TrySend A :=
  if negb (ch_open c) then Closed
  else if (capacity c =? 0)%nat then Full
  else Sent {| ch_sent := ch_sent c ++ [a]; ch_taken := ch_taken c; ch_cap := ch_cap c; ch_open := true |}.

(** What the receiver does *)
Definition recv {A} (c : Chan A) : option (A * Chan A) :=
  match ch_sent c !! ch_taken c with
  | Some a => Some (a, {| ch_sent := ch_sent c; ch_taken := S (ch_taken c); ch_cap := ch_cap c; ch_open := ch_open c |})
  | None => None
  end.
Definition drop_receiver {A} (c : Chan A) : Chan A :=
  {| ch_sent := ch_sent c; ch_taken := ch_taken c; ch_cap := ch_cap c; ch_open := false |}.

(** ** Messages *)

Record GhosttySessionMetadata := {
  md_name : string; md_provider : string; md_pid : Z; md_socket_path : string; md_created_at_ms : Z; md_last_seen_ms : Z;
  md_cwd : option string; md_rows : Z; md_cols : Z; md_status : string; md_protocol_version : Z;
}.

Inductive GhosttyResponse :=
  | GAck (metadata : GhosttySessionMetadata)
  | GAttached (metadata : GhosttySessionMetadata) (snapshot : bytes)
  | GAttachedV2 (metadata : GhosttySessionMetadata) (prelude viewport : bytes) (covers_live_seq generation cols rows resize_id : Z)
  | GOutput (l : bytes)
  | GOutputV2 (start_seq end_seq : Z) (l : bytes)
  | GViewportV2 (generation covers_live_seq cols rows resize_id : Z) (l : bytes)
  | GReloadStartedV2 (reload_id : Z) (total_bytes : option Z)
  | GReloadChunkV2 (reload_id seq : Z) (progress : AttachV2Progress) (l : bytes)
  | GReloadDoneV2 (reload_id final_generation : Z)
  | GReloadCancelledV2 (reload_id : Z)
  | GResyncRequiredV2 (reason : string) (from_seq : Z)
  | GRunResult (r : SessionRunResult)
  | GHistory (output : string)
  | GExit (code : Z)
  | GError (message : string).

(** ** A reload *)

Record GhosttyReloadJob := {
  job_id : Z;
  start_abs : Z;
  end_abs : Z;
  offset : Z;
  job_seq : Z;
  job_started : bool;
  final_generation : Z;
  job_truncated : bool;
  pending_response : option GhosttyResponse;
  replay_sanitizer : TerminalReplaySanitizer;
}.

Definition new_job (reload_id history_start_abs retained_len generation : Z) (truncated : bool) : GhosttyReloadJob := {|
  job_id := reload_id; start_abs := history_start_abs; end_abs := saturating_add U64_MAX history_start_abs retained_len; offset := 0; job_seq := 0;
  job_started := false; final_generation := generation; job_truncated := truncated; pending_response := None; replay_sanitizer := new_sanitizer |}.

Definition set_pending_response r j := {| job_id := job_id j; start_abs := start_abs j; end_abs := end_abs j; offset := offset j; job_seq := job_seq j;
  job_started := job_started j; final_generation := final_generation j; job_truncated := job_truncated j; pending_response := r;
  replay_sanitizer := replay_sanitizer j |}.
Definition set_started j := {| job_id := job_id j; start_abs := start_abs j; end_abs := end_abs j; offset := offset j; job_seq := job_seq j;
  job_started := true; final_generation := final_generation j; job_truncated := job_truncated j; pending_response := pending_response j;
  replay_sanitizer := replay_sanitizer j |}.
Definition skip_to v truncated j := {| job_id := job_id j; start_abs := start_abs j; end_abs := end_abs j; offset := v; job_seq := job_seq j;
  job_started := job_started j; final_generation := final_generation j; job_truncated := truncated || job_truncated j;
  pending_response := pending_response j; replay_sanitizer := replay_sanitizer j |}.
Definition set_sanitizer s j := {| job_id := job_id j; start_abs := start_abs j; end_abs := end_abs j; offset := offset j; job_seq := job_seq j;
  job_started := job_started j; final_generation := final_generation j; job_truncated := job_truncated j; pending_response := pending_response j;
  replay_sanitizer := s |}.
Definition next_seq v j := {| job_id := job_id j; start_abs := start_abs j; end_abs := end_abs j; offset := v;
  job_seq := saturating_add U64_MAX (job_seq j) 1; job_started := job_started j; final_generation := final_generation j;
  job_truncated := job_truncated j; pending_response := pending_response j; replay_sanitizer := replay_sanitizer j |}.

Definition bracket_reload_replay_chunk (l : bytes) (first_chunk final_chunk : bool) : bytes := l.

Definition sat_add := saturating_add U64_MAX.

Section poll.
Variables (cut : nat) (history : bytes) (history_start_abs : Z).

(** Whether the job is finished comes last. *)
Definition Polled : Type := Chan GhosttyResponse * GhosttyReloadJob * bool.

Definition send_chunk (ch : Chan GhosttyResponse) (j : GhosttyReloadJob) (raw_bytes : bytes) : Polled :=
  let loaded := sat_add (offset j) (len raw_bytes) in
  let complete := end_abs j <=? sat_add (start_abs j) loaded in
  let '(s, out) := feed (replay_sanitizer j) raw_bytes complete in
  let l := bracket_reload_replay_chunk out (job_seq j =? 0) complete in
  let progress := {| loaded_bytes := loaded; total_bytes := Some (saturating_sub (end_abs j) (start_abs j));
                     retained_history_truncated := job_truncated j; complete := complete |} in
  let response := GReloadChunkV2 (job_id j) (job_seq j) progress l in
  let j := set_sanitizer s j in
  match try_send response ch with
  | Sent ch => (ch, next_seq loaded j, false)
  | Full => (ch, set_pending_response (Some response) j, false)
  | Closed => (ch, j, true)
  end.

Definition poll_chunk (ch : Chan GhosttyResponse) (j : GhosttyReloadJob) : Polled :=
  let current_abs := sat_add (start_abs j) (offset j) in
  if end_abs j <=? current_abs then
    match try_send (GReloadDoneV2 (job_id j) (final_generation j)) ch with
    | Sent ch => (ch, j, true)
    | Closed => (ch, j, true)
    | Full => (ch, j, false)
    end
  else
    let available_end := sat_add history_start_abs (len history) in
    if available_end <=? current_abs then (ch, skip_to (saturating_sub (end_abs j) (start_abs j)) true j, false)
    else
      let rel_start := Z.min (saturating_sub current_abs history_start_abs) (len history) in
      let chunk_len := Z.min (Z.min (saturating_sub (end_abs j) current_abs) (saturating_sub available_end current_abs)) GHOSTTY_ATTACH_V2_HISTORY_CHUNK in
      if chunk_len =? 0 then (ch, j, false)
      else
        let raw_bytes := vec_deque_chunk cut history rel_start chunk_len in
        if bool_decide (raw_bytes = []) then (ch, skip_to (sat_add (offset j) chunk_len) false j, false)
        else send_chunk ch j raw_bytes.

Definition poll_room (ch : Chan GhosttyResponse) (j : GhosttyReloadJob) : Polled :=
  if (capacity ch =? 0)%nat then (ch, j, false)
  else
    let j := if sat_add (start_abs j) (offset j) <? history_start_abs
             then skip_to (saturating_sub history_start_abs (start_abs j)) true j else j in
    if job_started j then poll_chunk ch j
    else match try_send (GReloadStartedV2 (job_id j) (Some (saturating_sub (end_abs j) (start_abs j)))) ch with
         | Sent ch => poll_chunk ch (set_started j)
         | Full => (ch, j, false)
         | Closed => (ch, j, true)
         end.

Definition poll_send_next (ch : Chan GhosttyResponse) (j : GhosttyReloadJob) : Polled :=
  match pending_response j with
  | Some response =>
      match try_send response ch with
      | Sent ch => poll_room ch (set_pending_response None j)
      | Full => (ch, j, false)
      | Closed => (ch, set_pending_response None j, true)
      end
  | None => poll_room ch j
  end.
End poll.

(** ** A reload while the session goes on *)

Record Reloading := { r_out : bytes; r_history : bytes; r_start : Z; r_chan : Chan GhosttyResponse; r_job : GhosttyReloadJob; r_done : bool }.

(** The process writes, the handler of the client takes a message, or the helper comes around to the job. *)
Inductive Move := Writes (l : bytes) | Takes | Polls (cut : nat).

Definition move (m : Move) (s : Reloading) : Reloading :=
  match m with
  | Writes l =>
      let '(h, dropped) := append_bounded (r_history s) l in
      {| r_out := r_out s ++ l; r_history := h; r_start := sat_add (r_start s) dropped; r_chan := r_chan s; r_job := r_job s; r_done := r_done s |}
  | Takes =>
      match recv (r_chan s) with
      | Some (_, ch) => {| r_out := r_out s; r_history := r_history s; r_start := r_start s; r_chan := ch; r_job := r_job s; r_done := r_done s |}
      | None => s
      end
  | Polls cut =>
      if r_done s then s
      else
        let '(ch, j, fin) := poll_send_next cut (r_history s) (r_start s) (r_chan s) (r_job s) in
        {| r_out := r_out s; r_history := r_history s; r_start := r_start s; r_chan := ch; r_job := j; r_done := fin |}
  end.

(** The state right after the request; [GHOSTTY_ATTACH_V2_QUEUE] is the size of the channel. *)
Definition GHOSTTY_ATTACH_V2_QUEUE : nat := 256.

Definition reload_request (reload_id generation : Z) (out history : bytes) (history_start_abs : Z) : Reloading :=
  let '(start, n, truncated) := bounded_reload_window history_start_abs history in
  {| r_out := out; r_history := history; r_start := history_start_abs; r_chan := new_chan GHOSTTY_ATTACH_V2_QUEUE;
     r_job := new_job reload_id start n generation truncated; r_done := false |}.

(** The window of a reload *)
Definition window_of (s : Reloading) : bytes := slice (r_out s) (start_abs (r_job s)) (end_abs (r_job s)).

(** The messages for the pieces of a window *)
Section messages.
Variables (id total : Z) (truncated : bool).

Fixpoint chunk_messages (s : TerminalReplaySanitizer) (k loaded : Z) (raws : list bytes) : list GhosttyResponse :=
  match raws with
  | [] => []
  | raw :: raws =>
      let loaded := loaded + len raw in
      let complete := total <=? loaded in
      let '(s, out) := feed s raw complete in
      GReloadChunkV2 id k {| loaded_bytes := loaded; total_bytes := Some total; retained_history_truncated := truncated; complete := complete |} out
      :: chunk_messages s (k + 1) loaded raws
  end.

Fixpoint chunk_state (s : TerminalReplaySanitizer) (loaded : Z) (raws : list bytes) : TerminalReplaySanitizer :=
  match raws with
  | [] => s
  | raw :: raws => chunk_state (feed s raw (total <=? loaded + len raw)).1 (loaded + len raw) raws
  end.

Lemma chunk_messages_snoc s k loaded raws raw :
  let at_ := loaded + len (concat raws) + len raw in
  chunk_messages s k loaded (raws ++ [raw]) = chunk_messages s k loaded raws ++
  [GReloadChunkV2 id (k + Z.of_nat (length raws)) {| loaded_bytes := at_; total_bytes := Some total; retained_history_truncated := truncated;
     complete := total <=? at_ |} (feed (chunk_state s loaded raws) raw (total <=? at_)).2].
Proof.
  cbv zeta. revert s k loaded. induction raws as [|r raws IH]; intros s k loaded; cbn [chunk_messages chunk_state app concat length].
  - rewrite !Z.add_0_r. by destruct (feed _ _ _).
  - destruct (feed s r _) as [s' o] eqn:Hf. cbn [fst]. rewrite IH, len_app. cbn [app].
    replace (loaded + (len r + len (concat raws)) + len raw) with (loaded + len r + len (concat raws) + len raw) by lia.
    by replace (k + Z.of_nat (S (length raws))) with (k + 1 + Z.of_nat (length raws)) by lia.
Qed.

Lemma chunk_state_snoc s loaded raws raw :
  chunk_state s loaded (raws ++ [raw]) = (feed (chunk_state s loaded raws) raw (total <=? loaded + len (concat raws) + len raw)).1.
Proof.
  revert s loaded. induction raws as [|r raws IH]; intros s loaded; cbn [chunk_state app concat]; [by rewrite Z.add_0_r |].
  rewrite IH, len_app. by replace (loaded + (len r + len (concat raws)) + len raw) with (loaded + len r + len (concat raws) + len raw) by lia.
Qed.
End messages.

(** What the chunks of a list of messages hold *)
Definition payload_of (r : GhosttyResponse) : bytes := match r with GReloadChunkV2 _ _ _ l => l | _ => [] end.
Definition payloads (l : list GhosttyResponse) : bytes := l ≫= payload_of.

Lemma payloads_app l l' : payloads (l ++ l') = payloads l ++ payloads l'.
Proof. apply bind_app. Qed.

Lemma chunk_prefix id total tr raws : ∀ s k loaded, loaded + len (concat raws) < total →
  payloads (chunk_messages id total tr s k loaded raws) = (feed_all s raws).2 ∧ chunk_state total s loaded raws = (feed_all s raws).1.
Proof.
  induction raws as [|r raws IH]; intros s k loaded Hl; [done |]. cbn [concat] in Hl. rewrite len_app in Hl. pose proof (len_nonneg (concat raws)).
  cbn [chunk_messages chunk_state feed_all]. rewrite (proj2 (Z.leb_gt _ _)) by lia. destruct (feed s r false) as [s' o].
  destruct (IH s' (k + 1) (loaded + len r) ltac:(lia)) as [Hp Hs]. cbn [fst]. destruct (feed_all s' raws) as [s'' o']. cbn in *.
  by rewrite <- Hp.
Qed.

(** The chunks of a whole window hold what sanitizing it leaves. *)
Lemma chunks_exact id tr ts window raws r : Forall token_ok ts → window ++ r = flat ts → concat raws = window → Forall (λ l, l ≠ []) raws →
  payloads (chunk_messages id (len window) tr new_sanitizer 0 0 raws) = sanitize_terminal_replay window.
Proof.
  intros Hts Hw Hc Hne. destruct raws as [|l raws _] using rev_ind; [by subst window |]. rewrite concat_app in Hc. cbn in Hc. rewrite app_nil_r in Hc.
  apply Forall_app in Hne as [_ [Hl _]%Forall_cons]. assert (0 < len l) by (destruct l; [done | unfold len; cbn; lia]).
  rewrite chunk_messages_snoc, payloads_app. assert (Hlen : len window = len (concat raws) + len l) by by rewrite <- Hc, len_app.
  destruct (chunk_prefix id (len window) tr raws new_sanitizer 0 0 ltac:(lia)) as [-> ->].
  rewrite (proj2 (Z.leb_le (len window) _)) by lia. unfold payloads. cbn [mbind list_bind payload_of]. rewrite app_nil_r.
  destruct (feed_all_spec ts raws new_sanitizer (l ++ r) Hts) as (ts1 & ts2 & -> & Ho & Hp); [cbn; by rewrite app_assoc, Hc |].
  apply Forall_app in Hts as [Hts1 _]. rewrite Ho. cbn in Hp |- *. by rewrite <- Hc, Hp, <- app_assoc, sanitize_tokens.
Qed.

Lemma try_send_room (a : GhosttyResponse) ch : ch_open ch = true → capacity ch ≠ 0%nat →
  try_send a ch = Sent {| ch_sent := ch_sent ch ++ [a]; ch_taken := ch_taken ch; ch_cap := ch_cap ch; ch_open := true |}.
Proof. intros Ho Hc. unfold try_send. rewrite Ho. cbn. by rewrite (proj2 (Nat.eqb_neq _ _)). Qed.

Lemma nonempty_length raws : Forall (λ l : bytes, l ≠ []) raws → Z.of_nat (length raws) ≤ len (concat raws).
Proof.
  induction 1 as [|l raws Hl _ IH]; [done |]. cbn [concat length]. rewrite len_app. assert (0 < len l) by (destruct l; [done | unfold len; cbn; lia]). lia.
Qed.

Lemma sat_add_small a b : a + b ≤ U64_MAX → sat_add a b = a + b.
Proof. intros H. unfold sat_add, saturating_add. lia. Qed.

Lemma move_len m s : len (r_out s) ≤ len (r_out (move m s)).
Proof.
  destruct m as [l| |cut]; cbn [move].
  - destruct (append_bounded _ _). cbn. rewrite len_app. pose proof (len_nonneg l). lia.
  - by destruct (recv _) as [[]|].
  - destruct (r_done s); [lia |]. by destruct (poll_send_next _ _ _ _ _) as [[] ?].
Qed.

Lemma moves_len ms s : len (r_out s) ≤ len (r_out (foldl (flip move) s ms)).
Proof. revert s. induction ms as [|m ms IH]; intros s; [done |]. cbn [foldl]. etrans; [apply (move_len m s) | apply IH]. Qed.

Lemma move_mono m s : 0 ≤ r_start s ≤ U64_MAX → r_start s ≤ r_start (move m s) ≤ U64_MAX.
Proof.
  intros Hs. destruct m as [l| |cut]; cbn [move].
  - unfold append_bounded. rewrite pop_excess_spec. cbn [r_start]. unfold sat_add, saturating_add. lia.
  - destruct (recv _) as [[]|]; cbn; lia.
  - destruct (r_done s); [lia |]. destruct (poll_send_next _ _ _ _ _) as [[] ?]. cbn. lia.
Qed.

Lemma moves_mono ms s : 0 ≤ r_start s ≤ U64_MAX → r_start s ≤ r_start (foldl (flip move) s ms).
Proof.
  revert s. induction ms as [|m ms IH]; intros s Hs; cbn; [lia |]. pose proof (move_mono m s Hs). change (flip move s m) with (move m s). pose proof (IH (move m s)). lia.
Qed.

Lemma done_stays ms s : r_done s = true → r_done (foldl (flip move) s ms) = true.
Proof.
  revert s. induction ms as [|m ms IH]; intros s Hd; [done |]. cbn [foldl]. apply IH. unfold flip, move. rewrite Hd. by repeat case_match.
Qed.

Section reload.
Variables (id gen start : Z) (tr : bool) (window : bytes).
Hypothesis Hstart : 0 ≤ start.
Hypothesis Hutf8 : utf8_boundary_snap_len window = length window.

Definition message_start : GhosttyResponse := GReloadStartedV2 id (Some (len window)).
Definition messages (raws : list bytes) : list GhosttyResponse := chunk_messages id (len window) tr new_sanitizer 0 0 raws.

Record framed (s : Reloading) : Prop := {
  fr_keeps : keeps_last (r_out s) (r_history s) (r_start s);
  fr_len : len (r_out s) ≤ U64_MAX;
  fr_over : r_start s ≤ start;
  fr_window : slice (r_out s) start (start + len window) = window ∧ start + len window ≤ len (r_out s);
  fr_job : job_id (r_job s) = id ∧ start_abs (r_job s) = start ∧ end_abs (r_job s) = start + len window ∧ final_generation (r_job s) = gen ∧
    job_truncated (r_job s) = tr ∧ pending_response (r_job s) = None;
  fr_chan : ch_open (r_chan s) = true ∧ ch_cap (r_chan s) = GHOSTTY_ATTACH_V2_QUEUE ∧ (ch_taken (r_chan s) ≤ length (ch_sent (r_chan s)))%nat;
}.

(** The pieces that were sent *)
Record underway (raws : list bytes) (s : Reloading) : Prop := {
  un_offset : offset (r_job s) = len (concat raws) ∧ concat raws = take (length (concat raws)) window;
  un_seq : job_seq (r_job s) = Z.of_nat (length raws) ∧ Forall (λ l, l ≠ []) raws;
  un_state : replay_sanitizer (r_job s) = chunk_state (len window) new_sanitizer 0 raws;
  un_sent : if job_started (r_job s) then ch_sent (r_chan s) = message_start :: messages raws else ch_sent (r_chan s) = [] ∧ raws = [];
}.

Definition finished (s : Reloading) : Prop :=
  ∃ raws, concat raws = window ∧ Forall (λ l, l ≠ []) raws ∧ ch_sent (r_chan s) = message_start :: messages raws ++ [GReloadDoneV2 id gen].

Definition reload_inv (s : Reloading) : Prop := framed s ∧ if r_done s then finished s else ∃ raws, underway raws s.

(** A chunk that is not the last is at most a cut character short of 64 KiB. *)
Definition CHUNK_MIN : Z := GHOSTTY_ATTACH_V2_HISTORY_CHUNK - 3.

(** The bytes of the next chunk *)
Lemma next_raw s raws cut : framed s → underway raws s → len (concat raws) < len window →
  let current := start + len (concat raws) in
  let n := Z.min (Z.min (start + len window - current) (r_start s + len (r_history s) - current)) GHOSTTY_ATTACH_V2_HISTORY_CHUNK in
  r_start s + len (r_history s) = len (r_out s) ∧ 0 < n ∧
  ∃ m, (0 < m)%nat ∧ vec_deque_chunk cut (r_history s) (current - r_start s) n = take m (drop (length (concat raws)) window) ∧
    (length (concat raws) + m ≤ length window)%nat ∧ Z.min (len window) (len (concat raws) + CHUNK_MIN) ≤ len (concat raws) + Z.of_nat m.
Proof.
  intros [(H0 & Hh & Hs) Hlen Hov [Hw Hend] _ _] [[Ho Hc] _ _ _] Hlt current n. pose proof (len_nonneg (concat raws)) as Hnn.
  assert (Hle : r_start s ≤ len (r_out s)) by (pose proof (len_nonneg (r_out s)); unfold MAX_HISTORY_BYTES in Hs; lia).
  assert (Hhl : r_start s + len (r_history s) = len (r_out s)) by (rewrite Hh, len_drop; lia).
  split; [done |]. assert (Hn : n = Z.min (len window - len (concat raws)) GHOSTTY_ATTACH_V2_HISTORY_CHUNK) by (unfold n, current; rewrite Hhl; lia).
  clearbody n. split; [unfold GHOSTTY_ATTACH_V2_HISTORY_CHUNK in Hn; lia |].
  unfold vec_deque_chunk. cbv zeta. rewrite deque_slice_spec by (unfold current; unfold GHOSTTY_ATTACH_V2_HISTORY_CHUNK in Hn; lia).
  assert (Hsl : take (Z.to_nat n) (drop (Z.to_nat (current - r_start s)) (r_history s)) = take (Z.to_nat n) (drop (length (concat raws)) window)).
  { rewrite Hh, drop_drop. rewrite <- Hw at 1. unfold slice. rewrite skipn_firstn_comm, drop_drop, take_take. unfold current, len in *. f_equal; [lia |]. f_equal. lia. }
  rewrite Hsl. set (w := drop (length (concat raws)) window). assert (Hwl : length w = (length window - length (concat raws))%nat) by (unfold w; by rewrite length_drop).
  set (p := take (Z.to_nat n) w). assert (Hpl : length p = Z.to_nat n) by (unfold p; rewrite length_take; unfold len in *; lia).
  exists (utf8_boundary_snap_len p). pose proof (snap_le p) as Hsp. split_and!.
  - destruct (Z.le_gt_cases (len window - len (concat raws)) GHOSTTY_ATTACH_V2_HISTORY_CHUNK) as [Hb|Hb].
    + assert (p = w) as -> by (unfold p; apply take_ge; unfold len in *; lia). unfold w. rewrite snap_suffix by done. fold w. unfold len in *. lia.
    + apply snap_pos. rewrite Hpl. unfold GHOSTTY_ATTACH_V2_HISTORY_CHUNK in *. lia.
  - unfold p. rewrite take_take. f_equal. fold p. lia.
  - unfold len in *. lia.
  - destruct (Z.le_gt_cases (len window - len (concat raws)) GHOSTTY_ATTACH_V2_HISTORY_CHUNK) as [Hb|Hb].
    + assert (p = w) as -> by (unfold p; apply take_ge; unfold len in *; lia). unfold w. rewrite snap_suffix by done. fold w. unfold len in *. lia.
    + pose proof (snap_close p). unfold CHUNK_MIN, GHOSTTY_ATTACH_V2_HISTORY_CHUNK in *. unfold len in *. lia.
Qed.

Definition with_poll (s : Reloading) (p : Polled) : Reloading :=
  {| r_out := r_out s; r_history := r_history s; r_start := r_start s; r_chan := p.1.1; r_job := p.1.2; r_done := p.2 |}.

Lemma framed_poll s ch j fin : framed s → job_id j = id → start_abs j = start → end_abs j = start + len window → final_generation j = gen →
  job_truncated j = tr → pending_response j = None → ch_open ch = true → ch_cap ch = GHOSTTY_ATTACH_V2_QUEUE →
  (ch_taken ch ≤ length (ch_sent ch))%nat → framed (with_poll s (ch, j, fin)).
Proof. intros [] ?????????. by split. Qed.

Lemma send_step s raws raw : framed s → underway raws s → job_started (r_job s) = true → capacity (r_chan s) ≠ 0%nat → raw ≠ [] →
  concat (raws ++ [raw]) = take (length (concat (raws ++ [raw]))) window →
  let p := send_chunk (r_chan s) (r_job s) raw in reload_inv (with_poll s p) ∧ offset p.1.2 = offset (r_job s) + len raw.
Proof.
  intros Hf Hu Hst Hcap Hraw Hcr. pose proof Hf as [_ Hlen Hov [_ Hend] (Hid & Hs & He & Hg & Ht & Hp) (Hop & Hcp & Htk)].
  pose proof Hu as [[Ho Hc] [Hsq Hne] Hsan Hsent]. rewrite Hst in Hsent. pose proof (len_nonneg (concat raws)) as Hnn.
  assert (Hcl : len (concat (raws ++ [raw])) = len (concat raws) + len raw) by (rewrite concat_app; cbn; by rewrite app_nil_r, len_app).
  assert (Hle : len (concat raws) + len raw ≤ len window) by (rewrite <- Hcl; unfold len; rewrite Hcr, length_take; lia).
  assert (Hpos : 0 < len raw) by (destruct raw; [done | unfold len; cbn; lia]).
  assert (Hne' : Forall (λ l, l ≠ []) (raws ++ [raw])) by (apply Forall_app; split; [done | by repeat constructor]).
  assert (Hk : Z.of_nat (length raws) + 1 ≤ U64_MAX) by (pose proof (nonempty_length raws Hne); lia).
  unfold send_chunk. rewrite Hs, He, Ho, Hid, Ht, Hsq, Hsan, !(sat_add_small (len (concat raws))), sat_add_small by lia. cbv zeta.
  assert ((start + len window <=? start + (len (concat raws) + len raw)) = (len window <=? 0 + len (concat raws) + len raw)) as -> by lia.
  assert (saturating_sub (start + len window) start = len window) as -> by (unfold saturating_sub; pose proof (len_nonneg window); lia).
  destruct (feed _ raw _) as [san out] eqn:Hfeed. rewrite try_send_room by done. cbn [fst snd]. unfold bracket_reload_replay_chunk.
  split; [| cbn; lia]. split; [apply framed_poll; cbn; rewrite ?length_app; try done; lia |]. exists (raws ++ [raw]). split; cbn.
  - split; [lia | done].
  - rewrite Hsq, length_app. cbn. split; [unfold saturating_add; lia | done].
  - by rewrite chunk_state_snoc, Hfeed.
  - rewrite Hst, Hsent. unfold messages. rewrite chunk_messages_snoc, Hfeed. cbn. by replace (len (concat raws) + len raw) with (0 + len (concat raws) + len raw) by lia.
Qed.

Lemma chunk_step cut s raws : framed s → underway raws s → job_started (r_job s) = true → capacity (r_chan s) ≠ 0%nat →
  let p := poll_chunk cut (r_history s) (r_start s) (r_chan s) (r_job s) in
  reload_inv (with_poll s p) ∧ (p.2 = true ∨ offset (r_job s) < len window ∧ Z.min (len window) (offset (r_job s) + CHUNK_MIN) ≤ offset p.1.2).
Proof.
  intros Hf Hu Hst Hcap p. assert (Hpe : p = poll_chunk cut (r_history s) (r_start s) (r_chan s) (r_job s)) by done. clearbody p.
  pose proof Hf as [_ Hlen Hov [_ Hend] (Hid & Hs & He & Hg & Ht & Hp) (Hop & Hcp & Htk)].
  pose proof Hu as [[Ho Hc] [Hsq Hne] Hsan Hsent]. rewrite Hst in Hsent. pose proof (len_nonneg (concat raws)) as Hnn.
  assert (Hle : len (concat raws) ≤ len window) by (unfold len; rewrite Hc, length_take; lia).
  unfold poll_chunk in Hpe. rewrite Hs, He, Ho, sat_add_small in Hpe by lia. cbv zeta in Hpe.
  destruct (Z.leb_spec (start + len window) (start + len (concat raws))) as [Hfin|Hlt].
  - rewrite try_send_room in Hpe by done. subst p. split; [| by left]. split; [apply framed_poll; cbn; rewrite ?length_app; try done; lia |].
    exists raws. cbn. assert (concat raws = window) as -> by (rewrite Hc; apply take_ge; unfold len in *; lia). by rewrite Hsent, Hid, Hg.
  - destruct (next_raw s raws cut Hf Hu ltac:(lia)) as (Hav & Hn & m & Hm & Hraw & Hml & Hmin). unfold saturating_sub in Hpe.
    rewrite (sat_add_small (r_start s)), (proj2 (Z.leb_gt (r_start s + len (r_history s)) _)) in Hpe by (rewrite Hav; lia).
    rewrite !(Z.max_r 0) in Hpe by (rewrite ?Hav; lia). set (n := Z.min _ GHOSTTY_ATTACH_V2_HISTORY_CHUNK) in *.
    rewrite (Z.min_l (_ - r_start s)), Hraw in Hpe by lia. set (raw := take m _) in *.
    assert (Hrl : length raw = m) by (unfold raw; rewrite length_take, length_drop; lia).
    rewrite (proj2 (Z.eqb_neq n 0)), bool_decide_false in Hpe by (try lia; intros Hr; rewrite Hr in Hrl; cbn in Hrl; lia).
    assert (Hcr : concat (raws ++ [raw]) = take (length (concat raws) + m) window).
    { rewrite concat_app. cbn. rewrite app_nil_r. rewrite Hc at 1. unfold raw. by rewrite take_take_drop. }
    assert (Hcl : length (concat (raws ++ [raw])) = (length (concat raws) + m)%nat) by (rewrite Hcr, length_take; lia).
    destruct (send_step s raws raw) as [H1 H2]; try done; [intros Hr; rewrite Hr in Hrl; cbn in Hrl; lia | by rewrite Hcl |].
    subst p. split; [exact H1 |]. right. rewrite H2, Ho. assert (len raw = Z.of_nat m) as -> by (unfold len; by rewrite Hrl). lia.
Qed.

Lemma poll_step cut s : reload_inv s → r_done s = false → let s' := move (Polls cut) s in
  reload_inv s' ∧ (capacity (r_chan s) ≠ 0%nat → r_done s' = true ∨ offset (r_job s) < len window ∧
    Z.min (len window) (offset (r_job s) + CHUNK_MIN) ≤ offset (r_job s')).
Proof.
  intros [Hf Hi] Hd. rewrite Hd in Hi. destruct Hi as [raws Hu]. cbv zeta.
  assert (Hmove : move (Polls cut) s = with_poll s (poll_send_next cut (r_history s) (r_start s) (r_chan s) (r_job s))).
  { unfold move. rewrite Hd. by destruct (poll_send_next _ _ _ _ _) as [[ch j] fin]. }
  rewrite Hmove. pose proof Hf as [_ Hlen Hov [_ Hend] (Hid & Hs & He & Hg & Ht & Hp) (Hop & Hcp & Htk)].
  pose proof Hu as [[Ho Hc] _ _ Hsent]. pose proof (len_nonneg (concat raws)) as Hnn.
  assert (Hle : len (concat raws) ≤ len window) by (unfold len; rewrite Hc, length_take; lia).
  unfold poll_send_next. rewrite Hp. unfold poll_room. destruct (Nat.eqb_spec (capacity (r_chan s)) 0) as [Hz|Hcap].
  { split; [| done]. split; [by apply framed_poll |]. exists raws. destruct Hu. by split. }
  rewrite Hs, Ho, sat_add_small, (proj2 (Z.ltb_ge _ _)) by lia. destruct (job_started (r_job s)) eqn:Hst.
  - destruct (chunk_step cut s raws Hf Hu Hst Hcap) as [H1 H2]. rewrite Ho in H2. split; [exact H1 | intros _; exact H2].
  - rewrite try_send_room by done. destruct Hsent as [Hsent ->]. rewrite Hsent in *.
    assert (Hs1 : framed (with_poll s ({| ch_sent := [message_start]; ch_taken := ch_taken (r_chan s); ch_cap := ch_cap (r_chan s); ch_open := true |}, set_started (r_job s), false)))
      by (apply framed_poll; cbn in *; try done; lia).
    rewrite Hid, Hs, He. assert (saturating_sub (start + len window) start = len window) as -> by (unfold saturating_sub; pose proof (len_nonneg window); lia).
    destruct (chunk_step cut _ [] Hs1) as [H1 H2]; [destruct Hu; by split | done | cbn in *; unfold capacity, queued; cbn; rewrite Hcp; unfold GHOSTTY_ATTACH_V2_QUEUE; lia |].
    split; [exact H1 |]. intros _. rewrite <- Ho. exact H2.
Qed.

Lemma writes_step l s : reload_inv s → len (r_out s ++ l) ≤ U64_MAX → r_start (move (Writes l) s) ≤ start → reload_inv (move (Writes l) s).
Proof.
  intros [[Hk Hlen Hov [Hw Hend] Hj Hch] Hi] Hu. unfold move. pose proof (append_keeps_last _ _ _ l Hk) as Hk'.
  destruct (append_bounded (r_history s) l) as [h d]. cbn [fst snd] in Hk'. pose proof Hk' as (_ & _ & Hs'). pose proof (len_nonneg (r_out s ++ l)).
  rewrite sat_add_small by (unfold MAX_HISTORY_BYTES in Hs'; unfold U64_MAX in *; lia). cbn. intros Hst.
  split; [| cbn; destruct (r_done s); [exact Hi | destruct Hi as [raws []]; by exists raws]].
  rewrite len_app in *. pose proof (len_nonneg l). split; cbn; [done | rewrite len_app; lia | done | | done | done]. rewrite len_app. split; [| lia].
  rewrite <- Hw at 2. unfold slice. unfold len in *. rewrite drop_app_le, take_app_le by (rewrite ?length_drop; lia). done.
Qed.

Lemma takes_step s : reload_inv s → reload_inv (move Takes s).
Proof.
  intros [Hf Hi]. unfold move, recv. destruct (ch_sent (r_chan s) !! ch_taken (r_chan s)) as [a|] eqn:Hl; [| by split].
  apply lookup_lt_Some in Hl. destruct Hf as [? ? ? ? ? (? & ? & ?)]. split; [split; cbn; try done; split_and!; try done; lia |]. cbn.
  destruct (r_done s); [exact Hi | destruct Hi as [raws []]; by exists raws].
Qed.

Lemma poll_full cut s : reload_inv s → r_done s = false → capacity (r_chan s) = 0%nat → move (Polls cut) s = s.
Proof.
  intros [[_ _ _ _ (_ & _ & _ & _ & _ & Hp) _] _] Hd Hc. unfold move. rewrite Hd. unfold poll_send_next, poll_room. rewrite Hp, Hc. cbn. by destruct s; cbn in *; subst.
Qed.

(** How often the helper came around to the job while its channel had room *)
Fixpoint polls_with_room (s : Reloading) (ms : list Move) : nat :=
  match ms with
  | [] => 0
  | m :: ms => (match m with Polls _ => if (capacity (r_chan s) =? 0)%nat then 0 else 1 | _ => 0 end + polls_with_room (move m s) ms)%nat
  end.

Lemma reload_run ms s : reload_inv s → let s' := foldl (flip move) s ms in
  len (r_out s') ≤ U64_MAX → r_start s' ≤ start → reload_inv s' ∧
  (r_done s' = true ∨ polls_with_room s ms = 0%nat ∨ offset (r_job s) + CHUNK_MIN * (Z.of_nat (polls_with_room s ms) - 1) < len window).
Proof.
  cbv zeta. revert s. induction ms as [|m ms IH]; intros s Hi Hlen Hov.
  - cbn [foldl polls_with_room]. split; [done |]. right. by left.
  - cbn [foldl polls_with_room] in *.
    assert (Hr : 0 ≤ r_start s ≤ U64_MAX).
    { destruct Hi as [[(? & _ & Hs) Hu _ _ _ _] _]. pose proof (len_nonneg (r_out s)). unfold MAX_HISTORY_BYTES in Hs. lia. }
    pose proof (move_mono m s Hr) as Hm1. pose proof (moves_mono ms (move m s) ltac:(lia)) as Hn1. pose proof (moves_len ms (move m s)) as Hn2. change (flip move s m) with (move m s) in *.
    destruct m as [l| |cut].
    + destruct (IH (move (Writes l) s)) as [H1 H2]; [apply writes_step; [done | | lia] | done | done |].
      { assert (r_out (move (Writes l) s) = r_out s ++ l) as <- by (cbn [move]; by destruct (append_bounded _ _)). lia. }
      split; [done |]. revert H2. cbn [move]. by destruct (append_bounded (r_history s) l).
    + destruct (IH (move Takes s)) as [H1 H2]; [by apply takes_step | done | done |]. split; [done |]. revert H2. cbn [move]. by destruct (recv _) as [[]|].
    + destruct (r_done s) eqn:Hd.
      { assert (move (Polls cut) s = s) as Hm by (unfold move; by rewrite Hd). rewrite Hm in *. destruct (IH s Hi Hlen Hov) as [H1 _].
        split; [done |]. left. by apply done_stays. }
      destruct (Nat.eqb_spec (capacity (r_chan s)) 0) as [Hc|Hc].
      { pose proof (poll_full cut s Hi Hd Hc) as Hm. rewrite Hm in *. apply (IH s Hi Hlen Hov). }
      destruct (poll_step cut s Hi Hd) as [Hi' Hp]. specialize (Hp Hc). destruct (IH (move (Polls cut) s) Hi' Hlen Hov) as [H1 H2]. split; [done |].
      destruct Hp as [Hp | [Hp1 Hp2]]; [left; by apply done_stays |]. destruct H2 as [H2 | H2]; [by left |]. right; right.
      destruct H2 as [H2 | H2]; unfold CHUNK_MIN, GHOSTTY_ATTACH_V2_HISTORY_CHUNK in *; lia.
Qed.
End reload.

(** ** Theorems *)

Lemma request_inv id gen out history hsa : keeps_last out history hsa → len out ≤ U64_MAX →
  let s0 := reload_request id gen out history hsa in
  let start := start_abs (r_job s0) in
  reload_inv id gen start (job_truncated (r_job s0)) (window_of s0) s0 ∧ hsa ≤ start ∧ offset (r_job s0) = 0 ∧
  len (window_of s0) ≤ GHOSTTY_ATTACH_V2_RELOAD_MAX_BYTES ∧ start + len (window_of s0) = len out.
Proof.
  intros Hk Hlen. pose proof Hk as (H0 & Hh & Hs). pose proof (len_nonneg out) as Hnn.
  assert (Hle : hsa ≤ len out) by (unfold MAX_HISTORY_BYTES in Hs; lia). assert (Hhl : len history = len out - hsa) by (rewrite Hh, len_drop; lia).
  unfold reload_request, bounded_reload_window. set (w := drop_continuations _).
  assert (Hw : 0 ≤ len w ≤ Z.min (len history) GHOSTTY_ATTACH_V2_RELOAD_MAX_BYTES).
  { split; [apply len_nonneg |]. unfold w. destruct (drop_continuations_suffix (last_bytes (Z.min (len history) GHOSTTY_ATTACH_V2_RELOAD_MAX_BYTES) history)) as (n & _ & ->).
    pose proof (last_bytes_len (Z.min (len history) GHOSTTY_ATTACH_V2_RELOAD_MAX_BYTES) history ltac:(unfold GHOSTTY_ATTACH_V2_RELOAD_MAX_BYTES; lia)) as Hl.
    unfold len in Hl |- *. rewrite length_drop. lia. }
  clearbody w. cbv zeta. unfold saturating_sub, window_of. cbn [r_job r_out r_start start_abs end_abs offset new_job job_truncated].
  unfold saturating_add. rewrite !(Z.max_r 0), !(Z.min_r U64_MAX) by lia.
  set (start := hsa + (len history - len w)). assert (Hstart : start + len w = len out) by lia.
  replace (start + (len history - (len history - len w))) with (len out) by lia.
  assert (Hwl : len (slice out start (len out)) = len w) by (unfold slice; rewrite len_take, len_drop; lia).
  rewrite Hwl. split; [| unfold start; split_and!; try lia; done]. split.
  - split; cbn; [done | done | unfold start; lia | | | done].
    + rewrite Hwl, Hstart. split; [done | lia].
    + rewrite Hwl. unfold saturating_add, start. split_and!; [done | lia | lia | done | done | done].
  - exists []. by split.
Qed.

(** C34: a reload sends exactly its window: when the history is not overrun meanwhile, the window ends with a whole
    character and has whole escape sequences but for the last, then the client is sent the start, the window as sanitizing
    it leaves it, and the end; and 18 times that the helper comes around to the job suffice. *)
Theorem reload_exact id gen out history hsa ms ts r : keeps_last out history hsa →
  let s0 := reload_request id gen out history hsa in
  let s := foldl (flip move) s0 ms in
  let window := window_of s0 in
  len (r_out s) ≤ U64_MAX → r_start s ≤ start_abs (r_job s0) → utf8_boundary_snap_len window = length window →
  Forall token_ok ts → window ++ r = flat ts →
  ((18 ≤ polls_with_room s0 ms)%nat → r_done s = true) ∧
  (r_done s = true → ∃ chunks, ch_sent (r_chan s) = GReloadStartedV2 id (Some (len window)) :: chunks ++ [GReloadDoneV2 id gen] ∧
    payloads chunks = sanitize_terminal_replay window).
Proof.
  intros Hk s0 s window Hlen Hov Hu Hts Hw. assert (Hout : len out ≤ U64_MAX).
  { pose proof (moves_len ms s0) as Hm. fold s in Hm. assert (r_out s0 = out) as Ho by (unfold s0, reload_request; by destruct (bounded_reload_window hsa history) as [[] ?]).
    rewrite Ho in Hm. lia. }
  destruct (request_inv id gen out history hsa Hk Hout) as (Hi & Hst & Hoff & Hmax & _). fold s0 in Hi, Hst, Hoff, Hmax. fold window in Hi, Hmax.
  assert (Hstart : 0 ≤ start_abs (r_job s0)) by (destruct Hk; lia).
  destruct (reload_run id gen _ _ window Hstart Hu ms s0 Hi Hlen Hov) as [[_ Hfin] Hp]. fold s in Hfin, Hp. split.
  - intros Hn. destruct Hp as [Hp | [Hp | Hp]]; [done | lia |]. rewrite Hoff in Hp.
    unfold CHUNK_MIN, GHOSTTY_ATTACH_V2_HISTORY_CHUNK, GHOSTTY_ATTACH_V2_RELOAD_MAX_BYTES in *. lia.
  - intros Hd. rewrite Hd in Hfin. destruct Hfin as (raws & Hc & Hne & Hsent). exists (messages id (job_truncated (r_job s0)) window raws).
    split; [done |]. by apply (chunks_exact id _ ts window raws r).
Qed.

Module Demo.

(** Two letters are reloaded while a third is written. *)
Definition requested : Reloading := reload_request 1 5 [104; 105] [104; 105] 0.
Definition moves : list Move := [Polls 1; Writes [33]; Takes; Polls 0].

Definition reloaded : Reloading := Eval vm_compute in foldl (flip move) requested moves.

Lemma requested_reloaded : foldl (flip move) requested moves = reloaded.
Proof. by_vm. Qed.

Lemma requested_window : start_abs (r_job requested) = 0 ∧ window_of requested = [104; 105].
Proof. split; by_vm. Qed.

Lemma reload_exact_witness : ∃ chunks,
  ch_sent (r_chan reloaded) = GReloadStartedV2 1 (Some 2) :: chunks ++ [GReloadDoneV2 1 5] ∧ payloads chunks = sanitize_terminal_replay [104; 105].
Proof.
  assert (Hk : keeps_last [104; 105] [104; 105] 0) by done.
  assert (Ht : Forall token_ok [Byte 104; Byte 105]) by by repeat constructor.
  pose proof (reload_exact 1 5 [104; 105] [104; 105] 0 moves [Byte 104; Byte 105] [] Hk) as H. cbv zeta in H. fold requested in H.
  rewrite requested_reloaded, (proj1 requested_window), (proj2 requested_window) in H. destruct H as [_ H]; [done | done | done | exact Ht | done |].
  exact (H eq_refl).
Defined.
End Demo.
