(* ===== verification/GhosttyView.v ===== *)
(** * The screen of a ghostty session

    crates/portl-agent/src/session_handler/ghostty.rs, [render_viewport_snapshot]: the screen of the
    session's terminal as output that draws it.  What the terminal library knows of the screen is
    a [View]; it has none when one of the library's functions fails.  The output is built of the
    pieces [Ink], in the order in which the code appends them. *)

From stdpp Require Import strings.
From S2P Require Import Prelude Bytes Text Terminal.

(** ** What the library has *)

Inductive Underline := NoUnderline | Single | Double | Curly | Dotted | Dashed.

Record Style := {
  style_default : bool; bold : bool; faint : bool; italic : bool; underline : Underline; blink : bool; inverse : bool; invisible : bool;
  strikethrough : bool; overline : bool;
}.

(** The characters of a cell are given by their encodings. *)
Record Cell := { style : Style; fg_color : option (Z * Z * Z); bg_color : option (Z * Z * Z); graphemes : list bytes }.

Record View := {
  alternate_screen : bool; view_rows : Z; lines : list (list Cell); wraparound : option bool; cursor_viewport : option (Z * Z); cursor_visible : bool;
}.

(** ** The output *)

Inductive Ink := Mode (l : bytes) | Sgr (codes : bytes) | Draw (l : bytes) | MoveTo (row column : Z) | EraseLine.

Definition ink_bytes (i : Ink) : bytes :=
  match i with
  | Mode l => ESC :: 91 :: l
  | Sgr codes => ESC :: 91 :: codes ++ [109]
  | Draw l => l
  | MoveTo row column => ESC :: 91 :: str_bytes (dec row) ++ 59 :: str_bytes (dec column) ++ [72]
  | EraseLine => [ESC; 91; 75]
  end.

Definition RESET : bytes := [48].

Definition rgb (kind : string) (c : Z * Z * Z) : string := kind +:+ ";2;" +:+ dec c.1.1 +:+ ";" +:+ dec c.1.2 +:+ ";" +:+ dec c.2.

Definition cell_codes (s : Style) (fg bg : option (Z * Z * Z)) : list string :=
  ["0"] ++ (if bold s then ["1"] else []) ++ (if faint s then ["2"] else []) ++ (if italic s then ["3"] else []) ++
  match underline s with
  | Single => ["4"] | Double => ["21"] | Curly => ["4:3"] | Dotted => ["4:4"] | Dashed => ["4:5"] | NoUnderline => []
  end ++ (if blink s then ["5"] else []) ++ (if inverse s then ["7"] else []) ++ (if strikethrough s then ["9"] else []) ++
  (if overline s then ["53"] else []) ++ match fg with Some c => [rgb "38" c] | None => [] end ++ match bg with Some c => [rgb "48" c] | None => [] end.

Definition push_cell_sgr (s : Style) (fg bg : option (Z * Z * Z)) : Ink := Sgr (str_bytes (String.concat ";" (cell_codes s fg bg))).

Definition is_styled (c : Cell) : bool :=
  negb (style_default (style c)) || bool_decide (fg_color c ≠ None) || bool_decide (bg_color c ≠ None).

Definition cell_text (c : Cell) : bytes := if bool_decide (graphemes c = []) || invisible (style c) then [32] else concat (graphemes c).

(** The loop over the cells of a row; [styled_active] before and after *)
Fixpoint render_cells (styled_active : bool) (cells : list Cell) : list Ink * bool :=
  match cells with
  | [] => ([], styled_active)
  | c :: cells =>
      let '(pen, styled_active) :=
        if is_styled c then ([push_cell_sgr (style c) (fg_color c) (bg_color c)], true)
        else if styled_active then ([Sgr RESET], false) else ([], false) in
      let '(rest, styled_active) := render_cells styled_active cells in
      (pen ++ Draw (cell_text c) :: rest, styled_active)
  end.

Definition push_viewport_row_prefix (row_index : Z) : Ink := MoveTo (saturating_add U16_MAX row_index 1) 1.

Fixpoint render_rows (rows row_index : Z) (styled_active : bool) (l : list (list Cell)) : list Ink :=
  match l with
  | [] => []
  | cells :: l =>
      let '(row, styled_active) := render_cells styled_active cells in
      let next := saturating_add U16_MAX row_index 1 in
      push_viewport_row_prefix row_index :: row ++ (if styled_active then [Sgr RESET] else []) ++ EraseLine ::
      (if rows <=? next then [] else render_rows rows next false l)
  end.

Definition render_inks (v : View) : list Ink :=
  [Mode (str_bytes (if alternate_screen v then "?1049h" else "?1049l")); Mode (str_bytes "?25l"); Mode (str_bytes "?7l"); Sgr RESET; Mode (str_bytes "2J"); Mode (str_bytes "H")] ++
  render_rows (view_rows v) 0 false (lines v) ++
  [Sgr RESET; Mode (str_bytes (if default true (wraparound v) then "?7h" else "?7l"))] ++
  match cursor_viewport v with Some (x, y) => [MoveTo (saturating_add U16_MAX y 1) (saturating_add U16_MAX x 1)] | None => [] end ++
  [Mode (str_bytes (if cursor_visible v then "?25h" else "?25l"))].

Definition render_viewport_snapshot (v : option View) : option bytes := (λ v, render_inks v ≫= ink_bytes) <$> v.

(** ** What it draws *)

(** A terminal that is drawn on: the row and the pen; what is drawn is noted with both. *)
Record Pen := { pen_row : Z; pen_sgr : bytes }.

Definition ink_step (i : Ink) (p : Pen) : Pen * list (Z * bytes * bytes) :=
  match i with
  | Mode _ | EraseLine => (p, [])
  | Sgr codes => ({| pen_row := pen_row p; pen_sgr := codes |}, [])
  | Draw l => (p, [(pen_row p, pen_sgr p, l)])
  | MoveTo row _ => ({| pen_row := row; pen_sgr := pen_sgr p |}, [])
  end.

Fixpoint drawn (l : list Ink) (p : Pen) : list (Z * bytes * bytes) * Pen :=
  match l with
  | [] => ([], p)
  | i :: l => let '(p, d) := ink_step i p in let '(rest, p) := drawn l p in (d ++ rest, p)
  end.

(** The pen a cell is drawn with *)
Definition cell_pen (c : Cell) : bytes :=
  if is_styled c then str_bytes (String.concat ";" (cell_codes (style c) (fg_color c) (bg_color c))) else RESET.

Definition row_cells (row : Z) (cells : list Cell) : list (Z * bytes * bytes) := (λ c, (row, cell_pen c, cell_text c)) <$> cells.

Fixpoint screen_cells (row : Z) (l : list (list Cell)) : list (Z * bytes * bytes) :=
  match l with [] => [] | cells :: l => row_cells row cells ++ screen_cells (row + 1) l end.

Lemma drawn_app l l' p : drawn (l ++ l') p = ((drawn l p).1 ++ (drawn l' (drawn l p).2).1, (drawn l' (drawn l p).2).2).
Proof.
  revert p. induction l as [|i l IH]; intros p; cbn; [by destruct (drawn l' p) |]. destruct (ink_step i p) as [p' d]. rewrite IH.
  destruct (drawn l p') as [d' p'']. cbn. by rewrite app_assoc.
Qed.

Lemma render_cells_drawn cells : ∀ b row sgr, (b = false → sgr = RESET) →
  let '(inks, b') := render_cells b cells in
  (drawn inks {| pen_row := row; pen_sgr := sgr |}).1 = row_cells row cells ∧
  ∃ sgr', (drawn inks {| pen_row := row; pen_sgr := sgr |}).2 = {| pen_row := row; pen_sgr := sgr' |} ∧ (b' = false → sgr' = RESET).
Proof.
  induction cells as [|c cells IH]; intros b row sgr Hb; cbn; [by split; [done | exists sgr] |].
  unfold cell_pen. destruct (is_styled c).
  - pose proof (IH true row (str_bytes (String.concat ";" (cell_codes (style c) (fg_color c) (bg_color c)))) ltac:(done)) as H.
    destruct (render_cells true cells) as [inks b']. destruct H as (H1 & sgr' & H2 & H3). cbn. destruct (drawn inks _) as [d p]. cbn in *. subst d.
    split; [done | by exists sgr'].
  - pose proof (IH false row RESET ltac:(done)) as H. destruct (render_cells false cells) as [inks b'] eqn:E. destruct H as (H1 & sgr' & H2 & H3).
    destruct b; rewrite ?E; cbn; [| rewrite Hb by done]; destruct (drawn inks _) as [d p]; cbn in *; subst d; (split; [done | by exists sgr']).
Qed.

Lemma render_rows_drawn rows l : ∀ i row, 0 ≤ i → i < rows → rows ≤ U16_MAX →
  (drawn (render_rows rows i false l) {| pen_row := row; pen_sgr := RESET |}).1 = screen_cells (i + 1) (take (Z.to_nat (rows - i)) l) ∧
  ∃ row', (drawn (render_rows rows i false l) {| pen_row := row; pen_sgr := RESET |}).2 = {| pen_row := row'; pen_sgr := RESET |}.
Proof.
  induction l as [|cells l IH]; intros i row Hi Hr Hm; [rewrite take_nil; by split; [| exists row] |]. cbn [render_rows].
  assert (saturating_add U16_MAX i 1 = i + 1) as Hsat by (unfold saturating_add; lia).
  pose proof (render_cells_drawn cells false (i + 1) RESET ltac:(done)) as H. destruct (render_cells false cells) as [inks b]. destruct H as (H1 & sgr & H2 & H3).
  replace (Z.to_nat (rows - i)) with (S (Z.to_nat (rows - (i + 1)))) by lia. cbn [take screen_cells]. rewrite Hsat.
  unfold push_viewport_row_prefix. rewrite Hsat. cbn [drawn ink_step pen_sgr]. rewrite !drawn_app, H2. cbn [fst snd]. rewrite H1.
  assert (Hreset : drawn (if b then [Sgr RESET] else []) {| pen_row := i + 1; pen_sgr := sgr |} = ([], {| pen_row := i + 1; pen_sgr := RESET |}))
    by (destruct b; [done | by rewrite (H3 eq_refl)]).
  rewrite Hreset. cbn [fst snd drawn ink_step app].
  destruct (Z.leb_spec rows (i + 1)) as [Hl|Hl].
  - replace (Z.to_nat (rows - (i + 1))) with 0%nat by lia. cbn. split; [done | by exists (i + 1)].
  - destruct (IH (i + 1) (i + 1) ltac:(lia) Hl Hm) as (H4 & row' & H5). destruct (drawn (render_rows _ _ _ _) _) as [d p]. cbn in *. subst d p.
    split; [done | by exists row'].
Qed.

(** The snapshot draws every cell of the screen in its row, with its own colours and style and with no other, and
    leaves the pen reset. *)
Theorem view_drawn v row sgr : 0 < view_rows v ≤ U16_MAX →
  (drawn (render_inks v) {| pen_row := row; pen_sgr := sgr |}).1 = screen_cells 1 (take (Z.to_nat (view_rows v)) (lines v)) ∧
  pen_sgr (drawn (render_inks v) {| pen_row := row; pen_sgr := sgr |}).2 = RESET.
Proof.
  intros Hr. unfold render_inks. rewrite !drawn_app. cbn [drawn ink_step fst snd app pen_row].
  destruct (render_rows_drawn (view_rows v) (lines v) 0 row ltac:(lia) ltac:(lia) ltac:(lia)) as (H1 & row' & H2). rewrite H1, H2, Z.sub_0_r.
  destruct (cursor_viewport v) as [[x y]|]; cbn; rewrite !app_nil_r; done.
Qed.

Module Demo.
Definition styled (b : bool) : Style := {| style_default := negb b; bold := b; faint := false; italic := false; underline := NoUnderline; blink := false;
  inverse := false; invisible := false; strikethrough := false; overline := false |}.
Definition letter (b : Z) (in_bold : bool) : Cell := {| style := styled in_bold; fg_color := None; bg_color := None; graphemes := [[b]] |}.
Definition screen : View := {| alternate_screen := false; view_rows := 2; lines := [[letter 104 true; letter 105 false]; [letter 33 false]];
  wraparound := None; cursor_viewport := Some (1, 1); cursor_visible := true |}.

Lemma view_drawn_witness : (drawn (render_inks screen) {| pen_row := 7; pen_sgr := [49] |}).1 =
  [(1, str_bytes "0;1", [104]); (1, RESET, [105]); (2, RESET, [33])].
Proof. destruct (view_drawn screen 7 [49]) as [H _]; [cbn; unfold U16_MAX; lia |]. rewrite H. reflexivity. Defined.
End Demo.
