(* ===== verification/GhosttyHelper.v ===== *)
(** * The helper of a ghostty session

    crates/portl-agent/src/session_handler/ghostty.rs, [run_helper]: one task owns the
    pseudo-terminal of a session, its terminal emulator and its history, and serves the clients:
    it reads what the process writes, hands it on to those who are attached, and answers their
    commands.  One turn of its loop is [helper_turn].  The terminal emulator is a library: what it
    does is a record of functions.  The sender of a channel lives in the record of the
    subscriber or job it belongs to; one that is dropped stays in a list of its own, so that what
    was sent on it is not forgotten. *)

From stdpp Require Import strings.
From S2P Require Import Prelude Bytes Text Terminal QueryStripper Pty Providers AttachV2 GhosttyReplay GhosttyReload GhosttyView.

(** ** The terminal library *)

Record TerminalLib (T : Type) := {
  vt_write : T → bytes → T * list bytes;
  vt_resize : T → Z → Z → option T;
  view_of : T → option View;
  active_alternate : T → option bool;
}.
Arguments vt_write {T} _.
Arguments vt_resize {T} _.
Arguments view_of {T} _.
Arguments active_alternate {T} _.

(** ** Those who are attached *)

Record GhosttyLiveOutputV2 := { live_start : Z; live_end : Z; live_payload : bytes }.

Record V1Subscriber := { s_id : nat; s_output : Chan bytes }.

(** The receivers of both channels belong to one task, and are dropped together.  [v_from] is the position in the
    output at which the subscriber came. *)
Record GhosttyV2Subscriber := { v_id : nat; v_from : Z; v_live : Chan GhosttyLiveOutputV2; v_events : list GhosttyResponse; v_resync : bool }.

(** [Vec::retain_mut]: those that stay and those that go *)
Definition retain_mut {A} (f : A → A * bool) (l : list A) : list A * list A :=
  ((λ a, (f a).1) <$> filter (λ a, (f a).2 = true) l, (λ a, (f a).1) <$> filter (λ a, (f a).2 = false) l).

Definition broadcast (l : bytes) : list V1Subscriber → list V1Subscriber * list V1Subscriber :=
  retain_mut (λ s, match try_send l (s_output s) with
                   | Sent c => ({| s_id := s_id s; s_output := c |}, true)
                   | Full | Closed => (s, false)
                   end).

Definition send_event (e : GhosttyResponse) (s : GhosttyV2Subscriber) : GhosttyV2Subscriber * bool :=
  if ch_open (v_live s)
  then ({| v_id := v_id s; v_from := v_from s; v_live := v_live s; v_events := v_events s ++ [e]; v_resync := v_resync s |}, true)
  else (s, false).

Definition mark_resync (b : bool) (s : GhosttyV2Subscriber) : GhosttyV2Subscriber :=
  {| v_id := v_id s; v_from := v_from s; v_live := v_live s; v_events := v_events s; v_resync := b |}.
Definition set_live (c : Chan GhosttyLiveOutputV2) (s : GhosttyV2Subscriber) : GhosttyV2Subscriber :=
  {| v_id := v_id s; v_from := v_from s; v_live := c; v_events := v_events s; v_resync := v_resync s |}.

Definition live_to (o : GhosttyLiveOutputV2) (s : GhosttyV2Subscriber) : GhosttyV2Subscriber * bool :=
  match try_send o (v_live s) with
  | Sent c => (mark_resync false (set_live c s), true)
  | Full => if v_resync s then (s, true) else send_event (GResyncRequiredV2 "live queue full" (live_start o)) (mark_resync true s)
  | Closed => (s, false)
  end.
Definition broadcast_v2 (o : GhosttyLiveOutputV2) := retain_mut (live_to o).

Definition broadcast_v2_event (e : GhosttyResponse) := retain_mut (send_event e).

Definition resync_to (reason : string) (from_seq : Z) (s : GhosttyV2Subscriber) : GhosttyV2Subscriber * bool :=
  if v_resync s then (s, true) else send_event (GResyncRequiredV2 reason from_seq) (mark_resync true s).
Definition broadcast_v2_resync (reason : string) (from_seq : Z) := retain_mut (resync_to reason from_seq).

(** Those who are attached, and those who were dropped *)
Record Clients := { subscribers : list V1Subscriber; v2_subscribers : list GhosttyV2Subscriber;
                    gone_subscribers : list V1Subscriber; gone_v2 : list GhosttyV2Subscriber }.

Definition to_v1 (l : bytes) (c : Clients) : Clients :=
  let '(kept, gone) := broadcast l (subscribers c) in
  {| subscribers := kept; v2_subscribers := v2_subscribers c; gone_subscribers := gone_subscribers c ++ gone; gone_v2 := gone_v2 c |}.
Definition on_v2 (f : list GhosttyV2Subscriber → list GhosttyV2Subscriber * list GhosttyV2Subscriber) (c : Clients) : Clients :=
  let '(kept, gone) := f (v2_subscribers c) in
  {| subscribers := subscribers c; v2_subscribers := kept; gone_subscribers := gone_subscribers c; gone_v2 := gone_v2 c ++ gone |}.

(** ** State *)

Record GhosttyTerminalIo (T : Type) := { terminal : T; pending_input : PendingPtyWrite; query_stripper : Stripper.QueryStripper }.
Arguments terminal {T} _.
Arguments pending_input {T} _.
Arguments query_stripper {T} _.

(** The history, with all that was ever read ([raw_output], in the chunks it was read in) and
    all that was ever appended ([all_output]) *)
Record Log := { history : bytes; history_start_abs : Z; live_seq : Z; raw_output : list bytes; all_output : bytes }.

Abbreviation Jobs := (list (Chan GhosttyResponse * GhosttyReloadJob)).

Record Helper (T : Type) := {
  io : GhosttyTerminalIo T;
  metadata : GhosttySessionMetadata;
  log_of : Log;
  viewport_generation : Z;
  clients : Clients;
  reload_jobs : Jobs;
  gone_jobs : Jobs;
}.
Arguments io {T} _.
Arguments metadata {T} _.
Arguments log_of {T} _.
Arguments viewport_generation {T} _.
Arguments clients {T} _.
Arguments reload_jobs {T} _.
Arguments gone_jobs {T} _.

Section helper.
Context {T : Type} (lib : TerminalLib T).

Definition set_io (v : GhosttyTerminalIo T) (h : Helper T) : Helper T := {| io := v; metadata := metadata h; log_of := log_of h;
  viewport_generation := viewport_generation h; clients := clients h; reload_jobs := reload_jobs h; gone_jobs := gone_jobs h |}.
Definition set_metadata (v : GhosttySessionMetadata) (h : Helper T) : Helper T := {| io := io h; metadata := v; log_of := log_of h;
  viewport_generation := viewport_generation h; clients := clients h; reload_jobs := reload_jobs h; gone_jobs := gone_jobs h |}.
Definition set_log (v : Log) (h : Helper T) : Helper T := {| io := io h; metadata := metadata h; log_of := v;
  viewport_generation := viewport_generation h; clients := clients h; reload_jobs := reload_jobs h; gone_jobs := gone_jobs h |}.
Definition next_generation (h : Helper T) : Helper T := {| io := io h; metadata := metadata h; log_of := log_of h;
  viewport_generation := sat_add (viewport_generation h) 1; clients := clients h; reload_jobs := reload_jobs h; gone_jobs := gone_jobs h |}.
Definition on_clients (f : Clients → Clients) (h : Helper T) : Helper T := {| io := io h; metadata := metadata h; log_of := log_of h;
  viewport_generation := viewport_generation h; clients := f (clients h); reload_jobs := reload_jobs h; gone_jobs := gone_jobs h |}.
Definition set_jobs (kept gone : Jobs) (h : Helper T) : Helper T := {| io := io h; metadata := metadata h; log_of := log_of h;
  viewport_generation := viewport_generation h; clients := clients h; reload_jobs := kept; gone_jobs := gone_jobs h ++ gone |}.

(** ** Output *)

Definition drain_terminal_pty_replies (replies : list bytes) (q : PendingPtyWrite) : PendingPtyWrite * bool :=
  foldl (λ '(q, queued_all) reply, match push q reply with Ok q' => (q', queued_all) | Err _ => (q, false) end) (q, true) replies.

Definition process_output (l : bytes) (h : Helper T) : Helper T :=
  let start_seq := live_seq (log_of h) in
  let '(stripper, output) := Stripper.feed (query_stripper (io h)) l in
  let end_seq := sat_add start_seq (len output) in
  let '(term, replies) := vt_write lib (terminal (io h)) l in
  let '(queue, queued) := drain_terminal_pty_replies replies (pending_input (io h)) in
  let '(kept, dropped) := append_bounded (history (log_of h)) output in
  let h := set_io {| terminal := term; pending_input := queue; query_stripper := stripper |} h in
  let h := set_log {| history := kept; history_start_abs := sat_add (history_start_abs (log_of h)) dropped; live_seq := end_seq;
                      raw_output := raw_output (log_of h) ++ [l]; all_output := all_output (log_of h) ++ output |} h in
  let h := if bool_decide (output = []) then h
           else on_clients (λ c, on_v2 (broadcast_v2 {| live_start := start_seq; live_end := end_seq; live_payload := output |}) (to_v1 output c)) h in
  if queued then h
  else on_clients (λ c, on_v2 (broadcast_v2_resync "input queue full" (live_seq (log_of h))) (to_v1 [] c)) h.

Definition terminal_allows_raw_history (t : T) : option bool := negb <$> active_alternate lib t.

Definition snapshot (h : Helper T) : bytes := default [] (render_viewport_snapshot (view_of lib (terminal (io h)))).

Definition seen_at (now : Z) (m : GhosttySessionMetadata) : GhosttySessionMetadata := {| md_name := md_name m; md_provider := md_provider m;
  md_pid := md_pid m; md_socket_path := md_socket_path m; md_created_at_ms := md_created_at_ms m; md_last_seen_ms := now; md_cwd := md_cwd m;
  md_rows := md_rows m; md_cols := md_cols m; md_status := md_status m; md_protocol_version := md_protocol_version m |}.
Definition sized (rows cols now : Z) (m : GhosttySessionMetadata) : GhosttySessionMetadata := {| md_name := md_name m; md_provider := md_provider m;
  md_pid := md_pid m; md_socket_path := md_socket_path m; md_created_at_ms := md_created_at_ms m; md_last_seen_ms := now; md_cwd := md_cwd m;
  md_rows := rows; md_cols := cols; md_status := md_status m; md_protocol_version := md_protocol_version m |}.

(** Whether it succeeded comes last. *)
Definition resize_helper (pty_ok : bool) (now rows cols : Z) (h : Helper T) : Helper T * bool :=
  if negb pty_ok then (h, false)
  else match vt_resize lib (terminal (io h)) cols rows with
       | None => (h, false)
       | Some t => (set_metadata (sized rows cols now (metadata h))
                      (set_io {| terminal := t; pending_input := pending_input (io h); query_stripper := query_stripper (io h) |} h), true)
       end.

(** ** Reloads *)

Definition poll_job (cut : nat) (l : Log) (cj : Chan GhosttyResponse * GhosttyReloadJob) : (Chan GhosttyResponse * GhosttyReloadJob) * bool :=
  let '(ch, j, fin) := poll_send_next cut (history l) (history_start_abs l) cj.1 cj.2 in ((ch, j), negb fin).

Definition poll_jobs (cut : nat) (h : Helper T) : Helper T :=
  let '(kept, gone) := retain_mut (poll_job cut (log_of h)) (reload_jobs h) in set_jobs kept gone h.

Definition without_job (reload_id : Z) (h : Helper T) : Helper T :=
  let '(kept, gone) := retain_mut (λ cj, (cj, negb (job_id cj.2 =? reload_id))) (reload_jobs h) in set_jobs kept gone h.

(** [let _ = reply.try_send(ReloadCancelledV2)] *)
Definition cancel_on (reload_id : Z) (ch : Chan GhosttyResponse) : Chan GhosttyResponse :=
  match try_send (GReloadCancelledV2 reload_id) ch with Sent ch => ch | Full | Closed => ch end.

Definition GHOSTTY_ATTACH_V2_MAX_RELOAD_JOBS : nat := 2.

(** The loop that makes room for a job *)
Fixpoint pop_jobs (jobs : Jobs) : Jobs * Jobs :=
  match jobs with
  | (ch, j) :: rest =>
      if (GHOSTTY_ATTACH_V2_MAX_RELOAD_JOBS <=? length jobs)%nat
      then let '(kept, gone) := pop_jobs rest in (kept, (cancel_on (job_id j) ch, j) :: gone)
      else (jobs, [])
  | [] => ([], [])
  end.

(** The channel of the reply is new. *)
Definition reload_command (reload_id : Z) (h : Helper T) : Helper T :=
  let reply := new_chan GHOSTTY_ATTACH_V2_QUEUE in
  let h := without_job reload_id h in
  if negb (default false (terminal_allows_raw_history (terminal (io h))))
  then set_jobs (reload_jobs h) [(cancel_on reload_id reply, new_job reload_id 0 0 0 false)] h
  else
    let h := next_generation h in
    let '(kept, gone) := pop_jobs (reload_jobs h) in
    let '(start, n, truncated) := bounded_reload_window (history_start_abs (log_of h)) (history (log_of h)) in
    set_jobs (kept ++ [(reply, new_job reload_id start n (viewport_generation h) truncated)]) gone h.

(** ** Commands *)

Inductive HelperCommand :=
  | Probe | Subscribe (cols rows : Z) | SubscribeV2 (cols rows prelude_max_bytes : Z) | Input (l : bytes) | ResizeTo (cols rows : Z)
  | ViewportCommand (resize_id : Z) | ReloadCommand (reload_id : Z) | CancelReloadCommand (reload_id : Z)
  | Run (cwd : option string) (argv : list string) | HistoryCommand | Kill.

(** What a command is answered; the number is that of the new subscriber. *)
Inductive Reply :=
  | NoReply | MetadataReply (m : GhosttySessionMetadata) | AttachedReply (id : nat) (m : GhosttySessionMetadata) (l : bytes)
  | AttachedV2Reply (id : nat) (r : GhosttyResponse) | ViewportReply (r : GhosttyResponse)
  | RunReply (r : result string SessionRunResult) | HistoryReply (s : string) | KilledReply.

(** The clock, whether the pseudo-terminal can be resized, and how a program ran *)
Record Surroundings := { now_ms : Z; pty_resizes : bool; sidecar : result string SessionRunResult }.

Definition GHOSTTY_SUBSCRIBER_BUFFER : nat := 64.

Definition mirror_run_output (argv : list string) (run : SessionRunResult) : bytes :=
  let out := [13; 10] ++ str_bytes "[portl run] " ++ str_bytes (String.concat " " argv) ++ [13; 10] ++ str_bytes (run_stdout run) ++ str_bytes (run_stderr run) in
  if bool_decide (last out = Some 10) then out else out ++ [13; 10].

Definition subscribe (c : Clients) : Clients := {| subscribers := subscribers c ++ [{| s_id := length (subscribers c ++ gone_subscribers c);
    s_output := new_chan GHOSTTY_SUBSCRIBER_BUFFER |}]; v2_subscribers := v2_subscribers c; gone_subscribers := gone_subscribers c; gone_v2 := gone_v2 c |}.
Definition v2_number (c : Clients) : nat := length (v2_subscribers c ++ gone_v2 c).
Definition subscribe_v2 (from : Z) (c : Clients) : Clients := {| subscribers := subscribers c; v2_subscribers := v2_subscribers c ++
    [{| v_id := v2_number c; v_from := from; v_live := new_chan GHOSTTY_ATTACH_V2_QUEUE; v_events := []; v_resync := false |}];
  gone_subscribers := gone_subscribers c; gone_v2 := gone_v2 c |}.

Definition subscribe_v2_command (e : Surroundings) (cols rows prelude_max_bytes : Z) (h : Helper T) : Helper T * Reply :=
  let '(h, _) := resize_helper (pty_resizes e) (now_ms e) rows cols h in
  let h := next_generation h in
  let h := set_metadata (seen_at (now_ms e) (metadata h)) h in
  let id := v2_number (clients h) in
  let h := on_clients (subscribe_v2 (live_seq (log_of h))) h in
  let prelude := if default false (terminal_allows_raw_history (terminal (io h)))
                 then capped_prelude_snapshot (history (log_of h)) prelude_max_bytes else [] in
  (h, AttachedV2Reply id (GAttachedV2 (metadata h) prelude (snapshot h) (live_seq (log_of h)) (viewport_generation h) cols rows 0)).

Definition input_command (l : bytes) (h : Helper T) : Helper T :=
  match push (pending_input (io h)) l with
  | Ok q => set_io {| terminal := terminal (io h); pending_input := q; query_stripper := query_stripper (io h) |} h
  | Err _ => on_clients (λ c, on_v2 (broadcast_v2_resync "input queue full" (live_seq (log_of h))) (to_v1 [] c)) h
  end.

Definition helper_command (e : Surroundings) (c : HelperCommand) (h : Helper T) : Helper T * Reply :=
  match c with
  | Probe => let h := set_metadata (seen_at (now_ms e) (metadata h)) h in (h, MetadataReply (metadata h))
  | Subscribe cols rows =>
      let '(h, _) := resize_helper (pty_resizes e) (now_ms e) rows cols h in
      let h := set_metadata (seen_at (now_ms e) (metadata h)) h in
      let id := length (subscribers (clients h) ++ gone_subscribers (clients h)) in
      let h := on_clients subscribe h in
      (h, AttachedReply id (metadata h) (capped_attach_snapshot (history (log_of h))))
  | SubscribeV2 cols rows prelude_max_bytes => subscribe_v2_command e cols rows prelude_max_bytes h
  | Input l => (input_command l h, NoReply)
  | ResizeTo cols rows => let '(h, ok) := resize_helper (pty_resizes e) (now_ms e) rows cols h in (if (ok : bool) then next_generation h else h, NoReply)
  | ViewportCommand resize_id =>
      let h := next_generation h in
      (h, ViewportReply (GViewportV2 (viewport_generation h) (live_seq (log_of h)) (md_cols (metadata h)) (md_rows (metadata h)) resize_id (snapshot h)))
  | ReloadCommand reload_id => (reload_command reload_id h, NoReply)
  | CancelReloadCommand reload_id => (without_job reload_id h, NoReply)
  | Run _ argv =>
      match sidecar e with
      | Ok run => let h := process_output (mirror_run_output argv run) h in (set_metadata (seen_at (now_ms e) (metadata h)) h, RunReply (Ok run))
      | Err err => (h, RunReply (Err err))
      end
  | HistoryCommand => (h, HistoryReply (lossy_string (history (log_of h))))
  | Kill => (h, KilledReply)
  end.

(** ** A turn *)

(** Which branch of [select!] was ready; a failed system call is [None]. *)
Inductive HelperTurn :=
  | ChildExited (code : option (option Z)) | PtyRead (r : option (option bytes)) | PtyWritable (w : WriteResult) | Timer
  | OnHelperCommand (e : Surroundings) (c : HelperCommand).

Inductive HelperEnd := Runs (r : Reply) | Ended | Failed.

Definition session_over (code : Z) (h : Helper T) : Helper T := on_clients (λ c, on_v2 (broadcast_v2_event (GExit code)) (to_v1 [] c)) h.

Definition helper_turn (cut : nat) (t : HelperTurn) (h : Helper T) : Helper T * HelperEnd :=
  let h := poll_jobs cut h in
  match t with
  | ChildExited (Some code) => (session_over (default 1 code) h, Ended)
  | ChildExited None => (h, Failed)
  | PtyRead (Some (Some l)) => (process_output l h, Runs NoReply)
  | PtyRead (Some None) => (session_over 0 h, Ended)
  | PtyRead None => (h, Failed)
  | PtyWritable w =>
      if is_empty (pending_input (io h)) then (h, Runs NoReply)
      else match write_one_pending_pty_chunk w (pending_input (io h)) with
           | Ok (q, _) => (set_io {| terminal := terminal (io h); pending_input := q; query_stripper := query_stripper (io h) |} h, Runs NoReply)
           | Err _ => (h, Failed)
           end
  | Timer => (h, Runs NoReply)
  | OnHelperCommand e c => let '(h, r) := helper_command e c h in (h, Runs r)
  end.
End helper.

(** ** Helper and clients *)

Section system.
Context {T : Type} (lib : TerminalLib T).

(** Beside the helper, the tasks of the clients take what is in their channels, or end. *)
Inductive SystemStep := HelperStep (cut : nat) (t : HelperTurn) | TakeLive (id : nat) | CloseClient (id : nat) | TakeReload (n : nat) | CloseReload (n : nat).

Definition on_live (id : nat) (f : Chan GhosttyLiveOutputV2 → Chan GhosttyLiveOutputV2) (s : GhosttyV2Subscriber) : GhosttyV2Subscriber :=
  if (v_id s =? id)%nat then set_live (f (v_live s)) s else s.
Definition on_all_v2 (f : GhosttyV2Subscriber → GhosttyV2Subscriber) (c : Clients) : Clients := {| subscribers := subscribers c;
  v2_subscribers := f <$> v2_subscribers c; gone_subscribers := gone_subscribers c; gone_v2 := f <$> gone_v2 c |}.
Definition taken {A} (c : Chan A) : Chan A := match recv c with Some (_, c) => c | None => c end.
Definition on_job (n : nat) (f : Chan GhosttyResponse → Chan GhosttyResponse) (h : Helper T) : Helper T := {| io := io h; metadata := metadata h;
  log_of := log_of h; viewport_generation := viewport_generation h; clients := clients h;
  reload_jobs := alter (λ cj, (f cj.1, cj.2)) n (reload_jobs h); gone_jobs := gone_jobs h |}.

Definition system_step (t : SystemStep) (h : Helper T) : Helper T :=
  match t with
  | HelperStep cut t => (helper_turn lib cut t h).1
  | TakeLive id => on_clients (on_all_v2 (on_live id taken)) h
  | CloseClient id => on_clients (on_all_v2 (on_live id drop_receiver)) h
  | TakeReload n => on_job n taken h
  | CloseReload n => on_job n drop_receiver h
  end.
Definition system_run (h : Helper T) (ts : list SystemStep) : Helper T := foldl (flip system_step) h ts.

(** ** What clients are told *)

(** The position after frames, and how many of them do not start where the one before ended *)
Definition frame_step (pg : Z * Z) (f : GhosttyLiveOutputV2) : Z * Z := (live_end f, if live_start f =? pg.1 then pg.2 else pg.2 + 1).
Definition walk (from : Z) (fs : list GhosttyLiveOutputV2) : Z * Z := foldl frame_step (from, 0) fs.

Definition is_notice (r : GhosttyResponse) : bool := match r with GResyncRequiredV2 _ _ => true | _ => false end.
Definition notices (l : list GhosttyResponse) : Z := Z.of_nat (length (filter (λ r, is_notice r = true) l)).

(** The frames of a list follow each other from a position on. *)
Fixpoint ordered (pos : Z) (fs : list GhosttyLiveOutputV2) : Prop :=
  match fs with [] => True | f :: fs => pos ≤ live_start f ∧ ordered (live_end f) fs end.

(** What is announced beside the output *)
Definition is_event (r : GhosttyResponse) : bool := match r with GResyncRequiredV2 _ _ | GExit _ => true | _ => false end.

Definition frame_true (out : bytes) (f : GhosttyLiveOutputV2) : Prop := true_live out (live_start f) (live_end f) (live_payload f).

Record told (out : bytes) (s : GhosttyV2Subscriber) : Prop := {
  told_true : Forall (frame_true out) (ch_sent (v_live s));
  told_order : ordered (v_from s) (ch_sent (v_live s));
  told_gaps : (walk (v_from s) (ch_sent (v_live s))).2 ≤ notices (v_events s);
  told_pos : (walk (v_from s) (ch_sent (v_live s))).1 ≤ len out;
  told_events : Forall (λ r, is_event r = true) (v_events s);
}.

(** An active subscriber to whom no gap was announced has everything. *)
Record served (out : bytes) (s : GhosttyV2Subscriber) : Prop := {
  served_told : told out s;
  served_gaps : (walk (v_from s) (ch_sent (v_live s))).2 + (if v_resync s then 1 else 0) ≤ notices (v_events s);
  served_all : v_resync s = true ∨ (walk (v_from s) (ch_sent (v_live s))).1 = len out;
}.

Definition clients_told (out : bytes) (c : Clients) : Prop := Forall (served out) (v2_subscribers c) ∧ Forall (told out) (gone_v2 c).

Lemma retain_Forall {A} (P Q R : A → Prop) (f : A → A * bool) l : Forall P l → (∀ a, P a → if (f a).2 then Q (f a).1 else R (f a).1) →
  Forall Q (retain_mut f l).1 ∧ Forall R (retain_mut f l).2.
Proof.
  intros Hl Hf. unfold retain_mut. cbn. rewrite !Forall_fmap, !Forall_forall. rewrite Forall_forall in Hl.
  split; intros a [Hk Ha]%list_elem_of_filter; specialize (Hf a (Hl a Ha)); by rewrite Hk in Hf.
Qed.

Lemma walk_pos_gap fs : ∀ p g g', (foldl frame_step (p, g) fs).1 = (foldl frame_step (p, g') fs).1.
Proof. induction fs as [|f fs IH]; intros p g g'; [done |]. cbn. apply IH. Qed.

Lemma walk_snoc p fs f : walk p (fs ++ [f]) = frame_step (walk p fs) f.
Proof. unfold walk. by rewrite foldl_app. Qed.

Lemma ordered_snoc p fs f : ordered p fs → (walk p fs).1 ≤ live_start f → ordered p (fs ++ [f]).
Proof.
  revert p. induction fs as [|f' fs IH]; intros p; cbn; [done |]. intros [H1 H2] Hw. split; [done |]. apply IH; [done |].
  unfold walk in *. cbn [foldl] in Hw. unfold frame_step at 2 in Hw. by rewrite (walk_pos_gap _ _ _ 0) in Hw.
Qed.

Lemma out_slice_app out l s e : 0 ≤ s → e ≤ len out → slice (out ++ l) s e = slice out s e.
Proof.
  intros Hs He. unfold slice, len in *. destruct (Z.le_gt_cases s (Z.of_nat (length out))).
  - rewrite drop_app_le by lia. by rewrite take_app_le by (rewrite length_drop; lia).
  - replace (Z.to_nat (e - s)) with 0%nat by lia. done.
Qed.

Lemma frame_true_app out l f : frame_true out f → frame_true (out ++ l) f.
Proof.
  unfold frame_true, true_live. intros (H1 & H2 & H3). rewrite out_slice_app by (unfold len; lia). rewrite length_app. split_and!; [lia | lia | lia | done].
Qed.

Lemma told_app out l s : told out s → told (out ++ l) s.
Proof.
  intros [H1 H2 H3 H4 H5]. split; [| done | done | rewrite len_app; pose proof (len_nonneg l); lia | done].
  eapply Forall_impl; [exact H1 |]. intros f. apply frame_true_app.
Qed.

Lemma notices_app l l' : notices (l ++ l') = notices l + notices l'.
Proof. unfold notices. rewrite filter_app, length_app. lia. Qed.

Lemma notices_nonneg l : 0 ≤ notices l.
Proof. unfold notices. lia. Qed.

(** Output goes to a subscriber whole or not at all. *)
Lemma live_to_served out l s : served out s →
  let o := {| live_start := len out; live_end := len out + len l; live_payload := l |} in
  if (live_to o s).2 then served (out ++ l) (live_to o s).1 else told (out ++ l) (live_to o s).1.
Proof.
  intros [Ht Hg Ha] o. pose proof (told_app out l s Ht) as Ht'. pose proof (len_nonneg out). pose proof (len_nonneg l). pose proof Ht as [H1 H2 H3 H4 H5].
  unfold live_to, try_send. destruct (ch_open (v_live s)) eqn:Ho; [| done]. cbn [negb]. destruct (capacity (v_live s) =? 0)%nat.
  - destruct (v_resync s) eqn:Hr; [cbn; split; [done | by rewrite Hr | by left] |]. unfold send_event. cbn. rewrite Ho. destruct Ht' as [H1' H2' H3' H4' H5'].
    assert (Hn : notices (v_events s ++ [GResyncRequiredV2 "live queue full" (len out)]) = notices (v_events s) + 1) by by rewrite notices_app.
    cbn in Hg. split; cbn; [split; cbn; try done | |]; rewrite ?Hn; [lia | by apply Forall_app; split; [| constructor] | lia | by left].
  - cbn [fst snd]. assert (Hw : walk (v_from s) (ch_sent (v_live s) ++ [o]) = (len out + len l, if len out =? (walk (v_from s) (ch_sent (v_live s))).1 then (walk (v_from s) (ch_sent (v_live s))).2
      else (walk (v_from s) (ch_sent (v_live s))).2 + 1)) by (rewrite walk_snoc; done).
    assert (Hle : (walk (v_from s) (ch_sent (v_live s) ++ [o])).2 ≤ notices (v_events s)).
    { rewrite Hw. cbn. destruct Ha as [Hr | Hp]; [rewrite Hr in Hg; case_match; lia |]. rewrite Hp, Z.eqb_refl. by destruct (v_resync s); lia. }
    assert (Hlen : len (out ++ l) = len out + len l) by apply len_app.
    split; cbn [mark_resync set_live v_live v_from v_events v_resync ch_sent]; [| rewrite Z.add_0_r; exact Hle | right; by rewrite Hw, Hlen].
    split; cbn [mark_resync set_live v_live v_from v_events v_resync ch_sent]; [| apply ordered_snoc; [done | cbn; lia] | done | rewrite Hw, Hlen; cbn; lia | done].
    apply Forall_app. split; [apply Ht' |]. constructor; [| done]. unfold frame_true, true_live. cbn. unfold slice. unfold len in *. rewrite length_app.
    split_and!; [lia | lia | lia |]. rewrite drop_app_ge by lia. replace (Z.to_nat (Z.of_nat (length out)) - length out)%nat with 0%nat by lia.
    rewrite drop_0, take_ge by lia. done.
Qed.

Lemma send_event_served out e s : is_event e = true → served out s → if (send_event e s).2 then served out (send_event e s).1 else told out (send_event e s).1.
Proof.
  intros He [[H1 H2 H3 H4 H5] Hg Ha]. unfold send_event. destruct (ch_open (v_live s)); [| by split]. cbn. pose proof (notices_nonneg [e]).
  split; cbn; [split; cbn; try done | |]; rewrite ?notices_app; [lia | by apply Forall_app; split; [| constructor] | lia | done].
Qed.

Lemma resync_to_served out reason from s : served out s →
  if (resync_to reason from s).2 then served out (resync_to reason from s).1 else told out (resync_to reason from s).1.
Proof.
  intros [[H1 H2 H3 H4 H5] Hg Ha]. unfold resync_to. destruct (v_resync s) eqn:Hr; [cbn; split; [by split | by rewrite Hr | by left] |].
  unfold send_event. cbn. destruct (ch_open (v_live s)); cbn; [| by split].
  assert (Hn : notices (v_events s ++ [GResyncRequiredV2 reason from]) = notices (v_events s) + 1) by by rewrite notices_app.
  split; cbn; [split; cbn; try done | |]; rewrite ?Hn; [lia | by apply Forall_app; split; [| constructor] | lia | by left].
Qed.

Record helper_ok (h : Helper T) : Prop := {
  ok_history : keeps_last (all_output (log_of h)) (history (log_of h)) (history_start_abs (log_of h));
  ok_seq : live_seq (log_of h) = len (all_output (log_of h));
  ok_strip : Stripper.feed_chunks Stripper.new (raw_output (log_of h)) = (query_stripper (io h), all_output (log_of h));
  ok_clients : clients_told (all_output (log_of h)) (clients h);
}.

Lemma on_v2_told (f : GhosttyV2Subscriber → GhosttyV2Subscriber * bool) out out' c : clients_told out c → (∀ s, served out s → if (f s).2 then served out' (f s).1 else told out' (f s).1) →
  (∀ s, told out s → told out' s) → clients_told out' (on_v2 (retain_mut f) c).
Proof.
  intros [Hk Hg] Hf Hi. unfold on_v2. destruct (retain_Forall _ _ _ f _ Hk Hf) as [H1 H2]. destruct (retain_mut f _) as [kept gone]. split; [done |]. cbn.
  apply Forall_app. split; [eapply Forall_impl; [exact Hg | done] | done].
Qed.

Lemma to_v1_told l out c : clients_told out c → clients_told out (to_v1 l c).
Proof. intros H. unfold to_v1. by destruct (broadcast l (subscribers c)). Qed.

Lemma same_ok h h' : helper_ok h → log_of h' = log_of h → clients h' = clients h → query_stripper (io h') = query_stripper (io h) → helper_ok h'.
Proof. intros [H1 H2 H3 H4] Hl Hc Hs. split; rewrite ?Hl, ?Hc, ?Hs; done. Qed.

Lemma feed_chunks_snoc s cs l : Stripper.feed_chunks s (cs ++ [l]) =
  let '(s1, o1) := Stripper.feed_chunks s cs in let '(s2, o2) := Stripper.feed s1 l in (s2, o1 ++ o2).
Proof. unfold Stripper.feed_chunks. rewrite foldl_app. by destruct (foldl _ _ cs). Qed.

Lemma process_output_ok l h : helper_ok h → len (all_output (log_of (process_output lib l h))) ≤ U64_MAX → helper_ok (process_output lib l h).
Proof.
  intros [Hk Hs Hst Hc]. unfold process_output. destruct (Stripper.feed (query_stripper (io h)) l) as [stripper output] eqn:Hf.
  destruct (vt_write lib _ l) as [term replies]. destruct (drain_terminal_pty_replies _ _) as [queue queued].
  pose proof (append_keeps_last _ _ _ output Hk) as Hk'. destruct (append_bounded (history (log_of h)) output) as [kept dropped]. cbn [fst snd] in Hk'.
  set (out' := all_output (log_of h) ++ output). intros Hlen.
  assert (Hu : len out' ≤ U64_MAX) by (revert Hlen; destruct queued, (bool_decide _); done). clear Hlen.
  assert (Hseq : sat_add (live_seq (log_of h)) (len output) = len out') by (rewrite sat_add_small; unfold out' in *; rewrite len_app in *; lia).
  assert (Hstart : sat_add (history_start_abs (log_of h)) dropped = history_start_abs (log_of h) + dropped).
  { apply sat_add_small. destruct Hk' as (_ & _ & Hx). fold out' in Hx. pose proof (len_nonneg out'). unfold MAX_HISTORY_BYTES in Hx. lia. }
  assert (Hfeed : Stripper.feed_chunks Stripper.new (raw_output (log_of h) ++ [l]) = (stripper, out')) by by rewrite feed_chunks_snoc, Hst, Hf.
  assert (Hc1 : clients_told out' (if bool_decide (output = []) then clients h else
    on_v2 (broadcast_v2 {| live_start := live_seq (log_of h); live_end := sat_add (live_seq (log_of h)) (len output); live_payload := output |}) (to_v1 output (clients h)))).
  { case_bool_decide as He; [unfold out'; rewrite He, app_nil_r; done |]. apply (on_v2_told _ (all_output (log_of h))); [by apply to_v1_told | | intros s; apply told_app].
    intros s Hsv. rewrite Hseq, Hs. unfold out'. rewrite len_app. by apply live_to_served. }
  cbn [log_of live_seq set_log set_io]. rewrite Hstart. destruct queued; case_bool_decide; split;
    cbn [on_clients set_log set_io log_of io clients query_stripper history history_start_abs live_seq raw_output all_output]; try done; try (by rewrite Hseq).
  all: apply (on_v2_told _ out'); [by apply to_v1_told | intros s Hsv; by apply resync_to_served | done].
Qed.

Lemma resize_helper_same e r c h : log_of (resize_helper lib e.1 e.2 r c h).1 = log_of h ∧ clients (resize_helper lib e.1 e.2 r c h).1 = clients h ∧
  query_stripper (io (resize_helper lib e.1 e.2 r c h).1) = query_stripper (io h).
Proof. unfold resize_helper. destruct e as [[] ?]; cbn; [by destruct (vt_resize lib _ _ _) | done]. Qed.

Lemma set_jobs_ok kept gone h : helper_ok h → helper_ok (set_jobs kept gone h).
Proof. intros H. by apply (same_ok h). Qed.

Lemma without_job_ok id h : helper_ok h → helper_ok (without_job id h).
Proof. intros H. unfold without_job. destruct (retain_mut _ _). by apply set_jobs_ok. Qed.

Lemma poll_jobs_ok cut h : helper_ok h → helper_ok (poll_jobs cut h) ∧ log_of (poll_jobs cut h) = log_of h.
Proof. intros H. unfold poll_jobs. destruct (retain_mut _ _). split; [by apply set_jobs_ok | done]. Qed.

Lemma reload_command_ok id h : helper_ok h → helper_ok (reload_command lib id h).
Proof.
  intros H. unfold reload_command. cbv zeta. pose proof (without_job_ok id h H) as H'. destruct (negb _); [by apply set_jobs_ok |].
  destruct (pop_jobs _). destruct (bounded_reload_window _ _) as [[] ?]. apply set_jobs_ok. by apply (same_ok (without_job id h)).
Qed.

Lemma subscribed_told out c : clients_told out c → clients_told out (subscribe_v2 (len out) c).
Proof.
  intros [Hk Hg]. split; [| done]. cbn [subscribe_v2 v2_subscribers]. apply Forall_app. split; [done |]. constructor; [| done].
  split; [split; cbn; [by constructor | done | done | lia | by constructor] | done | by right].
Qed.

Lemma command_ok e c h : helper_ok h → len (all_output (log_of (helper_command lib e c h).1)) ≤ U64_MAX → helper_ok (helper_command lib e c h).1.
Proof.
  intros Hok. destruct c as [|cols rows|cols rows pre|l|cols rows|id|id|id|cwd argv| |]; cbn [helper_command]; try done.
  - intros _. by apply (same_ok h).
  - intros _. destruct (resize_helper_same (pty_resizes e, now_ms e) rows cols h) as (Hl & Hc & Hs). cbn [fst snd] in *.
    destruct (resize_helper lib _ _ rows cols h) as [h1 ok]. cbn [fst snd] in *. destruct Hok as [H1 H2 H3 H4].
    split; cbn; rewrite ?Hl, ?Hs; try done. destruct H4 as [H4 H5]. split; cbn; by rewrite Hc.
  - intros _. unfold subscribe_v2_command. destruct (resize_helper_same (pty_resizes e, now_ms e) rows cols h) as (Hl & Hc & Hs). cbn [fst snd] in *.
    destruct (resize_helper lib _ _ rows cols h) as [h1 ok]. cbn [fst snd] in *. destruct Hok as [H1 H2 H3 H4].
    split; cbn [on_clients set_metadata next_generation log_of io clients]; rewrite ?Hl, ?Hs; try done. rewrite Hc, H2. by apply subscribed_told.
  - intros _. unfold input_command. destruct (push _ l); [by apply (same_ok h) |]. destruct Hok as [H1 H2 H3 H4].
    split; cbn [fst on_clients log_of io clients]; try done. eapply on_v2_told; [by apply to_v1_told | intros s Hs; by apply resync_to_served | done].
  - intros _. destruct (resize_helper_same (pty_resizes e, now_ms e) rows cols h) as (Hl & Hc & Hs). cbn [fst snd] in *.
    destruct (resize_helper lib _ _ rows cols h) as [h1 []]; by apply (same_ok h).
  - intros _. by apply (same_ok h).
  - intros _. by apply reload_command_ok.
  - intros _. by apply without_job_ok.
  - destruct (sidecar e) as [run|err]; [| done]. intros Hlen. apply (same_ok (process_output lib (mirror_run_output argv run) h)); [| done | done | done].
    by apply process_output_ok.
Qed.

Lemma turn_ok cut t h : helper_ok h → len (all_output (log_of (helper_turn lib cut t h).1)) ≤ U64_MAX → helper_ok (helper_turn lib cut t h).1.
Proof.
  intros Hok. unfold helper_turn. cbv zeta. destruct (poll_jobs_ok cut h Hok) as [Hp Hl]. set (h1 := poll_jobs cut h) in *. clearbody h1.
  assert (Hover : ∀ code, helper_ok (session_over code h1)).
  { intros code. destruct Hp as [H1 H2 H3 H4]. split; cbn [session_over on_clients log_of io clients]; try done.
    eapply on_v2_told; [by apply to_v1_told | intros s Hs; by apply send_event_served | done]. }
  destruct t as [[code|]|[[l|]|]|w| |e c]; cbn [fst]; try done.
  - intros Hlen. by apply process_output_ok.
  - intros _. destruct (is_empty _); [done |]. destruct (write_one_pending_pty_chunk w _) as [[q o]|]; [by apply (same_ok h1) | done].
  - intros Hlen. pose proof (command_ok e c h1 Hp) as Hc. destruct (helper_command lib e c h1) as [h2 r]. by apply Hc.
Qed.

Lemma on_live_ok id f h : (∀ c : Chan GhosttyLiveOutputV2, ch_sent (f c) = ch_sent c) → helper_ok h → helper_ok (on_clients (on_all_v2 (on_live id f)) h).
Proof.
  intros Hf [H1 H2 H3 [H4 H5]]. split; try done. assert (Hsame : ∀ s, ch_sent (v_live (on_live id f s)) = ch_sent (v_live s) ∧ v_from (on_live id f s) = v_from s ∧
    v_events (on_live id f s) = v_events s ∧ v_resync (on_live id f s) = v_resync s).
  { intros s. unfold on_live. destruct (v_id s =? id)%nat; [cbn; by rewrite Hf | done]. }
  assert (Htold : ∀ out s, told out s → told out (on_live id f s)).
  { intros out s []. destruct (Hsame s) as (E1 & E2 & E3 & E4). split; by rewrite ?E1, ?E2, ?E3. }
  split; cbn; apply Forall_fmap; [eapply Forall_impl; [exact H4 |] | eapply Forall_impl; [exact H5 | intros s; apply Htold]].
  intros s [Ht Hg Ha]. destruct (Hsame s) as (E1 & E2 & E3 & E4). split; [by apply Htold | |]; by rewrite E1, E2, ?E3, E4.
Qed.

Lemma taken_sent {A} (c : Chan A) : ch_sent (taken c) = ch_sent c.
Proof. unfold taken, recv. by destruct (ch_sent c !! ch_taken c). Qed.

Lemma system_step_ok t h : helper_ok h → len (all_output (log_of (system_step t h))) ≤ U64_MAX → helper_ok (system_step t h).
Proof.
  intros Hok. destruct t as [cut t|id|id|n|n]; cbn [system_step]; intros Hlen; [by apply turn_ok | by apply on_live_ok; [apply taken_sent |] | by apply on_live_ok | |];
    by apply (same_ok h).
Qed.

Lemma process_output_grows l h : ∃ o, all_output (log_of (process_output lib l h)) = all_output (log_of h) ++ o.
Proof.
  unfold process_output. destruct (Stripper.feed _ l) as [stripper output]. destruct (vt_write lib _ l), (drain_terminal_pty_replies _ _) as [? []], (append_bounded _ _).
  all: exists output; by case_bool_decide.
Qed.

Lemma step_grows t h : ∃ o, all_output (log_of (system_step t h)) = all_output (log_of h) ++ o.
Proof.
  assert (Hsame : ∀ h' : Helper T, log_of h' = log_of h → ∃ o, all_output (log_of h') = all_output (log_of h) ++ o) by (intros h' ->; exists []; by rewrite app_nil_r).
  destruct t as [cut t|id|id|n|n]; cbn [system_step]; try by apply Hsame. unfold helper_turn. cbv zeta.
  assert (Hp : log_of (poll_jobs cut h) = log_of h) by (unfold poll_jobs; by destruct (retain_mut _ _)). set (h1 := poll_jobs cut h) in *. clearbody h1.
  destruct t as [[code|]|[[l|]|]|w| |e c]; cbn [fst]; try (by apply Hsame).
  - rewrite <- Hp. apply process_output_grows.
  - destruct (is_empty _); [by apply Hsame |]. destruct (write_one_pending_pty_chunk w _) as [[q o]|]; by apply Hsame.
  - destruct c as [|cols rows|cols rows pre|l|cols rows|id|id|id|cwd argv| |]; cbn [helper_command]; try by apply Hsame.
    + destruct (resize_helper_same (pty_resizes e, now_ms e) rows cols h1) as (Hl & _ & _). cbn [fst snd] in Hl. destruct (resize_helper lib _ _ rows cols h1). apply Hsame. by rewrite <- Hp, <- Hl.
    + unfold subscribe_v2_command. destruct (resize_helper_same (pty_resizes e, now_ms e) rows cols h1) as (Hl & _ & _). cbn [fst snd] in Hl. destruct (resize_helper lib _ _ rows cols h1). apply Hsame. by rewrite <- Hp, <- Hl.
    + unfold input_command. destruct (push _ l); by apply Hsame.
    + destruct (resize_helper_same (pty_resizes e, now_ms e) rows cols h1) as (Hl & _ & _). cbn [fst snd] in Hl. destruct (resize_helper lib _ _ rows cols h1) as [h2 []]; apply Hsame; by rewrite <- Hp, <- Hl.
    + apply Hsame. unfold reload_command, without_job. cbv zeta. destruct (retain_mut _ _). destruct (negb _); [done |]. destruct (pop_jobs _), (bounded_reload_window _ _) as [[] ?]. done.
    + destruct (sidecar e); [| by apply Hsame]. rewrite <- Hp. apply process_output_grows.
Qed.

(** ** Theorems *)

(** The state in which the loop starts *)
Definition new_helper (t : T) (m : GhosttySessionMetadata) : Helper T := {|
  io := {| terminal := t; pending_input := pending_new DEFAULT_PTY_INPUT_QUEUE_BYTES; query_stripper := Stripper.new |}; metadata := m;
  log_of := {| history := []; history_start_abs := 0; live_seq := 0; raw_output := []; all_output := [] |}; viewport_generation := 0;
  clients := {| subscribers := []; v2_subscribers := []; gone_subscribers := []; gone_v2 := [] |}; reload_jobs := []; gone_jobs := [] |}.

Lemma new_helper_ok t m : helper_ok (new_helper t m).
Proof. by repeat split; try constructor. Qed.

Lemma run_grows ts h : ∃ o, all_output (log_of (system_run h ts)) = all_output (log_of h) ++ o.
Proof.
  unfold system_run. revert h. induction ts as [|t ts IH]; intros h; cbn [foldl]; [exists []; by rewrite app_nil_r |].
  destruct (IH (flip system_step h t)) as [o Ho], (step_grows t h) as [o' Ho']. exists (o' ++ o). unfold flip in *. by rewrite Ho, Ho', app_assoc.
Qed.

Lemma run_ok ts h : helper_ok h → len (all_output (log_of (system_run h ts))) ≤ U64_MAX → helper_ok (system_run h ts).
Proof.
  revert h. induction ts as [|t ts IH]; intros h Hok Hlen; [done |]. change (system_run h (t :: ts)) with (system_run (system_step t h) ts) in *.
  apply IH; [| done]. apply system_step_ok; [done |]. destruct (run_grows ts (system_step t h)) as [o Ho]. rewrite Ho, len_app in Hlen. pose proof (len_nonneg o). lia.
Qed.

(** C28: whatever the process, the clients and the helper do, each live frame that was ever queued for a client is the
    piece of the session's output between its positions, and they follow each other; every gap in them was announced to the
    client; and a client that is attached and was not announced a gap since has been sent everything.  The output is what the
    process wrote without terminal queries. *)
Theorem live_frames_exact t m ts : let h := system_run (new_helper t m) ts in let out := all_output (log_of h) in len out ≤ U64_MAX →
  (∀ s, s ∈ v2_subscribers (clients h) ++ gone_v2 (clients h) → Forall (frame_true out) (ch_sent (v_live s)) ∧ ordered (v_from s) (ch_sent (v_live s)) ∧
     (walk (v_from s) (ch_sent (v_live s))).2 ≤ notices (v_events s)) ∧
  (∀ s, s ∈ v2_subscribers (clients h) → v_resync s = true ∨ (walk (v_from s) (ch_sent (v_live s))).1 = len out) ∧
  out = (Stripper.feed_chunks Stripper.new (raw_output (log_of h))).2.
Proof.
  intros h out Hlen. destruct (run_ok ts (new_helper t m) (new_helper_ok t m) Hlen) as [_ _ Hs [Hk Hg]]. fold h in Hs, Hk, Hg. rewrite Forall_forall in Hk, Hg.
  split_and!; [| by intros s Hin; apply Hk | by rewrite Hs]. intros s [Hin|Hin]%elem_of_app; [destruct (Hk s Hin) as [[] _ _] | destruct (Hg s Hin)]; done.
Qed.

Lemma set_jobs_gone kept gone (h : Helper T) : gone_jobs h `prefix_of` gone_jobs (set_jobs kept gone h).
Proof. by exists gone. Qed.

Lemma process_output_jobs l h : gone_jobs (process_output lib l h) = gone_jobs h.
Proof.
  unfold process_output. destruct (Stripper.feed _ l) as [stripper output]. destruct (vt_write lib _ l), (drain_terminal_pty_replies _ _) as [? []], (append_bounded _ _).
  all: by case_bool_decide.
Qed.

Lemma resize_helper_jobs ok now r c h : gone_jobs (resize_helper lib ok now r c h).1 = gone_jobs h.
Proof. unfold resize_helper. destruct ok; cbn; [by destruct (vt_resize lib _ _ _) | done]. Qed.

Lemma command_jobs e c h : gone_jobs h `prefix_of` gone_jobs (helper_command lib e c h).1.
Proof.
  destruct c as [|cols rows|cols rows pre|l|cols rows|id|id|id|cwd argv| |]; cbn [helper_command]; try done.
  - pose proof (resize_helper_jobs (pty_resizes e) (now_ms e) rows cols h) as H. destruct (resize_helper lib _ _ _ _ h). cbn in *. by rewrite H.
  - unfold subscribe_v2_command. pose proof (resize_helper_jobs (pty_resizes e) (now_ms e) rows cols h) as H. destruct (resize_helper lib _ _ _ _ h). cbn in *. by rewrite H.
  - unfold input_command. by destruct (push _ l).
  - pose proof (resize_helper_jobs (pty_resizes e) (now_ms e) rows cols h) as H. destruct (resize_helper lib _ _ _ _ h) as [h1 []]; cbn in *; by rewrite H.
  - cbn [fst]. unfold reload_command. cbv zeta. trans (gone_jobs (without_job id h)); [apply set_jobs_gone |].
    destruct (negb _); [apply set_jobs_gone |]. destruct (pop_jobs _) as [kept gone], (bounded_reload_window _ _) as [[start n] tr]. by exists gone.
  - apply set_jobs_gone.
  - destruct (sidecar e); [| done]. cbn. by rewrite process_output_jobs.
Qed.

(** The channels of reloads that were dropped are left alone. *)
Lemma gone_jobs_stay t h : gone_jobs h `prefix_of` gone_jobs (system_step t h).
Proof.
  destruct t as [cut t|id|id|n|n]; cbn [system_step]; try done. unfold helper_turn. cbv zeta.
  assert (Hp : gone_jobs h `prefix_of` gone_jobs (poll_jobs cut h)) by apply set_jobs_gone. set (h1 := poll_jobs cut h) in *. clearbody h1.
  destruct t as [[code|]|[[l|]|]|w| |e c]; cbn [fst]; try done.
  - by rewrite process_output_jobs.
  - destruct (is_empty _); [done |]. by destruct (write_one_pending_pty_chunk w _) as [[q o]|].
  - etrans; [exact Hp |]. pose proof (command_jobs e c h1) as Hc. by destruct (helper_command lib e c h1).
Qed.

Lemma gone_jobs_run ts h : gone_jobs h `prefix_of` gone_jobs (system_run h ts).
Proof. revert h. induction ts as [|t ts IH]; intros h; [done |]. etrans; [apply (gone_jobs_stay t h) | apply IH]. Qed.

(** Clients number their reloads from one, each for itself, and the helper knows a job only by that number: a client
    that asks for its first reload takes the job of another away, whose channel is dropped as it is.  Nothing that happens later
    sends the end or a cancellation of that reload. *)
Theorem reload_taken_over id h cj ts : cj ∈ reload_jobs h → job_id cj.2 = id → cj ∈ gone_jobs (system_run (reload_command lib id h) ts).
Proof.
  intros Hin Hid. destruct (gone_jobs_run ts (reload_command lib id h)) as [l ->]. apply elem_of_app. left.
  assert (Hw : cj ∈ gone_jobs (without_job id h)).
  { cbn. apply elem_of_app. right. apply list_elem_of_fmap. exists cj. split; [done |]. apply list_elem_of_filter. split; [| done]. by rewrite Hid, Z.eqb_refl. }
  unfold reload_command. cbv zeta. destruct (negb _); [cbn; apply elem_of_app; by left |].
  destruct (pop_jobs _), (bounded_reload_window _ _) as [[] ?]. cbn. apply elem_of_app. by left.
Qed.

(** *** What the channel of a reload carries *)

Definition is_reload (r : GhosttyResponse) : bool :=
  match r with GReloadStartedV2 _ _ | GReloadChunkV2 _ _ _ _ | GReloadDoneV2 _ _ | GReloadCancelledV2 _ => true | _ => false end.

Definition chan_ok (ch : Chan GhosttyResponse) : Prop := Forall (λ r, is_reload r = true) (ch_sent ch).
Definition job_ok (cj : Chan GhosttyResponse * GhosttyReloadJob) : Prop :=
  chan_ok cj.1 ∧ match pending_response cj.2 with Some r => is_reload r = true | None => True end.
Definition jobs_ok (h : Helper T) : Prop := Forall job_ok (reload_jobs h) ∧ Forall job_ok (gone_jobs h).

Lemma sent_ok r ch ch' : chan_ok ch → is_reload r = true → try_send r ch = Sent ch' → chan_ok ch'.
Proof.
  unfold try_send. intros Hc Hr. destruct (negb _); [done |]. destruct (_ =? _)%nat; [done |]. intros [= <-].
  apply Forall_app. split; [done | by constructor].
Qed.

Lemma poll_chunk_ok cut hist start ch j : job_ok (ch, j) → job_ok (poll_chunk cut hist start ch j).1.
Proof.
  intros Hj. unfold poll_chunk. cbv zeta. destruct (_ <=? _); [| destruct (_ <=? _); [done |]; destruct (_ =? _); [done |]; case_bool_decide; [done |]].
  - case_match eqn:Hs; [split; [by eapply (sent_ok _ ch); [apply Hj | | exact Hs] | apply Hj] | done | done].
  - unfold send_chunk. destruct (feed _ _ _) as [sa o]. cbv zeta.
    case_match eqn:Hs; [split; [by eapply (sent_ok _ ch); [apply Hj | | exact Hs] | apply Hj] | by split; [apply Hj |] | done].
Qed.

Lemma poll_room_ok cut hist start ch j : job_ok (ch, j) → job_ok (poll_room cut hist start ch j).1.
Proof.
  intros Hj. unfold poll_room. destruct (_ =? _)%nat; [done |]. set (j' := if _ <? _ then _ else j).
  assert (Hj' : job_ok (ch, j')) by (unfold j'; by case_match). clearbody j'. destruct (job_started j'); [by apply poll_chunk_ok |].
  case_match eqn:Hs; [| done | done]. apply poll_chunk_ok. split; [by eapply (sent_ok _ ch); [apply Hj' | | exact Hs] | apply Hj'].
Qed.

Lemma poll_job_ok cut l cj : job_ok cj → job_ok (poll_job cut l cj).1.
Proof.
  intros [Hc Hp]. unfold poll_job. assert (H : job_ok (poll_send_next cut (history l) (history_start_abs l) cj.1 cj.2).1).
  { unfold poll_send_next. destruct (pending_response cj.2) as [r|] eqn:Hr.
    - case_match eqn:Hs; [apply poll_room_ok; split; [by eapply (sent_ok _ cj.1); [done | | exact Hs] | done] | split; [done | cbn; by rewrite Hr] | done].
    - apply poll_room_ok. split; [done | cbn; by rewrite Hr]. }
  destruct (poll_send_next _ _ _ _ _) as [[ch j] fin]. done.
Qed.

Lemma cancel_on_ok id ch : chan_ok ch → chan_ok (cancel_on id ch).
Proof. intros H. unfold cancel_on. case_match eqn:Hs; [by eapply (sent_ok _ ch); [done | | exact Hs] | done | done]. Qed.

Lemma pop_jobs_ok jobs : Forall job_ok jobs → Forall job_ok (pop_jobs jobs).1 ∧ Forall job_ok (pop_jobs jobs).2.
Proof.
  induction 1 as [|[ch j] jobs [Hc Hp] Hj IH]; [done |]. cbn [pop_jobs]. destruct (_ <=? _)%nat; [| by repeat constructor]. destruct (pop_jobs jobs). destruct IH.
  split; [done |]. constructor; [| done]. split; [by apply cancel_on_ok | done].
Qed.

Lemma set_jobs_jobs_ok kept gone h : jobs_ok h → Forall job_ok kept → Forall job_ok gone → jobs_ok (set_jobs kept gone h).
Proof. intros [H1 H2] Hk Hg. split; [done |]. by apply Forall_app. Qed.

Lemma retain_jobs_ok f h : (∀ cj, job_ok cj → job_ok (f cj).1) → jobs_ok h → jobs_ok (let '(kept, gone) := retain_mut f (reload_jobs h) in set_jobs kept gone h).
Proof.
  intros Hf [Hk Hg]. destruct (retain_Forall job_ok job_ok job_ok f _ Hk) as [H1 H2]; [intros a Ha; by case_match; apply Hf |].
  destruct (retain_mut f _). by apply set_jobs_jobs_ok.
Qed.

Lemma same_jobs_ok (h h' : Helper T) : jobs_ok h → reload_jobs h' = reload_jobs h → gone_jobs h' = gone_jobs h → jobs_ok h'.
Proof. unfold jobs_ok. by intros ? -> ->. Qed.

Lemma process_output_reloads l h : reload_jobs (process_output lib l h) = reload_jobs h.
Proof.
  unfold process_output. destruct (Stripper.feed _ l) as [stripper output]. destruct (vt_write lib _ l), (drain_terminal_pty_replies _ _) as [? []], (append_bounded _ _).
  all: by case_bool_decide.
Qed.

Lemma resize_helper_reloads ok now r c h : reload_jobs (resize_helper lib ok now r c h).1 = reload_jobs h.
Proof. unfold resize_helper. destruct ok; cbn; [by destruct (vt_resize lib _ _ _) | done]. Qed.

Lemma reload_command_jobs_ok id h : jobs_ok h → jobs_ok (reload_command lib id h).
Proof.
  intros Hj. unfold reload_command. cbv zeta. assert (H : jobs_ok (without_job id h)) by by apply retain_jobs_ok.
  destruct (negb _); [apply set_jobs_jobs_ok; [done | apply H | constructor; [| done]; split; [apply cancel_on_ok; constructor | done]] |].
  destruct (pop_jobs_ok _ (proj1 H)) as [H1 H2]. cbn [next_generation reload_jobs].
  destruct (pop_jobs _) as [kept gone], (bounded_reload_window _ _) as [[start n] tr]. apply set_jobs_jobs_ok; [done | | done].
  apply Forall_app. split; [done |]. constructor; [by split; constructor | done].
Qed.

Lemma command_jobs_ok e c h : jobs_ok h → jobs_ok (helper_command lib e c h).1.
Proof.
  intros Hj. pose proof (resize_helper_jobs (pty_resizes e) (now_ms e)) as Hr. pose proof (resize_helper_reloads (pty_resizes e) (now_ms e)) as Hr'.
  destruct c as [|cols rows|cols rows pre|l|cols rows|id|id|id|cwd argv| |]; cbn [helper_command]; try done.
  - specialize (Hr rows cols h). specialize (Hr' rows cols h). destruct (resize_helper lib _ _ _ _ h). by apply (same_jobs_ok h).
  - unfold subscribe_v2_command. specialize (Hr rows cols h). specialize (Hr' rows cols h). destruct (resize_helper lib _ _ _ _ h). by apply (same_jobs_ok h).
  - unfold input_command. by destruct (push _ l).
  - specialize (Hr rows cols h). specialize (Hr' rows cols h). destruct (resize_helper lib _ _ _ _ h) as [h1 []]; by apply (same_jobs_ok h).
  - by apply reload_command_jobs_ok.
  - by apply retain_jobs_ok.
  - destruct (sidecar e); [| done]. apply (same_jobs_ok h); [done | apply process_output_reloads | apply process_output_jobs].
Qed.

Lemma on_job_ok n f h : (∀ ch : Chan GhosttyResponse, ch_sent (f ch) = ch_sent ch) → jobs_ok h → jobs_ok (on_job n f h).
Proof.
  intros Hf [Hk Hg]. split; [| done]. cbn. rewrite Forall_lookup in Hk |- *. intros i cj. destruct (decide (i = n)) as [->|Hne].
  - rewrite list_lookup_alter_eq. destruct (reload_jobs h !! n) as [cj'|] eqn:Hl; [| done]. intros [= <-]. destruct (Hk _ _ Hl) as [Hc Hp].
    split; [| done]. unfold chan_ok. cbn. by rewrite Hf.
  - rewrite list_lookup_alter_ne by done. apply Hk.
Qed.

Lemma step_jobs_ok t h : jobs_ok h → jobs_ok (system_step t h).
Proof.
  intros Hj. destruct t as [cut t|id|id|n|n]; cbn [system_step]; try done; [| by apply on_job_ok; [apply taken_sent |] | by apply on_job_ok].
  unfold helper_turn. cbv zeta. assert (Hp : jobs_ok (poll_jobs cut h)) by (apply retain_jobs_ok; [apply poll_job_ok | done]).
  set (h1 := poll_jobs cut h) in *. clearbody h1. destruct t as [[code|]|[[l|]|]|w| |e c]; cbn [fst]; try done.
  - apply (same_jobs_ok h1); [done | apply process_output_reloads | apply process_output_jobs].
  - destruct (is_empty _); [done |]. by destruct (write_one_pending_pty_chunk w _) as [[q o]|].
  - pose proof (command_jobs_ok e c h1 Hp). by destruct (helper_command lib e c h1).
Qed.

Lemma run_jobs_ok ts h : jobs_ok h → jobs_ok (system_run h ts).
Proof. revert h. induction ts as [|t ts IH]; intros h Hj; [done |]. apply (IH (system_step t h)). by apply step_jobs_ok. Qed.

End system.

(** ** A session of two clients *)

Module Demo.

(** A terminal that keeps what it was given *)
Definition lib : TerminalLib bytes := {| vt_write t l := (t ++ l, []); vt_resize t _ _ := Some t; view_of _ := None; active_alternate _ := Some false |}.

Definition meta : GhosttySessionMetadata := {| md_name := "dev"; md_provider := "ghostty"; md_pid := 7; md_socket_path := "/s"; md_created_at_ms := 0;
  md_last_seen_ms := 0; md_cwd := None; md_rows := 24; md_cols := 80; md_status := "running"; md_protocol_version := 1 |}.
Definition around : Surroundings := {| now_ms := 1; pty_resizes := true; sidecar := Err "no program" |}.

Definition asks (c : HelperCommand) : SystemStep := HelperStep 0 (OnHelperCommand around c).
Definition writes (l : bytes) : SystemStep := HelperStep 0 (PtyRead (Some (Some l))).
Definition steps : list SystemStep := [writes [104]; asks (SubscribeV2 80 24 0); writes [105; 33]; TakeLive 0; asks (SubscribeV2 80 24 0); writes [10]].

Definition session : Helper bytes := Eval vm_compute in system_run lib (new_helper [] meta) steps.

Lemma session_run : system_run lib (new_helper [] meta) steps = session.
Proof. by_vm. Qed.

Lemma live_frames_exact_witness : v2_subscribers (clients session) ≠ [] ∧
  (∀ s, s ∈ v2_subscribers (clients session) → v_resync s = true ∨ (walk (v_from s) (ch_sent (v_live s))).1 = 4) ∧
  all_output (log_of session) = [104; 105; 33; 10].
Proof. split; [done |]. pose proof (live_frames_exact lib [] meta steps) as H. cbv zeta in H. rewrite session_run in H. destruct H as (_ & H & _); done. Defined.

Definition reloading : Helper bytes := Eval vm_compute in reload_command lib 1 session.

Lemma reload_taken_over_witness : ∃ cj, cj ∈ reload_jobs reloading ∧ ch_sent cj.1 = [] ∧ ∀ ts, cj ∈ gone_jobs (system_run lib (reload_command lib 1 reloading) ts).
Proof.
  assert (H : ∃ cj, reload_jobs reloading = [cj] ∧ job_id cj.2 = 1 ∧ ch_sent cj.1 = []) by by eexists. destruct H as (cj & Hj & Hid & Hs). exists cj.
  assert (Hin : cj ∈ reload_jobs reloading) by (rewrite Hj; by apply list_elem_of_singleton). split_and!; [done | done |].
  intros ts. by apply (reload_taken_over lib 1 reloading cj ts).
Defined.
End Demo.
