(* ===== verification/GhosttyAttach.v ===== *)
(** * An attach to a ghostty session, from the process to the screen

    crates/portl-agent/src/session_handler/ghostty.rs: between the helper of a session (GhosttyHelper.v)
    and the client (AttachV2.v) are two tasks.  In the helper's process [handle_client] writes what
    the helper has for one client to a socket; in the agent [attach_v2_dispatch_loop] reads that
    socket and puts each message on one of four streams to the client.  This file models both
    and proves what the chain of the three guarantees: what the user sees is what the process
    wrote. *)

From stdpp Require Import strings.
From S2P Require Import Prelude Bytes Text Terminal QueryStripper Framing Steps Pty Providers AttachV2 GhosttyReplay GhosttyReload GhosttyView GhosttyHelper.
Import Framing.Payload.

#[local] Abbreviation len := GhosttyReplay.len.

(** ** The dispatcher *)

Record AttachV2ResizeTracker := { current_resize_id : Z; deferred_viewport : option (Z * string) }.

Definition new_tracker (id : Z) : AttachV2ResizeTracker := {| current_resize_id := id; deferred_viewport := None |}.

Definition record_resize (resize_id : Z) (t : AttachV2ResizeTracker) : AttachV2ResizeTracker * option (Z * string) :=
  let current := Z.max (current_resize_id t) resize_id in
  match deferred_viewport t with
  | Some (id, reason) =>
      if id <=? current then ({| current_resize_id := current; deferred_viewport := None |}, Some (id, reason))
      else ({| current_resize_id := current; deferred_viewport := deferred_viewport t |}, None)
  | None => ({| current_resize_id := current; deferred_viewport := None |}, None)
  end.

Definition request_or_defer (resize_id : Z) (reason : string) (t : AttachV2ResizeTracker) : AttachV2ResizeTracker * option (Z * string) :=
  if resize_id <=? current_resize_id t then (t, Some (resize_id, reason))
  else ({| current_resize_id := current_resize_id t; deferred_viewport := Some (resize_id, reason) |}, None).

Inductive GhosttyAttachV2Command :=
  | CmdInput (l : bytes) | CmdResize (resize_id cols rows : Z) | CmdDetach | CmdReload (reload_id : Z) | CmdCancelReload (reload_id : Z)
  | CmdRequestViewport (resize_id : Z) (reason : string).

(** The requests on the socket; that of a resize does not carry its number, which is noted here. *)
Inductive GhosttyRequest :=
  | RqInput (l : bytes) | RqResize (resize_id cols rows : Z) | RqDetach | RqReload (reload_id : Z) | RqCancelReload (reload_id : Z)
  | RqViewport (resize_id : Z) (reason : string).

(** The four streams to the client: that of snapshots keeps the last one, those of live output and history are
    bounded.  [d_emitted] has all that was put on one of them. *)
Record Dispatch := {
  d_viewport : option AttachV2ServerFrame;
  d_live : Chan AttachV2ServerFrame;
  d_history : Chan AttachV2ServerFrame;
  d_requests : list GhosttyRequest;
  d_pending_resize : option Z;
  d_tracker : AttachV2ResizeTracker;
  d_resync : bool;
  d_emitted : list Event;
  d_tries : nat;
}.

Definition set_viewport v d := {| d_viewport := v; d_live := d_live d; d_history := d_history d; d_requests := d_requests d;
  d_pending_resize := d_pending_resize d; d_tracker := d_tracker d; d_resync := d_resync d; d_emitted := d_emitted d; d_tries := d_tries d |}.
Definition set_d_live v d := {| d_viewport := d_viewport d; d_live := v; d_history := d_history d; d_requests := d_requests d;
  d_pending_resize := d_pending_resize d; d_tracker := d_tracker d; d_resync := d_resync d; d_emitted := d_emitted d; d_tries := d_tries d |}.
Definition set_d_history v d := {| d_viewport := d_viewport d; d_live := d_live d; d_history := v; d_requests := d_requests d;
  d_pending_resize := d_pending_resize d; d_tracker := d_tracker d; d_resync := d_resync d; d_emitted := d_emitted d; d_tries := d_tries d |}.
Definition requested r d := {| d_viewport := d_viewport d; d_live := d_live d; d_history := d_history d; d_requests := d_requests d ++ [r];
  d_pending_resize := d_pending_resize d; d_tracker := d_tracker d; d_resync := d_resync d; d_emitted := d_emitted d; d_tries := d_tries d |}.
Definition set_pending_resize v d := {| d_viewport := d_viewport d; d_live := d_live d; d_history := d_history d; d_requests := d_requests d;
  d_pending_resize := v; d_tracker := d_tracker d; d_resync := d_resync d; d_emitted := d_emitted d; d_tries := d_tries d |}.
Definition set_tracker v d := {| d_viewport := d_viewport d; d_live := d_live d; d_history := d_history d; d_requests := d_requests d;
  d_pending_resize := d_pending_resize d; d_tracker := v; d_resync := d_resync d; d_emitted := d_emitted d; d_tries := d_tries d |}.
Definition set_d_resync v d := {| d_viewport := d_viewport d; d_live := d_live d; d_history := d_history d; d_requests := d_requests d;
  d_pending_resize := d_pending_resize d; d_tracker := d_tracker d; d_resync := v; d_emitted := d_emitted d; d_tries := d_tries d |}.
Definition emitted ev d := {| d_viewport := d_viewport d; d_live := d_live d; d_history := d_history d; d_requests := d_requests d;
  d_pending_resize := d_pending_resize d; d_tracker := d_tracker d; d_resync := d_resync d; d_emitted := d_emitted d ++ [ev]; d_tries := d_tries d |}.
Definition tried d := {| d_viewport := d_viewport d; d_live := d_live d; d_history := d_history d; d_requests := d_requests d;
  d_pending_resize := d_pending_resize d; d_tracker := d_tracker d; d_resync := d_resync d; d_emitted := d_emitted d; d_tries := S (d_tries d) |}.

(** The loop returns, or fails. *)
Inductive DispatchEnd := DispatchDone | DispatchFailed.
Abbreviation Dispatching := (Step Dispatch DispatchEnd).

Section dispatch.
Context {ZS : Zstd}.
Variable attach_id : bytes.
(** Whether the n-th write to the socket or to the control stream succeeds *)
Variable tries : nat → bool.

Definition attempt : Dispatching bool := λ d, (tried d, Ok (tries (d_tries d))).

(** [attach.…().await], and the same with [?] *)
Definition try_request (r : GhosttyRequest) : Dispatching bool := ok ← attempt; (if (ok : bool) then assign (requested r) else skip);; mret ok.
Definition request (r : GhosttyRequest) : Dispatching unit := ok ← try_request r; if (ok : bool) then skip else break DispatchFailed.
Definition request_anyway (r : GhosttyRequest) : Dispatching unit := _ ← try_request r; skip.

(** [control_tx.send(…)], with [?] and without *)
Definition try_control (f : AttachV2ServerFrame) : Dispatching bool :=
  ok ← attempt; (if (ok : bool) then assign (emitted (OnControl (Frame f))) else skip);; mret ok.
Definition send_control (f : AttachV2ServerFrame) : Dispatching unit := ok ← try_control f; if (ok : bool) then skip else break DispatchFailed.
Definition control_anyway (f : AttachV2ServerFrame) : Dispatching unit := _ ← try_control f; skip.

Definition encoded (l : bytes) : Dispatching AttachV2Payload := match encode_auto l with Ok p => mret p | Err _ => break DispatchFailed end.

Definition live_response (current_id s e : Z) (l : bytes) : Dispatching bool :=
  p ← encoded l;
  let f := LiveOutput attach_id s e p in
  d ← get id;
  match try_send f (d_live d) with
  | Sent c => assign (set_d_live c);; assign (emitted (OnLive (Frame f)));; mret false
  | Full =>
      if d_resync d then mret false
      else
        assign (set_d_resync true);;
        send_control (ResyncRequired attach_id "live queue full" s);;
        request_anyway (RqViewport current_id "live_queue_full");;
        mret false
  | Closed => mret true
  end.

Definition viewport_response (generation covers cols rows resize_id : Z) (l : bytes) : Dispatching bool :=
  assign (set_d_resync false);;
  p ← encoded l;
  let f := ViewportSnapshot attach_id generation covers cols rows resize_id p in
  assign (set_viewport (Some f));;
  assign (emitted (OnViewport (Frame f)));;
  mret false.

Definition chunk_response (current_id reload_id seq : Z) (progress : AttachV2Progress) (l : bytes) : Dispatching bool :=
  p ← encoded l;
  let f := ReloadChunk attach_id reload_id seq progress p in
  d ← get id;
  match try_send f (d_history d) with
  | Sent c => assign (set_d_history c);; assign (emitted (OnHistory (Frame f)));; mret false
  | Full =>
      control_anyway (ReloadCancelled attach_id reload_id);;
      request_anyway (RqCancelReload reload_id);;
      request_anyway (RqViewport current_id "history_queue_full");;
      mret false
  | Closed => mret true
  end.

(** Whether the loop is to return *)
Definition handle_attach_v2_response (current_id : Z) (r : GhosttyResponse) : Dispatching bool :=
  match r with
  | GOutputV2 s e l => live_response current_id s e l
  | GViewportV2 generation covers cols rows resize_id l => viewport_response generation covers cols rows resize_id l
  | GReloadStartedV2 reload_id total => send_control (ReloadStarted attach_id reload_id total);; mret false
  | GReloadChunkV2 reload_id seq progress l => chunk_response current_id reload_id seq progress l
  | GReloadDoneV2 reload_id generation =>
      send_control (ReloadDone attach_id reload_id generation);; request_anyway (RqViewport current_id "reload_done");; mret false
  | GReloadCancelledV2 reload_id =>
      send_control (ReloadCancelled attach_id reload_id);; request_anyway (RqViewport current_id "reload_cancelled");; mret false
  | GResyncRequiredV2 reason from_seq =>
      send_control (ResyncRequired attach_id reason from_seq);; request_anyway (RqViewport current_id reason);; mret false
  | GExit code => control_anyway (Exit attach_id code);; mret true
  | GError message => control_anyway (Error attach_id message false);; mret true
  | GAck _ | GAttached _ _ | GAttachedV2 _ _ _ _ _ _ _ _ | GOutput _ | GRunResult _ | GHistory _ => mret false
  end.

Definition handle_attach_v2_command (c : GhosttyAttachV2Command) : Dispatching unit :=
  match c with
  | CmdInput l => request (RqInput l)
  | CmdResize resize_id cols rows => request (RqResize resize_id cols rows);; request (RqViewport resize_id "resize")
  | CmdDetach => request RqDetach
  | CmdReload reload_id => request (RqReload reload_id)
  | CmdCancelReload reload_id => request (RqCancelReload reload_id)
  | CmdRequestViewport resize_id reason => request (RqViewport resize_id reason)
  end.

(** The tracker's answer is asked for. *)
Definition track (f : AttachV2ResizeTracker → AttachV2ResizeTracker * option (Z * string)) : Dispatching unit :=
  d ← get id;
  let '(t, asked) := f (d_tracker d) in
  assign (set_tracker t);;
  match asked with Some (resize_id, reason) => request (RqViewport resize_id reason) | None => skip end.

Definition dispatch_command (c : GhosttyAttachV2Command) : Dispatching unit :=
  match c with
  | CmdResize resize_id cols rows =>
      request (RqResize resize_id cols rows);;
      assign (set_pending_resize (Some resize_id));;
      track (record_resize resize_id)
  | CmdRequestViewport resize_id reason => track (request_or_defer resize_id reason)
  | c => handle_attach_v2_command c
  end.

(** [pending_resize_viewport.take()], and what is asked for it *)
Definition take_pending_resize (reason : string) : Dispatching unit :=
  d ← get id;
  match d_pending_resize d with
  | Some resize_id => assign (set_pending_resize None);; request (RqViewport resize_id reason)
  | None => skip
  end.

Definition is_output_v2 (r : GhosttyResponse) : bool := match r with GOutputV2 _ _ _ => true | _ => false end.

(** What the socket gave: a response, its end, or a failure *)
Inductive SocketRead := SocketFrame (r : GhosttyResponse) | SocketEof | SocketError.

Definition dispatch_response (s : SocketRead) : Dispatching unit :=
  match s with
  | SocketError => break DispatchFailed
  | SocketEof => control_anyway (Error attach_id "ghostty attach v2 helper stream closed" false);; break DispatchDone
  | SocketFrame r =>
      d ← get id;
      let output_after_resize := is_output_v2 r && bool_decide (is_Some (d_pending_resize d)) in
      over ← handle_attach_v2_response (current_resize_id (d_tracker d)) r;
      if (over : bool) then break DispatchDone
      else if output_after_resize then take_pending_resize "resize_output" else skip
  end.

(** Which branch of [select!] was ready; beside them, what the tasks that write the streams do with the channels. *)
Inductive DispatchTurn :=
  | OnAttachCommand (c : GhosttyAttachV2Command) | ResizeSettled | OnResponse (s : SocketRead)
  | TakeLiveFrame | TakeHistoryFrame | DropLive | DropHistory.

Definition dispatch_turn (t : DispatchTurn) : Dispatching unit :=
  match t with
  | OnAttachCommand c => dispatch_command c
  | ResizeSettled => take_pending_resize "resize_settled"
  | OnResponse s => dispatch_response s
  | TakeLiveFrame => assign (λ d, set_d_live (taken (d_live d)) d)
  | TakeHistoryFrame => assign (λ d, set_d_history (taken (d_history d)) d)
  | DropLive => assign (λ d, set_d_live (drop_receiver (d_live d)) d)
  | DropHistory => assign (λ d, set_d_history (drop_receiver (d_history d)) d)
  end.

Fixpoint attach_v2_dispatch_loop (ts : list DispatchTurn) : Dispatching unit :=
  match ts with [] => skip | t :: ts => dispatch_turn t;; attach_v2_dispatch_loop ts end.

(** The answer to the attach, and the channels of a new session *)
Record GhosttyAttachV2 := { a_prelude : bytes; a_viewport : bytes; a_covers : Z; a_generation : Z; a_cols : Z; a_rows : Z; a_resize_id : Z }.

Definition attach_of (r : GhosttyResponse) : option GhosttyAttachV2 :=
  match r with
  | GAttachedV2 _ prelude viewport covers generation cols rows resize_id =>
      Some {| a_prelude := prelude; a_viewport := viewport; a_covers := covers; a_generation := generation; a_cols := cols; a_rows := rows; a_resize_id := resize_id |}
  | _ => None
  end.

Definition new_session (a : GhosttyAttachV2) : Dispatch := {|
  d_viewport := None; d_live := new_chan 128; d_history := new_chan 16; d_requests := []; d_pending_resize := None;
  d_tracker := new_tracker (a_resize_id a); d_resync := false; d_emitted := []; d_tries := 0 |}.

(** The channel of the history is new: there is room for the prelude. *)
Definition queue_prelude (l : bytes) : Dispatching unit :=
  if bool_decide (l = []) then skip
  else
    p ← encoded l;
    let f := PreludeChunk attach_id 0 {| loaded_bytes := len l; total_bytes := Some (len l); retained_history_truncated := false; complete := true |} p in
    d ← get id;
    match try_send f (d_history d) with
    | Sent c => assign (set_d_history c);; assign (emitted (OnHistory (Frame f)))
    | Full | Closed => break DispatchFailed
    end.

Definition enqueue_initial_attach_v2_frames (a : GhosttyAttachV2) : Dispatching unit :=
  send_control (AttachReady attach_id "ghostty");;
  queue_prelude (a_prelude a);;
  p ← encoded (a_viewport a);
  let f := ViewportSnapshot attach_id (a_generation a) (a_covers a) (a_cols a) (a_rows a) (a_resize_id a) p in
  assign (set_viewport (Some f));;
  assign (emitted (OnViewport (Frame f))).

(** A session that cannot be set up fails before the task is spawned; a task that fails says so (its message ends with the cause,
    which is left out). *)
Definition session_dispatch (a : GhosttyAttachV2) (ts : list DispatchTurn) : Dispatch * result DispatchEnd unit :=
  match enqueue_initial_attach_v2_frames a (new_session a) with
  | (d, Err e) => (d, Err e)
  | (d, Ok _) =>
      match attach_v2_dispatch_loop ts d with
      | (d, Err DispatchFailed) => ((control_anyway (Error attach_id "ghostty attach v2 dispatcher stopped" false) d).1, Err DispatchFailed)
      | r => r
      end
  end.

(** The commands a client's frames are turned into *)
Definition handle_client_frame (f : AttachV2ClientFrame) : option GhosttyAttachV2Command :=
  match f with
  | CInput a l => if bool_decide (a = attach_id) then Some (CmdInput l) else None
  | CResize a resize_id cols rows => if bool_decide (a = attach_id) then Some (CmdResize resize_id cols rows) else None
  | CDetach a => if bool_decide (a = attach_id) then Some CmdDetach else None
  | CReload a reload_id => if bool_decide (a = attach_id) then Some (CmdReload reload_id) else None
  | CCancelReload a reload_id => if bool_decide (a = attach_id) then Some (CmdCancelReload reload_id) else None
  | CRequestViewport a reason resize_id => if bool_decide (a = attach_id) then Some (CmdRequestViewport resize_id reason) else None
  | CSignal _ _ | CHeartbeatAck _ _ => None
  end.

(** ** Parts of the dispatcher *)

Section logic.
Variable I : Dispatch → Prop.

Lemma wp_try_request r (Q : bool → Dispatch → Prop) d : Q false (tried d) → Q true (requested r (tried d)) → wp I (try_request r) Q d.
Proof. intros H1 H2. unfold wp, try_request, attempt, mbind, step_bind. cbn. by destruct (tries (d_tries d)). Qed.

Lemma wp_socket_request r (Q : unit → Dispatch → Prop) d : I (tried d) → Q tt (requested r (tried d)) → wp I (request r) Q d.
Proof. intros H1 H2. by apply wp_bind, wp_try_request. Qed.

Lemma wp_request_anyway r (Q : unit → Dispatch → Prop) d : Q tt (tried d) → Q tt (requested r (tried d)) → wp I (request_anyway r) Q d.
Proof. intros H1 H2. by apply wp_bind, wp_try_request. Qed.

Lemma wp_try_control f (Q : bool → Dispatch → Prop) d : Q false (tried d) → Q true (emitted (OnControl (Frame f)) (tried d)) → wp I (try_control f) Q d.
Proof. intros H1 H2. unfold wp, try_control, attempt, mbind, step_bind. cbn. by destruct (tries (d_tries d)). Qed.

Lemma wp_control f (Q : unit → Dispatch → Prop) d : I (tried d) → Q tt (emitted (OnControl (Frame f)) (tried d)) → wp I (send_control f) Q d.
Proof. intros H1 H2. by apply wp_bind, wp_try_control. Qed.

Lemma wp_control_anyway f (Q : unit → Dispatch → Prop) d : Q tt (tried d) → Q tt (emitted (OnControl (Frame f)) (tried d)) → wp I (control_anyway f) Q d.
Proof. intros H1 H2. by apply wp_bind, wp_try_control. Qed.

Lemma wp_encoded l (Q : AttachV2Payload → Dispatch → Prop) d : I d → (∀ p, encode_auto l = Ok p → Q p d) → wp I (encoded l) Q d.
Proof. intros H1 H2. unfold encoded. destruct (encode_auto l); [by apply H2 | done]. Qed.
End logic.

(** *** Snapshots are asked for sizes the helper knows *)

Definition told_size (initial : Z) (rs : list GhosttyRequest) (id : Z) : Prop :=
  id ≤ initial ∨ ∃ id' cols rows, RqResize id' cols rows ∈ rs ∧ id ≤ id'.

Definition asks_known (initial : Z) (rs : list GhosttyRequest) : Prop :=
  ∀ pre id reason post, rs = pre ++ RqViewport id reason :: post → told_size initial pre id.

Record sizes_known (initial : Z) (d : Dispatch) : Prop := {
  known_asked : asks_known initial (d_requests d);
  known_current : told_size initial (d_requests d) (current_resize_id (d_tracker d));
  known_pending : ∀ id, d_pending_resize d = Some id → told_size initial (d_requests d) id;
}.

Lemma told_size_app initial rs rs' id : told_size initial rs id → told_size initial (rs ++ rs') id.
Proof. intros [H | (id' & cols & rows & Hin & Hle)]; [by left |]. right. exists id', cols, rows. split; [| done]. apply elem_of_app. by left. Qed.

Lemma told_size_le initial rs id id' : told_size initial rs id' → id ≤ id' → told_size initial rs id.
Proof. intros [H | (i & cols & rows & Hin & Hle)] ?; [left; lia |]. right. exists i, cols, rows. split; [done | lia]. Qed.

Lemma asks_known_snoc initial rs r : asks_known initial rs → (∀ id reason, r = RqViewport id reason → told_size initial rs id) → asks_known initial (rs ++ [r]).
Proof.
  intros Hk Hr pre id reason post Heq. destruct post as [|x post _] using rev_ind.
  - apply app_inj_tail in Heq as [<- ->]. by eapply Hr.
  - rewrite app_comm_cons, app_assoc in Heq. apply app_inj_tail in Heq as [-> _]. by eapply Hk.
Qed.

Lemma sizes_requested initial r d : sizes_known initial d → (∀ id reason, r = RqViewport id reason → told_size initial (d_requests d) id) →
  sizes_known initial (requested r d).
Proof. intros [H1 H2 H3] Hr. split; cbn; [by apply asks_known_snoc | by apply told_size_app | intros id Hid; apply told_size_app; auto]. Qed.

Lemma sizes_same initial d d' : sizes_known initial d → d_requests d' = d_requests d → d_pending_resize d' = d_pending_resize d → d_tracker d' = d_tracker d →
  sizes_known initial d'.
Proof. intros [H1 H2 H3] E1 E2 E3. split; rewrite ?E1, ?E2, ?E3; done. Qed.

Section sizes.
Variable initial : Z.
Abbreviation Known := (sizes_known initial).

Lemma known_tried d : Known d → Known (tried d).
Proof. intros H. by apply (sizes_same _ d). Qed.

Lemma known_request r d : Known d → (∀ id reason, r = RqViewport id reason → told_size initial (d_requests d) id) → wp Known (request r) (λ _, Known) d.
Proof. intros H Hr. apply wp_socket_request; [by apply known_tried |]. apply sizes_requested; [by apply known_tried | done]. Qed.

Lemma known_request_anyway r d : Known d → (∀ id reason, r = RqViewport id reason → told_size initial (d_requests d) id) →
  wp Known (request_anyway r) (λ _, Known) d.
Proof. intros H Hr. apply wp_request_anyway; [by apply known_tried |]. apply sizes_requested; [by apply known_tried | done]. Qed.

(** The snapshot that makes good for something lost is asked at the size of the tracker. *)
Lemma known_recovery current_id reason d : Known d → told_size initial (d_requests d) current_id →
  wp Known (request_anyway (RqViewport current_id reason);; mret false) (λ _ : bool, Known) d.
Proof. intros H Hc. apply wp_bind. eapply wp_mono; [apply known_request_anyway; [done | by intros ?? [= <- _]] | done]. Qed.

Lemma known_control f d : Known d → wp Known (send_control f) (λ _ d', Known d' ∧ d_requests d' = d_requests d) d.
Proof. intros H. apply wp_control; [by apply known_tried |]. split; [by apply (sizes_same _ d) | done]. Qed.

Lemma known_response current_id r d : Known d → told_size initial (d_requests d) current_id → wp Known (handle_attach_v2_response current_id r) (λ _, Known) d.
Proof.
  intros H Hc. assert (Hrec : ∀ f reason, wp Known (send_control f;; request_anyway (RqViewport current_id reason);; mret false) (λ _ : bool, Known) d).
  { intros f reason. apply wp_bind. eapply wp_mono; [by apply known_control |]. intros _ d' [Hd Hr]. apply known_recovery; [done | by rewrite Hr]. }
  destruct r as [| | | |s e l|g v cols rows i l|i n|i q pr l|i g|i|reason from| | |code|msg]; cbn [handle_attach_v2_response]; try done.
  - apply wp_bind, wp_encoded; [done |]. intros p _. apply wp_bind, wp_get. unfold id. destruct (try_send _ _); [by apply (sizes_same _ d) | | done].
    destruct (d_resync d); [done |]. apply wp_bind, wp_assign, wp_bind. eapply wp_mono; [apply known_control; by apply (sizes_same _ d) |].
    intros _ d' [Hd Hr]. apply known_recovery; [done | by rewrite Hr].
  - apply wp_bind, wp_assign, wp_bind, wp_encoded; [by apply (sizes_same _ d) |]. intros p _. by apply (sizes_same _ d).
  - apply wp_bind. eapply wp_mono; [by apply known_control |]. by intros _ d' [Hd _].
  - apply wp_bind, wp_encoded; [done |]. intros p _. apply wp_bind, wp_get. unfold id. destruct (try_send _ _); [by apply (sizes_same _ d) | | done].
    assert (Hgo : ∀ d', Known d' → d_requests d' = d_requests d →
      wp Known (request_anyway (RqCancelReload i);; request_anyway (RqViewport current_id "history_queue_full");; mret false) (λ _ : bool, Known) d').
    { intros d' Hd Hr. apply wp_bind, wp_request_anyway; (apply known_recovery; [| cbn; rewrite Hr; try by apply told_size_app]).
      - by apply known_tried.
      - done.
      - by apply sizes_requested; [apply known_tried |]. }
    apply wp_bind, wp_control_anyway; apply Hgo; try done; by apply (sizes_same _ d).
  - apply wp_bind, wp_control_anyway; by apply (sizes_same _ d).
  - apply wp_bind, wp_control_anyway; by apply (sizes_same _ d).
Qed.

Lemma known_track f d : Known d → told_size initial (d_requests d) (current_resize_id (f (d_tracker d)).1) →
  (∀ id reason, (f (d_tracker d)).2 = Some (id, reason) → id ≤ current_resize_id (f (d_tracker d)).1) → wp Known (track f) (λ _, Known) d.
Proof.
  intros [H1 H2 H3] Ht Ha. unfold track. apply wp_bind, wp_get. unfold id. destruct (f (d_tracker d)) as [t asked]. cbn [fst snd] in *.
  apply wp_bind, wp_assign. assert (Hk : Known (set_tracker t d)) by by split. destruct asked as [[i reason]|]; [| done].
  apply known_request; [done |]. intros i' reason' [= <- <-]. eapply told_size_le; [exact Ht | by eapply Ha].
Qed.

Lemma known_command c d : Known d → wp Known (dispatch_command c) (λ _, Known) d.
Proof.
  intros H. destruct c as [l|i cols rows| |i|i|i reason]; cbn [dispatch_command handle_attach_v2_command]; try (by apply known_request).
  - apply wp_bind, wp_socket_request; [by apply known_tried |]. apply wp_bind, wp_assign.
    assert (Hi : told_size initial (d_requests d ++ [RqResize i cols rows]) i) by (right; exists i, cols, rows; split; [apply elem_of_app; right; by apply list_elem_of_singleton | lia]).
    assert (Hd : Known (requested (RqResize i cols rows) (tried d))) by by apply sizes_requested; [apply known_tried |].
    apply known_track; cbn.
    + destruct Hd as [H1 H2 H3]. split; cbn; [done | done | by intros ? [= <-]].
    + unfold record_resize. destruct (Z.max_spec (current_resize_id (d_tracker d)) i) as [[_ Hm]|[_ Hm]]; rewrite Hm;
        repeat case_match; cbn; try done; apply told_size_app, H.
    + unfold record_resize. intros ??. repeat case_match; cbn; try done. intros [= <- <-]. by apply Z.leb_le.
  - apply known_track; [done | |]; unfold request_or_defer.
    + case_match; apply H.
    + intros ??. case_match; [| done]. intros [= <- <-]. by apply Z.leb_le.
Qed.

Lemma known_pending_resize reason d : Known d → wp Known (take_pending_resize reason) (λ _, Known) d.
Proof.
  intros H. unfold take_pending_resize. apply wp_bind, wp_get. unfold id. destruct (d_pending_resize d) as [i|] eqn:Hp; [| done].
  apply wp_bind, wp_assign, known_request; [destruct H; by split | intros ?? [= <- _]]. by apply H.
Qed.

Lemma known_turn t d : Known d → wp Known (dispatch_turn t) (λ _, Known) d.
Proof.
  intros H. destruct t as [c| |s| | | |]; cbn [dispatch_turn]; [by apply known_command | by apply known_pending_resize | | by apply (sizes_same _ d)..].
  destruct s as [r| |]; cbn [dispatch_response]; [| | done].
  - apply wp_bind, wp_get. unfold id. apply wp_bind. eapply wp_mono; [apply known_response; [done | apply H] |]. intros [] d' Hd; [done |].
    case_match; [by apply known_pending_resize | done].
  - apply wp_bind, wp_control_anyway; by apply (sizes_same _ d).
Qed.

Lemma known_loop ts d : Known d → wp Known (attach_v2_dispatch_loop ts) (λ _, Known) d.
Proof.
  revert d. induction ts as [|t ts IH]; intros d H; [done |]. cbn [attach_v2_dispatch_loop]. apply wp_bind. eapply wp_mono; [by apply known_turn |].
  intros [] d'. apply IH.
Qed.
End sizes.

Lemma known_initial a : wp (sizes_known (a_resize_id a)) (enqueue_initial_attach_v2_frames a) (λ _, sizes_known (a_resize_id a)) (new_session a).
Proof.
  assert (H : sizes_known (a_resize_id a) (new_session a)) by (split; cbn; [by intros [] | by left | done]). set (d := new_session a) in *. clearbody d.
  assert (Hv : ∀ d, sizes_known (a_resize_id a) d → wp (sizes_known (a_resize_id a)) (p ← encoded (a_viewport a);
    let f := ViewportSnapshot attach_id (a_generation a) (a_covers a) (a_cols a) (a_rows a) (a_resize_id a) p in
    assign (set_viewport (Some f));; assign (emitted (OnViewport (Frame f)))) (λ _, sizes_known (a_resize_id a)) d).
  { intros d' Hd. apply wp_bind, wp_encoded; [done |]. intros p _. by apply (sizes_same _ d'). }
  unfold enqueue_initial_attach_v2_frames. apply wp_bind. eapply wp_mono; [by apply known_control |]. intros [] d1 [H1 _]. apply wp_bind.
  unfold queue_prelude. case_bool_decide; [by apply wp_ret, Hv |]. apply wp_bind, wp_encoded; [done |]. intros p _. apply wp_bind, wp_get. unfold id.
  destruct (try_send _ _); [apply wp_bind, wp_assign, wp_assign, Hv; by apply (sizes_same _ d1) | done | done].
Qed.

(** Whatever the client and the helper send and whatever fails, the dispatcher asks the helper for a snapshot at
    the size number n only after it has told the helper the size of that number, or of a later one; only the number the attach
    began with needs no telling. *)
Theorem snapshot_after_resize a ts pre id reason post : d_requests (session_dispatch a ts).1 = pre ++ RqViewport id reason :: post →
  id ≤ a_resize_id a ∨ ∃ id' cols rows, RqResize id' cols rows ∈ pre ∧ id ≤ id'.
Proof.
  intros Heq. cut (sizes_known (a_resize_id a) (session_dispatch a ts).1); [intros [H _ _]; by eapply H |]. clear Heq. unfold session_dispatch.
  pose proof (known_initial a) as H. unfold wp in H. destruct (enqueue_initial_attach_v2_frames a (new_session a)) as [d [[]|e]]; [| done].
  pose proof (known_loop (a_resize_id a) ts d H) as Hl. unfold wp in Hl. destruct (attach_v2_dispatch_loop ts d) as [d' [[]|[]]]; [done | done |]. cbn.
  unfold control_anyway, try_control, attempt, mbind, step_bind. cbn. destruct (tries (d_tries d')); by apply (sizes_same _ d').
Qed.

(** *** What is put on the streams *)

(** The position in the output up to which an event reaches; a snapshot that comes later has to cover it. *)
Definition reach (pos : Z) (ev : Event) : Z :=
  match ev with
  | OnLive (Frame (LiveOutput _ _ e _)) => Z.max pos e
  | OnViewport (Frame (ViewportSnapshot _ _ covers _ _ _ _)) => Z.max pos covers
  | _ => pos
  end.
Definition covers_from (pos : Z) (ev : Event) : Prop :=
  match ev with OnViewport (Frame (ViewportSnapshot _ _ covers _ _ _ _)) => pos ≤ covers | _ => True end.
Fixpoint in_order (pos : Z) (evs : list Event) : Prop :=
  match evs with [] => True | ev :: evs => covers_from pos ev ∧ in_order (reach pos ev) evs end.

(** The same of the responses on the socket *)
Definition response_reach (pos : Z) (r : GhosttyResponse) : Z :=
  match r with
  | GOutputV2 _ e _ => Z.max pos e
  | GViewportV2 _ covers _ _ _ _ | GAttachedV2 _ _ _ covers _ _ _ _ => Z.max pos covers
  | _ => pos
  end.
Definition response_ok (out : bytes) (pos : Z) (r : GhosttyResponse) : Prop :=
  match r with
  | GOutputV2 s e l => true_live out s e l
  | GViewportV2 _ covers _ _ _ _ | GAttachedV2 _ _ _ covers _ _ _ _ => pos ≤ covers
  | _ => True
  end.
Fixpoint socket_ok (out : bytes) (pos : Z) (rs : list GhosttyResponse) : Prop :=
  match rs with [] => True | r :: rs => response_ok out pos r ∧ socket_ok out (response_reach pos r) rs end.

Lemma in_order_app pos l l' : in_order pos (l ++ l') ↔ in_order pos l ∧ in_order (foldl reach pos l) l'.
Proof. revert pos. induction l as [|ev l IH]; intros pos; cbn; [tauto |]. rewrite IH. tauto. Qed.

Lemma reach_grows pos ev : pos ≤ reach pos ev.
Proof. unfold reach. repeat case_match; lia. Qed.

Lemma reach_mono pos pos' ev : pos ≤ pos' → reach pos ev ≤ reach pos' ev.
Proof. intros H. unfold reach. repeat case_match; lia. Qed.

Lemma in_order_le pos pos' l : pos' ≤ pos → in_order pos l → in_order pos' l.
Proof.
  revert pos pos'. induction l as [|ev l IH]; intros pos pos' Hle; cbn; [done |]. intros [H1 H2]. split; [| by eapply IH; [apply reach_mono |]].
  unfold covers_from in *. repeat case_match; try done; lia.
Qed.

(** Events that do not arrive do not matter. *)
Lemma in_order_sublist pos l l' : l' `sublist_of` l → in_order pos l → in_order pos l'.
Proof.
  intros Hs. revert pos. induction Hs as [|ev l' l _ IH|ev l' l _ IH]; intros pos; cbn; [done | |]; intros [H1 H2]; [by split; auto |].
  apply IH. eapply in_order_le; [| exact H2]. apply reach_grows.
Qed.

Section faithful.
Context {ZL : ZstdLaws}.
Variable out : bytes.

Record faithful (pos : Z) (d : Dispatch) : Prop := {
  faithful_order : in_order 0 (d_emitted d);
  faithful_true : Forall (true_event attach_id out) (d_emitted d);
  faithful_reach : foldl reach 0 (d_emitted d) ≤ pos;
}.

Lemma faithful_same pos d d' : faithful pos d → d_emitted d' = d_emitted d → faithful pos d'.
Proof. intros [H1 H2 H3] E. split; by rewrite E. Qed.

Lemma faithful_le pos pos' d : faithful pos d → pos ≤ pos' → faithful pos' d.
Proof. intros [H1 H2 H3] Hle. split; [done | done | lia]. Qed.

Lemma faithful_emitted pos ev d : faithful pos d → true_event attach_id out ev → covers_from pos ev → faithful (reach pos ev) (emitted ev d).
Proof.
  intros [H1 H2 H3] Ht Hc. split; cbn.
  - apply in_order_app. split; [done |]. split; [| done]. unfold covers_from in *. repeat case_match; try done; lia.
  - apply Forall_app. split; [done | by constructor].
  - rewrite foldl_app. cbn. by apply reach_mono.
Qed.

Lemma encoded_true l p s e : encode_auto l = Ok p → true_live out s e l → true_event attach_id out (OnLive (Frame (LiveOutput attach_id s e p))).
Proof.
  intros He Ht _ l' Hd. rewrite (payload_roundtrip l p _ He) in Hd by done. case_match; [| done]. by injection Hd as <-.
Qed.

Lemma faithful_control f pos d : faithful pos d → faithful pos (emitted (OnControl (Frame f)) (tried d)).
Proof. intros H. apply (faithful_emitted pos (OnControl (Frame f))); [by apply (faithful_same _ d) | done | done]. Qed.

Lemma faithful_recovery f id reason pos d : faithful pos d →
  wp (faithful pos) (send_control f;; request_anyway (RqViewport id reason);; mret false) (λ _ : bool, faithful pos) d.
Proof.
  intros H. apply wp_bind, wp_control; [by apply (faithful_same _ d) |]. pose proof (faithful_control f pos d H) as H'.
  apply wp_bind, wp_request_anyway; by eapply faithful_same.
Qed.

Lemma faithful_response id r pos d : faithful pos d → response_ok out pos r →
  wp (faithful (response_reach pos r)) (handle_attach_v2_response id r) (λ _, faithful (response_reach pos r)) d.
Proof.
  intros H Hr. assert (Hc : ∀ f b, wp (faithful pos) (control_anyway f;; mret b) (λ _ : bool, faithful pos) d).
  { intros f b. apply wp_bind, wp_control_anyway; [by apply (faithful_same _ d) | by apply faithful_control]. }
  destruct r as [| | | |s e l|g v cols rows i l|i n|i q pr l|i g|i|reason from| | |code|msg]; cbn [handle_attach_v2_response response_reach response_ok] in *; try done.
  - apply wp_ret, (faithful_le pos); [done | lia].
  - assert (Hd : faithful (Z.max pos e) d) by (eapply faithful_le; [done | lia]). apply wp_bind, wp_encoded; [done |]. intros p Hp. apply wp_bind, wp_get. unfold Datatypes.id.
    destruct (try_send _ _) as [c| |]; [| | done].
    + do 2 apply wp_bind, wp_assign. apply wp_ret, (faithful_emitted pos (OnLive (Frame (LiveOutput attach_id s e p)))); [by apply (faithful_same _ d) | by eapply encoded_true | done].
    + destruct (d_resync d); [done |]. apply wp_bind, wp_assign, faithful_recovery. by eapply faithful_same.
  - apply wp_bind, wp_assign, wp_bind, wp_encoded; [eapply (faithful_same _ d); [apply (faithful_le pos); [done | lia] | done] |]. intros p Hp.
    do 2 apply wp_bind, wp_assign. apply wp_ret, (faithful_emitted pos (OnViewport (Frame (ViewportSnapshot attach_id g v cols rows i p)))); [by apply (faithful_same _ d) | done | done].
  - apply wp_bind, wp_control; [by apply (faithful_same _ d) | by apply faithful_control].
  - apply wp_bind, wp_encoded; [done |]. intros p Hp. apply wp_bind, wp_get. unfold Datatypes.id. destruct (try_send _ _) as [c| |]; [| | done].
    + do 2 apply wp_bind, wp_assign. apply wp_ret, (faithful_emitted pos (OnHistory (Frame (ReloadChunk attach_id i q pr p)))); [by apply (faithful_same _ d) | done | done].
    + pose proof (faithful_control (ReloadCancelled attach_id i) pos d H) as H'. apply wp_bind, wp_control_anyway.
      all: do 2 (apply wp_bind, wp_request_anyway); try (by apply (faithful_same _ d)); by eapply faithful_same.
  - by apply faithful_recovery.
  - by apply faithful_recovery.
  - by apply faithful_recovery.
Qed.

Lemma faithful_request r pos d : faithful pos d → wp (faithful pos) (request r) (λ _, faithful pos) d.
Proof. intros H. apply wp_socket_request; by apply (faithful_same _ d). Qed.

Lemma faithful_track f pos d : faithful pos d → wp (faithful pos) (track f) (λ _, faithful pos) d.
Proof.
  intros H. unfold track. apply wp_bind, wp_get. unfold id. destruct (f (d_tracker d)) as [t [[i reason]|]]; apply wp_bind, wp_assign; [| by apply (faithful_same _ d)].
  apply faithful_request. by apply (faithful_same _ d).
Qed.

Lemma faithful_command c pos d : faithful pos d → wp (faithful pos) (dispatch_command c) (λ _, faithful pos) d.
Proof.
  intros H. destruct c; cbn [dispatch_command handle_attach_v2_command]; try (by apply faithful_request); [| by apply faithful_track].
  apply wp_bind. eapply wp_mono; [by apply faithful_request |]. intros [] d' H'. apply wp_bind, wp_assign, faithful_track. by apply (faithful_same _ d').
Qed.

Lemma faithful_pending reason pos d : faithful pos d → wp (faithful pos) (take_pending_resize reason) (λ _, faithful pos) d.
Proof.
  intros H. apply wp_bind, wp_get. unfold id. destruct (d_pending_resize d); [| done]. apply wp_bind, wp_assign, faithful_request. by apply (faithful_same _ d).
Qed.

(** The responses that were read *)
Definition response_of (t : DispatchTurn) : option GhosttyResponse := match t with OnResponse (SocketFrame r) => Some r | _ => None end.
Definition responses (ts : list DispatchTurn) : list GhosttyResponse := omap response_of ts.

Definition turn_reach (pos : Z) (t : DispatchTurn) : Z := match response_of t with Some r => response_reach pos r | None => pos end.

Lemma faithful_turn t pos d : faithful pos d → match response_of t with Some r => response_ok out pos r | None => True end →
  wp (faithful (turn_reach pos t)) (dispatch_turn t) (λ _, faithful (turn_reach pos t)) d.
Proof.
  intros H Hr. destruct t as [c| |s| | | |]; cbn [dispatch_turn]; [by apply faithful_command | by apply faithful_pending | | by apply (faithful_same _ d)..].
  destruct s as [r| |]; cbn [dispatch_response]; [| | done].
  - apply wp_bind, wp_get. unfold id. apply wp_bind. eapply wp_mono; [by apply faithful_response |]. intros [] d' Hd; [done |].
    destruct (_ && _); [by apply faithful_pending | done].
  - apply wp_bind, wp_control_anyway; [by apply (faithful_same _ d) | by apply faithful_control].
Qed.

Definition sound (d : Dispatch) : Prop := ∃ pos, faithful pos d.

Lemma sound_loop ts pos d : faithful pos d → socket_ok out pos (responses ts) → wp sound (attach_v2_dispatch_loop ts) (λ _, sound) d.
Proof.
  revert pos d. induction ts as [|t ts IH]; intros pos d H Hs; [by exists pos |]. cbn [attach_v2_dispatch_loop]. apply wp_bind.
  assert (Hcut : match response_of t with Some r => response_ok out pos r | None => True end ∧ socket_ok out (turn_reach pos t) (responses ts)).
  { unfold responses in Hs. cbn [omap list_omap] in Hs. unfold turn_reach. destruct (response_of t); [by destruct Hs | done]. }
  destruct Hcut as [H1 H2]. eapply wp_mono; [eapply wp_weaken; [| by apply (faithful_turn t pos)]; intros d' Hd; by exists (turn_reach pos t) |].
  intros [] d' Hd. by apply (IH (turn_reach pos t)).
Qed.

Lemma faithful_initial a : 0 ≤ a_covers a →
  wp sound (enqueue_initial_attach_v2_frames a) (λ _, faithful (a_covers a)) (new_session a).
Proof.
  intros H0. assert (H : faithful 0 (new_session a)) by (split; [done | constructor | done]). set (d := new_session a) in *. clearbody d.
  unfold enqueue_initial_attach_v2_frames. apply wp_bind, wp_control; [exists 0; by apply (faithful_same _ d) |].
  pose proof (faithful_control (AttachReady attach_id "ghostty") 0 d H) as H1. set (d1 := emitted _ _) in *. clearbody d1. apply wp_bind.
  assert (Hv : ∀ d, faithful 0 d → wp sound (p ← encoded (a_viewport a);
    let f := ViewportSnapshot attach_id (a_generation a) (a_covers a) (a_cols a) (a_rows a) (a_resize_id a) p in
    assign (set_viewport (Some f));; assign (emitted (OnViewport (Frame f)))) (λ _, faithful (a_covers a)) d).
  { intros d' Hd. apply wp_bind, wp_encoded; [by exists 0 |]. intros p _. apply wp_bind, wp_assign, wp_assign. rewrite <- (Z.max_r 0 (a_covers a)) at 1 by done.
    apply (faithful_emitted 0 (OnViewport (Frame (ViewportSnapshot _ _ _ _ _ _ _)))); [by apply (faithful_same _ d') | done | done]. }
  unfold queue_prelude. case_bool_decide; [by apply wp_ret, Hv |]. apply wp_bind, wp_encoded; [by exists 0 |]. intros p _. apply wp_bind, wp_get. unfold id.
  destruct (try_send _ _); [| by exists 0 | by exists 0]. apply wp_bind, wp_assign, wp_assign, Hv.
  apply (faithful_emitted 0 (OnHistory (Frame (PreludeChunk _ _ _ _)))); [by apply (faithful_same _ d1) | done | done].
Qed.

Lemma dispatch_sound a ts : 0 ≤ a_covers a → socket_ok out (a_covers a) (responses ts) →
  in_order 0 (d_emitted (session_dispatch a ts).1) ∧ Forall (true_event attach_id out) (d_emitted (session_dispatch a ts).1).
Proof.
  intros H0 Hs. cut (sound (session_dispatch a ts).1); [intros [pos [H1 H2 _]]; done |]. unfold session_dispatch.
  pose proof (faithful_initial a H0) as H. unfold wp in H. destruct (enqueue_initial_attach_v2_frames a (new_session a)) as [d [[]|e]]; [| done].
  pose proof (sound_loop ts (a_covers a) d H Hs) as Hl. unfold wp in Hl. destruct (attach_v2_dispatch_loop ts d) as [d' [[]|[]]]; [done | done |]. cbn.
  destruct Hl as [pos Hd]. exists pos. unfold control_anyway, try_control, attempt, mbind, step_bind. cbn.
  destruct (tries (d_tries d')); [by apply faithful_control | by apply (faithful_same _ d')].
Qed.
End faithful.
End dispatch.

(** ** The client when snapshots come in order *)

Section client.
Context {ZS : Zstd}.
Variable attach_id : bytes.
Variable keys_ok : nat → list Key * bool.
Variable clock : nat → Z.

Abbreviation Any := (λ _ : Client, True).

(** Neither the screen nor what is put aside for it is past a position. *)
Definition within (pos : Z) (c : Client) : Prop :=
  covered_live_seq c ≤ pos ∧ Forall (λ q, end_seq q ≤ pos) (queued_live (reload (shared c))).

Lemma within_le pos pos' c : within pos c → pos ≤ pos' → within pos' c.
Proof. intros [H1 H2] Hle. split; [lia |]. eapply Forall_impl; [exact H2 | cbn; lia]. Qed.

Lemma within_exchanged f keys p pos c : (∀ s, reload (f s) = reload s) → within pos c →
  within pos (exchanged (λ s, foldl (press attach_id) (f s) keys) p c).
Proof.
  intros Hf [H1 H2]. split; [done |]. unfold exchanged; cbn [shared].
  destruct (foldl_press attach_id keys (f (shared c))) as [-> | (-> & _)]; [by rewrite Hf | by constructor].
Qed.

Lemma within_paint p pos c : within pos c → wp Any (paint attach_id keys_ok p) (λ _, within pos) c.
Proof. intros Hc. apply wp_paint. intros keys. split; [done |]. by apply (within_exchanged id). Qed.

Lemma within_gap text reason pos c : within pos c →
  wp Any (paint_anyway attach_id keys_ok (PaintBar text);; assign (set_resync true);; request_viewport attach_id keys_ok reason) (λ _, within pos) c.
Proof.
  intros Hc. apply wp_bind, wp_paint_anyway. intros keys. apply wp_bind, wp_assign, wp_request. intros keys'. split; [done |].
  apply within_exchanged; [done |]. by apply (within_exchanged id).
Qed.

Lemma drained_below covered pos q : Forall (λ q, end_seq q ≤ pos) q → Forall (λ q, end_seq q ≤ pos) (drained covered q).
Proof.
  revert covered. induction q as [|live q IH]; intros covered Hq; cbn [drained]; [done |]. inversion Hq; subst.
  destruct (end_seq live <=? covered); [by apply IH |]. destruct (start_seq live <? covered); case_match; repeat constructor; cbn [end_seq]; auto.
Qed.

Lemma within_queued q pos c : within pos c → Forall (λ q, end_seq q ≤ pos) q → wp Any (paint_queued attach_id keys_ok clock q) (λ _, within pos) c.
Proof.
  intros Hc Hq. revert c Hc. induction Hq as [|live q Hl Hq IH]; intros c Hc; cbn [paint_queued]; [done |].
  apply wp_bind, wp_get. unfold id. destruct (covered_live_seq c <? start_seq live); [by apply within_gap |].
  assert (Hs : within pos (set_covered (end_seq live) c)) by (split; [done | apply Hc]). 
  assert (Hshow : ∀ p c', within pos c' → wp Any (paint attach_id keys_ok p;; paint_queued attach_id keys_ok clock q) (λ _, within pos) c').
  { intros p c' Hc'. apply wp_bind. eapply wp_mono; [by apply (within_paint _ pos) | intros []; apply IH]. }
  apply wp_bind, wp_assign, wp_bind, wp_dedup_now; [by apply Hshow.. |]. intros n d _ _. cbv zeta.
  destruct (live_output_overlaps_viewport _); [by apply wp_bind, wp_assign, IH | by apply Hshow].
Qed.

Lemma finish_below covers l pos r : Forall (λ q, end_seq q ≤ pos) (queued_live r) → let p := finish_reload_after_viewport covers l r in
  Forall (λ q, end_seq q ≤ pos) (queued_live p.1) ∧ Forall (λ q, end_seq q ≤ pos) p.2.
Proof.
  intros H p. subst p. unfold finish_reload_after_viewport, drain_queued_live. cbv zeta. cbn [fst snd queued_live]. split; [constructor |].
  apply drained_below. unfold record_post_reload_viewport. by destruct (state r).
Qed.

Lemma within_render generation covers l pos c : within pos c →
  wp Any (AttachV2.render_viewport attach_id keys_ok clock generation covers l) (λ _, within (Z.max pos covers)) c.
Proof.
  intros Hc. unfold render_viewport. do 5 apply wp_bind, wp_assign. apply wp_bind.
  eapply wp_mono; [apply (within_paint _ (Z.max pos covers)); destruct (within_le pos (Z.max pos covers) c Hc ltac:(lia)); destruct Hc; split; cbn; [lia | done] |].
  intros [] c1 H1. apply wp_bind, wp_get, wp_bind, wp_locked. destruct (finish_below covers l _ _ (proj2 H1)) as [Hk Hq].
  set (c2 := set_shared _ c1). assert (H2 : within (Z.max pos covers) c2) by (split; [apply H1 | done]). clearbody c2. apply wp_bind.
  set (q := (finish_reload_after_viewport covers l (reload (shared c1))).2) in *. clearbody q.
  assert (Hend : ∀ c, within (Z.max pos covers) c → wp Any (paint_queued attach_id keys_ok clock q;; paint_anyway attach_id keys_ok PaintClearBar)
    (λ _, within (Z.max pos covers)) c).
  { intros c' H'. apply wp_bind. eapply wp_mono; [by apply within_queued |]. intros [] c3 H3. apply wp_paint_anyway. intros keys. by apply (within_exchanged id). }
  match goal with |- wp _ (if ?b then _ else _) _ _ => destruct b end; [apply wp_bind, wp_now, wp_bind, wp_assign, wp_assign; by apply Hend | by apply wp_ret, Hend].
Qed.

Lemma within_control f pos c : within pos c → wp Any (handle_attach_v2_control_frame attach_id keys_ok f) (λ _, within pos) c.
Proof.
  intros Hc. assert (Hbar : ∀ c text, within pos c → wp Any (paint attach_id keys_ok (PaintBar text);; mret (@None AttachEnd)) (λ _, within pos) c).
  { intros c' text H'. apply wp_bind. eapply wp_mono; [by apply (within_paint _ pos) | done]. }
  assert (Hlock : ∀ g : ReloadCoordinator → ReloadCoordinator, (queued_live (g (reload (shared c))) = queued_live (reload (shared c)) ∨ queued_live (g (reload (shared c))) = []) →
    within pos (set_shared (on_reload g) c)).
  { intros g [Hg | Hg]; (split; [apply Hc |]); cbn; rewrite Hg; [apply Hc | constructor]. }
  destruct f as [| | | | |? i total| |? i ?|? i|? reason ?|? reason ?| |]; try done; cbn [handle_attach_v2_control_frame].
  - apply wp_bind, wp_locked, wp_bind. eapply wp_mono; [apply (within_paint _ pos), Hlock; cbn; unfold reload_start; case_decide; auto |].
    intros [] c' H'. by apply Hbar.
  - apply wp_bind, wp_locked, wp_bind. assert (H' : within pos (set_shared (on_reload (λ r, fst (mark_done i r))) c)) by (apply Hlock; left; apply mark_done_calm).
    destruct (snd _); [| done]. apply wp_bind. eapply wp_mono; [by apply (within_paint _ pos) |]. intros [] c'' H''. by apply within_paint.
  - apply wp_bind, wp_locked, wp_bind. assert (H' : within pos (set_shared (on_reload (λ r, fst (mark_cancelled i r))) c)) by (apply Hlock; right; apply mark_cancelled_calm).
    destruct (snd _); [| done]. apply wp_bind, wp_assign. by apply within_paint.
  - apply wp_bind, wp_assign. by apply Hbar.
  - apply wp_bind, wp_assign. by apply Hbar.
Qed.

Lemma within_live s e payload pos c : within pos c → wp Any (live_output attach_id keys_ok clock s e payload) (λ _, within (Z.max pos e)) c.
Proof.
  intros Hc. pose proof (within_le pos (Z.max pos e) c Hc ltac:(lia)) as Hm. unfold live_output. apply wp_bind, wp_get. unfold id.
  destruct (active_reload_id (reload_of c)) eqn:Ha.
  { apply wp_bind, wp_decode; [done |]. intros l _. apply wp_locked. split; [apply Hm |]. cbn. unfold handle_live_output, reload_of in *. rewrite Ha. cbn.
    apply Forall_app. split; [apply Hm |]. constructor; [cbn; lia | done]. }
  destruct (covered_live_seq c <? s); [by apply within_gap |]. apply wp_bind, wp_decode; [done |]. intros l _.
  assert (He : ∀ c', queued_live (reload (shared c')) = queued_live (reload (shared c)) → within (Z.max pos e) (set_covered e c')).
  { intros c' Hq. split; [cbn; lia |]. cbn. rewrite Hq. apply Hm. }
  destruct (post_reload_dedup_until c) as [d|]; [| apply wp_bind, wp_assign, within_paint; by apply He].
  apply wp_bind, wp_now. destruct ((_ <=? _) && _); [apply wp_bind, wp_assign, wp_assign; by apply (He c) |].
  apply wp_bind, wp_now, wp_bind. match goal with |- wp _ (if ?b then _ else _) _ _ => destruct b end.
  - apply wp_assign, wp_bind, wp_assign, within_paint. by apply He.
  - apply wp_ret, wp_bind, wp_assign, within_paint. by apply He.
Qed.

Lemma within_step ev pos c : within pos c → wp Any (loop_step attach_id keys_ok clock ev) (λ _, within (reach pos ev)) c.
Proof.
  intros Hc. pose proof (within_le pos (reach pos ev) c Hc (reach_grows pos ev)) as Hm. apply wp_bind, wp_get. unfold id. destruct ev as [r|r|r|r|e|v|k].
  - destruct r as [f| |]; [| done..]. cbn [control_step]. destruct (attach_v2_frame_matches f attach_id); [| done].
    apply wp_bind. eapply wp_mono; [by apply (within_control f pos) |]. intros [e|] c' Hc'; [done |].
    apply wp_bind, wp_bind, wp_get. unfold id. destruct (viewport_deferred c' && _); [| done].
    apply wp_bind, wp_assign, wp_ret, wp_request. intros keys. split; [done |]. by apply within_exchanged.
  - destruct (viewport_open c); [| done]. destruct r as [f| |]; [| done..]. destruct f as [| | |a g v cols rows i payload| | | | | | | | |]; try done.
    cbn [viewport_step reach] in *. destruct (bool_decide _); [| done]. apply wp_bind, wp_get. unfold Datatypes.id.
    destruct (attach_v2_viewport_decision _ _ _ _ _ _ _); [| done | by case_match]. apply wp_bind, wp_decode; [done |]. intros l _. by apply within_render.
  - destruct (history_open c); [| done]. destruct r as [f| |]; [| done..]. destruct f; try done; cbn [history_step]; (case_bool_decide; [| done]).
    + apply wp_bind, wp_get. unfold id. destruct (viewport_seen c); [done |]. apply wp_bind, wp_decode; [done |]. intros l _. by apply within_paint.
    + apply wp_bind, wp_get. unfold Datatypes.id. destruct (accepts_chunk _ _); [| done]. apply wp_bind, wp_paint_anyway.
      intros keys. apply wp_bind, wp_decode; [done |]. intros l _. by apply (within_exchanged Datatypes.id).
  - destruct (live_open c); [| done]. destruct r as [f| |]; [| done..]. destruct f; try done. cbn [live_step]. apply wp_bind, wp_get. unfold id.
    destruct (_ && _); [by apply within_live | done].
  - by destruct e as [[]|].
  - done.
  - by apply (within_exchanged id [k] [] pos c) in Hc.
Qed.

(** Every snapshot that is rendered covers the screen and all that has arrived. *)
Lemma in_order_rendered evs pos seen c : within pos c → seen ≤ pos → in_order pos evs →
  rendered_when attach_id keys_ok clock (λ c seen covers, covered_live_seq c ≤ covers ∧ seen ≤ covers) seen c evs.
Proof.
  revert pos seen c. induction evs as [|ev evs IH]; intros pos seen c Hc Hs; cbn [in_order rendered_when]; [done |]. intros [H1 H2]. split.
  - intros covers Hr. unfold renders in Hr. repeat case_match; simplify_eq/=. destruct Hc. lia.
  - pose proof (within_step ev pos c Hc) as Hw. unfold wp in Hw. destruct (loop_step attach_id keys_ok clock ev c) as [c' [[]|e]]; [| done].
    apply (IH (reach pos ev)); [done | | done]. unfold arrived, reach. repeat case_match; lia.
Qed.
End client.

(** ** The handler of a client in the helper's process *)

(** What [handle_client] has done for an attached client: how many events it took, what it wrote to the socket, and whether it
    has returned *)
Record Link (T : Type) := { lk_helper : Helper T; lk_events : nat; lk_socket : list GhosttyResponse; lk_over : bool }.
Arguments lk_helper {T} _.
Arguments lk_events {T} _.
Arguments lk_socket {T} _.
Arguments lk_over {T} _.

Section handler.
Context {T : Type} (lib : TerminalLib T).

Definition everyone (h : Helper T) : list GhosttyV2Subscriber := v2_subscribers (clients h) ++ gone_v2 (clients h).

Definition wrote (r : GhosttyResponse) (over : bool) (h : Helper T) (events : nat) (l : Link T) : Link T :=
  {| lk_helper := h; lk_events := events; lk_socket := lk_socket l ++ [r]; lk_over := over |}.

Definition ends_attach (r : GhosttyResponse) : bool := match r with GExit _ | GError _ => true | _ => false end.

(** The requests of the client are commands in the queue of the helper, which it comes to when it does; the handler waits only for
    the answer to a request of a snapshot.  Of which reload a message is does not matter here. *)
Inductive handle_client (id : nat) : Link T → Link T → Prop :=
  | others_go_on t l : t ≠ TakeLive id →
      handle_client id l {| lk_helper := system_step lib t (lk_helper l); lk_events := lk_events l; lk_socket := lk_socket l; lk_over := lk_over l |}
  | writes_live s f ch l : lk_over l = false → s ∈ everyone (lk_helper l) → v_id s = id → recv (v_live s) = Some (f, ch) →
      handle_client id l (wrote (GOutputV2 (live_start f) (live_end f) (live_payload f)) false (system_step lib (TakeLive id) (lk_helper l)) (lk_events l) l)
  | writes_event s r l : lk_over l = false → s ∈ everyone (lk_helper l) → v_id s = id → v_events s !! lk_events l = Some r →
      handle_client id l (wrote r (ends_attach r) (lk_helper l) (S (lk_events l)) l)
  | writes_reload ch j r l : lk_over l = false → (ch, j) ∈ reload_jobs (lk_helper l) ++ gone_jobs (lk_helper l) → r ∈ ch_sent ch →
      handle_client id l (wrote r false (lk_helper l) (lk_events l) l)
  | writes_viewport cut e resize_id h r l : lk_over l = false →
      helper_turn lib cut (OnHelperCommand e (ViewportCommand resize_id)) (lk_helper l) = (h, Runs (ViewportReply r)) →
      handle_client id l (wrote r false h (lk_events l) l)
  | writes_cancelled reload_id l : lk_over l = false → handle_client id l (wrote (GReloadCancelledV2 reload_id) false (lk_helper l) (lk_events l) l)
  | writes_queue_full reason l : lk_over l = false → reason = "input_queue_full" ∨ reason = "resize_queue_full" →
      handle_client id l (wrote (GResyncRequiredV2 reason 0) false (lk_helper l) (lk_events l) l)
  | returns l : handle_client id l {| lk_helper := lk_helper l; lk_events := lk_events l; lk_socket := lk_socket l; lk_over := true |}.

(** The answer to an attach *)
Inductive attached (h0 : Helper T) (id : nat) (r : GhosttyResponse) (l : Link T) : Prop :=
  | attached_by cut e cols rows prelude_max_bytes :
      helper_turn lib cut (OnHelperCommand e (SubscribeV2 cols rows prelude_max_bytes)) h0 = (lk_helper l, Runs (AttachedV2Reply id r)) →
      lk_events l = 0%nat → lk_socket l = [r] → lk_over l = false → attached h0 id r l.

Definition out_of (l : Link T) : bytes := all_output (log_of (lk_helper l)).

Record link_ok (l : Link T) : Prop := {
  link_helper : helper_ok (lk_helper l);
  link_jobs : jobs_ok (lk_helper l);
  link_socket : socket_ok (out_of l) 0 (lk_socket l);
  link_reach : foldl response_reach 0 (lk_socket l) ≤ len (out_of l);
}.

Lemma socket_ok_snoc out pos rs r : socket_ok out pos (rs ++ [r]) ↔ socket_ok out pos rs ∧ response_ok out (foldl response_reach pos rs) r.
Proof. revert pos. induction rs as [|r' rs IH]; intros pos; cbn; [tauto |]. rewrite IH. tauto. Qed.

Lemma socket_ok_prefix out pos rs rs' : socket_ok out pos (rs ++ rs') → socket_ok out pos rs.
Proof. revert pos. induction rs as [|r rs IH]; intros pos; cbn; [done |]. intros [H1 H2]. split; [done | by apply IH]. Qed.

Lemma socket_ok_grows out o pos rs : socket_ok out pos rs → socket_ok (out ++ o) pos rs.
Proof.
  revert pos. induction rs as [|r rs IH]; intros pos; cbn; [done |]. intros [H1 H2]. split; [| auto].
  destruct r; cbn in *; try done. apply (frame_true_app out o {| live_start := start_seq; live_end := end_seq; live_payload := l |} H1).
Qed.

Lemma response_reach_mono pos pos' r : pos ≤ pos' → response_reach pos r ≤ response_reach pos' r.
Proof. intros H. unfold response_reach. case_match; lia. Qed.

Lemma link_wrote r over h events l : link_ok l → lk_helper l = h → response_ok (out_of l) (len (out_of l)) r →
  response_reach (len (out_of l)) r ≤ len (out_of l) → link_ok (wrote r over h events l).
Proof.
  intros [H1 H2 H3 H4] <- Hr Hre. split; [done | done | |]; cbn.
  - apply socket_ok_snoc. split; [done |]. destruct r; cbn [response_ok] in *; try done; lia.
  - rewrite foldl_app. cbn. etrans; [| exact Hre]. by apply response_reach_mono.
Qed.

(** The helper goes on. *)
Lemma link_system t l : link_ok l → len (all_output (log_of (system_step lib t (lk_helper l)))) ≤ U64_MAX →
  link_ok {| lk_helper := system_step lib t (lk_helper l); lk_events := lk_events l; lk_socket := lk_socket l; lk_over := lk_over l |}.
Proof.
  intros [H1 H2 H3 H4] Hlen. destruct (step_grows lib t (lk_helper l)) as [o Ho]. split.
  - by apply system_step_ok.
  - by apply step_jobs_ok.
  - unfold out_of in *. cbn. rewrite Ho. by apply socket_ok_grows.
  - unfold out_of in *. cbn [lk_helper lk_socket] in *. rewrite Ho, len_app. pose proof (len_nonneg o). lia.
Qed.

Lemma frames_true l s f ch : link_ok l → s ∈ everyone (lk_helper l) → recv (v_live s) = Some (f, ch) → frame_true (out_of l) f.
Proof.
  intros [[_ _ _ [Hk Hg]] _ _ _] Hin Hr. assert (Ht : told (out_of l) s).
  { unfold everyone in Hin. rewrite Forall_forall in Hk, Hg. apply elem_of_app in Hin as [Hin|Hin]; [by apply Hk | by apply Hg]. }
  destruct Ht as [Ht _ _ _ _]. unfold recv in Hr. destruct (ch_sent (v_live s) !! ch_taken (v_live s)) as [f'|] eqn:Hl; [| done]. injection Hr as -> _.
  rewrite Forall_lookup in Ht. by eapply Ht.
Qed.

Lemma events_calm l s r : link_ok l → s ∈ everyone (lk_helper l) → r ∈ v_events s → is_event r = true.
Proof.
  intros [[_ _ _ [Hk Hg]] _ _ _] Hin Hr. rewrite Forall_forall in Hk, Hg. assert (Ht : told (out_of l) s).
  { apply elem_of_app in Hin as [Hin|Hin]; [by apply Hk | by apply Hg]. }
  destruct Ht as [_ _ _ _ He]. rewrite Forall_forall in He. by apply He.
Qed.

Lemma reload_calm l ch j r : link_ok l → (ch, j) ∈ reload_jobs (lk_helper l) ++ gone_jobs (lk_helper l) → r ∈ ch_sent ch → is_reload r = true.
Proof.
  intros [_ [Hk Hg] _ _] Hin Hr. rewrite Forall_forall in Hk, Hg. assert (Hj : job_ok (ch, j)).
  { apply elem_of_app in Hin as [Hin|Hin]; [by apply Hk | by apply Hg]. }
  destruct Hj as [Hc _]. unfold chan_ok in Hc. rewrite Forall_forall in Hc. by apply Hc.
Qed.

Lemma handler_grows id l l' : handle_client id l l' → ∃ o, out_of l' = out_of l ++ o.
Proof.
  destruct 1 as [t l Ht|s f ch l _ Hin Hid Hr|s r l _ Hin Hid Hr|ch j r l _ Hin Hr|cut e i h r l _ Ht|i l _|reason l _ _|l]; try (exists []; by rewrite app_nil_r).
  - apply step_grows.
  - destruct (step_grows lib (HelperStep cut (OnHelperCommand e (ViewportCommand i))) (lk_helper l)) as [o Ho]. exists o. cbn [system_step] in Ho. by rewrite Ht in Ho.
Qed.

Lemma handler_ok id l l' : link_ok l → handle_client id l l' → len (out_of l') ≤ U64_MAX → link_ok l'.
Proof.
  intros Hok Hs Hlen. destruct Hs as [t l Ht|s f ch l _ Hin Hid Hr|s r l _ Hin Hid Hr|ch j r l _ Hin Hr|cut e i h r l _ Ht|i l _|reason l _ _|l].
  - by apply link_system.
  - pose proof (frames_true l s f ch Hok Hin Hr) as Hf. pose proof (link_system (TakeLive id) l Hok Hlen) as Hok'.
    apply (link_wrote (GOutputV2 (live_start f) (live_end f) (live_payload f)) false _ (lk_events l) _ Hok'); [done | exact Hf |]. destruct Hf as (_ & He & _). cbn. unfold out_of, len in *. cbn in *. lia.
  - pose proof (events_calm l s r Hok Hin (list_elem_of_lookup_2 _ _ _ Hr)) as He. apply link_wrote; [done | done | by destruct r | by destruct r].
  - pose proof (reload_calm l ch j r Hok Hin Hr) as He. apply link_wrote; [done | done | by destruct r | by destruct r].
  - pose proof (link_system (HelperStep cut (OnHelperCommand e (ViewportCommand i))) l Hok) as Hok'. cbn [system_step] in Hok'. rewrite Ht in Hok'. cbn [fst] in Hok'.
    specialize (Hok' Hlen). apply (link_wrote r false h (lk_events l) _ Hok'); [done | |].
    all: unfold helper_turn in Ht; cbn [helper_command] in Ht; injection Ht as <- <-; destruct Hok' as [[_ Hseq _ _] _ _ _]; cbn in *; unfold out_of; cbn; lia.
  - by apply link_wrote.
  - by apply link_wrote.
  - by destruct Hok.
Qed.

Lemma attached_ok h0 id r l : helper_ok h0 → jobs_ok h0 → attached h0 id r l → len (out_of l) ≤ U64_MAX →
  link_ok l ∧ ∃ a, attach_of r = Some a ∧ 0 ≤ a_covers a ∧ response_reach 0 r = a_covers a.
Proof.
  intros Hok Hj [cut e cols rows pre Ht _ Hs _] Hlen. set (t := HelperStep cut (OnHelperCommand e (SubscribeV2 cols rows pre))).
  assert (Hh : lk_helper l = system_step lib t h0) by (unfold t; cbn [system_step]; by rewrite Ht).
  assert (Hok' : helper_ok (lk_helper l)). { rewrite Hh. apply system_step_ok; [done |]. unfold out_of in Hlen. by rewrite Hh in Hlen. }
  assert (Hj' : jobs_ok (lk_helper l)) by (rewrite Hh; by apply step_jobs_ok).
  assert (Hr : ∃ m p v g cols rows i, r = GAttachedV2 m p v (len (out_of l)) g cols rows i).
  { pose proof (ok_seq _ Hok') as Hq. unfold out_of. rewrite <- Hq. unfold helper_turn in Ht. cbn [helper_command] in Ht. unfold subscribe_v2_command in Ht.
    destruct (resize_helper lib _ _ rows cols (poll_jobs cut h0)) as [h1 ok]. injection Ht as <- _ <-. by repeat eexists. }
  destruct Hr as (m & p & v & g & cols' & rows' & i & ->). pose proof (len_nonneg (out_of l)). split.
  - split; [done | done | |]; rewrite Hs; cbn; [done | lia].
  - eexists. split_and!; [done | done | cbn; lia].
Qed.

Lemma run_handler_ok id l l' : rtc (handle_client id) l l' → (len (out_of l) ≤ U64_MAX → link_ok l) → len (out_of l') ≤ U64_MAX → link_ok l' ∧ len (out_of l) ≤ U64_MAX.
Proof.
  induction 1 as [l|l l1 l' Hs Hrun IH]; intros Hok Hlen; [by split; [apply Hok |] |]. destruct (handler_grows id l l1 Hs) as [o Ho].
  assert (Hle : len (out_of l) ≤ len (out_of l1)) by (rewrite Ho, len_app; pose proof (len_nonneg o); lia).
  destruct IH as [H1 H2]; [intros Hl1; eapply handler_ok; [apply Hok; lia | done | done] | done |]. split; [done | lia].
Qed.

Lemma socket_grows id l l' : rtc (handle_client id) l l' → lk_socket l `prefix_of` lk_socket l'.
Proof. induction 1 as [|l l1 l' Hs _ IH]; [done |]. etrans; [| exact IH]. destruct Hs; cbn; done || by eexists. Qed.
End handler.

(** ** From the process to the screen *)

(** What comes from the dispatcher; the client has other events of its own. *)
Definition from_dispatcher (ev : Event) : bool :=
  match ev with OnControl (Frame _) | OnViewport (Frame _) | OnHistory (Frame _) | OnLive (Frame _) => true | _ => false end.
Definition server_events (evs : list Event) : list Event := filter (λ ev, from_dispatcher ev = true) evs.

Lemma in_order_server pos evs : in_order pos (server_events evs) → in_order pos evs.
Proof.
  revert pos. induction evs as [|ev evs IH]; intros pos; [done |]. unfold server_events. rewrite filter_cons. destruct (decide (from_dispatcher ev = true)) as [Hf|Hf].
  - intros [H1 H2]. split; [done | by apply IH].
  - intros H. assert (Hq : covers_from pos ev ∧ reach pos ev = pos) by (destruct ev as [[]|[]|[]|[]| | |]; done). cbn. destruct Hq as [Hq ->]. split; [done | by apply IH].
Qed.

Lemma true_server attach_id `{Zstd} out evs : Forall (true_event attach_id out) (server_events evs) → Forall (true_event attach_id out) evs.
Proof.
  intros H'. rewrite Forall_forall in H' |- *. intros ev Hin. destruct (from_dispatcher ev) eqn:Hf.
  - apply H'. apply list_elem_of_filter. by split.
  - by destruct ev as [[]|[]|[]|[]| | |].
Qed.

Section chain.
Context {ZS : Zstd} {ZL : ZstdLaws} {T : Type} (lib : TerminalLib T).
Variable attach_id : bytes.
Variable tries : nat → bool.
Variable keys_ok : nat → list Key * bool.
Variable clock : nat → Z.

(** A session that has run for a while, a client that attaches to it, what the handler then writes and what the dispatcher reads
    of that, frame by frame ([read_frame], a branch of [select!], may lose the part of a frame it has read), and what of the frames
    it puts on the streams arrives, in the order it put them there *)
Definition chain (t : T) (m : GhosttySessionMetadata) (ts : list SystemStep) (l : Link T) (dts : list DispatchTurn) (evs : list Event) : Prop :=
  ∃ id r l0 a, attached lib (system_run lib (new_helper t m) ts) id r l0 ∧ rtc (handle_client lib id) l0 l ∧ attach_of r = Some a ∧
    r :: responses dts `prefix_of` lk_socket l ∧ server_events evs `sublist_of` d_emitted (session_dispatch attach_id tries a dts).1.

Lemma chain_events t m ts l dts evs : chain t m ts l dts evs → len (out_of l) ≤ U64_MAX → in_order 0 evs ∧ Forall (true_event attach_id (out_of l)) evs.
Proof.
  intros (id & r & l0 & a & Hatt & Hrun & Ha & Hpre & Hsub) Hlen. set (h0 := system_run lib (new_helper t m) ts) in *.
  assert (Hj : jobs_ok h0) by (apply run_jobs_ok; by split; constructor).
  assert (Hh : len (out_of l0) ≤ U64_MAX → helper_ok h0).
  { intros Hl. apply run_ok; [apply new_helper_ok |]. destruct Hatt as [cut e cols rows pre Ht _ _ _].
    destruct (step_grows lib (HelperStep cut (OnHelperCommand e (SubscribeV2 cols rows pre))) h0) as [o Ho]. cbn [system_step] in Ho. rewrite Ht in Ho. cbn [fst] in Ho.
    unfold out_of in Hl. rewrite Ho, len_app in Hl. pose proof (len_nonneg o). fold h0. lia. }
  destruct (run_handler_ok lib id l0 l Hrun) as [Hok Hl0]; [| done |].
  { intros Hl. destruct (attached_ok lib h0 id r l0 (Hh Hl) Hj Hatt Hl) as [H _]. done. }
  destruct (attached_ok lib h0 id r l0 (Hh Hl0) Hj Hatt Hl0) as (_ & a' & Ha' & H0 & Hreach). rewrite Ha in Ha'. injection Ha' as <-.
  assert (Hs : socket_ok (out_of l) (a_covers a) (responses dts)).
  { destruct Hok as [_ _ Hs _]. destruct Hpre as [k Hk]. rewrite Hk in Hs. rewrite <- Hreach. destruct Hs as [_ Hs]. by eapply socket_ok_prefix. }
  destruct (dispatch_sound attach_id tries (out_of l) a dts H0 Hs) as [Ho Ht]. split.
  - apply in_order_server. by eapply in_order_sublist.
  - apply true_server. rewrite Forall_forall in Ht |- *. intros ev Hev. apply Ht. by eapply elem_of_submseteq; [| apply sublist_submseteq].
Qed.

(** C9: of a ghostty session, whatever the process, the other clients, the helper, the handler, the dispatcher and the user
    do, and whichever frames of the dispatcher do not arrive: what the client has put on the terminal is, from the last
    snapshot on, the output of the process without a repetition, up to the position it takes itself to be at, and
    as long as it does not wait for a snapshot that is everything that has arrived.  Only live frames that start a full-screen
    program within a second of a reload are left out: the terminal lacks no other output, and none where nothing was reloaded. *)
Theorem attach_shows_output t m ts l dts evs cols rows c0 : chain t m ts l dts evs → len (out_of l) ≤ U64_MAX → opened attach_id keys_ok clock cols rows = (c0, Ok tt) →
  let c := fst (run_remote_attach_v2_once attach_id keys_ok clock None cols rows evs) in
  (∃ scr, shown (out_of l) (log c) = Some scr ∧ upto scr = covered_live_seq c ∧ lacks_little (out_of l) (log c) scr) ∧
  (run_remote_attach_v2_once attach_id keys_ok clock None cols rows evs = (c, Ok tt) → resync_pending c = true ∨ is_Some (active_reload_id (reload_of c)) ∨
     received attach_id keys_ok clock 0 c0 evs ≤ covered_live_seq c).
Proof.
  intros Hchain Hlen Ho. destruct (chain_events t m ts l dts evs Hchain Hlen) as [Hin Ht]. destruct (opened_shape _ _ _ _ _ _ Ho) as (_ & Hc & _ & Hq & _).
  assert (Hr : rendered_when attach_id keys_ok clock (λ c seen covers, covered_live_seq c ≤ covers ∧ seen ≤ covers) 0 c0 evs).
  { apply (in_order_rendered _ _ _ _ 0); [| done | done]. split; [by rewrite Hc | rewrite Hq; constructor]. }
  cbv zeta. rewrite (opened_run _ _ _ _ _ _ _ Ho). split.
  - apply (run_loop_screen attach_id keys_ok clock (out_of l) evs 0 c0); [by eapply opened_seamless | done |].
    revert Hr. apply rendered_mono. by intros ??? [].
  - intros Hrun. pose proof (run_loop_current attach_id keys_ok clock evs 0 c0) as H1. unfold wp in H1. rewrite Hrun in H1. apply H1; [right; right; lia |].
    revert Hr. apply rendered_mono. by intros ??? [].
Qed.
End chain.

(** ** One attach *)

Module Demo.
Import Framing.Payload.Demo.
Import GhosttyHelper.Demo.

Definition me : bytes := [9].
Definition works (n : nat) : bool := true.
Definition calm (n : nat) : list Key * bool := ([], true).
Definition clock (n : nat) : Z := Z.of_nat n.

(** The process writes a byte, the client attaches, and the process writes two more. *)
Definition before : Helper bytes := Eval vm_compute in system_run lib (new_helper [] meta) [writes [104]].
Definition h1 : Helper bytes := Eval vm_compute in (helper_turn lib 0 (OnHelperCommand around (SubscribeV2 80 24 0)) before).1.
Definition reply : GhosttyResponse := Eval vm_compute in
  match (helper_turn lib 0 (OnHelperCommand around (SubscribeV2 80 24 0)) before).2 with Runs (AttachedV2Reply _ r) => r | _ => GError "" end.
Definition h2 : Helper bytes := Eval vm_compute in system_step lib (writes [105; 33]) h1.

Definition l0 : Link bytes := {| lk_helper := h1; lk_events := 0; lk_socket := [reply]; lk_over := false |}.
Definition l1 : Link bytes := {| lk_helper := h2; lk_events := 0; lk_socket := [reply]; lk_over := false |}.
Definition l2 : Link bytes := Eval vm_compute in wrote (GOutputV2 1 3 [105; 33]) false (system_step lib (TakeLive 0) h2) 0 l1.

Lemma linked : rtc (handle_client lib 0) l0 l2.
Proof.
  eapply rtc_l; [apply (others_go_on lib 0 (writes [105; 33])); done |]. eapply rtc_l; [| apply rtc_refl].
  eapply (writes_live lib 0 _ {| live_start := 1; live_end := 3; live_payload := [105; 33] |} _ l1); [done | apply elem_of_app; left; by apply list_elem_of_singleton | done | done].
Qed.

Definition turns : list DispatchTurn := [OnResponse (SocketFrame (GOutputV2 1 3 [105; 33]))].
Definition a0 : GhosttyAttachV2 := {| a_prelude := []; a_viewport := []; a_covers := 1; a_generation := 1; a_cols := 80; a_rows := 24; a_resize_id := 0 |}.
Definition arrives : list Event := [OnViewport (Frame (ViewportSnapshot me 1 1 80 24 0 (raw []))); OnInput (Some EvRetryNow); OnLive (Frame (LiveOutput me 1 3 (raw [105; 33])))].

Lemma linked_chain : chain lib me works [] meta [writes [104]] l2 turns arrives.
Proof.
  exists 0%nat, reply, l0, a0. split_and!.
  - by apply (attached_by lib _ _ _ _ 0 around 80 24 0).
  - apply linked.
  - done.
  - by exists [].
  - apply sublist_cons, sublist_skip, sublist_skip. done.
Qed.

Definition c0 : Client := Eval vm_compute in fst (opened me calm clock 80 24).

Lemma attach_shows_output_witness : let c := fst (run_remote_attach_v2_once me calm clock None 80 24 arrives) in
  ∃ scr, shown [104; 105; 33] (log c) = Some scr ∧ upto scr = covered_live_seq c ∧ lacks_little [104; 105; 33] (log c) scr.
Proof.
  apply (attach_shows_output lib me works calm clock [] meta [writes [104]] l2 turns arrives 80 24 c0 linked_chain); [done | done].
Defined.

(** A snapshot that is asked for before its resize waits for it. *)
Definition early : list DispatchTurn := [OnAttachCommand (CmdRequestViewport 1 "gap"); OnAttachCommand (CmdResize 1 100 30)].

Lemma snapshot_after_resize_witness : 1 ≤ 0 ∨ ∃ id' cols rows, RqResize id' cols rows ∈ [RqResize 1 100 30] ∧ 1 ≤ id'.
Proof. by apply (snapshot_after_resize me works a0 early [RqResize 1 100 30] 1 "gap" []). Defined.
End Demo.
